(* ===== verification/_CoqProject ===== *)
-Q . S2P
Prelude.v
Float64.v
Types.v
Slice.v
Content.v
Encoding.v
BitStream.v
BitReader.v
Varbit.v
VarbitXor.v
Gorilla.v
Merge.v
ChunkOps.v
Uncompressed.v
Codec.v
GorillaChunk.v
ChimpXor.v
FloatBounds.v
Elf64.v
Log10Ref.v
ChimpCompressor.v
ChimpProofs.v
ChimpChunk.v
ChunkMethods.v
TimeSeriesChunk.v
ChunkSearch.v
SeriesIterator.v
Rounding.v
TimeSeries.v
SeriesLaws.v
SeriesReads.v
SeriesWrites.v
SeriesProps.v
BulkAdd.v
BulkLaws.v
BulkProps.v
Aggregators.v
AggregateIterator.v
AggregateLaws.v
AggregateColumns.v
AggregateProps.v
TimestampRange.v
TimestampFilter.v
RangeQuery.v
RangeLaws.v
FilteredReads.v
RangeProps.v
MultiSeries.v
MultiLaws.v
PartialReducer.v
PartialLaws.v
MRange.v
PivotLaws.v
FanoutCodec.v
MRangeFanout.v
AnswerLaws.v
MRangeLaws.v
CodecLaws.v
FanoutLaws.v
FanoutPartials.v
MRangeProps.v
LabelFilters.v
Postings.v
PostingsLaws.v
PostingsRun.v
TimeSeriesIndex.v
IndexLaws.v
Querier.v
QuerierLaws.v
IndexProps.v
Join.v
JoinLaws.v
JoinProps.v
Compaction.v
CompactionLaws.v
CompactionBatch.v
CompactionGraph.v
CascadeLaws.v
CompactionFeeds.v
CompactionProps.v
