(* ===== verification/Prelude.v ===== *)
(** * valkey-timeseries: a verification of the storage and query core

    valkey-timeseries is a module for the Valkey server that stores time series.
    A series ([series/time_series.rs]) is a list of chunks in time order; a chunk
    ([series/chunks]) holds samples in one of three encodings, uncompressed,
    Gorilla or Chimp; the two compressed encodings write a bit stream.  Commands
    reach a series through adds, batches, deletes, range queries and iterators.
    A range query ([iterators]) reads a window of a series through filters and
    may aggregate it into buckets ([aggregators]).  A compaction rule
    ([series/compaction.rs]) keeps an aggregated copy of a series in another one.
    This development models that core from the bit stream up to range queries and
    rules, and over them queries of several series on one node ([series/mrange.rs],
    [series/nrange.rs]) and in a cluster ([commands/ts_mrange_fanout_command.rs]).
    The series of such a query are chosen by filters on their labels
    ([labels/filters.rs]) through an inverted index ([series/index]), which is
    modelled with its queries, its statistics and its upkeep.  The development
    proves that each layer of the store is a faithful store of a time-ordered
    list of samples, that a query is a function of that list, that the copies
    follow their source, that a cluster answers as one node, and that the index
    answers for exactly the series that exist.  All paths below are relative to
    [src/src].

    ** Data

    - Integers are [Z] with the width written out ([wrap_u64], [sat_i64], ...).
      An [f64] is its 64-bit pattern; arithmetic goes through the standard
      library's binary64 ([Float64]), so NaN payloads and signed zeros are kept.
    - Fallible code returns [result]; [let?] is the [?] operator.  A method that
      changes its receiver returns the new one.
    - Sizes are [Z]; indices into lists are [nat].  Lengths that come from memory
      are bounded where it matters by [fits_memory].

    ** Files and what they model

    - [Prelude], [Float64], [Slice], [Content]: results, machine integers, [f64]
      operations, [slice] methods; time-ordered lists of samples with [select]
      (a time window), [remove], [list_upsert] and [upsert_all] (insertion under
      a duplicate policy): the abstract specification of everything below.
    - [Types]: [common/types.rs], [series/types.rs], [error.rs]: samples,
      duplicate policies, the IGNORE filter, results of an add, value filters.
    - [Encoding]: [common/encoding.rs].  [BitStream], [BitReader], [Varbit]:
      [series/chunks/stream]; a stream denotes the list of its bits.
    - [VarbitXor], [Gorilla]: the XOR code, encoder and iterator of
      [series/chunks/gorilla].  [ChimpXor], [Elf64], [ChimpCompressor],
      [ChimpProofs]: the XOR coder, the erasing step and the compressor of
      [series/chunks/chimp]; [FloatBounds] has the order and rounding
      of floats it needs, [Log10Ref] the instance of its one parameter.
    - [ChunkOps]: the traits of [series/chunks/chunk.rs] as the class
      [ChunkOps] and what every encoding promises as the class [ChunkLaws].
      [Uncompressed], [Codec] (one chunk over any sample codec), [GorillaChunk]
      and [ChimpChunk] are its instances; [TimeSeriesChunk] is the enum that
      dispatches to them.  [Merge] and [ChunkMethods] are [chunks/merge.rs],
      [iterators/sample_merge_iterator.rs] and the methods of
      [timeseries_chunk.rs] that use only the trait.
    - [ChunkSearch], [SeriesIterator], [Rounding], [TimeSeries]: the searches
      over the chunks, [series_sample_iterator.rs], [common/rounding.rs] and
      [time_series.rs].  [BulkAdd]: [ingest_normalize.rs], the merge core of
      [bulk_add.rs] and [merge_samples] of [sample_merge.rs].
    - [SeriesLaws], [SeriesReads], [SeriesWrites], [BulkLaws]: the invariant
      [series_rep] and what each operation does to the stored list.
      [SeriesProps] and [BulkProps] state the results.
    - [Aggregators], [AggregateIterator]: [aggregators/handlers.rs], its filtered
      and boolean aggregators, and the bucket iterators of
      [aggregators/aggregate_iterator.rs] with the empty fill.  The class
      [AggregationHandler] is the trait, [AggregatorLaws] what the iterator
      relies on.  [AggregateLaws] proves the iterator equal to rows of a uniform
      grid, [AggregateColumns] each aggregator equal to a reference over the
      samples of a bucket, [AggregateProps] states the results.
    - [TimestampRange], [TimestampFilter], [RangeQuery]:
      [series/timestamp_range.rs], [iterators/timestamp_filter_iterator.rs] and
      [iterators/utils.rs] with [timeseries_range_iterator.rs] and
      [reduce_iterator.rs]: the window of a query, lookups of listed timestamps,
      and the chain of adapters that makes a query.  [RangeLaws] proves them
      equal to functions of the visible samples, [RangeProps] states the results.
    - [MultiSeries]: [iterators/multi_series_sample_iter.rs],
      [multi_series_row_iter.rs] (one merge over a class of timed items),
      [pivot_iter.rs], [sample_reducer.rs] and [row_reducer.rs].
      [PartialReducer]: [aggregators/partial_reducer.rs].  [MultiLaws],
      [PivotLaws] and [PartialLaws] prove them equal to functions of the lists.
    - [MRange]: [series/mrange.rs] and [series/nrange.rs] over the series a filter
      selected.  [FanoutCodec]: the messages of [commands/fanout_codec]
      (requests, responses, the table of labels).  [MRangeFanout]:
      [commands/ts_mrange_fanout_command.rs], the coordinator and the shard.
      [AnswerLaws] states what a query reads of one series, [MRangeLaws]
      composes the answers, [CodecLaws] has the round trips, [FanoutLaws] and
      [FanoutPartials] prove the cluster against one node, [MRangeProps] states the results.
    - [LabelFilters]: [labels/filters.rs].  [Postings]: the state of
      [series/index/postings] and every operation that changes it, with the keys
      of [index_key.rs] and [key_buffer.rs], and its read side, from
      one key to the planner of filters and selectors.  [PostingsLaws] defines
      what an index represents ([index_rep]) and proves the queries against it,
      [PostingsRun] gives the effect of each mutation, makes them a step relation
      and proves its invariant.
    - [TimeSeriesIndex]: [timeseries_index.rs], [posting_stats.rs] and the check
      of [create_series]; [Querier]: [querier.rs], [series/acl.rs], the opening of
      keys and the batches of [multi_del.rs].  [IndexLaws] and
      [QuerierLaws] prove them, [IndexProps] states the results.
    - [Join]: [src/join], the operators of [common/binop.rs] it reduces with, and
      [commands/ts_join.rs].  [FilteredReads] proves the read of each side,
      [JoinLaws] the merge, the semi join and the as-of scans against functions of
      sorted lists, [JoinProps] states the results.
    - [Compaction]: one rule of [series/compaction.rs] as operations in a small
      monad over the rule, its source and its destination.  [CompactionGraph]: the
      rules of a keyspace, a map from keys to series: destinations and back-links,
      the cascade, the check for circular rules, and what [ts_add.rs],
      [ts_incr_decr_by.rs] and [ts_createrule.rs] do once arguments are parsed.
      [CompactionLaws] and [CompactionBatch] prove each operation of a rule
      correct, [CascadeLaws] termination and reachability, [CompactionFeeds]
      composes them with the writes of the source, [CompactionProps] states the
      results.

    ** What is shown

    - Bit level: writers append and readers consume exactly the stated bits;
      every code round-trips; a persisted stream is restored.
    - Codecs: Gorilla and Chimp are lossless bit for bit on every time-ordered
      input, whatever the values, and restored by deserialization.
    - Chunks: for every encoding, range reads, lookups, upserts, merges, deletes
      and splits are the list operations of [Content].
    - Series: [series_rep] is an invariant of every sequence of adds,
      increments, deletes and trims, in which no uncompressed chunk reaches twice
      its capacity; for such a series [add] refines an insert under the retention
      window, the IGNORE filter and the duplicate policy (after a batch a chunk may
      be past that limit, and a valid add may be refused); range queries,
      iterators in both directions and point lookups are exact; retention drops
      only what no query returns; a batch refines upserts of the normalized
      batch and, where neither retention nor the IGNORE filter intervenes,
      stores what adding one by one stores.
    - Aggregation: the rows of a query are those of a uniform grid, the buckets
      partition the samples, every column is the reference of its aggregator, and
      with EMPTY and buckets of at least 2 ms no bucket is missing.
    - Range queries: a raw query is exact under filters, direction, COUNT and
      LATEST; an aggregated one gives the grid rows of the same samples, with the
      fill the data beyond the window justifies and the last value carried in
      time order, if the window is the same at each reading of the clock; a reverse
      query mirrors the forward one.
    - Several series: the merge is a stable sort over any heap; a grouped query
      reduces all samples of a group at each timestamp; a pivot is an outer join.
      A cluster gives the reply of one node to a request that fits its message
      ([request_fits]): for queries without groups, with AGGREGATION if the push-down
      is enabled; for groups the coordinator reduces, if every series has the label
      and, with the push-down disabled, there is no AGGREGATION; and for groups the
      shards reduce with
      reducers whose result does not depend on the order of rounding (counts,
      extremes, range, first and last; sums and variances, which round, are
      modelled but not covered).
    - Index: after any sequence of indexing, removal, marking, drain and
      optimisation the index represents the live series; a query by selectors
      returns exactly those selected, in any order of evaluation; series, keys,
      counts and statistics agree with it; a sweep leaves no
      stale id if there is a key to visit; bulk loading
      is indexing one by one; batches of a deletion partition what they delete.
      Labels have distinct names without an equals sign and values that are not
      empty; a series is indexed again only with the labels it had, or more; one
      task drains an index at a time.
    - Joins: a join of two series is the relation of its type between what the
      window, the retention and the filters leave of them, reduced, aggregated and
      limited; an as-of join pairs each sample with the best one on the side asked
      for (on either side without exact matches if the series share no timestamp) and
      reads nothing outside its slices; TS.JOIN fails only as its checks say.
    - Compaction: a rule's destination holds the aggregate of every closed bucket
      of the source and the rule the state of the open one, after every operation
      and every sequence of commands; the cascade ends; live rules have no cycle,
      and TS.CREATERULE refuses exactly what would make one, what the caller may
      not update, and keys of another type.
      The destinations are exact for a source without retention, destinations
      without retention, IGNORE and rules of their own, and aggregators that never
      give NaN; a rule made on a source that has samples is not covered.
    - Errors: which inputs are refused and with what; a batch after which a valid
      add is refused ([bulk_overfill_blocks_add]); a bit count that passes
      validation and corrupts a stream ([count_8_accepted_and_corrupts]); buckets
      of one millisecond that lose rows ([empty_gap_lost]); an inverted window
      that reports one ([inverted_window_filled]); a window resolved twice
      ([alignment_drifts]); a recalculated NaN that is not stored
      ([recalculated_nan_lost]); deletions and emptied buckets that do not reach
      the second level of rules ([cascade_inexact]); series without the label
      that form a group in a cluster ([unlabelled_series_grouped]); what a request
      loses on the way to the shards ([request_loses]); a coordinator that does not
      carry the last value ([coordinator_last_not_carried]); series taken for
      duplicates, and duplicates for new ([create_series_outcome],
      [create_series_misjudges]); an excluded exact match that is returned
      ([nearest_returns_excluded]); operators that differ from their documentation
      ([reducers_differ_from_table]).

    ** Parameters, bounds and fuel

    [Log10] is [f64::log10], whose value on the last bit depends on the platform:
    Chimp is lossless for any function in its place.  [ServerConfig] holds the
    two server settings a series reads.  [MinMaxHeap] is the heap of the merge, a
    third-party crate, with its documented laws; [list_heap] is an instance.
    [RegexEngine] is the regular expression engine, without laws; [SortBy] is
    [slice::sort_by] for a comparator that need not be an order, a permutation;
    [HashOrder] is the order in which a hash map is read; [MergeJoin] is the merge
    of two sorted iterators of a library, with its documented steps; [Unchecked] is a
    read without a bounds check, known inside the slice only; [Powf] is [f64::powf],
    without laws.  A compressed bitmap is
    a finite set, the radix tree an ordered map.  What the server holds under a
    key and permits a user is an argument.  Timestamps are non-negative [i64], as
    the command parser ensures; chunk sizes are between 48 and 1048576 bytes, as
    creation checks.  Fuel is given where recursion is not structural: a read of
    [n] bits straddles at most two windows, a varint has at most ten bytes, an
    iterator visits each chunk once (its fuel is the number of chunks plus two),
    [slice::chunks] takes at least one sample a turn, an aggregation needs more
    than the number of its rows, a cascade takes one turn per rule of the
    keyspace, the search for a cycle one level per series, a walk over the index
    one batch per key and two more.  Each reading of the clock by a query is an
    argument.  Bucket arithmetic is shown for timestamps within 2^60 ms of the
    epoch, where no intermediate value leaves 64 bits.  Theorems that an iterator
    or reader gives its result are proved for that fuel, not assumed.

    ** What is not modelled

    Parallel merging, deleting and rules are modelled in sequence: the work items
    touch disjoint chunks or series.  Allocation is not modelled beyond [try_reserve] failing for
    sizes that cannot exist; [optimize] and [shrink_to_fit] change capacity only.
    The callbacks of the server (RDB, defragmentation, digests, notifications),
    the parsing and replies of commands, the bytes of cluster messages, the
    ranking of labels, the persistence of the index, slot migration, the
    decomposition of regular expressions, metric names, the parser of
    selectors and the analysis code are outside this development. *)

From Stdlib Require Export ZArith Lia.
From stdpp Require Export base list numbers option sorting.

#[global] Open Scope Z_scope.

(** ** Results

    [TsdbResult] and [io::Result] of the source are sums with the error on the
    right; [let?] is the [?] operator. *)

Inductive result (E A : Type) : Type :=
| Ok (a : A)
| Err (e : E).
Arguments Ok {E A} a.
Arguments Err {E A} e.

Declare Scope result_scope.
Delimit Scope result_scope with result.
#[global] Open Scope result_scope.

Notation "'let?' x := c 'in' k" :=
  (match c with Ok x => k | Err e => Err e end)
  (at level 10, x pattern, c at level 100, k at level 200) : result_scope.

Definition is_okb {E A} (r : result E A) : bool :=
  match r with Ok _ => true | Err _ => false end.

Definition map_err {E F A} (f : E -> F) (r : result E A) : result F A :=
  match r with Ok a => Ok a | Err e => Err (f e) end.

Lemma ok_inj {E A} (a b : A) : Ok (E := E) a = Ok b -> a = b.
Proof. by intros [= ->]. Qed.

(** [for x in l { a = f(a, x)?; }] *)
Fixpoint try_fold {E A B} (f : A -> B -> result E A) (a : A) (l : list B) : result E A :=
  match l with
  | [] => Ok a
  | x :: l' => let? a := f a x in try_fold f a l'
  end.

Lemma try_fold_app {E A B} (f : A -> B -> result E A) a l1 l2 :
  try_fold f a (l1 ++ l2) = let? a := try_fold f a l1 in try_fold f a l2.
Proof.
  revert a. induction l1 as [|x l1 IH]; intros a; cbn; [done|]. destruct (f a x); [apply IH|done].
Qed.

Lemma try_fold_snoc {E A} (acc l : list A) :
  try_fold (fun acc s => Ok (acc ++ [s])) acc l = (Ok (acc ++ l) : result E (list A)).
Proof.
  revert acc. induction l as [|x l IH]; intros acc; cbn; [by rewrite app_nil_r|].
  by rewrite IH, <- app_assoc.
Qed.

(** ** Machine integers

    A [w]-bit unsigned integer is a [Z] in [0, 2^w); [i64] is a [Z] in
    [-2^63, 2^63).  The casts [as u64], [as i64], [as u8] and wrapping
    arithmetic reduce modulo [2^w]. *)

Definition wrap_u64 (z : Z) : Z := z mod 2 ^ 64.
Definition wrap_i64 (z : Z) : Z := (z + 2 ^ 63) mod 2 ^ 64 - 2 ^ 63.
Definition wrap_u8 (z : Z) : Z := z mod 2 ^ 8.

Definition is_u64 (z : Z) : Prop := 0 <= z < 2 ^ 64.
Definition is_i64 (z : Z) : Prop := - 2 ^ 63 <= z < 2 ^ 63.
Definition is_u8 (z : Z) : Prop := 0 <= z < 2 ^ 8.

Definition i64_MIN : Z := - 2 ^ 63.
Definition i64_MAX : Z := 2 ^ 63 - 1.
Definition i32_MAX : Z := 2 ^ 31 - 1.

(** [x << n] and [x >> n] on [u64]. *)
Definition shl64 (x n : Z) : Z := wrap_u64 (Z.shiftl x n).
Definition shr64 (x n : Z) : Z := Z.shiftr x n.

(** [a.saturating_sub(b)] on [i64] and [usize]. *)
Definition sat_i64 (z : Z) : Z := Z.max i64_MIN (Z.min i64_MAX z).
Definition sat_usize_sub (a b : Z) : Z := Z.max 0 (a - b).

#[global] Arguments wrap_u64 : simpl never.
#[global] Arguments wrap_i64 : simpl never.
#[global] Arguments wrap_u8 : simpl never.
#[global] Arguments shl64 : simpl never.
#[global] Arguments shr64 : simpl never.
#[global] Arguments sat_i64 : simpl never.

Create HintDb tsdb.
Create Rewrite HintDb ints.

Ltac unfold_ints :=
  unfold is_u64, is_i64, is_u8, wrap_u64, wrap_i64, wrap_u8, i64_MIN, i64_MAX,
    sat_usize_sub in *.

(** Close a [Forall] over a literal list from its elements. *)
Ltac fora := repeat first [done | apply Forall_cons_2 | apply Forall_nil_2].

(** Close an integer goal about machine ranges. *)
Ltac ilia := unfold_ints; lia.

Lemma wrap_u64_range z : is_u64 (wrap_u64 z).
Proof. unfold_ints. apply Z.mod_pos_bound. lia. Qed.

Lemma wrap_i64_range z : is_i64 (wrap_i64 z).
Proof. unfold_ints. pose proof (Z.mod_pos_bound (z + 2 ^ 63) (2 ^ 64)). lia. Qed.

Lemma wrap_u8_range z : is_u8 (wrap_u8 z).
Proof. unfold_ints. apply Z.mod_pos_bound. lia. Qed.

Lemma wrap_u64_id z : is_u64 z -> wrap_u64 z = z.
Proof. unfold_ints. intros. by apply Z.mod_small. Qed.

Lemma wrap_i64_id z : is_i64 z -> wrap_i64 z = z.
Proof. unfold_ints. intros. rewrite Z.mod_small; lia. Qed.

Lemma wrap_u8_id z : is_u8 z -> wrap_u8 z = z.
Proof. unfold_ints. intros. by apply Z.mod_small. Qed.

(** [(x as u64) as i64] is the identity on [i64], and conversely. *)
Lemma wrap_i64_u64 z : is_i64 z -> wrap_i64 (wrap_u64 z) = z.
Proof.
  intros Hz. rewrite <- (wrap_i64_id z) at 2 by done. unfold wrap_i64, wrap_u64.
  f_equal. by rewrite Zplus_mod_idemp_l.
Qed.

Lemma wrap_u64_i64 z : is_u64 z -> wrap_u64 (wrap_i64 z) = z.
Proof.
  intros Hz. unfold wrap_i64, wrap_u64.
  rewrite Zminus_mod_idemp_l. rewrite <- (Z.mod_small z (2 ^ 64)) at 2 by ilia.
  f_equal. lia.
Qed.

#[export] Hint Resolve wrap_u64_range wrap_i64_range wrap_u8_range : tsdb.
#[export] Hint Rewrite wrap_u64_id wrap_i64_id wrap_u8_id wrap_i64_u64 using (auto with tsdb; ilia) : ints.

(** The union of two [n]-bit words is an [n]-bit word. *)
Lemma lor_range n a b :
  0 <= n -> 0 <= a < 2 ^ n -> 0 <= b < 2 ^ n -> 0 <= Z.lor a b < 2 ^ n.
Proof.
  intros Hn Ha Hb. split; [apply Z.lor_nonneg; lia|].
  rewrite <- (Z.mod_small a (2 ^ n)), <- (Z.mod_small b (2 ^ n)) by lia.
  rewrite <- !Z.land_ones, <- Z.land_lor_distr_l, Z.land_ones by lia.
  apply Z.mod_pos_bound. lia.
Qed.

Lemma lxor_range n a b :
  0 <= n -> 0 <= a < 2 ^ n -> 0 <= b < 2 ^ n -> 0 <= Z.lxor a b < 2 ^ n.
Proof.
  intros Hn Ha Hb. split; [apply Z.lxor_nonneg; lia|].
  rewrite <- (Z.mod_small a (2 ^ n)), <- (Z.mod_small b (2 ^ n)) by lia.
  rewrite <- !Z.land_ones by lia.
  assert (Z.lxor (Z.land a (Z.ones n)) (Z.land b (Z.ones n)) = Z.land (Z.lxor a b) (Z.ones n)) as ->.
  { apply Z.bits_inj'. intros i Hi. rewrite !Z.lxor_spec, !Z.land_spec, Z.lxor_spec.
    by destruct (Z.testbit a i), (Z.testbit b i), (Z.testbit (Z.ones n) i). }
  rewrite Z.land_ones by lia. apply Z.mod_pos_bound. lia.
Qed.

(** ** Bit strings

    [bits_be n v] is the [n] low bits of [v], most significant first: the order
    in which the codecs put them on the stream. [bits_val] reads such a string
    back as a number. *)

Fixpoint bits_be (n : nat) (v : Z) : list bool :=
  match n with
  | O => []
  | S n' => Z.testbit v (Z.of_nat n') :: bits_be n' v
  end.

Fixpoint bits_val (l : list bool) : Z :=
  match l with
  | [] => 0
  | b :: l' => Z.b2z b * 2 ^ Z.of_nat (length l') + bits_val l'
  end.

Definition bytes_bits (bs : list Z) : list bool := bs ≫= bits_be 8.

Lemma length_bits_be n v : length (bits_be n v) = n.
Proof. induction n; simpl; congruence. Qed.

Lemma bits_be_ext n v w :
  (forall i, 0 <= i < Z.of_nat n -> Z.testbit v i = Z.testbit w i) ->
  bits_be n v = bits_be n w.
Proof.
  induction n as [|n IH]; intros H; [done|]. cbn [bits_be]. f_equal.
  - apply H. lia.
  - apply IH. intros. apply H. lia.
Qed.

Lemma bits_be_app a b v :
  bits_be (a + b) v = bits_be a (Z.shiftr v (Z.of_nat b)) ++ bits_be b v.
Proof.
  induction a as [|a IH]; [done|]. cbn [bits_be Nat.add app]. f_equal; [|done].
  rewrite Z.shiftr_spec by lia. f_equal. lia.
Qed.

Lemma bits_be_mod n m v :
  Z.of_nat n <= m -> bits_be n (v mod 2 ^ m) = bits_be n v.
Proof.
  intros H. apply bits_be_ext. intros i Hi. apply Z.mod_pow2_bits_low. lia.
Qed.

Lemma bits_be_0 n : bits_be n 0 = repeat false n.
Proof. induction n; simpl; [done|]. by rewrite Z.testbit_0_l, IHn. Qed.

Lemma bits_val_nonneg l : 0 <= bits_val l.
Proof. induction l as [|[] l IH]; simpl; lia. Qed.

Lemma bits_val_bound l : bits_val l < 2 ^ Z.of_nat (length l).
Proof.
  induction l as [|b l IH]; [simpl; lia|].
  cbn [bits_val length]. rewrite Nat2Z.inj_succ, Z.pow_succ_r by lia.
  destruct b; cbn [Z.b2z]; lia.
Qed.

Lemma bits_val_app l1 l2 :
  bits_val (l1 ++ l2) = bits_val l1 * 2 ^ Z.of_nat (length l2) + bits_val l2.
Proof.
  induction l1 as [|b l1 IH]; cbn [app bits_val]; [lia|].
  rewrite IH, length_app, Nat2Z.inj_add, Z.pow_add_r by lia. lia.
Qed.

Lemma bits_val_bits_be n v : bits_val (bits_be n v) = v mod 2 ^ Z.of_nat n.
Proof.
  induction n as [|n IH]; [by rewrite Z.mod_1_r|].
  cbn [bits_be bits_val]. rewrite length_bits_be, IH, Nat2Z.inj_succ.
  rewrite Z.pow_succ_r, (Z.mul_comm 2), Z.rem_mul_r by lia.
  rewrite Z.testbit_spec' by lia. lia.
Qed.

Lemma bits_be_bits_val l : bits_be (length l) (bits_val l) = l.
Proof.
  induction l as [|b l IH]; [done|]. cbn [bits_val length bits_be]. f_equal.
  - pose proof (bits_val_nonneg l). pose proof (bits_val_bound l).
    rewrite Z.testbit_eqb, Z.div_add_l, Z.div_small by lia.
    rewrite Z.add_0_r, Z.mod_small by (destruct b; simpl; lia). by destruct b.
  - etransitivity; [|exact IH]. apply bits_be_ext. intros i Hi.
    rewrite Z.add_comm, <- (Z.mod_pow2_bits_low _ (Z.of_nat (length l))) by lia.
    rewrite Z.mod_add by lia. apply Z.mod_pow2_bits_low. lia.
Qed.

Lemma bits_be_inj n v w :
  0 <= v < 2 ^ Z.of_nat n -> 0 <= w < 2 ^ Z.of_nat n ->
  bits_be n v = bits_be n w -> v = w.
Proof.
  intros Hv Hw H. apply (f_equal bits_val) in H.
  rewrite !bits_val_bits_be, !Z.mod_small in H by lia. done.
Qed.

Lemma bytes_bits_app l1 l2 : bytes_bits (l1 ++ l2) = bytes_bits l1 ++ bytes_bits l2.
Proof. apply bind_app. Qed.

Lemma length_bytes_bits l : length (bytes_bits l) = (8 * length l)%nat.
Proof.
  induction l as [|b l IH]; [done|].
  change (bytes_bits (b :: l)) with (bits_be 8 b ++ bytes_bits l).
  rewrite length_app, length_bits_be, IH. simpl. lia.
Qed.
