(* ===== verification/Float64.v ===== *)
(** * Float64: IEEE-754 binary64 values as the source uses them

    An [f64] is its bit pattern, a [Z] in [0, 2^64): the codecs and the
    serialisers only see [to_bits]/[from_bits], so every payload, NaN included,
    is kept.  Comparisons and arithmetic go through the Standard Library's
    [SpecFloat], the executable specification of IEEE-754. *)

From Stdlib Require Import SpecFloat.
From S2P Require Import Prelude.

Abbreviation f64 := Z (only parsing).

(** [is_f64 v]: [v] is the bit pattern of some [f64]. *)
Abbreviation is_f64 := is_u64 (only parsing).

Definition f64_spec (v : f64) : spec_float :=
  let s := Z.testbit v 63 in
  let e := Z.land (Z.shiftr v 52) 2047 in
  let m := Z.land v (2 ^ 52 - 1) in
  if e =? 2047 then (if m =? 0 then S754_infinity s else S754_nan)
  else if e =? 0 then
    match m with
    | Zpos p => S754_finite s p (-1074)
    | _ => S754_zero s
    end
  else
    match m + 2 ^ 52 with
    | Zpos p => S754_finite s p (e - 1075)
    | _ => S754_nan
    end.

Definition f64_of_spec (x : spec_float) : f64 :=
  wrap_u64
  match x with
  | S754_zero s => Z.b2z s * 2 ^ 63
  | S754_infinity s => Z.b2z s * 2 ^ 63 + 2047 * 2 ^ 52
  | S754_nan => 2047 * 2 ^ 52 + 2 ^ 51
  | S754_finite s m e =>
      if Zpos m <? 2 ^ 52 then Z.b2z s * 2 ^ 63 + Zpos m
      else Z.b2z s * 2 ^ 63 + (e + 1075) * 2 ^ 52 + (Zpos m - 2 ^ 52)
  end.

Definition f64_is_nan (v : f64) : bool :=
  match f64_spec v with S754_nan => true | _ => false end.

Definition f64_lt (a b : f64) : bool := SFltb (f64_spec a) (f64_spec b).
Definition f64_le (a b : f64) : bool := SFleb (f64_spec a) (f64_spec b).
Definition f64_eq (a b : f64) : bool := SFeqb (f64_spec a) (f64_spec b).

Definition f64_add (a b : f64) : f64 := f64_of_spec (SFadd 53 1024 (f64_spec a) (f64_spec b)).
Definition f64_sub (a b : f64) : f64 := f64_of_spec (SFsub 53 1024 (f64_spec a) (f64_spec b)).
Definition f64_div (a b : f64) : f64 := f64_of_spec (SFdiv 53 1024 (f64_spec a) (f64_spec b)).
Definition f64_mul (a b : f64) : f64 := f64_of_spec (SFmul 53 1024 (f64_spec a) (f64_spec b)).
(** [-a]: the sign bit flipped, a NaN's payload kept. *)
Definition f64_neg (a : f64) : f64 := Z.lxor a (2 ^ 63).
Definition f64_abs (a : f64) : f64 := Z.land a (2 ^ 63 - 1).

(** [f64::min] and [f64::max] on two numbers that are not NaN.  Of two zeros of
    opposite sign the standard library may return either; this takes the first. *)
Definition f64_min (a b : f64) : f64 := if f64_lt b a then b else a.
Definition f64_max (a b : f64) : f64 := if f64_lt a b then b else a.

(** [n as f64] for an unsigned [n]. *)
Definition f64_of_usize (n : Z) : f64 :=
  f64_of_spec (binary_normalize 53 1024 n 0 false).

(** [n as f64] for a signed [n]. *)
Definition f64_of_i64 (n : Z) : f64 :=
  f64_of_spec (binary_normalize 53 1024 n 0 false).

Definition f64_is_finite (v : f64) : bool :=
  match f64_spec v with S754_nan | S754_infinity _ => false | _ => true end.

(** [v as iN] for an integer type with the bounds [lo], [hi]: truncation towards
    zero, saturating, and zero for NaN. *)
Definition f64_to_int (lo hi : Z) (v : f64) : Z :=
  match f64_spec v with
  | S754_nan | S754_zero _ => 0
  | S754_infinity s => if s then lo else hi
  | S754_finite s m e =>
      let q := if 0 <=? e then Zpos m * 2 ^ e else Zpos m / 2 ^ (- e) in
      Z.max lo (Z.min hi (if s then - q else q))
  end.

Definition f64_to_i64 (v : f64) : Z := f64_to_int i64_MIN i64_MAX v.
Definition f64_to_i32 (v : f64) : Z := f64_to_int (- 2 ^ 31) (2 ^ 31 - 1) v.

(** [f64::floor] and [f64::ceil]; [up] says which way a fraction goes.  A result
    of zero keeps the sign of the argument. *)
Definition f64_round_int (up : bool) (v : f64) : f64 :=
  match f64_spec v with
  | S754_finite s m e =>
      if 0 <=? e then v
      else
        let q := Zpos m / 2 ^ (- e) in
        let q := if (Zpos m mod 2 ^ (- e) =? 0) || eqb up s then q else q + 1 in
        f64_of_spec (binary_normalize 53 1024 (if s then - q else q) 0 s)
  | _ => v
  end.

Definition f64_floor (v : f64) : f64 := f64_round_int false v.
Definition f64_ceil (v : f64) : f64 := f64_round_int true v.

(** The [f64] nearest to the decimal literal [1e<i>]. *)
Definition f64_pow10 (i : Z) : f64 :=
  if 0 <=? i then f64_of_spec (binary_normalize 53 1024 (10 ^ i) 0 false)
  else
    match 10 ^ (- i) with
    | Zpos d =>
        let '(q, e, l) := SFdiv_core_binary 53 1024 1 0 (Zpos d) 0 in
        f64_of_spec (binary_round_aux 53 1024 false q e l)
    | _ => 0
    end.

Definition f64_zero : f64 := 0.
Definition f64_INFINITY : f64 := 2047 * 2 ^ 52.
Definition f64_MAX : f64 := 2046 * 2 ^ 52 + (2 ^ 52 - 1).
Definition f64_MIN : f64 := 2 ^ 63 + f64_MAX.
Definition f64_NAN : f64 := 2047 * 2 ^ 52 + 2 ^ 51.

#[global] Arguments f64_spec : simpl never.
#[global] Arguments f64_of_spec : simpl never.
#[global] Arguments f64_is_nan : simpl never.
#[global] Arguments f64_lt : simpl never.
#[global] Arguments f64_le : simpl never.
#[global] Arguments f64_eq : simpl never.
#[global] Arguments f64_add : simpl never.
#[global] Arguments f64_sub : simpl never.
#[global] Arguments f64_div : simpl never.
#[global] Arguments f64_mul : simpl never.
#[global] Arguments f64_neg : simpl never.
#[global] Arguments f64_abs : simpl never.
#[global] Arguments f64_of_i64 : simpl never.
#[global] Arguments f64_is_finite : simpl never.
#[global] Arguments f64_to_int : simpl never.
#[global] Arguments f64_to_i64 : simpl never.
#[global] Arguments f64_to_i32 : simpl never.
#[global] Arguments f64_round_int : simpl never.
#[global] Arguments f64_pow10 : simpl never.
#[global] Arguments f64_min : simpl never.
#[global] Arguments f64_max : simpl never.
#[global] Arguments f64_of_usize : simpl never.
#[global] Arguments f64_MAX : simpl never.
#[global] Arguments f64_MIN : simpl never.
#[global] Arguments f64_NAN : simpl never.

Example f64_one : f64_of_usize 1 = 0x3FF0000000000000.
Proof. vm_compute. reflexivity. Qed.

Example f64_third : f64_div (f64_of_usize 1) (f64_of_usize 3) = 0x3FD5555555555555.
Proof. vm_compute. reflexivity. Qed.

Example f64_tenths : f64_add 0x3FB999999999999A 0x3FC999999999999A = 0x3FD3333333333334.
Proof. vm_compute. reflexivity. Qed.

Lemma f64_of_spec_range x : is_f64 (f64_of_spec x).
Proof. apply wrap_u64_range. Qed.

Lemma f64_add_range a b : is_f64 (f64_add a b).
Proof. apply f64_of_spec_range. Qed.

Lemma f64_min_range a b : is_f64 a -> is_f64 b -> is_f64 (f64_min a b).
Proof. unfold f64_min. by case_match. Qed.

Lemma f64_max_range a b : is_f64 a -> is_f64 b -> is_f64 (f64_max a b).
Proof. unfold f64_max. by case_match. Qed.

#[export] Hint Resolve f64_of_spec_range f64_add_range f64_min_range f64_max_range : tsdb.

(** Comparisons with a NaN operand are all false. *)
Lemma f64_le_nan_l a b : f64_is_nan a = true -> f64_le a b = false.
Proof. unfold f64_is_nan, f64_le, SFleb. by destruct (f64_spec a). Qed.

Lemma f64_le_nan_r a b : f64_is_nan b = true -> f64_le a b = false.
Proof. unfold f64_is_nan, f64_le, SFleb. by destruct (f64_spec b), (f64_spec a) as [| | |[]]. Qed.

Lemma f64_lt_nan a b : f64_is_nan a = true -> f64_lt a b = false.
Proof. unfold f64_is_nan, f64_lt, SFltb. by destruct (f64_spec a). Qed.
