(* ===== verification/Types.v ===== *)
(** * Types: samples, duplicate policies and per-sample results

    Models [src/common/types.rs] (samples), [src/series/types.rs] (duplicate
    policies, the IGNORE filter, value filters, add results) and the error type
    of [src/error.rs]. *)

From stdpp Require Import strings.
From S2P Require Import Prelude Float64.

Abbreviation Timestamp := Z (only parsing).

Record Sample := mkSample { timestamp : Timestamp; value : f64 }.
Add Printing Constructor Sample.

#[export] Instance Sample_eq_dec : EqDecision Sample.
Proof. solve_decision. Defined.

(** [size_of::<Sample>()]: an [i64] and an [f64]. *)
Definition SAMPLE_SIZE : Z := 16.

(** A sample as the program stores it: both fields fit their machine types. *)
Definition sample_ok (s : Sample) : Prop := is_i64 (timestamp s) /\ is_f64 (value s).

(** [PartialEq for Sample]: equal times, and values equal or both NaN. *)
Definition sample_eq (a b : Sample) : bool :=
  if timestamp a =? timestamp b
  then if f64_is_nan (value a) then f64_is_nan (value b) else f64_eq (value a) (value b)
  else false.

(** [Ord for Sample]: by time, then by value with NaN last.  The source unwraps
    [partial_cmp] where neither side is NaN, where it is always defined. *)
Definition sample_cmp (a b : Sample) : comparison :=
  match timestamp a ?= timestamp b with
  | Eq =>
      if f64_is_nan (value a) then (if f64_is_nan (value b) then Eq else Gt)
      else if f64_is_nan (value b) then Lt
      else if f64_lt (value a) (value b) then Lt
      else if f64_eq (value a) (value b) then Eq else Gt
  | c => c
  end.

Definition sample_lt (a b : Sample) : bool :=
  match sample_cmp a b with Lt => true | _ => false end.

(** ** Errors *)

Inductive TsdbError :=
| CapacityFull (cap : Z)
| InvalidConfiguration (msg : string)
| DecodingError (msg : string)
| EncodingError (msg : string)
| CannotSerialize (msg : string)
| CannotDeserialize (msg : string)
| CannotCompress (msg : string)
| CannotDecompress (msg : string)
| DuplicateSample (msg : string)
| InvalidMetric (msg : string)
| InvalidCompression (msg : string)
| RemoveRangeError
| InvalidNumber (msg : string)
| InvalidSeriesSelector (msg : string)
| SampleTooOld
| CannotAddSample (s : Sample)
| General (msg : string)
| ChunkEncodingError
| ChunkDecoding
| ChunkSplitError
| EndOfStream
| PermissionsError (msg : string).

Abbreviation TsdbResult := (result TsdbError).

(** ** Duplicate policies *)

Inductive DuplicatePolicy := Block | KeepFirst | KeepLast | PMin | PMax | PSum.

#[export] Instance DuplicatePolicy_eq_dec : EqDecision DuplicatePolicy.
Proof. solve_decision. Defined.

Definition policy_as_u8 (p : DuplicatePolicy) : Z :=
  match p with
  | Block => 0 | KeepFirst => 1 | KeepLast => 2 | PMin => 3 | PMax => 4 | PSum => 5
  end.

Definition policy_from_u8 (v : Z) : option DuplicatePolicy :=
  match v with
  | 0 => Some Block | 1 => Some KeepFirst | 2 => Some KeepLast
  | 3 => Some PMin | 4 => Some PMax | 5 => Some PSum
  | _ => None
  end.

Definition policy_as_str (p : DuplicatePolicy) : string :=
  match p with
  | Block => "block" | KeepFirst => "first" | KeepLast => "last"
  | PMin => "min" | PMax => "max" | PSum => "sum"
  end.

Definition BLOCK_ERROR : string :=
  "TSDB: Error at upsert, update is not supported when DUPLICATE_POLICY is set to BLOCK mode".
Definition NAN_ERROR : string :=
  "TSDB: Error at upsert, NaN values are not supported for MAX, MIN, and SUM duplicate policies".

(** [matches!(self, Max | Min | Sum)] *)
Definition is_folding (p : DuplicatePolicy) : bool :=
  match p with PMin | PMax | PSum => true | _ => false end.

Definition duplicate_value (p : DuplicatePolicy) (ts : Timestamp) (old new : f64)
  : TsdbResult f64 :=
  let old_nan := f64_is_nan old in
  let new_nan := f64_is_nan new in
  if old_nan || new_nan then
    if bool_decide (p = Block) then Err (DuplicateSample BLOCK_ERROR)
    else if negb (eqb old_nan new_nan) && is_folding p then Err (DuplicateSample NAN_ERROR)
    else if new_nan then Ok old
    else Ok new
  else
    match p with
    | Block => Err (DuplicateSample BLOCK_ERROR)
    | KeepFirst => Ok old
    | KeepLast => Ok new
    | PMin => Ok (f64_min old new)
    | PMax => Ok (f64_max old new)
    | PSum => Ok (f64_add old new)
    end.

#[global] Arguments duplicate_value : simpl never.

(** ** The IGNORE filter *)

Record SampleDuplicatePolicy := mkSampleDuplicatePolicy {
  policy : option DuplicatePolicy;
  max_time_delta : Z;   (* u64 *)
  max_value_delta : f64;
}.

Section Config.

(** [config::duplicate_policy()], the server-wide default. *)
Variable config_duplicate_policy : DuplicatePolicy.

Definition resolve_policy (sd : SampleDuplicatePolicy) (override : option DuplicatePolicy)
  : DuplicatePolicy :=
  match override with
  | Some p => p
  | None => match policy sd with Some p => p | None => config_duplicate_policy end
  end.

Definition is_duplicate (sd : SampleDuplicatePolicy) (current last : Sample)
    (override : option DuplicatePolicy) : bool :=
  let time_delta := wrap_i64 (timestamp current - timestamp last) in
  if (0 <=? time_delta) && (time_delta <=? wrap_i64 (max_time_delta sd)) then
    if negb (bool_decide (resolve_policy sd override = KeepLast)) then false
    else if f64_is_nan (value current) || f64_is_nan (value last) then false
    else f64_le (f64_abs (f64_sub (value last) (value current))) (max_value_delta sd)
  else false.

End Config.

(** ** Results of adding a sample *)

Inductive SampleAddResult :=
| AddOk (s : Sample)
| Duplicate
| Ignored (ts : Timestamp)
| TooOld
| AddError (msg : string).

#[export] Instance SampleAddResult_eq_dec : EqDecision SampleAddResult.
Proof. solve_decision. Defined.

Definition add_is_ok (r : SampleAddResult) : bool :=
  match r with AddOk _ => true | _ => false end.

Definition CANNOT_ADD_SAMPLE : string := "TSDB: could not add sample".
Definition CHUNK_SPLIT : string := "TSDB: could not split chunk".

(** ** Value filters *)

Record ValueFilter := mkValueFilter { vf_min : f64; vf_max : f64 }.

Definition ValueFilter_greater_than (v : f64) : ValueFilter := mkValueFilter v f64_MAX.
Definition ValueFilter_less_than (v : f64) : ValueFilter := mkValueFilter f64_MIN v.
Definition vf_is_match (vf : ValueFilter) (v : f64) : bool :=
  f64_le (vf_min vf) v && f64_le v (vf_max vf).
