(* ===== verification/Slice.v ===== *)
(** * Slice: the slice searches of the standard library the program relies on

    [slice::binary_search_by] and [partition_point] with the loop the Rust
    standard library runs, and the specification the callers need: on a slice
    ordered by the comparison, a hit is an equal element and a miss is the
    insertion point. *)

From S2P Require Import Prelude.

Section BinarySearch.

Context {A : Type} (f : A -> comparison).

(** [f(self[i])]; the loop only indexes in range. *)
Definition cmp_at (l : list A) (i : nat) : comparison :=
  match l !! i with Some x => f x | None => Gt end.

Fixpoint bs_loop (fuel : nat) (l : list A) (base size : nat) : nat :=
  match fuel with
  | O => base
  | S fuel' =>
      if (1 <? size)%nat then
        let half := (size / 2)%nat in
        let mid := (base + half)%nat in
        let base' := match cmp_at l mid with Gt => base | _ => mid end in
        bs_loop fuel' l base' (size - half)
      else base
  end.

(** [Ok i] is a hit at [i], [Err i] a miss with insertion point [i]. *)
Definition binary_search_by (l : list A) : result nat nat :=
  if (length l =? 0)%nat then Err O
  else
    let base := bs_loop (length l) l 0 (length l) in
    match cmp_at l base with
    | Eq => Ok base
    | Lt => Err (base + 1)%nat
    | Gt => Err base
    end.

(** The comparison is [Less], then [Equal], then [Greater] along the slice. *)
Definition cmp_le (a b : comparison) : Prop :=
  match a, b with Lt, _ | _, Gt | Eq, Eq => True | _, _ => False end.

Definition ordered_by (l : list A) : Prop :=
  forall i j x y, (i <= j)%nat -> l !! i = Some x -> l !! j = Some y -> cmp_le (f x) (f y).

Lemma cmp_at_mono l i j :
  ordered_by l -> (i <= j)%nat -> cmp_le (cmp_at l i) (cmp_at l j).
Proof.
  intros Ho Hij. unfold cmp_at. destruct (l !! j) as [y|] eqn:Hj.
  - destruct (l !! i) as [x|] eqn:Hi; [by eapply Ho|].
    apply lookup_ge_None in Hi. apply lookup_lt_Some in Hj. lia.
  - by destruct (match l !! i with Some x => f x | None => Gt end).
Qed.

Lemma bs_loop_spec fuel l base size :
  ordered_by l -> (size <= S fuel)%nat -> (0 < size)%nat ->
  (base + size <= length l)%nat ->
  (base = 0%nat \/ cmp_at l base <> Gt) ->
  (forall j, (base + size <= j)%nat -> cmp_at l j = Gt) ->
  let b := bs_loop fuel l base size in
  (b < length l)%nat /\ (b = 0%nat \/ cmp_at l b <> Gt) /\
  (forall j, (b < j)%nat -> cmp_at l j = Gt).
Proof.
  intros Ho. revert base size.
  induction fuel as [|fuel IH]; intros base size Hf Hs Hl Hb Hg; cbn [bs_loop].
  { split_and!; [lia|done|]. intros. apply Hg. lia. }
  case_match eqn:E; apply Nat.ltb_lt in E || apply Nat.ltb_ge in E.
  2: { split_and!; [lia|done|]. intros. apply Hg. lia. }
  pose proof (Nat.div_mod_eq size 2). pose proof (Nat.mod_upper_bound size 2).
  set (half := (size / 2)%nat) in *.
  destruct (cmp_at l (base + half)) eqn:Hm; apply IH; try lia; try done.
  all: try (right; congruence); try (intros; apply Hg; lia).
  intros j Hj. pose proof (cmp_at_mono l (base + half) j Ho ltac:(lia)) as Hc.
  rewrite Hm in Hc. by destruct (cmp_at l j).
Qed.

Lemma binary_search_by_hit l i :
  ordered_by l -> binary_search_by l = Ok i -> exists x, l !! i = Some x /\ f x = Eq.
Proof.
  intros Ho. unfold binary_search_by.
  destruct (length l =? 0)%nat; [done|]. set (b := bs_loop _ _ _ _). intros H'.
  destruct (cmp_at l b) eqn:Hc; try discriminate H'.
  assert (b = i) as <- by congruence. unfold cmp_at in Hc.
  destruct (l !! b); [eauto|done].
Qed.

Lemma binary_search_by_miss l i :
  ordered_by l -> binary_search_by l = Err i ->
  (i <= length l)%nat /\
  (forall j x, (j < i)%nat -> l !! j = Some x -> f x = Lt) /\
  (forall j x, (i <= j)%nat -> l !! j = Some x -> f x = Gt).
Proof.
  intros Ho. unfold binary_search_by. destruct (length l =? 0)%nat eqn:E.
  { apply Nat.eqb_eq in E. intros [= <-]. destruct l; [|done].
    split; [done|]. split; by intros. }
  apply Nat.eqb_neq in E.
  destruct (bs_loop_spec (length l) l 0 (length l)) as (Hb & H0 & Hgt); try lia; try done.
  { intros j Hj. unfold cmp_at. rewrite lookup_ge_None_2; [done|lia]. }
  set (b := bs_loop _ _ _ _) in *. intros H'.
  assert (Hat : forall j x, l !! j = Some x -> f x = cmp_at l j)
    by (intros j x Hj; unfold cmp_at; by rewrite Hj).
  assert (forall n, Err n = (Err i : result nat nat) -> i = n) as Hinj by congruence.
  destruct (cmp_at l b) eqn:Hc; try discriminate H'; apply Hinj in H' as ->.
  - split_and!; [lia| |]; intros j x Hj Hl; rewrite (Hat _ _ Hl).
    + pose proof (cmp_at_mono l j b Ho ltac:(lia)) as Hm. rewrite Hc in Hm.
      by destruct (cmp_at l j).
    + apply Hgt. lia.
  - destruct H0 as [H0|]; [|done].
    split_and!; [lia| |]; intros j x Hj Hl; rewrite (Hat _ _ Hl); [lia|].
    pose proof (cmp_at_mono l b j Ho ltac:(lia)) as Hm. rewrite Hc in Hm.
    by destruct (cmp_at l j).
Qed.

End BinarySearch.

(** [slice::partition_point] *)
Definition partition_point {A} (pred : A -> bool) (l : list A) : nat :=
  match binary_search_by (fun x => if pred x then Lt else Gt) l with
  | Ok i => i
  | Err i => i
  end.

Lemma partition_point_app {A} (pred : A -> bool) l1 l2 :
  Forall (fun x => pred x = true) l1 -> Forall (fun x => pred x = false) l2 ->
  partition_point pred (l1 ++ l2) = length l1.
Proof.
  intros H1 H2. rewrite Forall_lookup in H1, H2. set (cmp := fun x => if pred x then Lt else Gt).
  assert (forall j x, (l1 ++ l2) !! j = Some x -> pred x = (j <? length l1)%nat) as Hat.
  { intros j x Hj. destruct (Nat.ltb_spec j (length l1)).
    - rewrite lookup_app_l in Hj by done. by eapply H1.
    - rewrite lookup_app_r in Hj by done. by eapply H2. }
  assert (ordered_by cmp (l1 ++ l2)) as Ho.
  { intros i j x y Hij Hx Hy. unfold cmp. rewrite (Hat _ _ Hx), (Hat _ _ Hy).
    destruct (Nat.ltb_spec i (length l1)), (Nat.ltb_spec j (length l1)); try done; lia. }
  unfold partition_point. fold cmp. destruct (binary_search_by cmp (l1 ++ l2)) as [i|i] eqn:E.
  - destruct (binary_search_by_hit _ _ _ Ho E) as (x & _ & Hx). unfold cmp in Hx. by destruct (pred x).
  - destruct (binary_search_by_miss _ _ _ Ho E) as (Hi & Hl & Hr). rewrite length_app in Hi.
    destruct (Nat.lt_trichotomy i (length l1)) as [Hlt|[->|Hgt]]; [|done|].
    + destruct (lookup_lt_is_Some_2 (l1 ++ l2) i) as [x Hx]; [rewrite length_app; lia|].
      specialize (Hr i x ltac:(lia) Hx). unfold cmp in Hr. rewrite (Hat _ _ Hx) in Hr.
      by destruct (Nat.ltb_spec i (length l1)); [|lia].
    + destruct (lookup_lt_is_Some_2 (l1 ++ l2) (length l1)) as [x Hx]; [rewrite length_app; lia|].
      specialize (Hl (length l1) x Hgt Hx). unfold cmp in Hl. rewrite (Hat _ _ Hx) in Hl.
      by destruct (Nat.ltb_spec (length l1) (length l1)); [lia|].
Qed.

(** [&l[a..=b]] *)
Definition slice_incl {A} (l : list A) (a b : nat) : list A := take (S b - a) (drop a l).

Example binary_search_ex :
  binary_search_by (fun x => x ?= 30) [10; 20; 30; 40] = Ok 2%nat /\
  binary_search_by (fun x => x ?= 25) [10; 20; 30; 40] = Err 2%nat.
Proof. vm_compute. done. Qed.
