(* ===== verification/Content.v ===== *)
(** * Content: the abstract value of a chunk or a series

    A chunk, and a series, stand for a list of samples in strictly increasing
    time order.  This file states what the storage operations do to that list:
    [select] and [remove] for range reads and deletes, [list_upsert] for an
    insert under a duplicate policy, [upsert_all] for a batch.  The components
    are proved against these definitions. *)

From S2P Require Import Prelude Float64 Types.

Definition ts_lt (a b : Sample) : Prop := timestamp a < timestamp b.
Definition ts_sorted : list Sample -> Prop := StronglySorted ts_lt.

(** ** Ranges *)

Definition in_range (s e : Timestamp) (x : Sample) : bool :=
  (s <=? timestamp x) && (timestamp x <=? e).

Definition select (s e : Timestamp) (l : list Sample) : list Sample :=
  List.filter (in_range s e) l.

Definition remove (s e : Timestamp) (l : list Sample) : list Sample :=
  List.filter (fun x => negb (in_range s e x)) l.

(** ** Upserts *)

Fixpoint list_upsert (p : DuplicatePolicy) (s : Sample) (l : list Sample)
  : TsdbResult (list Sample) :=
  match l with
  | [] => Ok [s]
  | x :: l' =>
      if timestamp s <? timestamp x then Ok (s :: l)
      else if timestamp s =? timestamp x then
        let? v := duplicate_value p (timestamp s) (value x) (value s) in
        Ok (mkSample (timestamp x) v :: l')
      else
        let? l'' := list_upsert p s l' in Ok (x :: l'')
  end.

(** A rejected sample leaves the content alone. *)
Definition upsert_or_keep (p : DuplicatePolicy) (l : list Sample) (s : Sample) : list Sample :=
  match list_upsert p s l with Ok l' => l' | Err _ => l end.

Definition upsert_all (p : DuplicatePolicy) (l r : list Sample) : list Sample :=
  foldl (upsert_or_keep p) l r.

(** The sample stored at a timestamp. *)
Fixpoint lookup_ts (t : Timestamp) (l : list Sample) : option Sample :=
  match l with
  | [] => None
  | x :: l' => if timestamp x =? t then Some x else lookup_ts t l'
  end.

(** ** Sortedness *)

Lemma ts_sorted_nil : ts_sorted [].
Proof. constructor. Qed.

Lemma ts_sorted_singleton x : ts_sorted [x].
Proof. repeat constructor. Qed.

Lemma ts_sorted_cons x l :
  ts_sorted (x :: l) <-> ts_sorted l /\ Forall (ts_lt x) l.
Proof.
  split.
  - intros H. by inversion H.
  - intros [H1 H2]. by constructor.
Qed.

Lemma ts_sorted_app l1 l2 :
  ts_sorted (l1 ++ l2) <->
  ts_sorted l1 /\ ts_sorted l2 /\ Forall (fun x => Forall (ts_lt x) l2) l1.
Proof.
  induction l1 as [|x l1 IH]; simpl.
  - split; [|tauto]. intros. by repeat constructor.
  - rewrite !ts_sorted_cons, IH, Forall_app, Forall_cons. tauto.
Qed.

Lemma ts_sorted_snoc l x :
  ts_sorted (l ++ [x]) <-> ts_sorted l /\ Forall (fun y => ts_lt y x) l.
Proof.
  rewrite ts_sorted_app. split.
  - intros (H1 & _ & H3). split; [done|].
    eapply Forall_impl; [done|]. simpl. intros y Hy. by inversion Hy.
  - intros [H1 H2]. split_and!; [done|apply ts_sorted_singleton|].
    eapply Forall_impl; [done|]. simpl. intros y Hy. by repeat constructor.
Qed.

Lemma ts_sorted_filter f l : ts_sorted l -> ts_sorted (List.filter f l).
Proof.
  induction l as [|x l IH]; simpl; [done|]. rewrite ts_sorted_cons. intros [H1 H2].
  destruct (f x); [|auto]. apply ts_sorted_cons. split; [auto|].
  apply Forall_forall. intros y Hy. apply list_elem_of_In, filter_In in Hy as [Hy _].
  rewrite Forall_forall in H2. apply H2. by apply list_elem_of_In.
Qed.

Lemma Forall_list_filter {A} (P : A -> Prop) f l : Forall P l -> Forall P (List.filter f l).
Proof.
  induction 1; simpl; [constructor|]. destruct (f x); auto.
Qed.

#[export] Hint Resolve ts_sorted_nil ts_sorted_singleton ts_sorted_filter Forall_list_filter : tsdb.

(** ** Filters on lists *)

Lemma filter_none {A} (f : A -> bool) l :
  Forall (fun x => f x = false) l -> List.filter f l = [].
Proof. induction 1 as [|x l H _ IH]; simpl; [done|]. by rewrite H. Qed.

Lemma filter_all {A} (f : A -> bool) l :
  Forall (fun x => f x = true) l -> List.filter f l = l.
Proof. induction 1 as [|x l H _ IH]; simpl; [done|]. by rewrite H, IH. Qed.

Lemma select_app s e l1 l2 : select s e (l1 ++ l2) = select s e l1 ++ select s e l2.
Proof. apply List.filter_app. Qed.

Lemma remove_app s e l1 l2 : remove s e (l1 ++ l2) = remove s e l1 ++ remove s e l2.
Proof. apply List.filter_app. Qed.

Lemma select_none s e l :
  Forall (fun x => timestamp x < s \/ e < timestamp x) l -> select s e l = [].
Proof.
  intros H. apply filter_none. eapply Forall_impl; [done|].
  cbv beta. unfold in_range. lia.
Qed.

Lemma select_all s e l :
  Forall (fun x => s <= timestamp x <= e) l -> select s e l = l.
Proof.
  intros H. apply filter_all. eapply Forall_impl; [done|].
  cbv beta. unfold in_range. lia.
Qed.

Lemma remove_none s e l :
  Forall (fun x => timestamp x < s \/ e < timestamp x) l -> remove s e l = l.
Proof.
  intros H. apply filter_all. eapply Forall_impl; [done|].
  cbv beta. unfold in_range. lia.
Qed.

Lemma remove_all s e l :
  Forall (fun x => s <= timestamp x <= e) l -> remove s e l = [].
Proof.
  intros H. apply filter_none. eapply Forall_impl; [done|].
  cbv beta. unfold in_range. lia.
Qed.

Lemma length_select_remove s e l :
  (length (select s e l) + length (remove s e l) = length l)%nat.
Proof.
  unfold select, remove. induction l as [|x l IH]; simpl; [done|].
  destruct (in_range s e x); simpl; lia.
Qed.

Lemma remove_unselected s e l : select s e l = [] -> remove s e l = l.
Proof.
  unfold select, remove. induction l as [|x l IH]; cbn; [done|].
  destruct (in_range s e x); cbn; [done|]. intros H. by rewrite IH.
Qed.

(** ** Facts about upserts *)

Lemma list_upsert_app_l p s a b :
  Forall (fun x => timestamp x < timestamp s) a ->
  list_upsert p s (a ++ b) = (let? b' := list_upsert p s b in Ok (a ++ b')).
Proof.
  induction 1 as [|x a Hx _ IH]; cbn; [by destruct (list_upsert p s b)|].
  destruct (Z.ltb_spec (timestamp s) (timestamp x)); [lia|].
  destruct (Z.eqb_spec (timestamp s) (timestamp x)); [lia|].
  rewrite IH. by destruct (list_upsert p s b).
Qed.

Lemma list_upsert_before p s l :
  Forall (fun x => timestamp s < timestamp x) l -> list_upsert p s l = Ok (s :: l).
Proof.
  destruct 1; cbn; [done|].
  by destruct (Z.ltb_spec (timestamp s) (timestamp x)); [|lia].
Qed.

Lemma list_upsert_after p s l :
  Forall (fun x => timestamp x < timestamp s) l -> list_upsert p s l = Ok (l ++ [s]).
Proof.
  intros H. rewrite <- (app_nil_r l) at 1. by rewrite list_upsert_app_l.
Qed.

Lemma list_upsert_app_r p s a b :
  Forall (fun x => timestamp s < timestamp x) b ->
  list_upsert p s (a ++ b) = (let? a' := list_upsert p s a in Ok (a' ++ b)).
Proof.
  intros Hb. induction a as [|x a IH]; cbn; [by apply list_upsert_before|].
  destruct (timestamp s <? timestamp x); [done|].
  destruct (timestamp s =? timestamp x).
  - by destruct (duplicate_value _ _ _ _).
  - rewrite IH. by destruct (list_upsert p s a).
Qed.

(** Timestamps after an upsert are those before it and the new one. *)
Lemma list_upsert_ts (P : Timestamp -> Prop) p s l l' :
  P (timestamp s) -> Forall (fun x => P (timestamp x)) l ->
  list_upsert p s l = Ok l' -> Forall (fun x => P (timestamp x)) l'.
Proof.
  intros Hs Hl. revert l'. induction Hl as [|x l Hx Hl IH]; cbn; intros l' H.
  { simplify_eq. by repeat constructor. }
  destruct (timestamp s <? timestamp x); simplify_eq; [by repeat constructor|].
  destruct (timestamp s =? timestamp x).
  - destruct (duplicate_value _ _ _ _); simplify_eq. by constructor.
  - destruct (list_upsert p s l); simplify_eq. constructor; [done|]. by apply IH.
Qed.

Lemma list_upsert_sorted p s l l' :
  ts_sorted l -> list_upsert p s l = Ok l' -> ts_sorted l'.
Proof.
  revert l'. induction l as [|x l IH]; cbn; intros l' Hs H.
  { simplify_eq. auto with tsdb. }
  apply ts_sorted_cons in Hs as [Hs Hx].
  destruct (Z.ltb_spec (timestamp s) (timestamp x)); simplify_eq.
  { apply ts_sorted_cons. split; [by apply ts_sorted_cons|].
    constructor; [done|]. eapply Forall_impl; [done|]. unfold ts_lt. lia. }
  destruct (Z.eqb_spec (timestamp s) (timestamp x)).
  - destruct (duplicate_value _ _ _ _); simplify_eq. by apply ts_sorted_cons.
  - destruct (list_upsert p s l) eqn:E; simplify_eq. apply ts_sorted_cons.
    split; [by apply IH|]. apply (list_upsert_ts (fun t => timestamp x < t) p s l); [cbv beta; lia| |done].
    done.
Qed.

Lemma duplicate_value_range p ts a b v :
  is_f64 a -> is_f64 b -> duplicate_value p ts a b = Ok v -> is_f64 v.
Proof.
  unfold duplicate_value. intros. repeat case_match; simplify_eq; auto with tsdb.
Qed.

Lemma list_upsert_ok p s l l' :
  sample_ok s -> Forall sample_ok l -> list_upsert p s l = Ok l' -> Forall sample_ok l'.
Proof.
  intros Hs Hl. revert l'. induction Hl as [|x l Hx Hl IH]; cbn; intros l' H.
  { simplify_eq. fora. }
  destruct (timestamp s <? timestamp x); simplify_eq; [fora|].
  destruct (timestamp s =? timestamp x).
  - destruct (duplicate_value _ _ _ _) eqn:E; simplify_eq. constructor; [|done].
    destruct Hs, Hx. split; [done|]. by eapply duplicate_value_range in E.
  - destruct (list_upsert p s l); simplify_eq. constructor; [done|]. by apply IH.
Qed.

Lemma lookup_ts_above t l : Forall (fun x => t < timestamp x) l -> lookup_ts t l = None.
Proof.
  induction 1; cbn; [done|]. by destruct (Z.eqb_spec (timestamp x) t); [lia|].
Qed.

Lemma lookup_ts_below t l : Forall (fun x => timestamp x < t) l -> lookup_ts t l = None.
Proof.
  induction 1; cbn; [done|]. by destruct (Z.eqb_spec (timestamp x) t); [lia|].
Qed.

Lemma lookup_ts_app t a b :
  lookup_ts t (a ++ b) = match lookup_ts t a with Some x => Some x | None => lookup_ts t b end.
Proof. induction a as [|x a IH]; cbn; [done|]. by destruct (timestamp x =? t). Qed.

Lemma lookup_ts_Some t l x : lookup_ts t l = Some x -> x ∈ l /\ timestamp x = t.
Proof.
  induction l as [|y l IH]; cbn; [done|].
  destruct (Z.eqb_spec (timestamp y) t).
  - intros. simplify_eq. split; [by left|done].
  - intros [H1 H2]%IH. split; [by right|done].
Qed.

(** An upsert, by what the content holds at the sample's timestamp. *)
Lemma list_upsert_cases p s l :
  ts_sorted l ->
  match lookup_ts (timestamp s) l with
  | None => exists a b, l = a ++ b /\ list_upsert p s l = Ok (a ++ s :: b) /\
      Forall (fun x => timestamp x < timestamp s) a /\
      Forall (fun x => timestamp s < timestamp x) b
  | Some x => exists a b, l = a ++ x :: b /\
      list_upsert p s l =
        (let? v := duplicate_value p (timestamp s) (value x) (value s) in
         Ok (a ++ mkSample (timestamp s) v :: b)) /\
      Forall (fun x => timestamp x < timestamp s) a /\
      Forall (fun x => timestamp s < timestamp x) b
  end.
Proof.
  induction l as [|x l IH]; cbn; intros Hs.
  { exists [], []. split_and!; by constructor. }
  apply ts_sorted_cons in Hs as [Hs Hx].
  assert (timestamp s <= timestamp x -> Forall (fun y => timestamp s < timestamp y) l) as Hab
    by (intros; eapply Forall_impl; [done|]; unfold ts_lt; lia).
  destruct (Z.ltb_spec (timestamp s) (timestamp x)).
  { destruct (Z.eqb_spec (timestamp x) (timestamp s)); [lia|].
    rewrite lookup_ts_above by (apply Hab; lia).
    exists [], (x :: l). split_and!; try by constructor. constructor; [done|]. apply Hab. lia. }
  destruct (Z.eqb_spec (timestamp s) (timestamp x)) as [He|].
  - rewrite He, Z.eqb_refl. exists [], l. split_and!; [done|done|by constructor|].
    rewrite <- He. apply Hab. lia.
  - destruct (Z.eqb_spec (timestamp x) (timestamp s)); [lia|].
    specialize (IH Hs). destruct (lookup_ts (timestamp s) l) as [y|];
      destruct IH as (a & b & -> & -> & Ha & Hb); exists (x :: a), b.
    + split_and!; [done| |constructor; [lia|done]|done].
      by destruct (duplicate_value _ _ _ _).
    + split_and!; [done|done|constructor; [lia|done]|done].
Qed.

(** An upsert fails exactly when the timestamp is taken and the policy refuses. *)
Lemma list_upsert_err p s l e :
  ts_sorted l ->
  list_upsert p s l = Err e <->
  exists x, lookup_ts (timestamp s) l = Some x /\
    duplicate_value p (timestamp s) (value x) (value s) = Err e.
Proof.
  intros Hs. pose proof (list_upsert_cases p s l Hs) as H.
  destruct (lookup_ts (timestamp s) l) as [x|] eqn:E;
    destruct H as (a & b & -> & -> & _ & _).
  - destruct (duplicate_value _ _ _ _) eqn:Ed.
    + split; [done|]. intros (y & ? & ?). simplify_eq. congruence.
    + split; [|naive_solver congruence]. intros. simplify_eq. eauto.
  - split; [done|]. naive_solver.
Qed.

(** What is stored afterwards: the policy's verdict at the sample's timestamp,
    and what was there before everywhere else. *)
Lemma list_upsert_lookup p s l l' t :
  ts_sorted l -> list_upsert p s l = Ok l' ->
  lookup_ts t l' =
    if t =? timestamp s then
      match lookup_ts t l with
      | Some x => match duplicate_value p t (value x) (value s) with
                  | Ok v => Some (mkSample t v) | Err _ => None end
      | None => Some s
      end
    else lookup_ts t l.
Proof.
  intros Hs H. pose proof (list_upsert_cases p s l Hs) as Hc.
  destruct (Z.eqb_spec t (timestamp s)) as [->|Hne].
  - destruct (lookup_ts (timestamp s) l) as [x|];
      destruct Hc as (a & b & -> & Hu & Ha & Hb); rewrite Hu in H.
    + destruct (duplicate_value _ _ _ _); simplify_eq.
      rewrite lookup_ts_app, lookup_ts_below by done. cbn. by rewrite Z.eqb_refl.
    + simplify_eq. rewrite lookup_ts_app, lookup_ts_below by done. cbn. by rewrite Z.eqb_refl.
  - destruct (lookup_ts (timestamp s) l) as [x|] eqn:E;
      destruct Hc as (a & b & -> & Hu & Ha & Hb); rewrite Hu in H.
    + apply lookup_ts_Some in E as [_ E].
      destruct (duplicate_value _ _ _ _); simplify_eq. rewrite !lookup_ts_app. cbn.
      rewrite E. destruct (Z.eqb_spec (timestamp s) t); [lia|done].
    + simplify_eq. rewrite !lookup_ts_app. cbn.
      destruct (Z.eqb_spec (timestamp s) t); [lia|done].
Qed.

Lemma list_upsert_length p s l l' :
  ts_sorted l -> list_upsert p s l = Ok l' ->
  length l' = (length l + match lookup_ts (timestamp s) l with Some _ => 0 | None => 1 end)%nat.
Proof.
  intros Hs H. pose proof (list_upsert_cases p s l Hs) as Hc.
  destruct (lookup_ts (timestamp s) l) as [x|];
    destruct Hc as (a & b & -> & Hu & _ & _); rewrite Hu in H.
  - destruct (duplicate_value _ _ _ _); simplify_eq. rewrite !length_app. cbn. lia.
  - simplify_eq. rewrite !length_app. cbn. lia.
Qed.

(** ** Well-formed content

    Timestamps are milliseconds since the epoch: the commands reject negative
    ones, so a stored sample has a timestamp in [0, 2^63). *)

Definition sample_valid (s : Sample) : Prop := sample_ok s /\ 0 <= timestamp s.
Definition content_ok (l : list Sample) : Prop := ts_sorted l /\ Forall sample_valid l.

(** A [Vec<Sample>] of this length can exist: at most [isize::MAX] bytes. *)
Definition fits_memory (l : list Sample) : Prop := Z.of_nat (length l) * SAMPLE_SIZE <= i64_MAX.

(** [s] is newer than everything in [l]. *)
Definition appends (l : list Sample) (s : Sample) : Prop := Forall (fun x => ts_lt x s) l.

(** A boolean test for concrete lists. *)
Definition sample_validb (s : Sample) : bool :=
  (0 <=? timestamp s) && (timestamp s <? 2 ^ 63) && (0 <=? value s) && (value s <? 2 ^ 64).

Fixpoint content_okb (l : list Sample) : bool :=
  match l with
  | [] => true
  | x :: r =>
      sample_validb x && forallb (fun y => timestamp x <? timestamp y) r && content_okb r
  end.

Lemma sample_validb_sound s : sample_validb s = true -> sample_valid s.
Proof.
  unfold sample_validb. rewrite !andb_true_iff, !Z.leb_le, !Z.ltb_lt. intros (((? & ?) & ?) & ?).
  split; [split|]; ilia.
Qed.

Lemma content_ok_nil : content_ok [].
Proof. split; constructor. Qed.

Lemma content_ok_app l1 l2 :
  content_ok (l1 ++ l2) <->
  content_ok l1 /\ content_ok l2 /\ Forall (fun x => Forall (ts_lt x) l2) l1.
Proof. unfold content_ok. rewrite ts_sorted_app, Forall_app. tauto. Qed.

Lemma content_ok_cons x l :
  content_ok (x :: l) <-> sample_valid x /\ content_ok l /\ Forall (ts_lt x) l.
Proof. unfold content_ok. rewrite ts_sorted_cons, Forall_cons. tauto. Qed.

Lemma content_okb_sound l : content_okb l = true -> content_ok l.
Proof.
  induction l as [|x l IH]; [intros; split; constructor|]. cbn [content_okb].
  rewrite !andb_true_iff. intros ((Hx & Hlt) & Hl). apply content_ok_cons.
  split_and!; [by apply sample_validb_sound|by apply IH|].
  apply Forall_forall. intros y Hy. unfold ts_lt. apply Z.ltb_lt.
  rewrite forallb_forall in Hlt. apply Hlt. by apply list_elem_of_In.
Qed.

Lemma content_ok_snoc l x : content_ok l -> sample_valid x -> appends l x -> content_ok (l ++ [x]).
Proof.
  intros [H1 H2] Hx Ha. split; [by apply ts_sorted_snoc|]. apply Forall_app. split; [done|]. by fora.
Qed.

Lemma content_ok_filter f l : content_ok l -> content_ok (List.filter f l).
Proof. intros [H1 H2]. split; auto with tsdb. Qed.

Lemma content_ok_select s e l : content_ok l -> content_ok (select s e l).
Proof. apply content_ok_filter. Qed.

Lemma content_ok_remove s e l : content_ok l -> content_ok (remove s e l).
Proof. apply content_ok_filter. Qed.

Lemma content_ok_take n l : content_ok l -> content_ok (take n l).
Proof. rewrite <- (take_drop n l) at 1. rewrite content_ok_app. tauto. Qed.

Lemma content_ok_drop n l : content_ok l -> content_ok (drop n l).
Proof. rewrite <- (take_drop n l) at 1. rewrite content_ok_app. tauto. Qed.

Lemma content_ok_upsert p s l l' :
  sample_valid s -> content_ok l -> list_upsert p s l = Ok l' -> content_ok l'.
Proof.
  intros [Hs Hs0] [Hl Hv] H. apply Forall_and in Hv as [Hv Hv0].
  split; [by eapply list_upsert_sorted|]. apply Forall_and. split; [by eapply list_upsert_ok|].
  by eapply (list_upsert_ts (fun t => 0 <= t)).
Qed.

Lemma content_ok_upsert_all p l r : content_ok l -> Forall sample_valid r -> content_ok (upsert_all p l r).
Proof.
  intros Hl Hr. revert l Hl. unfold upsert_all.
  induction Hr as [|s r Hs Hr IH]; intros l Hl; cbn [foldl]; [done|].
  apply IH. unfold upsert_or_keep. destruct (list_upsert p s l) eqn:E; [|done].
  by eapply content_ok_upsert.
Qed.

Lemma appends_app l x s : content_ok (l ++ [x]) -> appends (l ++ [x]) s <-> timestamp x < timestamp s.
Proof.
  intros (_ & _ & H)%content_ok_app. unfold appends. rewrite Forall_app. split.
  - intros [_ Hx]. by inversion Hx.
  - intros Hx. split; [|by fora]. eapply Forall_impl; [exact H|]. cbv beta.
    intros y Hy. inversion Hy; subst. unfold ts_lt in *. lia.
Qed.


Lemma snoc_cases (l : list Sample) : l <> [] -> exists l' x, l = l' ++ [x].
Proof. intros H. destruct l as [|x l' _] using rev_ind; [done|]. eauto. Qed.

Lemma first_lt_last x l y : content_ok (x :: l ++ [y]) -> timestamp x < timestamp y.
Proof.
  rewrite content_ok_cons. intros (_ & _ & H). apply Forall_app in H as [_ H]. by inversion H.
Qed.

#[export] Hint Resolve content_ok_nil content_ok_select content_ok_remove content_ok_take content_ok_drop
  content_ok_snoc content_ok_upsert_all : tsdb.
