(* ===== verification/Encoding.v ===== *)
(** * Encoding: LEB128 varints, zigzag, little-endian words

    Models [src/common/encoding.rs].  A buffer is the list of its bytes; a
    writer returns the extended buffer and a reader the value with the rest of
    the slice, as [buf: &mut &[u8]] does.  Every reader is the left inverse of
    its writer, whatever follows on the buffer. *)

From S2P Require Import Prelude Float64.

Inductive DecodeError :=
| Overflow
| InsufficientData (requested available : Z)
| InvalidUTF8.

Abbreviation DecodeResult := (result DecodeError).

Definition insufficient_data (available requested : Z) : DecodeError :=
  InsufficientData requested available.

(** ** Unsigned varints *)

Fixpoint write_uvarint_loop (fuel : nat) (buf : list Z) (value : Z) : list Z :=
  match fuel with
  | O => buf ++ [wrap_u8 value]
  | S fuel' =>
      if 0x80 <=? value
      then write_uvarint_loop fuel' (buf ++ [Z.lor (wrap_u8 value) 0x80]) (shr64 value 7)
      else buf ++ [wrap_u8 value]
  end.

(** A [u64] has at most nine 7-bit groups before its last byte. *)
Definition write_uvarint (buf : list Z) (value : Z) : list Z :=
  write_uvarint_loop 9 buf value.

Fixpoint read_uvarint_loop (buf : list Z) (value shift : Z) : DecodeResult (Z * list Z) :=
  match buf with
  | [] => Err Overflow
  | byte :: rest =>
      let value := Z.lor value (shl64 (Z.land byte 0x7F) shift) in
      if Z.land byte 0x80 =? 0 then Ok (value, rest)
      else
        let shift := shift + 7 in
        if 63 <? shift then Err Overflow else read_uvarint_loop rest value shift
  end.

Definition try_read_uvarint (buf : list Z) : DecodeResult (Z * list Z) :=
  read_uvarint_loop buf 0 0.

(** ** Zigzag *)

Definition zigzag_encode (from : Z) : Z :=
  wrap_u64 (Z.lxor (wrap_i64 (Z.shiftl from 1)) (Z.shiftr from 63)).

Definition zigzag_decode (from : Z) : Z :=
  wrap_i64 (Z.lxor (shr64 from 1) (wrap_u64 (- Z.land from 1))).

Definition write_signed_varint (buf : list Z) (value : Z) : list Z :=
  write_uvarint buf (zigzag_encode value).

Definition try_read_signed_varint (buf : list Z) : DecodeResult (Z * list Z) :=
  let? (v, rest) := try_read_uvarint buf in Ok (zigzag_decode v, rest).

(** ** Fixed-width words and slices *)

Fixpoint to_le_bytes (n : nat) (v : Z) : list Z :=
  match n with
  | O => []
  | S n' => wrap_u8 v :: to_le_bytes n' (Z.shiftr v 8)
  end.

Fixpoint from_le_bytes (l : list Z) : Z :=
  match l with
  | [] => 0
  | b :: l' => Z.lor b (Z.shiftl (from_le_bytes l') 8)
  end.

Definition write_u8 (buf : list Z) (v : Z) : list Z := buf ++ [v].

Definition try_read_u8 (buf : list Z) : DecodeResult (Z * list Z) :=
  match buf with
  | [] => Err (insufficient_data 0 1)
  | b :: rest => Ok (b, rest)
  end.

Definition write_u64_le (buf : list Z) (v : Z) : list Z := buf ++ to_le_bytes 8 v.

Definition try_read_u64_le (buf : list Z) : DecodeResult (Z * list Z) :=
  if Z.of_nat (length buf) <? 8 then Err (insufficient_data (Z.of_nat (length buf)) 8)
  else Ok (from_le_bytes (take 8 buf), drop 8 buf).

Definition write_f64_le (buf : list Z) (v : f64) : list Z := write_u64_le buf v.
Definition try_read_f64_le (buf : list Z) : DecodeResult (f64 * list Z) := try_read_u64_le buf.

Definition write_byte_slice (buf slice : list Z) : list Z :=
  let buf := write_uvarint buf (Z.of_nat (length slice)) in
  match slice with [] => buf | _ => buf ++ slice end.

Definition try_read_byte_slice (buf : list Z) : DecodeResult (list Z * list Z) :=
  let? (len, buf) := try_read_uvarint buf in
  if Z.of_nat (length buf) <? len
  then Err (insufficient_data (Z.of_nat (length buf)) len)
  else Ok (take (Z.to_nat len) buf, drop (Z.to_nat len) buf).

(** [sign_extend(val, bits)]: the two's-complement value of the low [bits]. *)
Definition sign_extend (val bits : Z) : Z :=
  let m := wrap_i64 (Z.shiftl 1 (bits - 1)) in
  let val := wrap_i64 val in
  wrap_i64 (Z.lxor val m - m).

#[global] Arguments write_uvarint : simpl never.
#[global] Arguments write_signed_varint : simpl never.

(** ** Bit arithmetic *)

(** Disjoint bits add. *)
Lemma lor_shiftl_add a b n :
  0 <= n -> 0 <= a < 2 ^ n -> Z.lor a (Z.shiftl b n) = a + b * 2 ^ n.
Proof.
  intros Hn Ha. rewrite <- Z.shiftl_mul_pow2 by lia. symmetry. apply Z.add_nocarry_lor.
  apply Z.bits_inj'. intros i Hi. rewrite Z.land_spec, Z.bits_0.
  destruct (Z.lt_ge_cases i n).
  - rewrite Z.shiftl_spec_low by lia. apply andb_false_r.
  - rewrite <- (Z.mod_small a (2 ^ n)) by lia. by rewrite Z.mod_pow2_bits_high by lia.
Qed.

Lemma lor_shl64 a b n :
  0 <= n -> 0 <= a < 2 ^ n -> 0 <= b -> a + b * 2 ^ n < 2 ^ 64 ->
  Z.lor a (shl64 b n) = a + b * 2 ^ n.
Proof.
  intros Hn Ha Hb Hlt. unfold shl64. rewrite wrap_u64_id; [by apply lor_shiftl_add|].
  rewrite Z.shiftl_mul_pow2 by lia. unfold is_u64. nia.
Qed.

Lemma land_127 b : Z.land b 127 = b mod 2 ^ 7.
Proof. apply (Z.land_ones b 7). lia. Qed.

(** A property of bytes, checked on all of them. *)
Lemma byte_forall (P : Z -> bool) b :
  forallb P (seqZ 0 256) = true -> 0 <= b < 256 -> P b = true.
Proof.
  intros H Hb. rewrite forallb_forall in H. apply H. apply list_elem_of_In, elem_of_seqZ. lia.
Qed.

(** The continuation bit of a byte. *)
Lemma land_128 b : 0 <= b < 256 -> (Z.land b 128 =? 0) = (b <? 128).
Proof.
  intros Hb. apply eqb_prop.
  apply (byte_forall (fun b => eqb (Z.land b 128 =? 0) (b <? 128))); [by vm_compute|done].
Qed.

Lemma lor_128 b : 0 <= b < 256 -> Z.lor b 128 = b mod 128 + 128.
Proof.
  intros Hb. apply Z.eqb_eq.
  apply (byte_forall (fun b => Z.lor b 128 =? b mod 128 + 128)); [by vm_compute|done].
Qed.

Lemma lxor_ones a n : 0 <= n -> 0 <= a < 2 ^ n -> Z.lxor a (2 ^ n - 1) = 2 ^ n - 1 - a.
Proof.
  intros Hn Ha. replace (2 ^ n - 1) with (Z.ones n) by (rewrite Z.ones_equiv; lia).
  assert (forall i, n <= i -> Z.testbit a i = false) as Hhi.
  { intros i Hi. rewrite <- (Z.mod_small a (2 ^ n)) by lia. apply Z.mod_pow2_bits_high. lia. }
  rewrite (Z.sub_nocarry_ldiff (Z.ones n) a).
  - apply Z.bits_inj'. intros i Hi. rewrite Z.lxor_spec, Z.ldiff_spec.
    rewrite Z.testbit_ones by lia. destruct (Z.ltb_spec i n).
    + destruct (Z.leb_spec 0 i); [|lia]. by destruct (Z.testbit a i).
    + rewrite Hhi by lia. by rewrite andb_false_r.
  - apply Z.bits_inj'. intros i Hi. rewrite Z.ldiff_spec, Z.bits_0, Z.testbit_ones by lia.
    destruct (Z.ltb_spec i n).
    + destruct (Z.leb_spec 0 i); [|lia]. apply andb_false_r.
    + by rewrite Hhi by lia.
Qed.

(** ** Unsigned varint round trip *)

Lemma write_uvarint_loop_app fuel buf v :
  write_uvarint_loop fuel buf v = buf ++ write_uvarint_loop fuel [] v.
Proof.
  revert buf v. induction fuel as [|fuel IH]; intros buf v; cbn [write_uvarint_loop]; [done|].
  destruct (0x80 <=? v); [|done]. rewrite IH, (IH ([] ++ _)). by rewrite <- app_assoc.
Qed.

Lemma write_uvarint_app buf v : write_uvarint buf v = buf ++ write_uvarint [] v.
Proof. apply write_uvarint_loop_app. Qed.

Lemma read_write_uvarint_loop fuel v acc shift rest :
  0 <= shift -> 0 <= acc < 2 ^ shift -> 0 <= v -> acc + v * 2 ^ shift < 2 ^ 64 ->
  v < 2 ^ (7 * (Z.of_nat fuel + 1)) -> shift + 7 * Z.of_nat fuel = 63 ->
  read_uvarint_loop (write_uvarint_loop fuel [] v ++ rest) acc shift =
    Ok (acc + v * 2 ^ shift, rest).
Proof.
  revert v acc shift. induction fuel as [|fuel IH]; intros v acc shift Hs Hacc Hv Hlt Hvf Hsf.
  - cbn [write_uvarint_loop app read_uvarint_loop].
    assert (v < 128) by (change (2 ^ (7 * (Z.of_nat 0 + 1))) with 128 in Hvf; lia).
    unfold wrap_u8. rewrite Z.mod_small, land_127, land_128 by lia.
    rewrite Z.mod_small by lia. destruct (Z.ltb_spec v 128); [|lia].
    by rewrite lor_shl64 by lia.
  - cbn [write_uvarint_loop]. destruct (Z.leb_spec 0x80 v) as [Hge|Hsm].
    + rewrite write_uvarint_loop_app. cbn [app read_uvarint_loop].
      assert (Z.lor (wrap_u8 v) 0x80 = v mod 128 + 128) as ->.
      { rewrite lor_128 by apply wrap_u8_range. f_equal. apply Z.mod_mod_divide. by exists 2. }
      pose proof (Z.mod_pos_bound v 128 ltac:(lia)).
      rewrite land_127, land_128 by lia. destruct (Z.ltb_spec (v mod 128 + 128) 128); [lia|].
      assert ((v mod 128 + 128) mod 2 ^ 7 = v mod 128) as ->
        by (change (2 ^ 7) with 128; rewrite <- Z.add_mod_idemp_r, Z.mod_same, Z.add_0_r by lia;
            apply Z.mod_mod; lia).
      pose proof (Z.div_mod v 128 ltac:(lia)) as Hdm.
      pose proof (Z.div_pos v 128 Hv ltac:(lia)).
      assert (0 < 2 ^ shift) by lia.
      assert (2 ^ (shift + 7) = 128 * 2 ^ shift) as Hp by (rewrite Z.pow_add_r by lia; lia).
      assert (v * 2 ^ shift = v / 128 * (128 * 2 ^ shift) + v mod 128 * 2 ^ shift) as Hsplit
        by (rewrite Hdm at 1; ring).
      assert (0 <= v mod 128 * 2 ^ shift <= 127 * 2 ^ shift)
        by (split; [apply Z.mul_nonneg_nonneg; lia|apply Z.mul_le_mono_nonneg_r; lia]).
      assert (0 <= v / 128 * (128 * 2 ^ shift)) by (apply Z.mul_nonneg_nonneg; lia).
      rewrite lor_shl64 by lia.
      destruct (Z.ltb_spec 63 (shift + 7)); [lia|].
      unfold shr64. rewrite Z.shiftr_div_pow2 by lia. change (2 ^ 7) with 128.
      rewrite IH; rewrite ?Hp; try lia.
      * do 2 f_equal. lia.
      * apply Z.div_lt_upper_bound; [lia|].
        replace (7 * (Z.of_nat (S fuel) + 1)) with (7 + 7 * (Z.of_nat fuel + 1)) in Hvf by lia.
        rewrite Z.pow_add_r in Hvf by lia. lia.
    + cbn [app read_uvarint_loop]. unfold wrap_u8.
      rewrite Z.mod_small, land_127, land_128 by lia.
      rewrite Z.mod_small by lia. destruct (Z.ltb_spec v 128); [|lia].
      by rewrite lor_shl64 by lia.
Qed.

Lemma read_write_uvarint v rest :
  is_u64 v -> try_read_uvarint (write_uvarint [] v ++ rest) = Ok (v, rest).
Proof.
  intros Hv. unfold try_read_uvarint, write_uvarint.
  rewrite read_write_uvarint_loop; unfold is_u64 in *; try lia.
  do 2 f_equal. lia.
Qed.

(** A varint of a [u64] takes between one and ten bytes, all of them bytes. *)
Lemma write_uvarint_loop_bytes fuel v :
  Forall is_u8 (write_uvarint_loop fuel [] v) /\
  (1 <= length (write_uvarint_loop fuel [] v) <= S fuel)%nat.
Proof.
  revert v. induction fuel as [|fuel IH]; intros v; cbn [write_uvarint_loop].
  - cbn. split; [|lia]. fora. apply wrap_u8_range.
  - destruct (0x80 <=? v).
    + rewrite write_uvarint_loop_app. destruct (IH (shr64 v 7)) as [H1 H2].
      rewrite length_app. cbn [length app]. split; [|lia].
      apply Forall_cons_2; [|done]. rewrite lor_128 by apply wrap_u8_range.
      pose proof (Z.mod_pos_bound (wrap_u8 v) 128). ilia.
    + cbn. split; [|lia]. fora. apply wrap_u8_range.
Qed.

(** A varint takes at most ten bytes. *)
Lemma length_write_uvarint v : (length (write_uvarint [] v) <= 10)%nat.
Proof. apply write_uvarint_loop_bytes. Qed.

Lemma length_write_signed_varint v : (length (write_signed_varint [] v) <= 10)%nat.
Proof. apply length_write_uvarint. Qed.

Lemma write_uvarint_bytes v : Forall is_u8 (write_uvarint [] v).
Proof. apply write_uvarint_loop_bytes. Qed.

(** ** Zigzag round trip *)

Lemma zigzag_encode_spec x :
  is_i64 x -> zigzag_encode x = if x <? 0 then - (2 * x) - 1 else 2 * x.
Proof.
  intros Hx. unfold zigzag_encode. rewrite Z.shiftl_mul_pow2, Z.shiftr_div_pow2 by lia.
  change (2 ^ 1) with 2. unfold is_i64 in Hx. destruct (Z.ltb_spec x 0).
  - assert (x / 2 ^ 63 = -1) as -> by (symmetry; apply Z.div_unique with (x + 2 ^ 63); lia).
    rewrite Z.lxor_m1_r. unfold Z.lnot. rewrite <- Z.sub_1_r.
    rewrite <- (Z.mod_small (- (2 * x) - 1) (2 ^ 64)) by lia.
    unfold wrap_u64, wrap_i64.
    replace (- ((x * 2 + 2 ^ 63) mod 2 ^ 64 - 2 ^ 63) - 1)
      with ((2 ^ 63 - 1) - (x * 2 + 2 ^ 63) mod 2 ^ 64) by lia.
    rewrite Zminus_mod_idemp_r. f_equal. lia.
  - rewrite Z.div_small, Z.lxor_0_r by lia.
    rewrite <- (Z.mod_small (2 * x) (2 ^ 64)) by lia. unfold wrap_u64, wrap_i64.
    rewrite Zminus_mod_idemp_l. f_equal. lia.
Qed.

Lemma zigzag_encode_range x : is_u64 (zigzag_encode x).
Proof. apply wrap_u64_range. Qed.

Lemma zigzag_decode_spec v :
  is_u64 v -> zigzag_decode v = if Z.odd v then - (v / 2) - 1 else v / 2.
Proof.
  intros Hv. unfold zigzag_decode, shr64. rewrite Z.shiftr_div_pow2 by lia.
  change (2 ^ 1) with 2. change 1 with (Z.ones 1) at 1. rewrite Z.land_ones by lia.
  change (2 ^ 1) with 2. rewrite Zmod_odd. unfold is_u64 in Hv.
  assert (0 <= v / 2 < 2 ^ 63)
    by (split; [apply Z.div_pos; lia|apply Z.div_lt_upper_bound; lia]).
  destruct (Z.odd v).
  - assert (wrap_u64 (Z.opp 1) = 2 ^ 64 - 1) as -> by done. rewrite lxor_ones by lia.
    unfold wrap_i64. rewrite <- (Z.mod_add _ (-1)) by lia. rewrite Z.mod_small; lia.
  - assert (wrap_u64 (Z.opp 0) = 0) as -> by done. rewrite Z.lxor_0_r. apply wrap_i64_id. ilia.
Qed.

Lemma zigzag_roundtrip x : is_i64 x -> zigzag_decode (zigzag_encode x) = x.
Proof.
  intros Hx. rewrite zigzag_decode_spec by apply zigzag_encode_range.
  rewrite zigzag_encode_spec by done. destruct (Z.ltb_spec x 0).
  - replace (- (2 * x) - 1) with (1 + 2 * (- x - 1)) by lia.
    rewrite Z.odd_add_mul_2. cbn [Z.odd]. rewrite (Z.mul_comm 2), Z.div_add by lia.
    change (1 / 2) with 0. lia.
  - rewrite Z.odd_mul. cbn [Z.odd andb]. rewrite Z.mul_comm, Z.div_mul by lia. done.
Qed.

Lemma read_write_signed_varint v rest :
  is_i64 v -> try_read_signed_varint (write_signed_varint [] v ++ rest) = Ok (v, rest).
Proof.
  intros Hv. unfold try_read_signed_varint, write_signed_varint.
  rewrite read_write_uvarint by apply zigzag_encode_range. by rewrite zigzag_roundtrip.
Qed.

(** ** Words and slices *)

Lemma length_to_le_bytes n v : length (to_le_bytes n v) = n.
Proof. revert v. induction n as [|n IH]; intros v; cbn [to_le_bytes length]; [done|]. by rewrite IH. Qed.

Lemma to_le_bytes_u8 n v : Forall is_u8 (to_le_bytes n v).
Proof.
  revert v. induction n as [|n IH]; intros v; cbn [to_le_bytes]; constructor; auto with tsdb.
Qed.

Lemma from_to_le_bytes n v : from_le_bytes (to_le_bytes n v) = v mod 2 ^ (8 * Z.of_nat n).
Proof.
  revert v. induction n as [|n IH]; intros v; cbn [to_le_bytes from_le_bytes].
  - by rewrite Z.mod_1_r.
  - rewrite IH, lor_shiftl_add by (try apply wrap_u8_range; lia). unfold wrap_u8.
    rewrite Z.shiftr_div_pow2 by lia.
    replace (8 * Z.of_nat (S n)) with (8 + 8 * Z.of_nat n) by lia.
    rewrite Z.pow_add_r, Z.rem_mul_r by lia. lia.
Qed.

Lemma read_write_u64_le v rest :
  is_u64 v -> try_read_u64_le (write_u64_le [] v ++ rest) = Ok (v, rest).
Proof.
  intros Hv. unfold try_read_u64_le, write_u64_le.
  rewrite app_nil_l, length_app, length_to_le_bytes.
  destruct (Z.ltb_spec (Z.of_nat (8 + length rest)) 8); [lia|].
  rewrite take_app_length', drop_app_length' by (symmetry; apply length_to_le_bytes).
  rewrite from_to_le_bytes. change (8 * Z.of_nat 8) with 64. by rewrite Z.mod_small.
Qed.

Lemma read_write_byte_slice slice rest :
  Z.of_nat (length slice) < 2 ^ 64 ->
  try_read_byte_slice (write_byte_slice [] slice ++ rest) = Ok (slice, rest).
Proof.
  intros Hl. unfold try_read_byte_slice, write_byte_slice.
  assert ((match slice with [] => write_uvarint [] (Z.of_nat (length slice))
           | _ => write_uvarint [] (Z.of_nat (length slice)) ++ slice end) ++ rest =
          write_uvarint [] (Z.of_nat (length slice)) ++ (slice ++ rest)) as ->.
  { destruct slice; [done|]. by rewrite <- app_assoc. }
  rewrite read_write_uvarint by ilia. rewrite length_app.
  destruct (Z.ltb_spec (Z.of_nat (length slice + length rest)) (Z.of_nat (length slice))); [lia|].
  rewrite Nat2Z.id. by rewrite take_app_length, drop_app_length.
Qed.

(** ** Sign extension *)

Lemma sign_extend_spec v bits :
  0 < bits < 64 -> 0 <= v < 2 ^ bits ->
  sign_extend v bits = if v <? 2 ^ (bits - 1) then v else v - 2 ^ bits.
Proof.
  intros Hb Hv. unfold sign_extend. rewrite Z.shiftl_1_l.
  assert (2 ^ bits = 2 * 2 ^ (bits - 1)) as Hp
    by (rewrite <- Z.pow_succ_r by lia; f_equal; lia).
  assert (2 ^ (bits - 1) <= 2 ^ 62) by (apply Z.pow_le_mono_r; lia).
  assert (0 < 2 ^ (bits - 1)) by lia.
  rewrite (wrap_i64_id v), (wrap_i64_id (2 ^ (bits - 1))) by ilia.
  set (m := 2 ^ (bits - 1)) in *.
  assert (Z.lxor v m = if v <? m then v + m else v - m) as ->.
  { subst m. rewrite <- (Z.mul_1_l (2 ^ (bits - 1))), <- Z.shiftl_mul_pow2 by lia.
    rewrite !Z.shiftl_1_l. destruct (Z.ltb_spec v (2 ^ (bits - 1))).
    - rewrite <- Z.add_nocarry_lxor; [done|]. apply Z.bits_inj'. intros i Hi.
      rewrite Z.land_spec, Z.bits_0, Z.pow2_bits_eqb by lia.
      destruct (Z.eqb_spec (bits - 1) i); [|apply andb_false_r]. subst i.
      rewrite <- (Z.mod_small v (2 ^ (bits - 1))) by lia.
      by rewrite Z.mod_pow2_bits_high by lia.
    - replace v with (v - 2 ^ (bits - 1) + 2 ^ (bits - 1)) at 1 by lia.
      rewrite Z.add_nocarry_lxor.
      + rewrite Z.lxor_assoc, Z.lxor_nilpotent. apply Z.lxor_0_r.
      + apply Z.bits_inj'. intros i Hi.
        rewrite Z.land_spec, Z.bits_0, Z.pow2_bits_eqb by lia.
        destruct (Z.eqb_spec (bits - 1) i); [|apply andb_false_r]. subst i.
        rewrite <- (Z.mod_small (v - 2 ^ (bits - 1)) (2 ^ (bits - 1))) by lia.
        by rewrite Z.mod_pow2_bits_high by lia. }
  destruct (Z.ltb_spec v m); rewrite wrap_i64_id by ilia; lia.
Qed.

(** ** Properties *)

(** Unsigned varints round-trip: reading what [write_uvarint] appended to
    any buffer returns the [u64] and leaves exactly the bytes that follow. *)
Theorem uvarint_roundtrip (buf : list Z) (v : Z) (rest : list Z) :
  is_u64 v ->
  try_read_uvarint (drop (length buf) (write_uvarint buf v ++ rest)) = Ok (v, rest).
Proof.
  intros Hv. rewrite write_uvarint_app, <- app_assoc, drop_app_length.
  by apply read_write_uvarint.
Qed.

Lemma uvarint_roundtrip_witness :
  is_u64 (2 ^ 64 - 1) /\
  try_read_uvarint (drop 1 (write_uvarint [7] (2 ^ 64 - 1) ++ [9])) = Ok (2 ^ 64 - 1, [9]).
Proof. split; [split; lia|]. apply (uvarint_roundtrip [7]). split; lia. Defined.

(** Signed varints round-trip through zigzag for every [i64], the extremes
    included, whatever follows on the buffer. *)
Theorem signed_varint_roundtrip (v : Z) (rest : list Z) :
  is_i64 v -> try_read_signed_varint (write_signed_varint [] v ++ rest) = Ok (v, rest).
Proof. apply read_write_signed_varint. Qed.

Lemma signed_varint_roundtrip_witness :
  try_read_signed_varint (write_signed_varint [] i64_MIN ++ [1; 2]) = Ok (i64_MIN, [1; 2]).
Proof. apply signed_varint_roundtrip. split; unfold i64_MIN; lia. Defined.
