(* ===== verification/BitStream.v ===== *)
(** * BitStream: the bit writer of the compressed chunks

    Models [src/series/chunks/stream/bitstream.rs].  A stream is its bytes and
    the number [count] of free low bits in the last one.  [bs_rep s bits] says
    that the stream holds exactly [bits], with the free bits of the last byte
    zero; every writer is proved to append its bits to that string. *)

From S2P Require Import Prelude Float64 Encoding.

Inductive IoError := UnexpectedEof | InvalidData.
Abbreviation IoResult := (result IoError).

Record BitStream := mkBitStream {
  stream : list Z;     (* Vec<u8> *)
  count : Z;           (* u8: free low bits of the last byte *)
  soft_cap : Z;        (* usize *)
}.

Definition usize_MAX : Z := 2 ^ 64 - 1.
Definition SOFT_CAP_SLACK : Z := 32.

Definition bs_new : BitStream := mkBitStream [] 0 usize_MAX.
Definition set_soft_cap (s : BitStream) (cap : Z) : BitStream :=
  mkBitStream (stream s) (count s) cap.
Definition bs_reset (s : BitStream) (bytes : list Z) : BitStream :=
  mkBitStream bytes 0 (soft_cap s).
Definition bs_clear (s : BitStream) : BitStream := mkBitStream [] 0 (soft_cap s).
Definition bs_len (s : BitStream) : Z := Z.of_nat (length (stream s)).
Definition bs_position (s : BitStream) : Z := if count s =? 0 then 0 else 8 - count s.

(** The allocation [grow] asks for: [reserve_exact(target - len)]. *)
Definition saturating_usize (z : Z) : Z := Z.min usize_MAX z.

Definition grow_target (cap_budget len cap need : Z) : Z :=
  let floor := len + need in
  let doubled := Z.max (saturating_usize (cap * 2)) 8 in
  let capped := saturating_usize (cap_budget + SOFT_CAP_SLACK) in
  if floor <=? capped then Z.max (Z.min doubled capped) floor
  else Z.max doubled floor.

(** [self.stream[len - 1] |= x] *)
Definition or_last (l : list Z) (x : Z) : list Z :=
  alter (fun b => Z.lor b x) (length l - 1)%nat l.

(** Shifts of a [u8]: the amount is taken modulo 8, as the release build does. *)
Definition shl8 (b n : Z) : Z := wrap_u8 (Z.shiftl b (n mod 8)).
Definition shr8 (b n : Z) : Z := Z.shiftr b (n mod 8).

Definition write_bit_raw (s : BitStream) (bit : bool) : BitStream :=
  let s := if count s =? 0 then mkBitStream (stream s ++ [0]) 8 (soft_cap s) else s in
  let bytes := if bit then or_last (stream s) (shl8 1 (count s - 1)) else stream s in
  mkBitStream bytes (count s - 1) (soft_cap s).

Definition write_byte_raw (s : BitStream) (byte : Z) : BitStream :=
  if count s =? 0 then mkBitStream (stream s ++ [byte]) (count s) (soft_cap s)
  else
    let bytes := or_last (stream s) (shr8 byte (8 - count s)) in
    mkBitStream (bytes ++ [shl8 byte (count s)]) (count s) (soft_cap s).

(** [u64::to_be_bytes] *)
Fixpoint to_be_bytes (n : nat) (v : Z) : list Z :=
  match n with
  | O => []
  | S n' => wrap_u8 (Z.shiftr v (8 * Z.of_nat n')) :: to_be_bytes n' v
  end.

(** The whole-byte part of [write_bits]: the two arms differ in what they
    reserve, not in what they store. *)
Definition write_words (s : BitStream) (nbits : Z) (u : Z) : BitStream :=
  let nbytes := Z.to_nat ((nbits + 7) / 8) in
  let bytes := to_be_bytes 8 u in
  let len := length (stream s) in
  let out :=
    if (Z.of_nat nbytes <? 8) &&
       (saturating_usize (soft_cap s + SOFT_CAP_SLACK) <? saturating_usize (Z.of_nat len + 8))
    then stream s ++ take nbytes bytes
    else take (len + nbytes) (stream s ++ bytes) in
  let rem := nbits mod 8 in
  mkBitStream out (if negb (rem =? 0) then 8 - rem else count s) (soft_cap s).

Definition write_bits (s : BitStream) (bits value : Z) : BitStream :=
  let nbits := Z.min bits 64 in
  if nbits =? 0 then s
  else
    let u := shl64 value (64 - nbits) in
    if 0 <? count s then
      let free := count s in
      let bytes := or_last (stream s) (wrap_u8 (shr64 u (64 - free))) in
      if nbits <? free then mkBitStream bytes (free - nbits) (soft_cap s)
      else
        let s := mkBitStream bytes 0 (soft_cap s) in
        if nbits - free =? 0 then s else write_words s (nbits - free) (shl64 u free)
    else write_words s nbits u.

Definition bs_write_u64 (s : BitStream) (value : Z) : BitStream :=
  foldl write_byte_raw s (to_be_bytes 8 value).

Definition bs_write_f64 (s : BitStream) (v : f64) : BitStream := bs_write_u64 s v.

Fixpoint bs_write_uvarint_loop (fuel : nat) (s : BitStream) (value : Z) : BitStream :=
  match fuel with
  | O => write_byte_raw s (wrap_u8 value)
  | S fuel' =>
      if 0x80 <=? value
      then bs_write_uvarint_loop fuel' (write_byte_raw s (Z.lor (wrap_u8 value) 0x80)) (shr64 value 7)
      else write_byte_raw s (wrap_u8 value)
  end.

Definition bs_write_uvarint (s : BitStream) (value : Z) : BitStream :=
  bs_write_uvarint_loop 9 s value.

Definition bs_write_varint (s : BitStream) (value : Z) : BitStream :=
  let n := wrap_u64 (Z.lxor (wrap_i64 (Z.shiftl value 1)) (Z.shiftr value 63)) in
  bs_write_uvarint s n.

(** ** Persistence *)

Definition bs_serialize (s : BitStream) (dest : list Z) : list Z :=
  let dest := write_uvarint dest (count s) in
  let dest := write_uvarint dest (bs_len s) in
  dest ++ stream s.

Definition bs_deserialize (src : list Z) : IoResult (BitStream * list Z) :=
  let? (count, src) := map_err (fun _ => UnexpectedEof) (try_read_uvarint src) in
  if 8 <? count then Err InvalidData
  else
    let? (len, src) := map_err (fun _ => UnexpectedEof) (try_read_uvarint src) in
    if Z.of_nat (length src) <? len then Err UnexpectedEof
    else if negb (count =? 0) && (len =? 0) then Err InvalidData
    else
      Ok (mkBitStream (take (Z.to_nat len) src) (wrap_u8 count) usize_MAX,
          drop (Z.to_nat len) src).

(** The check [rdb_load] makes on the bytes and bit count it read. *)
Definition validate_rdb_state (bytes : list Z) (count : Z) : option Z :=
  if 8 <? count then None
  else if negb (count =? 0) && (length bytes =? 0)%nat then None
  else Some (wrap_u8 count).

#[global] Arguments write_bits : simpl never.
#[global] Arguments write_bit_raw : simpl never.
#[global] Arguments bs_write_u64 : simpl never.
#[global] Arguments bs_write_uvarint : simpl never.
#[global] Arguments bs_write_varint : simpl never.

(** ** What a stream holds *)

Definition bs_rep (s : BitStream) (bits : list bool) : Prop :=
  Forall is_u8 (stream s) /\ 0 <= count s < 8 /\
  bytes_bits (stream s) = bits ++ repeat false (Z.to_nat (count s)).

(** *** Bit strings of shifted words *)

Lemma length_repeat_false n : length (repeat false n) = n.
Proof. apply repeat_length. Qed.

Lemma take_bits_be n k v :
  (k <= n)%nat -> take k (bits_be n v) = bits_be k (Z.shiftr v (Z.of_nat (n - k))).
Proof.
  intros H. replace n with (k + (n - k))%nat at 1 by lia. rewrite bits_be_app.
  by rewrite take_app_length' by (by rewrite length_bits_be).
Qed.

Lemma drop_bits_be n k v : (k <= n)%nat -> drop k (bits_be n v) = bits_be (n - k) v.
Proof.
  intros H. replace n with (k + (n - k))%nat at 1 by lia. rewrite bits_be_app.
  by rewrite drop_app_length' by (by rewrite length_bits_be).
Qed.

Lemma bits_be_shiftl n k v :
  (k <= n)%nat -> bits_be n (Z.shiftl v (Z.of_nat k)) = bits_be (n - k) v ++ repeat false k.
Proof.
  intros H. replace n with ((n - k) + k)%nat at 1 by lia. rewrite bits_be_app. f_equal.
  - apply bits_be_ext. intros i Hi. rewrite Z.shiftr_spec, Z.shiftl_spec by lia. f_equal. lia.
  - rewrite <- bits_be_0. apply bits_be_ext. intros i Hi.
    by rewrite Z.shiftl_spec_low, Z.bits_0 by lia.
Qed.

(** [value << (64 - n)] puts the [n] low bits of [value] at the top. *)
Lemma bits_be_left_align n v :
  (n <= 64)%nat ->
  bits_be 64 (shl64 v (64 - Z.of_nat n)) = bits_be n v ++ repeat false (64 - n).
Proof.
  intros H. unfold shl64, wrap_u64. rewrite bits_be_mod by lia.
  replace (64 - Z.of_nat n) with (Z.of_nat (64 - n)) by lia.
  rewrite bits_be_shiftl by lia. do 2 f_equal. lia.
Qed.

Lemma bits_be_shl64 k v :
  (k <= 64)%nat ->
  bits_be 64 (shl64 v (Z.of_nat k)) = drop k (bits_be 64 v) ++ repeat false k.
Proof.
  intros H. unfold shl64, wrap_u64. rewrite bits_be_mod, bits_be_shiftl by lia.
  by rewrite drop_bits_be by lia.
Qed.

Lemma bits_be_to_be_bytes n v : bytes_bits (to_be_bytes n v) = bits_be (8 * n) v.
Proof.
  induction n as [|n IH]; [done|]. cbn [to_be_bytes].
  change (bytes_bits (?x :: ?l)) with (bits_be 8 x ++ bytes_bits l).
  rewrite IH. replace (8 * S n)%nat with (8 + 8 * n)%nat by lia. rewrite (bits_be_app 8).
  f_equal. unfold wrap_u8. rewrite bits_be_mod by lia. f_equal. f_equal. lia.
Qed.

Lemma to_be_bytes_u8 n v : Forall is_u8 (to_be_bytes n v).
Proof. induction n; cbn; constructor; auto with tsdb. Qed.

Lemma length_to_be_bytes n v : length (to_be_bytes n v) = n.
Proof. induction n; cbn; congruence. Qed.

Lemma take_bytes_bits n l : take (8 * n) (bytes_bits l) = bytes_bits (take n l).
Proof.
  revert l. induction n as [|n IH]; intros [|b l]; try done.
  change (bytes_bits (b :: l)) with (bits_be 8 b ++ bytes_bits l).
  replace (8 * S n)%nat with (8 + 8 * n)%nat by lia.
  rewrite take_app_ge by (rewrite length_bits_be; lia). rewrite length_bits_be.
  replace (8 + 8 * n - 8)%nat with (8 * n)%nat by lia. by rewrite IH.
Qed.

Lemma take_repeat {A} (x : A) n k : take k (repeat x n) = repeat x (k `min` n).
Proof.
  revert k. induction n as [|n IH]; intros [|k]; cbn; [done..|]. by rewrite IH.
Qed.

(** Or-ing [x] into the free low bits of a byte. *)
Lemma bits_be_lor_low a k b x :
  0 <= x < 2 ^ Z.of_nat k ->
  bits_be k b = repeat false k ->
  bits_be (a + k) (Z.lor b x) = bits_be a (Z.shiftr b (Z.of_nat k)) ++ bits_be k x.
Proof.
  intros Hx Hb. rewrite bits_be_app. f_equal.
  - rewrite Z.shiftr_lor. rewrite (Z.shiftr_div_pow2 x), Z.div_small by lia.
    by rewrite Z.lor_0_r.
  - apply bits_be_ext. intros i Hi. rewrite Z.lor_spec.
    assert (Z.testbit b i = false) as ->; [|done].
    rewrite <- bits_be_0 in Hb. apply (f_equal bits_val) in Hb.
    rewrite !bits_val_bits_be, Z.mod_0_l in Hb by lia.
    rewrite <- (Z.mod_pow2_bits_low _ (Z.of_nat k)), Hb by lia. apply Z.bits_0.
Qed.

Lemma lor_u8 a b : is_u8 a -> is_u8 b -> is_u8 (Z.lor a b).
Proof. by apply lor_range. Qed.

Lemma or_last_snoc l b x : or_last (l ++ [b]) x = l ++ [Z.lor b x].
Proof.
  unfold or_last. rewrite length_app. cbn [length].
  replace (length l + 1 - 1)%nat with (length l + 0)%nat by lia.
  by rewrite alter_app_r.
Qed.

(** *** The partial trailing byte *)

Lemma or_last_bits l c bits x :
  Forall is_u8 l -> (0 < c <= 8)%nat -> bytes_bits l = bits ++ repeat false c ->
  0 <= x < 2 ^ Z.of_nat c ->
  Forall is_u8 (or_last l x) /\ bytes_bits (or_last l x) = bits ++ bits_be c x.
Proof.
  intros Hu8 Hc Hb Hx. destruct l as [|b init _] using rev_ind.
  { apply (f_equal length) in Hb. rewrite length_app, length_repeat_false in Hb.
    cbn in Hb. lia. }
  rewrite or_last_snoc. apply Forall_app in Hu8 as [Hi Hl].
  inversion Hl as [|? ? Hb8 _]; subst.
  assert (is_u8 x).
  { unfold is_u8. assert (2 ^ Z.of_nat c <= 2 ^ 8) by (apply Z.pow_le_mono_r; lia). lia. }
  split. { apply Forall_app. split; [done|]. fora. by apply lor_u8. }
  rewrite bytes_bits_app in Hb |- *.
  change (bytes_bits [?y]) with (bits_be 8 y ++ []) in *. rewrite app_nil_r in Hb |- *.
  replace 8%nat with ((8 - c) + c)%nat in Hb |- * by lia. rewrite bits_be_app, app_assoc in Hb.
  apply app_inj_2 in Hb as [Hbits Hz]; [|by rewrite length_bits_be, length_repeat_false].
  rewrite bits_be_lor_low by done. by rewrite app_assoc, Hbits.
Qed.

Lemma bs_rep_or s bits x :
  bs_rep s bits -> 0 < count s -> 0 <= x < 2 ^ count s ->
  Forall is_u8 (or_last (stream s) x) /\
  bytes_bits (or_last (stream s) x) = bits ++ bits_be (Z.to_nat (count s)) x.
Proof.
  intros (Hu8 & Hc & Hb) Hc0 Hx. apply or_last_bits; [done|lia|done|].
  by rewrite Z2Nat.id by lia.
Qed.

Lemma shr64_top u free :
  is_u64 u -> 0 <= free <= 64 -> 0 <= shr64 u (64 - free) < 2 ^ free.
Proof.
  intros Hu Hf. unfold shr64. rewrite Z.shiftr_div_pow2 by lia. unfold is_u64 in Hu.
  split; [apply Z.div_pos; lia|]. apply Z.div_lt_upper_bound; [lia|].
  rewrite <- Z.pow_add_r by lia. replace (64 - free + free) with 64 by lia. lia.
Qed.

Lemma write_words_rep s bits n u w :
  bs_rep s bits -> count s = 0 -> (0 < n <= 64)%nat -> length w = n ->
  bits_be 64 u = w ++ repeat false (64 - n) ->
  bs_rep (write_words s (Z.of_nat n) u) (bits ++ w).
Proof.
  intros (Hu8 & Hc & Hb) Hc0 Hn Hw Hu. rewrite Hc0 in Hb. cbn in Hb. rewrite app_nil_r in Hb.
  set (nb := Z.to_nat ((Z.of_nat n + 7) / 8)).
  assert (Z.of_nat nb * 8 = Z.of_nat n + 7 - (Z.of_nat n + 7) mod 8) as Hnb.
  { pose proof (Z.div_mod (Z.of_nat n + 7) 8). pose proof (Z.div_pos (Z.of_nat n + 7) 8). lia. }
  assert (0 <= (Z.of_nat n + 7) mod 8 < 8) as Hr by (apply Z.mod_pos_bound; lia).
  assert (stream (write_words s (Z.of_nat n) u) = stream s ++ take nb (to_be_bytes 8 u)) as Hst.
  { unfold write_words. cbn [stream]. fold nb. case_match; [done|].
    rewrite take_app_ge by lia. do 2 f_equal. lia. }
  assert (count (write_words s (Z.of_nat n) u) = Z.of_nat (8 * nb) - Z.of_nat n) as Hct.
  { unfold write_words. cbn [count]. rewrite Hc0.
    pose proof (Z.div_mod (Z.of_nat n) 8). pose proof (Z.mod_pos_bound (Z.of_nat n) 8).
    destruct (Z.eqb_spec (Z.of_nat n mod 8) 0); cbn [negb]; lia. }
  unfold bs_rep. rewrite Hst, Hct. split_and!; [|lia|lia|].
  - apply Forall_app. split; [done|]. apply Forall_take, to_be_bytes_u8.
  - rewrite bytes_bits_app, <- take_bytes_bits, bits_be_to_be_bytes, Hb, <- app_assoc.
    f_equal. change (8 * 8)%nat with 64%nat. rewrite Hu, take_app_ge by lia. f_equal.
    rewrite take_repeat, Hw. f_equal. lia.
Qed.

(** [write_bits] appends the [n] low bits of the value, most significant first. *)
Lemma write_bits_rep s bits n v :
  bs_rep s bits -> (n <= 64)%nat ->
  bs_rep (write_bits s (Z.of_nat n) v) (bits ++ bits_be n v).
Proof.
  intros Hrep Hn. unfold write_bits. rewrite Z.min_l by lia.
  destruct (Z.eqb_spec (Z.of_nat n) 0) as [E|E].
  { replace n with 0%nat by lia. cbn. by rewrite app_nil_r. }
  pose proof (bits_be_left_align n v Hn) as Hu. set (u := shl64 v (64 - Z.of_nat n)) in *.
  assert (is_u64 u) as Hu64 by apply wrap_u64_range.
  destruct (Z.ltb_spec 0 (count s)) as [Hc|Hc].
  2: { destruct Hrep as (H1 & H2 & H3). apply write_words_rep; [done|lia|lia| |done].
       apply length_bits_be. }
  pose proof Hrep as (Hu8 & Hc8 & Hb). set (c := Z.to_nat (count s)) in *.
  pose proof (shr64_top u (count s) Hu64 ltac:(lia)) as Ht.
  rewrite wrap_u8_id.
  2: { assert (2 ^ count s <= 2 ^ 8) by (apply Z.pow_le_mono_r; lia). ilia. }
  destruct (bs_rep_or s bits _ Hrep Hc Ht) as [Ho1 Ho2]. fold c in Ho2.
  assert (bits_be c (shr64 u (64 - count s)) = take c (bits_be n v ++ repeat false (64 - n))) as Htop.
  { rewrite <- Hu, take_bits_be by lia. unfold shr64. do 2 f_equal. lia. }
  rewrite Htop in Ho2.
  destruct (Z.ltb_spec (Z.of_nat n) (count s)).
  - unfold bs_rep. cbn [stream count]. split_and!; [done|lia|lia|].
    rewrite Ho2, <- app_assoc. f_equal. rewrite take_app_ge by (rewrite length_bits_be; lia).
    rewrite length_bits_be, take_repeat. do 2 f_equal. lia.
  - rewrite take_app_le in Ho2 by (rewrite length_bits_be; lia).
    assert (bs_rep (mkBitStream (or_last (stream s) (shr64 u (64 - count s))) 0 (soft_cap s))
              (bits ++ take c (bits_be n v))) as Hrep'.
    { unfold bs_rep. cbn [stream count]. split_and!; [done|lia|lia|].
      cbn. by rewrite app_nil_r. }
    destruct (Z.eqb_spec (Z.of_nat n - count s) 0).
    + rewrite take_ge in Hrep' by (rewrite length_bits_be; lia). done.
    + rewrite <- (take_drop c (bits_be n v)), app_assoc.
      replace (Z.of_nat n - count s) with (Z.of_nat (n - c)) by lia.
      apply write_words_rep; [done|done|lia|by rewrite length_drop, length_bits_be|].
      replace (count s) with (Z.of_nat c) by lia. rewrite bits_be_shl64, Hu by lia.
      rewrite drop_app_le by (rewrite length_bits_be; lia). rewrite <- app_assoc. f_equal.
      rewrite <- repeat_app. f_equal. lia.
Qed.

Lemma write_bit_rep s bits b : bs_rep s bits -> bs_rep (write_bit_raw s b) (bits ++ [b]).
Proof.
  intros Hrep. unfold write_bit_raw.
  set (s' := if count s =? 0 then mkBitStream (stream s ++ [0]) 8 (soft_cap s) else s).
  assert (Forall is_u8 (stream s') /\ 0 < count s' <= 8 /\
          bytes_bits (stream s') = bits ++ repeat false (Z.to_nat (count s')))
    as (Hu & Hc & Hb).
  { destruct Hrep as (Hu & Hc & Hb). subst s'. destruct (Z.eqb_spec (count s) 0) as [E|E].
    - cbn [stream count]. split_and!; [|lia|lia|].
      + apply Forall_app. split; [done|]. fora.
      + rewrite E in Hb. rewrite bytes_bits_app, Hb. cbn. by rewrite app_nil_r.
    - split_and!; [done|lia|lia|done]. }
  clearbody s'. clear Hrep s.
  assert (Z.to_nat (count s') = S (Z.to_nat (count s' - 1))) as Hs by lia.
  unfold bs_rep. cbn [stream count]. destruct b.
  - assert (shl8 1 (count s' - 1) = 2 ^ (count s' - 1)) as ->.
    { unfold shl8. rewrite Z.mod_small, Z.shiftl_1_l by lia. apply wrap_u8_id.
      assert (2 ^ (count s' - 1) <= 2 ^ 7) by (apply Z.pow_le_mono_r; lia). ilia. }
    destruct (or_last_bits (stream s') (Z.to_nat (count s')) bits (2 ^ (count s' - 1)))
      as [H1 H2]; [done|lia|done| |].
    { split; [lia|]. apply Z.pow_lt_mono_r; lia. }
    split_and!; [done|lia|lia|]. rewrite H2, Hs, <- app_assoc. f_equal.
    cbn [bits_be app]. f_equal.
    + rewrite Z2Nat.id, Z.pow2_bits_true by lia. done.
    + rewrite <- bits_be_0. apply bits_be_ext. intros i Hi.
      rewrite Z.pow2_bits_false, Z.bits_0 by lia. done.
  - split_and!; [done|lia|lia|]. rewrite Hb, Hs, <- app_assoc. done.
Qed.

Lemma write_byte_rep s bits b :
  bs_rep s bits -> is_u8 b -> bs_rep (write_byte_raw s b) (bits ++ bits_be 8 b).
Proof.
  intros Hrep Hb8. pose proof Hrep as (Hu & Hc & Hb). unfold write_byte_raw.
  destruct (Z.eqb_spec (count s) 0) as [E|E].
  { unfold bs_rep. cbn [stream count]. split_and!; [|lia|lia|].
    - apply Forall_app. split; [done|]. by fora.
    - rewrite E in *. cbn in Hb. rewrite app_nil_r in Hb.
      rewrite bytes_bits_app, Hb. cbn. by rewrite !app_nil_r. }
  unfold shl8, shr8. rewrite !Z.mod_small by lia.
  set (c := Z.to_nat (count s)) in *. assert (Z.of_nat c = count s) as Hzc by lia.
  assert (0 <= Z.shiftr b (8 - count s) < 2 ^ count s) as Hx.
  { rewrite Z.shiftr_div_pow2 by lia. unfold is_u8 in Hb8. split; [apply Z.div_pos; lia|].
    apply Z.div_lt_upper_bound; [lia|]. rewrite <- Z.pow_add_r by lia.
    replace (8 - count s + count s) with 8 by lia. lia. }
  destruct (bs_rep_or s bits _ Hrep ltac:(lia) Hx) as [H1 H2]. fold c in H2.
  unfold bs_rep. cbn [stream count]. split_and!; [|lia|lia|].
  - apply Forall_app. split; [done|]. fora. apply wrap_u8_range.
  - rewrite bytes_bits_app, H2. cbn [bytes_bits mbind list_bind].
    change (bytes_bits [?y]) with (bits_be 8 y ++ []). rewrite app_nil_r, <- !app_assoc.
    f_equal. unfold wrap_u8. rewrite bits_be_mod by lia.
    rewrite <- Hzc, bits_be_shiftl by lia. rewrite app_assoc, Nat2Z.id. f_equal.
    replace (8 - Z.of_nat c) with (Z.of_nat (8 - c)) by lia. rewrite <- bits_be_app.
    f_equal. lia.
Qed.

Lemma foldl_write_byte_rep s bits l :
  bs_rep s bits -> Forall is_u8 l -> bs_rep (foldl write_byte_raw s l) (bits ++ bytes_bits l).
Proof.
  intros Hrep Hl. revert s bits Hrep. induction Hl as [|b l Hb Hl IH]; intros s bits Hrep.
  { cbn. by rewrite app_nil_r. }
  cbn [foldl]. change (bytes_bits (b :: l)) with (bits_be 8 b ++ bytes_bits l).
  rewrite app_assoc. apply IH. by apply write_byte_rep.
Qed.

Lemma bs_write_u64_rep s bits v :
  bs_rep s bits -> bs_rep (bs_write_u64 s v) (bits ++ bits_be 64 v).
Proof.
  intros Hrep. unfold bs_write_u64. change 64%nat with (8 * 8)%nat.
  rewrite <- bits_be_to_be_bytes. apply foldl_write_byte_rep; [done|apply to_be_bytes_u8].
Qed.

(** The stream's varint is the buffer's varint, byte for byte. *)
Lemma bs_write_uvarint_loop_eq fuel s v :
  bs_write_uvarint_loop fuel s v = foldl write_byte_raw s (write_uvarint_loop fuel [] v).
Proof.
  revert s v. induction fuel as [|fuel IH]; intros s v; cbn [bs_write_uvarint_loop write_uvarint_loop];
    [done|].
  destruct (0x80 <=? v); [|done]. rewrite write_uvarint_loop_app, IH. done.
Qed.

Lemma bs_write_uvarint_rep s bits v :
  bs_rep s bits -> bs_rep (bs_write_uvarint s v) (bits ++ bytes_bits (write_uvarint [] v)).
Proof.
  intros Hrep. unfold bs_write_uvarint. rewrite bs_write_uvarint_loop_eq.
  apply foldl_write_byte_rep; [done|apply write_uvarint_bytes].
Qed.

Lemma bs_write_varint_rep s bits v :
  bs_rep s bits -> bs_rep (bs_write_varint s v) (bits ++ bytes_bits (write_signed_varint [] v)).
Proof. apply bs_write_uvarint_rep. Qed.

(** The stream has no more bytes than its bits need. *)
Lemma bs_rep_bytes s bits n :
  bs_rep s bits -> (length bits <= 8 * n)%nat -> (length (stream s) <= n)%nat.
Proof.
  intros (_ & Hc & E) Hn. apply (f_equal length) in E.
  rewrite length_bytes_bits, length_app, repeat_length in E. lia.
Qed.

Lemma bs_new_rep : bs_rep bs_new [].
Proof. by split_and!. Qed.

#[export] Hint Resolve write_bits_rep write_bit_rep write_byte_rep bs_write_u64_rep
  bs_write_uvarint_rep bs_write_varint_rep bs_new_rep : tsdb.

(** ** Persistence and growth *)

Lemma bs_serialize_app s dest : bs_serialize s dest = dest ++ bs_serialize s [].
Proof.
  unfold bs_serialize. rewrite (write_uvarint_app (write_uvarint dest _)), (write_uvarint_app dest).
  rewrite (write_uvarint_app (write_uvarint [] _)). by rewrite !app_assoc.
Qed.

Lemma bs_roundtrip s bits rest :
  bs_rep s bits -> bs_len s < 2 ^ 64 ->
  bs_deserialize (bs_serialize s [] ++ rest) =
    Ok (mkBitStream (stream s) (count s) usize_MAX, rest).
Proof.
  intros (Hu & Hc & Hb) Hl. unfold bs_deserialize, bs_serialize.
  rewrite (write_uvarint_app (write_uvarint [] _)), <- !app_assoc.
  rewrite read_write_uvarint by ilia. cbn [map_err].
  destruct (Z.ltb_spec 8 (count s)); [lia|].
  rewrite read_write_uvarint by (unfold bs_len in *; ilia). cbn [map_err].
  unfold bs_len. rewrite length_app.
  destruct (Z.ltb_spec (Z.of_nat (length (stream s) + length rest)) (Z.of_nat (length (stream s))));
    [lia|].
  assert (negb (count s =? 0) && (Z.of_nat (length (stream s)) =? 0) = false) as ->.
  { apply (f_equal length) in Hb. rewrite length_app, length_repeat_false, length_bytes_bits in Hb.
    lia. }
  rewrite Nat2Z.id, take_app_length, drop_app_length, wrap_u8_id by ilia. done.
Qed.

(** Growth always makes room, and stays within the budget plus slack for as
    long as the data needs no more than that. *)
Lemma grow_target_enough budget len cap need :
  0 <= len -> 0 <= need -> len + need <= grow_target budget len cap need.
Proof. unfold grow_target. intros. case_match; lia. Qed.

Lemma grow_target_capped budget len cap need :
  0 <= budget -> len + need <= saturating_usize (budget + SOFT_CAP_SLACK) ->
  grow_target budget len cap need <= saturating_usize (budget + SOFT_CAP_SLACK).
Proof.
  unfold grow_target. intros Hb H.
  destruct (Z.leb_spec (len + need) (saturating_usize (budget + SOFT_CAP_SLACK))); lia.
Qed.

(** ** Properties *)

(** The word-level [write_bits] refines bit-by-bit writing: wherever the
    stream stands in its last byte, writing [n] bits of a value appends exactly
    its [n] low bits, most significant first, and keeps the padding zero. *)
Theorem write_bits_appends (s : BitStream) (bits : list bool) (n : nat) (v : Z) :
  bs_rep s bits -> (n <= 64)%nat ->
  bs_rep (write_bits s (Z.of_nat n) v) (bits ++ bits_be n v) /\
  bs_rep (foldl write_bit_raw s (bits_be n v)) (bits ++ bits_be n v).
Proof.
  intros Hrep Hn. split; [by apply write_bits_rep|].
  generalize (bits_be n v). intros l. revert s bits Hrep.
  induction l as [|b l IH]; intros s bits Hrep; cbn [foldl]; [by rewrite app_nil_r|].
  rewrite (app_assoc bits [b] l : bits ++ b :: l = _). by apply IH, write_bit_rep.
Qed.

Lemma write_bits_appends_witness :
  bs_rep (write_bits (write_bits bs_new 3 5) 13 0x1234) ([true; false; true] ++ bits_be 13 0x1234).
Proof.
  apply (write_bits_appends (write_bits bs_new 3 5) [true; false; true] 13 0x1234); [|lia].
  apply (write_bits_rep bs_new [] 3 5); [apply bs_new_rep|lia].
Defined.

(** Persistence of a bit stream round-trips: bytes and bit count come back,
    and the rest of the buffer is left for the caller. *)
Theorem bitstream_roundtrip (s : BitStream) (bits : list bool) (rest : list Z) :
  bs_rep s bits -> bs_len s < 2 ^ 64 ->
  bs_deserialize (bs_serialize s [] ++ rest) =
    Ok (mkBitStream (stream s) (count s) usize_MAX, rest).
Proof. apply bs_roundtrip. Qed.

Lemma bitstream_roundtrip_witness :
  bs_deserialize (bs_serialize (write_bits bs_new 11 0x555) [] ++ [42]) =
    Ok (mkBitStream (stream (write_bits bs_new 11 0x555)) 5 usize_MAX, [42]).
Proof.
  apply (bitstream_roundtrip (write_bits bs_new 11 0x555) (bits_be 11 0x555)).
  - apply (write_bits_rep bs_new [] 11 0x555); [apply bs_new_rep|lia].
  - vm_compute. reflexivity.
Defined.

(** A stream loaded with a bit count of 8, which deserialization accepts
    and no writer produces, does not append a byte: the byte is or-ed whole
    into the last one and a copy of it follows. *)
Theorem count_8_accepted_and_corrupts :
  exists s, bs_deserialize [8; 1; 0xF0] = Ok (s, []) /\
    stream (write_byte_raw s 0x0F) = [0xFF; 0x0F].
Proof. eexists. split; [vm_compute; reflexivity|]. vm_compute. reflexivity. Qed.
