(* ===== verification/BitReader.v ===== *)
(** * BitReader: the windowed bit reader

    Models [src/series/chunks/stream/bitstream_reader.rs] and the wrappers of
    [stream/utils.rs].  The reader keeps up to 64 unread bits in the low [valid]
    bits of [buffer].  [rd_rep r bits] says that [bits] are what is left to
    read; every operation is proved to consume a prefix of them, whatever the
    position of the window, and to fail exactly when too few are left. *)

From S2P Require Import Prelude Float64 Encoding BitStream.

Record BitReader := mkBitReader {
  rd_stream : list Z;
  rd_offset : nat;
  rd_buffer : Z;     (* u64 *)
  rd_valid : Z;      (* u8 *)
  rd_last : Z;       (* u8: the final byte, copied at construction *)
}.

Definition rd_new (b : list Z) : BitReader :=
  mkBitReader b 0 0 0 (match list.last b with Some x => x | None => 0 end).

(** [u64::from_be_bytes] *)
Definition from_be_bytes (l : list Z) : Z :=
  foldl (fun acc b => Z.lor (Z.shiftl acc 8) b) 0 l.

(** The window with [bits] more bits taken from the top of [w]. *)
Definition window_push (buffer bits w : Z) : Z :=
  if bits =? 64 then w else Z.lor (shl64 buffer bits) (shr64 w (64 - bits)).

Definition refill_tail (r : BitReader) (want avail : nat) : BitReader :=
  if (avail =? 0)%nat then r
  else
    let take_ := (want `min` avail)%nat in
    let off := rd_offset r in
    let word :=
      if (8 <=? avail)%nat then take 8 (drop off (rd_stream r))
      else drop off (rd_stream r) ++ repeat 0 (8 - avail) in
    let word := if (take_ =? avail)%nat then <[(take_ - 1)%nat := rd_last r]> word else word in
    let w := from_be_bytes word in
    let bits := Z.of_nat take_ * 8 in
    mkBitReader (rd_stream r) (off + take_) (window_push (rd_buffer r) bits w)
      (rd_valid r + bits) (rd_last r).

Definition refill (r : BitReader) : BitReader :=
  let want := Z.to_nat ((64 - rd_valid r) / 8) in
  if (want =? 0)%nat then r
  else
    let avail := (length (rd_stream r) - rd_offset r)%nat in
    if (8 <? avail)%nat then
      let w := from_be_bytes (take 8 (drop (rd_offset r) (rd_stream r))) in
      let bits := Z.of_nat want * 8 in
      mkBitReader (rd_stream r) (rd_offset r + want) (window_push (rd_buffer r) bits w)
        (rd_valid r + bits) (rd_last r)
    else refill_tail r want avail.

Definition with_valid (r : BitReader) (v : Z) : BitReader :=
  mkBitReader (rd_stream r) (rd_offset r) (rd_buffer r) v (rd_last r).

Definition read_bit (r : BitReader) : IoResult (bool * BitReader) :=
  let r := if rd_valid r =? 0 then refill r else r in
  if rd_valid r =? 0 then Err UnexpectedEof
  else
    let r := with_valid r (rd_valid r - 1) in
    Ok (negb (Z.land (shr64 (rd_buffer r) (rd_valid r)) 1 =? 0), r).

(** The last lines of [read_bits]: the window holds at least [nbits] bits. *)
Definition read_window (r : BitReader) (nbits : Z) : Z * BitReader :=
  let r := with_valid r (rd_valid r - nbits) in
  let v := shr64 (rd_buffer r) (rd_valid r) in
  (if 64 <=? nbits then v else Z.land v (shl64 1 nbits - 1), r).

(** [read_bits] and [read_bits_straddling] call each other; the inner calls
    always find their bits in the window, so one level of fuel is enough. *)
Fixpoint read_bits_fuel (fuel : nat) (r : BitReader) (nbits : Z) : IoResult (Z * BitReader) :=
  if rd_valid r <? nbits then
    if 64 <? nbits then Err InvalidData
    else
      let r := refill r in
      if rd_valid r <? nbits then
        let first := rd_valid r in
        if (first =? 0) || (length (rd_stream r) <=? rd_offset r)%nat then Err UnexpectedEof
        else
          match fuel with
          | O => Err InvalidData
          | S fuel' =>
              let? (hi, r) := read_bits_fuel fuel' r first in
              let rest := nbits - first in
              let r := refill r in
              if rd_valid r <? rest then Err UnexpectedEof
              else
                let? (lo, r) := read_bits_fuel fuel' r rest in
                Ok (Z.lor (shl64 hi rest) lo, r)
          end
      else Ok (read_window r nbits)
  else Ok (read_window r nbits).

Definition read_bits (r : BitReader) (nbits : Z) : IoResult (Z * BitReader) :=
  read_bits_fuel 1 r nbits.

Definition peek_upto (r : BitReader) (nbits : Z) : Z * BitReader :=
  let r := if rd_valid r <? nbits then refill r else r in
  if rd_valid r <? nbits then
    (shl64 (Z.land (rd_buffer r) (shl64 1 (rd_valid r) - 1)) (nbits - rd_valid r), r)
  else
    (Z.land (shr64 (rd_buffer r) (rd_valid r - nbits)) (shl64 1 nbits - 1), r).

Definition skip (r : BitReader) (nbits : Z) : IoResult BitReader :=
  if rd_valid r <? nbits then Err UnexpectedEof
  else Ok (with_valid r (rd_valid r - nbits)).

Definition read_byte (r : BitReader) : IoResult (Z * BitReader) :=
  let? (v, r) := read_bits r 8 in Ok (wrap_u8 v, r).

Definition read_u64 (r : BitReader) : IoResult (Z * BitReader) := read_bits r 64.
Definition read_f64 (r : BitReader) : IoResult (f64 * BitReader) := read_u64 r.

Fixpoint rd_uvarint_loop (n : nat) (r : BitReader) (x s : Z) : IoResult (Z * BitReader) :=
  match n with
  | O => Err InvalidData
  | S n' =>
      let? (byte, r) := read_byte r in
      if byte <? 0x80 then Ok (Z.lor x (shl64 byte s), r)
      else rd_uvarint_loop n' r (Z.lor x (shl64 (Z.land byte 0x7f) s)) (s + 7)
  end.

Definition MAX_VARINT_LEN64 : nat := 10.

Definition read_uvarint (r : BitReader) : IoResult (Z * BitReader) :=
  rd_uvarint_loop MAX_VARINT_LEN64 r 0 0.

(** [!x] on [i64] is [-x - 1]. *)
Definition read_varint (r : BitReader) : IoResult (Z * BitReader) :=
  let? (ux, r) := read_uvarint r in
  let x := wrap_i64 (shr64 ux 1) in
  Ok (if negb (Z.land ux 1 =? 0) then Z.lnot x else x, r).

(** ** What is left to read *)

Definition rd_rep (r : BitReader) (bits : list bool) : Prop :=
  Forall is_u8 (rd_stream r) /\ is_u64 (rd_buffer r) /\ 0 <= rd_valid r <= 64 /\
  (rd_offset r <= length (rd_stream r))%nat /\
  default 0 (list.last (rd_stream r)) = rd_last r /\
  bits = bits_be (Z.to_nat (rd_valid r)) (rd_buffer r) ++
         bytes_bits (drop (rd_offset r) (rd_stream r)).

Lemma rd_new_rep l : Forall is_u8 l -> rd_rep (rd_new l) (bytes_bits l).
Proof. intros Hl. unfold rd_rep, rd_new; cbn. split_and!; try done; lia. Qed.

(** The reader opened on what a writer left sees its bits and the padding. *)
Lemma rd_new_bs_rep s bits :
  bs_rep s bits -> rd_rep (rd_new (stream s)) (bits ++ repeat false (Z.to_nat (count s))).
Proof. intros (Hu & _ & Hb). rewrite <- Hb. by apply rd_new_rep. Qed.

Lemma from_be_bytes_val l : Forall is_u8 l -> from_be_bytes l = bits_val (bytes_bits l).
Proof.
  unfold from_be_bytes. induction l as [|b l IH] using rev_ind; intros H; [done|].
  apply Forall_app in H as [Hl Hb]. inversion Hb as [|? ? Hb8 _]; subst.
  rewrite foldl_app, bytes_bits_app, bits_val_app, IH by done. cbn [foldl].
  change (bytes_bits [b]) with (bits_be 8 b ++ []). rewrite app_nil_r, length_bits_be, bits_val_bits_be.
  pose proof (bits_val_nonneg (bytes_bits l)).
  rewrite Z.lor_comm, lor_shiftl_add by ilia. rewrite Z.mod_small by ilia. ilia.
Qed.

Lemma from_be_bytes_u64 l : Forall is_u8 l -> length l = 8%nat -> is_u64 (from_be_bytes l).
Proof.
  intros Hl H8. rewrite from_be_bytes_val by done. split; [apply bits_val_nonneg|].
  pose proof (bits_val_bound (bytes_bits l)) as H. by rewrite length_bytes_bits, H8 in H.
Qed.

Lemma bits_from_be_bytes l :
  Forall is_u8 l -> length l = 8%nat -> bits_be 64 (from_be_bytes l) = bytes_bits l.
Proof.
  intros Hl H8. rewrite from_be_bytes_val by done.
  rewrite <- (bits_be_bits_val (bytes_bits l)) at 2. by rewrite length_bytes_bits, H8.
Qed.

Lemma window_push_u64 b k w : is_u64 w -> 0 < k <= 64 -> is_u64 (window_push b k w).
Proof.
  intros Hw Hk. unfold window_push. destruct (k =? 64); [done|].
  apply lor_range; [done|apply wrap_u64_range|].
  pose proof (shr64_top w k Hw ltac:(lia)).
  assert (2 ^ k <= 2 ^ 64) by (apply Z.pow_le_mono_r; lia). lia.
Qed.

(** Pushing [k] bits of a word keeps the window's bits in front of them. *)
Lemma window_push_bits v k b w :
  is_u64 w -> (0 < k)%nat -> (v + k <= 64)%nat ->
  bits_be (v + k) (window_push b (Z.of_nat k) w) = bits_be v b ++ take k (bits_be 64 w).
Proof.
  intros Hw Hk Hvk. unfold window_push. destruct (Z.eqb_spec (Z.of_nat k) 64).
  { replace v with 0%nat by lia. replace k with 64%nat by lia. done. }
  pose proof (shr64_top w (Z.of_nat k) Hw ltac:(lia)) as Ht.
  rewrite Z.lor_comm. unfold shl64, wrap_u64, shr64 in *.
  rewrite bits_be_app, take_bits_be by lia. f_equal.
  - apply bits_be_ext. intros i Hi. rewrite Z.shiftr_spec, Z.lor_spec by lia.
    rewrite Z.mod_pow2_bits_low, Z.shiftl_spec by lia.
    rewrite <- (Z.mod_small (Z.shiftr w _) (2 ^ Z.of_nat k)), Z.mod_pow2_bits_high by lia.
    cbn [orb]. f_equal. lia.
  - apply bits_be_ext. intros i Hi. rewrite Z.lor_spec, Z.mod_pow2_bits_low by lia.
    rewrite (Z.shiftl_spec_low b) by lia. rewrite orb_false_r. do 2 f_equal. lia.
Qed.

Lemma drop_bytes_bits n l : drop (8 * n) (bytes_bits l) = bytes_bits (drop n l).
Proof.
  rewrite <- (take_drop n l) at 1. rewrite bytes_bits_app, <- take_bytes_bits.
  destruct (Nat.le_gt_cases n (length l)).
  - apply drop_app_length'. rewrite length_take, length_bytes_bits. lia.
  - rewrite (drop_ge l) by lia. cbn. rewrite app_nil_r. apply drop_ge.
    rewrite length_take, length_bytes_bits. lia.
Qed.

(** Loading [k] bytes of a word that agrees with the stream on them. *)
Lemma rd_push_rep r bits k word :
  rd_rep r bits -> (0 < k)%nat -> Z.of_nat k * 8 <= 64 - rd_valid r ->
  (rd_offset r + k <= length (rd_stream r))%nat ->
  Forall is_u8 word -> length word = 8%nat ->
  take k word = take k (drop (rd_offset r) (rd_stream r)) ->
  rd_rep (mkBitReader (rd_stream r) (rd_offset r + k)
            (window_push (rd_buffer r) (Z.of_nat k * 8) (from_be_bytes word))
            (rd_valid r + Z.of_nat k * 8) (rd_last r)) bits.
Proof.
  intros (Hu & Hb & Hv & Ho & Hl & ->) Hk Hkv Hok Hw8 Hw Htk.
  pose proof (from_be_bytes_u64 _ Hw8 Hw) as Hw64.
  unfold rd_rep; cbn [rd_stream rd_offset rd_buffer rd_valid rd_last].
  split_and!; [done|by apply window_push_u64; [|lia]..|lia|lia|lia|done|].
  replace (Z.to_nat (rd_valid r + Z.of_nat k * 8)) with (Z.to_nat (rd_valid r) + 8 * k)%nat by lia.
  replace (Z.of_nat k * 8) with (Z.of_nat (8 * k)) by lia.
  rewrite window_push_bits, bits_from_be_bytes, take_bytes_bits, Htk by (done || lia).
  rewrite <- app_assoc, <- bytes_bits_app, <- drop_drop, take_drop. done.
Qed.

(** The word of the out-of-line case is the stream's, final byte included. *)
Lemma tail_word_ok (l : list Z) (off want : nat) last :
  let avail := (length l - off)%nat in
  let take_ := (want `min` avail)%nat in
  let word := if (8 <=? avail)%nat then take 8 (drop off l)
              else drop off l ++ repeat 0 (8 - avail) in
  (0 < take_ <= 8)%nat -> (avail <= 8)%nat -> default 0 (list.last l) = last ->
  (if (take_ =? avail)%nat then <[(take_ - 1)%nat := last]> word else word) =
    drop off l ++ repeat 0 (8 - avail).
Proof.
  intros avail take_ word Ht Ha Hl.
  assert (word = drop off l ++ repeat 0 (8 - avail)) as ->.
  { subst word. destruct (Nat.leb_spec 8 avail); [|done].
    rewrite take_ge by (rewrite length_drop; lia).
    replace (8 - avail)%nat with 0%nat by lia. by rewrite app_nil_r. }
  destruct (Nat.eqb_spec take_ avail) as [E|]; [|done]. apply list_insert_id.
  rewrite lookup_app_l by (rewrite length_drop; lia). rewrite lookup_drop.
  rewrite last_lookup in Hl. replace (off + (take_ - 1))%nat with (pred (length l)) by lia.
  destruct (lookup_lt_is_Some_2 l (pred (length l))) as [x Hx]; [lia|].
  rewrite Hx in Hl |- *. by subst.
Qed.

Lemma refill_rep r bits :
  rd_rep r bits ->
  rd_rep (refill r) bits /\ Z.min 57 (Z.of_nat (length bits)) <= rd_valid (refill r).
Proof.
  intros Hrep. pose proof Hrep as (Hu & Hb & Hv & Ho & Hl & Hbits).
  assert (Z.of_nat (length bits) =
    rd_valid r + 8 * Z.of_nat (length (rd_stream r) - rd_offset r)) as Hlen.
  { rewrite Hbits, length_app, length_bits_be, length_bytes_bits, length_drop. lia. }
  unfold refill. set (want := Z.to_nat ((64 - rd_valid r) / 8)).
  assert (64 - rd_valid r - 7 <= Z.of_nat want * 8 <= 64 - rd_valid r) as Hwant.
  { pose proof (Z.div_mod (64 - rd_valid r) 8). pose proof (Z.mod_pos_bound (64 - rd_valid r) 8).
    pose proof (Z.div_pos (64 - rd_valid r) 8). lia. }
  destruct (Nat.eqb_spec want 0); [split; [done|lia]|].
  set (avail := (length (rd_stream r) - rd_offset r)%nat) in *.
  destruct (Nat.ltb_spec 8 avail).
  - split; [|cbn [rd_valid]; lia]. apply rd_push_rep; [done|lia..| | |].
    + by apply Forall_take, Forall_drop.
    + rewrite length_take, length_drop. lia.
    + rewrite take_take. f_equal. lia.
  - unfold refill_tail. destruct (Nat.eqb_spec avail 0); [split; [done|lia]|].
    pose proof (tail_word_ok (rd_stream r) (rd_offset r) want (rd_last r)) as Hw.
    cbv zeta in Hw |- *. fold avail in Hw. rewrite Hw by (done || lia).
    split; [|cbn [rd_valid]; lia]. apply rd_push_rep; [done|lia..| | |].
    + apply Forall_app. split; [by apply Forall_drop|]. 
      apply Forall_forall. by intros x ->%list_elem_of_In%repeat_spec.
    + rewrite length_app, length_drop, repeat_length. lia.
    + rewrite take_app_le by (rewrite length_drop; lia). done.
Qed.

(** *** Reading *)

Lemma rd_rep_drop r bits n :
  rd_rep r bits -> 0 <= n <= rd_valid r ->
  rd_rep (with_valid r (rd_valid r - n)) (drop (Z.to_nat n) bits).
Proof.
  intros (Hu & Hb & Hv & Ho & Hl & ->) Hn. unfold rd_rep, with_valid.
  cbn [rd_stream rd_offset rd_buffer rd_valid rd_last]. split_and!; [done..|lia|lia|lia|done|].
  rewrite drop_app_le, drop_bits_be by (rewrite ?length_bits_be; lia). do 2 f_equal. lia.
Qed.

Lemma rd_rep_take r bits n :
  rd_rep r bits -> 0 <= n <= rd_valid r ->
  bits_val (take (Z.to_nat n) bits) = shr64 (rd_buffer r) (rd_valid r - n) mod 2 ^ n.
Proof.
  intros (Hu & Hb & Hv & Ho & Hl & ->) Hn.
  rewrite take_app_le, take_bits_be, bits_val_bits_be by (rewrite ?length_bits_be; lia).
  unfold shr64. f_equal; [f_equal; lia|]. f_equal. lia.
Qed.

(** [v & ((1 << n) - 1)] *)
Lemma land_mask v n : 0 <= n < 64 -> Z.land v (shl64 1 n - 1) = v mod 2 ^ n.
Proof.
  intros Hn. unfold shl64. rewrite Z.shiftl_1_l, wrap_u64_id.
  - rewrite <- Z.land_ones, Z.ones_equiv, Z.sub_1_r by lia. done.
  - split; [lia|]. apply Z.pow_lt_mono_r; lia.
Qed.

(** Reading [n] bits from a source that holds [bits]: their value and the rest. *)
Definition reads (n : nat) (bits : list bool) (res : IoResult (Z * BitReader)) : Prop :=
  if (n <=? length bits)%nat then
    exists r', res = Ok (bits_val (take n bits), r') /\ rd_rep r' (drop n bits)
  else res = Err UnexpectedEof.

Lemma rd_rep_length r bits :
  rd_rep r bits ->
  Z.of_nat (length bits) = rd_valid r + 8 * Z.of_nat (length (rd_stream r) - rd_offset r).
Proof.
  intros (_ & _ & Hv & _ & _ & ->).
  rewrite length_app, length_bits_be, length_bytes_bits, length_drop. lia.
Qed.

Lemma read_window_spec r bits n :
  rd_rep r bits -> 0 <= n <= rd_valid r ->
  exists r', read_window r n = (bits_val (take (Z.to_nat n) bits), r') /\
             rd_rep r' (drop (Z.to_nat n) bits) /\ rd_valid r' = rd_valid r - n.
Proof.
  intros Hrep Hn. pose proof Hrep as (_ & Hb & Hv & _).
  eexists. split; [|split; [by apply rd_rep_drop|done]].
  unfold read_window. cbn [with_valid rd_buffer rd_valid]. f_equal.
  rewrite (rd_rep_take r) by done. destruct (Z.leb_spec 64 n).
  - replace n with 64 by lia. replace (rd_valid r) with 64 by lia. cbn. rewrite Z.mod_small; done.
  - apply land_mask. lia.
Qed.

Lemma read_bits_fuel_window fuel r bits n :
  rd_rep r bits -> 0 <= n <= rd_valid r ->
  exists r', read_bits_fuel fuel r n = Ok (bits_val (take (Z.to_nat n) bits), r') /\
             rd_rep r' (drop (Z.to_nat n) bits) /\ rd_valid r' = rd_valid r - n.
Proof.
  intros Hrep Hn. destruct (read_window_spec r bits n Hrep Hn) as (r' & E & H).
  exists r'. split; [|done].
  destruct fuel; cbn [read_bits_fuel]; (destruct (Z.ltb_spec (rd_valid r) n); [lia|]); by rewrite E.
Qed.

(** Joining the two halves of a straddling read. *)
Lemma straddle_value bits a b :
  (a + b <= length bits)%nat -> (a + b <= 64)%nat ->
  Z.lor (shl64 (bits_val (take a bits)) (Z.of_nat b)) (bits_val (take b (drop a bits))) =
    bits_val (take (a + b) bits).
Proof.
  intros Hle H64.
  assert (take (a + b) bits = take a bits ++ take b (drop a bits)) as ->.
  { rewrite take_drop_commute. rewrite <- (take_drop a (take (a + b) bits)) at 1.
    rewrite take_take. f_equal. f_equal. lia. }
  set (x := take a bits). set (y := take b (drop a bits)).
  assert (length x = a) by (apply length_take_le; lia).
  assert (length y = b) as Hy by (apply length_take_le; rewrite length_drop; lia).
  rewrite Z.lor_comm, bits_val_app, Hy.
  pose proof (bits_val_nonneg x). pose proof (bits_val_bound y). pose proof (bits_val_nonneg y).
  rewrite Hy in *. rewrite lor_shl64; [lia|lia|lia|lia|].
  pose proof (bits_val_bound (x ++ y)) as Hxy. rewrite bits_val_app, length_app, Hy in Hxy.
  assert (2 ^ Z.of_nat (length x + b) <= 2 ^ 64) by (apply Z.pow_le_mono_r; lia). lia.
Qed.

(** The straddling case of [read_bits]: the window held fewer than [n] bits
    after a refill. *)
Lemma read_straddling_spec r1 bits n :
  rd_rep r1 bits -> Z.min 57 (Z.of_nat (length bits)) <= rd_valid r1 ->
  (n <= 64)%nat -> rd_valid r1 < Z.of_nat n ->
  (rd_valid r1 =? 0) || (length (rd_stream r1) <=? rd_offset r1)%nat = false ->
  reads n bits
    (let? (hi, r2) := read_bits_fuel 0 r1 (rd_valid r1) in
     let rest := Z.of_nat n - rd_valid r1 in
     let r3 := refill r2 in
     if rd_valid r3 <? rest then Err UnexpectedEof
     else let? (lo, r4) := read_bits_fuel 0 r3 rest in Ok (Z.lor (shl64 hi rest) lo, r4)).
Proof.
  intros Hrep1 Hmin Hn Hlt Hex. pose proof (rd_rep_length _ _ Hrep1) as Hlen.
  pose proof Hrep1 as (_ & _ & Hv1 & _). unfold reads.
  set (first := Z.to_nat (rd_valid r1)).
  destruct (read_bits_fuel_window 0 r1 bits (rd_valid r1) Hrep1 ltac:(lia)) as (r2 & E2 & Hrep2 & _).
  rewrite E2. fold first in Hrep2 |- *. destruct (refill_rep _ _ Hrep2) as [Hrep3 Hmin3]. cbv zeta.
  set (r3 := refill r2) in *. clearbody r3. pose proof (rd_rep_length _ _ Hrep3) as Hlen3.
  rewrite length_drop in *.
  destruct (Z.ltb_spec (rd_valid r3) (Z.of_nat n - rd_valid r1)) as [Hlt3|Hge3].
  { destruct (Nat.leb_spec n (length bits)); [|done]. lia. }
  destruct (read_bits_fuel_window 0 r3 _ (Z.of_nat n - rd_valid r1) Hrep3 ltac:(lia))
    as (r4 & E4 & Hrep4 & _). rewrite E4.
  destruct (Nat.leb_spec n (length bits)); [|lia].
  replace (Z.of_nat n - rd_valid r1) with (Z.of_nat (n - first)) in * by lia.
  rewrite Nat2Z.id in *. exists r4. split.
  - rewrite straddle_value by lia. do 4 f_equal. lia.
  - rewrite drop_drop in Hrep4. by replace (first + (n - first))%nat with n in Hrep4 by lia.
Qed.

(** [read_bits n] returns the next [n] bits wherever the window stands, and
    fails exactly when fewer are left. *)
Lemma read_bits_spec r bits n :
  rd_rep r bits -> (n <= 64)%nat -> reads n bits (read_bits r (Z.of_nat n)).
Proof.
  intros Hrep Hn. pose proof (rd_rep_length _ _ Hrep) as Hlen.
  destruct (Z.le_gt_cases (Z.of_nat n) (rd_valid r)) as [Hnv|Hnv].
  { destruct (read_bits_fuel_window 1 r bits (Z.of_nat n) Hrep ltac:(lia)) as (r' & E & H & _).
    rewrite Nat2Z.id in *. unfold reads. destruct (Nat.leb_spec n (length bits)); [|lia]. eauto. }
  unfold read_bits, read_bits_fuel at 1. fold read_bits_fuel.
  destruct (Z.ltb_spec (rd_valid r) (Z.of_nat n)); [|lia].
  destruct (Z.ltb_spec 64 (Z.of_nat n)); [lia|].
  destruct (refill_rep r bits Hrep) as [Hrep1 Hmin]. set (r1 := refill r) in *. clearbody r1.
  clear Hnv Hlen. pose proof (rd_rep_length _ _ Hrep1) as Hlen.
  pose proof Hrep1 as (_ & _ & Hv1 & _). cbv zeta.
  destruct (Z.ltb_spec (rd_valid r1) (Z.of_nat n)) as [Hlt|Hge].
  2: { destruct (read_window_spec r1 bits (Z.of_nat n) Hrep1 ltac:(lia)) as (r' & -> & H' & _).
       rewrite Nat2Z.id in *. unfold reads. destruct (Nat.leb_spec n (length bits)); [|lia]. eauto. }
  destruct ((rd_valid r1 =? 0) || (length (rd_stream r1) <=? rd_offset r1)%nat) eqn:Hex.
  - unfold reads. destruct (Nat.leb_spec n (length bits)); [|done].
    apply orb_true_iff in Hex as [?%Z.eqb_eq|?%Nat.leb_le]; lia.
  - by apply read_straddling_spec.
Qed.

(** Reading back [n] bits that were written there. *)
Lemma read_bits_app r n v rest :
  rd_rep r (bits_be n v ++ rest) -> (n <= 64)%nat ->
  exists r', read_bits r (Z.of_nat n) = Ok (v mod 2 ^ Z.of_nat n, r') /\ rd_rep r' rest.
Proof.
  intros Hrep Hn. pose proof (read_bits_spec _ _ n Hrep Hn) as H. unfold reads in H.
  rewrite length_app, length_bits_be in H. destruct (Nat.leb_spec n (n + length rest)); [|lia].
  rewrite take_app_length', drop_app_length', bits_val_bits_be in H
    by (by rewrite length_bits_be). done.
Qed.

Lemma read_bit_app r b rest :
  rd_rep r (b :: rest) -> exists r', read_bit r = Ok (b, r') /\ rd_rep r' rest.
Proof.
  intros Hrep. unfold read_bit.
  set (r1 := if rd_valid r =? 0 then refill r else r).
  assert (rd_rep r1 (b :: rest) /\ 0 < rd_valid r1) as [Hrep1 Hv].
  { subst r1. destruct (refill_rep _ _ Hrep) as [H1 H2]. cbn [length] in H2.
    pose proof Hrep as (_ & _ & ? & _). destruct (Z.eqb_spec (rd_valid r) 0); split; (done || lia). }
  clearbody r1. destruct (Z.eqb_spec (rd_valid r1) 0); [lia|].
  pose proof (rd_rep_drop _ _ 1 Hrep1 ltac:(lia)) as Hd.
  pose proof (rd_rep_take _ _ 1 Hrep1 ltac:(lia)) as Ht.
  eexists. split; [|exact Hd]. do 2 f_equal. cbn [with_valid rd_buffer rd_valid].
  change 1 with (Z.ones 1) at 2. rewrite Z.land_ones by lia. rewrite <- Ht. by destruct b.
Qed.

(** [peek_upto] shows the next [n] bits, zero-padded past the end, and leaves them
    (or all that is left) in the window for [skip]. *)
Lemma peek_upto_spec r bits n :
  rd_rep r bits -> (n <= 32)%nat ->
  exists r', peek_upto r (Z.of_nat n) = (bits_val (take n (bits ++ repeat false n)), r') /\
    rd_rep r' bits /\ Z.min (Z.of_nat n) (Z.of_nat (length bits)) <= rd_valid r'.
Proof.
  intros Hrep Hn. unfold peek_upto.
  set (r1 := if rd_valid r <? Z.of_nat n then refill r else r).
  assert (rd_rep r1 bits /\ Z.min (Z.of_nat n) (Z.of_nat (length bits)) <= rd_valid r1) as [Hr1 Hv1].
  { subst r1. destruct (Z.ltb_spec (rd_valid r) (Z.of_nat n)); [|split; [done|lia]].
    destruct (refill_rep _ _ Hrep) as [H1 H2]. split; [done|lia]. }
  clearbody r1. pose proof (rd_rep_length _ _ Hr1) as Hlen. pose proof Hr1 as (_ & _ & Hv & _).
  destruct (Z.ltb_spec (rd_valid r1) (Z.of_nat n)) as [Hlt|Hge]; eexists; (split; [|done]); f_equal.
  - pose proof (rd_rep_take _ _ (rd_valid r1) Hr1 ltac:(lia)) as Ht.
    rewrite take_ge in Ht by lia. rewrite Z.sub_diag in Ht. unfold shr64 in Ht. rewrite Z.shiftr_0_r in Ht.
    rewrite land_mask, <- Ht by lia.
    rewrite take_app_ge by lia. rewrite <- bits_be_0, take_bits_be by lia.
    rewrite Z.shiftr_0_l, bits_val_app, bits_val_bits_be, length_bits_be, Zmod_0_l, Z.add_0_r.
    unfold shl64. rewrite Z.shiftl_mul_pow2 by lia.
    replace (Z.of_nat n - rd_valid r1) with (Z.of_nat (n - length bits)) by lia.
    apply wrap_u64_id. pose proof (bits_val_nonneg bits). pose proof (bits_val_bound bits).
    split; [lia|]. apply (Z.lt_le_trans _ (2 ^ Z.of_nat (length bits) * 2 ^ Z.of_nat (n - length bits))).
    + apply Z.mul_lt_mono_pos_r; lia.
    + rewrite <- Z.pow_add_r by lia. apply Z.pow_le_mono_r; lia.
  - rewrite land_mask by lia. rewrite take_app_le by lia.
    by rewrite <- (rd_rep_take _ _ (Z.of_nat n) Hr1), Nat2Z.id by lia.
Qed.

Lemma skip_spec r bits n :
  rd_rep r bits -> 0 <= n <= rd_valid r ->
  exists r', skip r n = Ok r' /\ rd_rep r' (drop (Z.to_nat n) bits).
Proof.
  intros Hrep Hn. unfold skip. destruct (Z.ltb_spec (rd_valid r) n); [lia|].
  eexists. split; [done|]. by apply rd_rep_drop.
Qed.

Lemma read_bit_eof r : rd_rep r [] -> read_bit r = Err UnexpectedEof.
Proof.
  intros Hrep. destruct (refill_rep _ _ Hrep) as [H1 _].
  pose proof (rd_rep_length _ _ Hrep) as L. pose proof (rd_rep_length _ _ H1) as L1.
  pose proof Hrep as (_ & _ & Hv & _). pose proof H1 as (_ & _ & Hv1 & _). cbn [length] in *.
  unfold read_bit. destruct (Z.eqb_spec (rd_valid r) 0); [|lia].
  destruct (Z.eqb_spec (rd_valid (refill r)) 0); [done|lia].
Qed.

Lemma read_byte_app r b rest :
  is_u8 b -> rd_rep r (bits_be 8 b ++ rest) ->
  exists r', read_byte r = Ok (b, r') /\ rd_rep r' rest.
Proof.
  intros Hb Hrep. destruct (read_bits_app r 8 b rest Hrep ltac:(lia)) as (r' & E & H).
  exists r'. split; [|done]. unfold read_byte. change (read_bits r 8) with (read_bits r (Z.of_nat 8)).
  rewrite E. change (b mod 2 ^ Z.of_nat 8) with (wrap_u8 b). by rewrite !wrap_u8_id by auto with tsdb.
Qed.

Lemma read_u64_app r v rest :
  is_u64 v -> rd_rep r (bits_be 64 v ++ rest) ->
  exists r', read_u64 r = Ok (v, r') /\ rd_rep r' rest.
Proof.
  intros Hv Hrep. destruct (read_bits_app r 64 v rest Hrep ltac:(lia)) as (r' & E & H).
  exists r'. split; [|done]. unfold read_u64. change 64 with (Z.of_nat 64). rewrite E.
  by rewrite Z.mod_small.
Qed.

(** The stream's varint reader does what the slice's does. *)
Lemma rd_uvarint_loop_sim n r l rest x s v l' :
  s = 7 * (10 - Z.of_nat n) -> (n <= 10)%nat -> Forall is_u8 l ->
  rd_rep r (bytes_bits l ++ rest) -> read_uvarint_loop l x s = Ok (v, l') -> n <> 0%nat ->
  exists r', rd_uvarint_loop n r x s = Ok (v, r') /\ rd_rep r' (bytes_bits l' ++ rest).
Proof.
  intros Hs Hn Hl. revert n r x s Hs Hn. induction Hl as [|b l Hb Hl IH]; intros n r x s Hs Hn Hrep Hrd Hn0.
  { done. }
  destruct n as [|n]; [done|]. cbn [rd_uvarint_loop read_uvarint_loop] in *.
  change (bytes_bits (b :: l)) with (bits_be 8 b ++ bytes_bits l) in Hrep.
  rewrite <- app_assoc in Hrep. destruct (read_byte_app _ _ _ Hb Hrep) as (r1 & -> & Hr1).
  rewrite land_127, land_128 in * by done. change (2 ^ 7) with 128 in *.
  destruct (Z.ltb_spec b 128).
  - cbn in Hrd. rewrite Z.mod_small in Hrd by (unfold is_u8 in Hb; lia).
    injection Hrd as <- <-. eauto.
  - destruct (Z.ltb_spec 63 (s + 7)); [done|]. apply IH; [lia|lia|done|done|lia].
Qed.

Lemma read_uvarint_app r v rest :
  is_u64 v -> rd_rep r (bytes_bits (write_uvarint [] v) ++ rest) ->
  exists r', read_uvarint r = Ok (v, r') /\ rd_rep r' rest.
Proof.
  intros Hv Hrep. pose proof (read_write_uvarint v [] Hv) as E. rewrite app_nil_r in E.
  eapply (rd_uvarint_loop_sim MAX_VARINT_LEN64) in E; [|done|done| |exact Hrep|done].
  - exact E.
  - apply write_uvarint_bytes.
Qed.

Lemma read_varint_app r v rest :
  is_i64 v -> rd_rep r (bytes_bits (write_signed_varint [] v) ++ rest) ->
  exists r', read_varint r = Ok (v, r') /\ rd_rep r' rest.
Proof.
  intros Hv Hrep. pose proof (zigzag_encode_range v) as Hz.
  destruct (read_uvarint_app _ _ _ Hz Hrep) as (r' & E & H). exists r'. split; [|done].
  unfold read_varint. rewrite E. do 2 f_equal.
  change 1 with (Z.ones 1) at 1. rewrite Z.land_ones by lia. change (2 ^ 1) with 2.
  rewrite <- (zigzag_roundtrip v) at 4 by done. rewrite zigzag_decode_spec by done.
  set (z := zigzag_encode v) in *. unfold shr64. rewrite Z.shiftr_div_pow2 by lia.
  change (2 ^ 1) with 2. unfold is_u64 in Hz.
  assert (0 <= z / 2 < 2 ^ 63)
    by (split; [apply Z.div_pos; lia|apply Z.div_lt_upper_bound; lia]).
  rewrite wrap_i64_id by ilia. rewrite Zmod_odd. destruct (Z.odd z); cbn; [|done].
  unfold Z.lnot. lia.
Qed.

#[export] Hint Resolve rd_new_rep rd_new_bs_rep : tsdb.

(** ** Properties *)

(** [read_bits] refines reading from the bit string: whatever the position
    of the 64-bit window, refills and straddling reads included, a read of up
    to 64 bits returns the next [n] bits and leaves the rest, or reports the end
    of the stream exactly when fewer than [n] are left. *)
Theorem read_bits_correct (r : BitReader) (bits : list bool) (n : nat) :
  rd_rep r bits -> (n <= 64)%nat ->
  if (n <=? length bits)%nat then
    exists r', read_bits r (Z.of_nat n) = Ok (bits_val (take n bits), r') /\ rd_rep r' (drop n bits)
  else read_bits r (Z.of_nat n) = Err UnexpectedEof.
Proof. apply read_bits_spec. Qed.

Lemma read_bits_correct_witness :
  exists r', read_bits (rd_new [0xA5; 0x3C]) 12 = Ok (0xA53, r') /\
             rd_rep r' [true; true; false; false].
Proof.
  apply (read_bits_correct (rd_new [0xA5; 0x3C]) (bytes_bits [0xA5; 0x3C]) 12); [|lia].
  apply rd_new_rep. fora; unfold is_u8; lia.
Defined.
