(* ===== verification/Varbit.v ===== *)
(** * Varbit: bucketed signed integers on the bit stream

    Models [src/series/chunks/stream/varbit.rs], the Prometheus encoding of the
    deltas of deltas.  [varbit_code] is the format its doc comment lays out;
    the fused writes produce it and the bit-by-bit reader decodes it. *)

From S2P Require Import Prelude Encoding BitStream BitReader.

Definition write_varbit (s : BitStream) (value : Z) : BitStream :=
  let v := wrap_u64 value in
  let between lo hi := (lo <=? value) && (value <=? hi) in
  if value =? 0 then write_bit_raw s false
  else if between (-3) 3 then write_bits s 7 (Z.lor (shl64 0x2 5) (Z.land v 0x1F))
  else if between (-31) 31 then write_bits s 12 (Z.lor (shl64 0x6 9) (Z.land v 0x1FF))
  else if between (-255) 255 then write_bits s 17 (Z.lor (shl64 0xE 13) (Z.land v 0x1FFF))
  else if between (-2047) 2047 then write_bits s 22 (Z.lor (shl64 0x1E 17) (Z.land v 0x1FFFF))
  else if between (-131071) 131071 then
    write_bits s 30 (Z.lor (shl64 0x3E 24) (Z.land v 0x0FFFFFF))
  else if between (-16777215) 16777215 then
    write_bits s 39 (Z.lor (shl64 0x7E 32) (Z.land v 0xFFFFFFFF))
  else if between (-36028797018963967) 36028797018963967 then
    write_bits s 64 (Z.lor (shl64 0xFE 56) (Z.land v 0x00FFFFFFFFFFFFFF))
  else write_bits (write_bits s 8 0xFF) 64 v.

(** The loop [for i in 0..8], with [i] iterations done and [left] to go. *)
Fixpoint read_varbit_int_bucket (left i : nat) (r : BitReader) : IoResult (nat * BitReader) :=
  match left with
  | O => Ok (8%nat, r)
  | S left' =>
      let? (bit, r) := read_bit r in
      if negb bit then Ok (i, r) else read_varbit_int_bucket left' (S i) r
  end.

(** The buckets above 8 are [unreachable!]. *)
Definition varbit_bucket_to_num_bits (bucket : nat) : nat :=
  (match bucket with
   | 0 => 0 | 1 => 5 | 2 => 9 | 3 => 13 | 4 => 17 | 5 => 24 | 6 => 32 | 7 => 56 | _ => 64
   end)%nat.

Definition read_varbit_int (r : BitReader) : IoResult (Z * BitReader) :=
  let? (bucket, r) := read_varbit_int_bucket 8 0 r in
  let num_bits := Z.of_nat (varbit_bucket_to_num_bits bucket) in
  if (bucket =? 0)%nat then Ok (0, r)
  else
    let? (value, r) := read_bits r num_bits in
    if negb (num_bits =? 64) && (Z.shiftl 1 (num_bits - 1) <? value)
    then Ok (sign_extend value num_bits, r)
    else Ok (wrap_i64 value, r).

(** ** The format *)

(** The bucket a value falls in: the first whose payload interval holds it. *)
Definition varbit_bucket (v : Z) : nat :=
  if v =? 0 then 0%nat
  else if Z.abs v <=? 3 then 1%nat
  else if Z.abs v <=? 31 then 2%nat
  else if Z.abs v <=? 255 then 3%nat
  else if Z.abs v <=? 2047 then 4%nat
  else if Z.abs v <=? 131071 then 5%nat
  else if Z.abs v <=? 16777215 then 6%nat
  else if Z.abs v <=? 36028797018963967 then 7%nat
  else 8%nat.

(** [k] ones and a zero, unless [k] is 8. *)
Definition varbit_prefix (k : nat) : list bool :=
  repeat true k ++ (if (k <? 8)%nat then [false] else []).

Definition varbit_code (v : Z) : list bool :=
  varbit_prefix (varbit_bucket v) ++ bits_be (varbit_bucket_to_num_bits (varbit_bucket v)) v.

(** A prefix and a masked payload or-ed into one word. *)
Lemma bits_be_fused a b p v :
  (a + b <= 64)%nat ->
  bits_be (a + b) (Z.lor (shl64 p (Z.of_nat b)) (Z.land v (Z.ones (Z.of_nat b)))) =
    bits_be a p ++ bits_be b v.
Proof.
  intros H. rewrite bits_be_app, Z.land_ones by lia. unfold shl64, wrap_u64. f_equal.
  - apply bits_be_ext. intros i Hi. rewrite Z.shiftr_spec, Z.lor_spec by lia.
    rewrite Z.mod_pow2_bits_low, Z.mod_pow2_bits_high, orb_false_r, Z.shiftl_spec by lia.
    f_equal. lia.
  - apply bits_be_ext. intros i Hi. rewrite Z.lor_spec, !Z.mod_pow2_bits_low by lia.
    by rewrite Z.shiftl_spec_low by lia.
Qed.

Lemma between_abs v a b : a = - b -> (a <=? v) && (v <=? b) = (Z.abs v <=? b).
Proof. intros. destruct (Z.leb_spec (Z.abs v) b); lia. Qed.

Lemma bits_be_wrap_u64 n v : (n <= 64)%nat -> bits_be n (wrap_u64 v) = bits_be n v.
Proof. intros. apply bits_be_mod. lia. Qed.

Lemma write_fused_rep s bits a b p v :
  bs_rep s bits -> (a + b <= 64)%nat ->
  bs_rep (write_bits s (Z.of_nat (a + b))
            (Z.lor (shl64 p (Z.of_nat b)) (Z.land (wrap_u64 v) (Z.ones (Z.of_nat b)))))
    (bits ++ bits_be a p ++ bits_be b v).
Proof.
  intros Hrep H. rewrite <- (bits_be_wrap_u64 b) by lia. rewrite <- bits_be_fused by lia.
  by apply write_bits_rep.
Qed.

Lemma write_varbit_rep s bits v :
  bs_rep s bits -> bs_rep (write_varbit s v) (bits ++ varbit_code v).
Proof.
  intros Hrep. unfold write_varbit. cbv zeta beta.
  rewrite !between_abs by done.
  unfold varbit_code, varbit_bucket.
  destruct (v =? 0); [by apply write_bit_rep|].
  destruct (Z.abs v <=? 3); [apply (write_fused_rep s bits 2 5 0x2); [done|lia]|].
  destruct (Z.abs v <=? 31); [apply (write_fused_rep s bits 3 9 0x6); [done|lia]|].
  destruct (Z.abs v <=? 255); [apply (write_fused_rep s bits 4 13 0xE); [done|lia]|].
  destruct (Z.abs v <=? 2047); [apply (write_fused_rep s bits 5 17 0x1E); [done|lia]|].
  destruct (Z.abs v <=? 131071); [apply (write_fused_rep s bits 6 24 0x3E); [done|lia]|].
  destruct (Z.abs v <=? 16777215); [apply (write_fused_rep s bits 7 32 0x7E); [done|lia]|].
  destruct (Z.abs v <=? 36028797018963967);
    [apply (write_fused_rep s bits 8 56 0xFE); [done|lia]|].
  rewrite <- (bits_be_wrap_u64 (varbit_bucket_to_num_bits 8)) by done.
  change (varbit_prefix 8) with (bits_be 8 0xFF). rewrite app_assoc.
  apply (write_bits_rep _ _ 64); [|done]. apply (write_bits_rep _ _ 8); [done|lia].
Qed.

Lemma read_bucket_app left i k r rest :
  (left + i = 8)%nat -> (k <= left)%nat ->
  rd_rep r (repeat true k ++ (if (k <? left)%nat then [false] else []) ++ rest) ->
  exists r', read_varbit_int_bucket left i r = Ok ((i + k)%nat, r') /\ rd_rep r' rest.
Proof.
  revert i k r. induction left as [|left IH]; intros i k r Hi Hk Hrep; cbn [read_varbit_int_bucket].
  - assert (k = 0%nat) by lia. subst k. cbn in Hrep. exists r. split; [|done]. do 2 f_equal. lia.
  - destruct k as [|k]; cbn [repeat app] in Hrep.
    + destruct (read_bit_app _ _ _ Hrep) as (r' & -> & H). exists r'. split; [|done].
      cbn. do 2 f_equal. lia.
    + destruct (read_bit_app _ _ _ Hrep) as (r1 & -> & H1). cbn [negb].
      destruct (IH (S i) k r1) as (r' & E & H); [lia|lia|exact H1|].
      exists r'. rewrite E. split; [|done]. do 2 f_equal. lia.
Qed.

Lemma varbit_bucket_bound v :
  is_i64 v -> v <> 0 ->
  (1 <= varbit_bucket v <= 8)%nat /\
  Z.abs v < 2 ^ (Z.of_nat (varbit_bucket_to_num_bits (varbit_bucket v)) - 1) \/
  varbit_bucket v = 8%nat.
Proof.
  intros Hv Hv0. unfold varbit_bucket. destruct (Z.eqb_spec v 0); [done|].
  repeat match goal with |- context [Z.abs v <=? ?b] => destruct (Z.leb_spec (Z.abs v) b) end;
    try (left; cbn [varbit_bucket_to_num_bits]; lia).
  by right.
Qed.

(** The payload read back, by sign extension or cast, is the value. *)
Lemma varbit_payload v n :
  is_i64 v -> 0 < n <= 64 -> (n < 64 -> Z.abs v < 2 ^ (n - 1)) ->
  (if negb (n =? 64) && (Z.shiftl 1 (n - 1) <? v mod 2 ^ n)
   then sign_extend (v mod 2 ^ n) n else wrap_i64 (v mod 2 ^ n)) = v.
Proof.
  intros Hv Hn Hb. destruct (Z.eqb_spec n 64) as [->|Hn64]; cbn [negb andb].
  { by apply wrap_i64_u64. }
  specialize (Hb ltac:(lia)). rewrite Z.shiftl_1_l.
  assert (2 ^ n = 2 * 2 ^ (n - 1)) as Hp by (rewrite <- Z.pow_succ_r by lia; f_equal; lia).
  assert (v mod 2 ^ n = if v <? 0 then v + 2 ^ n else v) as ->.
  { destruct (Z.ltb_spec v 0); [|apply Z.mod_small; lia].
    symmetry. apply (Z.mod_unique_pos _ _ (-1)); lia. }
  destruct (Z.ltb_spec v 0).
  - destruct (Z.ltb_spec (2 ^ (n - 1)) (v + 2 ^ n)); [|lia]. rewrite sign_extend_spec by lia.
    destruct (Z.ltb_spec (v + 2 ^ n) (2 ^ (n - 1))); lia.
  - destruct (Z.ltb_spec (2 ^ (n - 1)) v); [lia|]. by apply wrap_i64_id.
Qed.

Lemma read_varbit_app r v rest :
  is_i64 v -> rd_rep r (varbit_code v ++ rest) ->
  exists r', read_varbit_int r = Ok (v, r') /\ rd_rep r' rest.
Proof.
  intros Hv Hrep. unfold varbit_code, varbit_prefix in Hrep. rewrite <- !app_assoc in Hrep.
  assert (varbit_bucket v <= 8)%nat as Hk
    by (unfold varbit_bucket; repeat case_match; lia).
  destruct (read_bucket_app 8 0 _ _ _ ltac:(lia) Hk Hrep) as (r1 & E1 & H1).
  unfold read_varbit_int. rewrite E1, Nat.add_0_l.
  destruct (Z.eq_dec v 0) as [->|Hv0]; [exists r1; split; [done|exact H1]|].
  destruct (Nat.eqb_spec (varbit_bucket v) 0) as [E0|_].
  { destruct (varbit_bucket_bound v Hv Hv0); lia. }
  assert (0 < varbit_bucket_to_num_bits (varbit_bucket v) <= 64)%nat as Hnb.
  { destruct (varbit_bucket_bound v Hv Hv0) as [[? _]|E8]; [|rewrite E8; cbn; lia].
    unfold varbit_bucket_to_num_bits. repeat case_match; lia. }
  destruct (read_bits_app _ _ _ _ H1 ltac:(lia)) as (r2 & -> & H2).
  exists r2. split; [|done].
  pose proof (varbit_payload v (Z.of_nat (varbit_bucket_to_num_bits (varbit_bucket v))) Hv
    ltac:(lia)) as Hp.
  destruct (_ && _); rewrite Hp; try done;
    intros Hlt; (destruct (varbit_bucket_bound v Hv Hv0) as [[_ ?]|E]; [done|]);
    rewrite E in Hlt; cbn in Hlt; lia.
Qed.

Lemma length_varbit_code v : (length (varbit_code v) <= 72)%nat.
Proof.
  unfold varbit_code, varbit_prefix. rewrite !length_app, length_bits_be, repeat_length.
  assert (varbit_bucket v <= 8)%nat as Hk by (unfold varbit_bucket; repeat case_match; lia).
  set (k := varbit_bucket v) in *. clearbody k. do 9 (destruct k as [|k]; [cbn; lia|]). lia.
Qed.

#[export] Hint Resolve write_varbit_rep : tsdb.

(** ** Properties *)

Fixpoint read_varbits (n : nat) (r : BitReader) : IoResult (list Z) :=
  match n with
  | O => Ok []
  | S n' =>
      let? (v, r) := read_varbit_int r in
      let? l := read_varbits n' r in Ok (v :: l)
  end.

Lemma write_varbits_rep s bits l :
  bs_rep s bits -> bs_rep (foldl write_varbit s l) (bits ++ (l ≫= varbit_code)).
Proof.
  revert s bits. induction l as [|v l IH]; intros s bits Hrep; cbn [foldl].
  - by rewrite app_nil_r.
  - change ((v :: l) ≫= varbit_code) with (varbit_code v ++ (l ≫= varbit_code)).
    rewrite app_assoc. by apply IH, write_varbit_rep.
Qed.

Lemma read_varbits_app r l rest :
  Forall is_i64 l -> rd_rep r ((l ≫= varbit_code) ++ rest) -> read_varbits (length l) r = Ok l.
Proof.
  intros Hl. revert r. induction Hl as [|v l Hv Hl IH]; intros r Hrep; cbn [length read_varbits];
    [done|].
  change ((v :: l) ≫= varbit_code) with (varbit_code v ++ (l ≫= varbit_code)) in Hrep.
  rewrite <- app_assoc in Hrep. destruct (read_varbit_app _ _ _ Hv Hrep) as (r' & -> & H').
  by rewrite (IH _ H').
Qed.

(** Varbit integers round-trip: any sequence of [i64]s written one after
    the other to a bit stream is read back by as many [read_varbit_int]s, over
    all nine buckets. *)
Theorem varbit_roundtrip (l : list Z) :
  Forall is_i64 l ->
  read_varbits (length l) (rd_new (stream (foldl write_varbit bs_new l))) = Ok l.
Proof.
  intros Hl. eapply read_varbits_app; [done|]. apply rd_new_bs_rep.
  by apply (write_varbits_rep bs_new []), bs_new_rep.
Qed.

Lemma varbit_roundtrip_witness :
  read_varbits 5 (rd_new (stream (foldl write_varbit bs_new [0; -3; 255; 131072; i64_MIN])))
    = Ok [0; -3; 255; 131072; i64_MIN].
Proof.
  apply (varbit_roundtrip [0; -3; 255; 131072; i64_MIN]).
  fora; unfold is_i64, i64_MIN; lia.
Defined.
