(* ===== verification/VarbitXor.v ===== *)
(** * VarbitXor: values xor-ed with their predecessor

    Models [src/series/chunks/gorilla/varbit_xor.rs].  The writer keeps the
    window (leading, trailing) of the last xor it wrote in full and starts from
    the impossible leading count [0xff]; the reader starts from (0, 0).
    [window_rel] is the invariant that ties the two. *)

From S2P Require Import Prelude Float64 Encoding BitStream BitReader Varbit.

(** [u64::leading_zeros] and [u64::trailing_zeros] *)
Definition leading_zeros (x : Z) : Z := if x =? 0 then 64 else 63 - Z.log2 x.

Fixpoint pos_trailing_zeros (p : positive) : Z :=
  match p with xO p' => 1 + pos_trailing_zeros p' | _ => 0 end.

Definition trailing_zeros (x : Z) : Z :=
  match x with Z0 => 64 | Zpos p | Zneg p => pos_trailing_zeros p end.

Definition write_varbit_xor (value previous_value : f64) (prev_leading prev_trailing : Z)
    (w : BitStream) : BitStream * Z * Z :=
  let delta := Z.lxor value previous_value in
  if delta =? 0 then (write_bit_raw w false, prev_leading, prev_trailing)
  else
    let new_leading := leading_zeros delta in
    let new_trailing := trailing_zeros delta in
    let new_leading := if 32 <=? new_leading then 31 else new_leading in
    if negb (prev_leading =? 0xff) && (prev_leading <=? new_leading)
       && (prev_trailing <=? new_trailing)
    then
      let sig := 64 - prev_leading - prev_trailing in
      let payload := shr64 delta prev_trailing in
      let w :=
        if sig <=? 62 then write_bits w (2 + sig) (Z.lor (shl64 2 sig) payload)
        else write_bits (write_bits w 2 2) sig payload in
      (w, prev_leading, prev_trailing)
    else
      let sig_bits := 64 - new_leading - new_trailing in
      let encoded_sig_bits := if 63 <? sig_bits then 0 else sig_bits in
      let header := Z.lor (Z.lor (shl64 3 11) (shl64 new_leading 6)) encoded_sig_bits in
      let payload := shr64 delta new_trailing in
      let w :=
        if sig_bits <=? 51 then write_bits w (13 + sig_bits) (Z.lor (shl64 header sig_bits) payload)
        else write_bits (write_bits w 13 header) sig_bits payload in
      (w, new_leading, new_trailing).

Definition read_leading_bits_count (r : BitReader) : IoResult (Z * BitReader) :=
  let? (v, r) := read_bits r 5 in Ok (wrap_u8 v, r).

Definition read_middle_bits_count (r : BitReader) : IoResult (Z * BitReader) :=
  let? (v, r) := read_bits r 6 in
  let middle := wrap_u8 v in
  if middle =? 0 then Ok (64, r) else Ok (middle, r).

Definition read_varbit_xor (r : BitReader) (previous_value : f64) (prev_leading prev_trailing : Z)
    : IoResult (f64 * Z * Z * BitReader) :=
  let? (different_value, r) := read_bit r in
  if negb different_value then Ok (previous_value, prev_leading, prev_trailing, r)
  else
    let? (different_window, r) := read_bit r in
    let? (leading, middle, trailing, r) :=
      (if (different_window : bool) then
         let? (leading, r) := read_leading_bits_count r in
         let? (middle, r) := read_middle_bits_count r in
         if 64 <? leading + middle then Err InvalidData
         else Ok (leading, middle, 64 - leading - middle, r)
       else Ok (prev_leading, 64 - prev_leading - prev_trailing, prev_trailing, r)) in
    let? (value_bits, r) := read_bits r middle in
    Ok (Z.lxor previous_value (shl64 value_bits trailing), leading, trailing, r).

(** ** The format *)

Definition clamped_leading (d : Z) : Z := Z.min 31 (leading_zeros d).

Definition reuses (d l t : Z) : bool :=
  negb (l =? 0xff) && (l <=? clamped_leading d) && (t <=? trailing_zeros d).

(** The window after coding the xor [d]. *)
Definition xor_window (d l t : Z) : Z * Z :=
  if (d =? 0) || reuses d l t then (l, t) else (clamped_leading d, trailing_zeros d).

Definition window_payload (d l t : Z) : list bool :=
  bits_be (Z.to_nat (64 - l - t)) (shr64 d t).

Definition xor_code (d l t : Z) : list bool :=
  if d =? 0 then [false]
  else if reuses d l t then [true; false] ++ window_payload d l t
  else [true; true] ++ bits_be 5 (clamped_leading d)
         ++ bits_be 6 (64 - clamped_leading d - trailing_zeros d)
         ++ window_payload d (clamped_leading d) (trailing_zeros d).

Lemma length_window_payload d l t : 0 <= l -> 0 <= t -> (length (window_payload d l t) <= 64)%nat.
Proof. intros. unfold window_payload. rewrite length_bits_be. lia. Qed.

(** A window that the xor [d] fits in. *)
Definition window_holds (d l t : Z) : Prop :=
  0 <= l /\ 0 <= t /\ l + t < 64 /\ 0 <= d < 2 ^ (64 - l) /\ (2 ^ t | d).

Definition window_ok (l t : Z) : Prop := 0 <= l <= 31 /\ 0 <= t /\ l + t < 64.

(** Writer window [(wl, wt)] and reader window [(rl, rt)] before the same xor. *)
Definition window_rel (wl wt rl rt : Z) : Prop :=
  (wl = 0xff /\ wt = 0 /\ rl = 0 /\ rt = 0) \/ (wl = rl /\ wt = rt /\ window_ok wl wt).

(** *** Counting zeros *)

Lemma pos_trailing_zeros_spec p :
  0 <= pos_trailing_zeros p /\ (2 ^ pos_trailing_zeros p | Zpos p).
Proof.
  induction p as [p IH|p IH|]; cbn [pos_trailing_zeros]; [split; [done|apply Z.divide_1_l]| |split; [done|apply Z.divide_1_l]].
  destruct IH as [H0 [q Hq]]. split; [lia|]. exists q. rewrite Z.pow_add_r by lia.
  rewrite (Pos2Z.inj_xO p), Hq. lia.
Qed.

Lemma trailing_zeros_spec d :
  0 < d -> 0 <= trailing_zeros d /\ (2 ^ trailing_zeros d | d).
Proof. destruct d; [lia| |lia]. intros _. apply pos_trailing_zeros_spec. Qed.

Lemma leading_zeros_spec d :
  0 < d < 2 ^ 64 -> 0 <= leading_zeros d <= 63 /\ d < 2 ^ (64 - leading_zeros d) /\
                    2 ^ (63 - leading_zeros d) <= d.
Proof.
  intros Hd. unfold leading_zeros. destruct (Z.eqb_spec d 0); [lia|].
  pose proof (Z.log2_nonneg d). pose proof (Z.log2_spec d ltac:(lia)).
  assert (Z.log2 d < 64) by (apply Z.log2_lt_pow2; lia).
  replace (64 - (63 - Z.log2 d)) with (Z.succ (Z.log2 d)) by lia.
  replace (63 - (63 - Z.log2 d)) with (Z.log2 d) by lia. lia.
Qed.

Lemma new_window_holds d :
  0 < d < 2 ^ 64 -> window_holds d (clamped_leading d) (trailing_zeros d).
Proof.
  intros Hd. pose proof (leading_zeros_spec d Hd) as (Hl & Hlt & Hge).
  pose proof (trailing_zeros_spec d ltac:(lia)) as [Ht Hdiv].
  unfold window_holds, clamped_leading. split_and!; try lia; try done.
  - assert (trailing_zeros d < 64 - leading_zeros d); [|lia].
    apply (Z.pow_lt_mono_r_iff 2); [lia..|].
    pose proof (Z.divide_pos_le (2 ^ trailing_zeros d) d ltac:(lia) Hdiv). lia.
  - assert (2 ^ (64 - leading_zeros d) <= 2 ^ (64 - Z.min 31 (leading_zeros d)))
      by (apply Z.pow_le_mono_r; lia). lia.
Qed.

Lemma reused_window_holds d l t :
  0 < d < 2 ^ 64 -> window_ok l t -> reuses d l t = true -> window_holds d l t.
Proof.
  intros Hd (Hl & Ht & Hlt) Hr. unfold reuses in Hr.
  apply andb_true_iff in Hr as [[_ Hrl%Z.leb_le]%andb_true_iff Hrt%Z.leb_le].
  destruct (new_window_holds d Hd) as (? & ? & ? & [_ Hd2] & Hdiv).
  unfold window_holds. split_and!; try lia.
  - assert (2 ^ (64 - clamped_leading d) <= 2 ^ (64 - l)) by (apply Z.pow_le_mono_r; lia). lia.
  - etransitivity; [|exact Hdiv].
    exists (2 ^ (trailing_zeros d - t)). rewrite <- Z.pow_add_r by lia. f_equal. lia.
Qed.

Lemma new_window_ok d : 0 < d < 2 ^ 64 -> window_ok (clamped_leading d) (trailing_zeros d).
Proof.
  intros Hd. destruct (new_window_holds d Hd) as (? & ? & ? & _).
  unfold window_ok, clamped_leading in *. lia.
Qed.

Lemma length_xor_code d l t rl rt :
  window_rel l t rl rt -> 0 <= d < 2 ^ 64 -> (length (xor_code d l t) <= 77)%nat.
Proof.
  intros Hw Hd. unfold xor_code. destruct (Z.eqb_spec d 0) as [|Hd0]; [cbn; lia|].
  destruct (reuses d l t).
  - assert (0 <= l /\ 0 <= t) as [? ?] by (unfold window_rel, window_ok in Hw; lia).
    pose proof (length_window_payload d l t ltac:(done) ltac:(done)). rewrite length_app. cbn [length]. lia.
  - destruct (new_window_ok d ltac:(lia)) as (? & ? & _).
    pose proof (length_window_payload d (clamped_leading d) (trailing_zeros d) ltac:(lia) ltac:(done)).
    rewrite !length_app, !length_bits_be. cbn [length]. lia.
Qed.

(** *** Writing *)

Lemma bits_be_join a b p q :
  (a + b <= 64)%nat -> 0 <= q < 2 ^ Z.of_nat b ->
  bits_be (a + b) (Z.lor (shl64 p (Z.of_nat b)) q) = bits_be a p ++ bits_be b q.
Proof.
  intros H Hq. rewrite <- (Z.mod_small q (2 ^ Z.of_nat b)) at 1 by done.
  rewrite <- Z.land_ones by lia. by apply bits_be_fused.
Qed.

Lemma window_payload_bound d l t :
  window_holds d l t -> 0 <= shr64 d t < 2 ^ Z.of_nat (Z.to_nat (64 - l - t)).
Proof.
  intros (Hl & Ht & Hlt & Hd & _). unfold shr64. rewrite Z.shiftr_div_pow2 by lia.
  split; [apply Z.div_pos; lia|]. apply Z.div_lt_upper_bound; [lia|].
  rewrite <- Z.pow_add_r by lia. replace (t + _) with (64 - l) by lia. lia.
Qed.

(** A header and a payload written in one word where they fit, in two where not. *)
Lemma write_header_payload_rep s bits a b header payload :
  bs_rep s bits -> (a <= 64)%nat -> (b <= 64)%nat -> 0 <= payload < 2 ^ Z.of_nat b ->
  bs_rep (if Z.of_nat b <=? 64 - Z.of_nat a
          then write_bits s (Z.of_nat a + Z.of_nat b) (Z.lor (shl64 header (Z.of_nat b)) payload)
          else write_bits (write_bits s (Z.of_nat a) header) (Z.of_nat b) payload)
    (bits ++ bits_be a header ++ bits_be b payload).
Proof.
  intros Hrep Ha Hb Hp. destruct (Z.leb_spec (Z.of_nat b) (64 - Z.of_nat a)).
  - rewrite <- Nat2Z.inj_add, <- bits_be_join by lia. apply write_bits_rep; [done|lia].
  - rewrite app_assoc. by apply write_bits_rep; [apply write_bits_rep|].
Qed.

Lemma xor_header_bits l e :
  0 <= l < 32 -> 0 <= e < 64 ->
  bits_be 13 (Z.lor (Z.lor (shl64 3 11) (shl64 l 6)) e) = [true; true] ++ bits_be 5 l ++ bits_be 6 e.
Proof.
  intros Hl He.
  assert (Z.lor (shl64 3 11) (shl64 l 6) = shl64 (Z.lor (shl64 3 5) l) 6) as ->.
  { change (shl64 3 5) with 96. change (shl64 3 11) with (Z.shiftl 96 6). unfold shl64.
    assert (0 <= Z.lor 96 l < 2 ^ 7) by (apply lor_range; lia).
    rewrite !wrap_u64_id by (rewrite Z.shiftl_mul_pow2 by lia; ilia).
    by rewrite Z.shiftl_lor. }
  pose proof (bits_be_join 7 6 (Z.lor (shl64 3 5) l) e ltac:(lia) ltac:(cbn; lia)) as H1.
  pose proof (bits_be_join 2 5 3 l ltac:(lia) ltac:(cbn; lia)) as H2.
  change (bits_be 13 (Z.lor (shl64 (Z.lor (shl64 3 5) l) 6) e) =
    bits_be 7 (Z.lor (shl64 3 5) l) ++ bits_be 6 e) in H1.
  change (bits_be 7 (Z.lor (shl64 3 5) l) = [true; true] ++ bits_be 5 l) in H2.
  by rewrite H1, H2, <- app_assoc.
Qed.

Lemma clamp_eq d : (if 32 <=? leading_zeros d then 31 else leading_zeros d) = clamped_leading d.
Proof. unfold clamped_leading. destruct (Z.leb_spec 32 (leading_zeros d)); lia. Qed.

Lemma bits_be_sig sig : 0 < sig <= 64 -> bits_be 6 (if 63 <? sig then 0 else sig) = bits_be 6 sig.
Proof.
  intros H. destruct (Z.ltb_spec 63 sig); [|done]. by replace sig with 64 by lia.
Qed.

Lemma write_varbit_xor_rep s bits v p l t rl rt :
  bs_rep s bits -> is_u64 v -> is_u64 p -> window_rel l t rl rt ->
  let d := Z.lxor v p in
  exists s', write_varbit_xor v p l t s = (s', (xor_window d l t).1, (xor_window d l t).2) /\
             bs_rep s' (bits ++ xor_code d l t).
Proof.
  intros Hrep Hv Hp Hw d. unfold write_varbit_xor, xor_window, xor_code. cbv zeta. fold d.
  assert (0 <= d < 2 ^ 64) as Hd by (by apply lxor_range).
  destruct (Z.eqb_spec d 0) as [|Hd0]; cbn [orb].
  { eexists. split; [done|]. by apply write_bit_rep. }
  rewrite clamp_eq. fold (reuses d l t). destruct (reuses d l t) eqn:Hr; cbn [fst snd].
  - assert (window_holds d l t) as Hh.
    { apply reused_window_holds; [lia| |done]. destruct Hw as [(-> & _)|(_ & _ & Hok)]; done. }
    pose proof Hh as (? & ? & ? & _). eexists. split; [done|].
    apply window_payload_bound in Hh. unfold window_payload.
    pose proof (write_header_payload_rep s bits 2 (Z.to_nat (64 - l - t)) 2 (shr64 d t) Hrep
      ltac:(lia) ltac:(lia) Hh) as H'. rewrite Z2Nat.id in H' by lia. exact H'.
  - pose proof (new_window_holds d ltac:(lia)) as Hh. set (nl := clamped_leading d) in *.
    set (nt := trailing_zeros d) in *. assert (nl <= 31) by (subst nl; unfold clamped_leading; lia).
    pose proof Hh as (? & ? & ? & _). eexists. split; [done|].
    apply window_payload_bound in Hh. unfold window_payload.
    rewrite <- (bits_be_sig (64 - nl - nt)) by lia.
    set (e := if 63 <? 64 - nl - nt then 0 else 64 - nl - nt).
    assert (0 <= e < 64) by (subst e; destruct (Z.ltb_spec 63 (64 - nl - nt)); lia).
    pose proof (write_header_payload_rep s bits 13 (Z.to_nat (64 - nl - nt))
      (Z.lor (Z.lor (shl64 3 11) (shl64 nl 6)) e) (shr64 d nt) Hrep
      ltac:(lia) ltac:(lia) Hh) as H'. rewrite Z2Nat.id, xor_header_bits, <- !app_assoc in H' by lia.
    exact H'.
Qed.

(** *** Reading *)

(** Shifting the payload back and xor-ing restores the value. *)
Lemma window_payload_back v p l t :
  window_holds (Z.lxor v p) l t -> is_u64 v -> is_u64 p ->
  Z.lxor p (shl64 (shr64 (Z.lxor v p) t mod 2 ^ Z.of_nat (Z.to_nat (64 - l - t))) t) = v.
Proof.
  intros Hh Hv Hp. rewrite Z.mod_small by (by apply window_payload_bound).
  destruct Hh as (? & Ht & ? & Hd & [q Hq]). unfold shl64, shr64.
  rewrite Z.shiftl_mul_pow2, Z.shiftr_div_pow2, Hq, Z.div_mul, <- Hq by lia.
  rewrite wrap_u64_id by (by apply lxor_range).
  by rewrite (Z.lxor_comm v), <- Z.lxor_assoc, Z.lxor_nilpotent, Z.lxor_0_l.
Qed.

Lemma read_leading_app r l rest :
  0 <= l <= 31 -> rd_rep r (bits_be 5 l ++ rest) ->
  exists r', read_leading_bits_count r = Ok (l, r') /\ rd_rep r' rest.
Proof.
  intros Hl Hrep. destruct (read_bits_app r 5 _ _ Hrep ltac:(lia)) as (r' & E & H).
  exists r'. split; [|done]. unfold read_leading_bits_count.
  change (read_bits r 5) with (read_bits r (Z.of_nat 5)). rewrite E.
  by rewrite Z.mod_small, wrap_u8_id by (cbn; ilia).
Qed.

(** Six bits hold 1..63; zero stands for 64. *)
Lemma read_middle_app r sig rest :
  0 < sig <= 64 -> rd_rep r (bits_be 6 sig ++ rest) ->
  exists r', read_middle_bits_count r = Ok (sig, r') /\ rd_rep r' rest.
Proof.
  intros Hs Hrep. destruct (read_bits_app r 6 _ _ Hrep ltac:(lia)) as (r' & E & H).
  exists r'. split; [|done]. unfold read_middle_bits_count.
  change (read_bits r 6) with (read_bits r (Z.of_nat 6)). rewrite E.
  destruct (Z.eq_dec sig 64) as [->|]; [done|].
  rewrite Z.mod_small, wrap_u8_id by (cbn; ilia). destruct (Z.eqb_spec sig 0); [lia|done].
Qed.

(** The reader, given the writer's code for [v] after [p], returns [v], moves
    past it, and has the writer's next window. *)
Lemma read_varbit_xor_app r v p l t rl rt rest :
  is_u64 v -> is_u64 p -> window_rel l t rl rt ->
  rd_rep r (xor_code (Z.lxor v p) l t ++ rest) ->
  exists r' rl' rt', read_varbit_xor r p rl rt = Ok (v, rl', rt', r') /\ rd_rep r' rest /\
    window_rel (xor_window (Z.lxor v p) l t).1 (xor_window (Z.lxor v p) l t).2 rl' rt'.
Proof.
  intros Hv Hp Hw Hrep. set (d := Z.lxor v p) in *.
  assert (0 <= d < 2 ^ 64) as Hd by (by apply lxor_range).
  unfold xor_code, xor_window in *. unfold read_varbit_xor.
  destruct (Z.eqb_spec d 0) as [Hd0|Hd0]; cbn [orb].
  { cbn [app] in Hrep. destruct (read_bit_app _ _ _ Hrep) as (r' & -> & Hr').
    apply Z.lxor_eq in Hd0 as ->. eauto 10. }
  destruct (reuses d l t) eqn:Hr; cbn [app] in Hrep;
    destruct (read_bit_app _ _ _ Hrep) as (r1 & -> & Hr1); cbn [negb fst snd];
    destruct (read_bit_app _ _ _ Hr1) as (r2 & -> & Hr2).
  - destruct Hw as [(-> & _)|(<- & <- & Hok)]; [done|].
    pose proof (reused_window_holds d l t ltac:(lia) Hok Hr) as Hh.
    unfold window_payload in Hr2. pose proof Hh as (? & ? & ? & _).
    destruct (read_bits_app _ _ _ _ Hr2 ltac:(lia)) as (r3 & E3 & Hr3).
    rewrite Z2Nat.id in E3 at 1 by lia. rewrite E3. subst d. rewrite window_payload_back by done.
    do 3 eexists. split; [done|]. split; [done|]. right. done.
  - pose proof (new_window_holds d ltac:(lia)) as Hh.
    pose proof (new_window_ok d ltac:(lia)) as Hok. rewrite <- !app_assoc in Hr2.
    set (nl := clamped_leading d) in *. set (nt := trailing_zeros d) in *.
    pose proof Hok as (? & ? & ?).
    destruct (read_leading_app _ nl _ ltac:(lia) Hr2) as (r3 & -> & Hr3).
    destruct (read_middle_app _ (64 - nl - nt) _ ltac:(lia) Hr3) as (r4 & -> & Hr4).
    destruct (Z.ltb_spec 64 (nl + (64 - nl - nt))); [lia|].
    replace (64 - nl - (64 - nl - nt)) with nt by lia. unfold window_payload in Hr4.
    destruct (read_bits_app _ _ _ _ Hr4 ltac:(lia)) as (r5 & E5 & Hr5).
    rewrite Z2Nat.id in E5 at 1 by lia. rewrite E5. subst d. rewrite window_payload_back by done.
    do 3 eexists. split; [done|]. split; [done|]. right. done.
Qed.

Lemma window_rel_init : window_rel 0xff 0 0 0.
Proof. by left. Qed.

#[export] Hint Resolve window_rel_init : tsdb.
