(* ===== verification/Gorilla.v ===== *)
(** * Gorilla: the streaming encoder and its iterator

    Models [src/series/chunks/gorilla/gorilla_encoder.rs] and
    [gorilla_iterator.rs].  [enc_rep e l] says that an encoder holds the samples
    [l]: its stream is [stream_code l] and its rolling state is the one the next
    sample starts from.  [it_rep it rest] says that an iterator still has [rest]
    to yield.  Appending and iterating preserve them, which gives the round trip
    for every list of samples the encoder accepts. *)

From stdpp Require Import strings.
From S2P Require Import Prelude Float64 Types Content Encoding BitStream BitReader Varbit VarbitXor.

Record GorillaEncoder := mkGorillaEncoder {
  writer : BitStream;
  leading_bits : Z;      (* u8 *)
  trailing_bits : Z;     (* u8 *)
  timestamp_delta : Z;   (* i64 *)
  num_samples : Z;       (* usize *)
  first_ts : Z;
  last_ts : Z;
  last_value : f64;
}.

Definition gorilla_new : GorillaEncoder := mkGorillaEncoder bs_new 0 0 0 0 0 0 f64_zero.

Definition gorilla_clear (e : GorillaEncoder) : GorillaEncoder :=
  mkGorillaEncoder (bs_clear (writer e)) 0 0 0 0 0 0 f64_zero.

Definition gorilla_set_soft_cap (e : GorillaEncoder) (max_size : Z) : GorillaEncoder :=
  mkGorillaEncoder (set_soft_cap (writer e) max_size) (leading_bits e) (trailing_bits e)
    (timestamp_delta e) (num_samples e) (first_ts e) (last_ts e) (last_value e).

Definition gorilla_with_soft_cap (max_size : Z) : GorillaEncoder :=
  gorilla_set_soft_cap gorilla_new max_size.

(** ** Appending

    An error leaves the encoder as it was: the order check comes before any
    write, and the bit stream's writers do not fail. *)

Definition write_first_sample (e : GorillaEncoder) (s : Sample) : IoResult GorillaEncoder :=
  let w := bs_write_f64 (bs_write_varint (writer e) (timestamp s)) (value s) in
  Ok (mkGorillaEncoder w (leading_bits e) (trailing_bits e) (timestamp_delta e)
        (num_samples e + 1) (timestamp s) (timestamp s) (value s)).

Definition write_second_sample (e : GorillaEncoder) (s : Sample) : IoResult GorillaEncoder :=
  let delta := wrap_i64 (timestamp s - last_ts e) in
  if delta <? 0 then Err InvalidData
  else
    let w := bs_write_uvarint (writer e) (wrap_u64 delta) in
    let '(w, leading, trailing) := write_varbit_xor (value s) (last_value e) 0xff 0 w in
    Ok (mkGorillaEncoder w leading trailing delta
          (num_samples e + 1) (first_ts e) (timestamp s) (value s)).

Definition write_nth_sample (e : GorillaEncoder) (s : Sample) : IoResult GorillaEncoder :=
  let delta := wrap_i64 (timestamp s - last_ts e) in
  if delta <? 0 then Err InvalidData
  else
    let delta_of_delta := wrap_i64 (delta - timestamp_delta e) in
    let w := write_varbit (writer e) delta_of_delta in
    let '(w, leading, trailing) :=
      write_varbit_xor (value s) (last_value e) (leading_bits e) (trailing_bits e) w in
    Ok (mkGorillaEncoder w leading trailing delta
          (num_samples e + 1) (first_ts e) (timestamp s) (value s)).

Definition gorilla_add_sample (e : GorillaEncoder) (s : Sample) : IoResult GorillaEncoder :=
  if num_samples e =? 0 then write_first_sample e s
  else if num_samples e =? 1 then write_second_sample e s
  else write_nth_sample e s.

(** ** Iterating

    Every caller stops at the first error, so the state after one is not kept. *)

Record GorillaIterator := mkGorillaIterator {
  it_reader : BitReader;
  it_idx : Z;
  it_num_samples : Z;
  it_leading : Z;
  it_trailing : Z;
  it_delta : Z;              (* u64 *)
  it_timestamp : Z;
  it_value : f64;
  it_last_timestamp : Z;
  it_last_value : f64;
  it_last_idx : Z;
}.

Definition gorilla_iter (e : GorillaEncoder) : GorillaIterator :=
  mkGorillaIterator (rd_new (stream (writer e))) 0 (num_samples e) 0 0 0 0 f64_zero
    (last_ts e) (last_value e) (sat_usize_sub (num_samples e) 1).

Definition decoding_error {A} (what : string) (r : IoResult A) : TsdbResult A :=
  map_err (fun _ => DecodingError what) r.

(** The iterator after one more sample. *)
Definition it_advance (it : GorillaIterator) (r : BitReader) (leading trailing delta ts : Z)
    (v : f64) : GorillaIterator :=
  mkGorillaIterator r (it_idx it + 1) (it_num_samples it) leading trailing delta ts v
    (it_last_timestamp it) (it_last_value it) (it_last_idx it).

Definition read_first_sample (it : GorillaIterator) : TsdbResult (Sample * GorillaIterator) :=
  let? (ts, r) := decoding_error "Error decoding timestamp" (read_varint (it_reader it)) in
  let? (v, r) := decoding_error "Error decoding value" (read_f64 r) in
  Ok (mkSample ts v, it_advance it r (it_leading it) (it_trailing it) (it_delta it) ts v).

Definition it_read_value (it : GorillaIterator) (r : BitReader)
    : TsdbResult (f64 * Z * Z * BitReader) :=
  decoding_error "Error reading value"
    (read_varbit_xor r (it_value it) (it_leading it) (it_trailing it)).

Definition read_second_sample (it : GorillaIterator) : TsdbResult (Sample * GorillaIterator) :=
  let? (delta, r) := decoding_error "Eof reading delta-of-delta" (read_uvarint (it_reader it)) in
  let? (v, leading, trailing, r) := it_read_value it r in
  if i64_MAX <? delta then Err (DecodingError "Timestamp delta too large")
  else
    let ts := wrap_i64 (it_timestamp it + delta) in
    Ok (mkSample ts v, it_advance it r leading trailing delta ts v).

Definition read_nth_sample (it : GorillaIterator) : TsdbResult (Sample * GorillaIterator) :=
  let? (dod, r) := decoding_error "XOR encoder" (read_varbit_int (it_reader it)) in
  let? (v, leading, trailing, r) := it_read_value it r in
  let delta := wrap_u64 (wrap_i64 (wrap_i64 (it_delta it) + dod)) in
  let ts := wrap_i64 (it_timestamp it + wrap_i64 delta) in
  Ok (mkSample ts v, it_advance it r leading trailing delta ts v).

Definition read_last_sample (it : GorillaIterator) : TsdbResult (Sample * GorillaIterator) :=
  Ok (mkSample (it_last_timestamp it) (it_last_value it),
      it_advance it (it_reader it) (it_leading it) (it_trailing it) (it_delta it)
        (it_timestamp it) (it_value it)).

Definition gorilla_next (it : GorillaIterator) : option (TsdbResult (Sample * GorillaIterator)) :=
  if it_num_samples it <=? it_idx it then None
  else Some
    (if it_idx it =? 0 then read_first_sample it
     else if it_idx it =? 1 then read_second_sample it
     else if it_idx it =? it_last_idx it then read_last_sample it
     else read_nth_sample it).

(** [for item in iter { let sample = item?; a = f(a, sample)?; }]: each step
    yields one of the [num_samples - idx] samples left, so that many steps are
    all there are. *)
Fixpoint gorilla_fold_loop {A} (fuel : nat) (it : GorillaIterator)
    (f : A -> Sample -> TsdbResult A) (a : A) : TsdbResult A :=
  match fuel with
  | O => Ok a
  | S fuel' =>
      match gorilla_next it with
      | None => Ok a
      | Some (Err e) => Err e
      | Some (Ok (s, it)) => let? a := f a s in gorilla_fold_loop fuel' it f a
      end
  end.

Definition gorilla_fold {A} (it : GorillaIterator) (f : A -> Sample -> TsdbResult A) (a : A) :=
  gorilla_fold_loop (Z.to_nat (it_num_samples it - it_idx it)) it f a.

(** ** Persistence *)

Definition read_unsigned_varint (buf : list Z) : TsdbResult (Z * list Z) :=
  map_err (fun _ => ChunkDecoding) (try_read_uvarint buf).

Definition read_timestamp (buf : list Z) : TsdbResult (Z * list Z) :=
  let? (v, buf) := read_unsigned_varint buf in Ok (wrap_i64 v, buf).

Definition gorilla_serialize (e : GorillaEncoder) (buf : list Z) : list Z :=
  let buf := write_uvarint buf (num_samples e) in
  let buf := write_uvarint buf (wrap_u64 (first_ts e)) in
  let buf := write_uvarint buf (wrap_u64 (last_ts e)) in
  let buf := write_f64_le buf (last_value e) in
  let buf := write_uvarint buf (wrap_u64 (timestamp_delta e)) in
  bs_serialize (writer e) (buf ++ [leading_bits e] ++ [trailing_bits e]).

Definition gorilla_deserialize (buf : list Z) : TsdbResult GorillaEncoder :=
  let? (num_samples, buf) := read_unsigned_varint buf in
  let? (first_ts, buf) := read_timestamp buf in
  let? (last_ts, buf) := read_timestamp buf in
  let? (last_value, buf) := map_err (fun _ => ChunkDecoding) (try_read_f64_le buf) in
  let? (delta, buf) := read_unsigned_varint buf in
  match buf with
  | leading :: trailing :: buf =>
      let? (w, buf) := map_err (fun _ => ChunkDecoding) (bs_deserialize buf) in
      Ok (mkGorillaEncoder w leading trailing (wrap_i64 delta) num_samples first_ts last_ts last_value)
  | _ => Err ChunkDecoding
  end.

(** ** The format *)

(** What the encoder knows after a sample: the sample, the delta that led to
    it and the xor window. *)
Record gst := mkGst { g_last : Sample; g_delta : Z; g_window : Z * Z }.

Definition first_code (s : Sample) : list bool :=
  bytes_bits (write_signed_varint [] (timestamp s)) ++ bits_be 64 (value s).

Definition second_code (p s : Sample) : list bool :=
  bytes_bits (write_uvarint [] (timestamp s - timestamp p)) ++
  xor_code (Z.lxor (value s) (value p)) 0xff 0.

Definition second_st (p s : Sample) : gst :=
  mkGst s (timestamp s - timestamp p) (xor_window (Z.lxor (value s) (value p)) 0xff 0).

Definition sample_code (st : gst) (s : Sample) : list bool :=
  varbit_code (timestamp s - timestamp (g_last st) - g_delta st) ++
  xor_code (Z.lxor (value s) (value (g_last st))) (g_window st).1 (g_window st).2.

Definition next_st (st : gst) (s : Sample) : gst :=
  mkGst s (timestamp s - timestamp (g_last st))
    (xor_window (Z.lxor (value s) (value (g_last st))) (g_window st).1 (g_window st).2).

Fixpoint tail_code (st : gst) (l : list Sample) : list bool :=
  match l with
  | [] => []
  | s :: l' => sample_code st s ++ tail_code (next_st st s) l'
  end.

Definition stream_code (l : list Sample) : list bool :=
  match l with
  | [] => []
  | [s] => first_code s
  | p :: s :: l' => first_code p ++ second_code p s ++ tail_code (second_st p s) l'
  end.

Definition final_st (l : list Sample) : option gst :=
  match l with
  | p :: s :: l' => Some (foldl next_st (second_st p s) l')
  | _ => None
  end.

#[global] Arguments first_code : simpl never.
#[global] Arguments second_code : simpl never.
#[global] Arguments sample_code : simpl never.

(** Consecutive timestamps never decrease, by less than [2^63]. *)
Definition gap_ok (a b : Sample) : Prop := 0 <= timestamp b - timestamp a < 2 ^ 63.

Fixpoint gaps_ok (l : list Sample) : Prop :=
  match l with
  | a :: (b :: _) as l' => gap_ok a b /\ gaps_ok l'
  | _ => True
  end.

Definition enc_rep (e : GorillaEncoder) (l : list Sample) : Prop :=
  Forall sample_ok l /\ gaps_ok l /\
  num_samples e = Z.of_nat (length l) /\
  bs_rep (writer e) (stream_code l) /\
  first_ts e = (match l with s :: _ => timestamp s | [] => 0 end) /\
  (match list.last l with
   | Some s => last_ts e = timestamp s /\ last_value e = value s
   | None => last_ts e = 0 /\ last_value e = f64_zero
   end) /\
  (match final_st l with
   | Some st => timestamp_delta e = g_delta st /\
                leading_bits e = (g_window st).1 /\ trailing_bits e = (g_window st).2
   | None => timestamp_delta e = 0 /\ leading_bits e = 0 /\ trailing_bits e = 0
   end).

(** *** Lists of samples *)

Lemma tail_code_app st l1 l2 :
  tail_code st (l1 ++ l2) = tail_code st l1 ++ tail_code (foldl next_st st l1) l2.
Proof.
  revert st. induction l1 as [|s l1 IH]; intros st; [done|].
  cbn [app tail_code foldl]. by rewrite IH, app_assoc.
Qed.

Lemma gaps_ok_snoc l x :
  gaps_ok (l ++ [x]) <-> gaps_ok l /\ (forall a, list.last l = Some a -> gap_ok a x).
Proof.
  induction l as [|y l IH]; [split; [by split|done]|].
  destruct l as [|z l].
  - cbn. split.
    + intros [H _]. split; [done|]. by intros a [= <-].
    + intros [_ H]. split; [by apply H|done].
  - change (gaps_ok ((y :: z :: l) ++ [x])) with (gap_ok y z /\ gaps_ok ((z :: l) ++ [x])).
    change (gaps_ok (y :: z :: l)) with (gap_ok y z /\ gaps_ok (z :: l)).
    change (list.last (y :: z :: l)) with (list.last (z :: l)). rewrite IH. tauto.
Qed.

Lemma gaps_ok_cons a l : gaps_ok (a :: l) -> gaps_ok l.
Proof. destruct l; [done|]. cbn. tauto. Qed.

Lemma g_last_final p s l : list.last (p :: s :: l) = Some (g_last (foldl next_st (second_st p s) l)).
Proof.
  destruct l as [|x l _] using rev_ind; [done|].
  change (p :: s :: l ++ [x]) with ((p :: s :: l) ++ [x]). rewrite last_snoc, foldl_app. done.
Qed.

Lemma window_after d l t rl rt :
  window_rel l t rl rt -> 0 <= d < 2 ^ 64 ->
  exists rl' rt', window_rel (xor_window d l t).1 (xor_window d l t).2 rl' rt'.
Proof.
  intros Hw Hd. unfold xor_window. destruct (Z.eqb_spec d 0); cbn [orb]; [by eauto|].
  destruct (reuses d l t); [by eauto|]. do 2 eexists. right.
  split; [done|]. split; [done|]. apply new_window_ok. lia.
Qed.

Lemma final_sample_ok p s l :
  Forall sample_ok (p :: s :: l) -> sample_ok (g_last (foldl next_st (second_st p s) l)).
Proof.
  intros H. eapply Forall_forall; [exact H|]. apply list_elem_of_In.
  pose proof (g_last_final p s l) as Hl. apply last_Some in Hl as [l' ->].
  apply in_or_app. right. by left.
Qed.

Lemma final_st_spec l st :
  Forall sample_ok l -> gaps_ok l -> final_st l = Some st ->
  0 <= g_delta st < 2 ^ 63 /\
  exists rl rt, window_rel (g_window st).1 (g_window st).2 rl rt.
Proof.
  destruct l as [|p [|s l]]; [done..|]. intros Hok Hg [= <-].
  induction l as [|x l IH] using rev_ind.
  - cbn in *. split; [apply Hg|].
    inversion_clear Hok as [|? ? [_ Hp] Hok']. inversion_clear Hok' as [|? ? [_ Hs] _].
    eapply window_after; [apply window_rel_init|by apply lxor_range].
  - rewrite foldl_app. cbn [foldl next_st g_delta g_window].
    change (p :: s :: l ++ [x]) with ((p :: s :: l) ++ [x]) in Hok, Hg.
    apply Forall_app in Hok as [Hl [[_ Hx] _]%Forall_cons]. apply gaps_ok_snoc in Hg as [Hg Hgx].
    destruct (IH Hl Hg) as (_ & rl & rt & Hw).
    split; [apply Hgx, g_last_final|]. eapply window_after; [exact Hw|].
    apply lxor_range; [done|done|]. by apply final_sample_ok.
Qed.

(** ** Size: at most 160 bits a sample *)

Lemma length_first_code s : (length (first_code s) <= 160)%nat.
Proof.
  unfold first_code. rewrite length_app, length_bytes_bits, length_bits_be.
  pose proof (length_write_signed_varint (timestamp s)). lia.
Qed.

Lemma length_second_code p s : sample_ok p -> sample_ok s -> (length (second_code p s) <= 160)%nat.
Proof.
  intros [_ Hp] [_ Hs]. unfold second_code. rewrite length_app, length_bytes_bits.
  pose proof (length_write_uvarint (timestamp s - timestamp p)).
  pose proof (length_xor_code (Z.lxor (value s) (value p)) 0xff 0 0 0 window_rel_init
    ltac:(by apply lxor_range)). lia.
Qed.

Lemma length_tail_code st l rl rt :
  window_rel (g_window st).1 (g_window st).2 rl rt -> sample_ok (g_last st) -> Forall sample_ok l ->
  (length (tail_code st l) <= 160 * length l)%nat.
Proof.
  intros Hw Hst Hl. revert st rl rt Hw Hst. induction Hl as [|s l Hs Hl IH]; intros st rl rt Hw Hst; [done|].
  assert (0 <= Z.lxor (value s) (value (g_last st)) < 2 ^ 64) as Hd by (apply lxor_range; [done|apply Hs|apply Hst]).
  destruct (window_after _ _ _ _ _ Hw Hd) as (rl' & rt' & Hw').
  specialize (IH (next_st st s) rl' rt' Hw' Hs). cbn [tail_code length]. rewrite length_app. unfold sample_code.
  rewrite length_app. pose proof (length_xor_code _ _ _ _ _ Hw Hd).
  pose proof (length_varbit_code (timestamp s - timestamp (g_last st) - g_delta st)). lia.
Qed.

Lemma length_stream_code l : Forall sample_ok l -> (length (stream_code l) <= 160 * length l)%nat.
Proof.
  destruct l as [|p [|s l]]; [done|intros _; pose proof (length_first_code p); cbn; lia|].
  intros (Hp & (Hs & Hl)%Forall_cons)%Forall_cons. cbn [stream_code]. rewrite !length_app. cbn [length].
  pose proof (length_first_code p). pose proof (length_second_code p s Hp Hs).
  destruct (window_after (Z.lxor (value s) (value p)) 0xff 0 0 0 window_rel_init) as (rl & rt & Hw);
    [apply lxor_range; [done|apply Hs|apply Hp]|].
  pose proof (length_tail_code (second_st p s) l rl rt Hw Hs Hl). lia.
Qed.

Lemma enc_rep_bytes e l : enc_rep e l -> (length (stream (writer e)) <= 20 * length l)%nat.
Proof.
  intros (Hok & _ & _ & Hw & _). apply (bs_rep_bytes _ _ _ Hw). pose proof (length_stream_code l Hok). lia.
Qed.

(** ** Appending *)

Lemma enc_new_rep : enc_rep gorilla_new [].
Proof. unfold enc_rep. cbn. split_and!; auto with tsdb. Qed.

Lemma enc_set_soft_cap_rep e l c : enc_rep e l -> enc_rep (gorilla_set_soft_cap e c) l.
Proof. done. Qed.

Lemma enc_with_soft_cap_rep c : enc_rep (gorilla_with_soft_cap c) [].
Proof. apply enc_set_soft_cap_rep, enc_new_rep. Qed.

Lemma enc_clear_rep e : enc_rep (gorilla_clear e) [].
Proof. unfold enc_rep. cbn. split_and!; done. Qed.

Lemma gap_delta a b :
  sample_ok a -> sample_ok b -> gap_ok a b ->
  wrap_i64 (timestamp b - timestamp a) = timestamp b - timestamp a /\
  wrap_u64 (timestamp b - timestamp a) = timestamp b - timestamp a.
Proof.
  unfold gap_ok. intros _ _ H. split; [apply wrap_i64_id|apply wrap_u64_id]; ilia.
Qed.

(** The second and later samples share their shape: order check, timestamp
    code, value code. *)
Lemma write_second_rep e p s :
  enc_rep e [p] -> sample_ok s -> gap_ok p s ->
  exists e', write_second_sample e s = Ok e' /\ enc_rep e' [p; s].
Proof.
  intros (Hok & Hg & Hn & Hw & Hf & [Hl1 Hl2] & Hst) Hs Hgap. cbn in Hl1, Hl2, Hf.
  apply Forall_cons in Hok as [Hp _]. unfold write_second_sample. rewrite Hl1, Hl2.
  destruct (gap_delta p s Hp Hs Hgap) as [-> ->].
  destruct (Z.ltb_spec (timestamp s - timestamp p) 0); [unfold gap_ok in Hgap; lia|].
  destruct Hs as [Hs1 Hs2]. destruct Hp as [Hp1 Hp2].
  destruct (write_varbit_xor_rep _ _ (value s) (value p) _ _ _ _
    (bs_write_uvarint_rep _ _ (timestamp s - timestamp p) Hw) Hs2 Hp2 window_rel_init)
    as (w & -> & Hw').
  eexists. split; [done|]. unfold enc_rep. cbn in *. split_and!; try done; try lia.
  - by fora.
  - unfold second_code. by rewrite app_nil_r, app_assoc.
Qed.

Lemma write_nth_rep e p q l s :
  enc_rep e (p :: q :: l) -> sample_ok s -> gap_ok (g_last (foldl next_st (second_st p q) l)) s ->
  exists e', write_nth_sample e s = Ok e' /\ enc_rep e' ((p :: q :: l) ++ [s]).
Proof.
  intros (Hok & Hg & Hn & Hw & Hf & Hl & Hst) Hs Hgap.
  rewrite g_last_final in Hl. destruct Hl as [Hl1 Hl2].
  pose proof (final_sample_ok p q l Hok) as Hlast.
  destruct (final_st_spec (p :: q :: l) _ Hok Hg eq_refl) as (Hdelta & rl & rt & Hwin).
  cbn [final_st] in Hst. set (st := foldl next_st (second_st p q) l) in *.
  destruct Hst as (Hd & Hlead & Htrail).
  unfold write_nth_sample. rewrite Hl1, Hl2, Hd, Hlead, Htrail.
  destruct (gap_delta _ _ Hlast Hs Hgap) as [-> _]. unfold gap_ok in Hgap.
  destruct (Z.ltb_spec (timestamp s - timestamp (g_last st)) 0); [lia|].
  rewrite wrap_i64_id by ilia. pose proof Hs as [_ Hs2]. pose proof Hlast as [_ Hp2].
  destruct (write_varbit_xor_rep _ _ (value s) (value (g_last st)) _ _ _ _
    (write_varbit_rep _ _ (timestamp s - timestamp (g_last st) - g_delta st) Hw) Hs2 Hp2 Hwin)
    as (w & -> & Hw').
  eexists. split; [done|]. unfold enc_rep. split_and!.
  - apply Forall_app. split; [done|]. by fora.
  - apply gaps_ok_snoc. split; [done|]. intros a. rewrite g_last_final. by intros [= <-].
  - cbn [num_samples]. rewrite length_app, Hn. cbn [length]. lia.
  - cbn [app stream_code writer]. rewrite tail_code_app. fold st. cbn [tail_code].
    unfold sample_code. cbn [stream_code] in Hw'. rewrite app_nil_r.
    rewrite <- ?app_assoc in Hw'. rewrite <- ?app_assoc. exact Hw'.
  - done.
  - rewrite last_snoc. done.
  - cbn [app final_st]. rewrite foldl_app. done.
Qed.

(** Appending a sample that is not older than the last one. *)
Lemma enc_add_rep e l s :
  enc_rep e l -> sample_ok s -> (forall a, list.last l = Some a -> gap_ok a s) ->
  exists e', gorilla_add_sample e s = Ok e' /\ enc_rep e' (l ++ [s]).
Proof.
  intros Hrep Hs Hgap. pose proof Hrep as (Hok & Hg & Hn & Hw & Hf & Hl & Hst).
  unfold gorilla_add_sample. rewrite Hn. destruct l as [|p [|q l]].
  - cbn. eexists. split; [done|]. unfold enc_rep. cbn in *. split_and!; try done; try lia; try tauto.
    + by fora.
    + by apply bs_write_u64_rep, (bs_write_varint_rep _ []).
  - cbn. apply write_second_rep; [done|done|]. by apply Hgap.
  - cbn [length]. destruct (Z.eqb_spec (Z.of_nat (S (S (length l)))) 0); [lia|].
    destruct (Z.eqb_spec (Z.of_nat (S (S (length l)))) 1); [lia|].
    apply write_nth_rep; [done|done|]. by apply Hgap, g_last_final.
Qed.

(** Going back in time is refused. *)
Lemma enc_add_unsorted e l a s :
  enc_rep e l -> list.last l = Some a ->
  - 2 ^ 63 <= timestamp s - timestamp a < 0 ->
  gorilla_add_sample e s = Err InvalidData.
Proof.
  intros (Hok & Hg & Hn & Hw & Hf & Hl & Hst) Ha Hlt. rewrite Ha in Hl. destruct Hl as [Hl1 Hl2].
  assert ((wrap_i64 (timestamp s - last_ts e) <? 0) = true) as E.
  { rewrite Hl1, wrap_i64_id by ilia. apply Z.ltb_lt. lia. }
  unfold gorilla_add_sample. destruct l as [|x l]; [done|].
  destruct (Z.eqb_spec (num_samples e) 0); [cbn in *; lia|].
  unfold write_second_sample, write_nth_sample. rewrite E. by destruct (num_samples e =? 1).
Qed.

(** ** Iterating *)

(** The code of the samples left, given how many were yielded. *)
Definition rest_code (it : GorillaIterator) (rest : list Sample) (bits : list bool) : Prop :=
  let prev := mkSample (it_timestamp it) (it_value it) in
  if it_idx it =? 0 then
    bits = stream_code rest /\ gaps_ok rest /\ it_leading it = 0 /\ it_trailing it = 0
  else if it_idx it =? 1 then
    (match rest with
     | [] => True
     | s :: rest' => bits = second_code prev s ++ tail_code (second_st prev s) rest'
     end) /\ sample_ok prev /\ gaps_ok (prev :: rest) /\ it_leading it = 0 /\ it_trailing it = 0
  else
    exists wl wt, window_rel wl wt (it_leading it) (it_trailing it) /\
      bits = tail_code (mkGst prev (it_delta it) (wl, wt)) rest /\
      0 <= it_delta it < 2 ^ 63 /\ sample_ok prev /\ gaps_ok (prev :: rest).

Definition it_rep (it : GorillaIterator) (rest : list Sample) : Prop :=
  Forall sample_ok rest /\ 0 <= it_idx it /\
  it_idx it + Z.of_nat (length rest) = it_num_samples it /\
  it_last_idx it = sat_usize_sub (it_num_samples it) 1 /\
  (rest <> [] ->
   list.last rest = Some (mkSample (it_last_timestamp it) (it_last_value it)) /\
   exists bits pad, rd_rep (it_reader it) (bits ++ pad) /\ rest_code it rest bits).

Lemma gorilla_iter_rep e l : enc_rep e l -> it_rep (gorilla_iter e) l.
Proof.
  intros (Hok & Hg & Hn & Hw & Hf & Hl & Hst). unfold it_rep, gorilla_iter.
  cbn [it_idx it_num_samples it_last_idx it_last_timestamp it_last_value it_reader].
  split_and!; [done|done|lia|done|]. intros Hne. split.
  - destruct (list.last l) as [[t v]|] eqn:E; [by destruct Hl as [-> ->]|].
    apply last_None in E. done.
  - eexists _, _. split; [by apply rd_new_bs_rep|]. unfold rest_code. cbn. done.
Qed.

Lemma last_cons_ne (s : Sample) l : l <> [] -> list.last (s :: l) = list.last l.
Proof. by destruct l. Qed.

(** What stays true of the bookkeeping when one sample is yielded. *)
Lemma it_advance_rep it s rest r leading trailing delta bits pad :
  it_rep it (s :: rest) ->
  rd_rep r (bits ++ pad) ->
  rest_code (it_advance it r leading trailing delta (timestamp s) (value s)) rest bits ->
  it_rep (it_advance it r leading trailing delta (timestamp s) (value s)) rest.
Proof.
  intros (Hok & Hi & Hn & Hli & Hrest) Hrd Hcode. unfold it_rep.
  cbn [it_advance it_idx it_num_samples it_last_idx it_last_timestamp it_last_value it_reader].
  apply Forall_cons in Hok as [_ Hok]. cbn [length] in Hn. split_and!; [done|lia|lia|done|].
  intros Hne. destruct (Hrest ltac:(done)) as [Hl _]. rewrite last_cons_ne in Hl by done.
  split; [done|]. eauto.
Qed.

Lemma read_first_spec it s rest :
  it_rep it (s :: rest) -> it_idx it = 0 ->
  exists it', read_first_sample it = Ok (s, it') /\ it_rep it' rest.
Proof.
  intros Hrep Hi. pose proof Hrep as (Hok & _ & _ & _ & Hrest).
  destruct (Hrest ltac:(done)) as (_ & bits & pad & Hrd & Hcode).
  unfold rest_code in Hcode. rewrite Hi in Hcode. cbn [Z.eqb] in Hcode.
  destruct Hcode as (-> & Hg & Hl & Ht). apply Forall_cons in Hok as [[Hs1 Hs2] Hok].
  set (code2 := match rest with [] => [] | b :: l => second_code s b ++ tail_code (second_st s b) l end).
  assert (stream_code (s :: rest) = first_code s ++ code2) as E.
  { destruct rest; cbn; [by rewrite app_nil_r|done]. }
  rewrite E in Hrd. unfold first_code in Hrd. rewrite <- !app_assoc in Hrd.
  unfold read_first_sample.
  destruct (read_varint_app _ _ _ Hs1 Hrd) as (r1 & -> & H1). cbn [decoding_error map_err].
  destruct (read_u64_app _ _ _ Hs2 H1) as (r2 & E2 & H2). unfold read_f64. rewrite E2.
  cbn [decoding_error map_err]. eexists. split; [by destruct s|].
  eapply it_advance_rep; [done|exact H2|].
  unfold rest_code. cbn [it_advance it_idx it_timestamp it_value it_leading it_trailing].
  rewrite Hi. cbn [Z.add Z.eqb Pos.eqb]. destruct s as [t v]. split_and!; try done.
  by destruct rest.
Qed.

Lemma read_second_spec it s rest :
  it_rep it (s :: rest) -> it_idx it = 1 ->
  exists it', read_second_sample it = Ok (s, it') /\ it_rep it' rest.
Proof.
  intros Hrep Hi. pose proof Hrep as (Hok & _ & _ & _ & Hrest).
  destruct (Hrest ltac:(done)) as (_ & bits & pad & Hrd & Hcode).
  unfold rest_code in Hcode. rewrite Hi in Hcode. cbn [Z.eqb Pos.eqb] in Hcode.
  destruct Hcode as (-> & [Hp1 Hp2] & [Hgap Hg] & Hl & Ht).
  apply Forall_cons in Hok as [[Hs1 Hs2] Hok].
  cbn [timestamp value] in Hp1, Hp2. unfold gap_ok in Hgap. cbn [timestamp] in Hgap.
  unfold second_code in Hrd. rewrite <- !app_assoc in Hrd. cbn [timestamp value] in Hrd.
  unfold read_second_sample, it_read_value.
  destruct (read_uvarint_app _ (timestamp s - it_timestamp it) _ ltac:(ilia) Hrd)
    as (r1 & -> & H1). cbn [decoding_error map_err].
  destruct (read_varbit_xor_app _ _ _ _ _ _ _ _ Hs2 Hp2 window_rel_init H1)
    as (r2 & rl & rt & E2 & H2 & Hw). rewrite Hl, Ht, E2. cbn [decoding_error map_err].
  destruct (Z.ltb_spec i64_MAX (timestamp s - it_timestamp it)); [ilia|].
  replace (it_timestamp it + (timestamp s - it_timestamp it)) with (timestamp s) by lia.
  rewrite wrap_i64_id by done. eexists. split; [by destruct s|].
  eapply it_advance_rep; [done|exact H2|].
  unfold rest_code. cbn [it_advance it_idx it_timestamp it_value it_leading it_trailing it_delta].
  rewrite Hi. cbn [Z.add Z.eqb Pos.eqb Pos.add Pos.succ]. do 2 eexists. split; [exact Hw|].
  destruct s as [t v]. split_and!; try done; try lia. unfold second_st. cbn [timestamp value].
  by destruct (xor_window _ _ _).
Qed.

Lemma read_nth_spec it s rest :
  it_rep it (s :: rest) -> 2 <= it_idx it ->
  exists it', read_nth_sample it = Ok (s, it') /\ it_rep it' rest.
Proof.
  intros Hrep Hi. pose proof Hrep as (Hok & _ & _ & _ & Hrest).
  destruct (Hrest ltac:(done)) as (_ & bits & pad & Hrd & Hcode).
  unfold rest_code in Hcode. destruct (Z.eqb_spec (it_idx it) 0), (Z.eqb_spec (it_idx it) 1); try lia.
  destruct Hcode as (wl & wt & Hw & -> & Hd & [Hp1 Hp2] & [Hgap Hg]).
  apply Forall_cons in Hok as [[Hs1 Hs2] Hok].
  cbn [timestamp value] in Hp1, Hp2. unfold gap_ok in Hgap. cbn [timestamp] in Hgap.
  cbn [tail_code] in Hrd. unfold sample_code in Hrd. rewrite <- !app_assoc in Hrd.
  cbn [timestamp value g_last g_delta g_window fst snd] in Hrd.
  unfold read_nth_sample, it_read_value.
  destruct (read_varbit_app _ (timestamp s - it_timestamp it - it_delta it) _ ltac:(ilia) Hrd)
    as (r1 & -> & H1). cbn [decoding_error map_err].
  destruct (read_varbit_xor_app _ _ _ _ _ _ _ _ Hs2 Hp2 Hw H1)
    as (r2 & rl & rt & -> & H2 & Hw'). cbn [decoding_error map_err].
  rewrite (wrap_i64_id (it_delta it)) by ilia.
  replace (it_delta it + (timestamp s - it_timestamp it - it_delta it))
    with (timestamp s - it_timestamp it) by lia.
  rewrite (wrap_i64_id (timestamp s - it_timestamp it)), wrap_u64_id,
    (wrap_i64_id (timestamp s - it_timestamp it)) by ilia.
  replace (it_timestamp it + (timestamp s - it_timestamp it)) with (timestamp s) by lia.
  rewrite wrap_i64_id by done. eexists. split; [by destruct s|].
  eapply it_advance_rep; [done|exact H2|].
  unfold rest_code. cbn [it_advance it_idx it_timestamp it_value it_leading it_trailing it_delta].
  destruct (Z.eqb_spec (it_idx it + 1) 0), (Z.eqb_spec (it_idx it + 1) 1); try lia.
  do 2 eexists. split; [exact Hw'|]. destruct s as [t v]. split_and!; try done; try lia.
  unfold next_st. cbn [timestamp value g_last g_delta g_window fst snd]. by destruct (xor_window _ _ _).
Qed.

Lemma read_last_spec it s rest :
  it_rep it (s :: rest) -> 2 <= it_idx it -> it_idx it = it_last_idx it ->
  exists it', read_last_sample it = Ok (s, it') /\ it_rep it' rest.
Proof.
  intros (Hok & Hi & Hn & Hli & Hrest) H2 Hlast. cbn [length] in Hn.
  assert (rest = []) as -> by (destruct rest; [done|cbn [length] in Hn; unfold sat_usize_sub in *; lia]).
  destruct (Hrest ltac:(done)) as [[= Hs] _]. unfold read_last_sample. eexists. split.
  - by rewrite Hs.
  - unfold it_rep. cbn in *. split_and!; try done; lia.
Qed.

Lemma gorilla_next_rep it s rest :
  it_rep it (s :: rest) ->
  exists it', gorilla_next it = Some (Ok (s, it')) /\ it_rep it' rest.
Proof.
  intros Hrep. pose proof Hrep as (_ & Hi & Hn & _). cbn [length] in Hn. unfold gorilla_next.
  destruct (Z.leb_spec (it_num_samples it) (it_idx it)); [lia|].
  destruct (Z.eqb_spec (it_idx it) 0);
    [destruct (read_first_spec _ _ _ Hrep) as (it' & -> & ?); eauto|].
  destruct (Z.eqb_spec (it_idx it) 1);
    [destruct (read_second_spec _ _ _ Hrep) as (it' & -> & ?); eauto|].
  destruct (Z.eqb_spec (it_idx it) (it_last_idx it));
    [destruct (read_last_spec _ _ _ Hrep) as (it' & -> & ?); eauto; lia|].
  destruct (read_nth_spec _ _ _ Hrep) as (it' & -> & ?); eauto. lia.
Qed.

Lemma gorilla_next_done it : it_rep it [] -> gorilla_next it = None.
Proof.
  intros (_ & _ & Hn & _). cbn in Hn. unfold gorilla_next.
  destruct (Z.leb_spec (it_num_samples it) (it_idx it)); [done|lia].
Qed.

Lemma gorilla_fold_rep {A} it l (f : A -> Sample -> TsdbResult A) a :
  it_rep it l -> gorilla_fold it f a = try_fold f a l.
Proof.
  intros Hrep. unfold gorilla_fold.
  assert (Z.to_nat (it_num_samples it - it_idx it) = length l) as ->
    by (destruct Hrep as (_ & _ & Hn & _); lia).
  revert it a Hrep. induction l as [|s l IH]; intros it a Hrep;
    cbn [length gorilla_fold_loop try_fold]; [done|].
  destruct (gorilla_next_rep _ _ _ Hrep) as (it' & -> & Hrep').
  destruct (f a s); [by apply IH|done].
Qed.

(** ** Persistence *)

Lemma read_write_unsigned v rest :
  is_u64 v -> read_unsigned_varint (write_uvarint [] v ++ rest) = Ok (v, rest).
Proof. intros. unfold read_unsigned_varint. by rewrite read_write_uvarint. Qed.

Lemma read_write_timestamp t rest :
  is_i64 t -> read_timestamp (write_uvarint [] (wrap_u64 t) ++ rest) = Ok (t, rest).
Proof.
  intros. unfold read_timestamp. rewrite read_write_unsigned by auto with tsdb.
  by rewrite wrap_i64_u64.
Qed.

Lemma enc_scalars e l :
  enc_rep e l ->
  is_i64 (first_ts e) /\ is_i64 (last_ts e) /\ is_f64 (last_value e) /\
  is_i64 (timestamp_delta e).
Proof.
  intros (Hok & Hg & _ & _ & Hf & Hl & Hst). split_and!.
  - rewrite Hf. destruct Hok as [|? ? [? _] _]; [done|]. done.
  - destruct (list.last l) eqn:E; destruct Hl as [-> _]; [|done].
    apply last_Some in E as [l' ->]. by apply Forall_app in Hok as [_ [[? _] _]%Forall_cons].
  - destruct (list.last l) eqn:E; destruct Hl as [_ ->]; [|done].
    apply last_Some in E as [l' ->]. by apply Forall_app in Hok as [_ [[_ ?] _]%Forall_cons].
  - destruct (final_st l) eqn:E; destruct Hst as [-> _]; [|done].
    destruct (final_st_spec _ _ Hok Hg E) as [? _]. ilia.
Qed.

Lemma gorilla_serialize_app e buf : gorilla_serialize e buf = buf ++ gorilla_serialize e [].
Proof.
  unfold gorilla_serialize, write_f64_le, write_u64_le. rewrite bs_serialize_app.
  rewrite (bs_serialize_app _ ((write_uvarint (write_uvarint (write_uvarint (write_uvarint [] _) _) _ ++ _) _) ++ _)).
  rewrite !(write_uvarint_app (_ ++ _)), !(write_uvarint_app (write_uvarint _ _)), (write_uvarint_app buf).
  by rewrite <- !app_assoc.
Qed.

Lemma gorilla_roundtrip e l rest :
  enc_rep e l -> num_samples e < 2 ^ 64 -> bs_len (writer e) < 2 ^ 64 ->
  gorilla_deserialize (gorilla_serialize e [] ++ rest) = Ok (gorilla_set_soft_cap e usize_MAX).
Proof.
  intros Hrep Hn Hlen. destruct (enc_scalars _ _ Hrep) as (Hf & Hl & Hv & Hd).
  pose proof Hrep as (_ & _ & Hns & Hw & _).
  unfold gorilla_serialize, gorilla_deserialize.
  rewrite bs_serialize_app. unfold write_f64_le, write_u64_le.
  rewrite !(write_uvarint_app (_ ++ _)), !(write_uvarint_app (write_uvarint _ _)).
  rewrite <- !app_assoc. rewrite read_write_unsigned by ilia.
  rewrite !read_write_timestamp by done.
  pose proof (read_write_u64_le (last_value e)) as Hle. unfold write_u64_le in Hle. cbn [app] in Hle.
  unfold try_read_f64_le. rewrite Hle by done. cbn [map_err].
  rewrite read_write_unsigned by auto with tsdb. cbn [app].
  erewrite bs_roundtrip by done. cbn [map_err].
  by rewrite wrap_i64_u64.
Qed.

#[export] Hint Resolve enc_new_rep enc_set_soft_cap_rep enc_with_soft_cap_rep enc_clear_rep
  gorilla_iter_rep : tsdb.

(** ** Properties *)

(** [GorillaIterator] collected into a vector. *)
Definition gorilla_collect (e : GorillaEncoder) : TsdbResult (list Sample) :=
  gorilla_fold (gorilla_iter e) (fun acc s => Ok (acc ++ [s])) [].

Lemma gorilla_collect_rep e l : enc_rep e l -> gorilla_collect e = Ok l.
Proof.
  intros Hrep. unfold gorilla_collect. erewrite gorilla_fold_rep by (by apply gorilla_iter_rep).
  apply (try_fold_snoc []).
Qed.

Lemma enc_add_all_rep e l l' :
  enc_rep e l -> Forall sample_ok l' -> gaps_ok (l ++ l') ->
  exists e', try_fold gorilla_add_sample e l' = Ok e' /\ enc_rep e' (l ++ l').
Proof.
  intros Hrep Hok. revert e l Hrep. induction Hok as [|s l' Hs Hok IH]; intros e l Hrep Hg.
  { exists e. by rewrite app_nil_r. }
  replace (l ++ s :: l') with ((l ++ [s]) ++ l') in * by (by rewrite <- app_assoc).
  destruct (enc_add_rep e l s Hrep Hs) as (e1 & E1 & Hrep1).
  { intros a Ha. apply last_Some in Ha as [l0 ->]. clear -Hg. induction l0 as [|x l0 IH].
    - by destruct Hg.
    - apply IH. destruct l0; by destruct Hg. }
  cbn [try_fold]. rewrite E1. by apply IH.
Qed.

(** C37. Gorilla compression is lossless: any list of samples whose timestamps
    never decrease is accepted, and iterating over the encoder gives back every
    timestamp and every bit of every value, NaN payloads included. *)
Theorem gorilla_lossless (l : list Sample) :
  Forall sample_ok l -> gaps_ok l ->
  exists e, try_fold gorilla_add_sample gorilla_new l = Ok e /\
    num_samples e = Z.of_nat (length l) /\ gorilla_collect e = Ok l.
Proof.
  intros Hok Hg. destruct (enc_add_all_rep gorilla_new [] l enc_new_rep Hok Hg) as (e & E & Hrep).
  exists e. split; [done|]. split; [apply Hrep|]. by apply gorilla_collect_rep.
Qed.

Lemma gorilla_lossless_witness :
  exists e, try_fold gorilla_add_sample gorilla_new
      [mkSample 1000 0x4024000000000000; mkSample 1010 0x4024000000000000;
       mkSample 1021 0x7FF8000000000001; mkSample 9000 0x3FF0000000000000] = Ok e /\
    num_samples e = 4 /\
    gorilla_collect e = Ok
      [mkSample 1000 0x4024000000000000; mkSample 1010 0x4024000000000000;
       mkSample 1021 0x7FF8000000000001; mkSample 9000 0x3FF0000000000000].
Proof.
  apply gorilla_lossless.
  - fora; (split; [split|split]; cbn; lia).
  - cbn. unfold gap_ok. cbn. lia.
Defined.

(** A sample older than the encoder's last one is refused, and refused
    before anything is written: the encoder keeps its stream. *)
Theorem gorilla_rejects_older (e : GorillaEncoder) (l : list Sample) (a s : Sample) :
  enc_rep e l -> list.last l = Some a ->
  0 <= timestamp s -> timestamp s < timestamp a ->
  gorilla_add_sample e s = Err InvalidData.
Proof.
  intros Hrep Ha Hs Hlt. eapply enc_add_unsorted; [done..|].
  pose proof Hrep as (Hok & _). apply last_Some in Ha as [l' ->].
  apply Forall_app in Hok as [_ [[Ha _] _]%Forall_cons]. unfold is_i64 in Ha. lia.
Qed.

Lemma gorilla_rejects_older_witness :
  exists e, gorilla_add_sample gorilla_new (mkSample 50 0) = Ok e /\
    gorilla_add_sample e (mkSample 49 0) = Err InvalidData.
Proof.
  eexists. split; [reflexivity|].
  apply (gorilla_rejects_older _ [mkSample 50 0] (mkSample 50 0)); [|done|cbn; lia|cbn; lia].
  destruct (enc_add_rep gorilla_new [] (mkSample 50 0) enc_new_rep) as (e & E & H).
  - split; split; cbn; lia.
  - done.
  - injection E as <-. exact H.
Defined.

(** A serialized encoder is restored: it decodes to the same samples and
    accepts the same next sample with the same result. *)
Theorem gorilla_persistence (e : GorillaEncoder) (l : list Sample) (rest : list Z) :
  enc_rep e l -> num_samples e < 2 ^ 64 -> bs_len (writer e) < 2 ^ 64 ->
  exists e', gorilla_deserialize (gorilla_serialize e [] ++ rest) = Ok e' /\
    enc_rep e' l /\ gorilla_collect e' = Ok l.
Proof.
  intros Hrep Hn Hl. eexists. split; [by eapply gorilla_roundtrip|].
  split; [by apply enc_set_soft_cap_rep|]. by apply gorilla_collect_rep, enc_set_soft_cap_rep.
Qed.

Lemma gorilla_persistence_witness :
  exists e', gorilla_deserialize (gorilla_serialize gorilla_new [] ++ [1]) = Ok e' /\
    enc_rep e' [] /\ gorilla_collect e' = Ok [].
Proof. apply gorilla_persistence; [apply enc_new_rep|vm_compute; reflexivity..]. Defined.
