(* ===== verification/Merge.v ===== *)
(** * Merge: merging incoming samples into existing ones

    Models [src/iterators/sample_merge_iterator.rs] and the rebuild-merge of
    [src/series/chunks/merge.rs].  A [SampleIter] is the list of samples it has
    left.  On sorted inputs the merge appends exactly [upsert_all], in order, and
    reports one result per incoming sample. *)

From stdpp Require Import gmap.
From S2P Require Import Prelude Float64 Types Content.

Record SampleMergeIterator := mkSampleMergeIterator {
  merge_left : list Sample;
  merge_right : list Sample;
  merge_policy : DuplicatePolicy;
}.

(** The sample yielded, whether it blocked a duplicate, and the iterator left. *)
Definition next_internal (it : SampleMergeIterator) : option (Sample * bool * SampleMergeIterator) :=
  let p := merge_policy it in
  match merge_left it, merge_right it with
  | lhs :: ls, rhs :: rs =>
      if timestamp lhs =? timestamp rhs then
        match duplicate_value p (timestamp lhs) (value lhs) (value rhs) with
        | Ok val => Some (mkSample (timestamp lhs) val, false, mkSampleMergeIterator ls rs p)
        | Err _ => Some (lhs, true, mkSampleMergeIterator ls rs p)
        end
      else if sample_lt lhs rhs
      then Some (lhs, false, mkSampleMergeIterator ls (rhs :: rs) p)
      else Some (rhs, false, mkSampleMergeIterator (lhs :: ls) rs p)
  | lhs :: ls, [] => Some (lhs, false, mkSampleMergeIterator ls [] p)
  | [], rhs :: rs => Some (rhs, false, mkSampleMergeIterator [] rs p)
  | [], [] => None
  end.

(** [Iterator::next]: blocked samples are skipped. *)
Fixpoint merge_next_loop (fuel : nat) (it : SampleMergeIterator)
  : option (Sample * SampleMergeIterator) :=
  match fuel with
  | O => None
  | S fuel' =>
      match next_internal it with
      | Some (s, blocked, it) => if (blocked : bool) then merge_next_loop fuel' it else Some (s, it)
      | None => None
      end
  end.

Definition merge_fuel (it : SampleMergeIterator) : nat :=
  (length (merge_left it) + length (merge_right it))%nat.

Definition merge_next (it : SampleMergeIterator) : option (Sample * SampleMergeIterator) :=
  merge_next_loop (merge_fuel it) it.

(** [while let Some((sample, blocked)) = it.next_internal() { f(state, ..)?; }]:
    every step consumes a sample of one side, so their number is fuel enough. *)
Fixpoint merge_loop {A} (fuel : nat) (f : A -> Sample -> bool -> TsdbResult A)
    (it : SampleMergeIterator) (state : A) : TsdbResult A :=
  match fuel with
  | O => Ok state
  | S fuel' =>
      match next_internal it with
      | Some (s, blocked, it) => let? state := f state s blocked in merge_loop fuel' f it state
      | None => Ok state
      end
  end.

Definition merge_samples {A} (lhs rhs : list Sample) (dp_policy : option DuplicatePolicy)
    (f : A -> Sample -> bool -> TsdbResult A) (state : A) : TsdbResult A :=
  let it := mkSampleMergeIterator lhs rhs (default KeepLast dp_policy) in
  merge_loop (merge_fuel it) f it state.

(** The loop state: what [append] builds, the input timestamps without a result
    yet, and the results. *)
Definition merge_chunk_step {A} (append : A -> Sample -> TsdbResult A)
    (state : A * gset Z * list SampleAddResult) (s : Sample) (blocked : bool)
  : TsdbResult (A * gset Z * list SampleAddResult) :=
  let '(a, sample_set, results) := state in
  let? a := append a s in
  if bool_decide (timestamp s ∈ sample_set) then
    let sample_set := sample_set ∖ {[ timestamp s ]} in
    Ok (a, sample_set, results ++ [if blocked then Duplicate else AddOk s])
  else Ok (a, sample_set, results).

Definition merge_chunk_samples {A} (existing samples : list Sample)
    (dp_policy : option DuplicatePolicy) (append : A -> Sample -> TsdbResult A) (a : A)
  : TsdbResult (A * list SampleAddResult) :=
  let dp_policy := default KeepLast dp_policy in
  let sample_set : gset Z := list_to_set (timestamp <$> samples) in
  let it := mkSampleMergeIterator existing samples dp_policy in
  let? (a, _, results) := merge_loop (merge_fuel it) (merge_chunk_step append) it (a, sample_set, []) in
  Ok (a, results).

(** [append_samples]: a sample that cannot be added gets an error result and the
    batch goes on; only a full chunk aborts it. *)
Definition append_samples {C} (add_sample : C -> Sample -> TsdbResult C) (c : C) (l : list Sample)
  : TsdbResult (list SampleAddResult * C) :=
  try_fold (fun '(results, c) s =>
    match add_sample c s with
    | Ok c => Ok (results ++ [AddOk s], c)
    | Err (CapacityFull cap) => Err (CapacityFull cap)
    | Err _ => Ok (results ++ [AddError CANNOT_ADD_SAMPLE], c)
    end) ([], c) l.

(** ** What a merge does to sorted content *)

(** The result reported for [s] merged into [l]. *)
Definition merge_result (p : DuplicatePolicy) (l : list Sample) (s : Sample) : SampleAddResult :=
  match lookup_ts (timestamp s) l with
  | None => AddOk s
  | Some x =>
      match duplicate_value p (timestamp s) (value x) (value s) with
      | Ok v => AddOk (mkSample (timestamp s) v)
      | Err _ => Duplicate
      end
  end.

(** An element below all incoming samples stays in front. *)
Lemma upsert_all_cons p x l r :
  Forall (ts_lt x) r -> upsert_all p (x :: l) r = x :: upsert_all p l r.
Proof.
  intros H. revert l. induction H as [|s r Hs Hr IH]; intros l; [done|].
  unfold upsert_all. cbn [foldl].
  assert (upsert_or_keep p (x :: l) s = x :: upsert_or_keep p l s) as ->; [|apply IH].
  unfold upsert_or_keep, ts_lt in *. cbn [list_upsert].
  destruct (Z.ltb_spec (timestamp s) (timestamp x)); [lia|].
  destruct (Z.eqb_spec (timestamp s) (timestamp x)); [lia|].
  by destruct (list_upsert p s l).
Qed.

Lemma upsert_all_before p s l r :
  Forall (ts_lt s) l -> Forall (ts_lt s) r ->
  upsert_all p l (s :: r) = s :: upsert_all p l r.
Proof.
  intros Hl Hr. unfold upsert_all. cbn [foldl].
  assert (upsert_or_keep p l s = s :: l) as ->.
  { unfold upsert_or_keep. destruct Hl as [|x l Hx Hl]; [done|]. cbn [list_upsert].
    unfold ts_lt in Hx. destruct (Z.ltb_spec (timestamp s) (timestamp x)); [done|lia]. }
  by apply upsert_all_cons.
Qed.

Lemma upsert_all_same p x l s r :
  timestamp x = timestamp s -> Forall (ts_lt s) r ->
  upsert_all p (x :: l) (s :: r) =
    (match duplicate_value p (timestamp x) (value x) (value s) with
     | Ok v => mkSample (timestamp x) v
     | Err _ => x
     end) :: upsert_all p l r.
Proof.
  intros E Hr. unfold upsert_all at 1. cbn [foldl]. unfold upsert_or_keep at 2. cbn [list_upsert].
  rewrite <- E, Z.ltb_irrefl, Z.eqb_refl.
  destruct (duplicate_value p (timestamp x) (value x) (value s)) as [v|e];
    apply upsert_all_cons; eapply Forall_impl; try done; unfold ts_lt; cbn; intros; lia.
Qed.

Lemma upsert_all_nil p r : ts_sorted r -> upsert_all p [] r = r.
Proof.
  induction r as [|s r IH]; [done|]. intros [Hr Hs]%ts_sorted_cons.
  rewrite upsert_all_before by done. by rewrite IH.
Qed.

Lemma upsert_all_after p l r :
  ts_sorted r -> Forall (fun x => Forall (ts_lt x) r) l -> upsert_all p l r = l ++ r.
Proof.
  intros Hr. induction 1 as [|x l Hx Hl IH]; [by apply upsert_all_nil|].
  rewrite upsert_all_cons by done. by rewrite IH.
Qed.

(** ** The merge loop *)

Lemma sample_lt_ts a b : timestamp a <> timestamp b -> sample_lt a b = (timestamp a <? timestamp b).
Proof.
  intros H. unfold sample_lt, sample_cmp, Z.ltb.
  destruct (Z.compare_spec (timestamp a) (timestamp b)); done.
Qed.

(** One sample yielded: it is the next of [upsert_all], the inputs stay sorted
    and shrink, and [sample_set] decides whether it gets a result. *)
Lemma lookup_ts_cons_ne t x l : timestamp x <> t -> lookup_ts t (x :: l) = lookup_ts t l.
Proof. intros H. cbn. destruct (Z.eqb_spec (timestamp x) t); done. Qed.

Lemma merge_result_skip p x l r :
  Forall (ts_lt x) r -> map (merge_result p (x :: l)) r = map (merge_result p l) r.
Proof.
  intros H. apply map_ext_in. intros s Hs. unfold merge_result.
  rewrite lookup_ts_cons_ne; [done|]. rewrite Forall_forall in H.
  apply list_elem_of_In, H in Hs. unfold ts_lt in Hs. lia.
Qed.

Lemma merge_result_after p l r :
  Forall (fun x => Forall (ts_lt x) r) l -> map (merge_result p l) r = map AddOk r.
Proof.
  induction 1 as [|x l Hx Hl IH]; [done|]. by rewrite merge_result_skip.
Qed.

Lemma not_in_ts (t : Z) r : Forall (fun s => t < timestamp s) r ->
  t ∉ (list_to_set (timestamp <$> r) : gset Z).
Proof.
  intros H. rewrite elem_of_list_to_set, list_elem_of_fmap. intros (s & -> & Hs).
  rewrite Forall_forall in H. apply H in Hs. lia.
Qed.

Section MergeLoop.

Context {A : Type} (append : A -> Sample -> TsdbResult A) (p : DuplicatePolicy).

Abbreviation step := (merge_chunk_step append).
Abbreviation ts_set r := (list_to_set (timestamp <$> r) : gset Z).

(** The loop, as the fold of [append] over the merged content. *)
Definition merged (l r : list Sample) (a : A) (res : list SampleAddResult)
  : TsdbResult (A * list SampleAddResult) :=
  let? a := try_fold append a (upsert_all p l r) in Ok (a, res ++ map (merge_result p l) r).

Definition drop_set (x : TsdbResult (A * gset Z * list SampleAddResult))
  : TsdbResult (A * list SampleAddResult) :=
  let? (a, _, res) := x in Ok (a, res).

(** A sample of the left side only: rewritten, no result. *)
Lemma step_left a x set res b :
  timestamp x ∉ set ->
  step (a, set, res) x b = let? a := append a x in Ok (a, set, res).
Proof.
  intros H. unfold merge_chunk_step. destruct (append a x); [|done].
  by rewrite bool_decide_false.
Qed.

(** The head of the right side: its timestamp leaves the set. *)
Lemma step_right a s y r res b :
  timestamp y = timestamp s -> Forall (ts_lt s) r ->
  step (a, ts_set (s :: r), res) y b =
    let? a := append a y in Ok (a, ts_set r, res ++ [if b then Duplicate else AddOk y]).
Proof.
  intros E Hr. unfold merge_chunk_step. destruct (append a y) as [a'|]; [|done].
  rewrite bool_decide_true by (rewrite E; cbn; set_solver). do 3 f_equal.
  rewrite E. cbn. pose proof (not_in_ts (timestamp s) r Hr). set_solver.
Qed.

Lemma merge_loop_spec fuel l r a res :
  ts_sorted l -> ts_sorted r -> (length l + length r <= fuel)%nat ->
  drop_set (merge_loop fuel step (mkSampleMergeIterator l r p) (a, ts_set r, res)) =
    merged l r a res.
Proof.
  revert l r a res. induction fuel as [|fuel IH]; intros l r a res Hl Hr Hf.
  { destruct l, r; cbn in Hf; try lia. unfold merged. cbn. by rewrite app_nil_r. }
  cbn [merge_loop]. unfold next_internal. cbn [merge_left merge_right merge_policy].
  destruct l as [|x l], r as [|s r].
  - unfold merged. cbn. by rewrite app_nil_r.
  - apply ts_sorted_cons in Hr as [Hr Hsr]. rewrite step_right by done.
    unfold merged. rewrite upsert_all_before by done. cbn [try_fold].
    destruct (append a s) as [a'|e]; [|done]. rewrite IH by (done || (cbn in *; lia)).
    unfold merged. cbn [map]. by rewrite <- app_assoc.
  - apply ts_sorted_cons in Hl as [Hl Hxl]. rewrite step_left by (cbn; set_solver).
    unfold merged. change (upsert_all p (x :: l) []) with (x :: l). cbn [try_fold].
    destruct (append a x) as [a'|e]; [|done]. rewrite IH by (done || (cbn in *; lia)). done.
  - apply ts_sorted_cons in Hl as [Hl Hxl]. apply ts_sorted_cons in Hr as [Hr Hsr].
    destruct (Z.eqb_spec (timestamp x) (timestamp s)) as [E|Hne].
    + unfold merged. rewrite upsert_all_same by done.
      cbn [map]. unfold merge_result at 1. cbn [lookup_ts]. rewrite E, Z.eqb_refl.
      rewrite merge_result_skip by (eapply Forall_impl; [done|]; unfold ts_lt; intros; lia).
      destruct (duplicate_value p (timestamp s) (value x) (value s)) as [v|e] eqn:Hd;
        rewrite step_right by done; cbn [try_fold];
        (destruct (append a _) as [a'|e']; [|done]); rewrite IH by (done || (cbn in *; lia));
        unfold merged; by rewrite <- app_assoc.
    + rewrite sample_lt_ts by done. destruct (Z.ltb_spec (timestamp x) (timestamp s)) as [Hlt|Hge].
      * assert (Forall (ts_lt x) (s :: r)) as Hxr.
        { constructor; [done|]. eapply Forall_impl; [done|]. unfold ts_lt. intros; lia. }
        rewrite step_left by (by apply not_in_ts).
        unfold merged. rewrite upsert_all_cons, merge_result_skip by done. cbn [try_fold].
        destruct (append a x) as [a'|e]; [|done].
        rewrite IH; [done|done|by apply ts_sorted_cons|cbn in *; lia].
      * assert (Forall (ts_lt s) (x :: l)) as Hsl.
        { constructor; [unfold ts_lt; lia|]. eapply Forall_impl; [done|]. unfold ts_lt. intros; lia. }
        rewrite step_right by done. unfold merged. rewrite upsert_all_before by done.
        cbn [try_fold]. destruct (append a s) as [a'|e]; [|done].
        rewrite IH; [|by apply ts_sorted_cons|done|cbn in *; lia].
        unfold merged. rewrite <- app_assoc. cbn [map app]. do 3 f_equal.
        unfold merge_result at 2. rewrite lookup_ts_above; [done|].
        eapply Forall_impl; [exact Hsl|]. unfold ts_lt. intros; lia.
Qed.

End MergeLoop.

(** The rebuild-merge on sorted inputs: [append] receives the upserted content
    in order, and there is one result per incoming sample. *)
Lemma merge_chunk_samples_spec {A} (append : A -> Sample -> TsdbResult A) l r dp a :
  ts_sorted l -> ts_sorted r ->
  merge_chunk_samples l r dp append a =
    let? a := try_fold append a (upsert_all (default KeepLast dp) l r) in
    Ok (a, map (merge_result (default KeepLast dp) l) r).
Proof.
  intros Hl Hr. unfold merge_chunk_samples.
  pose proof (merge_loop_spec append (default KeepLast dp) (length l + length r) l r a [] Hl Hr
    ltac:(lia)) as H. unfold merged in H. cbn [app] in H. rewrite <- H. done.
Qed.
