(* ===== verification/ChunkOps.v ===== *)
(** * ChunkOps: what every chunk encoding provides and promises

    The traits [ChunkOps] and [Chunk] of [src/series/chunks/chunk.rs] as a class
    of operations, and the laws an encoding is proved to satisfy as a second
    class.  [holds c l] relates a chunk to its content; every law says what an
    operation does to that content.  The methods of [timeseries_chunk.rs] and
    [merge.rs] that only use the trait are defined here, over any instance. *)

From stdpp Require Import strings.
From S2P Require Import Prelude Float64 Types Content Merge.

(** A method that changes the chunk returns the new one; on an error the caller
    keeps the old one. *)
Class ChunkOps (C : Type) := {
  first_timestamp : C -> Timestamp;
  last_timestamp : C -> Timestamp;
  chunk_len : C -> Z;
  chunk_last_value : C -> f64;
  chunk_size : C -> Z;
  chunk_max_size : C -> Z;
  chunk_remove_range : C -> Timestamp -> Timestamp -> TsdbResult (Z * C);
  chunk_add_sample : C -> Sample -> TsdbResult C;
  chunk_get_range : C -> Timestamp -> Timestamp -> TsdbResult (list Sample);
  chunk_upsert_sample : C -> Sample -> DuplicatePolicy -> TsdbResult (Z * C);
  chunk_merge_samples : C -> list Sample -> option DuplicatePolicy ->
                        TsdbResult (list SampleAddResult * C);
  chunk_is_full : C -> bool;
  bytes_per_sample : C -> Z;
  chunk_clear : C -> C;
  chunk_set_data : C -> list Sample -> TsdbResult C;
  (** [split] keeps the lower half in place and returns the upper one. *)
  chunk_split : C -> TsdbResult (C * C);
  chunk_iter : C -> list Sample;
  chunk_range_iter : C -> Timestamp -> Timestamp -> list Sample;
}.

Definition chunk_is_empty {C} `{ChunkOps C} (c : C) : bool := chunk_len c =? 0.

(** Smallest and largest [CHUNK_SIZE], and the sample count from which an
    amortized size per sample is trusted. *)
Definition MIN_CHUNK_SIZE : Z := 48.
Definition MAX_CHUNK_SIZE : Z := 1048576.
Definition MIN_SAMPLES_FOR_BPS_ESTIMATE : Z := 16.

Definition CHUNK_SIZE_ERROR : string :=
  "TSDB: CHUNK_SIZE value must be a multiple of 8 in the range [48 .. 1048576]".

Definition validate_chunk_size (chunk_size_bytes : Z) : TsdbResult unit :=
  if negb ((MIN_CHUNK_SIZE <=? chunk_size_bytes) && (chunk_size_bytes <=? MAX_CHUNK_SIZE))
  then Err (InvalidConfiguration CHUNK_SIZE_ERROR)
  else if negb (chunk_size_bytes mod 8 =? 0) then Err (InvalidConfiguration CHUNK_SIZE_ERROR)
  else Ok tt.

(** ** Laws *)

(** The result reported for [s]: the merged sample, or the incoming one where
    the encoding takes its single-sample shortcut. *)
Definition result_for (p : DuplicatePolicy) (l : list Sample) (s : Sample) (r : SampleAddResult)
  : Prop :=
  r = merge_result p l s \/ (r = AddOk s /\ add_is_ok (merge_result p l s) = true).

Lemma result_for_merge p l r : Forall2 (result_for p l) r (map (merge_result p l) r).
Proof. apply Forall2_fmap_r, Forall_Forall2_diag, Forall_true. intros s. by left. Qed.

Class ChunkLaws (C : Type) `{ChunkOps C} := {
  holds : C -> list Sample -> Prop;
  holds_content c l : holds c l -> content_ok l;
  holds_len c l : holds c l -> chunk_len c = Z.of_nat (length l);
  holds_first c x l : holds c (x :: l) -> first_timestamp c = timestamp x;
  holds_last c l x : holds c (l ++ [x]) ->
    last_timestamp c = timestamp x /\ chunk_last_value c = value x;
  holds_size c l : holds c l -> 0 <= chunk_size c <= 20 * Z.of_nat (length l);
  holds_iter c l : holds c l -> chunk_iter c = l;
  holds_range_iter c l s e : holds c l -> chunk_range_iter c s e = select s e l;
  holds_get_range c l s e : holds c l -> fits_memory l -> chunk_get_range c s e = Ok (select s e l);
  holds_remove_range c l s e : holds c l ->
    exists c', chunk_remove_range c s e = Ok (Z.of_nat (length (select s e l)), c') /\
      holds c' (remove s e l) /\ chunk_max_size c' = chunk_max_size c;
  holds_add c l s : holds c l -> sample_valid s -> appends l s -> chunk_is_full c = false ->
    exists c', chunk_add_sample c s = Ok c' /\
      holds c' (l ++ [s]) /\ chunk_max_size c' = chunk_max_size c;
  holds_upsert c l s p : holds c l -> sample_valid s ->
    (appends l s -> chunk_is_full c = false) ->
    match list_upsert p s l with
    | Ok l' => exists c', chunk_upsert_sample c s p = Ok (Z.of_nat (length l'), c') /\
        holds c' l' /\ chunk_max_size c' = chunk_max_size c
    | Err e => chunk_upsert_sample c s p = Err e
    end;
  holds_merge c l r dp : holds c l -> content_ok r ->
    (forall s, r = [s] -> appends l s -> chunk_is_full c = false) ->
    exists res c', chunk_merge_samples c r dp = Ok (res, c') /\
      holds c' (upsert_all (default KeepLast dp) l r) /\
      Forall2 (result_for (default KeepLast dp) l) r res /\
      chunk_max_size c' = chunk_max_size c;
  holds_clear c l : holds c l ->
    holds (chunk_clear c) [] /\ chunk_max_size (chunk_clear c) = chunk_max_size c;
  holds_set_data c l r : holds c l -> content_ok r ->
    exists c', chunk_set_data c r = Ok c' /\ holds c' r /\ chunk_max_size c' = chunk_max_size c;
  holds_split c l : holds c l -> (2 <= length l)%nat ->
    exists c1 c2, chunk_split c = Ok (c1, c2) /\
      holds c1 (take (length l / 2) l) /\ holds c2 (drop (length l / 2) l) /\
      chunk_max_size c1 = chunk_max_size c /\ chunk_max_size c2 = chunk_max_size c;
}.
