(* ===== verification/Uncompressed.v ===== *)
(** * Uncompressed: a chunk stored as a vector of samples

    Models [src/series/chunks/uncompressed/mod.rs].  The content of the chunk is
    its vector; the work is in the binary searches, which are proved to compute
    the selections and upserts of [Content]. *)

From stdpp Require Import strings.
From S2P Require Import Prelude Float64 Types Slice Content Encoding Merge ChunkOps.

Definition MAX_UNCOMPRESSED_SAMPLES : Z := 256.
Definition FLAG_SERIALIZE_UNCOMPRESSED : Z := 1.

Record UncompressedChunk := mkUncompressedChunk {
  u_max_size : Z;
  samples : list Sample;
  max_elements : Z;
}.

Definition uncompressed_default : UncompressedChunk :=
  mkUncompressedChunk (MAX_UNCOMPRESSED_SAMPLES * SAMPLE_SIZE) [] MAX_UNCOMPRESSED_SAMPLES.

Definition uncompressed_new (size : Z) (l : list Sample) : UncompressedChunk :=
  mkUncompressedChunk size l (size / SAMPLE_SIZE).

Definition uncompressed_from_vec (l : list Sample) : UncompressedChunk :=
  let max_elements := Z.of_nat (length l) in
  mkUncompressedChunk (max_elements * SAMPLE_SIZE) l max_elements.

Definition uncompressed_with_max_size (size : Z) : UncompressedChunk :=
  mkUncompressedChunk size [] (size / SAMPLE_SIZE).

Definition with_samples (c : UncompressedChunk) (l : list Sample) : UncompressedChunk :=
  mkUncompressedChunk (u_max_size c) l (max_elements c).

(** ** Searches *)

Definition search_result (r : result nat nat) : nat * bool :=
  match r with Ok pos => (pos, true) | Err pos => (pos, false) end.

Definition binary_search_samples_by_timestamp (l : list Sample) (ts : Timestamp) : nat * bool :=
  search_result (binary_search_by (fun probe =>
    match ts ?= timestamp probe with Lt => Gt | Gt => Lt | Eq => Eq end) l).

Definition get_sample_index (l : list Sample) (ts : Timestamp) : nat * bool :=
  search_result (binary_search_by (fun x => timestamp x ?= ts) l).

(** [l[i].timestamp], read in range only. *)
Definition ts_at (l : list Sample) (i : nat) : Timestamp :=
  match l !! i with Some s => timestamp s | None => 0 end.

Definition get_index_bounds (c : UncompressedChunk) (s e : Timestamp) : option (nat * nat) :=
  if e <? s then None
  else
    let l := samples c in
    let len := length l in
    if (len =? 0)%nat then None
    else if (e <? ts_at l 0) || (ts_at l (len - 1) <? s) then None
    else
      let '(start_idx, _) := binary_search_samples_by_timestamp l s in
      if (len <=? start_idx)%nat then None
      else
        let '(end_idx, found) := binary_search_samples_by_timestamp l e in
        let end_idx :=
          if negb found && (0 <? end_idx)%nat && (ts_at l (end_idx - 1) <? e)
          then (end_idx - 1)%nat else end_idx in
        if (start_idx =? end_idx)%nat && (e <? ts_at l start_idx) then None
        else Some (start_idx, end_idx).

Definition get_range_as_ref (c : UncompressedChunk) (s e : Timestamp) : option (list Sample) :=
  match get_index_bounds c s e with
  | Some (a, b) => Some (slice_incl (samples c) a b)
  | None => None
  end.

Definition get_range_slice (c : UncompressedChunk) (s e : Timestamp) : list Sample :=
  match get_range_as_ref c s e with Some l => l | None => [] end.

(** ** Operations *)

Definition u_first_timestamp (c : UncompressedChunk) : Timestamp :=
  match samples c with [] => 0 | x :: _ => timestamp x end.

Definition u_last_timestamp (c : UncompressedChunk) : Timestamp :=
  match list.last (samples c) with None => i64_MAX | Some x => timestamp x end.

Definition u_last_value (c : UncompressedChunk) : f64 :=
  match list.last (samples c) with None => f64_MAX | Some x => value x end.

Definition u_len (c : UncompressedChunk) : Z := Z.of_nat (length (samples c)).
Definition u_size (c : UncompressedChunk) : Z := u_len c * SAMPLE_SIZE.
Definition u_is_full (c : UncompressedChunk) : bool := max_elements c <=? u_len c.

(** [self.samples.drain(start_idx..=end_idx)] for the window's bounds. *)
Definition u_drained (c : UncompressedChunk) (s e : Timestamp) : UncompressedChunk :=
  match get_index_bounds c s e with
  | Some (a, b) => with_samples c (take a (samples c) ++ drop (Nat.max a (S b)) (samples c))
  | None => c
  end.

Definition u_remove_range (c : UncompressedChunk) (s e : Timestamp)
  : TsdbResult (Z * UncompressedChunk) :=
  let count := u_len c in
  let c' := u_drained c s e in
  Ok (count - u_len c', c').

Definition u_add_sample (c : UncompressedChunk) (s : Sample) : TsdbResult UncompressedChunk :=
  if u_is_full c then Err (CapacityFull MAX_UNCOMPRESSED_SAMPLES)
  else Ok (with_samples c (samples c ++ [s])).

Definition handle_insert (c : UncompressedChunk) (s : Sample) (p : DuplicatePolicy)
  : TsdbResult UncompressedChunk :=
  let ts := timestamp s in
  let '(idx, found) := get_sample_index (samples c) ts in
  if (found : bool) then
    match samples c !! idx with
    | Some current =>
        let? v := duplicate_value p ts (value current) (value s) in
        Ok (with_samples c (<[idx := mkSample (timestamp current) v]> (samples c)))
    | None => Ok c    (* [unwrap] of an index the search returned *)
    end
  else if (idx <? length (samples c))%nat
  then Ok (with_samples c (take idx (samples c) ++ s :: drop idx (samples c)))
  else Ok (with_samples c (samples c ++ [s])).

Definition u_upsert_sample (c : UncompressedChunk) (s : Sample) (p : DuplicatePolicy)
  : TsdbResult (Z * UncompressedChunk) :=
  let? c :=
    (match list.last (samples c) with
     | None => Ok (with_samples c (samples c ++ [s]))
     | Some last_sample =>
         if timestamp last_sample <? timestamp s then u_add_sample c s else handle_insert c s p
     end) in
  Ok (u_len c, c).

Definition u_merge_samples (c : UncompressedChunk) (l : list Sample) (dp : option DuplicatePolicy)
  : TsdbResult (list SampleAddResult * UncompressedChunk) :=
  match l with
  | [] => Ok ([], c)
  | [first] =>
      match samples c with
      | [] => let? c := u_add_sample c first in Ok ([AddOk first], c)
      | _ =>
          match u_upsert_sample c first (default KeepLast dp) with
          | Ok (_, c) => Ok ([AddOk first], c)
          | Err (DuplicateSample _) => Ok ([Duplicate], c)
          | Err e => Err e
          end
      end
  | first :: _ =>
      if (u_len c =? 0) || (u_last_timestamp c <? timestamp first)
      then Ok (map AddOk l, with_samples c (samples c ++ l))
      else
        let? (dest, res) :=
          merge_chunk_samples (samples c) l dp (fun dest s => Ok (dest ++ [s])) [] in
        Ok (res, with_samples c dest)
  end.

Definition u_split (c : UncompressedChunk) : TsdbResult (UncompressedChunk * UncompressedChunk) :=
  match samples c with
  | [] => Ok (c, c)
  | [_] => Ok (c, with_samples c [])
  | l =>
      let half := (length l / 2)%nat in
      Ok (with_samples c (take half l), with_samples c (drop half l))
  end.

Definition u_samples_by_timestamps (c : UncompressedChunk) (timestamps : list Timestamp)
  : TsdbResult (list Sample) :=
  match timestamps with
  | [] => Ok []
  | first_ts :: _ =>
      if u_len c =? 0 then Ok []
      else if u_last_timestamp c <? first_ts then Ok []
      else
        Ok (foldl (fun acc ts =>
              let '(pos, found) := get_sample_index (samples c) ts in
              if (found : bool)
              then acc ++ (match samples c !! pos with Some s => [s] | None => [] end)
              else acc) [] timestamps)
  end.

(** ** Persistence *)

Definition serialize_raw (c : UncompressedChunk) (buf : list Z) : list Z :=
  let buf := write_uvarint buf (u_max_size c) in
  let buf := write_uvarint buf (max_elements c) in
  let buf := write_uvarint buf (u_len c) in
  foldl (fun buf s => write_f64_le (write_uvarint buf (wrap_u64 (timestamp s))) (value s))
    buf (samples c).

Definition samples_are_strictly_increasing (l : list Sample) : bool :=
  forallb (fun '(a, b) => timestamp a <? timestamp b) (zip l (tail l)).

Definition read_usize (buf : list Z) : TsdbResult (Z * list Z) :=
  map_err (fun _ => DecodingError "Failed to read usize") (try_read_uvarint buf).

Fixpoint read_samples (n : nat) (buf : list Z) : TsdbResult (list Sample * list Z) :=
  match n with
  | O => Ok ([], buf)
  | S n' =>
      let? (ts, buf) := map_err (fun _ => ChunkDecoding) (try_read_uvarint buf) in
      let? (val, buf) := map_err (fun _ => ChunkDecoding) (try_read_f64_le buf) in
      let? (l, buf) := read_samples n' buf in
      Ok (mkSample (wrap_i64 ts) val :: l, buf)
  end.

Definition deserialize_raw (buf : list Z) : TsdbResult UncompressedChunk :=
  let? (max_size, buf) := read_usize buf in
  let? (max_elements, buf) := read_usize buf in
  let? (len, buf) := read_usize buf in
  let? (l, buf) := read_samples (Z.to_nat len) buf in
  if negb (samples_are_strictly_increasing l) then Err ChunkDecoding
  else Ok (mkUncompressedChunk max_size l max_elements).

Definition u_serialize (c : UncompressedChunk) (dest : list Z) : list Z :=
  serialize_raw c (dest ++ [FLAG_SERIALIZE_UNCOMPRESSED]).

Definition u_deserialize (buf : list Z) : TsdbResult UncompressedChunk :=
  if Z.of_nat (length buf) <? 2 then Err ChunkDecoding else deserialize_raw (drop 1 buf).

#[export] Instance Uncompressed_ops : ChunkOps UncompressedChunk := {
  first_timestamp := u_first_timestamp;
  last_timestamp := u_last_timestamp;
  chunk_len := u_len;
  chunk_last_value := u_last_value;
  chunk_size := u_size;
  chunk_max_size := u_max_size;
  chunk_remove_range := u_remove_range;
  chunk_add_sample := u_add_sample;
  chunk_get_range c s e := Ok (get_range_slice c s e);
  chunk_upsert_sample := u_upsert_sample;
  chunk_merge_samples := u_merge_samples;
  chunk_is_full := u_is_full;
  bytes_per_sample _ := SAMPLE_SIZE;
  chunk_clear c := with_samples c [];
  chunk_set_data c l := Ok (with_samples c l);
  chunk_split := u_split;
  chunk_iter := samples;
  chunk_range_iter := get_range_slice;
}.

(** ** The searches split sorted content *)

Definition ts_below (t : Timestamp) (l : list Sample) : Prop := Forall (fun x => timestamp x < t) l.
Definition ts_above (t : Timestamp) (l : list Sample) : Prop := Forall (fun x => t < timestamp x) l.

Lemma ts_sorted_nth l i j x y :
  ts_sorted l -> l !! i = Some x -> l !! j = Some y -> (i < j)%nat -> timestamp x < timestamp y.
Proof.
  intros Hs Hi Hj Hij. rewrite <- (take_drop_middle l i x Hi) in Hs, Hj.
  apply ts_sorted_app in Hs as (_ & [_ Hs]%ts_sorted_cons & _).
  rewrite lookup_app_r in Hj by (rewrite length_take; lia).
  rewrite length_take, Nat.min_l in Hj by (apply Nat.lt_le_incl, lookup_lt_is_Some; eauto).
  destruct (j - i)%nat as [|k] eqn:E; [lia|]. cbn in Hj.
  rewrite Forall_forall in Hs. apply Hs, list_elem_of_lookup. eauto.
Qed.

Lemma search_split f l t n found :
  ts_sorted l -> (forall x, f x = (timestamp x ?= t)) ->
  search_result (binary_search_by f l) = (n, found) ->
  exists a b, l = a ++ b /\ length a = n /\ ts_below t a /\
    if found then exists x b', b = x :: b' /\ timestamp x = t /\ ts_above t b' else ts_above t b.
Proof.
  intros Hs Hf H.
  assert (ordered_by f l) as Ho.
  { intros i j x y Hij Hi Hj. rewrite !Hf.
    assert (timestamp x <= timestamp y).
    { destruct (Nat.eq_dec i j) as [->|]; [by simplify_eq|].
      apply Z.lt_le_incl. apply (ts_sorted_nth l i j); (done || lia). }
    destruct (Z.compare_spec (timestamp x) t), (Z.compare_spec (timestamp y) t); cbn; try done; lia. }
  destruct (binary_search_by f l) as [i|i] eqn:E; injection H as <- <-.
  - destruct (binary_search_by_hit f l i Ho E) as (x & Hi & Hx). rewrite Hf in Hx.
    apply Z.compare_eq in Hx. exists (take i l), (x :: drop (S i) l).
    rewrite take_drop_middle by done. split; [done|].
    rewrite <- (take_drop_middle l i x Hi) in Hs.
    apply ts_sorted_app in Hs as (_ & [_ H1]%ts_sorted_cons & H2).
    apply lookup_lt_Some in Hi as Hlt. split; [rewrite length_take; lia|]. split.
    + eapply Forall_impl; [exact H2|]. cbv beta. intros y Hy. inversion Hy. unfold ts_lt in *. lia.
    + exists x, (drop (S i) l). split_and!; [done|done|]. eapply Forall_impl; [exact H1|].
      unfold ts_lt. intros; lia.
  - destruct (binary_search_by_miss f l i Ho E) as (Hi & Hlt & Hgt).
    exists (take i l), (drop i l). rewrite take_drop. split_and!; [done|rewrite length_take; lia| |].
    + apply Forall_lookup. intros j x Hj. apply lookup_take_Some in Hj as [Hj Hji].
      specialize (Hlt j x Hji Hj). rewrite Hf in Hlt. by apply Z.compare_lt_iff in Hlt.
    + apply Forall_lookup. intros j x Hj. rewrite lookup_drop in Hj.
      specialize (Hgt (i + j)%nat x ltac:(lia) Hj). rewrite Hf in Hgt.
      by apply Z.compare_gt_iff in Hgt.
Qed.

Lemma search_samples_split l t n found :
  ts_sorted l -> binary_search_samples_by_timestamp l t = (n, found) ->
  exists a b, l = a ++ b /\ length a = n /\ ts_below t a /\
    if found then exists x b', b = x :: b' /\ timestamp x = t /\ ts_above t b' else ts_above t b.
Proof.
  intros Hs H. eapply search_split; [done| |exact H]. cbv beta. intros x.
  rewrite (Z.compare_antisym (timestamp x) t). by destruct (timestamp x ?= t).
Qed.

Lemma sample_index_split l t n found :
  ts_sorted l -> get_sample_index l t = (n, found) ->
  exists a b, l = a ++ b /\ length a = n /\ ts_below t a /\
    if found then exists x b', b = x :: b' /\ timestamp x = t /\ ts_above t b' else ts_above t b.
Proof. intros Hs H. by eapply search_split. Qed.

(** *** Ranges *)

Lemma ts_at_lookup l i x : l !! i = Some x -> ts_at l i = timestamp x.
Proof. unfold ts_at. by intros ->. Qed.

Lemma ts_at_first x l : ts_at (x :: l) 0 = timestamp x.
Proof. done. Qed.

Lemma ts_at_snoc l x : ts_at (l ++ [x]) (length (l ++ [x]) - 1) = timestamp x.
Proof.
  apply ts_at_lookup. rewrite length_app, lookup_app_r; cbn [length]; [|lia].
  by replace (length l + 1 - 1 - length l)%nat with 0%nat by lia.
Qed.

Lemma lower_bound_split l s i found :
  ts_sorted l -> binary_search_samples_by_timestamp l s = (i, found) ->
  exists a r, l = a ++ r /\ length a = i /\ ts_below s a /\ Forall (fun x => s <= timestamp x) r.
Proof.
  intros Hs H. destruct (search_samples_split _ _ _ _ Hs H) as (a & r & -> & Hi & Ha & Hr).
  exists a, r. split_and!; try done. destruct found.
  - destruct Hr as (x & b & -> & Hx & Hb). constructor; [lia|].
    eapply Forall_impl; [exact Hb|]. cbv beta. intros; lia.
  - eapply Forall_impl; [exact Hr|]. cbv beta. intros; lia.
Qed.

(** The inclusive upper index, one before the insertion point on a miss. *)
Lemma upper_bound_split l e j found :
  ts_sorted l -> binary_search_samples_by_timestamp l e = (j, found) ->
  l <> [] -> ts_at l 0 <= e ->
  exists q b, l = q ++ b /\ Forall (fun x => timestamp x <= e) q /\ ts_above e b /\
    S (if negb found && (0 <? j)%nat && (ts_at l (j - 1) <? e) then (j - 1)%nat else j) = length q.
Proof.
  intros Hs H Hne Hfirst. destruct (search_samples_split _ _ _ _ Hs H) as (q & b & -> & <- & Hq & Hb).
  assert (Forall (fun x => timestamp x <= e) q) as Hq'
    by (eapply Forall_impl; [exact Hq|]; cbv beta; intros; lia).
  destruct found; cbn [negb andb].
  - destruct Hb as (x & b' & -> & Hx & Hb). exists (q ++ [x]), b'.
    rewrite <- app_assoc. split_and!; [done| |done|].
    + apply Forall_app. split; [done|]. constructor; [lia|constructor].
    + rewrite length_app. cbn. lia.
  - exists q, b. split_and!; try done. destruct q as [|y q _] using rev_ind.
    + destruct b as [|z b]; [done|]. inversion Hb; subst. cbn [app] in Hfirst.
      rewrite ts_at_first in Hfirst. lia.
    + assert (ts_at ((q ++ [y]) ++ b) (length (q ++ [y]) - 1) = timestamp y) as ->.
      { apply ts_at_lookup. rewrite length_app, lookup_app_l, lookup_app_r;
          rewrite ?length_app; cbn [length]; try lia.
        by replace (length q + 1 - 1 - length q)%nat with 0%nat by lia. }
      apply Forall_app in Hq as [_ [Hy _]%Forall_cons].
      destruct (Z.ltb_spec (timestamp y) e); [|lia]. rewrite length_app. cbn [length].
      destruct (Nat.ltb_spec 0 (length q + 1)); [|lia]. cbn [andb]. lia.
Qed.

(** Two cuts of the same list, the first below the second. *)
Lemma two_cuts (l a r q b : list Sample) s e :
  l = a ++ r -> l = q ++ b -> s <= e ->
  ts_below s a -> Forall (fun x => s <= timestamp x) r ->
  Forall (fun x => timestamp x <= e) q -> ts_above e b ->
  exists m, l = a ++ m ++ b /\ Forall (fun x => s <= timestamp x <= e) m /\
    length q = (length a + length m)%nat.
Proof.
  intros H1 H2 Hse Ha Hr Hq Hb. rewrite H1 in H2. apply app_eq_app in H2 as [m [[-> ->]|[-> ->]]].
  - destruct m as [|x m].
    + exists []. rewrite !app_nil_r in *. split_and!; [by rewrite H1|constructor|cbn; lia].
    + apply Forall_app in Ha as [_ [Hx _]%Forall_cons]. apply Forall_app in Hb as [[Hx' _]%Forall_cons _].
      lia.
  - exists m. apply Forall_app in Hq as [_ Hm]. apply Forall_app in Hr as [Hm' _].
    split_and!; [done| |by rewrite length_app]. apply Forall_and. done.
Qed.

Lemma select_cut a m b s e :
  ts_below s a -> Forall (fun x => s <= timestamp x <= e) m -> ts_above e b ->
  select s e (a ++ m ++ b) = m /\ remove s e (a ++ m ++ b) = a ++ b.
Proof.
  intros Ha Hm Hb. rewrite !select_app, !remove_app.
  rewrite (select_none s e a), (remove_none s e a), (select_all s e m), (remove_all s e m),
    (select_none s e b), (remove_none s e b); try done.
  - by rewrite app_nil_r.
  - eapply Forall_impl; [exact Hb|]. cbv beta. tauto.
  - eapply Forall_impl; [exact Hb|]. cbv beta. tauto.
  - eapply Forall_impl; [exact Ha|]. cbv beta. tauto.
  - eapply Forall_impl; [exact Ha|]. cbv beta. tauto.
Qed.

(** The index bounds of a window cut the content into the part before it, the
    part in it and the part after it. *)
Lemma get_index_bounds_spec c s e :
  ts_sorted (samples c) ->
  match get_index_bounds c s e with
  | Some (i, j) => exists a m b, samples c = a ++ m ++ b /\
      ts_below s a /\ Forall (fun x => s <= timestamp x <= e) m /\ ts_above e b /\
      i = length a /\ S j = (length a + length m)%nat
  | None => select s e (samples c) = []
  end.
Proof.
  intros Hs. unfold get_index_bounds. set (l := samples c) in *.
  destruct (Z.ltb_spec e s) as [Hse|Hse].
  { apply select_none. apply Forall_true. intros; lia. }
  destruct (Nat.eqb_spec (length l) 0) as [E0|E0].
  { destruct l; [done|cbn in E0; lia]. }
  assert (l <> []) as Hne by (by destruct l).
  destruct (binary_search_samples_by_timestamp l s) as [i fi] eqn:Ei.
  destruct (lower_bound_split _ _ _ _ Hs Ei) as (a & r & Hl1 & Hi & Ha & Hr).
  destruct (Z.ltb_spec e (ts_at l 0)) as [He0|He0]; cbn [orb].
  { apply select_none. destruct l as [|x l']; [done|]. rewrite ts_at_first in He0.
    apply ts_sorted_cons in Hs as [_ Hx]. constructor; [lia|].
    eapply Forall_impl; [exact Hx|]. unfold ts_lt. intros; lia. }
  destruct (Z.ltb_spec (ts_at l (length l - 1)) s) as [Hls|Hls].
  { apply select_none. destruct (snoc_cases l Hne) as (l' & x & E). rewrite E in *.
    rewrite ts_at_snoc in Hls. apply ts_sorted_snoc in Hs as [_ Hx]. apply Forall_app.
    split; [|constructor; [lia|constructor]]. eapply Forall_impl; [exact Hx|].
    unfold ts_lt. intros; lia. }
  destruct (Nat.leb_spec (length l) i) as [Hil|Hil].
  { assert (r = []) as -> by (destruct r; [done|];
      apply (f_equal length) in Hl1; rewrite length_app in Hl1; cbn in Hl1; lia).
    rewrite app_nil_r in Hl1. rewrite Hl1. apply select_none.
    eapply Forall_impl; [exact Ha|]. cbv beta. tauto. }
  destruct (binary_search_samples_by_timestamp l e) as [j fj] eqn:Ej.
  destruct (upper_bound_split _ _ _ _ Hs Ej Hne He0) as (q & b & Hl2 & Hq & Hb & Hj).
  set (j' := if negb fj && (0 <? j)%nat && (ts_at l (j - 1) <? e) then (j - 1)%nat else j) in *.
  clearbody j'.
  destruct (two_cuts l a r q b s e Hl1 Hl2 Hse Ha Hr Hq Hb) as (m & Hl & Hm & Hlen).
  assert ((i =? j')%nat && (e <? ts_at l i) = false) as ->.
  { destruct (Nat.eqb_spec i j') as [Eij|]; [|done]. cbn [andb]. apply Z.ltb_ge.
    destruct m as [|y m]; [cbn in Hlen; lia|]. rewrite Hl, (ts_at_lookup _ _ y).
    - inversion Hm; subst; lia.
    - rewrite lookup_app_r by lia. by rewrite <- Hi, Nat.sub_diag. }
  exists a, m, b. split_and!; try done. lia.
Qed.

Lemma get_range_slice_spec c s e :
  ts_sorted (samples c) -> get_range_slice c s e = select s e (samples c).
Proof.
  intros Hs. unfold get_range_slice, get_range_as_ref.
  pose proof (get_index_bounds_spec c s e Hs) as H.
  destruct (get_index_bounds c s e) as [[i j]|]; [|done].
  destruct H as (a & m & b & E & Ha & Hm & Hb & -> & Hj). rewrite E.
  rewrite (proj1 (select_cut a m b s e Ha Hm Hb)). unfold slice_incl. rewrite Hj.
  rewrite drop_app_length, take_app_length'; [done|lia].
Qed.

(** *** Inserts *)

Lemma handle_insert_spec c s p :
  ts_sorted (samples c) ->
  handle_insert c s p = let? l' := list_upsert p s (samples c) in Ok (with_samples c l').
Proof.
  intros Hs. unfold handle_insert. destruct (get_sample_index _ _) as [idx found] eqn:E.
  destruct (sample_index_split _ _ _ _ Hs E) as (a & b & El & Hi & Ha & Hb). rewrite El in *.
  rewrite list_upsert_app_l by done. destruct found.
  - destruct Hb as (x & b' & -> & Hx & Hb). rewrite <- Hi, list_lookup_middle by done.
    cbn [list_upsert]. rewrite Hx, Z.ltb_irrefl, Z.eqb_refl.
    destruct (duplicate_value _ _ _ _); [|done]. rewrite <- (Nat.add_0_r (length a)), insert_app_r. done.
  - rewrite list_upsert_before by done. rewrite length_app.
    destruct (Nat.ltb_spec idx (length a + length b)) as [Hlt|Hge].
    + by rewrite <- Hi, take_app_length, drop_app_length.
    + assert (b = []) as -> by (destruct b; [done|cbn in Hge; lia]). by rewrite app_nil_r.
Qed.

Lemma u_upsert_spec c s p :
  ts_sorted (samples c) ->
  (appends (samples c) s -> u_is_full c = false) ->
  u_upsert_sample c s p =
    let? l' := list_upsert p s (samples c) in Ok (Z.of_nat (length l'), with_samples c l').
Proof.
  intros Hs Hfull. unfold u_upsert_sample. destruct (samples c) as [|x0 l0 _] eqn:E using rev_ind.
  { cbn. done. }
  rewrite last_snoc. destruct (Z.ltb_spec (timestamp x0) (timestamp s)) as [Hlt|Hge].
  - assert (appends (l0 ++ [x0]) s) as Ha.
    { apply ts_sorted_snoc in Hs as [_ Hx]. apply Forall_app. split; [|by fora].
      eapply Forall_impl; [exact Hx|]. unfold ts_lt. intros; lia. }
    rewrite list_upsert_after by exact Ha. unfold u_add_sample. rewrite Hfull by done. by rewrite E.
  - rewrite handle_insert_spec by (by rewrite E). rewrite E.
    by destruct (list_upsert p s (l0 ++ [x0])).
Qed.

(** The single-sample shortcut: the upsert decides, and only a refused duplicate
    can fail. *)
Lemma result_for_single p l s :
  ts_sorted l ->
  match list_upsert p s l with
  | Ok _ => result_for p l s (AddOk s)
  | Err e => result_for p l s Duplicate /\ exists m, e = DuplicateSample m
  end.
Proof.
  intros Hs. pose proof (list_upsert_cases p s l Hs) as Hc. unfold result_for, merge_result.
  destruct (lookup_ts (timestamp s) l) as [x|]; destruct Hc as (a & b & _ & -> & _); [|by left].
  destruct (duplicate_value p (timestamp s) (value x) (value s)) as [v|e] eqn:Ed; [by right|].
  split; [by left|]. revert Ed. unfold duplicate_value. repeat case_match; intros; simplify_eq; eauto.
Qed.

(** Draining the window leaves the content without it. *)
Lemma u_remove_spec c s e :
  ts_sorted (samples c) ->
  samples (u_drained c s e) = remove s e (samples c) /\
  u_len c - u_len (u_drained c s e) = Z.of_nat (length (select s e (samples c))).
Proof.
  intros Hs.
  assert (samples (u_drained c s e) = remove s e (samples c)) as Hr.
  { unfold u_drained. pose proof (get_index_bounds_spec c s e Hs) as H.
    destruct (get_index_bounds c s e) as [[i j]|].
    - destruct H as (a & m & b & E & Ha & Hm & Hb & -> & Hj). rewrite E.
      rewrite (proj2 (select_cut a m b s e Ha Hm Hb)). cbn [samples with_samples].
      rewrite Hj, Nat.max_r, take_app_length by lia.
      by rewrite app_assoc, drop_app_length' by (rewrite length_app; lia).
    - symmetry. by apply remove_unselected. }
  split; [done|]. unfold u_len. rewrite Hr. pose proof (length_select_remove s e (samples c)). lia.
Qed.

Definition u_holds (c : UncompressedChunk) (l : list Sample) : Prop :=
  samples c = l /\ content_ok l.

Lemma u_merge_spec c r dp :
  content_ok (samples c) -> content_ok r ->
  (forall s, r = [s] -> appends (samples c) s -> u_is_full c = false) ->
  exists res c', u_merge_samples c r dp = Ok (res, c') /\
    samples c' = upsert_all (default KeepLast dp) (samples c) r /\
    Forall2 (result_for (default KeepLast dp) (samples c)) r res /\ u_max_size c' = u_max_size c.
Proof.
  intros [Hl Hlv] [Hr Hrv] Hfull. set (p := default KeepLast dp). unfold u_merge_samples. fold p.
  destruct r as [|s [|s2 r]]; [by eexists _, _| |].
  - specialize (Hfull s eq_refl). pose proof (result_for_single p (samples c) s Hl) as Hres.
    pose proof (u_upsert_spec c s p Hl Hfull) as Hu. unfold upsert_all. cbn [foldl].
    unfold upsert_or_keep. destruct (samples c) as [|x l] eqn:E.
    + unfold u_add_sample. rewrite Hfull by constructor. rewrite E. eexists _, _. split; [done|].
      split_and!; try done. constructor; [exact Hres|constructor].
    + rewrite Hu. destruct (list_upsert p s (x :: l)) as [l'|e].
      * eexists _, _. split; [done|]. split_and!; try done. constructor; [exact Hres|constructor].
      * destruct Hres as [Hres [m ->]]. eexists _, _. split; [done|]. rewrite E.
        split_and!; try done. constructor; [exact Hres|constructor].
  - set (r' := s :: s2 :: r) in *. cbv zeta.
    destruct ((u_len c =? 0) || (u_last_timestamp c <? timestamp s)) eqn:Happ.
    + assert (Forall (fun x => Forall (ts_lt x) r') (samples c)) as Hbelow.
      { unfold u_len, u_last_timestamp in Happ.
        destruct (samples c) as [|x l _] eqn:E using rev_ind; [constructor|].
        rewrite last_snoc, length_app in Happ. cbn [length] in Happ.
        assert (timestamp x < timestamp s) as Hxs
          by (apply orb_true_iff in Happ as [?%Z.eqb_eq|?%Z.ltb_lt]; lia).
        apply ts_sorted_cons in Hr as [_ Hs]. apply ts_sorted_snoc in Hl as [_ Hx].
        assert (Forall (ts_lt x) r') as Hxr
          by (constructor; [done|]; eapply Forall_impl; [exact Hs|]; unfold ts_lt; intros; lia).
        apply Forall_app. split; [|by constructor]. eapply Forall_impl; [exact Hx|]. intros y Hy.
        eapply Forall_impl; [exact Hxr|]. unfold ts_lt in *. intros; lia. }
      eexists _, _. split; [done|]. cbn [samples with_samples u_max_size].
      rewrite upsert_all_after by done. split_and!; [done| |done].
      rewrite <- (merge_result_after p _ _ Hbelow). apply result_for_merge.
    + rewrite merge_chunk_samples_spec, try_fold_snoc by done. eexists _, _. split; [done|].
      split_and!; [done|apply result_for_merge|done].
Qed.

#[export] Instance Uncompressed_laws : ChunkLaws UncompressedChunk.
Proof.
  refine {| holds := u_holds |}.
  - by intros c l [_ ?].
  - by intros c l [<- _].
  - intros c x l [E _]. cbn. unfold u_first_timestamp. by rewrite E.
  - intros c l x [E _]. cbn. unfold u_last_timestamp, u_last_value. by rewrite E, last_snoc.
  - intros c l [<- _]. cbn. unfold u_size, u_len, SAMPLE_SIZE. lia.
  - by intros c l [E _].
  - intros c l s e [<- [Hs _]]. by apply get_range_slice_spec.
  - intros c l s e [<- [Hs _]] _. cbn. by rewrite get_range_slice_spec.
  - intros c l s e [<- Hl]. cbn. unfold u_remove_range.
    destruct (u_remove_spec c s e (proj1 Hl)) as [Hr Hn]. eexists. split; [|split; [split|]].
    + cbn. by rewrite Hn.
    + exact Hr.
    + auto with tsdb.
    + unfold u_drained. by destruct (get_index_bounds c s e) as [[i j]|].
  - intros c l s [<- Hl] Hs Ha Hf. cbn in *. unfold u_add_sample. rewrite Hf.
    eexists. split; [done|]. split; [|done]. split; auto with tsdb.
  - intros c l s p [<- Hl] Hs Hf. cbn. rewrite u_upsert_spec; [|apply Hl|done].
    destruct (list_upsert p s (samples c)) as [l'|] eqn:E; [|done].
    eexists. split; [done|]. split; [|done]. split; [done|]. by eapply content_ok_upsert.
  - intros c l r dp [<- Hl] Hr Hf.
    destruct (u_merge_spec c r dp Hl Hr Hf) as (res & c' & E & Hc & Hres & Hm).
    exists res, c'. split_and!; try done. rewrite <- Hc. split; [done|]. rewrite Hc.
    apply content_ok_upsert_all; [done|apply Hr].
  - intros c l _. split; [|done]. split; [done|apply content_ok_nil].
  - intros c l r _ Hr. eexists. split; [done|]. by split.
  - intros c l [<- Hl] Hlen. cbn. unfold u_split.
    destruct (samples c) as [|x [|y l]] eqn:E; [cbn in Hlen; lia..|].
    eexists _, _. split; [done|]. cbn [u_max_size with_samples]. rewrite <- E in *.
    split_and!; try done; (split; [done|]); auto with tsdb.
Defined.

(** ** Persistence round trip *)

Definition sample_bytes (s : Sample) : list Z :=
  write_uvarint [] (wrap_u64 (timestamp s)) ++ to_le_bytes 8 (value s).

Lemma serialize_raw_eq c buf :
  serialize_raw c buf =
    buf ++ write_uvarint [] (u_max_size c) ++ write_uvarint [] (max_elements c) ++
    write_uvarint [] (u_len c) ++ (samples c ≫= sample_bytes).
Proof.
  unfold serialize_raw.
  assert (forall l b, foldl (fun buf s => write_f64_le (write_uvarint buf (wrap_u64 (timestamp s)))
    (value s)) b l = b ++ (l ≫= sample_bytes)) as ->.
  { induction l as [|s l IH]; intros b; [by rewrite app_nil_r|].
    cbn [foldl]. rewrite IH. change ((s :: l) ≫= sample_bytes) with (sample_bytes s ++ (l ≫= sample_bytes)).
    unfold write_f64_le, write_u64_le, sample_bytes. rewrite (write_uvarint_app b). by rewrite <- !app_assoc. }
  rewrite !(write_uvarint_app (write_uvarint _ _)), (write_uvarint_app buf). by rewrite <- !app_assoc.
Qed.

Lemma read_samples_app l rest :
  Forall sample_ok l -> read_samples (length l) ((l ≫= sample_bytes) ++ rest) = Ok (l, rest).
Proof.
  induction 1 as [|[t v] l [Ht Hv] Hl IH]; [done|]. cbn [length read_samples timestamp value] in *.
  change ((mkSample t v :: l) ≫= sample_bytes) with (sample_bytes (mkSample t v) ++ (l ≫= sample_bytes)).
  unfold sample_bytes at 1. cbn [timestamp value]. rewrite <- !app_assoc.
  rewrite read_write_uvarint by auto with tsdb. cbn [map_err].
  pose proof (read_write_u64_le v) as Hle. unfold write_u64_le in Hle. cbn [app] in Hle.
  unfold try_read_f64_le. rewrite Hle by done. cbn [map_err]. rewrite IH.
  by rewrite wrap_i64_u64.
Qed.

Lemma strictly_increasing_sorted l :
  ts_sorted l -> samples_are_strictly_increasing l = true.
Proof.
  unfold samples_are_strictly_increasing. induction l as [|x [|y l] IH]; intros Hs; [done..|].
  apply ts_sorted_cons in Hs as [Hs Hx]. inversion Hx; subst.
  change (zip (x :: y :: l) (tail (x :: y :: l))) with ((x, y) :: zip (y :: l) (tail (y :: l))).
  cbn [forallb]. rewrite IH by done. rewrite andb_true_r. by apply Z.ltb_lt.
Qed.

Lemma u_roundtrip c rest :
  content_ok (samples c) -> is_u64 (u_max_size c) -> is_u64 (max_elements c) -> u_len c < 2 ^ 64 ->
  u_deserialize (u_serialize c [] ++ rest) = Ok c.
Proof.
  intros [Hs Hv] Hm He Hl. unfold u_serialize, u_deserialize. rewrite serialize_raw_eq.
  rewrite <- !app_assoc. cbn [app length drop].
  assert (1 <= length (write_uvarint [] (u_max_size c)))%nat as Hpos.
  { destruct (write_uvarint [] (u_max_size c)) eqn:E; [|cbn; lia].
    pose proof (read_write_uvarint (u_max_size c) [] Hm) as H. by rewrite E in H. }
  rewrite length_app.
  destruct (Z.ltb_spec (Z.of_nat (S (length (write_uvarint [] (u_max_size c)) + length
    (write_uvarint [] (max_elements c) ++ write_uvarint [] (u_len c) ++
     (samples c ≫= sample_bytes) ++ rest)))) 2); [lia|].
  rewrite drop_0. unfold deserialize_raw, read_usize. do 3 (rewrite read_write_uvarint by (unfold u_len in *; ilia); cbn [map_err]).
  unfold u_len. rewrite Nat2Z.id, read_samples_app.
  - rewrite strictly_increasing_sorted by done. by destruct c.
  - eapply Forall_impl; [exact Hv|]. by intros x [? _].
Qed.
