(* ===== verification/Codec.v ===== *)
(** * Codec: chunks over a streaming sample codec

    [gorilla_chunk.rs] and [chimp_chunk.rs] are the same program over two
    encoders: append, iterate, and rebuild into a fresh encoder for everything
    else.  [SampleCodec] is what they use of an encoder and [CodecLaws] what they
    rely on; the chunk operations are written once over the class and shown to
    satisfy [ChunkLaws] for every lawful codec. *)

From stdpp Require Import strings.
From S2P Require Import Prelude Float64 Types Content Encoding BitStream Merge ChunkOps.

Class SampleCodec (E I : Type) := {
  codec_with_soft_cap : Z -> E;
  codec_set_soft_cap : E -> Z -> E;
  codec_clear : E -> E;
  codec_add : E -> Sample -> IoResult E;
  codec_count : E -> Z;
  codec_first_ts : E -> Timestamp;
  codec_last_ts : E -> Timestamp;
  codec_last_value : E -> f64;
  codec_bytes : E -> list Z;
  codec_iter : E -> I;
  codec_next : I -> option (TsdbResult (Sample * I));
  (** What [get_range] allocates before decoding a window. *)
  codec_reserve : E -> Timestamp -> Timestamp -> TsdbResult unit;
  (** [ExactSizeIterator::len] *)
  codec_left : I -> nat;
  codec_serialize : E -> list Z -> list Z;
  codec_deserialize : list Z -> TsdbResult E;
}.

(** [codec_holds e l]: the encoder holds [l]; [codec_yields i l]: the iterator
    has [l] left. *)
Class CodecLaws (E I : Type) `{SampleCodec E I} := {
  codec_holds : E -> list Sample -> Prop;
  codec_yields : I -> list Sample -> Prop;
  codec_new_law n : codec_holds (codec_with_soft_cap n) [];
  codec_clear_law e : codec_holds (codec_clear e) [];
  codec_soft_cap_law e l n : codec_holds e l -> codec_holds (codec_set_soft_cap e n) l;
  codec_add_law e l s : codec_holds e l -> content_ok (l ++ [s]) ->
    exists e', codec_add e s = Ok e' /\ codec_holds e' (l ++ [s]);
  codec_count_law e l : codec_holds e l -> codec_count e = Z.of_nat (length l);
  codec_first_law e x l : codec_holds e (x :: l) -> codec_first_ts e = timestamp x;
  codec_last_law e l x : codec_holds e (l ++ [x]) ->
    codec_last_ts e = timestamp x /\ codec_last_value e = value x;
  codec_iter_law e l : codec_holds e l -> codec_yields (codec_iter e) l;
  codec_size_law e l : codec_holds e l -> (length (codec_bytes e) <= 20 * length l)%nat;
  codec_reserve_law e l s t : codec_holds e l -> fits_memory l -> codec_reserve e s t = Ok tt;
  codec_left_law i l : codec_yields i l -> codec_left i = length l;
  codec_next_law i s l : codec_yields i (s :: l) ->
    exists i', codec_next i = Some (Ok (s, i')) /\ codec_yields i' l;
  codec_done_law i : codec_yields i [] -> codec_next i = None;
  codec_soft_cap_twice e m n : codec_set_soft_cap (codec_set_soft_cap e m) n = codec_set_soft_cap e n;
  codec_serialize_law e buf : codec_serialize e buf = buf ++ codec_serialize e [];
  codec_persist_law e l rest : codec_holds e l ->
    codec_count e < 2 ^ 64 -> Z.of_nat (length (codec_bytes e)) < 2 ^ 64 ->
    codec_deserialize (codec_serialize e [] ++ rest) = Ok (codec_set_soft_cap e usize_MAX);
}.

Record CodecChunk (E : Type) := mkCodecChunk { encoder : E; cc_max_size : Z }.
Arguments mkCodecChunk {E} _ _.
Arguments encoder {E} _.
Arguments cc_max_size {E} _.

(** ** Iterating a chunk *)

Section Iteration.

Context {E I : Type} `{SampleCodec E I}.

(** [for item in iter { let sample = item?; a = f(a, sample)?; }] *)
Fixpoint codec_fold_loop {A} (fuel : nat) (it : I) (f : A -> Sample -> TsdbResult A) (a : A)
  : TsdbResult A :=
  match fuel with
  | O => Ok a
  | S fuel' =>
      match codec_next it with
      | None => Ok a
      | Some (Err e) => Err e
      | Some (Ok (s, it)) => let? a := f a s in codec_fold_loop fuel' it f a
      end
  end.

Definition codec_fold {A} (it : I) (f : A -> Sample -> TsdbResult A) (a : A) : TsdbResult A :=
  codec_fold_loop (codec_left it) it f a.

(** The chunk iterator: a window over the codec's iterator.  A decoding error
    ends it, as the end of the window does. *)
Record ChunkIterator := mkChunkIterator {
  ci_inner : I;
  ci_start : Timestamp;
  ci_end : Timestamp;
  ci_init : bool;
}.

Definition ci_next_internal (it : ChunkIterator) : option (Sample * ChunkIterator) :=
  match codec_next (ci_inner it) with
  | Some (Ok (s, inner)) =>
      if ci_end it <? timestamp s then None
      else Some (s, mkChunkIterator inner (ci_start it) (ci_end it) (ci_init it))
  | _ => None
  end.

(** The loop that skips the samples before the window. *)
Fixpoint ci_skip (fuel : nat) (it : ChunkIterator) : option (Sample * ChunkIterator) :=
  match fuel with
  | O => None
  | S fuel' =>
      match ci_next_internal it with
      | None => None
      | Some (s, it) =>
          if timestamp s <? ci_start it then ci_skip fuel' it
          else if timestamp s <=? ci_end it then Some (s, it)
          else ci_skip fuel' it
      end
  end.

Definition ci_next (it : ChunkIterator) : option (Sample * ChunkIterator) :=
  if negb (ci_init it) then
    ci_skip (codec_left (ci_inner it))
      (mkChunkIterator (ci_inner it) (ci_start it) (ci_end it) true)
  else ci_next_internal it.

Fixpoint ci_collect (fuel : nat) (it : ChunkIterator) : list Sample :=
  match fuel with
  | O => []
  | S fuel' =>
      match ci_next it with
      | None => []
      | Some (s, it) => s :: ci_collect fuel' it
      end
  end.

(** The samples of a [range_iter], as its consumers see them. *)
Definition cc_range_iter (c : CodecChunk E) (s e : Timestamp) : list Sample :=
  let inner := codec_iter (encoder c) in
  ci_collect (codec_left inner) (mkChunkIterator inner s e false).

Definition cc_iter (c : CodecChunk E) : list Sample := cc_range_iter c i64_MIN i64_MAX.

(** ** Chunk operations *)

Definition push_sample (e : E) (s : Sample) : TsdbResult E :=
  map_err (fun _ => CannotAddSample s) (codec_add e s).

Definition cc_with_max_size (max_size : Z) : CodecChunk E :=
  mkCodecChunk (codec_with_soft_cap max_size) max_size.

Definition with_encoder (c : CodecChunk E) (e : E) : CodecChunk E :=
  mkCodecChunk e (cc_max_size c).

Definition cc_compress (c : CodecChunk E) (l : list Sample) : TsdbResult (CodecChunk E) :=
  let? e := try_fold push_sample (codec_with_soft_cap (cc_max_size c)) l in
  Ok (with_encoder c e).

Definition cc_len (c : CodecChunk E) : Z := codec_count (encoder c).
Definition cc_is_empty (c : CodecChunk E) : bool := cc_len c =? 0.
Definition cc_data_size (c : CodecChunk E) : Z := Z.of_nat (length (codec_bytes (encoder c))).
Definition cc_is_full (c : CodecChunk E) : bool := cc_max_size c <=? cc_data_size c.
Definition cc_first_timestamp (c : CodecChunk E) : Timestamp := codec_first_ts (encoder c).
Definition cc_last_timestamp (c : CodecChunk E) : Timestamp := codec_last_ts (encoder c).

Definition cc_remaining_capacity (c : CodecChunk E) : Z :=
  sat_usize_sub (cc_max_size c) (cc_data_size c).

Definition cc_bytes_per_sample (c : CodecChunk E) : Z :=
  let count := cc_len c in
  if count <? MIN_SAMPLES_FOR_BPS_ESTIMATE then SAMPLE_SIZE / 2
  else Z.max (cc_data_size c / count) 1.

Definition cc_remaining_samples (c : CodecChunk E) : Z :=
  if cc_len c =? 0 then 0 else cc_remaining_capacity c / cc_bytes_per_sample c.

Definition cc_remove_range (c : CodecChunk E) (s e : Timestamp) : TsdbResult (Z * CodecChunk E) :=
  if cc_is_empty c || (cc_last_timestamp c <? s) || (e <? cc_first_timestamp c) then Ok (0, c)
  else
    let saved_count := cc_len c in
    let? enc :=
      codec_fold (codec_iter (encoder c))
        (fun enc x => if (s <=? timestamp x) && (timestamp x <=? e) then Ok enc else push_sample enc x)
        (codec_with_soft_cap (cc_max_size c)) in
    let c := with_encoder c enc in
    Ok (saved_count - cc_len c, c).

Definition cc_add_sample (c : CodecChunk E) (s : Sample) : TsdbResult (CodecChunk E) :=
  let? e := push_sample (encoder c) s in Ok (with_encoder c e).

Definition cc_get_range (c : CodecChunk E) (s e : Timestamp) : TsdbResult (list Sample) :=
  if cc_is_empty c then Ok []
  else let? _ := codec_reserve (encoder c) s e in Ok (cc_range_iter c s e).

(** The loop that copies the samples older than [ts]: it stops at the first one
    that is not, which it leaves in [current], with the iterator past it. *)
Fixpoint cc_copy_below (fuel : nat) (it : I) (ts : Timestamp) (enc : E) (current : Sample)
  : TsdbResult (E * Sample * I) :=
  match fuel with
  | O => Ok (enc, current, it)
  | S fuel' =>
      match codec_next it with
      | None => Ok (enc, current, it)
      | Some (Err e) => Err e
      | Some (Ok (current, it)) =>
          if ts <=? timestamp current then Ok (enc, current, it)
          else let? enc := push_sample enc current in cc_copy_below fuel' it ts enc current
      end
  end.

Definition cc_upsert_sample (c : CodecChunk E) (s : Sample) (p : DuplicatePolicy)
  : TsdbResult (Z * CodecChunk E) :=
  let ts := timestamp s in
  let count := cc_len c in
  if count =? 0 then let? c := cc_add_sample c s in Ok (1, c)
  else
    let enc := codec_with_soft_cap (cc_max_size c) in
    let it := codec_iter (encoder c) in
    if ts <? cc_first_timestamp c then
      let? enc := push_sample enc s in
      let? enc := codec_fold it push_sample enc in
      Ok (count + 1, with_encoder c enc)
    else
      let? (enc, current, it) := cc_copy_below (codec_left it) it ts enc (mkSample 0 f64_zero) in
      if timestamp current =? ts then
        let? v := duplicate_value p ts (value current) (value s) in
        let? enc := push_sample enc (mkSample (timestamp current) v) in
        let? enc := codec_fold it push_sample enc in
        Ok (count, with_encoder c enc)
      else
        let? enc := push_sample enc s in
        let? enc := (if ts <? timestamp current then push_sample enc current else Ok enc) in
        let? enc := codec_fold it push_sample enc in
        Ok (count + 1, with_encoder c enc).

Definition cc_split (c : CodecChunk E) : TsdbResult (CodecChunk E * CodecChunk E) :=
  if cc_is_empty c then Ok (c, c)
  else
    let mid := cc_len c / 2 in
    let? (_, lhs, rhs) :=
      codec_fold (codec_iter (encoder c))
        (fun '(i, lhs, rhs) x =>
           if i <? mid then let? lhs := push_sample lhs x in Ok (i + 1, lhs, rhs)
           else let? rhs := push_sample rhs x in Ok (i + 1, lhs, rhs))
        (0, codec_with_soft_cap (cc_max_size c), codec_with_soft_cap (cc_max_size c)) in
    Ok (with_encoder c lhs, mkCodecChunk rhs (cc_max_size c)).

Definition cc_merge_samples (c : CodecChunk E) (l : list Sample) (dp : option DuplicatePolicy)
  : TsdbResult (list SampleAddResult * CodecChunk E) :=
  match l with
  | [] => Ok ([], c)
  | first :: _ =>
      if cc_is_empty c || (cc_last_timestamp c <? timestamp first)
      then append_samples cc_add_sample c l
      else
        let? (enc, res) :=
          merge_chunk_samples (cc_iter c) l dp push_sample (codec_with_soft_cap (cc_max_size c)) in
        Ok (res, with_encoder c enc)
  end.

Definition cc_serialize (c : CodecChunk E) (dest : list Z) : list Z :=
  codec_serialize (encoder c) (write_uvarint dest (cc_max_size c)).

Definition cc_deserialize (buf : list Z) : TsdbResult (CodecChunk E) :=
  let? (max_size, buf) := map_err (fun _ => ChunkDecoding) (try_read_uvarint buf) in
  let? e := codec_deserialize buf in
  Ok (mkCodecChunk (codec_set_soft_cap e max_size) max_size).

#[export] Instance Codec_ops : ChunkOps (CodecChunk E) := {
  first_timestamp := cc_first_timestamp;
  last_timestamp := cc_last_timestamp;
  chunk_len := cc_len;
  chunk_last_value c := codec_last_value (encoder c);
  chunk_size := cc_data_size;
  chunk_max_size := cc_max_size;
  chunk_remove_range := cc_remove_range;
  chunk_add_sample := cc_add_sample;
  chunk_get_range := cc_get_range;
  chunk_upsert_sample := cc_upsert_sample;
  chunk_merge_samples := cc_merge_samples;
  chunk_is_full := cc_is_full;
  bytes_per_sample := cc_bytes_per_sample;
  chunk_clear c := with_encoder c (codec_clear (encoder c));
  chunk_set_data := cc_compress;
  chunk_split := cc_split;
  chunk_iter := cc_iter;
  chunk_range_iter := cc_range_iter;
}.

End Iteration.

(** ** Lawful codecs give lawful chunks *)

Section Laws.

Context {E I : Type} {ops : SampleCodec E I} {laws : CodecLaws E I}.

Lemma codec_fold_law {A} it l (f : A -> Sample -> TsdbResult A) a :
  codec_yields it l -> codec_fold it f a = try_fold f a l.
Proof.
  intros Hy. unfold codec_fold. rewrite (codec_left_law _ _ Hy).
  revert it a Hy. induction l as [|s l IH]; intros it a Hy;
    cbn [length codec_fold_loop try_fold]; [done|].
  destruct (codec_next_law _ _ _ Hy) as (it' & -> & Hy'). destruct (f a s); [by apply IH|done].
Qed.

Lemma push_law e l s :
  codec_holds e l -> content_ok (l ++ [s]) ->
  exists e', push_sample e s = Ok e' /\ codec_holds e' (l ++ [s]).
Proof.
  intros He Hc. destruct (codec_add_law e l s He Hc) as (e' & E1 & H1).
  exists e'. unfold push_sample. by rewrite E1.
Qed.

Lemma push_all_law e l r :
  codec_holds e l -> content_ok (l ++ r) ->
  exists e', try_fold push_sample e r = Ok e' /\ codec_holds e' (l ++ r).
Proof.
  revert e l. induction r as [|s r IH]; intros e l He Hc.
  { exists e. by rewrite app_nil_r. }
  replace (l ++ s :: r) with ((l ++ [s]) ++ r) in * by (by rewrite <- app_assoc).
  pose proof Hc as (Hc1 & _)%content_ok_app.
  destruct (push_law e l s He Hc1) as (e1 & E1 & H1). cbn [try_fold]. rewrite E1. by apply IH.
Qed.

(** *** The range iterator selects *)

Lemma ci_next_internal_law it x l :
  codec_yields (ci_inner it) (x :: l) ->
  if ci_end it <? timestamp x then ci_next_internal it = None
  else exists inner, ci_next_internal it =
    Some (x, mkChunkIterator inner (ci_start it) (ci_end it) (ci_init it)) /\ codec_yields inner l.
Proof.
  intros Hy. unfold ci_next_internal. destruct (codec_next_law _ _ _ Hy) as (inner & -> & Hy').
  destruct (ci_end it <? timestamp x); eauto.
Qed.

Lemma select_past s e x l :
  ts_sorted (x :: l) -> e < timestamp x -> select s e (x :: l) = [].
Proof.
  intros [_ Hx]%ts_sorted_cons He. apply select_none. constructor; [lia|].
  eapply Forall_impl; [exact Hx|]. unfold ts_lt. intros; lia.
Qed.

Lemma ci_collect_started fuel inner l s e :
  codec_yields inner l -> ts_sorted l -> Forall (fun x => s <= timestamp x) l ->
  (length l <= fuel)%nat ->
  ci_collect fuel (mkChunkIterator inner s e true) = select s e l.
Proof.
  revert inner fuel. induction l as [|x l IH]; intros inner fuel Hy Hs Hge Hf.
  { destruct fuel; [done|]. cbn [ci_collect]. unfold ci_next, ci_next_internal.
    cbn [negb ci_init ci_inner]. by rewrite (codec_done_law _ Hy). }
  destruct fuel as [|fuel]; [cbn in Hf; lia|]. cbn [ci_collect]. unfold ci_next. cbn [negb ci_init].
  pose proof (ci_next_internal_law (mkChunkIterator inner s e true) x l Hy) as Hn.
  cbn [ci_end ci_start ci_init] in Hn. apply Forall_cons in Hge as [Hx Hge].
  destruct (Z.ltb_spec e (timestamp x)) as [Hlt|Hle].
  { rewrite Hn. by rewrite select_past. }
  destruct Hn as (inner' & -> & Hy'). apply ts_sorted_cons in Hs as [Hs _].
  rewrite IH by (done || (cbn in Hf; lia)). unfold select. cbn [List.filter]. unfold in_range at 2.
  by rewrite (proj2 (Z.leb_le _ _) Hx), (proj2 (Z.leb_le _ _) Hle).
Qed.

Lemma ci_skip_law fuel inner l s e :
  codec_yields inner l -> ts_sorted l -> (length l <= fuel)%nat ->
  match select s e l with
  | [] => ci_skip fuel (mkChunkIterator inner s e true) = None
  | x :: r => exists inner' l', ci_skip fuel (mkChunkIterator inner s e true) =
      Some (x, mkChunkIterator inner' s e true) /\
      codec_yields inner' l' /\ ts_sorted l' /\ Forall (fun x => s <= timestamp x) l' /\
      select s e l' = r /\ (length l' < length l)%nat
  end.
Proof.
  revert inner fuel. induction l as [|x l IH]; intros inner fuel Hy Hs Hf.
  { cbn. destruct fuel; [done|]. cbn. unfold ci_next_internal. cbn. by rewrite (codec_done_law _ Hy). }
  destruct fuel as [|fuel]; [cbn in Hf; lia|]. cbn [ci_skip].
  pose proof (ci_next_internal_law (mkChunkIterator inner s e true) x l Hy) as Hn.
  cbn [ci_end ci_start ci_init] in Hn.
  destruct (Z.ltb_spec e (timestamp x)) as [Hlt|Hle].
  { rewrite Hn. by rewrite select_past. }
  destruct Hn as (inner' & -> & Hy'). cbn [ci_start ci_end].
  apply ts_sorted_cons in Hs as [Hs Hx]. unfold select. cbn [List.filter]. unfold in_range at 1.
  rewrite (proj2 (Z.leb_le _ _) Hle), andb_true_r.
  destruct (Z.ltb_spec (timestamp x) s); destruct (Z.leb_spec s (timestamp x)); try lia.
  - specialize (IH inner' fuel Hy' Hs ltac:(cbn in Hf; lia)). unfold select in IH.
    destruct (List.filter (in_range s e) l); [done|].
    destruct IH as (i2 & l2 & ? & ? & ? & ? & ? & ?). exists i2, l2. split_and!; try done. cbn. lia.
  - exists inner', l. split_and!; try done; [|cbn; lia].
    eapply Forall_impl; [exact Hx|]. unfold ts_lt. intros; lia.
Qed.

Lemma cc_range_iter_law c l s e :
  codec_holds (encoder c) l -> ts_sorted l -> cc_range_iter c s e = select s e l.
Proof.
  intros Hh Hs. unfold cc_range_iter. pose proof (codec_iter_law _ _ Hh) as Hy.
  rewrite (codec_left_law _ _ Hy). set (inner := codec_iter (encoder c)) in *.
  destruct (length l) as [|n] eqn:En.
  { destruct l; [done|done]. }
  cbn [ci_collect]. unfold ci_next. cbn [ci_init negb ci_inner ci_start ci_end].
  rewrite (codec_left_law _ _ Hy).
  pose proof (ci_skip_law (length l) inner l s e Hy Hs ltac:(lia)) as Hk.
  destruct (select s e l) as [|x r]; [by rewrite Hk|].
  destruct Hk as (inner' & l' & -> & Hy' & Hs' & Hge & Hsel & Hlt). f_equal.
  rewrite <- Hsel. apply ci_collect_started; (done || lia).
Qed.

(** *** Rebuilding *)

Definition cc_holds (c : CodecChunk E) (l : list Sample) : Prop :=
  codec_holds (encoder c) l /\ content_ok l.

Lemma cc_len_law c l : codec_holds (encoder c) l -> cc_len c = Z.of_nat (length l).
Proof. apply codec_count_law. Qed.

Lemma cc_is_empty_law c l :
  codec_holds (encoder c) l -> cc_is_empty c = match l with [] => true | _ => false end.
Proof. intros Hh. unfold cc_is_empty. rewrite (cc_len_law _ _ Hh). by destruct l. Qed.

Lemma cc_iter_law c l : cc_holds c l -> cc_iter c = l.
Proof.
  intros [Hh [Hs Hv]]. unfold cc_iter. rewrite (cc_range_iter_law _ _ _ _ Hh Hs). apply select_all.
  eapply Forall_impl; [exact Hv|]. intros x [[Ht _] _]. unfold_ints. lia.
Qed.

Lemma try_fold_filter {A} (g : A -> Sample -> TsdbResult A) (f : Sample -> bool) a l :
  try_fold (fun a x => if f x then Ok a else g a x) a l =
    try_fold g a (List.filter (fun x => negb (f x)) l).
Proof.
  revert a. induction l as [|x l IH]; intros a; cbn; [done|].
  destruct (f x); cbn; [apply IH|]. destruct (g a x); [apply IH|done].
Qed.

Lemma cc_remove_law c l s e :
  cc_holds c l ->
  exists c', cc_remove_range c s e = Ok (Z.of_nat (length (select s e l)), c') /\
    cc_holds c' (remove s e l) /\ cc_max_size c' = cc_max_size c.
Proof.
  intros [Hh Hl]. unfold cc_remove_range. rewrite (cc_is_empty_law _ _ Hh).
  destruct l as [|x l0]; [by exists c|]. cbn [orb].
  unfold cc_first_timestamp. rewrite (codec_first_law _ _ _ Hh).
  destruct (snoc_cases (x :: l0)) as (l1 & y & El); [done|].
  unfold cc_last_timestamp. rewrite El in Hh |- *. rewrite (proj1 (codec_last_law _ _ _ Hh)).
  rewrite <- El in *. set (l := x :: l0) in *.
  destruct ((timestamp y <? s) || (e <? timestamp x)) eqn:Hout.
  { assert (select s e l = []) as Hsel.
    { apply orb_true_iff in Hout as [?%Z.ltb_lt|?%Z.ltb_lt].
      - apply select_none. rewrite El in Hl |- *. destruct Hl as [[_ Hy]%ts_sorted_snoc _].
        apply Forall_app. split; [|constructor; [lia|constructor]].
        eapply Forall_impl; [exact Hy|]. unfold ts_lt. intros; lia.
      - apply select_past; [apply Hl|done]. }
    exists c. rewrite Hsel, (remove_unselected _ _ _ Hsel). done. }
  erewrite codec_fold_law by (by apply codec_iter_law). rewrite try_fold_filter. fold (remove s e l).
  destruct (push_all_law (codec_with_soft_cap (cc_max_size c)) [] (remove s e l)) as (e' & E1 & H1).
  { apply codec_new_law. } { by apply content_ok_remove. }
  change (List.filter _ l) with (remove s e l). rewrite E1. cbn [app] in H1.
  exists (with_encoder c e'). split; [|split; [split; [exact H1|by apply content_ok_remove]|done]].
  rewrite (cc_len_law c l Hh). unfold cc_len. cbn [encoder with_encoder].
  rewrite (codec_count_law _ _ H1). pose proof (length_select_remove s e l). do 2 f_equal. lia.
Qed.

Lemma last_cons_default (x d : Sample) a : List.last (x :: a) d = List.last a x.
Proof.
  revert x d. induction a as [|y a IH]; intros x d; [done|].
  change (List.last (x :: y :: a) d) with (List.last (y :: a) d). by rewrite !IH.
Qed.

Lemma cc_copy_below_law fuel it l ts enc pre current :
  codec_yields it l -> codec_holds enc pre -> content_ok (pre ++ l) -> (length l <= fuel)%nat ->
  exists a b enc' it', l = a ++ b /\ Forall (fun x => timestamp x < ts) a /\
    codec_holds enc' (pre ++ a) /\ codec_yields it' (tail b) /\
    cc_copy_below fuel it ts enc current =
      Ok (enc', (match b with x :: _ => x | [] => List.last a current end), it') /\
    match b with x :: _ => ts <= timestamp x | [] => True end.
Proof.
  revert it fuel enc pre current. induction l as [|x l IH]; intros it fuel enc pre current Hy He Hc Hf.
  { exists [], [], enc, it. rewrite (app_nil_r pre). split_and!; try done.
    destruct fuel; [done|]. cbn. by rewrite (codec_done_law _ Hy). }
  destruct fuel as [|fuel]; [cbn in Hf; lia|]. cbn [cc_copy_below].
  destruct (codec_next_law _ _ _ Hy) as (it' & -> & Hy').
  destruct (Z.leb_spec ts (timestamp x)) as [Hle|Hlt].
  { exists [], (x :: l), enc, it'. rewrite (app_nil_r pre). split_and!; try done. }
  replace (pre ++ x :: l) with ((pre ++ [x]) ++ l) in Hc by (by rewrite <- app_assoc).
  pose proof Hc as (Hc1 & _)%content_ok_app.
  destruct (push_law enc pre x He Hc1) as (e1 & -> & H1).
  destruct (IH it' fuel e1 (pre ++ [x]) x Hy' H1 Hc ltac:(cbn in Hf; lia))
    as (a & b & e2 & i2 & -> & Ha & H2 & Hy2 & -> & Hb).
  exists (x :: a), b, e2, i2. rewrite <- app_assoc in H2. split_and!; try done.
  - by constructor.
  - destruct b; [|done]. by rewrite last_cons_default.
Qed.

(** The content around an upserted sample, in the shapes the rebuild leaves it. *)
Lemma list_upsert_at p s a b :
  Forall (fun x => timestamp x < timestamp s) a -> ts_sorted b ->
  match b with x :: _ => timestamp s <= timestamp x | [] => True end ->
  list_upsert p s (a ++ b) =
    match b with
    | [] => Ok (a ++ [s])
    | x :: b' =>
        if timestamp x =? timestamp s then
          let? v := duplicate_value p (timestamp s) (value x) (value s) in
          Ok (a ++ mkSample (timestamp x) v :: b')
        else Ok (a ++ s :: x :: b')
    end.
Proof.
  intros Ha Hb Hx. rewrite list_upsert_app_l by done. destruct b as [|x b]; [done|].
  cbn [list_upsert]. rewrite (Z.eqb_sym (timestamp s)).
  destruct (Z.ltb_spec (timestamp s) (timestamp x)); destruct (Z.eqb_spec (timestamp x) (timestamp s));
    try lia; [done|]. by destruct (duplicate_value _ _ _ _).
Qed.

Lemma cc_upsert_front c x l s p :
  cc_holds c (x :: l) -> sample_valid s -> timestamp s < timestamp x ->
  exists c', cc_upsert_sample c s p = Ok (Z.of_nat (length (s :: x :: l)), c') /\
    cc_holds c' (s :: x :: l) /\ cc_max_size c' = cc_max_size c.
Proof.
  intros [Hh Hl] Hs Hlt. unfold cc_upsert_sample. rewrite (cc_len_law _ _ Hh).
  destruct (Z.eqb_spec (Z.of_nat (length (x :: l))) 0); [cbn in *; lia|].
  unfold cc_first_timestamp. rewrite (codec_first_law _ _ _ Hh).
  destruct (Z.ltb_spec (timestamp s) (timestamp x)); [|lia].
  assert (content_ok (s :: x :: l)) as Hc.
  { apply content_ok_cons. split_and!; [done|done|]. apply content_ok_cons in Hl as (_ & _ & Hx).
    constructor; [done|]. eapply Forall_impl; [exact Hx|]. unfold ts_lt. intros; lia. }
  destruct (push_law (codec_with_soft_cap (cc_max_size c)) [] s) as (e1 & -> & Hh1).
  { apply codec_new_law. } { change ([] ++ [s]) with (take 1 (s :: x :: l)). auto with tsdb. }
  erewrite codec_fold_law by (by apply codec_iter_law).
  destruct (push_all_law e1 [s] (x :: l) Hh1 Hc) as (e2 & -> & Hh2).
  exists (with_encoder c e2). split; [|split; [split; [exact Hh2|exact Hc]|done]]. do 2 f_equal. cbn [length]. lia.
Qed.

Lemma cc_upsert_law c l s p :
  cc_holds c l -> sample_valid s ->
  match list_upsert p s l with
  | Ok l' => exists c', cc_upsert_sample c s p = Ok (Z.of_nat (length l'), c') /\
      cc_holds c' l' /\ cc_max_size c' = cc_max_size c
  | Err e => cc_upsert_sample c s p = Err e
  end.
Proof.
  intros Hc Hs. destruct l as [|x0 l0].
  { destruct Hc as [Hh Hl]. cbn [list_upsert]. unfold cc_upsert_sample. rewrite (cc_len_law _ _ Hh).
    cbn [length Z.of_nat Z.eqb]. unfold cc_add_sample.
    assert (content_ok [s]) by (split; [apply ts_sorted_singleton|by fora]).
    destruct (push_law (encoder c) [] s Hh) as (e1 & -> & Hh1); [done|]. by eexists. }
  destruct (Z.lt_ge_cases (timestamp s) (timestamp x0)) as [Hlt|Hge].
  { cbn [list_upsert]. destruct (Z.ltb_spec (timestamp s) (timestamp x0)); [|lia].
    by apply cc_upsert_front. }
  destruct Hc as [Hh Hl]. set (l := x0 :: l0) in *. unfold cc_upsert_sample.
  rewrite (cc_len_law _ _ Hh). destruct (Z.eqb_spec (Z.of_nat (length l)) 0); [cbn in *; lia|].
  unfold cc_first_timestamp. rewrite (codec_first_law _ _ _ Hh).
  destruct (Z.ltb_spec (timestamp s) (timestamp x0)); [lia|].
  pose proof (codec_iter_law _ _ Hh) as Hy. rewrite (codec_left_law _ _ Hy).
  destruct (cc_copy_below_law (length l) _ l (timestamp s) (codec_with_soft_cap (cc_max_size c)) []
    (mkSample 0 f64_zero) Hy (codec_new_law _) Hl ltac:(lia))
    as (a & b & e1 & it1 & El & Ha & Hh1 & Hy1 & -> & Hb).
  cbn [app] in Hh1. assert (ts_sorted b) as Hbs.
  { destruct Hl as [Hl _]. rewrite El in Hl. by apply ts_sorted_app in Hl as (_ & ? & _). }
  pose proof (list_upsert_at p s a b Ha Hbs Hb) as Hu. rewrite <- El in Hu.
  pose proof (fun l' => content_ok_upsert p s l l' Hs Hl) as Hok. rewrite Hu in Hok |- *.
  destruct b as [|y b']; cbn [tail] in Hy1.
  - (* the sample is the newest *)
    rewrite app_nil_r in El. assert (a <> []) as Hne by (by rewrite <- El).
    destruct (snoc_cases a Hne) as (a' & z & Ea). rewrite Ea, List.last_last, <- Ea.
    assert (timestamp z < timestamp s) as Hz
      by (rewrite Ea in Ha; by apply Forall_app in Ha as [_ [? _]%Forall_cons]).
    destruct (Z.eqb_spec (timestamp z) (timestamp s)); [lia|].
    specialize (Hok _ eq_refl). destruct (push_law e1 a s Hh1 Hok) as (e2 & -> & Hh2).
    destruct (Z.ltb_spec (timestamp s) (timestamp z)); [lia|].
    rewrite (codec_fold_law _ _ _ _ Hy1). cbn [try_fold].
    exists (with_encoder c e2). split; [|split; [split; [exact Hh2|exact Hok]|done]].
    do 2 f_equal. rewrite El, length_app. cbn [length]. lia.
  - destruct (Z.eqb_spec (timestamp y) (timestamp s)) as [Hys|Hys].
    + (* the timestamp is taken *)
      destruct (duplicate_value p (timestamp s) (value y) (value s)) as [v|e']; [|done].
      specialize (Hok _ eq_refl). set (y' := mkSample (timestamp y) v) in *.
      replace (a ++ y' :: b') with ((a ++ [y']) ++ b') in * by (by rewrite <- app_assoc).
      pose proof Hok as (Hok1 & _)%content_ok_app.
      destruct (push_law e1 a y' Hh1 Hok1) as (e2 & -> & Hh2).
      rewrite (codec_fold_law _ _ _ _ Hy1).
      destruct (push_all_law e2 _ b' Hh2 Hok) as (e3 & -> & Hh3).
      exists (with_encoder c e3). split; [|split; [split; [exact Hh3|exact Hok]|done]].
      do 2 f_equal. rewrite El, !length_app. cbn [length]. lia.
    + (* it falls in front of [y] *)
      specialize (Hok _ eq_refl). pose proof Hok as Hok'.
      replace (a ++ s :: y :: b') with (((a ++ [s]) ++ [y]) ++ b') in Hok'
        by (by rewrite <- !app_assoc).
      pose proof Hok' as (Hok2 & _)%content_ok_app. pose proof Hok2 as (Hok1 & _)%content_ok_app.
      destruct (push_law e1 a s Hh1 Hok1) as (e2 & -> & Hh2).
      destruct (Z.ltb_spec (timestamp s) (timestamp y)); [|lia].
      destruct (push_law e2 _ y Hh2 Hok2) as (e3 & -> & Hh3).
      rewrite (codec_fold_law _ _ _ _ Hy1).
      destruct (push_all_law e3 _ b' Hh3 Hok') as (e4 & -> & Hh4).
      rewrite <- !app_assoc in Hh4. cbn [app] in Hh4.
      exists (with_encoder c e4). split; [|split; [split; [exact Hh4|exact Hok]|done]].
      do 2 f_equal. rewrite El, !length_app. cbn [length]. lia.
Qed.

Lemma append_samples_law c l r pre :
  codec_holds (encoder c) l -> content_ok (l ++ r) ->
  exists c', try_fold (fun '(results, c) s =>
      match cc_add_sample c s with
      | Ok c => Ok (results ++ [AddOk s], c)
      | Err (CapacityFull cap) => Err (CapacityFull cap)
      | Err _ => Ok (results ++ [AddError CANNOT_ADD_SAMPLE], c)
      end) (pre, c) r = Ok (pre ++ map AddOk r, c') /\
    codec_holds (encoder c') (l ++ r) /\ cc_max_size c' = cc_max_size c.
Proof.
  revert c l pre. induction r as [|s r IH]; intros c l pre Hh Hc.
  { exists c. cbn. by rewrite !app_nil_r. }
  replace (l ++ s :: r) with ((l ++ [s]) ++ r) in * by (by rewrite <- app_assoc).
  pose proof Hc as (Hc1 & _)%content_ok_app.
  destruct (push_law (encoder c) l s Hh Hc1) as (e1 & E1 & Hh1).
  cbn [try_fold]. unfold cc_add_sample at 1. rewrite E1.
  destruct (IH (with_encoder c e1) (l ++ [s]) (pre ++ [AddOk s]) Hh1 Hc) as (c' & -> & Hc' & Hm).
  exists c'. cbn [map]. split_and!; [by rewrite <- app_assoc|done|done].
Qed.

Lemma cc_merge_law c l r dp :
  cc_holds c l -> content_ok r ->
  exists res c', cc_merge_samples c r dp = Ok (res, c') /\
    cc_holds c' (upsert_all (default KeepLast dp) l r) /\
    Forall2 (result_for (default KeepLast dp) l) r res /\ cc_max_size c' = cc_max_size c.
Proof.
  intros Hcc Hr. pose proof Hcc as [Hh Hl]. set (p := default KeepLast dp).
  unfold cc_merge_samples. destruct r as [|s r]; [by exists [], c|].
  rewrite (cc_is_empty_law _ _ Hh). set (r' := s :: r) in *.
  destruct ((match l with [] => true | _ => false end) || (cc_last_timestamp c <? timestamp s)) eqn:Happ.
  - assert (Forall (fun x => Forall (ts_lt x) r') l) as Hbelow.
    { destruct l as [|x l _] using rev_ind; [constructor|].
      assert (timestamp x < timestamp s) as Hxs.
      { unfold cc_last_timestamp in Happ. rewrite (proj1 (codec_last_law _ _ _ Hh)) in Happ.
        apply orb_true_iff in Happ as [Happ|?%Z.ltb_lt]; [|done]. by destruct l. }
      destruct Hr as [[_ Hs]%ts_sorted_cons _]. destruct Hl as [[_ Hx]%ts_sorted_snoc _].
      assert (Forall (ts_lt x) r') as Hxr
        by (constructor; [done|]; eapply Forall_impl; [exact Hs|]; unfold ts_lt; intros; lia).
      apply Forall_app. split; [|by constructor]. eapply Forall_impl; [exact Hx|]. intros y Hy.
      eapply Forall_impl; [exact Hxr|]. unfold ts_lt in *. intros; lia. }
    assert (content_ok (l ++ r')) as Hlr by (by apply content_ok_app).
    destruct (append_samples_law c l r' [] Hh Hlr) as (c' & E1 & Hc' & Hm).
    unfold append_samples. rewrite E1. eexists _, _. split; [done|]. cbn [app].
    rewrite upsert_all_after by (done || apply Hr). split_and!; [by split| |done].
    rewrite <- (merge_result_after p _ _ Hbelow). apply result_for_merge.
  - rewrite (cc_iter_law _ _ Hcc), merge_chunk_samples_spec by (apply Hl || apply Hr).
    fold p. assert (content_ok (upsert_all p l r')) as Hu
      by (apply content_ok_upsert_all; [done|apply Hr]).
    destruct (push_all_law (codec_with_soft_cap (cc_max_size c)) [] _ (codec_new_law _) Hu)
      as (e1 & -> & Hh1).
    exists (map (merge_result p l) r'), (with_encoder c e1).
    split_and!; [done|by split|apply result_for_merge|done].
Qed.

(** The counting fold of [split] sends the first half left and the rest right. *)
Definition split_step (mid : Z) : Z * E * E -> Sample -> TsdbResult (Z * E * E) :=
  fun '(i, lhs, rhs) x =>
    if i <? mid then let? lhs := push_sample lhs x in Ok (i + 1, lhs, rhs)
    else let? rhs := push_sample rhs x in Ok (i + 1, lhs, rhs).

Lemma split_fold_left mid i lhs rhs l :
  i + Z.of_nat (length l) <= mid ->
  try_fold (split_step mid) (i, lhs, rhs) l =
    let? lhs := try_fold push_sample lhs l in Ok (i + Z.of_nat (length l), lhs, rhs).
Proof.
  revert i lhs. induction l as [|x l IH]; intros i lhs Hi; cbn [try_fold length] in *.
  { by rewrite Z.add_0_r. }
  unfold split_step at 1. destruct (Z.ltb_spec i mid); [|lia].
  destruct (push_sample lhs x) as [lhs'|]; [|done]. rewrite IH by lia.
  destruct (try_fold push_sample lhs' l); [|done]. do 3 f_equal. lia.
Qed.

Lemma split_fold_right mid i lhs rhs l :
  mid <= i ->
  try_fold (split_step mid) (i, lhs, rhs) l =
    let? rhs := try_fold push_sample rhs l in Ok (i + Z.of_nat (length l), lhs, rhs).
Proof.
  revert i rhs. induction l as [|x l IH]; intros i rhs Hi; cbn [try_fold length] in *.
  { by rewrite Z.add_0_r. }
  unfold split_step at 1. destruct (Z.ltb_spec i mid); [lia|].
  destruct (push_sample rhs x) as [rhs'|]; [|done]. rewrite IH by lia.
  destruct (try_fold push_sample rhs' l); [|done]. do 3 f_equal. lia.
Qed.

Lemma cc_split_law c l :
  cc_holds c l -> l <> [] ->
  exists c1 c2, cc_split c = Ok (c1, c2) /\
    cc_holds c1 (take (length l / 2) l) /\ cc_holds c2 (drop (length l / 2) l) /\
    cc_max_size c1 = cc_max_size c /\ cc_max_size c2 = cc_max_size c.
Proof.
  intros [Hh Hl] Hne. unfold cc_split. rewrite (cc_is_empty_law _ _ Hh).
  destruct l as [|x l0]; [done|]. set (l := x :: l0) in *. rewrite (cc_len_law _ _ Hh).
  set (mid := (length l / 2)%nat).
  assert (Z.of_nat (length l) / 2 = Z.of_nat mid) as ->
    by (subst mid; by rewrite Nat2Z.inj_div).
  rewrite (codec_fold_law _ l) by (by apply codec_iter_law).
  change (try_fold _ _ l) with
    (try_fold (split_step (Z.of_nat mid)) (0, codec_with_soft_cap (cc_max_size c),
      codec_with_soft_cap (cc_max_size c)) l).
  replace (try_fold _ _ l) with (try_fold (split_step (Z.of_nat mid))
    (0, codec_with_soft_cap (cc_max_size c), codec_with_soft_cap (cc_max_size c))
    (take mid l ++ drop mid l)) by (by rewrite take_drop).
  rewrite try_fold_app.
  assert (mid <= length l)%nat as Hmid by (subst mid; apply Nat.Div0.div_le_upper_bound; lia).
  rewrite split_fold_left by (rewrite length_take; lia).
  destruct (push_all_law (codec_with_soft_cap (cc_max_size c)) [] (take mid l) (codec_new_law _)
    (content_ok_take mid l Hl)) as (e1 & -> & Hh1).
  rewrite split_fold_right by (rewrite length_take; lia).
  destruct (push_all_law (codec_with_soft_cap (cc_max_size c)) [] (drop mid l) (codec_new_law _)
    (content_ok_drop mid l Hl)) as (e2 & -> & Hh2).
  eexists _, _. split; [done|]. split_and!; try done; (split; [done|auto with tsdb]).
Qed.

Lemma cc_serialize_app (c : CodecChunk E) dest : cc_serialize c dest = dest ++ cc_serialize c [].
Proof.
  unfold cc_serialize. rewrite codec_serialize_law, (codec_serialize_law _ (write_uvarint [] _)).
  by rewrite (write_uvarint_app dest), <- app_assoc.
Qed.

(** A reloaded chunk is the chunk, its stream's allocation cap set to its budget. *)
Lemma cc_roundtrip c l rest :
  cc_holds c l -> is_u64 (cc_max_size c) ->
  Z.of_nat (length l) < 2 ^ 64 -> cc_data_size c < 2 ^ 64 ->
  cc_deserialize (cc_serialize c [] ++ rest) =
    Ok (mkCodecChunk (codec_set_soft_cap (encoder c) (cc_max_size c)) (cc_max_size c)).
Proof.
  intros [Hh Hl] Hm Hlen Hsize. unfold cc_serialize, cc_deserialize.
  rewrite codec_serialize_law, <- app_assoc, read_write_uvarint by done. cbn [map_err].
  erewrite codec_persist_law by (done || by rewrite (codec_count_law _ _ Hh)).
  by rewrite codec_soft_cap_twice.
Qed.

#[export] Instance Codec_laws : ChunkLaws (CodecChunk E).
Proof.
  refine {| holds := cc_holds |}.
  - by intros c l [_ ?].
  - intros c l [Hh _]. by apply codec_count_law.
  - intros c x l [Hh _]. by eapply codec_first_law.
  - intros c l x [Hh _]. by apply codec_last_law in Hh.
  - intros c l [Hh _]. cbn. unfold cc_data_size. pose proof (codec_size_law _ _ Hh). lia.
  - intros c l Hc. by apply cc_iter_law.
  - intros c l s e [Hh [Hs _]]. by apply cc_range_iter_law.
  - intros c l s e [Hh [Hs _]] Hm. cbn. unfold cc_get_range. rewrite (cc_is_empty_law _ _ Hh).
    destruct l; [done|]. rewrite (codec_reserve_law _ _ _ _ Hh Hm). by rewrite (cc_range_iter_law _ _ _ _ Hh Hs).
  - intros c l s e. apply cc_remove_law.
  - intros c l s [Hh Hl] Hs Ha _. cbn. unfold cc_add_sample.
    destruct (push_law (encoder c) l s Hh ltac:(auto with tsdb)) as (e1 & -> & Hh1).
    exists (with_encoder c e1). split; [done|]. split; [split; [done|auto with tsdb]|done].
  - intros c l s p Hc Hs _. by apply cc_upsert_law.
  - intros c l r dp Hc Hr _. by apply cc_merge_law.
  - intros c l _. split; [|done]. split; [apply codec_clear_law|auto with tsdb].
  - intros c l r _ Hr. cbn. unfold cc_compress.
    destruct (push_all_law (codec_with_soft_cap (cc_max_size c)) [] r (codec_new_law _) Hr)
      as (e1 & -> & Hh1). by exists (with_encoder c e1).
  - intros c l Hc Hlen. apply cc_split_law; [done|]. by destruct l; [cbn in Hlen; lia|].
Defined.

End Laws.
