(* ===== verification/GorillaChunk.v ===== *)
(** * GorillaChunk: the Gorilla instance of the codec chunk

    [gorilla_chunk.rs]: the Gorilla encoder and iterator as a [SampleCodec],
    its laws from the encoder's representation lemmas, and the operations the
    Chimp chunk does not share: the reservation of [get_range] and the
    compression ratio. *)

From stdpp Require Import strings.
From S2P Require Import Prelude Float64 Types Content Encoding BitStream Gorilla ChunkOps Codec.

Abbreviation GorillaChunk := (CodecChunk GorillaEncoder).

(** How many samples to reserve for a window: the share of the chunk's span. *)
Definition estimate_samples_in (enc : GorillaEncoder) (s e : Timestamp) : Z :=
  let len := num_samples enc in
  let first := first_ts enc in
  let last := last_ts enc in
  if (s <=? first) && (last <=? e) then len
  else
    let lo := Z.max s first in
    let hi := Z.min e last in
    if hi <? lo then 0
    else
      let span := Z.max (sat_i64 (last - first)) 1 in
      let part := hi - lo + 1 in
      Z.min (wrap_u64 (len * part / span) + 1) len.

(** [Vec::try_reserve_exact] fails when the allocation exceeds [isize::MAX]
    bytes; memory exhaustion is not modelled. *)
Definition try_reserve_exact (n : Z) : bool := n * SAMPLE_SIZE <=? i64_MAX.

(** The allocation of [get_range]; the message's numbers are left out. *)
Definition gorilla_reserve (enc : GorillaEncoder) (s e : Timestamp) : TsdbResult unit :=
  if try_reserve_exact (estimate_samples_in enc s e) then Ok tt
  else Err (DecodingError "cannot reserve samples for gorilla chunk range").

#[export] Instance Gorilla_codec : SampleCodec GorillaEncoder GorillaIterator := {
  codec_with_soft_cap := gorilla_with_soft_cap;
  codec_set_soft_cap := gorilla_set_soft_cap;
  codec_clear := gorilla_clear;
  codec_add := gorilla_add_sample;
  codec_count := num_samples;
  codec_first_ts := first_ts;
  codec_last_ts := last_ts;
  codec_last_value := last_value;
  codec_bytes e := stream (writer e);
  codec_iter := gorilla_iter;
  codec_next := gorilla_next;
  codec_reserve := gorilla_reserve;
  codec_left it := Z.to_nat (it_num_samples it - it_idx it);
  codec_serialize := gorilla_serialize;
  codec_deserialize := gorilla_deserialize;
}.

Definition gorilla_compression_ratio (c : GorillaChunk) : f64 :=
  if cc_is_empty c then f64_zero
  else f64_of_usize (cc_len c * SAMPLE_SIZE / cc_data_size c).

(** ** Laws *)

Lemma content_gap_ok l a s :
  content_ok (l ++ [s]) -> list.last l = Some a -> gap_ok a s.
Proof.
  intros [Hs Hv] Ha. apply last_Some in Ha as [l' ->].
  apply ts_sorted_snoc in Hs as [_ [_ [Hlt _]%Forall_cons]%Forall_app].
  apply Forall_app in Hv as [[_ [[_ Ha] _]%Forall_cons]%Forall_app [[[Hs _] _] _]%Forall_cons].
  unfold gap_ok, ts_lt in *. ilia.
Qed.

(** The reservation is never larger than the chunk. *)
Lemma estimate_samples_bound enc l s e :
  enc_rep enc l -> 0 <= estimate_samples_in enc s e <= Z.of_nat (length l).
Proof.
  intros Hh. unfold estimate_samples_in. assert (num_samples enc = Z.of_nat (length l)) as -> by apply Hh.
  case_match; [lia|]. case_match; [lia|].
  pose proof (wrap_u64_range (Z.of_nat (length l) *
    (Z.min e (last_ts enc) - Z.max s (first_ts enc) + 1) /
    Z.max (sat_i64 (last_ts enc - first_ts enc)) 1)) as [? _]. lia.
Qed.

Lemma gorilla_reserve_ok enc l s e : enc_rep enc l -> fits_memory l -> gorilla_reserve enc s e = Ok tt.
Proof.
  intros Hh Hm. pose proof (estimate_samples_bound enc l s e Hh) as Hest.
  unfold gorilla_reserve, try_reserve_exact, fits_memory, SAMPLE_SIZE in *.
  destruct (Z.leb_spec (estimate_samples_in enc s e * 16) i64_MAX); [done|]. lia.
Qed.

#[export] Instance Gorilla_laws : CodecLaws GorillaEncoder GorillaIterator.
Proof.
  refine {| codec_holds := enc_rep; codec_yields := it_rep |}; cbn.
  - apply enc_with_soft_cap_rep.
  - apply enc_clear_rep.
  - apply enc_set_soft_cap_rep.
  - intros e l s Hr Hc. apply enc_add_rep; [done| |by intros a; apply content_gap_ok].
    destruct Hc as [_ [_ [[? _] _]%Forall_cons]%Forall_app]. done.
  - intros e l Hr. apply Hr.
  - intros e x l (_ & _ & _ & _ & Hf & _). done.
  - intros e l x (_ & _ & _ & _ & _ & Hl & _). by rewrite last_snoc in Hl.
  - apply gorilla_iter_rep.
  - apply enc_rep_bytes.
  - intros e l s t. apply gorilla_reserve_ok.
  - intros i l (_ & _ & Hn & _). lia.
  - apply gorilla_next_rep.
  - apply gorilla_next_done.
  - done.
  - apply gorilla_serialize_app.
  - intros e l rest Hr Hn Hb. by eapply gorilla_roundtrip.
Defined.

(** [GorillaChunk::get_range] never refuses a chunk that could be held
    decoded: its reservation is bounded by the number of samples stored, so for
    any window it returns exactly the stored samples inside it, in order. *)
Theorem gorilla_get_range_exact (c : GorillaChunk) (l : list Sample) (s e : Timestamp) :
  cc_holds c l -> fits_memory l ->
  0 <= estimate_samples_in (encoder c) s e <= cc_len c /\ cc_get_range c s e = Ok (select s e l).
Proof.
  intros Hc Hm. split; [|exact (holds_get_range c l s e Hc Hm)].
  unfold cc_len. rewrite (codec_count_law _ _ (proj1 Hc)). apply estimate_samples_bound, Hc.
Qed.

Lemma gorilla_get_range_exact_witness :
  exists c : GorillaChunk,
    cc_compress (cc_with_max_size 64) [mkSample 10 1; mkSample 20 2; mkSample 35 3] = Ok c /\
    cc_get_range c 15 35 = Ok [mkSample 20 2; mkSample 35 3].
Proof.
  destruct (holds_set_data (cc_with_max_size (E := GorillaEncoder) 64) []
    [mkSample 10 1; mkSample 20 2; mkSample 35 3]) as (c & E1 & Hc & _).
  - split; [apply enc_with_soft_cap_rep|apply content_ok_nil].
  - apply content_okb_sound. vm_compute. reflexivity.
  - exists c. split; [exact E1|].
    exact (proj2 (gorilla_get_range_exact c _ 15 35 Hc ltac:(vm_compute; discriminate))).
Defined.
