(* ===== verification/ChimpXor.v ===== *)
(** * ChimpXor: the Chimp XOR codec

    Models [src/series/chunks/chimp/encoder.rs].  A value is xor-ed with its
    predecessor and written behind a two-bit flag: unchanged, a window with
    trailing zeros cut off, the leading-zero class of the last value, or a new
    class.  The caller's own marker bits go out in the same write. *)

From S2P Require Import Prelude Encoding BitStream BitReader Varbit VarbitXor.

Definition THRESHOLD : Z := 6.

Definition LEADING_REPR_ENC : list Z :=
  [0; 0; 0; 0; 0; 0; 0; 0; 1; 1; 1; 1; 2; 2; 2; 2; 3; 3; 4; 4; 5; 5; 6; 6; 7; 7; 7; 7; 7; 7; 7; 7;
   7; 7; 7; 7; 7; 7; 7; 7; 7; 7; 7; 7; 7; 7; 7; 7; 7; 7; 7; 7; 7; 7; 7; 7; 7; 7; 7; 7; 7; 7; 7; 7].

Definition LEADING_ROUND_ENC : list Z :=
  [0; 0; 0; 0; 0; 0; 0; 0;
   8; 8; 8; 8; 12; 12; 12; 12;
   16; 16; 18; 18; 20; 20; 22; 22;
   24; 24; 24; 24; 24; 24; 24; 24; 24; 24; 24; 24; 24; 24; 24; 24; 24; 24; 24; 24; 24; 24; 24; 24;
   24; 24; 24; 24; 24; 24; 24; 24; 24; 24; 24; 24; 24; 24; 24; 24].

Definition LEADING_REPR_DEC : list Z := [0; 8; 12; 16; 18; 20; 22; 24].

(** Indexing a table with a [usize] in range. *)
Definition table (t : list Z) (i : Z) : Z := nth (Z.to_nat i) t 0.



(** ** Encoder *)

Record ChimpEnc := mkChimpEnc { ce_stored_lz : Z; ce_stored_val : Z; ce_first : bool }.

Definition chimp_enc_new : ChimpEnc := mkChimpEnc i32_MAX 0 true.

Definition chimp_emit (out : BitStream) (header header_len payload sig : Z) : BitStream :=
  if header_len + sig <=? 64 then write_bits out (header_len + sig) (Z.lor (shl64 header sig) payload)
  else write_bits (write_bits out header_len header) sig payload.

Definition compress_value (c : ChimpEnc) (out : BitStream) (prefix prefix_len value : Z)
    : BitStream * ChimpEnc :=
  let xor := Z.lxor (ce_stored_val c) value in
  if xor =? 0 then
    (write_bits out (prefix_len + 2) (shl64 prefix 2), mkChimpEnc 65 value (ce_first c))
  else
    let nlz := leading_zeros xor in
    let lz := table LEADING_ROUND_ENC nlz in
    let tz := trailing_zeros xor in
    if THRESHOLD <? tz then
      let sig := 64 - lz - tz in
      let header :=
        Z.lor (Z.lor (Z.lor (shl64 prefix 11) (shl64 1 9)) (shl64 (table LEADING_REPR_ENC lz) 6)) sig in
      (chimp_emit out header (prefix_len + 11) (shr64 xor tz) sig,
       mkChimpEnc 65 value (ce_first c))
    else if lz =? ce_stored_lz c then
      let sig := 64 - lz in
      let header := Z.lor (shl64 prefix 2) 2 in
      (chimp_emit out header (prefix_len + 2) xor sig,
       mkChimpEnc (ce_stored_lz c) value (ce_first c))
    else
      let sig := 64 - lz in
      let header := Z.lor (Z.lor (shl64 prefix 5) (shl64 3 3)) (table LEADING_REPR_ENC lz) in
      (chimp_emit out header (prefix_len + 5) xor sig, mkChimpEnc lz value (ce_first c)).

Definition add_value_prefixed (c : ChimpEnc) (out : BitStream) (prefix prefix_len value : Z)
    : BitStream * ChimpEnc :=
  if ce_first c then
    let out := if 0 <? prefix_len then write_bits out prefix_len prefix else out in
    (write_bits out 64 value, mkChimpEnc (ce_stored_lz c) value false)
  else compress_value c out prefix prefix_len value.

Definition add_repeat_prefixed (c : ChimpEnc) (out : BitStream) (prefix prefix_len : Z)
    : BitStream * ChimpEnc :=
  (write_bits out (prefix_len + 2) (shl64 prefix 2),
   mkChimpEnc 65 (ce_stored_val c) (ce_first c)).

(** ** Decoder *)

Record ChimpDec := mkChimpDec {
  cd_stored_lz : Z;
  cd_stored_tz : Z;
  cd_stored_val : Z;
  cd_first : bool;
}.

Definition chimp_dec_new : ChimpDec := mkChimpDec i32_MAX 0 0 true.

Definition next_value (d : ChimpDec) (inp : BitReader) : IoResult (bool * ChimpDec * BitReader) :=
  let (head, inp) := peek_upto inp 11 in
  let flag := shr64 head 9 in
  if flag =? 3 then
    let lz := table LEADING_REPR_DEC (Z.land (shr64 head 6) 7) in
    let? inp := skip inp 5 in
    let? (v, inp) := read_bits inp (wrap_u8 (64 - lz)) in
    Ok (false, mkChimpDec lz (cd_stored_tz d) (Z.lxor (cd_stored_val d) v) (cd_first d), inp)
  else if flag =? 2 then
    let? inp := skip inp 2 in
    let? (v, inp) := read_bits inp (wrap_u8 (64 - cd_stored_lz d)) in
    Ok (false, mkChimpDec (cd_stored_lz d) (cd_stored_tz d) (Z.lxor (cd_stored_val d) v) (cd_first d),
        inp)
  else if flag =? 1 then
    let lz := table LEADING_REPR_DEC (Z.land (shr64 head 6) 7) in
    let sig := Z.land head 63 in
    let sig := if sig =? 0 then 64 else sig in
    let? inp := skip inp 11 in
    let tz := 64 - sig - lz in
    let? (v, inp) := read_bits inp (wrap_u8 (64 - lz - tz)) in
    let v := shl64 v (Z.land (wrap_u8 tz) 63) in
    Ok (false, mkChimpDec lz tz (Z.lxor (cd_stored_val d) v) (cd_first d), inp)
  else
    let? inp := skip inp 2 in Ok (true, d, inp).

(** [ChimpDec::next]; [read_value] is it with the flag dropped. *)
Definition chimp_next (d : ChimpDec) (inp : BitReader) : IoResult (bool * ChimpDec * BitReader) :=
  if cd_first d then
    let? (v, inp) := read_bits inp 64 in
    Ok (false, mkChimpDec (cd_stored_lz d) (cd_stored_tz d) v false, inp)
  else next_value d inp.

Definition read_value_flagged (d : ChimpDec) (inp : BitReader)
    : IoResult (Z * bool * ChimpDec * BitReader) :=
  let? (repeat, d, inp) := chimp_next d inp in Ok (cd_stored_val d, repeat, d, inp).

Definition chimp_read_value (d : ChimpDec) (inp : BitReader) : IoResult (Z * ChimpDec * BitReader) :=
  let? (_, d, inp) := chimp_next d inp in Ok (cd_stored_val d, d, inp).

(** ** The format *)

Definition rounded_lz (x : Z) : Z := table LEADING_ROUND_ENC (leading_zeros x).

(** The code of [value] behind the state [c], and the state after it. *)
Definition chimp_code (c : ChimpEnc) (value : Z) : list bool :=
  let x := Z.lxor (ce_stored_val c) value in
  if ce_first c then bits_be 64 value
  else if x =? 0 then [false; false]
  else if THRESHOLD <? trailing_zeros x then
    [false; true] ++ bits_be 3 (table LEADING_REPR_ENC (rounded_lz x))
      ++ bits_be 6 (64 - rounded_lz x - trailing_zeros x)
      ++ bits_be (Z.to_nat (64 - rounded_lz x - trailing_zeros x)) (shr64 x (trailing_zeros x))
  else if rounded_lz x =? ce_stored_lz c then
    [true; false] ++ bits_be (Z.to_nat (64 - rounded_lz x)) x
  else
    [true; true] ++ bits_be 3 (table LEADING_REPR_ENC (rounded_lz x))
      ++ bits_be (Z.to_nat (64 - rounded_lz x)) x.

Definition chimp_step (c : ChimpEnc) (value : Z) : ChimpEnc :=
  let x := Z.lxor (ce_stored_val c) value in
  if ce_first c then mkChimpEnc (ce_stored_lz c) value false
  else if (x =? 0) || (THRESHOLD <? trailing_zeros x) then mkChimpEnc 65 value (ce_first c)
  else mkChimpEnc (rounded_lz x) value (ce_first c).

(** Writer and reader state before the same value: the reader may remember a
    leading-zero class the writer has dropped, never the other way round. *)
Definition chimp_rel (c : ChimpEnc) (d : ChimpDec) : Prop :=
  ce_stored_val c = cd_stored_val d /\ ce_first c = cd_first d /\ is_u64 (ce_stored_val c) /\
  (ce_stored_lz c <= 64 -> cd_stored_lz d = ce_stored_lz c).

Lemma chimp_rel_init : chimp_rel chimp_enc_new chimp_dec_new.
Proof. unfold chimp_rel. cbn. split_and!; try done; unfold i32_MAX; ilia. Qed.

(** *** The leading-zero classes *)

Definition class_ok (n : Z) : bool :=
  let lz := table LEADING_ROUND_ENC n in
  let r := table LEADING_REPR_ENC lz in
  (0 <=? lz) && (lz <=? n) && (lz <=? 24) && (0 <=? r) && (r <? 8) &&
  (table LEADING_REPR_DEC r =? lz).

Lemma class_ok_all n : 0 <= n <= 63 -> class_ok n = true.
Proof.
  intros Hn. assert (forallb (fun k => class_ok (Z.of_nat k)) (seq 0 64) = true) as H
    by (vm_compute; reflexivity).
  rewrite forallb_forall in H. specialize (H (Z.to_nat n)). rewrite Z2Nat.id in H by lia.
  apply H. apply in_seq. lia.
Qed.

Lemma rounded_lz_spec x :
  0 < x < 2 ^ 64 ->
  0 <= rounded_lz x <= 24 /\ x < 2 ^ (64 - rounded_lz x) /\
  0 <= table LEADING_REPR_ENC (rounded_lz x) < 8 /\
  table LEADING_REPR_DEC (table LEADING_REPR_ENC (rounded_lz x)) = rounded_lz x.
Proof.
  intros Hx. destruct (leading_zeros_spec x Hx) as (Hn & Hlt & _).
  pose proof (class_ok_all _ Hn) as H. unfold class_ok in H. fold (rounded_lz x) in H.
  rewrite !andb_true_iff, !Z.leb_le, Z.ltb_lt, Z.eqb_eq in H. split_and!; try lia.
  assert (2 ^ (64 - leading_zeros x) <= 2 ^ (64 - rounded_lz x)) by (apply Z.pow_le_mono_r; lia). lia.
Qed.

Lemma rounded_window x :
  0 < x < 2 ^ 64 -> window_holds x (rounded_lz x) (trailing_zeros x).
Proof.
  intros Hx. destruct (rounded_lz_spec x Hx) as (Hl & Hlt & _).
  pose proof (trailing_zeros_spec x ltac:(lia)) as [Ht Hdiv].
  destruct (new_window_holds x Hx) as (Hc & _ & Hct & _). unfold clamped_leading in *.
  pose proof (class_ok_all _ (proj1 (leading_zeros_spec x Hx))) as H.
  unfold class_ok in H. fold (rounded_lz x) in H. rewrite !andb_true_iff, !Z.leb_le in H.
  unfold window_holds. split_and!; try lia; done.
Qed.

(** *** Writing *)

Lemma shl64_join p q c a b :
  c = a + b -> 0 <= a -> 0 <= b ->
  Z.lor (shl64 p c) (shl64 q b) = shl64 (Z.lor (shl64 p a) q) b.
Proof.
  intros -> Ha Hb. unfold shl64, wrap_u64. apply Z.bits_inj'. intros i Hi.
  rewrite Z.lor_spec. destruct (Z.le_gt_cases 64 i).
  { by rewrite !Z.mod_pow2_bits_high by lia. }
  rewrite !(Z.mod_pow2_bits_low _ 64 i), !Z.shiftl_spec, Z.lor_spec by lia.
  destruct (Z.le_gt_cases 0 (i - b)); [|by rewrite !(Z.testbit_neg_r _ (i - _)) by lia].
  rewrite Z.mod_pow2_bits_low, Z.shiftl_spec by lia. do 2 f_equal. lia.
Qed.

Lemma bits_be_join_lit a b w p q :
  w = Z.of_nat b -> (a + b <= 64)%nat -> 0 <= q < 2 ^ w ->
  bits_be (a + b) (Z.lor (shl64 p w) q) = bits_be a p ++ bits_be b q.
Proof. intros ->. apply bits_be_join. Qed.

Lemma tail_header_bits n p r sig :
  (n + 11 <= 64)%nat -> 0 <= r < 8 -> 0 <= sig < 64 ->
  bits_be (n + 11) (Z.lor (Z.lor (Z.lor (shl64 p 11) (shl64 1 9)) (shl64 r 6)) sig) =
    bits_be n p ++ [false; true] ++ bits_be 3 r ++ bits_be 6 sig.
Proof.
  intros Hn Hr Hs. rewrite (shl64_join p 1 11 2 9), (shl64_join _ r 9 3 6) by lia.
  replace (n + 11)%nat with (n + 2 + 3 + 6)%nat by lia.
  rewrite !bits_be_join_lit by lia. by rewrite <- !app_assoc.
Qed.

Lemma new_header_bits n p r :
  (n + 5 <= 64)%nat -> 0 <= r < 8 ->
  bits_be (n + 5) (Z.lor (Z.lor (shl64 p 5) (shl64 3 3)) r) = bits_be n p ++ [true; true] ++ bits_be 3 r.
Proof.
  intros Hn Hr. rewrite (shl64_join p 3 5 2 3) by lia. replace (n + 5)%nat with (n + 2 + 3)%nat by lia.
  rewrite !bits_be_join_lit by lia. by rewrite <- !app_assoc.
Qed.

Lemma flag_header_bits n p q :
  (n + 2 <= 64)%nat -> 0 <= q < 4 ->
  bits_be (n + 2) (Z.lor (shl64 p 2) q) = bits_be n p ++ bits_be 2 q.
Proof. intros Hn Hq. apply bits_be_join_lit; lia. Qed.

Lemma chimp_emit_rep s bits n k a b header payload p code :
  bs_rep s bits -> a = Z.of_nat n + Z.of_nat k -> (n + k <= 64)%nat -> 0 <= b <= 64 ->
  0 <= payload < 2 ^ b ->
  bits_be (n + k) header = bits_be n p ++ code ->
  bs_rep (chimp_emit s header a payload b)
    (bits ++ bits_be n p ++ code ++ bits_be (Z.to_nat b) payload).
Proof.
  intros Hrep Ha Hk Hb Hp Hcode. rewrite (app_assoc (bits_be n p)), <- Hcode.
  replace (n + k)%nat with (Z.to_nat a) by lia. unfold chimp_emit.
  pose proof (write_header_payload_rep s bits (Z.to_nat a) (Z.to_nat b) header payload Hrep) as H.
  rewrite !Z2Nat.id in H by lia. specialize (H ltac:(lia) ltac:(lia) Hp).
  destruct (Z.leb_spec (a + b) 64), (Z.leb_spec b (64 - a)); (done || lia).
Qed.

Lemma add_repeat_rep c s bits p n :
  bs_rep s bits -> (n <= 6)%nat ->
  bs_rep (add_repeat_prefixed c s p (Z.of_nat n)).1 (bits ++ bits_be n p ++ [false; false]).
Proof.
  intros Hrep Hn. unfold add_repeat_prefixed. cbn [fst].
  rewrite <- (Z.lor_0_r (shl64 p 2)). change [false; false] with (bits_be 2 0).
  rewrite <- flag_header_bits by lia. change (Z.of_nat n + 2) with (Z.of_nat n + Z.of_nat 2).
  rewrite <- Nat2Z.inj_add. apply write_bits_rep; [done|lia].
Qed.

Lemma add_value_rep c s bits p n v :
  bs_rep s bits -> (n <= 6)%nat -> is_u64 (ce_stored_val c) -> is_u64 v ->
  exists s', add_value_prefixed c s p (Z.of_nat n) v = (s', chimp_step c v) /\
    bs_rep s' (bits ++ bits_be n p ++ chimp_code c v).
Proof.
  intros Hrep Hn Hc Hv. unfold add_value_prefixed, compress_value, chimp_code, chimp_step.
  destruct (ce_first c).
  { eexists. split; [done|]. rewrite app_assoc. apply (write_bits_rep _ _ 64); [|lia].
    destruct (Z.ltb_spec 0 (Z.of_nat n)); [apply write_bits_rep; [done|lia]|].
    replace n with 0%nat by lia. by rewrite app_nil_r. }
  set (x := Z.lxor (ce_stored_val c) v). fold (rounded_lz x).
  assert (is_u64 x) as Hx by (apply lxor_range; done).
  destruct (Z.eqb_spec x 0); cbn [orb].
  { eexists. split; [done|]. exact (add_repeat_rep c s bits p n Hrep Hn). }
  assert (0 < x < 2 ^ 64) as Hx' by ilia.
  destruct (rounded_lz_spec x Hx') as (Hl & Hlt & Hr & _).
  pose proof (rounded_window x Hx') as Hw. pose proof (window_payload_bound _ _ _ Hw) as Hpay.
  destruct Hw as (_ & Ht & Hlt64 & _). rewrite Z2Nat.id in Hpay by lia. unfold THRESHOLD in *.
  destruct (Z.ltb_spec 6 (trailing_zeros x)).
  { eexists. split; [done|]. rewrite (app_assoc (bits_be 3 _)), (app_assoc [false; true]).
    apply (chimp_emit_rep _ _ n 11); (done || lia || apply tail_header_bits; lia). }
  destruct (Z.eqb_spec (rounded_lz x) (ce_stored_lz c)) as [Heq|_].
  - rewrite <- Heq. eexists. split; [done|].
    apply (chimp_emit_rep _ _ n 2); (done || lia || apply flag_header_bits; lia).
  - eexists. split; [done|]. rewrite (app_assoc [true; true]).
    apply (chimp_emit_rep _ _ n 5); (done || lia || apply new_header_bits; lia).
Qed.

(** *** Reading *)

(** Peeking at a [k]-bit header and skipping it. *)
Lemma peek_header r hd k rest :
  Z.of_nat (length hd) = k -> rd_rep r (hd ++ rest) -> k <= 11 ->
  exists t r1 r2, peek_upto r 11 = (bits_val hd * 2 ^ (11 - k) + t, r1) /\
    0 <= t < 2 ^ (11 - k) /\ skip r1 k = Ok r2 /\ rd_rep r2 rest.
Proof.
  intros <- Hrep Hk. destruct (peek_upto_spec _ _ 11 Hrep ltac:(lia)) as (r1 & E1 & Hr1 & Hv).
  rewrite length_app in Hv.
  destruct (skip_spec r1 _ (Z.of_nat (length hd)) Hr1 ltac:(lia)) as (r2 & E2 & Hr2).
  rewrite Nat2Z.id, drop_app_length in Hr2. set (k := length hd) in *.
  set (tl := take (11 - k) (rest ++ repeat false 11)).
  assert (length tl = 11 - k)%nat as Hl.
  { unfold tl. rewrite length_take, length_app. cbn. lia. }
  replace (11 - Z.of_nat k) with (Z.of_nat (11 - k)) by lia.
  exists (bits_val tl), r1, r2. split_and!; [|apply bits_val_nonneg| |done|done].
  - change (Z.of_nat 11) with 11 in E1. rewrite E1. f_equal.
    rewrite <- app_assoc, take_app_ge by lia. fold k tl. by rewrite bits_val_app, Hl.
  - rewrite <- Hl. apply bits_val_bound.
Qed.

Lemma window_payload_shift d l t : window_holds d l t -> shl64 (shr64 d t) t = d.
Proof.
  intros (? & Ht & ? & Hd & [q Hq]). unfold shl64, shr64.
  rewrite Z.shiftl_mul_pow2, Z.shiftr_div_pow2, Hq, Z.div_mul, <- Hq by lia.
  apply wrap_u64_id. split; [lia|]. assert (2 ^ (64 - l) <= 2 ^ 64) by (apply Z.pow_le_mono_r; lia). lia.
Qed.

Lemma xor_back a b : Z.lxor a (Z.lxor a b) = b.
Proof. by rewrite <- Z.lxor_assoc, Z.lxor_nilpotent, Z.lxor_0_l. Qed.

Lemma land_7 x : Z.land x 7 = x mod 8.
Proof. apply (Z.land_ones x 3). lia. Qed.

Lemma land_63 x : Z.land x 63 = x mod 64.
Proof. apply (Z.land_ones x 6). lia. Qed.

(** The fields of a peeked header. *)
Lemma head_fields h lz t :
  0 <= lz < 8 -> 0 <= t < 64 ->
  shr64 ((h * 8 + lz) * 64 + t) 9 = h /\ Z.land (shr64 ((h * 8 + lz) * 64 + t) 6) 7 = lz /\
  Z.land ((h * 8 + lz) * 64 + t) 63 = t.
Proof.
  intros Hlz Ht. rewrite land_7, land_63. unfold shr64. rewrite !Z.shiftr_div_pow2 by lia.
  change (2 ^ 9) with 512. change (2 ^ 6) with 64. split_and!; Z.div_mod_to_equations; lia.
Qed.

Lemma head_flag h t : 0 <= t < 512 -> shr64 (h * 512 + t) 9 = h.
Proof.
  intros Ht. unfold shr64. rewrite Z.shiftr_div_pow2 by lia. change (2 ^ 9) with 512.
  Z.div_mod_to_equations; lia.
Qed.

Lemma bits_val_2_3 a b r :
  0 <= r < 8 -> bits_val ([a; b] ++ bits_be 3 r) = (Z.b2z a * 2 + Z.b2z b) * 8 + r.
Proof.
  intros Hr. rewrite bits_val_app, bits_val_bits_be, Z.mod_small by (cbn; lia).
  destruct a, b; cbn; lia.
Qed.

(** One lemma per flag. *)
Section Flags.

Context (d : ChimpDec) (r : BitReader) (rest : list bool).

Lemma next_value_same :
  rd_rep r ([false; false] ++ rest) ->
  exists r', next_value d r = Ok (true, d, r') /\ rd_rep r' rest.
Proof.
  intros Hrep. destruct (peek_header r [false; false] 2 rest eq_refl Hrep) as (t & r1 & r2 & E1 & Ht & E2 & Hr2); [lia|].
  unfold next_value. rewrite E1. change (2 ^ (11 - 2)) with 512 in *. rewrite head_flag by done.
  change (bits_val [false; false]) with 0. cbn [Z.eqb]. rewrite E2. eauto.
Qed.

Lemma next_value_reuse x :
  0 <= x < 2 ^ (64 - cd_stored_lz d) -> 0 <= cd_stored_lz d <= 64 ->
  rd_rep r ([true; false] ++ bits_be (Z.to_nat (64 - cd_stored_lz d)) x ++ rest) ->
  exists r', next_value d r =
      Ok (false, mkChimpDec (cd_stored_lz d) (cd_stored_tz d) (Z.lxor (cd_stored_val d) x) (cd_first d), r') /\
    rd_rep r' rest.
Proof.
  intros Hx Hlz Hrep.
  destruct (peek_header r [true; false] 2 _ eq_refl Hrep) as (t & r1 & r2 & E1 & Ht & E2 & Hr2); [lia|].
  unfold next_value. rewrite E1. change (2 ^ (11 - 2)) with 512 in *. rewrite head_flag by done.
  change (bits_val [true; false]) with 2. cbn [Z.eqb Pos.eqb].
  destruct (read_bits_app _ _ _ _ Hr2 ltac:(lia)) as (r3 & E3 & Hr3).
  rewrite Z2Nat.id, Z.mod_small in E3 by lia. rewrite wrap_u8_id by ilia.
  rewrite E2, E3. eauto.
Qed.

Lemma next_value_new lz rp x :
  0 <= rp < 8 -> table LEADING_REPR_DEC rp = lz -> 0 <= lz <= 64 -> 0 <= x < 2 ^ (64 - lz) ->
  rd_rep r ([true; true] ++ bits_be 3 rp ++ bits_be (Z.to_nat (64 - lz)) x ++ rest) ->
  exists r', next_value d r =
      Ok (false, mkChimpDec lz (cd_stored_tz d) (Z.lxor (cd_stored_val d) x) (cd_first d), r') /\
    rd_rep r' rest.
Proof.
  intros Hrp Hdec Hlz Hx Hrep. rewrite (app_assoc [true; true]) in Hrep.
  destruct (peek_header r ([true; true] ++ bits_be 3 rp) 5 _ eq_refl Hrep)
    as (t & r1 & r2 & E1 & Ht & E2 & Hr2); [lia|].
  rewrite bits_val_2_3 in E1 by done. change (2 ^ (11 - 5)) with 64 in *.
  change (Z.b2z true * 2 + Z.b2z true) with 3 in E1. unfold next_value. rewrite E1.
  destruct (head_fields 3 rp t Hrp Ht) as (-> & -> & _). cbn [Z.eqb Pos.eqb].
  rewrite Hdec. destruct (read_bits_app _ _ _ _ Hr2 ltac:(lia)) as (r3 & E3 & Hr3).
  rewrite Z2Nat.id, Z.mod_small in E3 by lia. rewrite wrap_u8_id by (unfold is_u8; lia).
  rewrite E2, E3. eauto.
Qed.

Lemma next_value_tail lz rp sig x :
  0 <= rp < 8 -> table LEADING_REPR_DEC rp = lz -> 0 <= lz -> 0 < sig < 64 -> lz + sig <= 64 ->
  0 <= x < 2 ^ sig ->
  rd_rep r ([false; true] ++ bits_be 3 rp ++ bits_be 6 sig ++ bits_be (Z.to_nat sig) x ++ rest) ->
  exists r', next_value d r =
      Ok (false, mkChimpDec lz (64 - sig - lz)
            (Z.lxor (cd_stored_val d) (shl64 x (64 - sig - lz))) (cd_first d), r') /\
    rd_rep r' rest.
Proof.
  intros Hrp Hdec Hlz Hsig Hsum Hx Hrep.
  rewrite (app_assoc (bits_be 3 rp)), (app_assoc [false; true]) in Hrep.
  destruct (peek_header r ([false; true] ++ bits_be 3 rp ++ bits_be 6 sig) 11 _ eq_refl Hrep)
    as (t & r1 & r2 & E1 & Ht & E2 & Hr2); [lia|].
  rewrite (app_assoc [false; true]), bits_val_app, bits_val_2_3, bits_val_bits_be, length_bits_be in E1
    by done.
  change (2 ^ (11 - 11)) with 1 in *. change (2 ^ Z.of_nat 6) with 64 in E1.
  rewrite Z.mod_small, Z.mul_1_r in E1 by lia. replace t with 0 in E1 by lia. rewrite Z.add_0_r in E1.
  change (Z.b2z false * 2 + Z.b2z true) with 1 in E1. unfold next_value. rewrite E1.
  destruct (head_fields 1 rp sig Hrp ltac:(lia)) as (-> & -> & ->). cbn [Z.eqb Pos.eqb].
  rewrite Hdec. destruct (Z.eqb_spec sig 0); [lia|].
  destruct (read_bits_app _ _ _ _ Hr2 ltac:(lia)) as (r3 & E3 & Hr3).
  rewrite Z2Nat.id, Z.mod_small in E3 by lia. rewrite !wrap_u8_id by (unfold is_u8; lia).
  replace (64 - lz - (64 - sig - lz)) with sig by lia. rewrite land_63, Z.mod_small by lia.
  rewrite E2, E3. eauto.
Qed.

End Flags.

(** Reading a coded value gives it back, says whether it repeats the one before,
    and leaves the two sides related. *)
Lemma next_value_app c d r v rest :
  chimp_rel c d -> ce_first c = false -> is_u64 v -> rd_rep r (chimp_code c v ++ rest) ->
  exists d' r', next_value d r = Ok (v =? ce_stored_val c, d', r') /\ cd_stored_val d' = v /\
    chimp_rel (chimp_step c v) d' /\ rd_rep r' rest.
Proof.
  intros (Hval & Hfirst & Hc & Hlz) Hf Hv Hrep. unfold chimp_code, chimp_step in *. rewrite Hf in *.
  set (x := Z.lxor (ce_stored_val c) v) in *.
  assert (is_u64 x) as Hx by (apply lxor_range; done).
  assert (Z.lxor (cd_stored_val d) x = v) as Hback by (rewrite <- Hval; apply xor_back).
  destruct (Z.eqb_spec x 0) as [Hx0|Hx0]; cbn [orb].
  { apply Z.lxor_eq in Hx0. destruct (next_value_same d r rest Hrep) as (r' & E & Hr').
    rewrite <- Hx0, Z.eqb_refl in *. exists d, r'. unfold chimp_rel. cbn.
    split_and!; done || lia. }
  assert ((v =? ce_stored_val c) = false) as ->.
  { apply Z.eqb_neq. intros ->. apply Hx0. subst x. apply Z.lxor_nilpotent. }
  assert (0 < x < 2 ^ 64) as Hx' by ilia.
  destruct (rounded_lz_spec x Hx') as (Hl & Hlt & Hr & Hdec).
  pose proof (rounded_window x Hx') as Hw. pose proof (window_payload_bound _ _ _ Hw) as Hpay.
  pose proof Hw as (_ & Htz & Hlt64 & _ & Hdiv). rewrite Z2Nat.id in Hpay by lia.
  unfold THRESHOLD in *. destruct (Z.ltb_spec 6 (trailing_zeros x)).
  - rewrite <- !app_assoc in Hrep.
    destruct (next_value_tail d r rest (rounded_lz x) _ (64 - rounded_lz x - trailing_zeros x) _
      Hr Hdec ltac:(lia) ltac:(lia) ltac:(lia) Hpay Hrep) as (r' & E & Hr').
    replace (64 - _ - rounded_lz x) with (trailing_zeros x) in E by lia.
    rewrite (window_payload_shift _ _ _ Hw), Hback in E. eexists _, _. split; [exact E|].
    unfold chimp_rel. cbn. split_and!; done || lia.
  - destruct (Z.eqb_spec (rounded_lz x) (ce_stored_lz c)) as [Heq|_]; rewrite <- !app_assoc in Hrep.
    + rewrite Heq in *. specialize (Hlz ltac:(lia)). rewrite <- Hlz in *.
      destruct (next_value_reuse d r rest x ltac:(lia) ltac:(lia) Hrep) as (r' & E & Hr').
      rewrite Hback in E. eexists _, _. split; [exact E|].
      unfold chimp_rel. cbn. split_and!; done || lia.
    + destruct (next_value_new d r rest (rounded_lz x) _ x Hr Hdec ltac:(lia) ltac:(lia) Hrep) as (r' & E & Hr').
      rewrite Hback in E. eexists _, _. split; [exact E|].
      unfold chimp_rel. cbn. split_and!; done || lia.
Qed.

Lemma chimp_next_app c d r v rest :
  chimp_rel c d -> is_u64 v -> rd_rep r (chimp_code c v ++ rest) ->
  exists d' r',
    chimp_next d r = Ok (negb (ce_first c) && (v =? ce_stored_val c), d', r') /\
    cd_stored_val d' = v /\ chimp_rel (chimp_step c v) d' /\ rd_rep r' rest.
Proof.
  intros Hrel Hv Hrep. destruct (ce_first c) eqn:Hf.
  - pose proof Hrel as (Hval & Hfirst & Hc & Hlz). unfold chimp_next, chimp_code, chimp_step in *.
    rewrite Hf in *. rewrite <- Hfirst. cbn [negb andb].
    destruct (read_bits_app _ _ _ _ Hrep ltac:(lia)) as (r' & E & Hr').
    change (Z.of_nat 64) with 64 in E. rewrite E, Z.mod_small by ilia.
    eexists _, _. split; [done|]. unfold chimp_rel. cbn. split_and!; done.
  - unfold chimp_next. pose proof Hrel as (_ & <- & _). rewrite Hf.
    by apply next_value_app.
Qed.

(** A repeat is the code of the stored value. *)
Lemma chimp_code_repeat c :
  ce_first c = false -> chimp_code c (ce_stored_val c) = [false; false] /\
    chimp_step c (ce_stored_val c) = mkChimpEnc 65 (ce_stored_val c) (ce_first c).
Proof. intros Hf. unfold chimp_code, chimp_step. by rewrite Hf, Z.lxor_nilpotent. Qed.
