(* ===== verification/FloatBounds.v ===== *)
(** * FloatBounds: what the codec proofs need of binary64 arithmetic

    Decoding a bit pattern gives a canonical float; equality of finite non-zero
    values is equality of bits; comparison is comparison of exact values; and a
    product is at most twice the exact one. *)

From Stdlib Require Import SpecFloat.
From S2P Require Import Prelude Float64.

(** The exact value of a positive finite [f64], in units of [2 ^ -1074]. *)
Definition sval (v : f64) : Z :=
  match f64_spec v with S754_finite false m e => Zpos m * 2 ^ (e + 1074) | _ => 0 end.

#[global] Arguments sval : simpl never.

Lemma sval_nonneg v : 0 <= sval v.
Proof.
  unfold sval. destruct (f64_spec v) as [| | |[] m e]; lia.
Qed.

(** ** Decoding *)

(** Sign, exponent field and mantissa field of a bit pattern. *)
Definition f64_exp (v : f64) : Z := Z.land (Z.shiftr v 52) 2047.
Definition f64_man (v : f64) : Z := Z.land v (2 ^ 52 - 1).

Lemma f64_fields v :
  is_f64 v ->
  v = Z.b2z (Z.testbit v 63) * 2 ^ 63 + f64_exp v * 2 ^ 52 + f64_man v /\
  0 <= f64_exp v < 2048 /\ 0 <= f64_man v < 2 ^ 52.
Proof.
  intros Hv. unfold f64_exp, f64_man.
  change 2047 with (Z.ones 11). change (2 ^ 52 - 1) with (Z.ones 52).
  rewrite !Z.land_ones, Z.shiftr_div_pow2, Z.testbit_spec' by lia.
  change (2 ^ 11) with 2048. change (2 ^ 63) with (2048 * 2 ^ 52) in *.
  unfold is_u64 in Hv. change (2 ^ 64) with (4096 * 2 ^ 52) in Hv.
  set (b := 2 ^ 52) in *. assert (0 < b) by (subst b; lia). clearbody b.
  pose proof (Z.mod_pos_bound v b). rewrite (Z.mul_comm 2048 b), <- Z.div_div by lia.
  pose proof (Z.div_mod v b). pose proof (Z.div_mod (v / b) 2048).
  pose proof (Z.mod_pos_bound (v / b) 2048).
  assert (0 <= v / b < 4096) by (split; [apply Z.div_pos; lia|apply Z.div_lt_upper_bound; lia]).
  assert (0 <= v / b / 2048 < 2)
    by (split; [apply Z.div_pos; lia|apply Z.div_lt_upper_bound; lia]).
  rewrite (Z.mod_small (v / b / 2048) 2) by lia. split_and!; nia.
Qed.

Lemma f64_finite_fields v s m e :
  f64_spec v = S754_finite s m e ->
  s = Z.testbit v 63 /\ f64_exp v < 2047 /\
  (f64_exp v = 0 /\ Zpos m = f64_man v /\ e = -1074 \/
   0 < f64_exp v /\ Zpos m = f64_man v + 2 ^ 52 /\ e = f64_exp v - 1075).
Proof.
  unfold f64_spec. fold (f64_exp v) (f64_man v).
  assert (f64_exp v < 2048 /\ 0 <= f64_exp v) as [H1 H0].
  { unfold f64_exp. change 2047 with (Z.ones 11). rewrite Z.land_ones by lia.
    pose proof (Z.mod_pos_bound (Z.shiftr v 52) (2 ^ 11)). lia. }
  destruct (Z.eqb_spec (f64_exp v) 2047); [by destruct (f64_man v =? 0)|].
  destruct (Z.eqb_spec (f64_exp v) 0).
  - destruct (f64_man v) eqn:E; try done. intros [= <- <- <-]. split_and!; [done|lia|]. left. lia.
  - destruct (f64_man v + 2 ^ 52) eqn:E; try done. intros [= <- <- <-]. split_and!; [done|lia|]. right. lia.
Qed.

(** A decoded finite float is canonical. *)
Lemma f64_finite_range v s m e :
  is_f64 v -> f64_spec v = S754_finite s m e ->
  Zpos m < 2 ^ 53 /\ -1074 <= e <= 971 /\ (2 ^ 52 <= Zpos m \/ e = -1074).
Proof.
  intros Hv H. destruct (f64_finite_fields _ _ _ _ H) as (_ & He & Hc).
  destruct (f64_fields v Hv) as (_ & ? & ?). lia.
Qed.

Lemma f64_finite_inj a b s m e :
  is_f64 a -> is_f64 b -> f64_spec a = S754_finite s m e -> f64_spec b = S754_finite s m e -> a = b.
Proof.
  intros Ha Hb Ea Eb. destruct (f64_finite_fields _ _ _ _ Ea) as (Sa & _ & Ca).
  destruct (f64_finite_fields _ _ _ _ Eb) as (Sb & _ & Cb).
  destruct (f64_fields a Ha) as (Fa & ? & ?). destruct (f64_fields b Hb) as (Fb & ? & ?).
  assert (f64_exp a = f64_exp b) as He by lia. assert (f64_man a = f64_man b) as Hm by lia.
  rewrite Fa, He, Hm, <- Sa, Sb. by symmetry.
Qed.

(** [==] on a finite non-zero value is equality of bit patterns. *)
Lemma f64_eq_bits a b :
  is_f64 a -> is_f64 b -> f64_is_finite b = true -> f64_eq b f64_zero = false ->
  f64_eq a b = true -> a = b.
Proof.
  intros Ha Hb. unfold f64_is_finite, f64_eq. change (f64_spec f64_zero) with (S754_zero false).
  destruct (f64_spec b) as [| | |sb mb eb] eqn:Eb; try done. intros _ _.
  destruct (f64_spec a) as [|[]| |sa ma ea] eqn:Ea; try done; [by destruct sb|].
  intros H. apply (f64_finite_inj a b sb mb eb Ha Hb); [|done]. rewrite Ea. clear -H.
  unfold SFeqb, SFcompare in H. destruct sa, sb; try done;
    (destruct (Z.compare_spec ea eb); [|done|done]);
    (destruct (Pos.compare_cont Eq ma mb) eqn:Em; try done);
    apply Pos.compare_eq in Em; congruence.
Qed.

(** ** Order *)

Lemma canonical_lt m1 e1 m2 e2 :
  0 < m1 < 2 ^ 53 -> 2 ^ 52 <= m2 -> -1074 <= e1 < e2 ->
  m1 * 2 ^ (e1 + 1074) < m2 * 2 ^ (e2 + 1074).
Proof.
  intros H1 H2 He. replace (e2 + 1074) with (e1 + 1074 + (e2 - e1)) by lia.
  rewrite (Z.pow_add_r 2 (e1 + 1074)) by lia.
  assert (2 <= 2 ^ (e2 - e1)) by (change 2 with (2 ^ 1) at 1; apply Z.pow_le_mono_r; lia).
  assert (0 < 2 ^ (e1 + 1074)) by (apply Z.pow_pos_nonneg; lia).
  rewrite (Z.mul_comm (2 ^ (e1 + 1074))), Z.mul_assoc. apply Z.mul_lt_mono_pos_r; [done|].
  change (2 ^ 53) with (2 * 2 ^ 52) in H1. nia.
Qed.

Lemma f64_compare_sval a b :
  is_f64 a -> is_f64 b -> 0 < sval a -> 0 < sval b ->
  SFcompare (f64_spec a) (f64_spec b) = Some (sval a ?= sval b).
Proof.
  intros Ha Hb. unfold sval. destruct (f64_spec a) as [| | |[] m1 e1] eqn:Ea; try lia.
  destruct (f64_spec b) as [| | |[] m2 e2] eqn:Eb; try lia. intros _ _.
  destruct (f64_finite_range _ _ _ _ Ha Ea) as (? & ? & ?).
  destruct (f64_finite_range _ _ _ _ Hb Eb) as (? & ? & ?).
  cbn [SFcompare]. f_equal. destruct (Z.compare_spec e1 e2) as [->|Hlt|Hlt].
  - assert (0 < 2 ^ (e2 + 1074)) by (apply Z.pow_pos_nonneg; lia).
    rewrite <- Zmult_compare_compat_r by lia. done.
  - symmetry. apply Z.compare_lt_iff, canonical_lt; lia.
  - symmetry. apply Z.compare_gt_iff, canonical_lt; lia.
Qed.

Lemma f64_lt_sval a b :
  is_f64 a -> is_f64 b -> 0 < sval a -> 0 < sval b -> f64_lt a b = (sval a <? sval b).
Proof. intros. unfold f64_lt, SFltb. by rewrite f64_compare_sval. Qed.

Lemma f64_le_sval a b :
  is_f64 a -> is_f64 b -> 0 < sval a -> 0 < sval b -> f64_le a b = (sval a <=? sval b).
Proof. intros. unfold f64_le, SFleb. by rewrite f64_compare_sval. Qed.

(** ** Rounding *)

Lemma digits2_pos_spec p : 2 ^ (Zpos (digits2_pos p) - 1) <= Zpos p < 2 ^ Zpos (digits2_pos p).
Proof.
  induction p as [p IH|p IH|]; cbn [digits2_pos]; [| |lia];
    rewrite Pos2Z.inj_succ; unfold Z.succ;
    replace (Zpos (digits2_pos p) + 1 - 1) with (Z.succ (Zpos (digits2_pos p) - 1)) by lia;
    change (Zpos (digits2_pos p) + 1) with (Z.succ (Zpos (digits2_pos p)));
    rewrite !Z.pow_succ_r by lia; lia.
Qed.

Lemma Zdigits2_spec m : 0 < m -> 0 < Zdigits2 m /\ 2 ^ (Zdigits2 m - 1) <= m < 2 ^ Zdigits2 m.
Proof. destruct m; try lia. intros _. split; [done|]. apply digits2_pos_spec. Qed.

Lemma shr_1_m r : 0 <= shr_m r -> shr_m (shr_1 r) = shr_m r / 2.
Proof.
  destruct r as [[|[p|p|]|p] b s]; cbn [shr_m shr_1]; intros; try lia; try done.
  - rewrite Pos2Z.inj_xI. Z.div_mod_to_equations; lia.
  - rewrite Pos2Z.inj_xO. Z.div_mod_to_equations; lia.
Qed.

Lemma iter_shr_m p r : 0 <= shr_m r -> shr_m (SpecFloat.iter_pos shr_1 p r) = shr_m r / 2 ^ Zpos p.
Proof.
  revert r. induction p as [p IH|p IH|]; intros r Hr; cbn [SpecFloat.iter_pos].
  - assert (0 <= shr_m r / 2) by (apply Z.div_pos; lia).
    assert (0 <= shr_m r / 2 / 2 ^ Zpos p) by (apply Z.div_pos; lia).
    rewrite !IH, shr_1_m, !Z.div_div by (rewrite ?IH, ?shr_1_m by (rewrite ?shr_1_m; done); done || lia).
    f_equal. rewrite (Pos2Z.inj_xI p). replace (2 * Zpos p + 1) with (1 + Zpos p + Zpos p) by lia.
    rewrite !Z.pow_add_r by lia. lia.
  - assert (0 <= shr_m r / 2 ^ Zpos p) by (apply Z.div_pos; lia).
    rewrite !IH, Z.div_div by (rewrite ?IH by done; done || lia). f_equal.
    rewrite (Pos2Z.inj_xO p). replace (2 * Zpos p) with (Zpos p + Zpos p) by lia.
    by rewrite Z.pow_add_r by lia.
  - by apply shr_1_m.
Qed.

(** How far a mantissa is shifted to reach the precision. *)
Definition shift_by (m e : Z) : Z := Z.max 0 (Z.max (Zdigits2 m + e - 53) (-1074) - e).

Lemma shr_fexp_spec m e l :
  0 <= m ->
  shr_m (shr_fexp 53 1024 m e l).1 = m / 2 ^ shift_by m e /\
  (shr_fexp 53 1024 m e l).2 = e + shift_by m e.
Proof.
  intros Hm. unfold shr_fexp, shift_by.
  change (fexp 53 1024 (Zdigits2 m + e)) with (Z.max (Zdigits2 m + e - 53) (-1074)).
  assert (shr_m (shr_record_of_loc m l) = m) as Hl by (by destruct l as [|[]]).
  destruct (Z.max (Zdigits2 m + e - 53) (-1074) - e) as [|p|p] eqn:E; cbn [shr fst snd].
  - by rewrite Hl, Z.div_1_r, Z.add_0_r.
  - rewrite iter_shr_m, Hl by lia. by rewrite Z.max_r by lia.
  - by rewrite Hl, Z.max_l, Z.div_1_r, Z.add_0_r by lia.
Qed.

Lemma round_nearest_le m l : m <= round_nearest_even m l <= m + 1.
Proof. destruct l as [|[]]; cbn; repeat case_match; lia. Qed.

(** A number of at least one unit in the last place rounds to at most its double. *)
Lemma binary_round_bound m e l :
  0 < m -> -2148 <= e -> 2 ^ (-1074 - Z.min e (-1074)) <= m ->
  match binary_round_aux 53 1024 false m e l with
  | S754_finite s m' e' => s = false /\ Zpos m' < 2 ^ 53 /\ -1074 <= e' <= 971 /\
      Zpos m' * 2 ^ (e' + 2148) <= 2 * m * 2 ^ (e + 2148)
  | S754_zero s => s = false
  | S754_infinity s => s = false /\ 2 ^ 3120 <= 2 * m * 2 ^ (e + 2148)
  | S754_nan => True
  end.
Proof.
  intros Hm He Hulp. unfold binary_round_aux.
  destruct (shr_fexp 53 1024 m e l) as [r1 e1] eqn:E1.
  pose proof (shr_fexp_spec m e l ltac:(lia)) as [Hm1 He1].
  rewrite E1 in Hm1, He1. cbn [fst snd] in Hm1, He1.
  pose proof (round_nearest_le (shr_m r1) (loc_of_shr_record r1)) as Hr.
  set (m1 := round_nearest_even (shr_m r1) (loc_of_shr_record r1)) in *. clearbody m1.
  set (n := shift_by m e) in *. destruct (Zdigits2_spec m Hm) as (Hd0 & Hd1 & Hd2).
  assert (0 <= n) as Hn by (unfold n, shift_by; lia).
  assert (0 < 2 ^ n) as Hpn by (apply Z.pow_pos_nonneg; lia).
  assert (2 ^ n <= m) as Hnm.
  { assert (n <= Zdigits2 m - 1 \/ n = -1074 - e) as [H|H] by (unfold n, shift_by; lia).
    - assert (2 ^ n <= 2 ^ (Zdigits2 m - 1)) by (apply Z.pow_le_mono_r; lia). lia.
    - rewrite Z.min_l in Hulp by lia. by rewrite H. }
  assert (1 <= m / 2 ^ n) as Hq by (apply Z.div_le_lower_bound; lia).
  pose proof (Z.mul_div_le m (2 ^ n) Hpn) as Hmul.
  destruct (shr_fexp 53 1024 m1 e1 loc_Exact) as [r2 e2] eqn:E2.
  pose proof (shr_fexp_spec m1 e1 loc_Exact ltac:(lia)) as [Hm2 He2].
  rewrite E2 in Hm2, He2. cbn [fst snd] in Hm2, He2.
  destruct (shr_m r2) as [|m2|] eqn:Em2; [done| |done].
  set (k := shift_by m1 e1) in *. destruct (Zdigits2_spec m1 ltac:(lia)) as (_ & _ & Hd).
  assert (0 <= k /\ -1074 <= e2 /\ Zdigits2 m1 - k <= 53 /\ -2148 <= e1) as (Hk & He2' & Hdk & He1')
    by (unfold k, shift_by in *; lia).
  assert (0 < 2 ^ k) as Hpk by (apply Z.pow_pos_nonneg; lia).
  pose proof (Z.mul_div_le m1 (2 ^ k) Hpk) as Hmul2.
  assert (Zpos m2 * 2 ^ (e2 + 2148) <= 2 * m * 2 ^ (e + 2148)) as Hval.
  { rewrite He2, Hm2, He1. replace (e + n + k + 2148) with (k + (n + (e + 2148))) by lia.
    rewrite !(Z.pow_add_r 2 k), !(Z.pow_add_r 2 n) by lia.
    assert (0 <= 2 ^ (e + 2148)) by lia.
    assert (m1 / 2 ^ k * (2 ^ k * (2 ^ n)) <= 2 * m); [|nia].
    assert (m1 * 2 ^ n <= 2 * m) by nia. nia. }
  change (1024 - 53) with 971. destruct (Z.leb_spec e2 971).
  - split_and!; [done| |lia|lia|done].
    rewrite Hm2. apply Z.div_lt_upper_bound; [done|]. rewrite <- Z.pow_add_r by lia.
    assert (2 ^ Zdigits2 m1 <= 2 ^ (k + 53)) by (apply Z.pow_le_mono_r; lia). lia.
  - split; [done|]. assert (2 ^ 3120 <= 2 ^ (e2 + 2148)) by (apply Z.pow_le_mono_r; lia). nia.
Qed.

(** ** Products *)

Lemma f64_of_fields E M :
  0 <= E < 2048 -> 0 <= M < 2 ^ 52 ->
  f64_exp (E * 2 ^ 52 + M) = E /\ f64_man (E * 2 ^ 52 + M) = M /\
  Z.testbit (E * 2 ^ 52 + M) 63 = false /\ 0 <= E * 2 ^ 52 + M < 2 ^ 63.
Proof.
  intros HE HM. unfold f64_exp, f64_man. change 2047 with (Z.ones 11).
  change (2 ^ 52 - 1) with (Z.ones 52). rewrite !Z.land_ones, Z.shiftr_div_pow2 by lia.
  assert (0 <= E * 2 ^ 52 + M < 2 ^ 63) as Hr by lia.
  split_and!; try apply Hr.
  - rewrite Z.div_add_l, Z.div_small, Z.add_0_r by lia. apply Z.mod_small. lia.
  - rewrite Z.add_comm, Z.mod_add by lia. apply Z.mod_small. lia.
  - apply Z.bits_above_log2; [lia|]. destruct (Z.eq_dec (E * 2 ^ 52 + M) 0) as [->|]; [done|].
    apply Z.log2_lt_pow2; lia.
Qed.

Lemma f64_of_spec_finite m e :
  Zpos m < 2 ^ 53 -> -1074 <= e <= 971 ->
  0 <= f64_of_spec (S754_finite false m e) < 2 ^ 63 /\
  0 < sval (f64_of_spec (S754_finite false m e)) <= Zpos m * 2 ^ (e + 1074).
Proof.
  intros Hm He. assert (1 <= 2 ^ (e + 1074)) as Hp by (apply (Z.pow_le_mono_r 2 0); lia).
  unfold f64_of_spec. change (Z.b2z false) with 0. rewrite !Z.mul_0_l, !Z.add_0_l. destruct (Z.ltb_spec (Zpos m) (2 ^ 52)).
  - destruct (f64_of_fields 0 (Zpos m) ltac:(lia) ltac:(lia)) as (H1 & H2 & H3 & H4).
    change (0 * 2 ^ 52 + Zpos m) with (Zpos m) in *. rewrite wrap_u64_id by ilia. split; [done|].
    unfold sval, f64_spec. fold (f64_exp (Zpos m)) (f64_man (Zpos m)). rewrite H1, H2, H3. cbn. nia.
  - destruct (f64_of_fields (e + 1075) (Zpos m - 2 ^ 52) ltac:(lia) ltac:(lia)) as (H1 & H2 & H3 & H4).
    rewrite wrap_u64_id by ilia. split; [done|].
    unfold sval, f64_spec. set (w := (e + 1075) * 2 ^ 52 + _) in *.
    fold (f64_exp w) (f64_man w). rewrite H1, H2, H3.
    destruct (Z.eqb_spec (e + 1075) 2047); [lia|]. destruct (Z.eqb_spec (e + 1075) 0); [lia|].
    replace (Zpos m - 2 ^ 52 + 2 ^ 52) with (Zpos m) by lia.
    replace (e + 1075 - 1075) with e by lia. nia.
Qed.

Lemma f64_mul_bound a b :
  is_f64 a -> is_f64 b -> 0 < sval a -> 2 ^ 1074 <= sval b ->
  0 <= f64_mul a b < 2 ^ 63 /\ sval (f64_mul a b) * 2 ^ 1074 <= 2 * sval a * sval b.
Proof.
  intros Ha Hb. unfold sval at 1 2 4 5, f64_mul.
  destruct (f64_spec a) as [| | |[] m1 e1] eqn:Ea; try lia.
  destruct (f64_spec b) as [| | |[] m2 e2] eqn:Eb; try lia. intros _ H1.
  destruct (f64_finite_range _ _ _ _ Ha Ea) as (? & ? & _).
  destruct (f64_finite_range _ _ _ _ Hb Eb) as (? & ? & _). cbn [SFmul xorb].
  pose proof (binary_round_bound (Zpos (m1 * m2)) (e1 + e2) loc_Exact ltac:(lia) ltac:(lia)) as Hround.
  assert (2 * (Zpos m1 * 2 ^ (e1 + 1074)) * (Zpos m2 * 2 ^ (e2 + 1074)) =
          2 * Zpos (m1 * m2) * 2 ^ (e1 + e2 + 2148)) as ->.
  { replace (e1 + e2 + 2148) with (e1 + 1074 + (e2 + 1074)) by lia.
    rewrite (Z.pow_add_r 2 (e1 + 1074)) by lia. lia. }
  assert (2 ^ (-1074 - Z.min (e1 + e2) (-1074)) <= Zpos (m1 * m2)) as Hulp.
  { assert (2 ^ (-1074 - Z.min (e1 + e2) (-1074)) <= Zpos m2) as Hm2; [|nia].
    destruct (Z.le_gt_cases (-1074) (e1 + e2)); [rewrite Z.min_r by lia; cbn; lia|].
    rewrite Z.min_l by lia. destruct (Z.le_gt_cases 0 e2).
    { apply (Z.le_trans _ (2 ^ 0)); [apply Z.pow_le_mono_r; lia|cbn; lia]. }
    assert (2 ^ (- e2) <= Zpos m2).
    { replace 1074 with (- e2 + (e2 + 1074)) in H1 at 1 by lia. rewrite Z.pow_add_r in H1 by lia.
      apply Z.mul_le_mono_pos_r in H1; [done|]. apply Z.pow_pos_nonneg; lia. }
    assert (2 ^ (-1074 - (e1 + e2)) <= 2 ^ (- e2)) by (apply Z.pow_le_mono_r; lia). lia. }
  specialize (Hround Hulp). destruct (binary_round_aux 53 1024 false (Zpos (m1 * m2)) (e1 + e2) loc_Exact) as [s|s| |s m e].
  - subst s. split; [done|]. change (sval (f64_of_spec (S754_zero false))) with 0. lia.
  - destruct Hround as [-> _]. split; [done|]. change (sval (f64_of_spec (S754_infinity false))) with 0. lia.
  - split; [done|]. change (sval (f64_of_spec S754_nan)) with 0. lia.
  - destruct Hround as (-> & Hm & He & Hle). destruct (f64_of_spec_finite m e Hm He) as [Hr Hs].
    split; [done|]. replace (e + 2148) with (e + 1074 + 1074) in Hle by lia.
    rewrite Z.pow_add_r in Hle by lia. nia.
Qed.

(** The cast to [i64] never exceeds the value. *)
Lemma f64_to_i64_bound w :
  0 <= w < 2 ^ 63 -> f64_lt 0x43E0000000000000 w = false ->
  0 <= f64_to_i64 w /\ f64_to_i64 w * 2 ^ 1074 <= sval w.
Proof.
  intros Hw Hsat. assert (Z.testbit w 63 = false) as Hs.
  { destruct (Z.eq_dec w 0) as [->|]; [done|]. apply Z.bits_above_log2; [lia|].
    apply Z.log2_lt_pow2; lia. }
  unfold f64_to_i64, f64_to_int, sval. destruct (f64_spec w) as [|s| |s m e] eqn:E; try lia.
  - unfold f64_lt in Hsat. rewrite E in Hsat. destruct s; [|done].
    unfold f64_spec in E. rewrite Hs in E. repeat case_match; done.
  - destruct (f64_finite_fields _ _ _ _ E) as (-> & _). rewrite Hs.
    assert (is_f64 w) as Hf by ilia. destruct (f64_finite_range _ _ _ _ Hf E) as (? & ? & _).
    set (q := if 0 <=? e then _ else _).
    assert (0 <= q /\ q * 2 ^ 1074 <= Zpos m * 2 ^ (e + 1074)) as [Hq0 Hq]; [|ilia].
    subst q. destruct (Z.leb_spec 0 e).
    + rewrite Z.pow_add_r by lia. lia.
    + split; [apply Z.div_pos; lia|]. pose proof (Z.mul_div_le (Zpos m) (2 ^ (- e))).
      assert (2 ^ 1074 = 2 ^ (- e) * 2 ^ (e + 1074)) as -> by (rewrite <- Z.pow_add_r by lia; f_equal; lia).
      assert (0 < 2 ^ (- e)) by (apply Z.pow_pos_nonneg; lia).
      assert (0 < 2 ^ (e + 1074)) by (apply Z.pow_pos_nonneg; lia). nia.
Qed.

(** ** The order of binary64 values that are not NaN

    Comparison of two values that are not NaN is comparison of their exact
    values, so [f64_lt] and [f64_le] are a total order on them. *)

(** The exact value in units of [2 ^ -1074], the infinities beyond all others. *)
Definition fkey (v : f64) : Z :=
  match f64_spec v with
  | S754_zero _ | S754_nan => 0
  | S754_infinity s => if s then - 2 ^ 2100 else 2 ^ 2100
  | S754_finite s m e => if s then - (Zpos m * 2 ^ (e + 1074)) else Zpos m * 2 ^ (e + 1074)
  end.

#[global] Arguments fkey : simpl never.

Lemma finite_magnitude v s m e : is_f64 v -> f64_spec v = S754_finite s m e -> 0 < Zpos m * 2 ^ (e + 1074) < 2 ^ 2100.
Proof.
  intros Hv E. destruct (f64_finite_range _ _ _ _ Hv E) as (Hm & He & _).
  assert (0 < 2 ^ (e + 1074)) as Hp by (apply Z.pow_pos_nonneg; lia).
  assert (2 ^ (e + 1074) <= 2 ^ 2046) as Hu by (apply Z.pow_le_mono_r; lia).
  split; [nia|]. apply Z.lt_le_trans with (2 ^ 53 * 2 ^ (e + 1074)); [apply Z.mul_lt_mono_pos_r; [done|lia]|].
  apply Z.le_trans with (2 ^ 53 * 2 ^ 2046); [apply Z.mul_le_mono_nonneg_l; lia|]. rewrite <- Z.pow_add_r by lia.
  apply Z.pow_le_mono_r; lia.
Qed.

Lemma compare_magnitude a b sa sb m1 e1 m2 e2 : is_f64 a -> is_f64 b ->
  f64_spec a = S754_finite sa m1 e1 -> f64_spec b = S754_finite sb m2 e2 ->
  match e1 ?= e2 with Lt => Lt | Gt => Gt | Eq => Pcompare m1 m2 Eq end =
  (Zpos m1 * 2 ^ (e1 + 1074) ?= Zpos m2 * 2 ^ (e2 + 1074)).
Proof.
  intros Ha Hb Ea Eb. destruct (f64_finite_range _ _ _ _ Ha Ea) as (? & ? & ?).
  destruct (f64_finite_range _ _ _ _ Hb Eb) as (? & ? & ?). destruct (Z.compare_spec e1 e2) as [->|Hlt|Hlt].
  - assert (0 < 2 ^ (e2 + 1074)) by (apply Z.pow_pos_nonneg; lia). rewrite <- Zmult_compare_compat_r by lia. done.
  - symmetry. apply Z.compare_lt_iff, canonical_lt; lia.
  - symmetry. apply Z.compare_gt_iff, canonical_lt; lia.
Qed.

Lemma f64_compare_key a b : is_f64 a -> is_f64 b -> f64_is_nan a = false -> f64_is_nan b = false ->
  SFcompare (f64_spec a) (f64_spec b) = Some (fkey a ?= fkey b).
Proof.
  intros Ha Hb Na Nb. unfold f64_is_nan, fkey in *.
  destruct (f64_spec a) as [s1|s1| |s1 m1 e1] eqn:Ea, (f64_spec b) as [s2|s2| |s2 m2 e2] eqn:Eb; try done;
    try pose proof (finite_magnitude _ _ _ _ Ha Ea) as Ma; try pose proof (finite_magnitude _ _ _ _ Hb Eb) as Mb;
    try pose proof (compare_magnitude _ _ _ _ _ _ _ _ Ha Hb Ea Eb) as Hc;
    try (set (x := Zpos m1 * _) in * ); try (set (y := Zpos m2 * _) in * );
    assert (0 < 2 ^ 2100) as Hp by (apply Z.pow_pos_nonneg; lia); set (B := 2 ^ 2100) in *; clearbody B;
    try clearbody x; try clearbody y; destruct s1, s2; cbn [SFcompare]; f_equal; symmetry;
    try (apply Z.compare_lt_iff; lia); try (apply Z.compare_gt_iff; lia); try (apply Z.compare_eq_iff; lia).
  - rewrite Z.compare_opp, Z.compare_antisym, <- Hc. by destruct (e1 ?= e2).
  - by rewrite <- Hc.
Qed.

Lemma f64_lt_key a b : is_f64 a -> is_f64 b -> f64_is_nan a = false -> f64_is_nan b = false ->
  f64_lt a b = (fkey a <? fkey b).
Proof. intros. unfold f64_lt, SFltb. rewrite f64_compare_key by done. unfold Z.ltb. by destruct (_ ?= _). Qed.

Lemma f64_le_key a b : is_f64 a -> is_f64 b -> f64_is_nan a = false -> f64_is_nan b = false ->
  f64_le a b = (fkey a <=? fkey b).
Proof. intros. unfold f64_le, SFleb. rewrite f64_compare_key by done. unfold Z.leb. by destruct (_ ?= _). Qed.

(** The smaller and the larger of two values bound both. *)
Lemma f64_min_key a b : is_f64 a -> is_f64 b -> f64_is_nan a = false -> f64_is_nan b = false ->
  fkey (f64_min a b) = Z.min (fkey a) (fkey b).
Proof. intros. unfold f64_min. rewrite f64_lt_key by done. destruct (Z.ltb_spec (fkey b) (fkey a)); lia. Qed.

Lemma f64_max_key a b : is_f64 a -> is_f64 b -> f64_is_nan a = false -> f64_is_nan b = false ->
  fkey (f64_max a b) = Z.max (fkey a) (fkey b).
Proof. intros. unfold f64_max. rewrite f64_lt_key by done. destruct (Z.ltb_spec (fkey a) (fkey b)); lia. Qed.

(** ** Integers and their quotients as floats

    An integer below [2^53] converts exactly; a quotient of two such numbers is
    rounded to at most twice its value, and loses almost nothing.  Enough to decide the comparisons of
    a size ratio with a threshold that the chunks make. *)

Lemma Zdigits2_unique m d : 0 < d -> 2 ^ (d - 1) <= m < 2 ^ d -> Zdigits2 m = d.
Proof.
  intros Hd [Hlo Hhi]. assert (0 < m) as Hm by (pose proof (Z.pow_pos_nonneg 2 (d - 1)); lia).
  destruct (Zdigits2_spec m Hm) as (H0 & H1 & H2).
  assert (d - 1 < Zdigits2 m) by (apply (Z.pow_lt_mono_r_iff 2); lia).
  assert (Zdigits2 m - 1 < d) by (apply (Z.pow_lt_mono_r_iff 2); lia). lia.
Qed.

Lemma iter_xO p d : Zpos (Pos.iter xO p d) = Zpos p * 2 ^ Zpos d.
Proof.
  revert d. apply Pos.peano_ind; [cbn; lia|]. intros d IH.
  rewrite Pos.iter_succ, Pos2Z.inj_xO, IH, Pos2Z.inj_succ, Z.pow_succ_r by lia. lia.
Qed.

(** A full mantissa rounds to itself. *)
Lemma binary_round_full m e :
  2 ^ 52 <= Zpos m < 2 ^ 53 -> -1074 <= e <= 971 ->
  binary_round_aux 53 1024 false (Zpos m) e loc_Exact = S754_finite false m e.
Proof.
  intros Hm He. assert (Zdigits2 (Zpos m) = 53) as Hd by (by apply Zdigits2_unique).
  assert (shr_fexp 53 1024 (Zpos m) e loc_Exact = (shr_record_of_loc (Zpos m) loc_Exact, e)) as Hs.
  { unfold shr_fexp. rewrite Hd. change (fexp 53 1024 (53 + e)) with (Z.max (53 + e - 53) (-1074)).
    by replace (Z.max (53 + e - 53) (-1074) - e) with 0 by lia. }
  unfold binary_round_aux. rewrite Hs. cbn [shr_m shr_record_of_loc loc_of_shr_record round_nearest_even].
  rewrite Hs. cbn [shr_m shr_record_of_loc]. by destruct (Z.leb_spec e (1024 - 53)); [|lia].
Qed.

Lemma f64_of_spec_full m e :
  2 ^ 52 <= Zpos m < 2 ^ 53 -> -1074 <= e <= 971 ->
  f64_spec (f64_of_spec (S754_finite false m e)) = S754_finite false m e.
Proof.
  intros Hm He. unfold f64_of_spec. change (Z.b2z false) with 0. rewrite !Z.mul_0_l, !Z.add_0_l.
  destruct (Z.ltb_spec (Zpos m) (2 ^ 52)); [lia|].
  destruct (f64_of_fields (e + 1075) (Zpos m - 2 ^ 52) ltac:(lia) ltac:(lia)) as (H1 & H2 & H3 & H4).
  rewrite wrap_u64_id by ilia. unfold f64_spec. set (w := (e + 1075) * 2 ^ 52 + _) in *.
  fold (f64_exp w) (f64_man w). rewrite H1, H2, H3.
  destruct (Z.eqb_spec (e + 1075) 2047); [lia|]. destruct (Z.eqb_spec (e + 1075) 0); [lia|].
  replace (Zpos m - 2 ^ 52 + 2 ^ 52) with (Zpos m) by lia. by replace (e + 1075 - 1075) with e by lia.
Qed.

Lemma f64_of_usize_exact n :
  0 < n < 2 ^ 53 -> is_f64 (f64_of_usize n) /\ sval (f64_of_usize n) = n * 2 ^ 1074.
Proof.
  intros Hn. split; [apply f64_of_spec_range|]. unfold f64_of_usize, sval.
  destruct n as [|p|p]; [lia| |lia]. cbn [binary_normalize]. unfold binary_round, shl_align.
  destruct (Zdigits2_spec (Zpos p) ltac:(lia)) as (Hd0 & Hd1 & Hd2). cbn [Zdigits2] in *.
  set (d := Zpos (digits2_pos p)) in *.
  assert (d <= 53) as Hd by (apply Z.le_ngt; intros Hgt;
    assert (2 ^ 53 <= 2 ^ (d - 1)) by (apply Z.pow_le_mono_r; lia); lia).
  change (fexp 53 1024 (d + 0)) with (Z.max (d + 0 - 53) (-1074)).
  replace (Z.max (d + 0 - 53) (-1074) - 0) with (d - 53) by lia.
  replace (Z.max (d + 0 - 53) (-1074)) with (d - 53) by lia.
  destruct (d - 53) as [|q|q] eqn:E; [|lia|].
  - assert (d = 53) as Hd53 by lia. rewrite Hd53 in *. rewrite binary_round_full, f64_of_spec_full by lia. done.
  - assert (Zpos (Pos.iter xO p q) = Zpos p * 2 ^ (53 - d)) as Hm
      by (rewrite iter_xO; do 2 f_equal; lia).
    assert (2 ^ 52 <= Zpos (Pos.iter xO p q) < 2 ^ 53) as Hr.
    { rewrite Hm. replace 52 with (d - 1 + (53 - d)) by lia. replace (2 ^ 53) with (2 ^ (d + (53 - d))) by (f_equal; lia).
      rewrite !Z.pow_add_r by lia. assert (0 < 2 ^ (53 - d)) by (apply Z.pow_pos_nonneg; lia). nia. }
    rewrite binary_round_full, f64_of_spec_full by lia. rewrite Hm, <- Z.mul_assoc, <- Z.pow_add_r by lia.
    do 2 f_equal. lia.
Qed.

(** The quotient of two normal numbers of moderate size, before rounding. *)
Lemma div_core m1 e1 m2 e2 :
  2 ^ 52 <= Zpos m1 < 2 ^ 53 -> 2 ^ 52 <= Zpos m2 < 2 ^ 53 -> -1021 <= e1 - e2 ->
  exists l, SFdiv_core_binary 53 1024 (Zpos m1) e1 (Zpos m2) e2 =
    (Zpos m1 * 2 ^ 53 / Zpos m2, e1 - e2 - 53, l).
Proof.
  intros H1 H2 He. unfold SFdiv_core_binary.
  rewrite (Zdigits2_unique (Zpos m1) 53), (Zdigits2_unique (Zpos m2) 53) by lia.
  change (fexp 53 1024 (53 + e1 - (53 + e2))) with (Z.max (53 + e1 - (53 + e2) - 53) (-1074)).
  replace (Z.min (Z.max (53 + e1 - (53 + e2) - 53) (-1074)) (e1 - e2)) with (e1 - e2 - 53) by lia.
  replace (e1 - e2 - (e1 - e2 - 53)) with 53 by lia. rewrite Z.shiftl_mul_pow2 by lia. cbv zeta.
  unfold Z.div. destruct (Z.div_eucl (Zpos m1 * 2 ^ 53) (Zpos m2)) as [q r]. eauto.
Qed.

Lemma normal_exp m e n :
  0 < n < 2 ^ 53 -> Zpos m < 2 ^ 53 -> -1074 <= e -> (2 ^ 52 <= Zpos m \/ e = -1074) ->
  Zpos m * 2 ^ (e + 1074) = n * 2 ^ 1074 -> 2 ^ 52 <= Zpos m /\ -52 <= e <= 0.
Proof.
  intros Hn Hm He Hc E. assert (0 < 2 ^ 1074) as H0 by (apply Z.pow_pos_nonneg; lia).
  assert (-52 <= e) as Hlo.
  { apply Z.le_ngt. intros Hlt. assert (2 ^ (e + 1074) <= 2 ^ 1021) by (apply Z.pow_le_mono_r; lia).
    assert (2 ^ 1074 = 2 ^ 53 * 2 ^ 1021) as H1 by (rewrite <- Z.pow_add_r by lia; done).
    assert (0 < 2 ^ 1021) by (apply Z.pow_pos_nonneg; lia). nia. }
  split; [lia|]. split; [done|]. apply Z.le_ngt. intros Hgt.
  assert (2 ^ 1075 <= 2 ^ (e + 1074)) by (apply Z.pow_le_mono_r; lia).
  assert (2 ^ 1075 = 2 * 2 ^ 1074) as H1 by (rewrite <- Z.pow_succ_r by lia; done). nia.
Qed.

(** A ratio whose double is below a threshold is below the threshold. *)
Lemma ratio_below t a b :
  is_f64 t -> 0 < sval t -> 0 < a < 2 ^ 53 -> 0 < b < 2 ^ 53 -> 2 * a * 2 ^ 1074 < sval t * b ->
  f64_le t (f64_div (f64_of_usize a) (f64_of_usize b)) = false.
Proof.
  intros Ht Ht0 Ha Hb Hlt.
  destruct (f64_of_usize_exact a Ha) as [Rx Sx]. destruct (f64_of_usize_exact b Hb) as [Ry Sy].
  set (x := f64_of_usize a) in *. set (y := f64_of_usize b) in *. clearbody x y. unfold f64_div.
  unfold sval in Sx, Sy.
  destruct (f64_spec x) as [| | |[] m1 e1] eqn:Ex; try lia.
  destruct (f64_spec y) as [| | |[] m2 e2] eqn:Ey; try lia.
  destruct (f64_finite_range _ _ _ _ Rx Ex) as (Hm1 & He1 & Hn1).
  destruct (f64_finite_range _ _ _ _ Ry Ey) as (Hm2 & He2 & Hn2).
  destruct (normal_exp m1 e1 a Ha Hm1 ltac:(lia) Hn1 Sx) as [Hm1' He1'].
  destruct (normal_exp m2 e2 b Hb Hm2 ltac:(lia) Hn2 Sy) as [Hm2' He2'].
  cbn [SFdiv xorb]. destruct (div_core m1 e1 m2 e2) as [l ->]; [lia..|].
  pose proof (Z.mul_div_le (Zpos m1 * 2 ^ 53) (Zpos m2) ltac:(lia)) as Hq.
  assert (0 < Zpos m1 * 2 ^ 53 / Zpos m2) as Hq0 by (apply Z.div_str_pos; lia).
  set (q := Zpos m1 * 2 ^ 53 / Zpos m2) in *. clearbody q.
  assert (q * 2 ^ (e1 - e2 - 53 + 2148) * (b * 2 ^ 1074) <= a * 2 ^ 1074 * 2 ^ 2148) as Hval.
  { rewrite <- Sx, <- Sy.
    replace (Zpos m1 * 2 ^ (e1 + 1074) * 2 ^ 2148) with
      (Zpos m1 * 2 ^ 53 * (2 ^ (e1 - e2 - 53 + 2148) * 2 ^ (e2 + 1074))).
    2: { rewrite <- !Z.mul_assoc, <- !Z.pow_add_r by lia. do 2 f_equal. lia. }
    assert (0 < 2 ^ (e1 - e2 - 53 + 2148)) by (apply Z.pow_pos_nonneg; lia).
    assert (0 < 2 ^ (e2 + 1074)) by (apply Z.pow_pos_nonneg; lia). nia. }
  assert (0 < 2 ^ 1074) as HX by (apply Z.pow_pos_nonneg; lia).
  assert (2 ^ 2148 = 2 ^ 1074 * 2 ^ 1074) as HX2 by (rewrite <- Z.pow_add_r by lia; done).
  pose proof (binary_round_bound q (e1 - e2 - 53) l Hq0 ltac:(lia)) as Hround.
  rewrite Z.min_r in Hround by lia. specialize (Hround ltac:(cbn; lia)).
  unfold f64_le. pose proof Ht0 as Ht1. unfold sval in Ht1.
  destruct (f64_spec t) as [| | |[] mt et] eqn:Et; try lia.
  set (v := binary_round_aux _ _ _ _ _ _) in *. clearbody v. destruct v as [s|s| |s m e].
  - by subst s.
  - exfalso. destruct Hround as [_ Hinf].
    assert (2 ^ 3120 = 2 ^ 972 * 2 ^ 2148) as E1 by (rewrite <- Z.pow_add_r by lia; done).
    assert (2 ^ 54 < 2 ^ 972) by (apply Z.pow_lt_mono_r; lia). nia.
  - done.
  - destruct Hround as (-> & Hm & He & Hle). destruct (f64_of_spec_finite m e Hm He) as [Hr Hs].
    rewrite <- Et. change (f64_le t (f64_of_spec (S754_finite false m e)) = false).
    rewrite f64_le_sval by (done || ilia). apply Z.leb_gt.
    replace (e + 2148) with (e + 1074 + 1074) in Hle by lia. rewrite Z.pow_add_r in Hle by lia.
    set (w := sval (f64_of_spec _)) in *. clearbody w.
    assert (w * b <= 2 * a * 2 ^ 1074); [|nia].
    assert (w * 2 ^ 1074 <= 2 * q * 2 ^ (e1 - e2 - 53 + 2148)) by nia.
    assert (w * 2 ^ 1074 * (b * 2 ^ 1074) <= 2 * (a * 2 ^ 1074 * 2 ^ 2148)) by nia. nia.
Qed.

(** A shift to the precision of a number of at least 53 bits leaves 53 of them. *)
Lemma shift_full m e :
  2 ^ 52 <= m -> -1074 <= e ->
  0 <= shift_by m e /\ 2 ^ 52 * 2 ^ shift_by m e <= m /\ 2 ^ 52 <= m / 2 ^ shift_by m e < 2 ^ 53.
Proof.
  intros Hm He. destruct (Zdigits2_spec m ltac:(lia)) as (Hd0 & Hd1 & Hd2).
  assert (53 <= Zdigits2 m) as Hd.
  { apply Z.le_ngt. intros Hlt. assert (2 ^ Zdigits2 m <= 2 ^ 52) by (apply Z.pow_le_mono_r; lia). lia. }
  assert (shift_by m e = Zdigits2 m - 53) as -> by (unfold shift_by; lia).
  set (n := Zdigits2 m - 53) in *. assert (0 < 2 ^ n) as Hn by (apply Z.pow_pos_nonneg; lia).
  replace (Zdigits2 m - 1) with (52 + n) in Hd1 by lia. replace (Zdigits2 m) with (53 + n) in Hd2 by lia.
  rewrite Z.pow_add_r in Hd1, Hd2 by lia.
  split_and!; [lia|lia|apply Z.div_le_lower_bound; lia|apply Z.div_lt_upper_bound; lia].
Qed.

(** A number of at least 53 bits loses little when it is rounded. *)
Lemma binary_round_lower m e l :
  2 ^ 52 <= m < 2 ^ 60 -> -1000 <= e <= 500 ->
  exists m' e', binary_round_aux 53 1024 false m e l = S754_finite false m' e' /\
    2 ^ 52 <= Zpos m' < 2 ^ 53 /\ -1000 <= e' <= 971 /\
    m * (2 ^ 50 - 1) * 2 ^ (e + 1000) <= Zpos m' * 2 ^ 50 * 2 ^ (e' + 1000).
Proof.
  intros Hm He. unfold binary_round_aux.
  destruct (shr_fexp 53 1024 m e l) as [r1 e1] eqn:E1.
  pose proof (shr_fexp_spec m e l ltac:(lia)) as [Hm1 He1].
  rewrite E1 in Hm1, He1. cbn [fst snd] in Hm1, He1.
  pose proof (round_nearest_le (shr_m r1) (loc_of_shr_record r1)) as Hr.
  set (m1 := round_nearest_even (shr_m r1) (loc_of_shr_record r1)) in *. clearbody m1.
  destruct (shift_full m e ltac:(lia) ltac:(lia)) as (Hn & Hnm & Hq).
  set (n := shift_by m e) in *. clearbody n.
  assert (0 < 2 ^ n) as Hpn by (apply Z.pow_pos_nonneg; lia).
  assert (n <= 7) as Hn7.
  { apply Z.le_ngt. intros Hlt. assert (2 ^ 8 <= 2 ^ n) by (apply Z.pow_le_mono_r; lia). lia. }
  pose proof (Z.div_mod m (2 ^ n) ltac:(lia)) as Hdm. pose proof (Z.mod_pos_bound m (2 ^ n) Hpn) as Hmod.
  destruct (shr_fexp 53 1024 m1 e1 loc_Exact) as [r2 e2] eqn:E2.
  pose proof (shr_fexp_spec m1 e1 loc_Exact ltac:(lia)) as [Hm2 He2].
  rewrite E2 in Hm2, He2. cbn [fst snd] in Hm2, He2.
  destruct (shift_full m1 e1 ltac:(lia) ltac:(lia)) as (Hk & Hkm & Hq2).
  set (k := shift_by m1 e1) in *. clearbody k.
  assert (k <= 1) as Hk1.
  { apply Z.le_ngt. intros Hlt. assert (2 ^ 2 <= 2 ^ k) by (apply Z.pow_le_mono_r; lia). lia. }
  assert (0 < 2 ^ k <= 2) as Hpk by (assert (k = 0 \/ k = 1) as [->| ->] by lia; cbn; lia).
  pose proof (Z.div_mod m1 (2 ^ k) ltac:(lia)) as Hdm2.
  pose proof (Z.mod_pos_bound m1 (2 ^ k) ltac:(lia)) as Hmod2.
  destruct (shr_m r2) as [|m2|] eqn:Em2; [lia| |lia].
  change (1024 - 53) with 971. destruct (Z.leb_spec e2 971); [|lia].
  exists m2, e2. split_and!; [done|lia|lia|lia|lia|].
  rewrite He2, He1. replace (e + n + k + 1000) with (k + n + (e + 1000)) by lia.
  rewrite !(Z.pow_add_r 2 (k + n)), (Z.pow_add_r 2 k) by lia.
  assert (0 < 2 ^ (e + 1000)) by (apply Z.pow_pos_nonneg; lia).
  assert (m * (2 ^ 50 - 1) <= Zpos m2 * 2 ^ 50 * (2 ^ k * 2 ^ n)); [|nia].
  assert (m - 3 * 2 ^ n <= Zpos m2 * (2 ^ k * 2 ^ n)); [|lia]. nia.
Qed.

(** A ratio clearly above a threshold has a double at or above it. *)
Lemma ratio_above t a b :
  is_f64 t -> 0 < sval t -> 0 < a < 2 ^ 53 -> 0 < b < 2 ^ 53 ->
  sval t * b * 2 ^ 40 <= a * 2 ^ 1074 * (2 ^ 40 - 1) ->
  f64_le t (f64_div (f64_of_usize a) (f64_of_usize b)) = true.
Proof.
  intros Ht Ht0 Ha Hb Hge.
  destruct (f64_of_usize_exact a Ha) as [Rx Sx]. destruct (f64_of_usize_exact b Hb) as [Ry Sy].
  set (x := f64_of_usize a) in *. set (y := f64_of_usize b) in *. clearbody x y. unfold f64_div.
  unfold sval in Sx, Sy.
  destruct (f64_spec x) as [| | |[] m1 e1] eqn:Ex; try lia.
  destruct (f64_spec y) as [| | |[] m2 e2] eqn:Ey; try lia.
  destruct (f64_finite_range _ _ _ _ Rx Ex) as (Hm1 & He1 & Hn1).
  destruct (f64_finite_range _ _ _ _ Ry Ey) as (Hm2 & He2 & Hn2).
  destruct (normal_exp m1 e1 a Ha Hm1 ltac:(lia) Hn1 Sx) as [Hm1' He1'].
  destruct (normal_exp m2 e2 b Hb Hm2 ltac:(lia) Hn2 Sy) as [Hm2' He2'].
  cbn [SFdiv xorb]. destruct (div_core m1 e1 m2 e2) as [l ->]; [lia..|].
  pose proof (Z.div_mod (Zpos m1 * 2 ^ 53) (Zpos m2) ltac:(lia)) as Hdm.
  pose proof (Z.mod_pos_bound (Zpos m1 * 2 ^ 53) (Zpos m2) ltac:(lia)) as Hmod.
  set (q := Zpos m1 * 2 ^ 53 / Zpos m2) in *.
  assert (2 ^ 52 <= q < 2 ^ 60) as Hq
    by (unfold q; split; [apply Z.div_le_lower_bound|apply Z.div_lt_upper_bound]; lia).
  clearbody q. destruct (binary_round_lower q (e1 - e2 - 53) l Hq ltac:(lia)) as (m & e & -> & Hm & He & Hle).
  pose proof (f64_of_spec_full m e Hm ltac:(lia)) as Hs.
  assert (sval (f64_of_spec (S754_finite false m e)) = Zpos m * 2 ^ (e + 1074)) as Hv by (unfold sval; by rewrite Hs).
  assert (0 < 2 ^ (e + 1074)) by (apply Z.pow_pos_nonneg; lia).
  rewrite f64_le_sval; [|done|apply f64_of_spec_range|done|lia]. apply Z.leb_le. rewrite Hv. clear Hs Hv.
  set (W := Zpos m * 2 ^ (e + 1074)) in *.
  set (P := 2 ^ (e1 - e2 - 53 + 1074)). assert (0 < P) as HP by (apply Z.pow_pos_nonneg; lia).
  assert (0 < 2 ^ 1074) as HX by (apply Z.pow_pos_nonneg; lia).
  assert (q * (2 ^ 50 - 1) * P <= W * 2 ^ 50) as HW.
  { unfold W, P. replace (e1 - e2 - 53 + 1074) with (e1 - e2 - 53 + 1000 + 74) by lia.
    replace (e + 1074) with (e + 1000 + 74) by lia. rewrite !(Z.pow_add_r 2 _ 74) by lia. lia. }
  assert (a * 2 ^ 1074 <= (q + 1) * P * b) as Ha'.
  { apply (Z.mul_le_mono_pos_r _ _ (2 ^ 1074)); [done|]. rewrite <- Sx.
    replace ((q + 1) * P * b * 2 ^ 1074) with ((q + 1) * P * (b * 2 ^ 1074)) by lia. rewrite <- Sy.
    replace (Zpos m1 * 2 ^ (e1 + 1074) * 2 ^ 1074) with (Zpos m1 * 2 ^ 53 * (P * 2 ^ (e2 + 1074))).
    2: { unfold P. rewrite <- !Z.mul_assoc, <- !Z.pow_add_r by lia. do 2 f_equal. lia. }
    assert (0 < 2 ^ (e2 + 1074)) by (apply Z.pow_pos_nonneg; lia).
    replace ((q + 1) * P * (Zpos m2 * 2 ^ (e2 + 1074))) with ((q + 1) * Zpos m2 * (P * 2 ^ (e2 + 1074))) by lia.
    apply Z.mul_le_mono_nonneg_r; lia. }
  revert Hge Ha'. generalize (a * 2 ^ 1074). intros A Hge Ha'.
  assert ((q + 1) * 2 ^ 52 <= q * (2 ^ 52 + 1)) as Hq1 by lia.
  assert (A * 2 ^ 52 * (2 ^ 50 - 1) <= W * b * (2 ^ 50 * (2 ^ 52 + 1))) as HA.
  { assert (0 < P * b) as HPb by (apply Z.mul_pos_pos; lia).
    pose proof (Z.mul_le_mono_nonneg_r _ _ (P * b) ltac:(lia) Hq1).
    pose proof (Z.mul_le_mono_nonneg_r _ _ (b * (2 ^ 52 + 1)) ltac:(lia) HW). lia. }
  apply (Z.mul_le_mono_pos_r _ _ b); [lia|].
  assert (0 <= W * b) as HWb by (apply Z.mul_nonneg_nonneg; lia). clear - Hge HA HWb. lia.
Qed.
