(* ===== verification/Elf64.v ===== *)
(** * Elf64: the decimal analysis of the ELF erasing layer

    Models [src/series/chunks/chimp/elf64.rs]: how many decimal digits a value
    has, how many mantissa bits those need, and how an erased value is rounded
    back.  [f64::log10] has no specified precision, so it is a parameter,
    [Log10], of which only a factor of two is assumed. *)

From Stdlib Require Import SpecFloat.
From S2P Require Import Prelude Float64 FloatBounds.

(** [v] is within a factor of two of the decade [10 ^ s .. 10 ^ (s + 1)]. *)
Definition near_decade (v : f64) (s : Z) : Prop :=
  -324 <= s <= 308 /\
  10 ^ Z.max s 0 * 2 ^ 1074 <= 2 * sval v * 10 ^ Z.max (- s) 0 /\
  sval v * 10 ^ Z.max (- (s + 1)) 0 <= 2 * 10 ^ Z.max (s + 1) 0 * 2 ^ 1074.

Class Log10 := {
  log10 : f64 -> f64;
  log10_near v : is_f64 v -> 0 < sval v -> near_decade v (f64_to_i32 (f64_floor (log10 v)));
}.

Definition F : list Z :=
  [0; 4; 7; 10; 14; 17; 20; 24; 27; 30; 34; 37; 40; 44; 47; 50; 54; 57; 60; 64; 67].

Definition MAP_10IP : list f64 := Eval vm_compute in map (fun i => f64_pow10 (Z.of_nat i)) (seq 0 309).
Definition MAP_10IN : list f64 := Eval vm_compute in map (fun i => f64_pow10 (- Z.of_nat i)) (seq 0 324).
Definition MAP_SP_GREATER_1 : list f64 := Eval vm_compute in map (fun i => f64_pow10 (Z.of_nat i)) (seq 0 10).
Definition MAP_SP_LESS_1 : list f64 := Eval vm_compute in map (fun i => f64_pow10 (- Z.of_nat i)) (seq 0 11).

(** [LN_10 / LN_2] *)
Definition LOG_2_10 : f64 := Eval vm_compute in f64_div 0x40026BB1BBB55516 0x3FE62E42FEFA39EF.

(** Called with [alpha >= 0]; the source panics below. *)
Definition get_f_alpha (alpha : Z) : Z :=
  if Z.of_nat (length F) <=? alpha then f64_to_i32 (f64_ceil (f64_mul (f64_of_i64 alpha) LOG_2_10))
  else nth (Z.to_nat alpha) F 0.

Definition get_10ip (i : Z) : result unit f64 :=
  if i <? 0 then Err tt else Ok (nth (Z.to_nat i) MAP_10IP f64_INFINITY).

Definition get_10in (i : Z) : result unit f64 :=
  if i <? 0 then Err tt else Ok (nth (Z.to_nat i) MAP_10IN f64_zero).

(** The two table scans: the first power of ten above [v], and the first one not
    above it. *)
Fixpoint scan_above (v : f64) (i : Z) (powers : list f64) : option Z :=
  match powers with
  | [] => None
  | t :: powers => if f64_lt v t then Some i else scan_above v (i + 1) powers
  end.

Fixpoint scan_below (v : f64) (i : Z) (powers : list f64) : option (Z * f64) :=
  match powers with
  | [] => None
  | t :: powers => if f64_le t v then Some (- i, t) else scan_below v (i + 1) powers
  end.

Definition f64_one_bits : f64 := 0x3FF0000000000000.

Definition SATURATES : f64 := 0x43E0000000000000.

(** The search for the first [i] with [v * 10^i] an integer; [guard] counts down
    from 5000. *)
Fixpoint search_scale (guard : nat) (v : f64) (i : Z) (temp : f64) : result unit (Z * f64) :=
  if f64_eq (f64_of_i64 (f64_to_i64 temp)) temp then Ok (i, temp)
  else
    match guard with
    | O => Err tt
    | S guard' =>
        let i := i + 1 in
        let? p := get_10ip i in
        let temp := f64_mul v p in
        if f64_lt SATURATES temp then Err tt else search_scale guard' v i temp
    end.

(** [while i > 0 && temp_long % 10 == 0 { i -= 1; temp_long /= 10 }] *)
Fixpoint strip_zeros (fuel : nat) (i temp_long : Z) : Z :=
  match fuel with
  | O => i
  | S fuel' =>
      if (0 <? i) && (Z.rem temp_long 10 =? 0) then strip_zeros fuel' (i - 1) (Z.quot temp_long 10)
      else i
  end.

Definition get_significant_count (v : f64) (sp last_beta_star : Z) : result unit Z :=
  let i :=
    if negb (last_beta_star =? i32_MAX) && negb (last_beta_star =? 0) then Z.max (last_beta_star - sp - 1) 1
    else if last_beta_star =? i32_MAX then 17 - sp - 1
    else if 0 <=? sp then 1
    else - sp in
  let? p := get_10ip i in
  let temp := f64_mul v p in
  if f64_lt SATURATES temp then Err tt
  else
    let? (i, temp) := search_scale 5000 v i temp in
    let? p := get_10ip i in
    if negb (f64_eq (f64_div temp p) v) then Ok 17
    else Ok (sp + strip_zeros (Z.to_nat i) i (f64_to_i64 temp) + 1).

Definition round_up (v : f64) (alpha : Z) : result unit f64 :=
  let? scale := get_10ip alpha in
  Ok (if f64_lt v f64_zero then f64_div (f64_floor (f64_mul v scale)) scale
      else f64_div (f64_ceil (f64_mul v scale)) scale).

Section Scale.

Context `{Log10}.

Definition get_sp (v : f64) : Z :=
  match (if f64_le f64_one_bits v then scan_above v 0 (tail MAP_SP_GREATER_1)
         else option_map fst (scan_below v 1 (tail MAP_SP_LESS_1))) with
  | Some i => i
  | None => f64_to_i32 (f64_floor (log10 v))
  end.

Definition get_sp_and_10in_flag (v : f64) : Z * Z :=
  match (if f64_le f64_one_bits v then option_map (fun i => (i, 0)) (scan_above v 0 (tail MAP_SP_GREATER_1))
         else option_map (fun '(i, t) => (i, if f64_eq v t then 1 else 0))
                (scan_below v 1 (tail MAP_SP_LESS_1))) with
  | Some r => r
  | None =>
      let log10v := log10 v in
      (f64_to_i32 (f64_floor log10v), if f64_eq log10v (f64_of_i64 (f64_to_i64 log10v)) then 1 else 0)
  end.

Definition get_alpha_and_beta_star (v : f64) (last_beta_star : Z) : result unit (Z * Z) :=
  let v := if f64_lt v f64_zero then f64_neg v else v in
  let (sp, flag) := get_sp_and_10in_flag v in
  let? beta := get_significant_count v sp last_beta_star in
  let alpha := beta - sp - 1 in
  let beta_star := if flag =? 1 then 0 else beta in
  Ok (alpha, beta_star).

End Scale.

#[global] Arguments get_f_alpha : simpl never.
#[global] Arguments get_10ip : simpl never.
#[global] Arguments get_10in : simpl never.
#[global] Arguments get_sp : simpl never.
#[global] Arguments get_sp_and_10in_flag : simpl never.
#[global] Arguments get_significant_count : simpl never.
#[global] Arguments get_alpha_and_beta_star : simpl never.
#[global] Arguments round_up : simpl never.

(** ** The scale *)

(** [t] is [10 ^ s] up to a factor of two. *)
Definition near_pow (t : f64) (s : Z) : bool :=
  (0 <=? t) && (t <? 2 ^ 64) && (0 <? sval t) &&
  (10 ^ Z.max s 0 * 2 ^ 1074 <=? 2 * sval t * 10 ^ Z.max (- s) 0) &&
  (sval t * 10 ^ Z.max (- s) 0 <=? 2 * 10 ^ Z.max s 0 * 2 ^ 1074).

Lemma near_pow_iff t s :
  near_pow t s = true <->
  is_f64 t /\ 0 < sval t /\
  10 ^ Z.max s 0 * 2 ^ 1074 <= 2 * sval t * 10 ^ Z.max (- s) 0 /\
  sval t * 10 ^ Z.max (- s) 0 <= 2 * 10 ^ Z.max s 0 * 2 ^ 1074.
Proof. unfold near_pow, is_u64. rewrite !andb_true_iff, !Z.leb_le, !Z.ltb_lt. tauto. Qed.

Lemma near_between v s t1 t2 :
  near_pow t1 s = true -> near_pow t2 (s + 1) = true -> sval t1 <= sval v <= sval t2 ->
  -324 <= s <= 308 -> near_decade v s.
Proof.
  rewrite !near_pow_iff. intros (_ & _ & H1 & _) (_ & _ & _ & H2) Hv Hs. split; [done|].
  assert (0 <= 10 ^ Z.max (- s) 0) by lia. assert (0 <= 10 ^ Z.max (- (s + 1)) 0) by lia.
  split; nia.
Qed.

Fixpoint near_up (s : Z) (l : list f64) : bool :=
  match l with [] => true | t :: l => near_pow t s && near_up (s + 1) l end.

Fixpoint near_down (s : Z) (l : list f64) : bool :=
  match l with [] => true | t :: l => near_pow t s && near_down (s - 1) l end.

Lemma scan_above_near v l prev i s :
  is_f64 v -> 0 < sval v -> near_pow prev i = true -> sval prev <= sval v ->
  near_up (i + 1) l = true -> scan_above v i l = Some s -> 0 <= i -> i + Z.of_nat (length l) <= 308 ->
  near_decade v s.
Proof.
  intros Hf Hv. revert prev i. induction l as [|t l IH]; intros prev i Hp Hpv Hl Hs Hi Hlen; [done|].
  cbn [near_up scan_above length] in *. apply andb_true_iff in Hl as [Ht Hl].
  pose proof Ht as (Htf & Ht0 & _)%near_pow_iff. rewrite f64_lt_sval in Hs by done.
  destruct (Z.ltb_spec (sval v) (sval t)) as [Hlt|Hge].
  - injection Hs as <-. eapply near_between; [done|done|lia|lia].
  - eapply (IH t (i + 1)); try done; lia.
Qed.

Lemma scan_below_near v l prev i s t :
  is_f64 v -> 0 < sval v -> near_pow prev (- i + 1) = true -> sval v <= sval prev ->
  near_down (- i) l = true -> scan_below v i l = Some (s, t) -> 0 <= i ->
  i + Z.of_nat (length l) <= 308 -> near_decade v s.
Proof.
  intros Hf Hv. revert prev i. induction l as [|t' l IH]; intros prev i Hp Hpv Hl Hs Hi Hlen; [done|].
  cbn [near_down scan_below length] in *. apply andb_true_iff in Hl as [Ht Hl].
  pose proof Ht as (Htf & Ht0 & _)%near_pow_iff. rewrite f64_le_sval in Hs by done.
  destruct (Z.leb_spec (sval t') (sval v)) as [Hle|Hgt].
  - injection Hs as <- <-. eapply near_between; [done|done|lia|lia].
  - eapply (IH t' (i + 1)); try done; try lia.
    + by replace (- (i + 1) + 1) with (- i) by lia.
    + by replace (- (i + 1)) with (- i - 1) by lia.
Qed.

Lemma get_sp_and_flag_near `{Log10} v :
  is_f64 v -> 0 < sval v -> near_decade v (get_sp_and_10in_flag v).1.
Proof.
  intros Hf Hv. unfold get_sp_and_10in_flag.
  assert (near_pow f64_one_bits 0 = true) as H1 by (vm_compute; reflexivity).
  pose proof H1 as (H1f & H10 & _)%near_pow_iff. rewrite f64_le_sval by done.
  destruct (Z.leb_spec (sval f64_one_bits) (sval v)) as [Hge|Hlt].
  - destruct (scan_above v 0 (tail MAP_SP_GREATER_1)) as [i|] eqn:E; cbn; [|by apply log10_near].
    eapply (scan_above_near v _ f64_one_bits 0); try done. vm_compute. reflexivity.
  - destruct (scan_below v 1 (tail MAP_SP_LESS_1)) as [[i t]|] eqn:E; cbn; [|by apply log10_near].
    eapply (scan_below_near v _ f64_one_bits 1); try done; try lia. vm_compute. reflexivity.
Qed.

(** ** The digit count *)

(** [sval] by shifting, for the checks over whole tables. *)
Definition sval_shift (v : f64) : Z :=
  match f64_spec v with S754_finite false m e => Z.shiftl (Zpos m) (e + 1074) | _ => 0 end.

Lemma sval_shift_eq v : is_f64 v -> sval_shift v = sval v.
Proof.
  intros Hv. unfold sval_shift, sval. destruct (f64_spec v) as [| | |[] m e] eqn:E; try done.
  destruct (f64_finite_range _ _ _ _ Hv E) as (_ & He & _). rewrite Z.shiftl_mul_pow2 by lia. done.
Qed.

(** The table holds [10 ^ i] to within a tenth, and at least one; [pow] runs
    over the exact powers. *)
Fixpoint pow_entries_ok (pow : Z) (l : list f64) : bool :=
  match l with
  | [] => true
  | p :: l =>
      (0 <=? p) && (p <? 2 ^ 64) && (Z.shiftl 1 1074 <=? sval_shift p) &&
      (10 * sval_shift p <=? Z.shiftl (11 * pow) 1074) && pow_entries_ok (10 * pow) l
  end.

Lemma pow_entries_ok_table : pow_entries_ok 1 MAP_10IP = true.
Proof. vm_compute. reflexivity. Qed.

Lemma pow_entries_ok_nth l pow i d :
  pow_entries_ok pow l = true -> (i < length l)%nat ->
  is_f64 (nth i l d) /\ 2 ^ 1074 <= sval (nth i l d) /\
  10 * sval (nth i l d) <= 11 * (pow * 10 ^ Z.of_nat i) * 2 ^ 1074.
Proof.
  revert pow i. induction l as [|p l IH]; intros pow i H Hi; [cbn in Hi; lia|].
  cbn [pow_entries_ok] in H. rewrite !andb_true_iff, !Z.leb_le, Z.ltb_lt in H.
  destruct H as ((((H1 & H2) & H3) & H4) & H5).
  destruct i as [|i]; cbn [nth].
  - rewrite sval_shift_eq in H3, H4 by done. rewrite !Z.shiftl_mul_pow2, Z.mul_1_l in H3 by lia.
    rewrite !Z.shiftl_mul_pow2 in H4 by lia. change (10 ^ Z.of_nat 0) with 1. rewrite Z.mul_1_r. done.
  - destruct (IH (10 * pow) i H5 ltac:(cbn in Hi; lia)) as (? & ? & Hle). split_and!; [done..|].
    rewrite Nat2Z.inj_succ, Z.pow_succ_r by lia.
    by replace (pow * (10 * 10 ^ Z.of_nat i)) with (10 * pow * 10 ^ Z.of_nat i) by lia.
Qed.

Lemma get_10ip_spec i p :
  get_10ip i = Ok p -> i <= 308 ->
  0 <= i /\ is_f64 p /\ 2 ^ 1074 <= sval p /\ 10 * sval p <= 11 * 10 ^ i * 2 ^ 1074.
Proof.
  unfold get_10ip. destruct (Z.ltb_spec i 0); [done|]. intros [= <-] Hi. split; [done|].
  assert (length MAP_10IP = 309%nat) as Hlen by reflexivity.
  pose proof (pow_entries_ok_nth MAP_10IP 1 (Z.to_nat i) f64_INFINITY pow_entries_ok_table ltac:(lia)) as Hn.
  by rewrite Z2Nat.id, Z.mul_1_l in Hn by lia.
Qed.

Lemma mul_infinity v :
  0 < sval v -> f64_lt SATURATES (f64_mul v f64_INFINITY) = true.
Proof.
  unfold sval, f64_mul. change (f64_spec f64_INFINITY) with (S754_infinity false).
  destruct (f64_spec v) as [| | |[] m e]; try lia. intros _. vm_compute. reflexivity.
Qed.

(** What a finished search leaves: the product it stopped at. *)
Definition at_scale (v : f64) (i : Z) (temp : f64) : Prop :=
  exists p, get_10ip i = Ok p /\ temp = f64_mul v p /\ f64_lt SATURATES temp = false.

Lemma search_scale_spec guard v i temp i' temp' :
  at_scale v i temp -> search_scale guard v i temp = Ok (i', temp') ->
  at_scale v i' temp' /\ f64_eq (f64_of_i64 (f64_to_i64 temp')) temp' = true.
Proof.
  revert i temp. induction guard as [|guard IH]; intros i temp Hat; cbn [search_scale];
    (destruct (f64_eq (f64_of_i64 (f64_to_i64 temp)) temp) eqn:E; [intros [= <- <-]; done|]); [done|].
  destruct (get_10ip (i + 1)) as [p|] eqn:Ep; [|done].
  destruct (f64_lt SATURATES (f64_mul v p)) eqn:El; [done|]. apply IH. exists p. done.
Qed.

Lemma at_scale_bound v i temp :
  is_f64 v -> 0 < sval v -> at_scale v i temp ->
  0 <= i <= 308 /\ 0 <= f64_to_i64 temp /\ 10 * f64_to_i64 temp * 2 ^ 1074 <= 22 * sval v * 10 ^ i.
Proof.
  intros Hf Hv (p & Hp & -> & Hsat).
  assert (i <= 308) as Hi.
  { destruct (Z.le_gt_cases i 308); [done|]. unfold get_10ip in Hp.
    destruct (Z.ltb_spec i 0); [done|].
    assert (length MAP_10IP = 309%nat) as Hlen by reflexivity.
    rewrite nth_overflow in Hp by lia. assert (p = f64_INFINITY) as -> by congruence.
    by rewrite mul_infinity in Hsat. }
  destruct (get_10ip_spec i p Hp Hi) as (Hi0 & Hpf & Hp1 & Hp2).
  destruct (f64_mul_bound v p Hf Hpf Hv Hp1) as [Hr Hm].
  destruct (f64_to_i64_bound _ Hr Hsat) as [Ht0 Ht]. split; [done|]. split; [done|].
  assert (0 < 2 ^ 1074) by lia. set (B := 2 ^ 1074) in *. clearbody B.
  set (t := f64_to_i64 (f64_mul v p)) in *. set (w := sval (f64_mul v p)) in *. clearbody t w.
  apply (Z.mul_le_mono_pos_r _ _ B); [done|].
  assert (10 * t * B * B <= 10 * (w * B)) by nia.
  assert (10 * (w * B) <= 10 * (2 * sval v * sval p)) by lia.
  assert (2 * sval v * (10 * sval p) <= 2 * sval v * (11 * 10 ^ i * B)) by (apply Z.mul_le_mono_nonneg_l; lia).
  nia.
Qed.

Lemma strip_zeros_spec fuel i n :
  0 <= i -> 0 <= n ->
  exists k, 0 <= k /\ strip_zeros fuel i n = i - k /\ 0 <= i - k /\ (0 < n -> 10 ^ k <= n).
Proof.
  revert i n. induction fuel as [|fuel IH]; intros i n Hi Hn; cbn [strip_zeros].
  { exists 0. split_and!; lia. }
  destruct (Z.ltb_spec 0 i); cbn [andb]; [|exists 0; split_and!; lia].
  rewrite Z.rem_mod_nonneg, Z.quot_div_nonneg by lia.
  destruct (Z.eqb_spec (n mod 10) 0) as [Hr|]; [|exists 0; split_and!; lia].
  assert (n = 10 * (n / 10)) as Hn10 by (apply Z.div_exact; lia).
  destruct (IH (i - 1) (n / 10) ltac:(lia) ltac:(lia)) as (k & Hk & -> & Hik & Hpow).
  exists (k + 1). split_and!; [lia|lia|lia|]. intros Hpos. rewrite Z.pow_add_r by lia. lia.
Qed.

(** A product that truncates to zero divides back to zero, not to [v]. *)
Lemma zero_product v temp p :
  is_f64 v -> 0 < sval v -> is_f64 p -> 0 < sval p ->
  f64_eq (f64_of_i64 0) temp = true -> f64_eq (f64_div temp p) v = false.
Proof.
  intros _ Hv _ Hp. unfold sval, f64_eq, f64_div in *. change (f64_spec (f64_of_i64 0)) with (S754_zero false).
  destruct (f64_spec v) as [| | |[] mv ev]; try lia. destruct (f64_spec p) as [| | |[] mp ep]; try lia.
  destruct (f64_spec temp) as [s|[]| |[]]; try done. intros _. cbn [SFdiv]. by destruct s.
Qed.

Lemma pow10_le_iff a b c : 0 <= a -> 0 <= b -> 0 < c < 10 -> 10 ^ a <= c * 10 ^ b -> a <= b.
Proof.
  intros Ha Hb Hc H. apply Z.nlt_ge. intros Hlt.
  assert (10 ^ (b + 1) <= 10 ^ a) by (apply Z.pow_le_mono_r; lia).
  rewrite Z.pow_add_r in * by lia. assert (0 < 10 ^ b) by (apply Z.pow_pos_nonneg; lia). nia.
Qed.

Lemma significant_count_bounds v sp last beta :
  is_f64 v -> 0 < sval v -> near_decade v sp -> get_significant_count v sp last = Ok beta ->
  0 <= beta /\ beta - sp - 1 <= 340.
Proof.
  intros Hf Hv (Hsp & _ & Hup). unfold get_significant_count.
  cbv zeta. match goal with |- context [match get_10ip ?i with _ => _ end] => generalize i end. intros i0.
  destruct (get_10ip i0) as [p0|] eqn:Ep0; [|done].
  destruct (f64_lt SATURATES (f64_mul v p0)) eqn:Es; [done|].
  destruct (search_scale 5000 v i0 (f64_mul v p0)) as [[i temp]|] eqn:Esearch; [|done].
  apply search_scale_spec in Esearch as [Hat Hint]; [|by exists p0].
  pose proof Hat as (p & Hp & _). rewrite Hp.
  destruct (at_scale_bound v i temp Hf Hv Hat) as (Hi & Ht0 & Ht).
  destruct (negb (f64_eq (f64_div temp p) v)) eqn:Ediv; [intros [= <-]; lia|].
  destruct (get_10ip_spec i p Hp ltac:(lia)) as (_ & Hpf & Hp1 & _).
  destruct (strip_zeros_spec (Z.to_nat i) i (f64_to_i64 temp) ltac:(lia) Ht0) as (k & Hk & -> & Hik & Hpow).
  intros [= <-]. split; [|lia]. set (t := f64_to_i64 temp) in *.
  assert (0 < t) as Ht1.
  { destruct (Z.eq_dec t 0) as [Hz|]; [|lia]. rewrite Hz in Hint.
    by rewrite (zero_product v temp p) in Ediv by (done || lia). }
  specialize (Hpow Ht1). set (a := Z.max (- (sp + 1)) 0) in *. set (b := Z.max (sp + 1) 0) in *.
  assert (k + a <= i + b); [|subst a b; lia].
  apply (pow10_le_iff _ _ 5); [subst a; lia|subst b; lia|lia|]. rewrite !Z.pow_add_r by (subst a b; lia).
  assert (0 < 2 ^ 1074) by lia. set (B := 2 ^ 1074) in *. clearbody B.
  assert (0 < 10 ^ a) by (apply Z.pow_pos_nonneg; subst a; lia).
  assert (0 < 10 ^ i) by (apply Z.pow_pos_nonneg; lia).
  apply (Z.mul_le_mono_pos_r _ _ B); [done|].
  assert (10 ^ k * (10 ^ a * B) <= t * (10 ^ a * B)) by (apply Z.mul_le_mono_nonneg_r; nia).
  assert (10 * t * B * 10 ^ a <= 22 * sval v * 10 ^ i * 10 ^ a) by (apply Z.mul_le_mono_nonneg_r; lia).
  assert (sval v * 10 ^ a * 10 ^ i <= 2 * 10 ^ b * B * 10 ^ i) by (apply Z.mul_le_mono_nonneg_r; lia).
  assert (0 <= 10 ^ i * 10 ^ b * B) by (apply Z.mul_nonneg_nonneg; lia). lia.
Qed.

(** ** The digit count fits the marker *)

(** The values of [get_f_alpha] that can arise. *)
Definition f_alphas : list Z := Eval vm_compute in map (fun n => get_f_alpha (Z.of_nat n)) (seq 0 341).

Lemma f_alphas_ok : map (fun n => get_f_alpha (Z.of_nat n)) (seq 0 341) = f_alphas.
Proof. vm_compute. reflexivity. Qed.

Lemma f_alphas_nth a : 0 <= a <= 340 -> get_f_alpha a = nth (Z.to_nat a) f_alphas 0.
Proof.
  intros Ha. rewrite <- f_alphas_ok.
  rewrite (nth_indep _ 0 (get_f_alpha (Z.of_nat 0))) by (rewrite length_map, length_seq; lia).
  rewrite (map_nth (fun n => get_f_alpha (Z.of_nat n))), seq_nth by lia. f_equal. lia.
Qed.

Fixpoint nondecreasing (l : list Z) : bool :=
  match l with
  | a :: (b :: _) as l => (a <=? b) && nondecreasing l
  | _ => true
  end.

Lemma f_alphas_monotone : nondecreasing f_alphas = true.
Proof. vm_compute. reflexivity. Qed.

Lemma nondecreasing_nth l i n :
  nondecreasing l = true -> (i + n < length l)%nat -> nth i l 0 <= nth (i + n) l 0.
Proof.
  revert i n. induction l as [|a l IH]; intros i n H Hi; [cbn in Hi; lia|].
  destruct l as [|b l]; [replace (i + n)%nat with i by (cbn in Hi; lia); lia|].
  change (nondecreasing (a :: b :: l)) with ((a <=? b) && nondecreasing (b :: l)) in H.
  apply andb_true_iff in H as [Hab%Z.leb_le Hl].
  destruct i as [|i]; [|apply (IH i n); [done|cbn [length] in *; lia]].
  destruct n as [|n]; [done|]. etransitivity; [exact Hab|].
  apply (IH 0%nat n); [done|cbn [length] in *; lia].
Qed.

Lemma f_alpha_mono a b : 0 <= a <= b -> b <= 340 -> get_f_alpha a <= get_f_alpha b.
Proof.
  intros Ha Hb. rewrite !f_alphas_nth by lia.
  replace (Z.to_nat b) with (Z.to_nat a + Z.to_nat (b - a))%nat by lia.
  apply nondecreasing_nth; [apply f_alphas_monotone|].
  assert (length f_alphas = 341%nat) as -> by reflexivity. lia.
Qed.

(** With sixteen digits at the scale [s] no value has an exponent that leaves
    more than four bits to erase. *)
Definition sixteen_digits_full (s up down : Z) : bool :=
  let f := nth (Z.to_nat (Z.max 0 (15 - s))) f_alphas 0 in
  (1070 <? f) || (Z.shiftl down (1123 - f) <=? Z.shiftl up 1074).

(** [n] scales from [s] on, [pow] the power of ten of [s]; upwards and downwards. *)
Fixpoint full_up (n : nat) (s pow : Z) : bool :=
  match n with O => true | S n => sixteen_digits_full s pow 1 && full_up n (s + 1) (10 * pow) end.

Fixpoint full_down (n : nat) (s pow : Z) : bool :=
  match n with O => true | S n => sixteen_digits_full s 1 pow && full_down n (s - 1) (10 * pow) end.

Lemma full_up_table : full_up 309 0 1 = true.
Proof. vm_compute. reflexivity. Qed.

Lemma full_down_table : full_down 325 0 1 = true.
Proof. vm_compute. reflexivity. Qed.

Lemma full_up_nth n s pow i :
  full_up n s pow = true -> 0 <= i < Z.of_nat n ->
  sixteen_digits_full (s + i) (pow * 10 ^ i) 1 = true.
Proof.
  revert s pow i. induction n as [|n IH]; intros s pow i H Hi; [lia|].
  cbn [full_up] in H. apply andb_true_iff in H as [H0 H].
  destruct (Z.eq_dec i 0) as [->|]; [by rewrite Z.add_0_r, Z.mul_1_r|].
  specialize (IH _ _ (i - 1) H ltac:(lia)). replace (s + 1 + (i - 1)) with (s + i) in IH by lia.
  replace (10 * pow * 10 ^ (i - 1)) with (pow * 10 ^ i) in IH; [done|].
  replace i with (Z.succ (i - 1)) at 1 by lia. rewrite Z.pow_succ_r by lia. lia.
Qed.

Lemma full_down_nth n s pow i :
  full_down n s pow = true -> 0 <= i < Z.of_nat n ->
  sixteen_digits_full (s - i) 1 (pow * 10 ^ i) = true.
Proof.
  revert s pow i. induction n as [|n IH]; intros s pow i H Hi; [lia|].
  cbn [full_down] in H. apply andb_true_iff in H as [H0 H].
  destruct (Z.eq_dec i 0) as [->|]; [by rewrite Z.sub_0_r, Z.mul_1_r|].
  specialize (IH _ _ (i - 1) H ltac:(lia)). replace (s - 1 - (i - 1)) with (s - i) in IH by lia.
  replace (10 * pow * 10 ^ (i - 1)) with (pow * 10 ^ i) in IH; [done|].
  replace i with (Z.succ (i - 1)) at 1 by lia. rewrite Z.pow_succ_r by lia. lia.
Qed.

Lemma sixteen_digits_full_all s :
  -324 <= s <= 308 ->
  let f := get_f_alpha (Z.max 0 (15 - s)) in
  1070 < f \/ 2 ^ (1123 - f) * 10 ^ Z.max (- s) 0 <= 10 ^ Z.max s 0 * 2 ^ 1074.
Proof.
  intros Hs f. assert (sixteen_digits_full s (10 ^ Z.max s 0) (10 ^ Z.max (- s) 0) = true) as H.
  { destruct (Z.le_gt_cases 0 s).
    - pose proof (full_up_nth _ _ _ s full_up_table ltac:(lia)) as H1. rewrite Z.mul_1_l in H1.
      by rewrite Z.max_l, Z.max_r by lia.
    - pose proof (full_down_nth _ _ _ (- s) full_down_table ltac:(lia)) as H1. rewrite Z.mul_1_l in H1.
      rewrite Z.max_r, Z.max_l by lia. by replace (0 - - s) with s in H1 by lia. }
  unfold sixteen_digits_full in H. rewrite <- f_alphas_nth in H by lia. fold f in H.
  apply orb_true_iff in H as [H%Z.ltb_lt|H%Z.leb_le]; [by left|].
  destruct (Z.le_gt_cases f 1070); [right|by left].
  rewrite !Z.shiftl_mul_pow2 in H by lia. lia.
Qed.

Lemma sval_exp v : is_f64 v -> sval v < 2 ^ (f64_exp v + 52).
Proof.
  intros Hv. destruct (f64_fields v Hv) as (_ & He & Hm). unfold sval.
  destruct (f64_spec v) as [| | |[] m e] eqn:E; try lia.
  destruct (f64_finite_fields _ _ _ _ E) as (_ & _ & [(-> & -> & ->)|(Hpos & -> & ->)]).
  - rewrite Z.mul_1_r. apply Hm.
  - replace (f64_exp v + 52) with (53 + (f64_exp v - 1075 + 1074)) by lia.
    rewrite (Z.pow_add_r 2 53) by lia.
    apply Z.mul_lt_mono_pos_r; [apply Z.pow_pos_nonneg; lia|]. change (2 ^ 53) with (2 ^ 52 + 2 ^ 52).
    apply Z.add_lt_mono_r. apply Hm.
Qed.

Lemma beta_below_sixteen v s alpha :
  is_f64 v -> near_decade v s -> 0 <= alpha <= 340 ->
  4 < 52 - (get_f_alpha alpha + f64_exp v - 1023) -> alpha + s + 1 <= 15.
Proof.
  intros Hf (Hs & Hlow & _) Ha Herase. apply Z.nlt_ge. intros Hbig.
  pose proof (sixteen_digits_full_all s Hs) as Hfull. cbv zeta in Hfull.
  assert (get_f_alpha (Z.max 0 (15 - s)) <= get_f_alpha alpha) as Hfm by (apply f_alpha_mono; lia).
  set (f0 := get_f_alpha (Z.max 0 (15 - s))) in *. destruct (f64_fields v Hf) as (_ & He & _).
  destruct Hfull as [H|H]; [lia|].
  pose proof (sval_exp v Hf) as Hv.
  assert (2 ^ (f64_exp v + 52) <= 2 ^ (1122 - f0)) by (apply Z.pow_le_mono_r; lia).
  replace (1123 - f0) with (Z.succ (1122 - f0)) in H by lia. rewrite Z.pow_succ_r in H by lia.
  assert (0 < 10 ^ Z.max (- s) 0) by (apply Z.pow_pos_nonneg; lia). nia.
Qed.

(** ** Negation *)

Lemma f64_neg_fields v :
  Z.testbit v 63 = true -> f64_exp (f64_neg v) = f64_exp v /\ f64_man (f64_neg v) = f64_man v /\
    Z.testbit (f64_neg v) 63 = false.
Proof.
  intros Hs. unfold f64_exp, f64_man, f64_neg. split_and!.
  - apply Z.bits_inj'. intros i Hi. rewrite !Z.land_spec, !Z.shiftr_spec, Z.lxor_spec, Z.pow2_bits_eqb by lia.
    destruct (Z.eqb_spec 63 (i + 52)); [|by rewrite xorb_false_r].
    replace i with 11 by lia. by rewrite !andb_false_r.
  - apply Z.bits_inj'. intros i Hi. rewrite !Z.land_spec, Z.lxor_spec, Z.pow2_bits_eqb by lia.
    destruct (Z.eqb_spec 63 i) as [<-|]; [by rewrite !andb_false_r|by rewrite xorb_false_r].
  - rewrite Z.lxor_spec, Hs. done.
Qed.

Lemma f64_neg_range v : is_f64 v -> is_f64 (f64_neg v).
Proof. intros. apply lxor_range; [lia|done|ilia]. Qed.

(** The magnitude [get_alpha_and_beta_star] works on. *)
Lemma f64_magnitude v :
  is_f64 v -> f64_is_finite v = true -> f64_eq v f64_zero = false ->
  let w := if f64_lt v f64_zero then f64_neg v else v in
  is_f64 w /\ 0 < sval w /\ f64_exp w = f64_exp v.
Proof.
  intros Hf. unfold f64_is_finite, f64_eq, f64_lt. change (f64_spec f64_zero) with (S754_zero false).
  destruct (f64_spec v) as [| | |s m e] eqn:E; try done. intros _ _.
  destruct (f64_finite_range _ _ _ _ Hf E) as (Hm & He & _).
  assert (0 < Zpos m * 2 ^ (e + 1074)) as Hpos
    by (apply Z.mul_pos_pos; [lia|apply Z.pow_pos_nonneg; lia]).
  destruct (f64_finite_fields _ _ _ _ E) as (Hs & _).
  destruct s; cbn [SFltb SFcompare]; [|unfold sval; rewrite E; done].
  destruct (f64_neg_fields v ltac:(done)) as (H1 & H2 & H3). split; [by apply f64_neg_range|].
  split; [|done]. revert E. unfold sval, f64_spec.
  fold (f64_exp v) (f64_man v) (f64_exp (f64_neg v)) (f64_man (f64_neg v)). rewrite H1, H2, H3.
  destruct (f64_exp v =? 2047); [by destruct (f64_man v =? 0)|].
  destruct (f64_exp v =? 0); [destruct (f64_man v)|destruct (f64_man v + 2 ^ 52)]; try done; by intros [= _ <- <-].
Qed.

(** Whenever the encoder is about to erase, [beta_star] is between 0 and 15. *)
Lemma beta_star_range `{Log10} v last alpha beta_star :
  is_f64 v -> f64_is_finite v = true -> f64_eq v f64_zero = false ->
  get_alpha_and_beta_star v last = Ok (alpha, beta_star) -> 0 <= alpha ->
  4 < 52 - (get_f_alpha alpha + f64_exp v - 1023) -> 0 <= beta_star <= 15.
Proof.
  intros Hf Hfin Hz. destruct (f64_magnitude v Hf Hfin Hz) as (Hwf & Hw & Hexp).
  unfold get_alpha_and_beta_star. set (w := if f64_lt v f64_zero then f64_neg v else v) in *.
  pose proof (get_sp_and_flag_near w Hwf Hw) as Hnear.
  destruct (get_sp_and_10in_flag w) as [sp flag]. cbn [fst] in Hnear.
  destruct (get_significant_count w sp last) as [beta|] eqn:Eb; [|done].
  destruct (significant_count_bounds _ _ _ _ Hwf Hw Hnear Eb) as [Hb0 Ha].
  intros [= <- <-] Ha0 Herase. destruct (flag =? 1); [lia|]. rewrite <- Hexp in Herase.
  pose proof (beta_below_sixteen w sp (beta - sp - 1) Hwf Hnear ltac:(lia) Herase). lia.
Qed.
