(* ===== verification/Log10Ref.v ===== *)
(** * Log10Ref: a logarithm to run the codec with

    [Log10] is satisfied by any implementation that is right to a factor of two.
    This one searches for the decade exactly; concrete runs use it, and the
    analysis of [elf64.rs] is evaluated with it. *)

From S2P Require Import Prelude Float64 FloatBounds Elf64.

Fixpoint decade (fuel : nat) (s : Z) (v : f64) : Z :=
  if 10 ^ Z.max s 0 * 2 ^ 1074 <=? sval v * 10 ^ Z.max (- s) 0 then s
  else match fuel with O => s | S fuel' => decade fuel' (s - 1) v end.

Definition near_decadeb (v : f64) (s : Z) : bool :=
  (-324 <=? s) && (s <=? 308) &&
  (10 ^ Z.max s 0 * 2 ^ 1074 <=? 2 * sval v * 10 ^ Z.max (- s) 0) &&
  (sval v * 10 ^ Z.max (- (s + 1)) 0 <=? 2 * 10 ^ Z.max (s + 1) 0 * 2 ^ 1074).

(** The exponent itself for the [f64] nearest to a power of ten, which may lie
    just below it; half a unit above the decade elsewhere. *)
Definition log10_in (s : Z) (v : f64) : f64 :=
  if v =? f64_pow10 s then f64_of_i64 s
  else if (v =? f64_pow10 (s + 1)) && near_decadeb v (s + 1) then f64_of_i64 (s + 1)
  else f64_add (f64_of_i64 s) 0x3FE0000000000000.

Definition log10_ref (v : f64) : f64 := log10_in (decade 632 308 v) v.

Definition floors_back (s : Z) : bool :=
  (f64_to_i32 (f64_floor (f64_of_i64 s)) =? s) &&
  (f64_to_i32 (f64_floor (f64_add (f64_of_i64 s) 0x3FE0000000000000)) =? s).

Lemma floors_back_table : forallb (fun n => floors_back (Z.of_nat n - 324)) (seq 0 633) = true.
Proof. vm_compute. reflexivity. Qed.

Lemma floors_back_all s : -324 <= s <= 308 -> floors_back s = true.
Proof.
  intros Hs. pose proof floors_back_table as H. rewrite forallb_forall in H.
  specialize (H (Z.to_nat (s + 324)) ltac:(apply in_seq; lia)).
  rewrite Z2Nat.id in H by lia. by replace (s + 324 - 324) with s in H by lia.
Qed.

(** [v] is below the decade [s]. *)
Definition below (v : f64) (s : Z) : Prop :=
  sval v * 10 ^ Z.max (- s) 0 < 10 ^ Z.max s 0 * 2 ^ 1074.

Lemma decade_spec fuel s v :
  below v (s + 1) ->
  let r := decade fuel s v in
  s - Z.of_nat fuel <= r <= s /\ below v (r + 1) /\ (r = s - Z.of_nat fuel \/ ~ below v r).
Proof.
  revert s. induction fuel as [|fuel IH]; intros s Hb; cbn [decade];
    destruct (Z.leb_spec (10 ^ Z.max s 0 * 2 ^ 1074) (sval v * 10 ^ Z.max (- s) 0)) as [Hle|Hlt];
    try (split_and!; [lia|lia|done|]; unfold below; lia).
  destruct (IH (s - 1)) as (H1 & H2 & H3).
  { unfold below. by replace (s - 1 + 1) with s by lia. }
  split_and!; [lia|lia|done|]. destruct H3; [left; lia|by right].
Qed.

Lemma below_max v : is_f64 v -> below v 309.
Proof.
  intros Hv. unfold below. change (Z.max (- (309)) 0) with 0. rewrite Z.mul_1_r.
  assert (sval v < 2 ^ 2100) as H.
  { destruct (f64_fields v Hv) as (_ & He & _). pose proof (sval_exp v Hv).
    assert (2 ^ (f64_exp v + 52) <= 2 ^ 2100) by (apply Z.pow_le_mono_r; lia). lia. }
  assert (2 ^ 2100 <= 10 ^ Z.max 309 0 * 2 ^ 1074) by (apply Z.leb_le; vm_compute; reflexivity). lia.
Qed.

Lemma decade_near fuel v :
  fuel = 632%nat -> is_f64 v -> 0 < sval v -> near_decade v (decade fuel 308 v).
Proof.
  intros Hfuel Hf Hv. destruct (decade_spec fuel 308 v (below_max v Hf)) as (Hr & Hb & Hlow).
  generalize dependent (decade fuel 308 v). intros s Hr Hb Hlow.
  assert (-324 <= s) as Hs by lia. split; [lia|]. unfold below in Hb, Hlow. split; [|lia].
  destruct Hlow as [Hmin|Hlow]; [|lia]. assert (s = -324) as -> by lia.
  change (Z.max (-324) 0) with 0. change (Z.max (- (-324)) 0) with 324.
  assert (2 ^ 1074 <= 10 ^ 324) by (apply Z.leb_le; vm_compute; reflexivity). nia.
Qed.

Lemma near_decadeb_iff v s : near_decadeb v s = true <-> near_decade v s.
Proof. unfold near_decadeb, near_decade. rewrite !andb_true_iff, !Z.leb_le. tauto. Qed.

Lemma near_floors v s : near_decade v s -> near_decade v (f64_to_i32 (f64_floor (log10_in s v))).
Proof.
  intros Hn. pose proof Hn as [Hs _]. unfold log10_in.
  pose proof (floors_back_all s Hs) as [H1%Z.eqb_eq H2%Z.eqb_eq]%andb_true_iff.
  destruct (v =? f64_pow10 s); [by rewrite H1|].
  destruct ((v =? f64_pow10 (s + 1)) && near_decadeb v (s + 1)) eqn:E; [|by rewrite H2].
  apply andb_true_iff in E as [_ Hn'%near_decadeb_iff]. pose proof Hn' as [Hs' _].
  pose proof (floors_back_all (s + 1) Hs') as [H3%Z.eqb_eq _]%andb_true_iff. by rewrite H3.
Qed.

#[export] Instance Log10_ref : Log10 := {
  log10 := log10_ref;
  log10_near v Hf Hv := near_floors v _ (decade_near _ v eq_refl Hf Hv);
}.

(** From the unit tests of [elf64.rs]: [1e-5], [1.5e-5] and [123.456] on a fresh
    stream. *)
Example small_magnitudes_still_erase :
  map (fun v => get_alpha_and_beta_star v i32_MAX)
    [0x3EE4F8B588E368F1; 0x3EEF75104D551D69; 0x405EDD2F1A9FBE77] =
  [Ok (5, 0); Ok (6, 2); Ok (3, 6)].
Proof. vm_compute. reflexivity. Qed.
