(* ===== verification/ChimpCompressor.v ===== *)
(** * ChimpCompressor: ELF erasure over Chimp, with delta-of-delta timestamps

    Models [src/series/chunks/chimp/compressor.rs] and [chimp_iterator.rs].  Each
    sample is a timestamp code followed by a case marker and a Chimp value.
    Erased values are written only after the encoder has recovered them; a value
    that erases onto the stored pattern goes out raw, so that the unchanged flag
    behind marker [0] always means a repeat. *)

From stdpp Require Import strings.
From S2P Require Import Prelude Float64 FloatBounds Types Content Encoding BitStream BitReader.
From S2P Require Import Varbit VarbitXor ChimpXor Elf64 Codec.

Definition TS_ESCAPE_PREFIX : Z := 0x0F.

Record ChimpCompressor := mkChimpCompressor {
  cz_writer : BitStream;
  cz_chimp : ChimpEnc;
  cz_last_beta_star : Z;
  cz_count : Z;
  cz_first_timestamp : Timestamp;
  cz_last_timestamp : Timestamp;
  cz_last_delta : Z;
  cz_last_value : f64;
}.

Definition chimp_new : ChimpCompressor := mkChimpCompressor bs_new chimp_enc_new i32_MAX 0 0 0 0 f64_zero.

Definition chimp_set_soft_cap (c : ChimpCompressor) (max_size : Z) : ChimpCompressor :=
  mkChimpCompressor (set_soft_cap (cz_writer c) max_size) (cz_chimp c) (cz_last_beta_star c)
    (cz_count c) (cz_first_timestamp c) (cz_last_timestamp c) (cz_last_delta c) (cz_last_value c).

Definition chimp_with_soft_cap (max_size : Z) : ChimpCompressor := chimp_set_soft_cap chimp_new max_size.

Definition chimp_clear (c : ChimpCompressor) : ChimpCompressor :=
  mkChimpCompressor (bs_clear (cz_writer c)) chimp_enc_new i32_MAX 0 0 0 0 f64_zero.

Definition with_stream (c : ChimpCompressor) (out : BitStream * ChimpEnc) (beta_star : Z)
    : ChimpCompressor :=
  mkChimpCompressor out.1 out.2 beta_star (cz_count c) (cz_first_timestamp c)
    (cz_last_timestamp c) (cz_last_delta c) (cz_last_value c).

(** ** Timestamps *)

Definition write_dod (w : BitStream) (delta_d : Z) : BitStream :=
  if delta_d =? 0 then write_bit_raw w false
  else
    let enc := zigzag_encode delta_d in
    let length := 64 - leading_zeros enc in
    let length := if length =? 0 then 1 else length in
    if length <=? 7 then write_bits w 9 (Z.lor enc (shl64 0x02 7))
    else if length <=? 9 then write_bits w 12 (Z.lor enc (shl64 0x06 9))
    else if length <=? 12 then write_bits w 16 (Z.lor enc (shl64 0x0E 12))
    else
      let w := write_bits w 4 TS_ESCAPE_PREFIX in
      if length <=? 32 then write_bits (write_bit_raw w false) 32 enc
      else write_bits (write_bit_raw w true) 64 enc.

Definition write_timestamp (c : ChimpCompressor) (ts : Timestamp) : ChimpCompressor :=
  if cz_count c =? 0 then
    mkChimpCompressor (bs_write_varint (cz_writer c) ts) (cz_chimp c) (cz_last_beta_star c)
      (cz_count c) ts ts 0 (cz_last_value c)
  else
    let new_delta := wrap_i64 (ts - cz_last_timestamp c) in
    let delta_d := wrap_i64 (new_delta - cz_last_delta c) in
    mkChimpCompressor (write_dod (cz_writer c) delta_d) (cz_chimp c) (cz_last_beta_star c)
      (cz_count c) (cz_first_timestamp c) ts new_delta (cz_last_value c).

Record ChimpDecompressor := mkChimpDecompressor {
  dz_reader : BitReader;
  dz_chimp : ChimpDec;
  dz_last_beta_star : Z;
  dz_count : Z;
  dz_sample_count : Z;
  dz_last_timestamp : Timestamp;
  dz_last_delta : Z;
  dz_last_value : f64;
}.

(** Up to [n] bits, stopping after the first zero. *)
Fixpoint read_prefix (n : nat) (r : BitReader) (prefix : Z) : IoResult (Z * BitReader) :=
  match n with
  | O => Ok (prefix, r)
  | S n' =>
      let? (bit, r) := read_bit r in
      let prefix := Z.lor (shl64 prefix 1) (Z.b2z bit) in
      if negb bit then Ok (prefix, r) else read_prefix n' r prefix
  end.

Definition read_zigzag (r : BitReader) (nbits : Z) : IoResult (Z * BitReader) :=
  let? (v, r) := read_bits r nbits in Ok (zigzag_decode v, r).

Definition read_dod (r : BitReader) : IoResult (Z * BitReader) :=
  let? (prefix, r) := read_prefix 4 r 0 in
  if prefix =? 0x00 then Ok (0, r)
  else if prefix =? 0x02 then read_zigzag r 7
  else if prefix =? 0x06 then read_zigzag r 9
  else if prefix =? 0x0E then read_zigzag r 12
  else if prefix =? TS_ESCAPE_PREFIX then
    let? (wide, r) := read_bit r in
    if (wide : bool) then read_zigzag r 64 else read_zigzag r 32
  else Err InvalidData.

Definition with_timestamp (d : ChimpDecompressor) (r : BitReader) (ts : Timestamp) (delta : Z)
    : ChimpDecompressor :=
  mkChimpDecompressor r (dz_chimp d) (dz_last_beta_star d) (dz_count d) (dz_sample_count d) ts delta
    (dz_last_value d).

Definition chimp_read_timestamp (d : ChimpDecompressor) : IoResult (Timestamp * ChimpDecompressor) :=
  if dz_count d =? 0 then
    let? (ts, r) := read_varint (dz_reader d) in Ok (ts, with_timestamp d r ts 0)
  else
    let? (delta_d, r) := read_dod (dz_reader d) in
    let delta := wrap_i64 (dz_last_delta d + delta_d) in
    let ts := wrap_i64 (dz_last_timestamp d + delta) in
    Ok (ts, with_timestamp d r ts delta).

(** ** Values *)

(** What marker a value gets: the repeat flag, the raw pattern, or an erased
    pattern under the old or a new [beta_star]. *)
Inductive ElfCase :=
| CaseRepeat
| CaseRaw
| CaseSame (v_prime : Z)
| CaseNew (beta_star v_prime : Z).

Section Values.

Context `{Log10}.

(** [v as i32] *)
Definition wrap_i32 (z : Z) : Z := (z + 2 ^ 31) mod 2 ^ 32 - 2 ^ 31.

Definition recover (v_prime : f64) (beta_star : Z) : IoResult f64 :=
  let sp := get_sp (f64_abs v_prime) in
  if beta_star =? 0 then
    let idx := - sp - 1 in
    if idx <? 0 then Err InvalidData
    else
      let? r := map_err (fun _ => InvalidData) (get_10in (wrap_i32 idx)) in
      Ok (if f64_lt v_prime f64_zero then f64_neg r else r)
  else
    let alpha := beta_star - sp - 1 in
    if alpha <? 0 then Err InvalidData
    else map_err (fun _ => InvalidData) (round_up v_prime (wrap_i32 alpha)).

Definition try_recover (v_prime : f64) (beta_star : Z) : option f64 :=
  match recover v_prime beta_star with Ok v => Some v | Err _ => None end.

Definition elf_case (last_beta_star count : Z) (last_value : f64) (stored_val : Z) (v : f64) : ElfCase :=
  if (0 <? count) && (v =? last_value) then CaseRepeat
  else if f64_eq v f64_zero || negb (f64_is_finite v) then CaseRaw
  else
    match get_alpha_and_beta_star v last_beta_star with
    | Ok (alpha, beta_star) =>
        if alpha <? 0 then CaseRaw
        else
          let e := Z.land (shr64 v 52) 0x7ff in
          let g_alpha := get_f_alpha alpha + e - 1023 in
          let erase_bits := 52 - g_alpha in
          let mask := shl64 (2 ^ 64 - 1) (erase_bits mod 64) in
          let delta := Z.land (2 ^ 64 - 1 - mask) v in
          let v_prime := Z.land mask v in
          if negb (delta =? 0) && (4 <? erase_bits) &&
             match try_recover v_prime beta_star with Some r => f64_eq r v | None => false end
          then
            if beta_star =? last_beta_star then
              if v_prime =? stored_val then CaseRaw else CaseSame v_prime
            else CaseNew beta_star v_prime
          else CaseRaw
    | Err _ => CaseRaw
    end.

Definition write_value (c : ChimpCompressor) (v : f64) : ChimpCompressor :=
  match elf_case (cz_last_beta_star c) (cz_count c) (cz_last_value c) (ce_stored_val (cz_chimp c)) v with
  | CaseRepeat => with_stream c (add_repeat_prefixed (cz_chimp c) (cz_writer c) 0 1) (cz_last_beta_star c)
  | CaseRaw => with_stream c (add_value_prefixed (cz_chimp c) (cz_writer c) 2 2 v) (cz_last_beta_star c)
  | CaseSame v_prime =>
      with_stream c (add_value_prefixed (cz_chimp c) (cz_writer c) 0 1 v_prime) (cz_last_beta_star c)
  | CaseNew beta_star v_prime =>
      with_stream c (add_value_prefixed (cz_chimp c) (cz_writer c) (Z.lor beta_star 0x30) 6 v_prime) beta_star
  end.

Definition chimp_add_sample (c : ChimpCompressor) (s : Sample) : IoResult ChimpCompressor :=
  let c := write_timestamp c (timestamp s) in
  let c := write_value c (value s) in
  Ok (mkChimpCompressor (cz_writer c) (cz_chimp c) (cz_last_beta_star c) (cz_count c + 1)
        (cz_first_timestamp c) (cz_last_timestamp c) (cz_last_delta c) (value s)).

Definition with_value (d : ChimpDecompressor) (r : BitReader) (chimp : ChimpDec) (beta_star : Z) (v : f64)
    : ChimpDecompressor :=
  mkChimpDecompressor r chimp beta_star (dz_count d) (dz_sample_count d) (dz_last_timestamp d)
    (dz_last_delta d) v.

Definition chimp_decode_value (d : ChimpDecompressor) : IoResult (f64 * ChimpDecompressor) :=
  let? (bit, r) := read_bit (dz_reader d) in
  if negb bit then
    let? (bits, repeat, chimp, r) := read_value_flagged (dz_chimp d) r in
    if (repeat : bool) then
      Ok (dz_last_value d, with_value d r chimp (dz_last_beta_star d) (dz_last_value d))
    else
      let? v := recover bits (dz_last_beta_star d) in
      Ok (v, with_value d r chimp (dz_last_beta_star d) v)
  else
    let? (bit, r) := read_bit r in
    if negb bit then
      let? (bits, chimp, r) := chimp_read_value (dz_chimp d) r in
      Ok (bits, with_value d r chimp (dz_last_beta_star d) bits)
    else
      let? (beta_star, r) := read_bits r 4 in
      let? (bits, chimp, r) := chimp_read_value (dz_chimp d) r in
      let? v := recover bits beta_star in
      Ok (v, with_value d r chimp beta_star v).

Definition next_sample (d : ChimpDecompressor) : IoResult (option (Sample * ChimpDecompressor)) :=
  if dz_count d =? dz_sample_count d then Ok None
  else
    let? (ts, d) := chimp_read_timestamp d in
    let? (v, d) := chimp_decode_value d in
    Ok (Some (mkSample ts v,
      mkChimpDecompressor (dz_reader d) (dz_chimp d) (dz_last_beta_star d) (dz_count d + 1)
        (dz_sample_count d) (dz_last_timestamp d) (dz_last_delta d) (dz_last_value d))).

(** ** The iterator *)

Record ChimpIterator := mkChimpIterator {
  zi_inner : ChimpDecompressor;
  zi_idx : Z;
  zi_num_samples : Z;
}.

Definition chimp_iter (c : ChimpCompressor) : ChimpIterator :=
  mkChimpIterator
    (mkChimpDecompressor (rd_new (stream (cz_writer c))) chimp_dec_new i32_MAX 0 (cz_count c) 0 0 f64_zero)
    0 (cz_count c).

Definition chimp_iter_next (it : ChimpIterator) : option (TsdbResult (Sample * ChimpIterator)) :=
  if zi_num_samples it <=? zi_idx it then None
  else
    match next_sample (zi_inner it) with
    | Ok (Some (s, inner)) => Some (Ok (s, mkChimpIterator inner (zi_idx it + 1) (zi_num_samples it)))
    | Ok None => Some (Err (DecodingError "chimp: stream ended early"))
    | Err _ => Some (Err (DecodingError "chimp: error decoding sample"))
    end.

End Values.

(** ** Persistence *)

Definition chimp_read_uvarint (buf : list Z) : TsdbResult (Z * list Z) :=
  map_err (fun _ => ChunkDecoding) (try_read_uvarint buf).

Definition chimp_read_signed_varint (buf : list Z) : TsdbResult (Z * list Z) :=
  map_err (fun _ => ChunkDecoding) (try_read_signed_varint buf).

Definition chimp_serialize (c : ChimpCompressor) (buf : list Z) : list Z :=
  let buf := write_uvarint buf (cz_count c) in
  let buf := write_signed_varint buf (cz_first_timestamp c) in
  let buf := write_signed_varint buf (cz_last_timestamp c) in
  let buf := write_signed_varint buf (cz_last_delta c) in
  let buf := write_f64_le buf (cz_last_value c) in
  let buf := write_signed_varint buf (cz_last_beta_star c) in
  let buf := write_signed_varint buf (ce_stored_lz (cz_chimp c)) in
  let buf := write_uvarint buf (ce_stored_val (cz_chimp c)) in
  let buf := write_uvarint buf (Z.b2z (ce_first (cz_chimp c))) in
  bs_serialize (cz_writer c) buf.

Definition chimp_deserialize (buf : list Z) : TsdbResult ChimpCompressor :=
  let? (count, buf) := chimp_read_uvarint buf in
  let? (first_timestamp, buf) := chimp_read_signed_varint buf in
  let? (last_timestamp, buf) := chimp_read_signed_varint buf in
  let? (last_delta, buf) := chimp_read_signed_varint buf in
  let? (last_value, buf) := map_err (fun _ => ChunkDecoding) (try_read_f64_le buf) in
  let? (last_beta_star, buf) := chimp_read_signed_varint buf in
  let? (stored_lz, buf) := chimp_read_signed_varint buf in
  let? (stored_val, buf) := chimp_read_uvarint buf in
  let? (first, buf) := chimp_read_uvarint buf in
  let? (w, _) := map_err (fun _ => ChunkDecoding) (bs_deserialize buf) in
  Ok (mkChimpCompressor w (mkChimpEnc (wrap_i32 stored_lz) stored_val (negb (first =? 0)))
        (wrap_i32 last_beta_star) count first_timestamp last_timestamp last_delta last_value).
