(* ===== verification/ChimpProofs.v ===== *)
(** * ChimpProofs: the Chimp chunk format is lossless

    The compressor writes, for each sample, a code that is a function of what
    it knows so far ([cst]); the decompressor, knowing the same, reads it back. *)

From stdpp Require Import strings.
From S2P Require Import Prelude Float64 FloatBounds Types Content Encoding BitStream BitReader.
From S2P Require Import Varbit VarbitXor ChimpXor Elf64 Codec ChimpCompressor.

(** ** Timestamps *)

Definition dod_code (dd : Z) : list bool :=
  let enc := zigzag_encode dd in
  if dd =? 0 then [false]
  else if enc <? 2 ^ 7 then [true; false] ++ bits_be 7 enc
  else if enc <? 2 ^ 9 then [true; true; false] ++ bits_be 9 enc
  else if enc <? 2 ^ 12 then [true; true; true; false] ++ bits_be 12 enc
  else if enc <? 2 ^ 32 then [true; true; true; true; false] ++ bits_be 32 enc
  else [true; true; true; true; true] ++ bits_be 64 enc.

Lemma bit_length_le enc n :
  0 < enc < 2 ^ 64 -> 0 <= n -> (64 - leading_zeros enc <=? n) = (enc <? 2 ^ n).
Proof.
  intros He Hn. destruct (leading_zeros_spec enc He) as (Hl & Hlt & Hge).
  destruct (Z.leb_spec (64 - leading_zeros enc) n) as [H|H];
    destruct (Z.ltb_spec enc (2 ^ n)) as [H'|H']; try done.
  - assert (2 ^ (64 - leading_zeros enc) <= 2 ^ n) by (apply Z.pow_le_mono_r; lia). lia.
  - assert (2 ^ n <= 2 ^ (63 - leading_zeros enc)) by (apply Z.pow_le_mono_r; lia). lia.
Qed.

Lemma prefix_bits n k w p enc :
  w = Z.of_nat k -> (n + k <= 64)%nat -> 0 <= enc < 2 ^ w ->
  bits_be (n + k) (Z.lor enc (shl64 p w)) = bits_be n p ++ bits_be k enc.
Proof. intros Hw Hn He. rewrite Z.lor_comm. by apply bits_be_join_lit. Qed.

Lemma zigzag_pos dd : is_i64 dd -> dd <> 0 -> 0 < zigzag_encode dd < 2 ^ 64.
Proof.
  intros Hd H0. pose proof (zigzag_encode_range dd) as [? ?]. rewrite zigzag_encode_spec in * by done.
  destruct (Z.ltb_spec dd 0); lia.
Qed.

Lemma write_dod_rep w bits dd :
  bs_rep w bits -> is_i64 dd -> bs_rep (write_dod w dd) (bits ++ dod_code dd).
Proof.
  intros Hrep Hdd. unfold write_dod, dod_code.
  destruct (Z.eqb_spec dd 0) as [|Hd0]; [by apply write_bit_rep|].
  pose proof (zigzag_pos dd Hdd Hd0) as He. set (enc := zigzag_encode dd) in *. clearbody enc.
  destruct (leading_zeros_spec enc He) as (Hl & _).
  destruct (Z.eqb_spec (64 - leading_zeros enc) 0); [lia|]. rewrite !bit_length_le by lia.
  destruct (Z.ltb_spec enc (2 ^ 7)).
  { rewrite <- (prefix_bits 2 7 7 2) by lia. by apply (write_bits_rep _ _ 9); [|lia]. }
  destruct (Z.ltb_spec enc (2 ^ 9)).
  { rewrite <- (prefix_bits 3 9 9 6) by lia. by apply (write_bits_rep _ _ 12); [|lia]. }
  destruct (Z.ltb_spec enc (2 ^ 12)).
  { rewrite <- (prefix_bits 4 12 12 14) by lia. by apply (write_bits_rep _ _ 16); [|lia]. }
  pose proof (write_bits_rep w bits 4 15 Hrep ltac:(lia)) as H4.
  destruct (Z.ltb_spec enc (2 ^ 32)).
  - pose proof (write_bits_rep _ _ 32 enc (write_bit_rep _ _ false H4) ltac:(lia)) as H5.
    by rewrite <- !app_assoc in H5.
  - pose proof (write_bits_rep _ _ 64 enc (write_bit_rep _ _ true H4) ltac:(lia)) as H5.
    by rewrite <- !app_assoc in H5.
Qed.

Lemma read_zigzag_app r n w dd rest :
  w = Z.of_nat n -> (n <= 64)%nat -> is_i64 dd -> zigzag_encode dd < 2 ^ w ->
  rd_rep r (bits_be n (zigzag_encode dd) ++ rest) ->
  exists r', read_zigzag r w = Ok (dd, r') /\ rd_rep r' rest.
Proof.
  intros -> Hn Hdd Hlt Hrep. destruct (read_bits_app _ _ _ _ Hrep Hn) as (r' & E & Hr').
  exists r'. split; [|done]. unfold read_zigzag. rewrite E.
  pose proof (zigzag_encode_range dd) as [? _]. by rewrite Z.mod_small, zigzag_roundtrip by (done || lia).
Qed.

(** The prefix that [k] ones and a zero make, and the escape. *)
Lemma read_prefix_app r k rest :
  (k < 4)%nat -> rd_rep r (repeat true k ++ false :: rest) ->
  exists r', read_prefix 4 r 0 = Ok (2 ^ Z.of_nat (S k) - 2, r') /\ rd_rep r' rest.
Proof.
  intros Hk Hrep. destruct k as [|[|[|[|]]]]; cbn [repeat app] in Hrep; [..|lia];
    destruct (read_bit_app _ _ _ Hrep) as (r1 & E1 & H1);
    try (destruct (read_bit_app _ _ _ H1) as (r2 & E2 & H2));
    try (destruct (read_bit_app _ _ _ H2) as (r3 & E3 & H3));
    try (destruct (read_bit_app _ _ _ H3) as (r4 & E4 & H4));
    cbn [read_prefix]; rewrite E1; cbn [negb]; rewrite ?E2; cbn [negb]; rewrite ?E3; cbn [negb];
    rewrite ?E4; cbn [negb]; eexists; (split; [reflexivity|done]).
Qed.

Lemma read_prefix_escape r rest :
  rd_rep r ([true; true; true; true] ++ rest) ->
  exists r', read_prefix 4 r 0 = Ok (TS_ESCAPE_PREFIX, r') /\ rd_rep r' rest.
Proof.
  intros Hrep. cbn [app] in Hrep. destruct (read_bit_app _ _ _ Hrep) as (r1 & E1 & H1).
  destruct (read_bit_app _ _ _ H1) as (r2 & E2 & H2). destruct (read_bit_app _ _ _ H2) as (r3 & E3 & H3).
  destruct (read_bit_app _ _ _ H3) as (r4 & E4 & H4). cbn [read_prefix].
  rewrite E1; cbn [negb]; rewrite E2; cbn [negb]; rewrite E3; cbn [negb]; rewrite E4; cbn [negb].
  eexists. split; [reflexivity|done].
Qed.

Lemma read_dod_app r dd rest :
  is_i64 dd -> rd_rep r (dod_code dd ++ rest) ->
  exists r', read_dod r = Ok (dd, r') /\ rd_rep r' rest.
Proof.
  intros Hdd Hrep. unfold dod_code in Hrep. unfold read_dod.
  pose proof (zigzag_encode_range dd) as [_ Hz].
  destruct (Z.eqb_spec dd 0) as [->|Hd0].
  { destruct (read_prefix_app r 0 rest ltac:(lia) Hrep) as (r1 & -> & Hr1). eauto. }
  destruct (Z.ltb_spec (zigzag_encode dd) (2 ^ 7)).
  { rewrite <- app_assoc in Hrep. destruct (read_prefix_app r 1 _ ltac:(lia) Hrep) as (r1 & -> & Hr1).
    apply (read_zigzag_app r1 7); done || lia. }
  destruct (Z.ltb_spec (zigzag_encode dd) (2 ^ 9)).
  { rewrite <- app_assoc in Hrep. destruct (read_prefix_app r 2 _ ltac:(lia) Hrep) as (r1 & -> & Hr1).
    apply (read_zigzag_app r1 9); done || lia. }
  destruct (Z.ltb_spec (zigzag_encode dd) (2 ^ 12)).
  { rewrite <- app_assoc in Hrep. destruct (read_prefix_app r 3 _ ltac:(lia) Hrep) as (r1 & -> & Hr1).
    apply (read_zigzag_app r1 12); done || lia. }
  destruct (Z.ltb_spec (zigzag_encode dd) (2 ^ 32)); rewrite <- app_assoc in Hrep;
    destruct (read_prefix_escape r _ Hrep) as (r1 & -> & Hr1);
    destruct (read_bit_app _ _ _ Hr1) as (r2 & E2 & Hr2); cbn [Z.eqb Pos.eqb TS_ESCAPE_PREFIX];
    rewrite E2.
  - apply (read_zigzag_app r2 32); done || lia.
  - apply (read_zigzag_app r2 64); done || lia.
Qed.

(** ** What both sides know *)

Record cst := mkCst {
  cs_enc : ChimpEnc;
  cs_beta : Z;
  cs_count : Z;
  cs_ts : Z;
  cs_delta : Z;
  cs_val : f64;
}.

Definition cst_of (c : ChimpCompressor) : cst :=
  mkCst (cz_chimp c) (cz_last_beta_star c) (cz_count c) (cz_last_timestamp c) (cz_last_delta c)
    (cz_last_value c).

Definition cst_init : cst := mkCst chimp_enc_new i32_MAX 0 0 0 f64_zero.

Section Format.

Context `{Log10}.

Definition new_delta (st : cst) (ts : Z) : Z :=
  if cs_count st =? 0 then 0 else wrap_i64 (ts - cs_ts st).

Definition ts_code (st : cst) (ts : Z) : list bool :=
  if cs_count st =? 0 then bytes_bits (write_signed_varint [] ts)
  else dod_code (wrap_i64 (new_delta st ts - cs_delta st)).

Definition case_of (st : cst) (v : f64) : ElfCase :=
  elf_case (cs_beta st) (cs_count st) (cs_val st) (ce_stored_val (cs_enc st)) v.

Definition case_code (c : ChimpEnc) (v : f64) (k : ElfCase) : list bool :=
  match k with
  | CaseRepeat => [false] ++ chimp_code c (ce_stored_val c)
  | CaseRaw => [true; false] ++ chimp_code c v
  | CaseSame v' => [false] ++ chimp_code c v'
  | CaseNew b v' => [true; true] ++ bits_be 4 b ++ chimp_code c v'
  end.

Definition case_enc (c : ChimpEnc) (v : f64) (k : ElfCase) : ChimpEnc :=
  match k with
  | CaseRepeat => chimp_step c (ce_stored_val c)
  | CaseRaw => chimp_step c v
  | CaseSame v' | CaseNew _ v' => chimp_step c v'
  end.

Definition case_beta (b : Z) (k : ElfCase) : Z := match k with CaseNew b' _ => b' | _ => b end.

Definition cst_step (st : cst) (s : Sample) : cst :=
  let k := case_of st (value s) in
  mkCst (case_enc (cs_enc st) (value s) k) (case_beta (cs_beta st) k) (cs_count st + 1) (timestamp s)
    (new_delta st (timestamp s)) (value s).

Definition chimp_sample_code (st : cst) (s : Sample) : list bool :=
  ts_code st (timestamp s) ++ case_code (cs_enc st) (value s) (case_of st (value s)).

Fixpoint chimp_stream_code (st : cst) (l : list Sample) : list bool :=
  match l with
  | [] => []
  | s :: l => chimp_sample_code st s ++ chimp_stream_code (cst_step st s) l
  end.

(** The first value opens the Chimp codec and every later one finds it open. *)
Definition cst_ok (st : cst) : Prop :=
  is_u64 (ce_stored_val (cs_enc st)) /\ 0 <= cs_count st /\ is_i64 (cs_ts st) /\ is_i64 (cs_delta st) /\
  is_f64 (cs_val st) /\ (0 < cs_count st -> ce_first (cs_enc st) = false) /\
  - 2 ^ 31 <= cs_beta st < 2 ^ 31 /\ - 2 ^ 31 <= ce_stored_lz (cs_enc st) < 2 ^ 31.

Lemma cst_init_ok : cst_ok cst_init.
Proof. unfold cst_ok. cbn. unfold i32_MAX. split_and!; done || ilia. Qed.

(** *** The case is sound: it fits its marker and recovers the value *)

Definition case_ok (st : cst) (v : f64) (k : ElfCase) : Prop :=
  match k with
  | CaseRepeat => 0 < cs_count st /\ v = cs_val st
  | CaseRaw => True
  | CaseSame v' => is_u64 v' /\ v' <> ce_stored_val (cs_enc st) /\ recover v' (cs_beta st) = Ok v
  | CaseNew b v' => is_u64 v' /\ 0 <= b <= 15 /\ recover v' b = Ok v
  end.

Lemma get_10in_range i p : get_10in i = Ok p -> is_f64 p.
Proof.
  unfold get_10in. destruct (i <? 0); [done|]. intros [= <-].
  assert (forallb (fun p => (0 <=? p) && (p <? 2 ^ 64)) (f64_zero :: MAP_10IN) = true) as Hall
    by (vm_compute; reflexivity).
  rewrite forallb_forall in Hall. specialize (Hall (nth (Z.to_nat i) MAP_10IN f64_zero)).
  apply andb_true_iff in Hall as [?%Z.leb_le ?%Z.ltb_lt]; [done|].
  destruct (nth_in_or_default (Z.to_nat i) MAP_10IN f64_zero) as [Hin| ->]; [by right|by left].
Qed.

Lemma recover_range v' b v : recover v' b = Ok v -> is_f64 v.
Proof.
  unfold recover. destruct (b =? 0).
  - destruct (- get_sp (f64_abs v') - 1 <? 0); [done|].
    destruct (get_10in (wrap_i32 (- get_sp (f64_abs v') - 1))) as [p|] eqn:E; [|done]. cbn [map_err].
    apply get_10in_range in E. intros <-%ok_inj. destruct (f64_lt v' f64_zero); [by apply f64_neg_range|done].
  - destruct (b - get_sp (f64_abs v') - 1 <? 0); [done|]. unfold round_up.
    destruct (get_10ip (wrap_i32 (b - get_sp (f64_abs v') - 1))); [|done]. cbn [map_err]. intros <-%ok_inj.
    case_match; apply f64_of_spec_range.
Qed.

Lemma try_recover_bits v' b v :
  is_f64 v -> f64_is_finite v = true -> f64_eq v f64_zero = false ->
  match try_recover v' b with Some r => f64_eq r v | None => false end = true -> recover v' b = Ok v.
Proof.
  intros Hv Hfin Hz. unfold try_recover. destruct (recover v' b) as [r|] eqn:E; [|done].
  intros Heq. f_equal. apply f64_eq_bits; try done. by eapply recover_range.
Qed.

Lemma case_of_ok st v : cst_ok st -> is_f64 v -> case_ok st v (case_of st v).
Proof.
  intros Hst Hv. unfold case_of, elf_case.
  destruct ((0 <? cs_count st) && (v =? cs_val st)) eqn:Er.
  { apply andb_true_iff in Er as [?%Z.ltb_lt ?%Z.eqb_eq]. done. }
  destruct (f64_eq v f64_zero) eqn:Ez; [done|]. destruct (f64_is_finite v) eqn:Ef; [|done]. cbn [orb negb].
  destruct (get_alpha_and_beta_star v (cs_beta st)) as [[alpha b]|] eqn:Ea; [|done].
  destruct (Z.ltb_spec alpha 0) as [|Ha]; [done|]. cbv zeta.
  set (erase := 52 - (get_f_alpha alpha + Z.land (shr64 v 52) 0x7ff - 1023)).
  set (mask := shl64 (2 ^ 64 - 1) (erase mod 64)). set (v' := Z.land mask v).
  assert (is_u64 v') as Hv'.
  { unfold v'. rewrite <- (Z.mod_small v (2 ^ 64) Hv), <- Z.land_ones, Z.land_assoc, Z.land_ones by lia.
    apply Z.mod_pos_bound. lia. }
  destruct (negb (Z.land (2 ^ 64 - 1 - mask) v =? 0)); [|done].
  destruct (Z.ltb_spec 4 erase) as [Herase|]; [|done]. cbn [andb].
  destruct (match try_recover v' b with Some r => f64_eq r v | None => false end) eqn:Erec; [|done].
  pose proof (try_recover_bits v' b v Hv Ef Ez Erec) as Hrec.
  destruct (Z.eqb_spec b (cs_beta st)) as [->|_].
  - destruct (Z.eqb_spec v' (ce_stored_val (cs_enc st))); [done|]. done.
  - split_and!; [done..| | |done]; eapply (beta_star_range v _ alpha b Hv Ef Ez Ea Ha Herase).
Qed.

Lemma case_enc_ok st v k :
  cst_ok st -> is_f64 v -> case_ok st v k ->
  is_u64 (ce_stored_val (case_enc (cs_enc st) v k)) /\
  ce_first (case_enc (cs_enc st) v k) = false /\
  - 2 ^ 31 <= ce_stored_lz (case_enc (cs_enc st) v k) < 2 ^ 31.
Proof.
  intros (Hc & _ & _ & _ & _ & _ & _ & Hlz) Hv Hk.
  assert (forall w, is_u64 w -> is_u64 (ce_stored_val (chimp_step (cs_enc st) w)) /\
    ce_first (chimp_step (cs_enc st) w) = false /\
    - 2 ^ 31 <= ce_stored_lz (chimp_step (cs_enc st) w) < 2 ^ 31) as Hstep.
  { intros w Hw. unfold chimp_step. destruct (ce_first (cs_enc st)) eqn:Hf; [done|].
    destruct (Z.eqb_spec (Z.lxor (ce_stored_val (cs_enc st)) w) 0); cbn [orb]; [cbn; done|].
    assert (is_u64 (Z.lxor (ce_stored_val (cs_enc st)) w)) as Hx by (by apply lxor_range).
    destruct (rounded_lz_spec (Z.lxor (ce_stored_val (cs_enc st)) w) ltac:(ilia)) as (Hr & _).
    destruct (THRESHOLD <? _); cbn [ce_stored_lz ce_first ce_stored_val]; split_and!; done || lia. }
  destruct k; cbn [case_enc case_ok] in *; apply Hstep; tauto || done.
Qed.

Lemma cst_step_ok st s : cst_ok st -> sample_ok s -> cst_ok (cst_step st s).
Proof.
  intros Hst [Hts Hv]. pose proof (case_of_ok st (value s) Hst Hv) as Hk.
  destruct (case_enc_ok st (value s) _ Hst Hv Hk) as (H1 & H2 & H3).
  pose proof Hst as (_ & Hc & _ & _ & _ & _ & Hb & _).
  unfold cst_ok, cst_step. cbn [cs_enc cs_beta cs_count cs_ts cs_delta cs_val].
  split_and!; try done; try lia.
  - unfold new_delta. destruct (cs_count st =? 0); [done|apply wrap_i64_range].
  - destruct (case_of st (value s)); cbn [case_beta case_ok] in *; lia.
  - destruct (case_of st (value s)); cbn [case_beta case_ok] in *; lia.
Qed.

(** The state between a sample's timestamp and its value. *)
Lemma cst_ok_ts st ts :
  cst_ok st -> is_i64 ts ->
  cst_ok (mkCst (cs_enc st) (cs_beta st) (cs_count st) ts (new_delta st ts) (cs_val st)).
Proof.
  intros (? & ? & ? & ? & ? & ? & ? & ?) Hts. unfold cst_ok.
  cbn [cs_enc cs_beta cs_count cs_ts cs_delta cs_val]. split_and!; try done; try tauto.
  unfold new_delta. destruct (cs_count st =? 0); [done|apply wrap_i64_range].
Qed.

(** ** Writing *)

Lemma new_beta_bits b : 0 <= b <= 15 -> bits_be 6 (Z.lor b 0x30) = [true; true] ++ bits_be 4 b.
Proof. intros Hb. apply (prefix_bits 2 4 4 3); done || lia. Qed.

Lemma write_value_rep c bits v :
  bs_rep (cz_writer c) bits -> cst_ok (cst_of c) -> is_f64 v ->
  let k := case_of (cst_of c) v in
  exists w, write_value c v =
      with_stream c (w, case_enc (cz_chimp c) v k) (case_beta (cz_last_beta_star c) k) /\
    bs_rep w (bits ++ case_code (cz_chimp c) v k).
Proof.
  intros Hrep Hst Hv k. pose proof (case_of_ok _ v Hst Hv) as Hk. fold k in Hk.
  pose proof Hst as (Hc & _ & _ & _ & _ & Hopen & _). cbn [cst_of cs_enc cs_count cs_val cs_beta] in *.
  unfold write_value. change (elf_case _ _ _ _ v) with k.
  destruct k as [| |v'|b v']; cbn [case_code case_enc case_beta case_ok] in *.
  - destruct (chimp_code_repeat (cz_chimp c)) as [-> ->]; [apply Hopen, Hk|].
    eexists. split; [done|]. apply (add_repeat_rep (cz_chimp c) _ _ 0 1); [done|lia].
  - destruct (add_value_rep (cz_chimp c) _ _ 2 2 v Hrep ltac:(lia) Hc Hv) as (w & E & Hw).
    change (Z.of_nat 2) with 2 in E. rewrite E. eauto.
  - destruct (add_value_rep (cz_chimp c) _ _ 0 1 v' Hrep ltac:(lia) Hc ltac:(tauto)) as (w & E & Hw).
    change (Z.of_nat 1) with 1 in E. rewrite E. eauto.
  - destruct Hk as (Hv' & Hb & _).
    destruct (add_value_rep (cz_chimp c) _ _ (Z.lor b 0x30) 6 v' Hrep ltac:(lia) Hc Hv') as (w & E & Hw).
    change (Z.of_nat 6) with 6 in E. rewrite E. eexists. split; [done|].
    by rewrite new_beta_bits, <- app_assoc in Hw.
Qed.

Lemma chimp_add_sample_rep c bits s :
  bs_rep (cz_writer c) bits -> cst_ok (cst_of c) -> sample_ok s ->
  exists c', chimp_add_sample c s = Ok c' /\ cst_of c' = cst_step (cst_of c) s /\
    bs_rep (cz_writer c') (bits ++ chimp_sample_code (cst_of c) s) /\
    cz_first_timestamp c' = (if cz_count c =? 0 then timestamp s else cz_first_timestamp c).
Proof.
  intros Hrep Hst [Hts Hv]. unfold chimp_add_sample.
  set (c1 := write_timestamp c (timestamp s)).
  assert (bs_rep (cz_writer c1) (bits ++ ts_code (cst_of c) (timestamp s)) /\
    cst_of c1 = mkCst (cz_chimp c) (cz_last_beta_star c) (cz_count c) (timestamp s)
      (new_delta (cst_of c) (timestamp s)) (cz_last_value c) /\
    cz_first_timestamp c1 = (if cz_count c =? 0 then timestamp s else cz_first_timestamp c))
    as (Hrep1 & Hst1 & Hfirst).
  { subst c1. unfold write_timestamp, ts_code, new_delta. cbn [cst_of cs_count cs_ts cs_delta].
    destruct (cz_count c =? 0); (split_and!; [|done|done]); cbn [cz_writer].
    - by apply bs_write_varint_rep.
    - apply write_dod_rep; [done|apply wrap_i64_range]. }
  assert (cst_ok (cst_of c1)) as Hok1.
  { rewrite Hst1. by apply (cst_ok_ts (cst_of c)). }
  destruct (write_value_rep c1 _ (value s) Hrep1 Hok1 Hv) as (w & -> & Hw).
  assert (case_of (cst_of c1) (value s) = case_of (cst_of c) (value s)) as Hcase by (by rewrite Hst1).
  rewrite Hcase in *. clearbody c1. injection Hst1 as Ec Eb En Et Ed Ev.
  eexists. split; [done|]. cbn [with_stream cz_writer cz_first_timestamp]. split_and!; [| |done].
  - unfold cst_of at 1, cst_step. cbn. by rewrite Ec, Eb, En, Et, Ed.
  - unfold chimp_sample_code. cbn [cst_of cs_enc]. by rewrite Ec, <- app_assoc in Hw.
Qed.

(** ** Reading *)

Definition dec_rel (st : cst) (d : ChimpDecompressor) : Prop :=
  chimp_rel (cs_enc st) (dz_chimp d) /\ dz_last_beta_star d = cs_beta st /\ dz_count d = cs_count st /\
  dz_last_timestamp d = cs_ts st /\ dz_last_delta d = cs_delta st /\ dz_last_value d = cs_val st.

Lemma wrap_i64_add_sub a b : is_i64 a -> wrap_i64 (b + wrap_i64 (a - b)) = a.
Proof.
  intros Ha. rewrite <- (wrap_i64_id a) at 2 by done. unfold wrap_i64. f_equal.
  replace (b + ((a - b + 2 ^ 63) mod 2 ^ 64 - 2 ^ 63) + 2 ^ 63)
    with (b + (a - b + 2 ^ 63) mod 2 ^ 64) by lia.
  rewrite Zplus_mod_idemp_r. f_equal. lia.
Qed.

Lemma chimp_read_timestamp_app st d ts rest :
  dec_rel st d -> is_i64 ts -> is_i64 (cs_delta st) -> rd_rep (dz_reader d) (ts_code st ts ++ rest) ->
  exists r, chimp_read_timestamp d = Ok (ts, with_timestamp d r ts (new_delta st ts)) /\ rd_rep r rest.
Proof.
  intros (_ & _ & Hn & Ht & Hd & _) Hts Hdelta Hrep. unfold chimp_read_timestamp, ts_code, new_delta in *.
  rewrite Hn. destruct (cs_count st =? 0).
  - destruct (read_varint_app _ _ _ Hts Hrep) as (r & -> & Hr). eauto.
  - destruct (read_dod_app _ _ _ (wrap_i64_range _) Hrep) as (r & -> & Hr). exists r. split; [|done].
    rewrite Ht, Hd, wrap_i64_add_sub by apply wrap_i64_range. by rewrite wrap_i64_add_sub.
Qed.

Lemma chimp_decode_value_app st d v rest :
  dec_rel st d -> cst_ok st -> is_f64 v ->
  rd_rep (dz_reader d) (case_code (cs_enc st) v (case_of st v) ++ rest) ->
  exists r chimp, chimp_decode_value d =
      Ok (v, with_value d r chimp (case_beta (cs_beta st) (case_of st v)) v) /\ rd_rep r rest /\
    chimp_rel (case_enc (cs_enc st) v (case_of st v)) chimp.
Proof.
  intros (Hrel & Hb & _ & _ & _ & Hval) Hst Hv Hrep. pose proof (case_of_ok _ v Hst Hv) as Hk.
  pose proof Hst as (Hc & _ & _ & _ & _ & Hopen & _).
  unfold chimp_decode_value, read_value_flagged, chimp_read_value.
  destruct (case_of st v) as [| |v'|b v']; cbn [case_code case_enc case_beta case_ok app] in *;
    destruct (read_bit_app _ _ _ Hrep) as (r1 & -> & Hr1); cbn [negb].
  - destruct (chimp_next_app _ _ _ _ _ Hrel Hc Hr1) as (d' & r2 & -> & _ & Hd' & Hr2).
    rewrite Hopen, Z.eqb_refl by tauto. cbn [negb andb]. rewrite Hb, Hval. destruct Hk as [_ ->]. eauto.
  - destruct (read_bit_app _ _ _ Hr1) as (r2 & -> & Hr2). cbn [negb].
    destruct (chimp_next_app _ _ _ _ _ Hrel Hv Hr2) as (d' & r3 & -> & -> & Hd' & Hr3).
    rewrite Hb. eauto.
  - destruct Hk as (Hv' & Hne & Hrec).
    destruct (chimp_next_app _ _ _ _ _ Hrel Hv' Hr1) as (d' & r2 & -> & -> & Hd' & Hr2).
    rewrite (proj2 (Z.eqb_neq _ _) Hne), andb_false_r, Hb, Hrec. eauto.
  - destruct Hk as (Hv' & Hb15 & Hrec). destruct (read_bit_app _ _ _ Hr1) as (r2 & -> & Hr2). cbn [negb].
    rewrite <- app_assoc in Hr2. destruct (read_bits_app _ 4 _ _ Hr2 ltac:(lia)) as (r3 & E3 & Hr3).
    change (Z.of_nat 4) with 4 in E3. rewrite E3, Z.mod_small by (cbn; lia).
    destruct (chimp_next_app _ _ _ _ _ Hrel Hv' Hr3) as (d' & r4 & -> & -> & Hd' & Hr4).
    rewrite Hrec. eauto.
Qed.

Lemma next_sample_app st d s rest :
  dec_rel st d -> cst_ok st -> sample_ok s -> dz_count d <> dz_sample_count d ->
  rd_rep (dz_reader d) (chimp_sample_code st s ++ rest) ->
  exists d', next_sample d = Ok (Some (s, d')) /\ dec_rel (cst_step st s) d' /\
    dz_sample_count d' = dz_sample_count d /\ rd_rep (dz_reader d') rest.
Proof.
  intros Hrel Hst [Hts Hv] Hcount Hrep. unfold next_sample.
  rewrite (proj2 (Z.eqb_neq _ _) Hcount). unfold chimp_sample_code in Hrep. rewrite <- app_assoc in Hrep.
  destruct (chimp_read_timestamp_app _ _ _ _ Hrel Hts ltac:(apply Hst) Hrep) as (r1 & -> & Hr1).
  set (d1 := with_timestamp d r1 (timestamp s) (new_delta st (timestamp s))).
  pose proof Hrel as (H1 & H2 & H3 & H4 & H5 & H6).
  set (st1 := mkCst (cs_enc st) (cs_beta st) (cs_count st) (timestamp s) (new_delta st (timestamp s)) (cs_val st)).
  assert (cst_ok st1) as Hst1 by (by apply cst_ok_ts).
  destruct (chimp_decode_value_app st1 d1 (value s) rest) as (r2 & chimp & E & Hr2 & Hch); try done.
  rewrite E. eexists. split; [by destruct s|]. cbn [with_value d1 with_timestamp dz_sample_count dz_reader].
  split_and!; [|done|done]. unfold dec_rel, cst_step. cbn. split_and!; done || lia.
Qed.

End Format.
