(* ===== verification/ChimpChunk.v ===== *)
(** * ChimpChunk: the Chimp instance of the codec chunk

    [chimp_chunk.rs]: the Chimp compressor and iterator as a [SampleCodec], and
    its laws.  Losslessness and persistence of the compressor are stated here
    over whole lists of samples. *)

From stdpp Require Import strings.
From S2P Require Import Prelude Float64 Types Content Encoding BitStream BitReader VarbitXor ChimpXor Elf64.
From S2P Require Import Log10Ref ChunkOps Codec ChimpCompressor ChimpProofs.

Abbreviation ChimpChunk := (CodecChunk ChimpCompressor).

Section Chimp.

Context `{Log10}.

#[export] Instance Chimp_codec : SampleCodec ChimpCompressor ChimpIterator := {
  codec_with_soft_cap := chimp_with_soft_cap;
  codec_set_soft_cap := chimp_set_soft_cap;
  codec_clear := chimp_clear;
  codec_add := chimp_add_sample;
  codec_count := cz_count;
  codec_first_ts := cz_first_timestamp;
  codec_last_ts := cz_last_timestamp;
  codec_last_value := cz_last_value;
  codec_bytes c := stream (cz_writer c);
  codec_iter := chimp_iter;
  codec_next := chimp_iter_next;
  codec_reserve _ _ _ := Ok tt;
  codec_left it := Z.to_nat (zi_num_samples it - zi_idx it);
  codec_serialize := chimp_serialize;
  codec_deserialize := chimp_deserialize;
}.

(** [impl ChunkOps for ChimpChunk], its persistence and its window iterator: the
    codec chunk over this codec. *)
Definition ChimpChunk_ops : ChunkOps ChimpChunk := Codec_ops.
Definition chimp_split : ChimpChunk -> TsdbResult (ChimpChunk * ChimpChunk) := cc_split.
Definition chimp_chunk_serialize : ChimpChunk -> list Z -> list Z := cc_serialize.
Definition chimp_chunk_deserialize : list Z -> TsdbResult ChimpChunk := cc_deserialize.
Definition chimp_range_iter : ChimpChunk -> Timestamp -> Timestamp -> list Sample := cc_range_iter.
Definition chimp_chunk_next (it : ChunkIterator (I := ChimpIterator)) : option (Sample * ChunkIterator) :=
  ci_next it.

Definition chimp_compression_ratio (c : ChimpChunk) : f64 :=
  if cc_is_empty c then f64_zero
  else if cc_data_size c =? 0 then f64_zero
  else f64_div (f64_of_usize (cc_len c * SAMPLE_SIZE)) (f64_of_usize (cc_data_size c)).

(** ** The compressor holds a list of samples *)

Definition chimp_rep (c : ChimpCompressor) (l : list Sample) : Prop :=
  Forall sample_ok l /\ cst_of c = foldl cst_step cst_init l /\
  bs_rep (cz_writer c) (chimp_stream_code cst_init l) /\
  cz_first_timestamp c = match l with s :: _ => timestamp s | [] => 0 end.

Lemma chimp_stream_code_app st l1 l2 :
  chimp_stream_code st (l1 ++ l2) =
  chimp_stream_code st l1 ++ chimp_stream_code (foldl cst_step st l1) l2.
Proof.
  revert st. induction l1 as [|s l1 IH]; intros st; [done|].
  cbn [app chimp_stream_code foldl]. by rewrite IH, app_assoc.
Qed.

Lemma cst_fold_ok st l : cst_ok st -> Forall sample_ok l -> cst_ok (foldl cst_step st l).
Proof. intros Hst Hl. revert st Hst. induction Hl; intros st Hst; [done|]. by apply IHHl, cst_step_ok. Qed.

Lemma cst_fold_count st l : cs_count (foldl cst_step st l) = cs_count st + Z.of_nat (length l).
Proof.
  revert st. induction l as [|s l IH]; intros st; cbn [foldl length]; [lia|].
  rewrite IH. cbn [cst_step cs_count]. lia.
Qed.

Lemma chimp_rep_count c l : chimp_rep c l -> cz_count c = Z.of_nat (length l).
Proof.
  intros (_ & Hst & _). change (cz_count c) with (cs_count (cst_of c)).
  rewrite Hst, cst_fold_count. done.
Qed.

Lemma chimp_rep_last c l x :
  chimp_rep c (l ++ [x]) -> cz_last_timestamp c = timestamp x /\ cz_last_value c = value x.
Proof.
  intros (_ & Hst & _). change (cz_last_timestamp c) with (cs_ts (cst_of c)).
  change (cz_last_value c) with (cs_val (cst_of c)). rewrite Hst, foldl_app. done.
Qed.

Lemma chimp_new_rep n : chimp_rep (chimp_with_soft_cap n) [].
Proof. split_and!; [constructor|done|apply bs_new_rep|done]. Qed.

Lemma chimp_clear_rep c : chimp_rep (chimp_clear c) [].
Proof. split_and!; [constructor|done|apply bs_new_rep|done]. Qed.

Lemma chimp_add_rep c l s :
  chimp_rep c l -> sample_ok s -> exists c', chimp_add_sample c s = Ok c' /\ chimp_rep c' (l ++ [s]).
Proof.
  intros Hrep Hs. pose proof (chimp_rep_count c l Hrep) as Hn. pose proof Hrep as (Hok & Hst & Hw & Hf).
  assert (cst_ok (cst_of c)) as Hcst by (rewrite Hst; by apply cst_fold_ok; [apply cst_init_ok|]).
  destruct (chimp_add_sample_rep c _ s Hw Hcst Hs) as (c' & E & Hst' & Hw' & Hf').
  exists c'. split; [done|]. split_and!.
  - apply Forall_app. split; [done|]. by fora.
  - by rewrite Hst', Hst, foldl_app.
  - rewrite chimp_stream_code_app, <- Hst. cbn [chimp_stream_code]. by rewrite app_nil_r.
  - rewrite Hf', Hn, Hf. destruct l; [done|]. cbn [length app]. destruct (Z.eqb_spec (Z.of_nat (S (length l))) 0); [lia|done].
Qed.

(** ** Size: at most 160 bits a sample *)

Lemma table_nonneg i : 0 <= table LEADING_ROUND_ENC i.
Proof.
  unfold table. destruct (nth_in_or_default (Z.to_nat i) LEADING_ROUND_ENC 0) as [Hin| ->]; [|done].
  assert (Forall (fun z => 0 <= z) LEADING_ROUND_ENC) as Hall by (by repeat (constructor; [lia|])).
  rewrite Forall_forall in Hall. by apply Hall, list_elem_of_In.
Qed.

Lemma length_chimp_code c v : (length (chimp_code c v) <= 69)%nat.
Proof.
  unfold chimp_code. pose proof (table_nonneg (leading_zeros (Z.lxor (ce_stored_val c) v))) as Ht.
  fold (rounded_lz (Z.lxor (ce_stored_val c) v)) in Ht.
  repeat case_match; rewrite ?length_app, ?length_bits_be; cbn [length]; unfold THRESHOLD in *; lia.
Qed.

Lemma length_dod_code dd : (length (dod_code dd) <= 69)%nat.
Proof. unfold dod_code. repeat case_match; rewrite ?length_app, ?length_bits_be; cbn [length]; lia. Qed.

Lemma length_chimp_stream_code st l : (length (chimp_stream_code st l) <= 160 * length l)%nat.
Proof.
  revert st. induction l as [|s l IH]; intros st; cbn [chimp_stream_code length]; [lia|].
  specialize (IH (cst_step st s)). rewrite length_app. unfold chimp_sample_code. rewrite length_app.
  assert (length (ts_code st (timestamp s)) <= 80)%nat as Hts.
  { unfold ts_code. case_match; [|pose proof (length_dod_code (wrap_i64 (new_delta st (timestamp s) - cs_delta st))); lia].
    rewrite length_bytes_bits. pose proof (length_write_signed_varint (timestamp s)). lia. }
  assert (forall k, length (case_code (cs_enc st) (value s) k) <= 75)%nat as Hk.
  { intros [| |v'|b v']; cbn [case_code]; rewrite !length_app, ?length_bits_be; cbn [length];
      match goal with |- context [chimp_code ?c ?v] => pose proof (length_chimp_code c v) end; lia. }
  specialize (Hk (case_of st (value s))). lia.
Qed.

Lemma chimp_rep_bytes c l : chimp_rep c l -> (length (stream (cz_writer c)) <= 20 * length l)%nat.
Proof.
  intros (_ & _ & Hw & _). apply (bs_rep_bytes _ _ _ Hw).
  pose proof (length_chimp_stream_code cst_init l). lia.
Qed.

(** ** The iterator yields the rest of it *)

Definition chimp_it_rep (it : ChimpIterator) (rest : list Sample) : Prop :=
  Forall sample_ok rest /\ zi_num_samples it = zi_idx it + Z.of_nat (length rest) /\ 0 <= zi_idx it /\
  dz_count (zi_inner it) = zi_idx it /\ dz_sample_count (zi_inner it) = zi_num_samples it /\
  exists st pad, cst_ok st /\ dec_rel st (zi_inner it) /\
    rd_rep (dz_reader (zi_inner it)) (chimp_stream_code st rest ++ pad).

Lemma chimp_iter_rep c l : chimp_rep c l -> chimp_it_rep (chimp_iter c) l.
Proof.
  intros Hrep. pose proof (chimp_rep_count c l Hrep) as Hn. destruct Hrep as (Hok & Hst & Hw & Hf).
  unfold chimp_it_rep, chimp_iter. cbn. split_and!; try done; try lia.
  eexists cst_init, _. split_and!; [apply cst_init_ok| |by apply rd_new_bs_rep].
  unfold dec_rel. cbn. split_and!; done || apply chimp_rel_init.
Qed.

Lemma chimp_next_rep it s l :
  chimp_it_rep it (s :: l) -> exists it', chimp_iter_next it = Some (Ok (s, it')) /\ chimp_it_rep it' l.
Proof.
  intros (Hok & Hn & Hi & Hc & Hsc & st & pad & Hst & Hrel & Hrd). cbn [length] in Hn.
  apply Forall_cons in Hok as [Hs Hok]. unfold chimp_iter_next.
  destruct (Z.leb_spec (zi_num_samples it) (zi_idx it)); [lia|].
  cbn [chimp_stream_code] in Hrd. rewrite <- app_assoc in Hrd.
  destruct (next_sample_app _ _ _ _ Hrel Hst Hs ltac:(lia) Hrd) as (d' & -> & Hrel' & Hsc' & Hrd').
  eexists. split; [done|]. unfold chimp_it_rep. cbn [zi_inner zi_idx zi_num_samples].
  split_and!; try done; try lia.
  - destruct Hrel' as (_ & _ & -> & _). cbn [cst_step cs_count]. destruct Hrel as (_ & _ & <- & _). lia.
  - exists (cst_step st s), pad. split_and!; [by apply cst_step_ok|done|done].
Qed.

Lemma chimp_next_done it : chimp_it_rep it [] -> chimp_iter_next it = None.
Proof.
  intros (_ & Hn & _). cbn in Hn. unfold chimp_iter_next.
  destruct (Z.leb_spec (zi_num_samples it) (zi_idx it)); [done|lia].
Qed.

(** ** Persistence *)

Lemma chimp_serialize_flat c buf :
  chimp_serialize c buf = buf ++
    write_uvarint [] (cz_count c) ++ write_signed_varint [] (cz_first_timestamp c) ++
    write_signed_varint [] (cz_last_timestamp c) ++ write_signed_varint [] (cz_last_delta c) ++
    write_f64_le [] (cz_last_value c) ++ write_signed_varint [] (cz_last_beta_star c) ++
    write_signed_varint [] (ce_stored_lz (cz_chimp c)) ++ write_uvarint [] (ce_stored_val (cz_chimp c)) ++
    write_uvarint [] (Z.b2z (ce_first (cz_chimp c))) ++ bs_serialize (cz_writer c) [].
Proof.
  unfold chimp_serialize, write_signed_varint, write_f64_le, write_u64_le. rewrite bs_serialize_app.
  rewrite !(write_uvarint_app (write_uvarint _ _)), !(write_uvarint_app (_ ++ _)), (write_uvarint_app buf).
  by rewrite <- !app_assoc.
Qed.

Lemma chimp_serialize_app c buf : chimp_serialize c buf = buf ++ chimp_serialize c [].
Proof. by rewrite !chimp_serialize_flat. Qed.

Lemma wrap_i32_id z : - 2 ^ 31 <= z < 2 ^ 31 -> wrap_i32 z = z.
Proof. intros Hz. unfold wrap_i32. rewrite Z.mod_small; lia. Qed.

Lemma chimp_roundtrip c l rest :
  chimp_rep c l -> cz_count c < 2 ^ 64 -> bs_len (cz_writer c) < 2 ^ 64 ->
  chimp_deserialize (chimp_serialize c [] ++ rest) = Ok (chimp_set_soft_cap c usize_MAX).
Proof.
  intros Hrep Hn Hlen. pose proof (chimp_rep_count c l Hrep) as Hcount. destruct Hrep as (Hok & Hst & Hw & Hf).
  pose proof (cst_fold_ok _ _ cst_init_ok Hok) as Hcst. rewrite <- Hst in Hcst.
  destruct Hcst as (Hval & _ & Hts & Hd & Hv & _ & Hb & Hlz). cbn in Hval, Hts, Hd, Hv, Hb, Hlz.
  assert (is_i64 (cz_first_timestamp c)) as Hfts.
  { rewrite Hf. destruct Hok as [|? ? [? _] _]; done. }
  rewrite chimp_serialize_flat. cbn [app]. rewrite <- !app_assoc.
  unfold chimp_deserialize, chimp_read_uvarint, chimp_read_signed_varint.
  rewrite read_write_uvarint by ilia. cbn [map_err].
  rewrite read_write_signed_varint by done. cbn [map_err].
  rewrite read_write_signed_varint by done. cbn [map_err].
  rewrite read_write_signed_varint by done. cbn [map_err].
  unfold try_read_f64_le, write_f64_le. rewrite read_write_u64_le by done. cbn [map_err].
  rewrite read_write_signed_varint by ilia. cbn [map_err].
  rewrite read_write_signed_varint by ilia. cbn [map_err].
  rewrite read_write_uvarint by done. cbn [map_err].
  rewrite read_write_uvarint by (destruct (ce_first (cz_chimp c)); done). cbn [map_err].
  erewrite bs_roundtrip by done. cbn [map_err]. rewrite !wrap_i32_id by done.
  destruct c as [w [lz val first] b n f t d v]. by destruct first.
Qed.

#[export] Instance Chimp_laws : CodecLaws ChimpCompressor ChimpIterator.
Proof.
  refine {| codec_holds := chimp_rep; codec_yields := chimp_it_rep |}; cbn.
  - apply chimp_new_rep.
  - apply chimp_clear_rep.
  - done.
  - intros e l s Hr [_ [_ [[Hs _] _]%Forall_cons]%Forall_app]. by apply chimp_add_rep.
  - apply chimp_rep_count.
  - intros e x l (_ & _ & _ & Hf). done.
  - apply chimp_rep_last.
  - apply chimp_iter_rep.
  - apply chimp_rep_bytes.
  - done.
  - intros i l (_ & Hn & _). lia.
  - apply chimp_next_rep.
  - apply chimp_next_done.
  - done.
  - apply chimp_serialize_app.
  - intros e l rest Hr Hn Hb. by eapply chimp_roundtrip.
Defined.

(** The compressor's iterator, collected. *)
Definition chimp_collect (c : ChimpCompressor) : TsdbResult (list Sample) :=
  codec_fold (chimp_iter c) (fun acc s => Ok (acc ++ [s])) [].

Lemma chimp_collect_rep c l : chimp_rep c l -> chimp_collect c = Ok l.
Proof.
  intros Hr. unfold chimp_collect. erewrite (codec_fold_law (E := ChimpCompressor)) by (by apply chimp_iter_rep).
  apply (try_fold_snoc []).
Qed.

Lemma chimp_add_all_rep c l l' :
  chimp_rep c l -> Forall sample_ok l' ->
  exists c', try_fold chimp_add_sample c l' = Ok c' /\ chimp_rep c' (l ++ l').
Proof.
  intros Hrep Hok. revert c l Hrep. induction Hok as [|s l' Hs Hok IH]; intros c l Hrep.
  { exists c. by rewrite app_nil_r. }
  destruct (chimp_add_rep c l s Hrep Hs) as (c1 & E1 & Hrep1). cbn [try_fold]. rewrite E1.
  replace (l ++ s :: l') with ((l ++ [s]) ++ l') by (by rewrite <- app_assoc). by apply IH.
Qed.

(** C38. Chimp compression with ELF erasure is lossless for every list of samples:
    any timestamps in any order, any value with any bit pattern (NaN payloads,
    infinities, both zeros, subnormals).  It holds for every [log10] that is right
    to a factor of two, in particular because the digit count always fits its
    four-bit field when a value is erased. *)
Theorem chimp_lossless (l : list Sample) :
  Forall sample_ok l ->
  exists c, try_fold chimp_add_sample chimp_new l = Ok c /\
    cz_count c = Z.of_nat (length l) /\ chimp_collect c = Ok l.
Proof.
  intros Hok. destruct (chimp_add_all_rep chimp_new [] l) as (c & E & Hrep); [|done|].
  - split_and!; [constructor|done|apply bs_new_rep|done].
  - exists c. split; [done|]. split; [by apply chimp_rep_count|by apply chimp_collect_rep].
Qed.

(** A serialized Chimp compressor is restored field for field (its stream's
    allocation cap apart), so that it iterates to the same samples and appends
    the same bits. *)
Theorem chimp_persistence (c : ChimpCompressor) (l : list Sample) (rest : list Z) :
  chimp_rep c l -> cz_count c < 2 ^ 64 -> bs_len (cz_writer c) < 2 ^ 64 ->
  chimp_deserialize (chimp_serialize c [] ++ rest) = Ok (chimp_set_soft_cap c usize_MAX) /\
  chimp_collect (chimp_set_soft_cap c usize_MAX) = Ok l.
Proof.
  intros Hrep Hn Hl. split; [by eapply chimp_roundtrip|]. by apply chimp_collect_rep.
Qed.

End Chimp.

Lemma chimp_lossless_witness :
  exists c, try_fold chimp_add_sample chimp_new
      [mkSample 1000 0x405EDD2F1A9FBE77; mkSample 1010 0x405EDD2F1A9FBE77;
       mkSample 900 0x7FF8000000000001; mkSample 9000 0x8000000000000000] = Ok c /\
    cz_count c = 4 /\
    chimp_collect c = Ok
      [mkSample 1000 0x405EDD2F1A9FBE77; mkSample 1010 0x405EDD2F1A9FBE77;
       mkSample 900 0x7FF8000000000001; mkSample 9000 0x8000000000000000].
Proof. apply chimp_lossless. fora; (split; [split|split]; cbn; lia). Defined.

Lemma chimp_persistence_witness :
  exists c, chimp_add_sample chimp_new (mkSample 5 0x405EDD2F1A9FBE77) = Ok c /\
    chimp_deserialize (chimp_serialize c [] ++ [7]) = Ok (chimp_set_soft_cap c usize_MAX) /\
    chimp_collect (chimp_set_soft_cap c usize_MAX) = Ok [mkSample 5 0x405EDD2F1A9FBE77].
Proof.
  destruct (chimp_add_rep chimp_new [] (mkSample 5 0x405EDD2F1A9FBE77) (chimp_new_rep usize_MAX))
    as (c & E & Hc); [split; split; cbn; lia|].
  exists c. split; [exact E|]. apply (chimp_persistence c _ [7] Hc).
  - rewrite (chimp_rep_count _ _ Hc). cbn. lia.
  - assert (match chimp_add_sample chimp_new (mkSample 5 0x405EDD2F1A9FBE77) with
            | Ok c => bs_len (cz_writer c) <? 2 ^ 64 | Err _ => false end = true) as H
      by (vm_compute; reflexivity).
    rewrite E in H. by apply Z.ltb_lt.
Defined.
