(* ===== verification/ChunkMethods.v ===== *)
(** * ChunkMethods: the methods of a chunk that only use its interface

    The inherent methods of [timeseries_chunk.rs] and [merge_by_capacity] of
    [merge.rs], over any encoding, with what they compute of the content. *)

From S2P Require Import Prelude Float64 Types Content Merge ChunkOps.

(** [1.2] *)
Definition SPLIT_FACTOR : f64 := 0x3FF3333333333333.

Section Methods.

Context {C : Type} `{ChunkOps C}.

Definition utilization (c : C) : f64 :=
  let total := chunk_max_size c in
  if total =? 0 then f64_zero else f64_div (f64_of_usize (chunk_size c)) (f64_of_usize total).

Definition should_split (c : C) : bool := f64_le SPLIT_FACTOR (utilization c).

Definition estimate_remaining_sample_capacity (c : C) : Z :=
  let used := chunk_size c in
  let total := chunk_max_size c in
  if total <=? used then 0
  else
    let remaining := total - used in
    let bps := bytes_per_sample c in
    if bps =? 0 then 0 else remaining / bps.

Definition is_timestamp_in_range (c : C) (ts : Timestamp) : bool :=
  (first_timestamp c <=? ts) && (ts <=? last_timestamp c).

Definition is_contained_by_range (c : C) (s e : Timestamp) : bool :=
  (s <=? first_timestamp c) && (last_timestamp c <=? e).

Definition overlaps (c : C) (s e : Timestamp) : bool :=
  (first_timestamp c <=? e) && (s <=? last_timestamp c).

Definition chunk_has_samples_in_range (c : C) (s e : Timestamp) : bool :=
  if chunk_is_empty c || negb (overlaps c s e) then false
  else match chunk_range_iter c s e with [] => false | _ => true end.

Definition chunk_last_sample (c : C) : option Sample :=
  if chunk_is_empty c then None else Some (mkSample (last_timestamp c) (chunk_last_value c)).

Definition chunk_upsert (c : C) (s : Sample) (p : DuplicatePolicy) : Z * SampleAddResult * C :=
  match chunk_upsert_sample c s p with
  | Ok (size, c) => (size, AddOk s, c)
  | Err (DuplicateSample _) => (0, Duplicate, c)
  | Err _ => (0, AddError CANNOT_ADD_SAMPLE, c)
  end.

Definition count_ok (res : list SampleAddResult) : Z := Z.of_nat (length (List.filter add_is_ok res)).

Definition merge_range (c : C) (l : list Sample) (dp : option DuplicatePolicy) : TsdbResult (Z * C) :=
  if chunk_is_full c then Ok (0, c)
  else let? (res, c) := chunk_merge_samples c l dp in Ok (count_ok res, c).

(** ** Looking up a sorted list of timestamps *)

(** The inner loop: move [index] until its timestamp reaches [ts]; the flag says
    that it was met and consumed. *)
Fixpoint advance_index (fuel : nat) (timestamps : list Timestamp) (ts : Timestamp) (index : nat)
    (first_ts : Timestamp) : nat * Timestamp * bool :=
  match fuel with
  | O => (index, first_ts, false)
  | S fuel' =>
      if (index + 1 <? length timestamps)%nat && (first_ts <? ts) then
        let index := (index + 1)%nat in
        let first_ts := nth index timestamps 0 in
        if first_ts =? ts then ((index + 1)%nat, first_ts, true)
        else advance_index fuel' timestamps ts index first_ts
      else (index, first_ts, false)
  end.

Fixpoint match_timestamps (timestamps : list Timestamp) (index : nat) (samples : list Sample)
    : list Sample :=
  match samples with
  | [] => []
  | s :: rest =>
      if (length timestamps <=? index)%nat then []
      else
        let first_ts := nth index timestamps 0 in
        if timestamp s <? first_ts then match_timestamps timestamps index rest
        else if timestamp s =? first_ts then s :: match_timestamps timestamps (index + 1) rest
        else
          let '(index, first_ts, matched) :=
            advance_index (length timestamps) timestamps (timestamp s) index first_ts in
          if matched then s :: match_timestamps timestamps index rest
          else if (index <? length timestamps)%nat && (first_ts =? timestamp s)
          then s :: match_timestamps timestamps (index + 1) rest
          else match_timestamps timestamps index rest
  end.

Definition chunk_samples_by_timestamps (c : C) (timestamps : list Timestamp) : TsdbResult (list Sample) :=
  match timestamps with
  | [] => Ok []
  | first_ts :: _ =>
      if chunk_len c =? 0 then Ok []
      else
        let first := Z.max first_ts (first_timestamp c) in
        let last := Z.min (List.last timestamps 0) (last_timestamp c) in
        Ok (match_timestamps timestamps 0 (chunk_range_iter c first last))
  end.

(** ** Merging a chunk into its predecessor *)

(** [None] when nothing was moved. *)
Definition merge_by_capacity (dest src : C) (min_timestamp : Timestamp) (dp : option DuplicatePolicy)
    : TsdbResult (option Z * C * C) :=
  if chunk_is_empty src then Ok (None, dest, src)
  else
    let count := chunk_len src in
    let remaining_capacity := estimate_remaining_sample_capacity dest in
    let first_ts := Z.max (first_timestamp src) min_timestamp in
    if count <=? remaining_capacity then
      let? (res, dest) := chunk_merge_samples dest (chunk_iter src) dp in
      Ok (Some (count_ok res), dest, chunk_clear src)
    else if count / 4 <? remaining_capacity then
      let? samples := chunk_get_range src first_ts (last_timestamp src) in
      let n := Z.to_nat (Z.min remaining_capacity (Z.of_nat (length samples))) in
      let? (res, dest) := chunk_merge_samples dest (take n samples) dp in
      let? src := chunk_set_data src (drop n samples) in
      Ok (Some (count_ok res), dest, src)
    else Ok (None, dest, src).

End Methods.

(** ** What they compute *)

Section Laws.

Context {C : Type} {ops : ChunkOps C} {laws : ChunkLaws C}.

Lemma holds_is_empty c l : holds c l -> chunk_is_empty c = match l with [] => true | _ => false end.
Proof.
  intros Hh. unfold chunk_is_empty. rewrite (holds_len _ _ Hh). destruct l; [done|]. cbn [length].
  destruct (Z.eqb_spec (Z.of_nat (S (length l))) 0); [lia|done].
Qed.

Lemma holds_last_sample c l : holds c l -> chunk_last_sample c = list.last l.
Proof.
  intros Hh. unfold chunk_last_sample. rewrite (holds_is_empty _ _ Hh).
  destruct l as [|x l _] using rev_ind; [done|]. rewrite last_snoc.
  destruct (holds_last _ _ _ Hh) as [-> ->]. by destruct l, x.
Qed.

(** First and last timestamp bound the content. *)
Lemma holds_bounds c l :
  holds c l -> Forall (fun x => first_timestamp c <= timestamp x <= last_timestamp c) l.
Proof.
  intros Hh. pose proof (holds_content _ _ Hh) as [Hs _]. destruct l as [|x l]; [done|].
  pose proof (holds_first _ _ _ Hh) as ->. destruct (snoc_cases (x :: l)) as (l' & y & E); [done|].
  rewrite E in Hh. destruct (holds_last _ _ _ Hh) as [-> _].
  pose proof Hs as [_ Hx]%ts_sorted_cons. rewrite E in Hs. apply ts_sorted_snoc in Hs as [_ Hy].
  rewrite Forall_forall in Hx, Hy. apply Forall_forall. intros z Hz. unfold ts_lt in *. split.
  - apply elem_of_cons in Hz as [->|Hz]; [lia|]. specialize (Hx z Hz). lia.
  - rewrite E in Hz. apply elem_of_app in Hz as [Hz|Hz%list_elem_of_singleton]; [specialize (Hy z Hz); lia|by subst].
Qed.

Lemma holds_has_samples c l s e :
  holds c l -> chunk_has_samples_in_range c s e = match select s e l with [] => false | _ => true end.
Proof.
  intros Hh. unfold chunk_has_samples_in_range, overlaps. rewrite (holds_is_empty _ _ Hh), (holds_range_iter _ _ _ _ Hh).
  destruct l as [|x l]; [done|]. cbn [orb].
  destruct (Z.leb_spec (first_timestamp c) e); destruct (Z.leb_spec s (last_timestamp c)); cbn [andb negb]; try done.
  all: rewrite select_none; [done|]; eapply Forall_impl; [apply (holds_bounds _ _ Hh)|]; cbn; intros; lia.
Qed.
(** *** Timestamp lookup *)

Definition ts_increasing (l : list Timestamp) : Prop :=
  forall i j, (i < j < length l)%nat -> nth i l 0 < nth j l 0.

Definition ts_member (l : list Timestamp) (x : Sample) : bool := existsb (Z.eqb (timestamp x)) l.

Lemma last_nth (l : list Z) d : List.last l d = nth (length l - 1) l d.
Proof.
  induction l as [|x l IH]; [done|]. destruct l as [|y l]; [done|].
  change (List.last (x :: y :: l) d) with (List.last (y :: l) d). rewrite IH.
  cbn [length]. by replace (S (S (length l)) - 1)%nat with (S (S (length l) - 1)) by lia.
Qed.

Lemma filter_filter_absorb {A} (f g : A -> bool) (l : list A) :
  (forall x, x ∈ l -> g x = true -> f x = true) ->
  List.filter g (List.filter f l) = List.filter g l.
Proof.
  induction l as [|x l IH]; intros Himp; [done|]. cbn [List.filter].
  assert (List.filter g (List.filter f l) = List.filter g l) as Hl
    by (apply IH; intros y Hy; apply Himp; by right).
  specialize (Himp x ltac:(by left)). destruct (f x); cbn [List.filter].
  - by rewrite Hl.
  - destruct (g x); [by specialize (Himp eq_refl)|done].
Qed.

Lemma ts_member_nth l x :
  ts_member l x = true <-> exists i, (i < length l)%nat /\ nth i l 0 = timestamp x.
Proof.
  unfold ts_member. rewrite existsb_exists. split.
  - intros (t & Hin & Ht%Z.eqb_eq). apply (In_nth _ _ 0) in Hin as (i & Hi & Hn). exists i. lia.
  - intros (i & Hi & Hn). exists (nth i l 0). split; [by apply nth_In|]. by apply Z.eqb_eq.
Qed.

Lemma advance_index_spec fuel l ts i :
  ts_increasing l -> (i < length l)%nat -> nth i l 0 < ts -> (length l - i <= fuel)%nat ->
  let '(i', f', matched) := advance_index fuel l ts i (nth i l 0) in
  if (matched : bool) then (0 < i' <= length l)%nat /\ nth (i' - 1) l 0 = ts
  else (i <= i' < length l)%nat /\ f' = nth i' l 0 /\ f' <> ts /\
       (f' < ts -> S i' = length l) /\ (forall j, (j < i')%nat -> nth j l 0 < ts).
Proof.
  intros Hinc. revert i. induction fuel as [|fuel IH]; intros i Hi Hlt Hf; [lia|].
  assert (forall j, (j < i)%nat -> nth j l 0 < ts) as Hbelow.
  { intros j Hj. specialize (Hinc j i ltac:(lia)). lia. }
  cbn [advance_index]. destruct (Nat.ltb_spec (i + 1) (length l)) as [Hn|Hn]; cbn [andb].
  2: { split_and!; try lia; done. }
  destruct (Z.ltb_spec (nth i l 0) ts); [|lia].
  destruct (Z.eqb_spec (nth (i + 1) l 0) ts) as [Heq|Hne].
  { split; [lia|]. by replace (i + 1 + 1 - 1)%nat with (i + 1)%nat by lia. }
  destruct (Z.lt_trichotomy (nth (i + 1) l 0) ts) as [Hl|[|Hg]]; [|done|].
  - specialize (IH (i + 1)%nat Hn Hl ltac:(lia)).
    destruct (advance_index fuel l ts (i + 1) (nth (i + 1) l 0)) as [[i' f'] []]; [done|].
    destruct IH as (? & ? & ? & ? & ?). split_and!; try lia; done.
  - assert (advance_index fuel l ts (i + 1) (nth (i + 1) l 0) = ((i + 1)%nat, nth (i + 1) l 0, false)) as ->.
    { destruct fuel; [done|]. cbn [advance_index]. destruct (Z.ltb_spec (nth (i + 1) l 0) ts); [lia|].
      by rewrite andb_false_r. }
    split_and!; try lia; try done. intros j Hj. destruct (Nat.eq_dec j i) as [->|]; [lia|apply Hbelow; lia].
Qed.

Lemma match_timestamps_spec l i samples :
  ts_increasing l -> ts_sorted samples ->
  (forall j, (j < i)%nat -> (j < length l)%nat -> Forall (fun x => nth j l 0 < timestamp x) samples) ->
  match_timestamps l i samples = List.filter (ts_member l) samples.
Proof.
  intros Hinc. revert i. induction samples as [|x samples IH]; intros i Hs Hlow; [done|].
  apply ts_sorted_cons in Hs as [Hs Hx]. cbn [match_timestamps List.filter].
  assert (forall k, (k <= length l)%nat -> (forall j, (j < k)%nat -> nth j l 0 <= timestamp x) ->
    match_timestamps l k samples = List.filter (ts_member l) samples) as Hrec.
  { intros k Hk Hle. apply IH; [done|]. intros j Hj _. eapply Forall_impl; [exact Hx|].
    unfold ts_lt. intros y Hy. specialize (Hle j Hj). lia. }
  assert (forall j, (j < i)%nat -> (j < length l)%nat -> nth j l 0 < timestamp x) as Hlow'.
  { intros j Hj Hjl. by specialize (Hlow j Hj Hjl) as [? _]%Forall_cons. }
  destruct (Nat.leb_spec (length l) i) as [Hend|Hi].
  { symmetry. apply (filter_none (ts_member l) (x :: samples)). apply Forall_forall. intros y Hy.
    apply not_true_is_false. intros (j & Hj & Hn)%ts_member_nth.
    specialize (Hlow j ltac:(lia) Hj). rewrite Forall_forall in Hlow. specialize (Hlow y Hy). lia. }
  destruct (Z.ltb_spec (timestamp x) (nth i l 0)) as [Hlt|Hge].
  { assert (ts_member l x = false) as ->.
    { apply not_true_is_false. intros (j & Hj & Hn)%ts_member_nth.
      destruct (Nat.lt_trichotomy j i) as [Hji|[->|Hji]]; [specialize (Hlow' j Hji Hj)| |specialize (Hinc i j ltac:(lia))]; lia. }
    apply Hrec; [lia|]. intros j Hj. specialize (Hlow' j Hj ltac:(lia)). lia. }
  destruct (Z.eqb_spec (timestamp x) (nth i l 0)) as [Heq|Hne].
  { assert (ts_member l x = true) as -> by (apply ts_member_nth; eauto). f_equal. apply Hrec; [lia|].
    intros j Hj. destruct (Nat.eq_dec j i) as [->|]; [lia|]. specialize (Hlow' j ltac:(lia) ltac:(lia)). lia. }
  pose proof (advance_index_spec (length l) l (timestamp x) i Hinc Hi ltac:(lia) ltac:(lia)) as Hadv.
  destruct (advance_index (length l) l (timestamp x) i (nth i l 0)) as [[i' f'] []].
  - destruct Hadv as [Hi' Hn]. assert (ts_member l x = true) as -> 
      by (apply ts_member_nth; exists (i' - 1)%nat; split; [lia|done]).
    f_equal. apply Hrec; [lia|]. intros j Hj. destruct (Nat.eq_dec j (i' - 1)%nat) as [->|]; [lia|].
    specialize (Hinc j (i' - 1)%nat ltac:(lia)). lia.
  - destruct Hadv as (Hi' & -> & Hn & Hlast & Hb). rewrite (proj2 (Z.eqb_neq _ _) Hn), andb_false_r.
    assert (ts_member l x = false) as ->.
    { apply not_true_is_false. intros (j & Hj & Hnj)%ts_member_nth.
      destruct (Nat.lt_trichotomy j i') as [Hji|[->|Hji]]; [specialize (Hb j Hji); lia|done|].
      specialize (Hinc i' j ltac:(lia)). lia. }
    apply Hrec; [lia|]. intros j Hj. specialize (Hb j Hj). lia.
Qed.

Lemma holds_samples_by_timestamps c l tss :
  holds c l -> ts_increasing tss ->
  chunk_samples_by_timestamps c tss = Ok (List.filter (ts_member tss) l).
Proof.
  intros Hh Hinc. pose proof (holds_content _ _ Hh) as [Hs _]. unfold chunk_samples_by_timestamps.
  destruct tss as [|t0 tss']; [by rewrite (filter_none (ts_member []) l) by (apply Forall_true; done)|].
  set (tss := t0 :: tss') in *. rewrite (holds_len _ _ Hh).
  destruct (Z.eqb_spec (Z.of_nat (length l)) 0) as [Hz|_]; [destruct l; [done|cbn in Hz; lia]|].
  rewrite (holds_range_iter _ _ _ _ Hh), match_timestamps_spec; [|done|by apply ts_sorted_filter|intros; lia].
  f_equal. unfold select. apply filter_filter_absorb. intros x Hx Hm.
  pose proof (holds_bounds _ _ Hh) as Hb. rewrite Forall_forall in Hb. specialize (Hb x Hx). cbn in Hb.
  apply ts_member_nth in Hm as (i & Hi & Hn). unfold in_range.
  assert (t0 <= timestamp x).
  { destruct i; [cbn in Hn; lia|]. specialize (Hinc 0%nat (S i) ltac:(lia)). cbn in Hinc, Hn. lia. }
  assert (timestamp x <= List.last tss 0).
  { assert (List.last tss 0 = nth (length tss - 1) tss 0) as -> by apply last_nth.
    destruct (Nat.eq_dec i (length tss - 1)%nat) as [->|]; [lia|].
    specialize (Hinc i (length tss - 1)%nat ltac:(lia)). lia. }
  lia.
Qed.

(** *** Merging into the predecessor *)

Lemma results_all_ok p l r res :
  Forall (fun x => Forall (ts_lt x) r) l -> Forall2 (result_for p l) r res ->
  count_ok res = Z.of_nat (length r).
Proof.
  intros Hb Hres. pose proof (merge_result_after p l r Hb) as Hmap. unfold count_ok. f_equal.
  clear Hb. induction Hres as [|s a r res Hsa Hres IH]; [done|].
  cbn [map] in Hmap. injection Hmap as Hs Hmap. cbn [List.filter].
  assert (add_is_ok a = true) as ->.
  { destruct Hsa as [->|[-> _]]; [by rewrite Hs|done]. }
  cbn [length]. by rewrite IH.
Qed.

(** Appending later samples through [merge_samples]. *)
Lemma holds_merge_after c l r dp :
  holds c l -> content_ok (l ++ r) -> chunk_is_full c = false ->
  exists res c', chunk_merge_samples c r dp = Ok (res, c') /\ holds c' (l ++ r) /\
    count_ok res = Z.of_nat (length r) /\ chunk_max_size c' = chunk_max_size c.
Proof.
  intros Hh (_ & Hr & Hb)%content_ok_app Hf.
  destruct (holds_merge c l r dp Hh Hr ltac:(done)) as (res & c' & E & Hc' & Hres & Hm).
  exists res, c'. rewrite upsert_all_after in Hc' by (done || apply Hr).
  split_and!; [done|done| |done]. by eapply results_all_ok.
Qed.

Lemma holds_merge_by_capacity d s l1 l2 min_ts dp :
  holds d l1 -> holds s l2 -> content_ok (l1 ++ l2) -> fits_memory l2 -> chunk_is_full d = false ->
  Forall (fun x => min_ts <= timestamp x) l2 ->
  exists moved d' s' l1' l2', merge_by_capacity d s min_ts dp = Ok (moved, d', s') /\
    holds d' l1' /\ holds s' l2' /\ l1' ++ l2' = l1 ++ l2 /\
    Z.of_nat (length l1') = Z.of_nat (length l1) + default 0 moved.
Proof.
  intros Hd Hs Hc Hm Hf Hmin. unfold merge_by_capacity. rewrite (holds_is_empty _ _ Hs).
  destruct l2 as [|x l2']; [exists None, d, s, l1, []; split_and!; try done; cbn; lia|].
  set (l2 := x :: l2') in *. set (cap := estimate_remaining_sample_capacity d).
  destruct (chunk_len s <=? cap).
  { rewrite (holds_iter _ _ Hs). destruct (holds_merge_after d l1 l2 dp Hd Hc Hf) as (res & d' & -> & Hd' & Hn & _).
    exists (Some (count_ok res)), d', (chunk_clear s), (l1 ++ l2), [].
    split_and!; [done|done|by eapply (holds_clear s)|by rewrite app_nil_r|]. rewrite length_app. unfold default. cbn [from_option]. unfold id. lia. }
  destruct (chunk_len s / 4 <? cap).
  2: { exists None, d, s, l1, l2. split_and!; try done. cbn. lia. }
  rewrite (holds_get_range _ _ _ _ Hs Hm).
  assert (select (Z.max (first_timestamp s) min_ts) (last_timestamp s) l2 = l2) as ->.
  { apply select_all. pose proof (holds_bounds _ _ Hs) as Hb. rewrite Forall_forall in Hb, Hmin.
    apply Forall_forall. intros y Hy. specialize (Hb y Hy). specialize (Hmin y Hy). cbn in Hb, Hmin. lia. }
  set (n := Z.to_nat (Z.min cap (Z.of_nat (length l2)))).
  assert (content_ok (l1 ++ take n l2)) as Hc1.
  { rewrite <- (take_drop n l2), app_assoc in Hc. by apply content_ok_app in Hc as [? _]. }
  destruct (holds_merge_after d l1 (take n l2) dp Hd Hc1 Hf) as (res & d' & -> & Hd' & Hn & _).
  destruct (holds_set_data s l2 (drop n l2) Hs) as (s' & -> & Hs' & _).
  { apply content_ok_drop. by apply content_ok_app in Hc as (_ & ? & _). }
  exists (Some (count_ok res)), d', s', (l1 ++ take n l2), (drop n l2).
  split_and!; [done..| |]; [by rewrite <- app_assoc, take_drop|]. rewrite length_app.
  unfold default. cbn [from_option]. unfold id. lia.
Qed.

End Laws.
