(* ===== verification/TimeSeriesChunk.v ===== *)
(** * TimeSeriesChunk: the three encodings behind one type

    Models the enum of [timeseries_chunk.rs] with its dispatch, [ChunkEncoding]
    of [chunk.rs], and the tagged serialization.  Whatever the encoding, a chunk
    satisfies [ChunkLaws]: this is the interface the series is built on. *)

From stdpp Require Import strings.
From S2P Require Import Prelude Float64 Types Content Encoding BitStream Gorilla Merge ChunkOps.
From S2P Require Import Uncompressed Codec GorillaChunk ChimpXor Elf64 Log10Ref ChimpCompressor.
From S2P Require Import ChimpChunk ChunkMethods.

Inductive ChunkEncoding := EncUncompressed | EncGorilla | EncChimp.

#[export] Instance ChunkEncoding_eq_dec : EqDecision ChunkEncoding.
Proof. solve_decision. Defined.

Definition encoding_as_u8 (e : ChunkEncoding) : Z :=
  match e with EncUncompressed => 1 | EncGorilla => 2 | EncChimp => 3 end.

Definition encoding_name (e : ChunkEncoding) : string :=
  match e with EncUncompressed => "uncompressed" | EncGorilla => "gorilla" | EncChimp => "chimp" end.

Definition encoding_is_compressed (e : ChunkEncoding) : bool :=
  match e with EncUncompressed => false | _ => true end.

Definition INVALID_CHUNK_ENCODING : string := "TSDB: unknown ENCODING parameter".

(** [TryFrom<u8>], its error converted as [?] does in [deserialize]. *)
Definition encoding_try_from_u8 (v : Z) : TsdbResult ChunkEncoding :=
  if v =? 1 then Ok EncUncompressed
  else if v =? 2 then Ok EncGorilla
  else if v =? 3 then Ok EncChimp
  else Err (General INVALID_CHUNK_ENCODING).

Inductive TimeSeriesChunk :=
| UncompressedVariant (c : UncompressedChunk)
| GorillaVariant (c : GorillaChunk)
| ChimpVariant (c : ChimpChunk).

Definition get_encoding (c : TimeSeriesChunk) : ChunkEncoding :=
  match c with
  | UncompressedVariant _ => EncUncompressed
  | GorillaVariant _ => EncGorilla
  | ChimpVariant _ => EncChimp
  end.

Definition chunk_is_compressed (c : TimeSeriesChunk) : bool :=
  match c with UncompressedVariant _ => false | _ => true end.

Section Dispatch.

Context `{Log10}.

Definition chunk_new (compression : ChunkEncoding) (chunk_size : Z) : TimeSeriesChunk :=
  match compression with
  | EncUncompressed => UncompressedVariant (uncompressed_with_max_size chunk_size)
  | EncGorilla => GorillaVariant (cc_with_max_size chunk_size)
  | EncChimp => ChimpVariant (cc_with_max_size chunk_size)
  end.

(** A method that reads, and one that returns a value and the new chunk. *)
Definition dispatch {A} (c : TimeSeriesChunk)
    (f : forall C, ChunkOps C -> C -> A) : A :=
  match c with
  | UncompressedVariant c => f _ _ c
  | GorillaVariant c => f _ _ c
  | ChimpVariant c => f _ _ c
  end.

Definition wrap_chunk {A C} (variant : C -> TimeSeriesChunk) (r : TsdbResult (A * C))
    : TsdbResult (A * TimeSeriesChunk) :=
  let? (a, c) := r in Ok (a, variant c).

Definition dispatch_mut {A} (c : TimeSeriesChunk)
    (f : forall C, ChunkOps C -> C -> TsdbResult (A * C)) : TsdbResult (A * TimeSeriesChunk) :=
  match c with
  | UncompressedVariant c => wrap_chunk UncompressedVariant (f _ _ c)
  | GorillaVariant c => wrap_chunk GorillaVariant (f _ _ c)
  | ChimpVariant c => wrap_chunk ChimpVariant (f _ _ c)
  end.

Definition drop_unit {C} (r : TsdbResult (unit * C)) : TsdbResult C := let? (_, c) := r in Ok c.
Definition add_unit {C} (r : TsdbResult C) : TsdbResult (unit * C) := let? c := r in Ok (tt, c).

Definition tc_split (c : TimeSeriesChunk) : TsdbResult (TimeSeriesChunk * TimeSeriesChunk) :=
  match c with
  | UncompressedVariant c => let? (a, b) := chunk_split c in Ok (UncompressedVariant a, UncompressedVariant b)
  | GorillaVariant c => let? (a, b) := chunk_split c in Ok (GorillaVariant a, GorillaVariant b)
  | ChimpVariant c => let? (a, b) := chunk_split c in Ok (ChimpVariant a, ChimpVariant b)
  end.

#[export] Instance TimeSeriesChunk_ops : ChunkOps TimeSeriesChunk := {
  first_timestamp c := dispatch c (fun _ _ => first_timestamp);
  last_timestamp c := dispatch c (fun _ _ => last_timestamp);
  chunk_len c := dispatch c (fun _ _ => chunk_len);
  chunk_last_value c := dispatch c (fun _ _ => chunk_last_value);
  chunk_size c := dispatch c (fun _ _ => chunk_size);
  chunk_max_size c := dispatch c (fun _ _ => chunk_max_size);
  chunk_remove_range c s e := dispatch_mut c (fun _ _ c => chunk_remove_range c s e);
  chunk_add_sample c s := drop_unit (dispatch_mut c (fun _ _ c => add_unit (chunk_add_sample c s)));
  chunk_get_range c s e := dispatch c (fun _ _ c => chunk_get_range c s e);
  chunk_upsert_sample c s p := dispatch_mut c (fun _ _ c => chunk_upsert_sample c s p);
  chunk_merge_samples c l dp := dispatch_mut c (fun _ _ c => chunk_merge_samples c l dp);
  chunk_is_full c := dispatch c (fun _ _ => chunk_is_full);
  bytes_per_sample c := dispatch c (fun _ _ => bytes_per_sample);
  chunk_clear c :=
    match c with
    | UncompressedVariant c => UncompressedVariant (chunk_clear c)
    | GorillaVariant c => GorillaVariant (chunk_clear c)
    | ChimpVariant c => ChimpVariant (chunk_clear c)
    end;
  chunk_set_data c l := drop_unit (dispatch_mut c (fun _ _ c => add_unit (chunk_set_data c l)));
  chunk_split := tc_split;
  chunk_iter c := dispatch c (fun _ _ => chunk_iter);
  chunk_range_iter c s e := dispatch c (fun _ _ c => chunk_range_iter c s e);
}.

(** ** Persistence *)

Definition tc_serialize (c : TimeSeriesChunk) (dest : list Z) : list Z :=
  match c with
  | UncompressedVariant c => u_serialize c (dest ++ [encoding_as_u8 EncUncompressed])
  | GorillaVariant c => cc_serialize c (dest ++ [encoding_as_u8 EncGorilla])
  | ChimpVariant c => cc_serialize c (dest ++ [encoding_as_u8 EncChimp])
  end.

Definition tc_deserialize (buf : list Z) : TsdbResult TimeSeriesChunk :=
  match buf with
  | [] => Err (DecodingError "Empty buffer deserializing chunk")
  | b :: buf =>
      let? chunk_type := encoding_try_from_u8 b in
      match chunk_type with
      | EncUncompressed => let? c := u_deserialize buf in Ok (UncompressedVariant c)
      | EncGorilla => let? c := cc_deserialize buf in Ok (GorillaVariant c)
      | EncChimp => let? c := cc_deserialize buf in Ok (ChimpVariant c)
      end
  end.

(** ** Laws *)

Definition tc_holds (c : TimeSeriesChunk) (l : list Sample) : Prop :=
  match c with
  | UncompressedVariant c => holds c l
  | GorillaVariant c => holds c l
  | ChimpVariant c => holds c l
  end.

#[export] Instance TimeSeriesChunk_laws : ChunkLaws TimeSeriesChunk.
Proof.
  refine {| holds := tc_holds |}.
  - intros [c|c|c] l Hh; exact (holds_content c l Hh).
  - intros [c|c|c] l Hh; exact (holds_len c l Hh).
  - intros [c|c|c] x l Hh; exact (holds_first c x l Hh).
  - intros [c|c|c] l x Hh; exact (holds_last c l x Hh).
  - intros [c|c|c] l Hh; exact (holds_size c l Hh).
  - intros [c|c|c] l Hh; exact (holds_iter c l Hh).
  - intros [c|c|c] l s e Hh; exact (holds_range_iter c l s e Hh).
  - intros [c|c|c] l s e Hh Hm; exact (holds_get_range c l s e Hh Hm).
  - intros [c|c|c] l s e Hh; cbn [tc_holds] in Hh; destruct (holds_remove_range c l s e Hh) as (c' & E & H1 & H2);
      eexists; cbn [chunk_remove_range TimeSeriesChunk_ops dispatch_mut]; rewrite E; (split; [reflexivity|]); done.
  - intros [c|c|c] l s Hh Hs Ha Hf; destruct (holds_add c l s Hh Hs Ha Hf) as (c' & E & H1 & H2);
      eexists; cbn [chunk_add_sample TimeSeriesChunk_ops dispatch_mut]; rewrite E; (split; [reflexivity|]); done.
  - intros [c|c|c] l s p Hh Hs Hf; pose proof (holds_upsert c l s p Hh Hs Hf) as Hu;
      cbn [chunk_upsert_sample TimeSeriesChunk_ops dispatch_mut];
      (destruct (list_upsert p s l); [destruct Hu as (c' & E & H1 & H2); eexists; rewrite E; (split; [reflexivity|]); done
        |by rewrite Hu]).
  - intros [c|c|c] l r dp Hh Hr Hf; destruct (holds_merge c l r dp Hh Hr Hf) as (res & c' & E & H1 & H2 & H3);
      exists res; eexists; cbn [chunk_merge_samples TimeSeriesChunk_ops dispatch_mut]; rewrite E;
      (split; [reflexivity|]); done.
  - intros [c|c|c] l Hh; exact (holds_clear c l Hh).
  - intros [c|c|c] l r Hh Hr; destruct (holds_set_data c l r Hh Hr) as (c' & E & H1 & H2);
      eexists; cbn [chunk_set_data TimeSeriesChunk_ops dispatch_mut]; rewrite E; (split; [reflexivity|]); done.
  - intros [c|c|c] l Hh Hl; destruct (holds_split c l Hh Hl) as (c1 & c2 & E & H1 & H2 & H3 & H4);
      eexists _, _; cbn [chunk_split TimeSeriesChunk_ops tc_split]; rewrite E; (split; [reflexivity|]); done.
Defined.

Lemma chunk_new_holds e n : holds (chunk_new e n) [].
Proof.
  destruct e; cbn.
  - split; [done|apply content_ok_nil].
  - split; [apply enc_with_soft_cap_rep|apply content_ok_nil].
  - split; [apply chimp_new_rep|apply content_ok_nil].
Qed.

Lemma chunk_new_max_size e n : chunk_max_size (chunk_new e n) = n.
Proof. by destruct e. Qed.

Lemma split_halves_ordered (c1 c2 : TimeSeriesChunk) l :
  holds c1 (take (length l / 2) l) -> holds c2 (drop (length l / 2) l) -> content_ok l ->
  (2 <= length l)%nat -> last_timestamp c1 < first_timestamp c2.
Proof.
  intros H1 H2 Hc Hl. assert (1 <= length l / 2 < length l)%nat as Hmid.
  { split; [apply Nat.div_str_pos; lia|apply Nat.div_lt; lia]. }
  destruct (snoc_cases (take (length l / 2) l)) as (a & x & Ea).
  { intros E. apply (f_equal length) in E. rewrite length_take in E. cbn [length] in E. lia. }
  destruct (drop (length l / 2) l) as [|y b] eqn:Eb.
  { apply (f_equal length) in Eb. rewrite length_drop in Eb. cbn [length] in Eb. lia. }
  rewrite Ea in H1. destruct (holds_last _ _ _ H1) as [-> _]. rewrite (holds_first _ _ _ H2).
  rewrite <- (take_drop (length l / 2) l), Ea, Eb in Hc.
  apply content_ok_app in Hc as (_ & _ & Hlt). apply Forall_app in Hlt as [_ [Hlt _]%Forall_cons].
  by apply Forall_cons in Hlt as [? _].
Qed.

(** A chunk built from its content. *)
Lemma chunk_build e n l :
  content_ok l -> exists c, chunk_set_data (chunk_new e n) l = Ok c /\ holds c l /\ chunk_max_size c = n.
Proof.
  intros Hl. destruct (holds_set_data (chunk_new e n) [] l (chunk_new_holds e n) Hl) as (c & E & Hc & Hm).
  exists c. by rewrite Hm, chunk_new_max_size.
Qed.

(** A reloaded chunk: its stream's allocation cap is its budget. *)
Definition tc_recap (c : TimeSeriesChunk) : TimeSeriesChunk :=
  match c with
  | UncompressedVariant c => UncompressedVariant c
  | GorillaVariant c => GorillaVariant (mkCodecChunk (codec_set_soft_cap (encoder c) (cc_max_size c)) (cc_max_size c))
  | ChimpVariant c => ChimpVariant (mkCodecChunk (codec_set_soft_cap (encoder c) (cc_max_size c)) (cc_max_size c))
  end.

Definition tc_sizes_ok (c : TimeSeriesChunk) : Prop :=
  is_u64 (chunk_max_size c) /\ chunk_size c < 2 ^ 64 /\
  match c with UncompressedVariant c => is_u64 (max_elements c) | _ => True end.

Lemma tc_recap_holds c l : holds c l -> holds (tc_recap c) l.
Proof.
  destruct c as [c|c|c]; [done|..]; intros [Hh Hl]; (split; [|done]); by apply codec_soft_cap_law.
Qed.

Lemma tc_roundtrip c l rest :
  holds c l -> tc_sizes_ok c -> Z.of_nat (length l) < 2 ^ 64 ->
  tc_deserialize (tc_serialize c [] ++ rest) = Ok (tc_recap c).
Proof.
  intros Hh (Hm & Hs & He) Hl. destruct c as [c|c|c]; cbn [tc_serialize tc_recap app].
  - destruct Hh as [<- Hc]. unfold u_serialize. rewrite serialize_raw_eq, <- !app_assoc. cbn [app tc_deserialize].
    change (encoding_try_from_u8 _) with (Ok (E := TsdbError) EncUncompressed). cbv iota beta.
    pose proof (u_roundtrip c rest Hc Hm He Hl) as Hu. unfold u_serialize in Hu.
    rewrite serialize_raw_eq, <- !app_assoc in Hu. cbn [app] in Hu. by rewrite Hu.
  - rewrite cc_serialize_app, <- app_assoc. cbn [app tc_deserialize].
    change (encoding_try_from_u8 _) with (Ok (E := TsdbError) EncGorilla). cbv iota beta.
    by rewrite (cc_roundtrip c l rest Hh Hm Hl Hs).
  - rewrite cc_serialize_app, <- app_assoc. cbn [app tc_deserialize].
    change (encoding_try_from_u8 _) with (Ok (E := TsdbError) EncChimp). cbv iota beta.
    by rewrite (cc_roundtrip c l rest Hh Hm Hl Hs).
Qed.

(** ** Properties *)

(** Every encoding answers a range query exactly: the samples whose
    timestamps lie in the closed window, in time order, each once. *)
Theorem chunk_range_exact (c : TimeSeriesChunk) (l : list Sample) (s e : Timestamp) :
  holds c l -> fits_memory l ->
  chunk_get_range c s e = Ok (select s e l) /\ chunk_range_iter c s e = select s e l /\
  chunk_has_samples_in_range c s e = match select s e l with [] => false | _ => true end.
Proof.
  intros Hh Hm. split; [by apply holds_get_range|]. split; [by apply holds_range_iter|by apply holds_has_samples].
Qed.

(** An uncompressed chunk at its capacity takes no sample newer than all it has. *)
Definition refuses_newer (c : TimeSeriesChunk) (l : list Sample) (s : Sample) : bool :=
  match c, list.last l with
  | UncompressedVariant u, Some x => u_is_full u && (timestamp x <? timestamp s)
  | _, _ => false
  end.

Lemma holds_upsert_first u s p : holds (UncompressedVariant u) [] -> sample_valid s ->
  exists c', chunk_upsert_sample (UncompressedVariant u) s p = Ok (1, c') /\ holds c' [s] /\ chunk_max_size c' = u_max_size u.
Proof.
  intros [E _] Hs. exists (UncompressedVariant (with_samples u [s])). cbn. unfold u_upsert_sample. rewrite E. split; [done|]. split; [|done].
  split; [done|]. split; [repeat constructor|by constructor].
Qed.

Lemma upsert_full c l s p : holds c l -> refuses_newer c l s = true ->
  chunk_upsert_sample c s p = Err (CapacityFull MAX_UNCOMPRESSED_SAMPLES).
Proof.
  unfold refuses_newer. destruct c as [u|u|u]; try done. intros [<- _]. cbn. unfold u_upsert_sample.
  destruct (list.last (samples u)) as [x|]; [|done]. intros [Hf ->]%andb_true_iff. unfold u_add_sample. by rewrite Hf.
Qed.

Lemma upsert_taken c l s p : holds c l -> sample_valid s -> refuses_newer c l s = false ->
  match list_upsert p s l with
  | Ok l' => exists c', chunk_upsert_sample c s p = Ok (Z.of_nat (length l'), c') /\ holds c' l' /\ chunk_max_size c' = chunk_max_size c
  | Err e => chunk_upsert_sample c s p = Err e
  end.
Proof.
  intros Hh Hs Hr. destruct c as [u|u|u].
  - destruct (list.last l) as [x|] eqn:El; [|apply last_None in El; subst l; by apply holds_upsert_first].
    apply holds_upsert; [done|done|]. intros Ha. unfold refuses_newer in Hr. rewrite El in Hr.
    apply last_Some_elem_of in El. unfold appends in Ha. rewrite Forall_forall in Ha. specialize (Ha x El). unfold ts_lt in Ha.
    rewrite (proj2 (Z.ltb_lt _ _) Ha), andb_true_r in Hr. exact Hr.
  - pose proof (cc_upsert_law u l s p Hh Hs) as Hu. cbn. destruct (list_upsert p s l); [destruct Hu as (c' & -> & H1 & H2)|by rewrite Hu].
    by exists (GorillaVariant c').
  - pose proof (cc_upsert_law u l s p Hh Hs) as Hu. cbn. destruct (list_upsert p s l); [destruct Hu as (c' & -> & H1 & H2)|by rewrite Hu].
    by exists (ChimpVariant c').
Qed.

(** C39. Upserting refines insertion into a time-sorted list under the duplicate
    policy, for every encoding, every position and every fill: the chunk then
    holds the updated list, the count returned is its length, and a refused
    duplicate is an error.  The one exception is part of the statement: an
    uncompressed chunk at its capacity answers a sample newer than all it holds
    with [CapacityFull]. *)
Theorem chunk_upsert_refines (c : TimeSeriesChunk) (l : list Sample) (s : Sample) (p : DuplicatePolicy) :
  holds c l -> sample_valid s ->
  if refuses_newer c l s then chunk_upsert_sample c s p = Err (CapacityFull MAX_UNCOMPRESSED_SAMPLES)
  else
    match list_upsert p s l with
    | Ok l' => exists c', chunk_upsert_sample c s p = Ok (Z.of_nat (length l'), c') /\ holds c' l' /\
        chunk_iter c' = l' /\ chunk_max_size c' = chunk_max_size c
    | Err e => chunk_upsert_sample c s p = Err e
    end.
Proof.
  intros Hh Hs. destruct (refuses_newer c l s) eqn:Er; [by eapply upsert_full|].
  pose proof (upsert_taken c l s p Hh Hs Er) as Hu.
  destruct (list_upsert p s l) as [l'|]; [|done]. destruct Hu as (c' & E & Hc' & Hm).
  exists c'. split_and!; [done|done|by apply holds_iter|done].
Qed.

(** Merging a batch is upserting its samples one by one: nothing already
    stored is lost, blocked duplicates keep the stored value, and there is one
    result per input sample, in input order. *)
Theorem chunk_merge_refines (c : TimeSeriesChunk) (l r : list Sample) (dp : option DuplicatePolicy) :
  holds c l -> content_ok r -> (forall s, r = [s] -> appends l s -> chunk_is_full c = false) ->
  exists res c', chunk_merge_samples c r dp = Ok (res, c') /\
    chunk_iter c' = upsert_all (default KeepLast dp) l r /\
    Forall2 (result_for (default KeepLast dp) l) r res.
Proof.
  intros Hh Hr Hf. destruct (holds_merge c l r dp Hh Hr Hf) as (res & c' & E & Hc' & Hres & _).
  exists res, c'. split_and!; [done|by apply holds_iter|done].
Qed.

(** Deleting a range removes exactly the samples in it and reports how many
    they were. *)
Theorem chunk_remove_exact (c : TimeSeriesChunk) (l : list Sample) (s e : Timestamp) :
  holds c l ->
  exists c', chunk_remove_range c s e = Ok (Z.of_nat (length (select s e l)), c') /\
    chunk_iter c' = remove s e l /\ chunk_len c' = chunk_len c - Z.of_nat (length (select s e l)).
Proof.
  intros Hh. destruct (holds_remove_range c l s e Hh) as (c' & E & Hc' & _).
  exists c'. split_and!; [done|by apply holds_iter|].
  rewrite (holds_len _ _ Hc'), (holds_len _ _ Hh). pose proof (length_select_remove s e l). lia.
Qed.

(** Splitting a chunk of two or more samples keeps the lower half in place and
    moves the upper one, losing and reordering nothing; both halves keep the
    budget of the original. *)
Theorem chunk_split_conserves (c : TimeSeriesChunk) (l : list Sample) :
  holds c l -> (2 <= length l)%nat ->
  exists c1 c2, chunk_split c = Ok (c1, c2) /\
    chunk_iter c1 ++ chunk_iter c2 = l /\ chunk_len c1 = chunk_len c / 2 /\
    last_timestamp c1 < first_timestamp c2 /\
    chunk_max_size c1 = chunk_max_size c /\ chunk_max_size c2 = chunk_max_size c.
Proof.
  intros Hh Hl. destruct (holds_split c l Hh Hl) as (c1 & c2 & E & H1 & H2 & M1 & M2).
  exists c1, c2. pose proof (split_halves_ordered c1 c2 l H1 H2 (holds_content _ _ Hh) Hl) as Hord.
  split_and!; try done.
  - by rewrite (holds_iter _ _ H1), (holds_iter _ _ H2), take_drop.
  - rewrite (holds_len _ _ H1), (holds_len _ _ Hh), length_take, Nat.min_l, Nat2Z.inj_div; [done|].
    apply Nat.Div0.div_le_upper_bound. lia.
Qed.

(** C40. The tagged serialization round-trips for every encoding, whatever follows
    it in the buffer; the reloaded chunk holds the same samples. *)
Theorem chunk_persistence (c : TimeSeriesChunk) (l : list Sample) (rest : list Z) :
  holds c l -> tc_sizes_ok c -> Z.of_nat (length l) < 2 ^ 64 ->
  tc_deserialize (tc_serialize c [] ++ rest) = Ok (tc_recap c) /\ chunk_iter (tc_recap c) = l /\
  get_encoding (tc_recap c) = get_encoding c.
Proof.
  intros Hh Hs Hl. split; [by eapply tc_roundtrip|]. split; [by apply holds_iter, tc_recap_holds|by destruct c].
Qed.

(** Looking up an increasing list of timestamps in a chunk returns exactly the
    stored samples with one of those timestamps. *)
Theorem chunk_lookup_exact (c : TimeSeriesChunk) (l : list Sample) (tss : list Timestamp) :
  holds c l -> ts_increasing tss ->
  chunk_samples_by_timestamps c tss = Ok (List.filter (ts_member tss) l).
Proof. apply holds_samples_by_timestamps. Qed.

(** Defragmentation moves samples between neighbouring chunks without losing,
    duplicating or reordering any, and reports how many it moved. *)
Theorem merge_by_capacity_conserves (dest src : TimeSeriesChunk) (l1 l2 : list Sample) (min_ts : Timestamp)
    (dp : option DuplicatePolicy) :
  holds dest l1 -> holds src l2 -> content_ok (l1 ++ l2) -> fits_memory l2 -> chunk_is_full dest = false ->
  Forall (fun x => min_ts <= timestamp x) l2 ->
  exists moved d s, merge_by_capacity dest src min_ts dp = Ok (moved, d, s) /\
    chunk_iter d ++ chunk_iter s = l1 ++ l2 /\ chunk_len d = chunk_len dest + default 0 moved.
Proof.
  intros Hd Hs Hc Hm Hf Hmin.
  destruct (holds_merge_by_capacity dest src l1 l2 min_ts dp Hd Hs Hc Hm Hf Hmin)
    as (moved & d & s & l1' & l2' & E & H1 & H2 & Hcat & Hlen).
  exists moved, d, s. split; [done|].
  by rewrite (holds_iter _ _ H1), (holds_iter _ _ H2), (holds_len _ _ H1), (holds_len _ _ Hd).
Qed.

End Dispatch.

(** ** Witnesses *)

(** 1.5, 123.456 and a NaN with a payload. *)
Definition demo : list Sample :=
  [mkSample 10 0x3FF8000000000000; mkSample 20 0x405EDD2F1A9FBE77; mkSample 35 0x7FF8000000000001].

Lemma demo_ok : content_ok demo.
Proof. apply content_okb_sound. vm_compute. reflexivity. Qed.

Lemma chunk_range_exact_witness :
  exists c, chunk_set_data (chunk_new EncChimp 64) demo = Ok c /\
    chunk_get_range c 15 35 = Ok [mkSample 20 0x405EDD2F1A9FBE77; mkSample 35 0x7FF8000000000001].
Proof.
  destruct (chunk_build EncChimp 64 demo demo_ok) as (c & E & Hc & _). exists c. split; [exact E|].
  exact (proj1 (chunk_range_exact c demo 15 35 Hc ltac:(vm_compute; discriminate))).
Defined.

Lemma chunk_upsert_refines_witness :
  exists c c', chunk_set_data (chunk_new EncGorilla 64) demo = Ok c /\
    chunk_upsert_sample c (mkSample 15 7) Block = Ok (4, c') /\
    chunk_iter c' = [mkSample 10 0x3FF8000000000000; mkSample 15 7; mkSample 20 0x405EDD2F1A9FBE77;
                     mkSample 35 0x7FF8000000000001].
Proof.
  destruct (chunk_build EncGorilla 64 demo demo_ok) as (c & E & Hc & _).
  pose proof (chunk_upsert_refines c demo (mkSample 15 7) Block Hc ltac:(apply sample_validb_sound; reflexivity)) as H.
  assert (refuses_newer c demo (mkSample 15 7) = false) as Hr by (unfold refuses_newer; destruct c; [apply andb_false_r|reflexivity..]).
  rewrite Hr in H. destruct H as (c' & E' & _ & Hi & _). exists c, c'. split; [exact E|]. split; [exact E'|exact Hi].
Defined.

Lemma chunk_merge_refines_witness :
  exists c res c', chunk_set_data (chunk_new EncUncompressed 64) demo = Ok c /\
    chunk_merge_samples c [mkSample 5 1; mkSample 20 2] (Some KeepFirst) = Ok (res, c') /\
    chunk_iter c' = mkSample 5 1 :: demo.
Proof.
  destruct (chunk_build EncUncompressed 64 demo demo_ok) as (c & E & Hc & _).
  destruct (chunk_merge_refines c demo [mkSample 5 1; mkSample 20 2] (Some KeepFirst) Hc) as (res & c' & E' & Hi & _).
  - apply content_okb_sound. reflexivity.
  - intros s [=].
  - exists c, res, c'. split; [exact E|]. split; [exact E'|]. rewrite Hi. vm_compute. reflexivity.
Defined.

Lemma chunk_remove_exact_witness :
  exists c c', chunk_set_data (chunk_new EncGorilla 64) demo = Ok c /\
    chunk_remove_range c 11 20 = Ok (1, c') /\
    chunk_iter c' = [mkSample 10 0x3FF8000000000000; mkSample 35 0x7FF8000000000001].
Proof.
  destruct (chunk_build EncGorilla 64 demo demo_ok) as (c & E & Hc & _).
  destruct (chunk_remove_exact c demo 11 20 Hc) as (c' & E' & Hi & _).
  exists c, c'. split; [exact E|]. split; [exact E'|exact Hi].
Defined.

Lemma chunk_split_conserves_witness :
  exists c c1 c2, chunk_set_data (chunk_new EncChimp 64) demo = Ok c /\
    chunk_split c = Ok (c1, c2) /\ chunk_iter c1 ++ chunk_iter c2 = demo.
Proof.
  destruct (chunk_build EncChimp 64 demo demo_ok) as (c & E & Hc & _).
  destruct (chunk_split_conserves c demo Hc ltac:(cbn; lia)) as (c1 & c2 & E' & Hi & _).
  exists c, c1, c2. split; [exact E|]. split; [exact E'|exact Hi].
Defined.

Lemma chunk_persistence_witness :
  exists c, chunk_set_data (chunk_new EncChimp 64) demo = Ok c /\
    tc_deserialize (tc_serialize c [] ++ [1; 2]) = Ok (tc_recap c) /\ chunk_iter (tc_recap c) = demo.
Proof.
  destruct (chunk_build EncChimp 64 demo demo_ok) as (c & E & Hc & Hm). exists c. split; [exact E|].
  destruct (chunk_persistence c demo [1; 2] Hc) as (E1 & E2 & _).
  - assert (match chunk_set_data (chunk_new EncChimp 64) demo with
            | Ok (ChimpVariant c as t) => chunk_size t <? 2 ^ 64 | _ => false end = true) as H
      by (vm_compute; reflexivity).
    rewrite E in H. destruct c as [c|c|c]; [done|done|].
    split; [rewrite Hm; ilia|]. split; [by apply Z.ltb_lt|done].
  - cbn. lia.
  - split; [exact E1|exact E2].
Defined.

Lemma chunk_lookup_exact_witness :
  exists c, chunk_set_data (chunk_new EncUncompressed 64) demo = Ok c /\
    chunk_samples_by_timestamps c [5; 10; 34; 35] =
      Ok [mkSample 10 0x3FF8000000000000; mkSample 35 0x7FF8000000000001].
Proof.
  destruct (chunk_build EncUncompressed 64 demo demo_ok) as (c & E & Hc & _). exists c. split; [exact E|].
  apply (chunk_lookup_exact c demo [5; 10; 34; 35] Hc). intros i j Hij. cbn [length] in Hij.
  destruct i as [|[|[|i]]], j as [|[|[|[|j]]]]; cbn; lia.
Defined.

Lemma merge_by_capacity_conserves_witness :
  exists d s moved d' s', chunk_set_data (chunk_new EncUncompressed 64) (take 1 demo) = Ok d /\
    chunk_set_data (chunk_new EncGorilla 64) (drop 1 demo) = Ok s /\
    merge_by_capacity d s 0 None = Ok (moved, d', s') /\ chunk_iter d' ++ chunk_iter s' = demo.
Proof.
  destruct (chunk_build EncGorilla 64 (drop 1 demo) (content_ok_drop 1 demo demo_ok)) as (s & E & Hs & _).
  set (d := UncompressedVariant (with_samples (uncompressed_with_max_size 64) (take 1 demo))).
  assert (holds d (take 1 demo)) as Hd by (split; [reflexivity|apply (content_ok_take 1 demo demo_ok)]).
  destruct (merge_by_capacity_conserves d s (take 1 demo) (drop 1 demo) 0 None Hd Hs) as (m & d' & s' & E' & Hi & _).
  - exact demo_ok.
  - vm_compute. discriminate.
  - reflexivity.
  - fora.
  - exists d, s, m, d', s'. split; [reflexivity|]. split; [exact E|]. split; [exact E'|exact Hi].
Defined.
