(* ===== verification/ChunkSearch.v ===== *)
(** * ChunkSearch: finding the chunks of a series

    The index searches at the end of [src/series/time_series.rs] over a list of
    chunks that hold consecutive pieces of one sorted content.  A short list is
    scanned and a long one binary-searched; [layout] is what both rely on, and
    each search is characterised by the chunks left and right of its answer, the
    same way for both. *)

From S2P Require Import Prelude Float64 Types Slice Content Merge ChunkOps ChunkMethods.

Definition LINEAR_SCAN_MAX : nat := 16.

(** ** Positions in a list *)

(** [iter().position(pred)] *)
Fixpoint position {A} (pred : A -> bool) (l : list A) : option nat :=
  match l with
  | [] => None
  | x :: l => if pred x then Some O else S <$> position pred l
  end.

(** [iter().rposition(pred)] *)
Definition rposition {A} (pred : A -> bool) (l : list A) : option nat :=
  (fun i => (length l - 1 - i)%nat) <$> position pred (reverse l).

Fixpoint take_while {A} (pred : A -> bool) (l : list A) : list A :=
  match l with
  | [] => []
  | x :: l => if pred x then x :: take_while pred l else []
  end.

Lemma position_Some {A} (pred : A -> bool) l i :
  position pred l = Some i ->
  (exists x, l !! i = Some x /\ pred x = true) /\
  (forall j x, (j < i)%nat -> l !! j = Some x -> pred x = false).
Proof.
  revert i. induction l as [|y l IH]; intros i Hp; [done|]. cbn in Hp.
  destruct (pred y) eqn:Hy.
  - injection Hp as <-. split; [by exists y|]. intros. lia.
  - apply fmap_Some in Hp as (i' & Hi & ->). destruct (IH i' Hi) as [Hx Hlt]. split; [done|].
    intros [|j] x Hj Hl; [by injection Hl as <-|]. apply (Hlt j x); [lia|done].
Qed.

Lemma position_None {A} (pred : A -> bool) l x : position pred l = None -> x ∈ l -> pred x = false.
Proof.
  induction l as [|y l IH]; cbn; intros Hp Hx; [by apply elem_of_nil in Hx|].
  destruct (pred y) eqn:Hy; [done|]. apply fmap_None in Hp.
  apply elem_of_cons in Hx as [->|Hx]; [done|by apply IH].
Qed.

Lemma rposition_Some {A} (pred : A -> bool) l i :
  rposition pred l = Some i ->
  (exists x, l !! i = Some x /\ pred x = true) /\
  (forall j x, (i < j)%nat -> l !! j = Some x -> pred x = false).
Proof.
  unfold rposition. intros (k & Hk & ->)%fmap_Some. apply position_Some in Hk as [(x & Hx & Hp) Hlt].
  pose proof (lookup_lt_Some _ _ _ Hx) as Hlen. rewrite length_reverse in Hlen.
  rewrite reverse_lookup in Hx by done. split.
  - exists x. split; [|done]. rewrite <- Hx. f_equal. lia.
  - intros j y Hj Hy. pose proof (lookup_lt_Some _ _ _ Hy) as Hjl.
    apply (Hlt (length l - S j)%nat y); [lia|]. rewrite reverse_lookup by lia.
    rewrite <- Hy. f_equal. lia.
Qed.

Lemma rposition_None {A} (pred : A -> bool) l x : rposition pred l = None -> x ∈ l -> pred x = false.
Proof.
  unfold rposition. intros Hp%fmap_None Hx. apply (position_None pred (reverse l)); [done|]. by apply elem_of_reverse.
Qed.

Lemma take_while_prefix {A} (pred : A -> bool) l :
  exists r, l = take_while pred l ++ r /\ Forall (fun x => pred x = true) (take_while pred l) /\
    (forall x, head r = Some x -> pred x = false).
Proof.
  induction l as [|y l (r & E & Hall & Hr)]; cbn; [by exists []|].
  destruct (pred y) eqn:Hy.
  - exists r. cbn. split_and!; [by f_equal|by constructor|done].
  - exists (y :: l). split_and!; [done|constructor|]. cbn. by intros x [= <-].
Qed.

Lemma elem_of_concat {A} (x : A) ls : x ∈ concat ls <-> exists l, l ∈ ls /\ x ∈ l.
Proof.
  rewrite list_elem_of_In, in_concat. split; intros (l & H1 & H2); exists l; by rewrite ?list_elem_of_In in *.
Qed.

(** ** The searches *)

Section Search.

Context {C : Type} `{ChunkOps C}.

Definition chunk_probe (ts : Timestamp) (probe : C) : comparison :=
  if ts <? first_timestamp probe then Gt
  else if last_timestamp probe <? ts then Lt
  else Eq.

Definition binary_search_chunks_by_timestamp (cs : list C) (ts : Timestamp) : nat * bool :=
  match binary_search_by (chunk_probe ts) cs with
  | Ok pos => (pos, true)
  | Err pos => (pos, false)
  end.

Definition find_start_chunk_index (arr : list C) (ts : Timestamp) : nat :=
  match arr with
  | [] => O
  | first :: _ =>
      if ts <=? first_timestamp first then O
      else if (length arr <=? LINEAR_SCAN_MAX)%nat then
        default (length arr) (position (fun x => ts <=? last_timestamp x) arr)
      else fst (binary_search_chunks_by_timestamp arr ts)
  end.

Definition get_chunk_index (cs : list C) (ts : Timestamp) : nat * bool :=
  match cs with
  | [] => (O, false)
  | _ =>
      if (length cs <=? LINEAR_SCAN_MAX)%nat then
        match position (fun c => is_timestamp_in_range c ts) cs with
        | Some i => (i, true)
        | None => (length cs, false)
        end
      else binary_search_chunks_by_timestamp cs ts
  end.

Definition find_last_ge_index (cs : list C) (ts : Timestamp) : nat * bool :=
  match cs with
  | [] => (O, false)
  | _ =>
      if (length cs <=? LINEAR_SCAN_MAX)%nat then
        match rposition (fun x => first_timestamp x <=? ts) cs with
        | None => (O, false)
        | Some idx =>
            (idx, match cs !! idx with Some c => is_timestamp_in_range c ts | None => false end)
        end
      else binary_search_chunks_by_timestamp cs ts
  end.

End Search.

(** ** Chunks that hold consecutive pieces of one content *)

Section Layout.

Context {C : Type} {ops : ChunkOps C} {laws : ChunkLaws C}.

Definition layout (cs : list C) (ls : list (list Sample)) : Prop :=
  Forall2 holds cs ls /\ Forall (fun l => l <> []) ls /\ content_ok (concat ls).

Lemma layout_nil : layout [] [].
Proof. split_and!; [constructor|constructor|apply content_ok_nil]. Qed.

Lemma layout_nil_inv ls : layout [] ls -> ls = [].
Proof. intros (H & _). by inversion H. Qed.

Lemma layout_cons c cs l ls :
  layout (c :: cs) (l :: ls) <->
  holds c l /\ l <> [] /\ layout cs ls /\ Forall (fun x => Forall (ts_lt x) (concat ls)) l.
Proof.
  unfold layout. cbn [concat]. rewrite Forall2_cons, Forall_cons, content_ok_app. split; [tauto|].
  intros (Hh & Hl & (H1 & H2 & H3) & H4). split_and!; try done. by eapply holds_content.
Qed.

Lemma layout_cons_inv c cs ls :
  layout (c :: cs) ls -> exists l ls', ls = l :: ls' /\ layout (c :: cs) (l :: ls').
Proof. intros HL. destruct ls as [|l ls']; [by destruct HL as [H _]; inversion H|eauto]. Qed.

Lemma layout_app cs1 cs2 ls1 ls2 :
  length cs1 = length ls1 ->
  layout (cs1 ++ cs2) (ls1 ++ ls2) <->
  layout cs1 ls1 /\ layout cs2 ls2 /\ Forall (fun x => Forall (ts_lt x) (concat ls2)) (concat ls1).
Proof.
  intros Hlen. unfold layout. rewrite concat_app, Forall_app, content_ok_app. split.
  - intros (H1 & H2 & H3). apply Forall2_app_inv in H1 as [Ha Hb]; [|done]. tauto.
  - intros ((H1 & H2 & H3) & (H4 & H5 & H6) & H7). split_and!; try tauto. by apply Forall2_app.
Qed.

Lemma layout_app_inv cs1 cs2 ls :
  layout (cs1 ++ cs2) ls ->
  exists ls1 ls2, ls = ls1 ++ ls2 /\ length cs1 = length ls1 /\ layout (cs1 ++ cs2) (ls1 ++ ls2).
Proof.
  intros HL. pose proof HL as (Hh & _). apply Forall2_app_inv_l in Hh as (ls1 & ls2 & H1 & H2 & ->).
  exists ls1, ls2. split_and!; [done|by eapply Forall2_length|done].
Qed.

Lemma layout_length cs ls : layout cs ls -> length cs = length ls.
Proof. intros [H _]. by eapply Forall2_length. Qed.

Lemma layout_lookup cs ls i c :
  layout cs ls -> cs !! i = Some c -> exists l, ls !! i = Some l /\ holds c l /\ l <> [].
Proof.
  intros (Hh & Hne & _) Hi. eapply Forall2_lookup_l in Hh as (l & Hl & Hhl); [|done].
  exists l. split_and!; try done. by eapply Forall_lookup_1 in Hne.
Qed.

(** Both ends of a non-empty chunk are samples of it. *)
Lemma holds_ends c l :
  holds c l -> l <> [] ->
  (exists x, x ∈ l /\ timestamp x = first_timestamp c) /\
  (exists x, x ∈ l /\ timestamp x = last_timestamp c) /\ first_timestamp c <= last_timestamp c.
Proof.
  intros Hh Hl. destruct (snoc_cases l Hl) as (l' & y & E). pose proof (holds_bounds _ _ Hh) as Hb.
  destruct l as [|x l0]; [done|]. pose proof (holds_first _ _ _ Hh) as Hf. split_and!.
  - exists x. split; [by left|done].
  - rewrite E in Hh |- *. destruct (holds_last _ _ _ Hh) as [-> _]. exists y. split; [|done].
    apply elem_of_app. right. by left.
  - apply Forall_cons in Hb as [Hb _]. cbn in Hb. lia.
Qed.

Lemma layout_head_before c cs ls d :
  layout (c :: cs) ls -> d ∈ cs -> last_timestamp c < first_timestamp d.
Proof.
  intros HL Hd. apply layout_cons_inv in HL as (l & ls' & -> & (Hh & Hl & HL & Hlt)%layout_cons).
  destruct (holds_ends c l Hh Hl) as (_ & (x & Hx & <-) & _).
  apply list_elem_of_lookup in Hd as [j Hj]. destruct (layout_lookup _ _ _ _ HL Hj) as (l' & Hl' & Hh' & Hne).
  destruct (holds_ends d l' Hh' Hne) as ((y & Hy & <-) & _).
  rewrite Forall_forall in Hlt. specialize (Hlt x Hx). rewrite Forall_forall in Hlt. apply Hlt.
  apply elem_of_concat. exists l'. split; [by eapply list_elem_of_lookup_2|done].
Qed.

Lemma layout_ends cs ls i c : layout cs ls -> cs !! i = Some c -> first_timestamp c <= last_timestamp c.
Proof. intros HL Hi. destruct (layout_lookup _ _ _ _ HL Hi) as (l & _ & Hh & Hl). by apply (holds_ends c l). Qed.

Lemma layout_ordered cs ls i j c d :
  layout cs ls -> (i < j)%nat -> cs !! i = Some c -> cs !! j = Some d -> last_timestamp c < first_timestamp d.
Proof.
  revert ls i j. induction cs as [|b cs IH]; intros ls i j HL Hij Hi Hj; [done|].
  destruct j as [|j]; [lia|]. cbn in Hj. destruct i as [|i]; cbn in Hi.
  - injection Hi as ->. eapply layout_head_before; [done|]. by eapply list_elem_of_lookup_2.
  - apply layout_cons_inv in HL as (l & ls' & -> & (_ & _ & HL & _)%layout_cons).
    apply (IH ls' i j); try done. lia.
Qed.

Lemma layout_probe_ordered cs ls ts : layout cs ls -> ordered_by (chunk_probe ts) cs.
Proof.
  intros HL i j c d Hij Hc Hd. unfold chunk_probe.
  pose proof (layout_ends _ _ _ _ HL Hc). pose proof (layout_ends _ _ _ _ HL Hd).
  assert (i = j \/ (i < j)%nat) as [->|Hlt] by lia.
  - assert (c = d) as -> by congruence. unfold cmp_le. repeat case_match; done.
  - pose proof (layout_ordered _ _ _ _ _ _ HL Hlt Hc Hd).
    destruct (Z.ltb_spec ts (first_timestamp c)), (Z.ltb_spec ts (first_timestamp d)),
      (Z.ltb_spec (last_timestamp c) ts), (Z.ltb_spec (last_timestamp d) ts); try done; lia.
Qed.

(** A chunk bounds the content before it from above and after it from below. *)
Lemma layout_take_le cs ls i c :
  layout cs ls -> cs !! i = Some c -> Forall (fun x => timestamp x <= last_timestamp c) (concat (take (S i) ls)).
Proof.
  intros HL Hc. apply Forall_forall. intros x (l & [j Hj]%list_elem_of_lookup & Hx)%elem_of_concat.
  apply lookup_take_Some in Hj as [Hl Hji]. destruct HL as (Hh & Hne & Hok).
  pose proof (Forall2_lookup_r _ _ _ _ _ Hh Hl) as (d & Hd & Hdl).
  pose proof (holds_bounds _ _ Hdl) as Hb. rewrite Forall_forall in Hb. specialize (Hb x Hx). cbn in Hb.
  assert (j = i \/ (j < i)%nat) as [->|Hlt] by lia; [assert (c = d) as -> by congruence; lia|].
  pose proof (layout_ordered cs ls j i d c (conj Hh (conj Hne Hok)) Hlt Hd Hc).
  pose proof (layout_ends cs ls i c (conj Hh (conj Hne Hok)) Hc). lia.
Qed.

Lemma layout_drop_ge cs ls i c :
  layout cs ls -> cs !! i = Some c -> Forall (fun x => first_timestamp c <= timestamp x) (concat (drop i ls)).
Proof.
  intros HL Hc. apply Forall_forall. intros x (l & [j Hj]%list_elem_of_lookup & Hx)%elem_of_concat.
  rewrite lookup_drop in Hj. destruct HL as (Hh & Hne & Hok).
  pose proof (Forall2_lookup_r _ _ _ _ _ Hh Hj) as (d & Hd & Hdl).
  pose proof (holds_bounds _ _ Hdl) as Hb. rewrite Forall_forall in Hb. specialize (Hb x Hx). cbn in Hb.
  destruct j as [|j]; [rewrite Nat.add_0_r in Hd; assert (c = d) as -> by congruence; lia|].
  pose proof (layout_ordered cs ls i (i + S j) c d (conj Hh (conj Hne Hok)) ltac:(lia) Hc Hd).
  pose proof (layout_ends cs ls i c (conj Hh (conj Hne Hok)) Hc). lia.
Qed.

(** *** What the searches find *)

Lemma binary_search_chunks_spec cs ls ts :
  layout cs ls ->
  match binary_search_chunks_by_timestamp cs ts with
  | (i, true) => exists c, cs !! i = Some c /\ first_timestamp c <= ts <= last_timestamp c
  | (i, false) => (i <= length cs)%nat /\
      (forall j c, (j < i)%nat -> cs !! j = Some c -> last_timestamp c < ts) /\
      (forall j c, (i <= j)%nat -> cs !! j = Some c -> ts < first_timestamp c)
  end.
Proof.
  intros HL. pose proof (layout_probe_ordered cs ls ts HL) as Ho. unfold binary_search_chunks_by_timestamp.
  destruct (binary_search_by (chunk_probe ts) cs) as [i|i] eqn:E.
  - destruct (binary_search_by_hit _ _ _ Ho E) as (c & Hc & Hp). exists c. split; [done|].
    unfold chunk_probe in Hp. destruct (Z.ltb_spec ts (first_timestamp c)); [done|].
    destruct (Z.ltb_spec (last_timestamp c) ts); [done|]. lia.
  - destruct (binary_search_by_miss _ _ _ Ho E) as (Hi & Hl & Hr). split_and!; [done| |].
    + intros j c Hj Hc. specialize (Hl j c Hj Hc). unfold chunk_probe in Hl. repeat case_match; try done. lia.
    + intros j c Hj Hc. specialize (Hr j c Hj Hc). unfold chunk_probe in Hr. repeat case_match; try done. lia.
Qed.

Definition starts_at (cs : list C) (ts : Timestamp) (k : nat) : Prop :=
  (k <= length cs)%nat /\
  (forall j c, (j < k)%nat -> cs !! j = Some c -> last_timestamp c < ts) /\
  (forall j c, (k <= j)%nat -> cs !! j = Some c -> ts <= last_timestamp c).

Lemma find_start_spec cs ls ts : layout cs ls -> starts_at cs ts (find_start_chunk_index cs ts).
Proof.
  intros HL. destruct cs as [|c cs']; [split_and!; cbn; intros; [lia|done|done]|].
  set (cs := c :: cs') in *. unfold find_start_chunk_index. fold cs. cbn [cs].
  assert (forall j d, cs !! j = Some d -> last_timestamp c <= last_timestamp d) as Hc.
  { intros [|j] d Hd; [by injection Hd as <-|].
    pose proof (layout_ordered cs ls 0 (S j) c d HL ltac:(lia) eq_refl Hd).
    pose proof (layout_ends _ _ _ _ HL Hd). lia. }
  destruct (Z.leb_spec ts (first_timestamp c)) as [Hle|Hgt].
  { pose proof (layout_ends _ _ O c HL eq_refl). split_and!; [lia|intros; lia|].
    intros j d _ Hd. specialize (Hc j d Hd). lia. }
  destruct (Nat.leb_spec (length cs) LINEAR_SCAN_MAX) as [Hs|Hs].
  - destruct (position _ cs) as [i|] eqn:Ep; cbn [default from_option id].
    + apply position_Some in Ep as [(d & Hd & Hp) Hb]. split_and!.
      * apply lookup_lt_Some in Hd. unfold id. lia.
      * intros j e Hj He. specialize (Hb j e Hj He). cbv beta in Hb. lia.
      * intros j e Hj He. pose proof (layout_ends _ _ _ _ HL He).
        assert (i = j \/ (i < j)%nat) as [->|Hlt] by (unfold id in Hj; lia); [assert (d = e) as -> by congruence; lia|].
        pose proof (layout_ordered _ _ _ _ _ _ HL Hlt Hd He). pose proof (layout_ends _ _ _ _ HL Hd). lia.
    + unfold id. split_and!; [done| |].
      * intros j e _ He. apply (position_None _ _ e) in Ep; [|by eapply list_elem_of_lookup_2]. cbv beta in Ep. lia.
      * intros j e Hj He. apply lookup_lt_Some in He. lia.
  - pose proof (binary_search_chunks_spec cs ls ts HL) as Hb.
    destruct (binary_search_chunks_by_timestamp cs ts) as [i []]; cbn [fst].
    + destruct Hb as (d & Hd & Hr). split_and!.
      * apply lookup_lt_Some in Hd. lia.
      * intros j e Hj He. pose proof (layout_ordered _ _ _ _ _ _ HL Hj He Hd). lia.
      * intros j e Hj He. assert (i = j \/ (i < j)%nat) as [->|Hlt] by lia; [assert (d = e) as -> by congruence; lia|].
        pose proof (layout_ordered _ _ _ _ _ _ HL Hlt Hd He). pose proof (layout_ends _ _ _ _ HL He). lia.
    + destruct Hb as (Hi & Hl & Hr). split_and!; [done|done|].
      intros j e Hj He. specialize (Hr j e Hj He). pose proof (layout_ends _ _ _ _ HL He). lia.
Qed.

Lemma get_chunk_index_spec cs ls ts :
  layout cs ls ->
  match get_chunk_index cs ts with
  | (i, true) => exists c, cs !! i = Some c /\ first_timestamp c <= ts <= last_timestamp c
  | (_, false) => forall c, c ∈ cs -> ts < first_timestamp c \/ last_timestamp c < ts
  end.
Proof.
  intros HL. destruct cs as [|c0 cs']; [cbn; intros c Hc; by apply elem_of_nil in Hc|].
  set (cs := c0 :: cs') in *. unfold get_chunk_index. cbn [cs]. fold cs.
  destruct (Nat.leb_spec (length cs) LINEAR_SCAN_MAX) as [Hs|Hs].
  - destruct (position _ cs) as [i|] eqn:Ep.
    + apply position_Some in Ep as [(d & Hd & Hp) _]. exists d. split; [done|].
      unfold is_timestamp_in_range in Hp. lia.
    + intros c Hc. apply (position_None _ _ c) in Ep; [|done]. unfold is_timestamp_in_range in Ep. lia.
  - pose proof (binary_search_chunks_spec cs ls ts HL) as Hb.
    destruct (binary_search_chunks_by_timestamp cs ts) as [i []]; [done|].
    destruct Hb as (_ & Hl & Hr). intros c [j Hj]%list_elem_of_lookup.
    destruct (Nat.lt_ge_cases j i); [right; by eapply Hl|left; by eapply Hr].
Qed.

Lemma find_last_spec cs ls ts j c :
  layout cs ls -> (fst (find_last_ge_index cs ts) < j)%nat -> cs !! j = Some c -> ts < first_timestamp c.
Proof.
  intros HL. destruct cs as [|c0 cs']; [done|]. set (cs := c0 :: cs') in *.
  unfold find_last_ge_index. cbn [cs]. fold cs.
  destruct (Nat.leb_spec (length cs) LINEAR_SCAN_MAX) as [Hs|Hs].
  - destruct (rposition _ cs) as [i|] eqn:Ep; cbn [fst]; intros Hj Hc.
    + apply rposition_Some in Ep as [_ Hb]. specialize (Hb j c Hj Hc). cbv beta in Hb. lia.
    + apply (rposition_None _ _ c) in Ep; [|by eapply list_elem_of_lookup_2]. cbv beta in Ep. lia.
  - pose proof (binary_search_chunks_spec cs ls ts HL) as Hb.
    destruct (binary_search_chunks_by_timestamp cs ts) as [i []]; cbn [fst]; intros Hj Hc.
    + destruct Hb as (d & Hd & Hr). pose proof (layout_ordered _ _ _ _ _ _ HL Hj Hd Hc). lia.
    + destruct Hb as (_ & _ & Hr). apply (Hr j c); [lia|done].
Qed.

End Layout.
