(* ===== verification/SeriesIterator.v ===== *)
(** * SeriesIterator: iterating the samples of a series

    Models [src/series/series_sample_iterator.rs]: the iterator that walks the
    chunks of a series forwards, or backwards through a buffer.  It only reads
    the chunks of the series and whether it is empty.  A [SampleIter] over one
    chunk is the list of samples it has left.  In both directions it yields
    exactly the samples of the window. *)

From S2P Require Import Prelude Float64 Types Slice Content Merge ChunkOps ChunkMethods ChunkSearch.

Section Iterator.

Context {C : Type} `{ChunkOps C}.

Record SeriesSampleIterator := mkSeriesSampleIterator {
  si_chunks : list C;
  si_is_reverse : bool;
  si_buffer : list Sample;
  si_buffer_pos : nat;
  si_sample_iter : list Sample;
  si_chunk_index : nat;
  si_chunks_done : bool;
  si_start : Timestamp;
  si_end : Timestamp;
}.

Definition si_at (it : SeriesSampleIterator) (index : nat) (done : bool) : SeriesSampleIterator :=
  mkSeriesSampleIterator (si_chunks it) (si_is_reverse it) (si_buffer it) (si_buffer_pos it)
    (si_sample_iter it) index done (si_start it) (si_end it).

Definition si_with_buffer (it : SeriesSampleIterator) (buffer : list Sample) (pos : nat) : SeriesSampleIterator :=
  mkSeriesSampleIterator (si_chunks it) (si_is_reverse it) buffer pos
    (si_sample_iter it) (si_chunk_index it) (si_chunks_done it) (si_start it) (si_end it).

Definition si_with_samples (it : SeriesSampleIterator) (l : list Sample) : SeriesSampleIterator :=
  mkSeriesSampleIterator (si_chunks it) (si_is_reverse it) (si_buffer it) (si_buffer_pos it)
    l (si_chunk_index it) (si_chunks_done it) (si_start it) (si_end it).

(** The [loop] of the reverse walk: the index decreases until it is zero. *)
Fixpoint next_chunk_reverse (fuel : nat) (it : SeriesSampleIterator) : option C * SeriesSampleIterator :=
  match fuel with
  | O => (None, it)
  | S fuel' =>
      match si_chunks it !! si_chunk_index it with
      | None => (None, it)    (* the index is always in bounds *)
      | Some chunk =>
          if last_timestamp chunk <? si_start it then (None, si_at it (si_chunk_index it) true)
          else
            let current_idx := si_chunk_index it in
            let it := if (si_chunk_index it =? 0)%nat then si_at it (si_chunk_index it) true
                      else si_at it (si_chunk_index it - 1) (si_chunks_done it) in
            if (first_timestamp chunk <=? si_end it) && negb (chunk_is_empty chunk) then (Some chunk, it)
            else if (current_idx =? 0)%nat then (None, it)
            else next_chunk_reverse fuel' it
      end
  end.

(** The [while] of the forward walk: the index increases up to the length. *)
Fixpoint next_chunk_forward (fuel : nat) (it : SeriesSampleIterator) : option C * SeriesSampleIterator :=
  match fuel with
  | O => (None, si_at it (si_chunk_index it) true)
  | S fuel' =>
      match si_chunks it !! si_chunk_index it with
      | None => (None, si_at it (si_chunk_index it) true)
      | Some chunk =>
          if si_end it <? first_timestamp chunk then (None, si_at it (length (si_chunks it) + 1) true)
          else
            let it := si_at it (si_chunk_index it + 1) (si_chunks_done it) in
            if (si_start it <=? last_timestamp chunk) && negb (chunk_is_empty chunk) then (Some chunk, it)
            else next_chunk_forward fuel' it
      end
  end.

Definition next_chunk (it : SeriesSampleIterator) : option C * SeriesSampleIterator :=
  if si_chunks_done it then (None, it)
  else if si_is_reverse it then next_chunk_reverse (S (si_chunk_index it)) it
  else next_chunk_forward (length (si_chunks it) - si_chunk_index it) it.

(** Both branches of the source read the same window: an uncompressed chunk by
    reference, the others through their iterator. *)
Definition fill_buffer_reverse (it : SeriesSampleIterator) (chunk : C) : bool * SeriesSampleIterator :=
  let end_ts := Z.min (last_timestamp chunk) (si_end it) in
  let start_ts := Z.max (first_timestamp chunk) (si_start it) in
  if end_ts <? start_ts then (false, si_with_buffer it [] 0)
  else
    let buffer := chunk_range_iter chunk start_ts end_ts in
    ((0 <? length buffer)%nat, si_with_buffer it buffer (length buffer)).

Definition next_reverse (it : SeriesSampleIterator) : option Sample * SeriesSampleIterator :=
  if (0 <? si_buffer_pos it)%nat then
    let pos := (si_buffer_pos it - 1)%nat in
    (si_buffer it !! pos, si_with_buffer it (si_buffer it) pos)
  else (None, it).

Definition load_next_chunk (it : SeriesSampleIterator) : bool * SeriesSampleIterator :=
  match next_chunk it with
  | (None, it) => (false, it)
  | (Some chunk, it) =>
      (true,
       if si_is_reverse it then snd (fill_buffer_reverse it chunk)
       else si_with_samples it (chunk_range_iter chunk (si_start it) (si_end it)))
  end.

(** [new]; [series_is_empty] is [series.is_empty()]. *)
Definition si_new (cs : list C) (series_is_empty : bool) (start end_ : Timestamp) (is_reverse : bool)
    : SeriesSampleIterator :=
  let chunks_done := match cs with [] => true | _ => false end || (end_ <? start) in
  let chunk_index := if is_reverse && negb series_is_empty then (length cs - 1)%nat else O in
  snd (load_next_chunk
    (mkSeriesSampleIterator cs is_reverse [] 0 [] chunk_index chunks_done start end_)).

(** What the current chunk still has to give. *)
Definition si_take (it : SeriesSampleIterator) : option Sample * SeriesSampleIterator :=
  if si_is_reverse it then next_reverse it
  else match si_sample_iter it with
       | [] => (None, it)
       | s :: l => (Some s, si_with_samples it l)
       end.

(** [Iterator::next]: every turn of the loop loads a chunk not visited before. *)
Fixpoint si_next_loop (fuel : nat) (it : SeriesSampleIterator) : option (Sample * SeriesSampleIterator) :=
  match fuel with
  | O => None
  | S fuel' =>
      match si_take it with
      | (Some s, it) => Some (s, it)
      | (None, it) =>
          match load_next_chunk it with
          | (true, it) => si_next_loop fuel' it
          | (false, _) => None
          end
      end
  end.

Definition si_next (it : SeriesSampleIterator) : option (Sample * SeriesSampleIterator) :=
  si_next_loop (length (si_chunks it) + 2) it.

Fixpoint si_collect (fuel : nat) (it : SeriesSampleIterator) : list Sample :=
  match fuel with
  | O => []
  | S fuel' =>
      match si_next it with
      | None => []
      | Some (s, it) => s :: si_collect fuel' it
      end
  end.

End Iterator.

(** ** What it yields *)

Section Laws.

Context {C : Type} {ops : ChunkOps C} {laws : ChunkLaws C}.

Implicit Types (it : SeriesSampleIterator (C := C)) (ls : list (list Sample)).

(** The samples loaded and not yet yielded, and those of the chunks ahead. *)
Definition si_pending it : list Sample :=
  if si_is_reverse it then reverse (take (si_buffer_pos it) (si_buffer it)) else si_sample_iter it.

Definition si_ahead it ls : list Sample :=
  if si_chunks_done it then []
  else if si_is_reverse it
  then reverse (select (si_start it) (si_end it) (concat (take (S (si_chunk_index it)) ls)))
  else select (si_start it) (si_end it) (concat (drop (si_chunk_index it) ls)).

Definition si_left it ls : list Sample := si_pending it ++ si_ahead it ls.

Definition si_ok it ls : Prop :=
  layout (si_chunks it) ls /\ (si_buffer_pos it <= length (si_buffer it))%nat /\
  (si_chunks_done it = false -> si_is_reverse it = true -> (si_chunk_index it < length (si_chunks it))%nat).

(** The chunks still to visit. *)
Definition si_todo it : nat :=
  if si_chunks_done it then O
  else if si_is_reverse it then S (si_chunk_index it) else (length (si_chunks it) - si_chunk_index it)%nat.

Ltac si_cbn := cbn [si_at si_with_buffer si_with_samples si_chunks si_is_reverse si_buffer si_buffer_pos
  si_sample_iter si_chunk_index si_chunks_done si_start si_end].

Lemma next_chunk_forward_spec fuel it ls :
  layout (si_chunks it) ls -> (length (si_chunks it) - si_chunk_index it <= fuel)%nat ->
  let here := select (si_start it) (si_end it) (concat (drop (si_chunk_index it) ls)) in
  match next_chunk_forward fuel it with
  | (Some c, it') => exists k l, it' = si_at it k (si_chunks_done it) /\
      (si_chunk_index it < k <= length (si_chunks it))%nat /\ holds c l /\
      here = select (si_start it) (si_end it) l ++ select (si_start it) (si_end it) (concat (drop k ls))
  | (None, it') => here = [] /\ exists k, it' = si_at it k true
  end.
Proof.
  intros HL. pose proof (layout_length _ _ HL) as Hlen.
  remember (si_chunk_index it) as i eqn:Hi. revert it i Hi HL Hlen.
  induction fuel as [|fuel IH]; intros it i Hi HL Hlen Hf; cbn [next_chunk_forward]; rewrite <- ?Hi.
  { rewrite drop_ge by lia. eauto. }
  destruct (si_chunks it !! i) as [c|] eqn:Hc.
  2: { apply lookup_ge_None in Hc. rewrite drop_ge by lia. eauto. }
  destruct (Z.ltb_spec (si_end it) (first_timestamp c)) as [Hgt|Hle].
  { split; [|eauto]. apply select_none. eapply Forall_impl; [exact (layout_drop_ge _ _ _ _ HL Hc)|]. cbv beta. lia. }
  destruct (layout_lookup _ _ _ _ HL Hc) as (l & Hl & Hh & Hne).
  pose proof (lookup_lt_Some _ _ _ Hc) as Hlt. rewrite (drop_S _ _ _ Hl). cbn [concat]. rewrite select_app.
  cbn [si_start si_end si_at]. rewrite (holds_is_empty _ _ Hh). destruct l as [|y l']; [done|].
  set (l := y :: l') in *. rewrite andb_true_r.
  destruct (Z.leb_spec (si_start it) (last_timestamp c)) as [Hs|Hs].
  { exists (i + 1)%nat, l. rewrite Nat.add_1_r. split_and!; try done; lia. }
  rewrite (select_none _ _ l).
  2: { eapply Forall_impl; [exact (holds_bounds _ _ Hh)|]. cbv beta. lia. }
  specialize (IH (si_at it (i + 1) (si_chunks_done it)) (i + 1)%nat eq_refl HL Hlen ltac:(cbn; lia)).
  cbn [si_chunks si_start si_end si_at si_chunks_done] in IH. rewrite Nat.add_1_r in IH |- *.
  destruct (next_chunk_forward fuel _) as [[d|] it']; [|by destruct IH as (? & k & ->); eauto].
  destruct IH as (k & l2 & -> & Hk & Hh2 & E). exists k, l2. split_and!; try done; lia.
Qed.

Lemma take_S_concat ls i l s e :
  ls !! i = Some l -> select s e (concat (take (S i) ls)) = select s e (concat (take i ls)) ++ select s e l.
Proof.
  intros Hl. rewrite (take_S_r _ _ _ Hl), concat_app, select_app. cbn [concat]. by rewrite app_nil_r.
Qed.

Lemma next_chunk_reverse_spec fuel it ls :
  layout (si_chunks it) ls -> (si_chunk_index it < fuel)%nat -> si_chunks_done it = false ->
  (si_chunk_index it < length (si_chunks it))%nat ->
  let here := select (si_start it) (si_end it) (concat (take (S (si_chunk_index it)) ls)) in
  match next_chunk_reverse fuel it with
  | (Some c, it') => exists k done l, it' = si_at it k done /\ holds c l /\ l <> [] /\
      (done = false -> (k < si_chunk_index it)%nat) /\
      here = (if done : bool then [] else select (si_start it) (si_end it) (concat (take (S k) ls))) ++
             select (si_start it) (si_end it) l
  | (None, it') => here = [] /\ exists k, it' = si_at it k true
  end.
Proof.
  remember (si_chunk_index it) as i eqn:Hi. revert it i Hi.
  induction fuel as [|fuel IH]; intros it i Hi HL Hf Hd Hlt; [lia|]. cbn [next_chunk_reverse]. rewrite <- Hi.
  destruct (lookup_lt_is_Some_2 _ _ Hlt) as [c Hc]. rewrite Hc.
  destruct (Z.ltb_spec (last_timestamp c) (si_start it)) as [Hb|Hb].
  { split; [|eauto]. apply select_none. eapply Forall_impl; [exact (layout_take_le _ _ _ _ HL Hc)|]. cbv beta. lia. }
  destruct (layout_lookup _ _ _ _ HL Hc) as (l & Hl & Hh & Hne).
  rewrite (take_S_concat _ _ _ _ _ Hl), (holds_is_empty _ _ Hh).
  destruct l as [|y l']; [done|]. set (l := y :: l') in *. rewrite andb_true_r.
  destruct (Nat.eqb_spec i 0) as [->|Hn0].
  - cbn [si_end si_at si_start]. cbn [take concat select List.filter app].
    destruct (Z.leb_spec (first_timestamp c) (si_end it)) as [He|He].
    + by exists O, true, l.
    + split; [|eauto]. apply select_none. eapply Forall_impl; [exact (holds_bounds _ _ Hh)|]. cbv beta. lia.
  - cbn [si_end si_at si_start]. rewrite Hd.
    destruct (Z.leb_spec (first_timestamp c) (si_end it)) as [He|He].
    + exists (i - 1)%nat, false, l. replace (S (i - 1)) with i by lia. split_and!; try done; lia.
    + rewrite (select_none _ _ l), app_nil_r.
      2: { eapply Forall_impl; [exact (holds_bounds _ _ Hh)|]. cbv beta. lia. }
      specialize (IH (si_at it (i - 1) false) (i - 1)%nat eq_refl HL ltac:(lia) eq_refl ltac:(cbn; lia)).
      cbn [si_start si_end si_at si_chunks] in IH. replace (S (i - 1)) with i in IH by lia.
      destruct (next_chunk_reverse fuel _) as [[d|] it']; [|by destruct IH as (? & k & ->); eauto].
      destruct IH as (k & done & l2 & -> & H1 & H2 & H3 & H4). exists k, done, l2. split_and!; try done.
      intros E. specialize (H3 E). lia.
Qed.

(** Clipping a window to the chunk's ends loses nothing. *)
Lemma select_clip c l s e :
  holds c l -> select (Z.max (first_timestamp c) s) (Z.min (last_timestamp c) e) l = select s e l.
Proof.
  intros Hh. pose proof (holds_bounds _ _ Hh) as Hb. unfold select.
  apply filter_ext_in. intros x Hx%list_elem_of_In. rewrite Forall_forall in Hb. specialize (Hb x Hx).
  unfold in_range. cbn in Hb. lia.
Qed.

Lemma fill_buffer_spec it c l :
  holds c l ->
  exists buf, snd (fill_buffer_reverse it c) = si_with_buffer it buf (length buf) /\
    buf = select (si_start it) (si_end it) l.
Proof.
  intros Hh. rewrite <- (select_clip c l _ _ Hh). unfold fill_buffer_reverse.
  destruct (Z.ltb_spec (Z.min (last_timestamp c) (si_end it)) (Z.max (first_timestamp c) (si_start it))) as [Hlt|_].
  - exists []. split; [done|]. symmetry. apply select_none, Forall_true. intros x. lia.
  - rewrite (holds_range_iter _ _ _ _ Hh). eauto.
Qed.

Lemma load_next_chunk_spec it ls :
  si_ok it ls -> si_pending it = [] ->
  match load_next_chunk it with
  | (true, it') => si_ok it' ls /\ si_left it' ls = si_left it ls /\ (si_todo it' < si_todo it)%nat
  | (false, it') => si_left it ls = [] /\ si_ok it' ls /\ si_left it' ls = []
  end.
Proof.
  intros (HL & Hbuf & Hidx) Hp. unfold load_next_chunk, next_chunk, si_left. rewrite Hp. cbn [app].
  destruct (si_chunks_done it) eqn:Hd; [by unfold si_ok, si_ahead; rewrite Hp, Hd|].
  unfold si_ahead at 2 3. unfold si_todo at 2. rewrite Hd. specialize (Hidx eq_refl).
  destruct (si_is_reverse it) eqn:Hr.
  - specialize (Hidx eq_refl).
    pose proof (next_chunk_reverse_spec (S (si_chunk_index it)) it ls HL ltac:(lia) Hd Hidx) as H.
    destruct (next_chunk_reverse _ it) as [[c|] it'].
    2: { destruct H as (-> & k & ->). unfold si_ok, si_pending, si_ahead. si_cbn. rewrite Hr.
      unfold si_pending in Hp. rewrite Hr in Hp. by rewrite Hp. }
    destruct H as (k & done & l & -> & Hh & Hne & Hk & E). cbn [si_is_reverse si_at]. rewrite Hr.
    destruct (fill_buffer_spec (si_at it k done) c l Hh) as (buf & -> & Hb). cbn [si_start si_end si_at] in Hb.
    unfold si_ok, si_pending, si_ahead, si_todo. si_cbn. rewrite Hr, E, <- Hb, take_ge by lia. destruct done.
    + split_and!; try done; [|lia]. by rewrite app_nil_r.
    + specialize (Hk eq_refl). split_and!; try done; try lia. by rewrite reverse_app.
  - pose proof (next_chunk_forward_spec (length (si_chunks it) - si_chunk_index it) it ls HL ltac:(lia)) as H.
    destruct (next_chunk_forward _ it) as [[c|] it'].
    2: { destruct H as (-> & k & ->). unfold si_ok, si_pending, si_ahead. si_cbn. rewrite Hr.
      unfold si_pending in Hp. rewrite Hr in Hp. by rewrite Hp. }
    destruct H as (k & l & -> & Hk & Hh & E). cbn [si_is_reverse si_at si_start si_end]. rewrite Hr, Hd.
    rewrite (holds_range_iter _ _ _ _ Hh). unfold si_ok, si_pending, si_ahead, si_todo. si_cbn. rewrite Hr, E.
    split_and!; try done; lia.
Qed.

Lemma si_take_spec it ls :
  si_ok it ls ->
  match si_take it with
  | (Some s, it') => si_left it ls = s :: si_left it' ls /\ si_ok it' ls
  | (None, it') => it' = it /\ si_pending it = []
  end.
Proof.
  intros (HL & Hbuf & Hidx). unfold si_take, next_reverse, si_left. unfold si_pending at 1 3.
  destruct (si_is_reverse it) eqn:Hr.
  - destruct (Nat.ltb_spec 0 (si_buffer_pos it)) as [Hpos|Hpos].
    + destruct (lookup_lt_is_Some_2 (si_buffer it) (si_buffer_pos it - 1) ltac:(lia)) as [s Hs]. rewrite Hs.
      assert (take (si_buffer_pos it) (si_buffer it) = take (si_buffer_pos it - 1) (si_buffer it) ++ [s]) as ->.
      { rewrite <- (take_S_r _ _ _ Hs). f_equal. lia. }
      rewrite reverse_app. unfold si_ok, si_pending, si_ahead. si_cbn. rewrite Hr. cbn. split_and!; try done. lia.
    + assert (si_buffer_pos it = O) as -> by lia. done.
  - destruct (si_sample_iter it) as [|s l] eqn:El; [done|].
    unfold si_ok, si_pending, si_ahead. si_cbn. rewrite Hr. done.
Qed.

Lemma si_next_loop_spec fuel it ls :
  si_ok it ls -> (si_todo it < fuel)%nat ->
  match si_next_loop fuel it with
  | Some (s, it') => si_left it ls = s :: si_left it' ls /\ si_ok it' ls
  | None => si_left it ls = []
  end.
Proof.
  revert it. induction fuel as [|fuel IH]; intros it Hok Hf; [lia|]. cbn [si_next_loop].
  pose proof (si_take_spec it ls Hok) as Ht. destruct (si_take it) as [[s|] it1]; [naive_solver|].
  destruct Ht as [-> Hp]. pose proof (load_next_chunk_spec it ls Hok Hp) as Hl.
  destruct (load_next_chunk it) as [[] it2]; [|by destruct Hl]. destruct Hl as (Hok2 & E & Htodo).
  specialize (IH it2 Hok2 ltac:(lia)). rewrite E in IH. done.
Qed.

Lemma si_next_spec it ls :
  si_ok it ls ->
  match si_next it with
  | Some (s, it') => si_left it ls = s :: si_left it' ls /\ si_ok it' ls
  | None => si_left it ls = []
  end.
Proof.
  intros Hok. apply si_next_loop_spec; [done|]. destruct Hok as (_ & _ & Hidx). unfold si_todo.
  destruct (si_chunks_done it); [lia|]. destruct (si_is_reverse it); [specialize (Hidx eq_refl eq_refl)|]; lia.
Qed.

Lemma si_collect_spec fuel it ls :
  si_ok it ls -> (length (si_left it ls) <= fuel)%nat -> si_collect fuel it = si_left it ls.
Proof.
  revert it. induction fuel as [|fuel IH]; intros it Hok Hf; cbn [si_collect].
  { by destruct (si_left it ls); [|cbn in Hf; lia]. }
  pose proof (si_next_spec it ls Hok) as Hn. destruct (si_next it) as [[s it']|]; [|by rewrite Hn].
  destruct Hn as [E Hok']. rewrite E in Hf |- *. f_equal. apply IH; [done|]. cbn in Hf. lia.
Qed.

(** A new iterator is about to yield the window. *)
Lemma si_new_spec cs ls emp s e rev :
  layout cs ls -> emp = match cs with [] => true | _ => false end ->
  let it := si_new cs emp s e rev in
  si_ok it ls /\ si_left it ls = (if rev then reverse (select s e (concat ls)) else select s e (concat ls)).
Proof.
  intros HL ->. cbv zeta. unfold si_new. set (done := _ || _). set (idx := if _ : bool then _ else _).
  set (it0 := mkSeriesSampleIterator _ _ _ _ _ _ _ _ _). pose proof (layout_length _ _ HL) as Hlen.
  assert (si_pending it0 = []) as Hp by (by destruct rev).
  assert (si_ok it0 ls) as Hok0.
  { split_and!; [done|done|]. cbn. intros Hd Hr. unfold done in Hd. unfold idx. rewrite Hr.
    destruct cs; [done|]. cbn. lia. }
  assert (si_left it0 ls = if rev then reverse (select s e (concat ls)) else select s e (concat ls)) as E0.
  { unfold si_left. rewrite Hp. unfold si_ahead, it0, done, idx. cbn [app si_chunks_done si_is_reverse si_start si_end si_chunk_index].
    destruct cs as [|c cs']; [rewrite (layout_nil_inv _ HL); by destruct rev|]. cbn [orb].
    destruct (Z.ltb_spec e s).
    - rewrite select_none; [by destruct rev|]. apply Forall_true. intros. lia.
    - destruct rev; [|done]. cbn [andb negb]. rewrite take_ge; [done|]. rewrite <- Hlen. cbn. lia. }
  pose proof (load_next_chunk_spec it0 ls Hok0 Hp) as Hl.
  destruct (load_next_chunk it0) as [[] it'] eqn:El; cbn [snd]; [by destruct Hl as (? & -> & _)|].
  destruct Hl as (Hl & ? & ->). by rewrite <- E0.
Qed.

End Laws.
