(* ===== verification/Rounding.v ===== *)
(** * Rounding: rounding values to significant or decimal digits

    Models [src/common/rounding.rs].  [f64::powi] has no specified rounding; it
    is the square-and-multiply loop of the runtime the compiler calls.
    [f64::log10] is the parameter of [Elf64]. *)

From Stdlib Require Import SpecFloat.
From S2P Require Import Prelude Float64 FloatBounds Elf64.

Definition MAX_SIGNIFICANT_DIGITS : Z := 16.
Definition MAX_DECIMAL_DIGITS : Z := 16.

Inductive RoundingStrategy :=
| SignificantDigits (digits : Z)
| DecimalDigits (digits : Z).

(** [f64::round]: to the nearest integer, halves away from zero. *)
Definition f64_round (v : f64) : f64 :=
  match f64_spec v with
  | S754_finite s m e =>
      if 0 <=? e then v
      else
        let q := (Zpos m + 2 ^ (- e - 1)) / 2 ^ (- e) in
        f64_of_spec (binary_normalize 53 1024 (if s then - q else q) 0 s)
  | _ => v
  end.

(** [b] is halved towards zero at every turn, so its bits bound their number. *)
Fixpoint powi_loop (fuel : nat) (a : f64) (b : Z) (r : f64) : f64 :=
  match fuel with
  | O => r
  | S fuel' =>
      let r := if Z.odd b then f64_mul r a else r in
      let b := Z.quot b 2 in
      if b =? 0 then r else powi_loop fuel' (f64_mul a a) b r
  end.

Definition f64_one_value : f64 := 0x3FF0000000000000.
Definition f64_ten : f64 := 0x4024000000000000.

Definition f64_powi (a : f64) (b : Z) : f64 :=
  let r := powi_loop 32 a b f64_one_value in
  if b <? 0 then f64_div f64_one_value r else r.

Definition round_to_decimal_digits (value : f64) (digits : Z) : f64 :=
  if digits =? 0 then f64_round value
  else
    let digits := Z.max 1 (Z.min MAX_DECIMAL_DIGITS digits) in
    let factor := f64_powi f64_ten digits in
    f64_div (f64_round (f64_mul value factor)) factor.

Definition f64_is_infinite (v : f64) : bool :=
  match f64_spec v with S754_infinity _ => true | _ => false end.

Section Round.

Context `{Log10}.

Definition round_to_sig_figs (value : f64) (digits : Z) : f64 :=
  if (digits =? 0) || (MAX_SIGNIFICANT_DIGITS <=? digits) || f64_is_nan value
     || f64_is_infinite value || f64_eq value f64_zero
  then value
  else
    let magnitude := f64_powi f64_ten (digits - 1 - f64_to_i32 (f64_floor (log10 (f64_abs value)))) in
    f64_div (f64_round (f64_mul value magnitude)) magnitude.

Definition round (r : RoundingStrategy) (value : f64) : f64 :=
  match r with
  | SignificantDigits digits => round_to_sig_figs value digits
  | DecimalDigits digits => round_to_decimal_digits value digits
  end.

Lemma f64_round_range v : is_f64 v -> is_f64 (f64_round v).
Proof. intros Hv. unfold f64_round. repeat case_match; first [done|apply f64_of_spec_range]. Qed.

Lemma round_range r v : is_f64 v -> is_f64 (round r v).
Proof.
  intros Hv. destruct r; cbn; unfold round_to_sig_figs, round_to_decimal_digits; case_match;
    try done; try (by apply f64_round_range); apply f64_of_spec_range.
Qed.

End Round.

(** Two of the module's tests: ten decimals of 0.0000000123456789, and pi to
    none. *)
Example round_decimal_ex : round_to_decimal_digits 0x3e4a831bd7263f7f 10 = 0x3e4a69ff1b555051.
Proof. vm_compute. reflexivity. Qed.

Example round_whole_ex : round_to_decimal_digits 0x400921FB54442D18 0 = 0x4008000000000000.
Proof. vm_compute. reflexivity. Qed.
