(* ===== verification/TimeSeries.v ===== *)
(** * TimeSeries: a series of chunks

    Models [src/series/time_series.rs]: the state of a series and its
    operations.  A method on [&mut self] returns the new series beside its
    result, and on an error the series as the source leaves it.  The fields no
    operation here reads ([id], [key], [labels], [src_series], [rules], [_db],
    [last_forward_close]) are left out.  [seal_chunk] and [shrink_to_fit] only
    return unused allocation, which the model does not have. *)

From stdpp Require Import strings.
From S2P Require Import Prelude Float64 Types Slice Content Merge ChunkOps ChunkMethods Elf64.
From S2P Require Import TimeSeriesChunk ChunkSearch SeriesIterator Rounding.

(** The server-wide settings the series reads. *)
Class ServerConfig := {
  config_duplicate_policy : DuplicatePolicy;
  config_retention_period : Z;
}.

Definition DEFAULT_CHUNK_SIZE_BYTES : Z := 4096.
Definition SPLIT_SLACK_DIVISOR : Z := 4.

Record TimeSeries := mkTimeSeries {
  retention : Z;    (* [Duration], in nanoseconds *)
  sample_duplicates : SampleDuplicatePolicy;
  chunk_encoding : ChunkEncoding;
  rounding : option RoundingStrategy;
  chunk_size_bytes : Z;
  chunks : list TimeSeriesChunk;
  total_samples : Z;
  series_first : Timestamp;
  last_sample : option Sample;
}.

Definition with_chunks (t : TimeSeries) (cs : list TimeSeriesChunk) : TimeSeries :=
  mkTimeSeries (retention t) (sample_duplicates t) (chunk_encoding t) (rounding t) (chunk_size_bytes t)
    cs (total_samples t) (series_first t) (last_sample t).

Definition with_total (t : TimeSeries) (n : Z) : TimeSeries :=
  mkTimeSeries (retention t) (sample_duplicates t) (chunk_encoding t) (rounding t) (chunk_size_bytes t)
    (chunks t) n (series_first t) (last_sample t).

Definition with_first (t : TimeSeries) (ts : Timestamp) : TimeSeries :=
  mkTimeSeries (retention t) (sample_duplicates t) (chunk_encoding t) (rounding t) (chunk_size_bytes t)
    (chunks t) (total_samples t) ts (last_sample t).

Definition with_last (t : TimeSeries) (s : option Sample) : TimeSeries :=
  mkTimeSeries (retention t) (sample_duplicates t) (chunk_encoding t) (rounding t) (chunk_size_bytes t)
    (chunks t) (total_samples t) (series_first t) s.

(** [Duration::is_zero] and [as_millis() as i64] of the retention. *)
Definition retention_is_zero (t : TimeSeries) : bool := retention t =? 0.
Definition retention_millis (t : TimeSeries) : Z := wrap_i64 (retention t / 1000000).

(** ** Creation *)

Record TimeSeriesOptions := mkTimeSeriesOptions {
  opt_chunk_encoding : ChunkEncoding;
  opt_chunk_size : option Z;
  opt_retention : option Z;
  opt_duplicate_policy : option DuplicatePolicy;
  opt_ignore : option (Z * f64);
  opt_rounding : option RoundingStrategy;
}.

Definition series_new : TimeSeries :=
  mkTimeSeries 0 (mkSampleDuplicatePolicy None 0 f64_zero) EncChimp None DEFAULT_CHUNK_SIZE_BYTES
    [] 0 0 None.

Definition with_options `{ServerConfig} (options : TimeSeriesOptions) : TsdbResult TimeSeries :=
  let res := series_new in
  let? chunk_size :=
    (match opt_chunk_size options with
     | Some n => let? _ := validate_chunk_size n in Ok n
     | None => Ok (chunk_size_bytes res)
     end) in
  let '(max_time_delta, max_value_delta) := default (0, f64_zero) (opt_ignore options) in
  Ok (mkTimeSeries (default config_retention_period (opt_retention options))
        (mkSampleDuplicatePolicy (opt_duplicate_policy options) max_time_delta max_value_delta)
        (opt_chunk_encoding options) (opt_rounding options) chunk_size
        (chunks res) (total_samples res) (series_first res) (last_sample res)).

(** ** Reading the state *)

Definition series_len (t : TimeSeries) : Z := total_samples t.
Definition series_is_empty (t : TimeSeries) : bool := series_len t =? 0.
Definition series_is_compressed (t : TimeSeries) : bool := negb (bool_decide (chunk_encoding t = EncUncompressed)).

Definition series_last_timestamp (t : TimeSeries) : Timestamp :=
  match last_sample t with Some s => timestamp s | None => 0 end.

Definition get_min_timestamp (t : TimeSeries) : Timestamp :=
  if retention_is_zero t then series_first t
  else match last_sample t with
       | None => 0
       | Some last => Z.max (sat_i64 (timestamp last - retention_millis t)) 0
       end.

Definition is_older_than_retention (t : TimeSeries) (ts : Timestamp) : bool :=
  if retention_is_zero t then false else ts <? get_min_timestamp t.

Definition series_overlaps (t : TimeSeries) (s e : Timestamp) : bool :=
  negb (series_is_empty t) && (s <=? series_last_timestamp t) && (series_first t <=? e).

(** [slice::sort_by_key], which is stable. *)
Fixpoint insert_by_key {A} (key : A -> Z) (x : A) (l : list A) : list A :=
  match l with
  | [] => [x]
  | y :: l' => if key x <=? key y then x :: l else y :: insert_by_key key x l'
  end.

Definition sort_by_key {A} (key : A -> Z) (l : list A) : list A := foldr (insert_by_key key) [] l.

(** [Vec::dedup]: drops an element equal to the one kept before it. *)
Fixpoint dedup_from (prev : Timestamp) (l : list Timestamp) : list Timestamp :=
  match l with
  | [] => []
  | x :: l => if x =? prev then dedup_from prev l else x :: dedup_from x l
  end.

Definition dedup (l : list Timestamp) : list Timestamp :=
  match l with [] => [] | x :: l => x :: dedup_from x l end.

Definition filter_samples_by_value (samples : list Sample) (f : ValueFilter) : list Sample :=
  List.filter (fun s => f64_le (vf_min f) (value s) && f64_le (value s) (vf_max f)) samples.

Definition filter_timestamp_slice (ts_filter : list Timestamp) (s e : Timestamp) : list Timestamp :=
  dedup (sort_by_key id (List.filter (fun ts => (s <=? ts) && (ts <=? e)) ts_filter)).

Section Series.

Context `{Log10} `{ServerConfig}.

Definition adjust_value (t : TimeSeries) (v : f64) : f64 :=
  match rounding t with Some r => round r v | None => v end.

Definition make_sample (t : TimeSeries) (ts : Timestamp) (v : f64) : Sample := mkSample ts (adjust_value t v).

Definition record_appended_sample (t : TimeSeries) (s : Sample) : TimeSeries :=
  let t := if total_samples t =? 0 then with_first t (timestamp s) else t in
  let t := with_last t (Some s) in
  with_total t (total_samples t + 1).

Definition update_last_sample (t : TimeSeries) : TimeSeries :=
  match list.last (chunks t) with
  | Some c => with_last t (chunk_last_sample c)
  | None => with_last t None
  end.

Definition update_first_last_timestamps (t : TimeSeries) : TimeSeries :=
  let t := match chunks t with
           | c :: _ => with_first t (first_timestamp c)
           | [] => with_first t 0
           end in
  update_last_sample t.

Definition recalculate_total_samples (t : TimeSeries) : TimeSeries :=
  with_total t (foldr (fun c n => chunk_len c + n) 0 (chunks t)).

Definition data_size (t : TimeSeries) : Z := foldr (fun c n => chunk_size c + n) 0 (chunks t).

Definition from_chunk (c : TimeSeriesChunk) : TsdbResult TimeSeries :=
  let? t := with_options (mkTimeSeriesOptions (get_encoding c) (Some (chunk_max_size c)) None None None None) in
  let t := with_total t (chunk_len c) in
  let t := with_chunks t (chunks t ++ [c]) in
  Ok (update_first_last_timestamps t).

Definition seal_chunk (c : TimeSeriesChunk) : TimeSeriesChunk := c.

(** ** Appending *)

Definition create_chunk (t : TimeSeries) : TimeSeriesChunk := chunk_new (chunk_encoding t) (chunk_size_bytes t).
Definition append_chunk (t : TimeSeries) : TimeSeries := with_chunks t (chunks t ++ [create_chunk t]).

Definition set_last_chunk (t : TimeSeries) (c : TimeSeriesChunk) : TimeSeries :=
  with_chunks t (<[(length (chunks t) - 1)%nat := c]> (chunks t)).

Definition add_chunk_with_sample (t : TimeSeries) (s : Sample) : TsdbResult TimeSeries :=
  let t := match list.last (chunks t) with Some c => set_last_chunk t (seal_chunk c) | None => t end in
  let chunk := create_chunk t in
  let? chunk := chunk_add_sample chunk s in
  let t := with_chunks t (chunks t ++ [chunk]) in
  Ok (record_appended_sample t s).

Definition handle_full_chunk (t : TimeSeries) (s : Sample) : SampleAddResult * TimeSeries :=
  match add_chunk_with_sample t s with
  | Ok t => (AddOk s, t)
  | Err (DuplicateSample _) => (Duplicate, t)
  | Err _ => (AddError CANNOT_ADD_SAMPLE, t)
  end.

Definition get_last_chunk (t : TimeSeries) : TimeSeriesChunk * TimeSeries :=
  let t := match chunks t with [] => append_chunk t | _ => t end in
  (default (create_chunk t) (list.last (chunks t)), t).

Definition add_sample_internal (t : TimeSeries) (s : Sample) : SampleAddResult * TimeSeries :=
  let '(chunk, t) := get_last_chunk t in
  if chunk_is_full chunk then handle_full_chunk t s
  else
    match chunk_add_sample chunk s with
    | Ok chunk => (AddOk s, record_appended_sample (set_last_chunk t chunk) s)
    | Err (CapacityFull _) => handle_full_chunk t s
    | Err _ => (AddError CANNOT_ADD_SAMPLE, t)
    end.

(** ** Inserting at or before the last timestamp *)

Definition upsert_target (t : TimeSeries) (ts : Timestamp) : nat :=
  let '(pos, found) := get_chunk_index (chunks t) ts in
  if (found : bool) then pos
  else default (length (chunks t) - 1)%nat (position (fun c => ts <? first_timestamp c) (chunks t)).

Definition upsert_whole (t : TimeSeries) (target_idx : nat) (chunk : TimeSeriesChunk) (s : Sample)
    (p : DuplicatePolicy) : SampleAddResult * TimeSeries :=
  let is_last := (target_idx + 1 =? length (chunks t))%nat in
  let old_size := chunk_len chunk in
  let '(size, res, chunk) := chunk_upsert chunk s p in
  let t := with_chunks t (<[target_idx := chunk]> (chunks t)) in
  if add_is_ok res then
    let t := with_total t (total_samples t + sat_usize_sub size old_size) in
    let t := if is_last then update_last_sample t else t in
    (res, with_first t (Z.min (timestamp s) (series_first t)))
  else (res, t).

(** The upsert into whichever half now owns the timestamp: the number of samples
    it added, its result, and both halves. *)
Definition upsert_half (chunk new_chunk : TimeSeriesChunk) (s : Sample) (p : DuplicatePolicy)
    : Z * SampleAddResult * TimeSeriesChunk * TimeSeriesChunk :=
  let into_new := (0 <? chunk_len new_chunk) && (first_timestamp new_chunk <=? timestamp s) in
  if into_new then
    let old_size := chunk_len new_chunk in
    let '(size, res, new_chunk) := chunk_upsert new_chunk s p in
    (sat_usize_sub size old_size, res, chunk, new_chunk)
  else
    let old_size := chunk_len chunk in
    let '(size, res, chunk) := chunk_upsert chunk s p in
    (sat_usize_sub size old_size, res, chunk, new_chunk).

Definition upsert_split (t : TimeSeries) (target_idx : nat) (chunk : TimeSeriesChunk) (s : Sample)
    (p : DuplicatePolicy) : SampleAddResult * TimeSeries :=
  match chunk_split chunk with
  | Err _ => (AddError CHUNK_SPLIT, t)
  | Ok (chunk, new_chunk) =>
      let '(added, res, chunk, new_chunk) := upsert_half chunk new_chunk s p in
      let t := with_chunks t (<[target_idx := chunk]> (chunks t)) in
      let t :=
        if 0 <? chunk_len new_chunk then
          let insert_at := partition_point (fun c => first_timestamp c <=? first_timestamp new_chunk) (chunks t) in
          with_chunks t (take insert_at (chunks t) ++ new_chunk :: drop insert_at (chunks t))
        else t in
      if negb (add_is_ok res) then (res, t)
      else
        let t := with_total t (total_samples t + added) in
        (AddOk s, update_first_last_timestamps t)
  end.

Definition NO_CHUNKS : string := "Internal error: no chunks available in upsert".

Definition upsert_sample (t : TimeSeries) (s : Sample) (override : option DuplicatePolicy)
    : SampleAddResult * TimeSeries :=
  let p := resolve_policy config_duplicate_policy (sample_duplicates t) override in
  let before_first := timestamp s <=? series_first t in
  if before_first && is_older_than_retention t (timestamp s) then (TooOld, t)
  else
    let target_idx := if before_first then O else upsert_target t (timestamp s) in
    match chunks t !! target_idx with
    | None => (AddError NO_CHUNKS, t)
    | Some chunk =>
        if negb (should_split chunk) then upsert_whole t target_idx chunk s p
        else upsert_split t target_idx chunk s p
    end.

(** ** Splitting overfull chunks *)

Definition needs_split (c : TimeSeriesChunk) : bool :=
  let max := chunk_max_size c in
  chunk_is_full c && (max + max / SPLIT_SLACK_DIVISOR <? chunk_size c).

(** One pass over the chunks: the chunks with the split ones replaced by their
    lower halves, the upper halves, and whether a split failed. *)
Fixpoint split_pass (cs : list TimeSeriesChunk) : list TimeSeriesChunk * list TimeSeriesChunk * bool :=
  match cs with
  | [] => ([], [], false)
  | c :: cs =>
      let '(kept, new_chunks, errored) := split_pass cs in
      if needs_split c then
        match chunk_split c with
        | Ok (c, split_chunk) => (seal_chunk c :: kept, seal_chunk split_chunk :: new_chunks, errored)
        | Err _ => (c :: kept, new_chunks, true)
        end
      else (c :: kept, new_chunks, errored)
  end.

Fixpoint merge_runs (a : list TimeSeriesChunk) : list TimeSeriesChunk -> list TimeSeriesChunk :=
  fix merge_b b :=
    match a, b with
    | x :: a', y :: b' =>
        if first_timestamp x <=? first_timestamp y then x :: merge_runs a' b else y :: merge_b b'
    | _, [] => a
    | [], _ => b
    end.

Definition split_chunks_if_needed (t : TimeSeries) : TsdbResult unit * TimeSeries :=
  if negb (existsb needs_split (chunks t)) then (Ok tt, t)
  else
    let '(kept, new_chunks, errored) := split_pass (chunks t) in
    let t := with_chunks t kept in
    let t :=
      match new_chunks with
      | [] => t
      | _ => with_chunks t (merge_runs (chunks t) (sort_by_key (fun c => first_timestamp c) new_chunks))
      end in
    (if (errored : bool) then Err ChunkSplitError else Ok tt, t).

(** ** Retention *)

Definition head_trim_due (chunk : TimeSeriesChunk) (min_timestamp : Timestamp) : bool :=
  if negb (chunk_is_compressed chunk) then true
  else
    let first := first_timestamp chunk in
    let expired := min_timestamp - first in
    let span := last_timestamp chunk - first in
    span <=? expired * 4.

Definition remove_expired_chunks (t : TimeSeries) (min_timestamp : Timestamp) : Z * TimeSeries :=
  let expired := length (take_while (fun c => last_timestamp c <? min_timestamp) (chunks t)) in
  if (expired =? 0)%nat then (0, t)
  else
    (foldr (fun c n => chunk_len c + n) 0 (take expired (chunks t)),
     with_chunks t (drop expired (chunks t))).

Definition trim_expired (t : TimeSeries) (force : bool) : TsdbResult Z * TimeSeries :=
  let min_timestamp := get_min_timestamp t in
  if min_timestamp <=? series_first t then (Ok 0, t)
  else
    let '(deleted_count, t) := remove_expired_chunks t min_timestamp in
    let removed :=
      match chunks t with
      | chunk :: cs =>
          if (first_timestamp chunk <? min_timestamp) && (force || head_trim_due chunk min_timestamp) then
            match chunk_remove_range chunk 0 (min_timestamp - 1) with
            | Ok (count, chunk) => Ok (deleted_count + count, chunk :: cs)
            | Err _ => Err RemoveRangeError
            end
          else Ok (deleted_count, chunks t)
      | [] => Ok (deleted_count, chunks t)
      end in
    match removed with
    | Err e => (Err e, t)
    | Ok (deleted_count, cs) =>
        let t := with_chunks t cs in
        let t := with_total t (total_samples t - deleted_count) in
        (Ok deleted_count, if 0 <? deleted_count then update_first_last_timestamps t else t)
    end.

Definition trim (t : TimeSeries) : TsdbResult Z * TimeSeries := trim_expired t true.
Definition trim_lazily (t : TimeSeries) : TsdbResult Z * TimeSeries := trim_expired t false.

(** A failed trim is only logged. *)
Definition apply_retention (t : TimeSeries) : TimeSeries :=
  if retention_is_zero t then t else snd (trim_lazily t).

(** ** Adding a sample *)

Definition validate_sample (t : TimeSeries) (s last : Sample) (on_duplicate : option DuplicatePolicy)
    : SampleAddResult :=
  if is_duplicate config_duplicate_policy (sample_duplicates t) s last on_duplicate
  then Ignored (timestamp last) else AddOk s.

Definition add_deferring_retention (t : TimeSeries) (ts : Timestamp) (v : f64)
    (override : option DuplicatePolicy) : SampleAddResult * TimeSeries :=
  let s := make_sample t ts v in
  if is_older_than_retention t ts then (TooOld, t)
  else
    match last_sample t with
    | Some last =>
        let last_ts := timestamp last in
        if (last_ts <=? ts) && negb (add_is_ok (validate_sample t s last override)) then (Ignored last_ts, t)
        else if ts <=? last_ts then upsert_sample t s override
        else add_sample_internal t s
    | None => add_sample_internal t s
    end.

Definition add_reporting_insert (t : TimeSeries) (ts : Timestamp) (v : f64)
    (override : option DuplicatePolicy) : SampleAddResult * bool * TimeSeries :=
  let samples_before := total_samples t in
  let '(result, t) := add_deferring_retention t ts v override in
  let inserted := samples_before <? total_samples t in
  (result, inserted, if add_is_ok result then apply_retention t else t).

Definition add (t : TimeSeries) (ts : Timestamp) (v : f64) (override : option DuplicatePolicy)
    : SampleAddResult * TimeSeries :=
  let '(result, _, t) := add_reporting_insert t ts v override in (result, t).

Definition INVALID_INCREMENT_VALUE : string := "TSDB: invalid increase/decrease value".
Definition CANNOT_INCREMENT_DECREMENT_NAN : string := "TSDB: cannot increment/decrement NaN value".
Definition INCREMENT_BACKWARDS : string :=
  "TSDB: timestamp must be equal to or higher than the maximum existing timestamp".

(** [now] is [current_time_millis()]. *)
Definition increment_sample_value (t : TimeSeries) (ts : option Timestamp) (delta : f64) (now : Timestamp)
    : result string SampleAddResult * TimeSeries :=
  if f64_is_nan delta then (Err INVALID_INCREMENT_VALUE, t)
  else
    let prepared :=
      match last_sample t with
      | Some s =>
          if f64_is_nan (value s) then Err CANNOT_INCREMENT_DECREMENT_NAN
          else Ok (default (timestamp s) ts, timestamp s, f64_add (value s) delta)
      | None => let ts := default now ts in Ok (ts, ts, delta)
      end in
    match prepared with
    | Err e => (Err e, t)
    | Ok (ts, last_ts, v) =>
        if ts <? last_ts then (Err INCREMENT_BACKWARDS, t)
        else let '(res, t) := add t ts v (Some KeepLast) in (Ok res, t)
    end.

(** ** Range reads *)

Definition get_chunk_index_bounds (t : TimeSeries) (s e : Timestamp) : option (nat * nat) :=
  if series_is_empty t || (e <? s) then None
  else
    let len := length (chunks t) in
    let start_idx := find_start_chunk_index (chunks t) s in
    if (len <=? start_idx)%nat then None
    else
      let '(idx, _) := find_last_ge_index (drop start_idx (chunks t)) e in
      let end_idx := Nat.min (start_idx + idx) (len - 1) in
      if (start_idx =? end_idx)%nat &&
         match chunks t !! start_idx with Some c => e <? first_timestamp c | None => false end
      then None
      else Some (start_idx, end_idx).

(** Several chunks are decoded in parallel; the collection keeps the order of
    the chunks, which is the documented default of the parallel iterator. *)
Definition get_range_parallel (cs : list TimeSeriesChunk) (s e : Timestamp) : TsdbResult (list Sample) :=
  try_fold (fun acc c => let? l := chunk_get_range c s e in Ok (acc ++ l)) [] cs.

Definition get_range (t : TimeSeries) (s e : Timestamp) : list Sample :=
  let s := Z.max s (get_min_timestamp t) in
  if e <? s then []
  else if negb (series_overlaps t s e) then []
  else
    match get_chunk_index_bounds t s e with
    | None => []
    | Some (start_index, end_index) =>
        let cs := slice_incl (chunks t) start_index end_index in
        let samples := match get_range_parallel cs s e with Ok l => l | Err _ => [] end in
        if (1 <? length cs)%nat then sort_by_key timestamp samples else samples
    end.

Definition ERROR_FETCHING_SAMPLE : string := "TSDB: fetching sample".

Definition get_sample (t : TimeSeries) (ts : Timestamp) : result string (option Sample) :=
  let '(index, found) := get_chunk_index (chunks t) ts in
  if (found : bool) then
    match chunks t !! index with
    | Some chunk => let? l := map_err (fun _ => ERROR_FETCHING_SAMPLE) (chunk_get_range chunk ts ts) in Ok (list.last l)
    | None => Ok None
    end
  else Ok None.

(** The timestamps a chunk owns, by the index of the chunk.  The map is a hash
    map: [into_values] is the order its values come out in. *)
Definition ChunkMeta : Type := nat * list Timestamp.

Fixpoint meta_push (m : list ChunkMeta) (index : nat) (ts : Timestamp) : list ChunkMeta :=
  match m with
  | [] => [(index, [ts])]
  | (i, tss) :: m =>
      if (i =? index)%nat then (i, tss ++ [ts]) :: m else (i, tss) :: meta_push m index ts
  end.

Definition meta_map (t : TimeSeries) (timestamps : list Timestamp) : list ChunkMeta :=
  fold_left (fun m ts =>
    let '(index, found) := get_chunk_index (chunks t) ts in
    if found && (index <? length (chunks t))%nat then meta_push m index ts else m) timestamps [].

Definition meta_fetch (t : TimeSeries) (m : ChunkMeta) : TsdbResult (list Sample) :=
  match chunks t !! m.1 with
  | Some c => chunk_samples_by_timestamps c m.2
  | None => Ok []
  end.

Definition samples_by_timestamps (into_values : list ChunkMeta -> list ChunkMeta) (t : TimeSeries)
    (timestamps : list Timestamp) : TsdbResult (list Sample) :=
  if series_is_empty t || match timestamps with [] => true | _ => false end then Ok []
  else
    let m := meta_map t timestamps in
    if (length m =? 0)%nat then Ok []
    else
      let? samples :=
        try_fold (fun acc meta => let? l := meta_fetch t meta in Ok (acc ++ l)) [] (into_values m) in
      Ok (if (1 <? length m)%nat then sort_by_key timestamp samples else samples).

Definition get_range_filtered (into_values : list ChunkMeta -> list ChunkMeta) (t : TimeSeries)
    (s e : Timestamp) (timestamp_filter : option (list Timestamp)) (value_filter : option ValueFilter)
    : list Sample :=
  let s := Z.max s (get_min_timestamp t) in
  if e <? s then []
  else
    let samples :=
      match timestamp_filter with
      | Some ts_filter =>
          match samples_by_timestamps into_values t (filter_timestamp_slice ts_filter s e) with
          | Ok l => l
          | Err _ => []
          end
      | None => get_range t s e
      end in
    match value_filter with
    | Some f => filter_samples_by_value samples f
    | None => samples
    end.

Definition has_samples_in_range (t : TimeSeries) (s e : Timestamp) : bool :=
  if negb (series_overlaps t s e) then false
  else
    let min_timestamp := Z.max (get_min_timestamp t) s in
    match get_chunk_index_bounds t min_timestamp e with
    | None => false
    | Some (start_index, end_index) =>
        existsb (fun c => chunk_has_samples_in_range c min_timestamp e)
          (slice_incl (chunks t) start_index end_index)
    end.

Definition chunk_containing_timestamp (t : TimeSeries) (ts : Timestamp) : option TimeSeriesChunk :=
  let '(index, found) := get_chunk_index (chunks t) ts in
  if (found : bool) then chunks t !! index else None.

Definition range_iter (t : TimeSeries) (s e : Timestamp) : SeriesSampleIterator :=
  si_new (chunks t) (series_is_empty t) (Z.max s (get_min_timestamp t)) e false.

Definition stored_range_iter (t : TimeSeries) (s e : Timestamp) : SeriesSampleIterator :=
  si_new (chunks t) (series_is_empty t) s e false.

Definition series_iter (t : TimeSeries) : SeriesSampleIterator :=
  range_iter t (series_first t) (series_last_timestamp t).

Definition visible_first_timestamp (t : TimeSeries) : Timestamp :=
  let min_timestamp := get_min_timestamp t in
  if min_timestamp <=? series_first t then series_first t
  else match si_next (range_iter t min_timestamp (series_last_timestamp t)) with
       | Some (s, _) => timestamp s
       | None => series_first t
       end.

Definition visible_total_samples (t : TimeSeries) : Z :=
  let min_timestamp := get_min_timestamp t in
  if min_timestamp <=? series_first t then total_samples t
  else
    let expired :=
      foldr (fun c n =>
        (if last_timestamp c <? min_timestamp then chunk_len c
         else Z.of_nat (length (chunk_range_iter c (first_timestamp c) (min_timestamp - 1)))) + n) 0
        (take_while (fun c => first_timestamp c <? min_timestamp) (chunks t)) in
    sat_usize_sub (total_samples t) expired.

(** ** Deleting a range *)

Definition remove_internal (c : TimeSeriesChunk) (s e : Timestamp) : TsdbResult (Z * TimeSeriesChunk) :=
  if is_contained_by_range c s e then Ok (chunk_len c, chunk_clear c)
  else chunk_remove_range c s e.

(** The chunks of the slice in order, up to the first error.  Several
    compressed chunks are processed in parallel in the source: the count and
    the chunks are the same when every removal succeeds, and after an error
    the source does not determine which of the other chunks were processed. *)
Fixpoint remove_from_chunks (cs : list TimeSeriesChunk) (s e : Timestamp)
    : TsdbResult Z * list TimeSeriesChunk :=
  match cs with
  | [] => (Ok 0, [])
  | c :: cs =>
      match remove_internal c s e with
      | Err err => (Err err, c :: cs)
      | Ok (n, c) =>
          let '(r, cs) := remove_from_chunks cs s e in
          (let? m := r in Ok (n + m), c :: cs)
      end
  end.

(** The part of [remove_range] behind the retention trim. *)
Definition remove_window (t : TimeSeries) (s e : Timestamp) : TsdbResult Z * TimeSeries :=
  match get_chunk_index_bounds t s e with
  | None => (Ok 0, t)
  | Some (start_index, end_index) =>
      let '(r, cs) := remove_from_chunks (slice_incl (chunks t) start_index end_index) s e in
      let t := with_chunks t (take start_index (chunks t) ++ cs ++ drop (S end_index) (chunks t)) in
      match r with
      | Err err => (Err err, t)
      | Ok deleted_samples =>
          let t := with_chunks t (List.filter (fun c => negb (chunk_is_empty c)) (chunks t)) in
          let t := with_total t (sat_usize_sub (total_samples t) deleted_samples) in
          (Ok deleted_samples, update_first_last_timestamps t)
      end
  end.

Definition remove_range (t : TimeSeries) (s e : Timestamp) : TsdbResult Z * TimeSeries :=
  if e <? s then (Ok 0, t)
  else
    let '(trimmed, t) := if retention_is_zero t then (Ok 0, t) else trim t in
    match trimmed with
    | Err err => (Err err, t)
    | Ok _ =>
        let s := if retention_is_zero t then s else Z.max s (get_min_timestamp t) in
        if e <? s then (Ok 0, t) else remove_window t s e
    end.

End Series.
