(* ===== verification/SeriesLaws.v ===== *)
(** * SeriesLaws: the invariant of a series

    What a series stores, as one list of samples ([series_rep]), how far its
    chunks are filled ([chunk_fit]), and how the operations of [TimeSeries] that
    change the chunks act on both. *)

From Stdlib Require Import SpecFloat.
From S2P Require Import Prelude Float64 FloatBounds Types Slice Content Merge ChunkOps.
From S2P Require Import Uncompressed Codec ChunkMethods Elf64 TimeSeriesChunk ChunkSearch SeriesIterator.
From S2P Require Import Rounding TimeSeries.

(** The sizes a chunk may be configured with. *)
Definition budget_ok (n : Z) : Prop := MIN_CHUNK_SIZE <= n <= MAX_CHUNK_SIZE.

Definition budget_okb (n : Z) : bool := (MIN_CHUNK_SIZE <=? n) && (n <=? MAX_CHUNK_SIZE).

Lemma budget_elements n : budget_ok n -> 3 <= n / SAMPLE_SIZE.
Proof.
  unfold budget_ok, MIN_CHUNK_SIZE, SAMPLE_SIZE. intros Hn. apply Z.div_le_lower_bound; lia.
Qed.

Section Fit.

Context `{Log10}.

(** The number of samples an uncompressed chunk takes by appending. *)
Definition capacity (c : TimeSeriesChunk) : option Z :=
  match c with UncompressedVariant u => Some (max_elements u) | _ => None end.

(** The configured size is legal, and an uncompressed chunk is not filled to twice
    its capacity, which inserts between stored samples may exceed.  Of the bytes of
    a compressed chunk nothing is said. *)
Definition chunk_fit (c : TimeSeriesChunk) : Prop :=
  budget_ok (chunk_max_size c) /\
  match capacity c with
  | Some m => m = chunk_max_size c / SAMPLE_SIZE /\ chunk_len c < 2 * m
  | None => True
  end.

Lemma chunk_new_fit e n : budget_ok n -> chunk_fit (chunk_new e n).
Proof.
  intros Hn. split; [by rewrite chunk_new_max_size|]. destruct e; cbn; [|done|done].
  split; [done|]. unfold u_len. cbn. pose proof (budget_elements n Hn). lia.
Qed.

Lemma chunk_new_not_full e n : budget_ok n -> chunk_is_full (chunk_new e n) = false.
Proof.
  intros Hn. pose proof (chunk_new_fit e n Hn) as [_ Hf]. unfold budget_ok, MIN_CHUNK_SIZE in Hn.
  destruct e; cbn in Hf |- *.
  - destruct Hf as [_ Hf]. unfold u_is_full, u_len in *. cbn in *. apply Z.leb_gt. lia.
  - pose proof (holds_size _ _ (chunk_new_holds EncGorilla n)) as Hs. cbn in Hs.
    unfold cc_is_full. apply Z.leb_gt. cbn in Hs |- *. lia.
  - pose proof (holds_size _ _ (chunk_new_holds EncChimp n)) as Hs. cbn in Hs.
    unfold cc_is_full. apply Z.leb_gt. cbn in Hs |- *. lia.
Qed.

(** *** No operation changes the capacity *)

Lemma dispatch_mut_capacity {A} c (f : forall C, ChunkOps C -> C -> TsdbResult (A * C)) a c' :
  (forall u u', f _ Uncompressed_ops u = Ok (a, u') -> max_elements u' = max_elements u) ->
  dispatch_mut c f = Ok (a, c') -> capacity c' = capacity c.
Proof.
  intros Hf. destruct c as [u|u|u]; cbn [dispatch_mut]; unfold wrap_chunk;
    destruct (f _ _ u) as [[a' u']|] eqn:E; try done; intros Heq%ok_inj; injection Heq as -> <-; [|done|done].
  cbn. by rewrite (Hf u u').
Qed.

Lemma capacity_add c s c' : chunk_add_sample c s = Ok c' -> capacity c' = capacity c.
Proof.
  cbn. unfold drop_unit. destruct (dispatch_mut c _) as [[[] c1]|] eqn:E; [|done]. intros <-%ok_inj.
  apply dispatch_mut_capacity in E; [done|]. intros u u'. cbn. unfold u_add_sample.
  destruct (u_is_full u); [done|]. cbn. intros Heq%ok_inj. by injection Heq as <-.
Qed.

Lemma u_drained_capacity u s e : max_elements (u_drained u s e) = max_elements u.
Proof. unfold u_drained. by repeat case_match. Qed.

Lemma capacity_remove c s e n c' : chunk_remove_range c s e = Ok (n, c') -> capacity c' = capacity c.
Proof.
  apply dispatch_mut_capacity. intros u u'. cbn. unfold u_remove_range. intros Heq%ok_inj.
  injection Heq as _ <-. apply u_drained_capacity.
Qed.

Lemma handle_insert_capacity u s p u' : handle_insert u s p = Ok u' -> max_elements u' = max_elements u.
Proof.
  unfold handle_insert. destruct (get_sample_index _ _) as [i []].
  - destruct (samples u !! i); [|by intros <-%ok_inj].
    destruct (duplicate_value _ _ _ _); [|done]. by intros <-%ok_inj.
  - destruct (_ <? _)%nat; by intros <-%ok_inj.
Qed.

Lemma capacity_upsert c s p n c' : chunk_upsert_sample c s p = Ok (n, c') -> capacity c' = capacity c.
Proof.
  apply dispatch_mut_capacity. intros u u'. cbn. unfold u_upsert_sample, u_add_sample.
  destruct (list.last (samples u)) as [x|].
  - destruct (_ <? _).
    + destruct (u_is_full u); [done|]. intros Heq%ok_inj. by injection Heq as _ <-.
    + destruct (handle_insert u s p) as [u1|] eqn:E; [|done]. intros Heq%ok_inj. injection Heq as _ <-.
      by eapply handle_insert_capacity.
  - intros Heq%ok_inj. by injection Heq as _ <-.
Qed.

Lemma capacity_split c c1 c2 :
  chunk_split c = Ok (c1, c2) -> capacity c1 = capacity c /\ capacity c2 = capacity c.
Proof.
  destruct c as [u|u|u]; cbn [chunk_split TimeSeriesChunk_ops tc_split];
    destruct (chunk_split u) as [[a b]|] eqn:E; try done; intros Heq%ok_inj; injection Heq as <- <-; [|done|done].
  revert E. cbn. unfold u_split. destruct (samples u) as [|x [|y l]]; intros Heq%ok_inj; by injection Heq as <- <-.
Qed.

Lemma capacity_clear c : capacity (chunk_clear c) = capacity c.
Proof. by destruct c. Qed.

(** *** Staying below twice the capacity *)

Lemma chunk_fit_keep c c' :
  chunk_fit c -> capacity c' = capacity c -> chunk_max_size c' = chunk_max_size c ->
  chunk_len c' <= chunk_len c -> chunk_fit c'.
Proof.
  intros [Hb Hf] Hc Hm Hl. unfold chunk_fit. rewrite Hc, Hm. split; [done|].
  destruct (capacity c); [lia|done].
Qed.

(** A condition on chunks that losing samples cannot break. *)
Class Shrinks (P : TimeSeriesChunk -> Prop) : Prop :=
  shrinks c c' : P c -> capacity c' = capacity c -> chunk_max_size c' = chunk_max_size c ->
    chunk_len c' <= chunk_len c -> P c'.

#[export] Instance chunk_fit_shrinks : Shrinks chunk_fit.
Proof. intros c c'. apply chunk_fit_keep. Qed.

(** The legal size alone, which bulk ingest keeps too. *)
Definition chunk_budget (c : TimeSeriesChunk) : Prop := budget_ok (chunk_max_size c).

#[export] Instance chunk_budget_shrinks : Shrinks chunk_budget.
Proof. intros c c' Hb _ Hm _. unfold chunk_budget. by rewrite Hm. Qed.

Lemma full_capacity c m : capacity c = Some m -> chunk_is_full c = (m <=? chunk_len c).
Proof. destruct c as [u|u|u]; cbn; [|done|done]. by intros [= <-]. Qed.

Lemma chunk_size_capacity c m : capacity c = Some m -> chunk_size c = chunk_len c * SAMPLE_SIZE.
Proof. by destruct c. Qed.

(** A chunk one short of twice its capacity is split before an insert. *)
Lemma chunk_fit_grow c c' :
  chunk_fit c -> should_split c = false -> capacity c' = capacity c ->
  chunk_max_size c' = chunk_max_size c -> chunk_len c' <= chunk_len c + 1 -> chunk_fit c'.
Proof.
  intros [Hb Hf] Hs Hc Hm Hl. unfold chunk_fit. rewrite Hc, Hm. split; [done|].
  destruct (capacity c) as [m|] eqn:Ec; [|done]. destruct Hf as [Em Hlt]. split; [done|].
  destruct (Z.lt_ge_cases (chunk_len c') (2 * m)) as [|Hge]; [done|exfalso].
  unfold should_split, utilization in Hs. unfold budget_ok, MIN_CHUNK_SIZE, MAX_CHUNK_SIZE, SAMPLE_SIZE in *.
  pose proof (Z.div_mod (chunk_max_size c) 16 ltac:(lia)). pose proof (Z.mod_pos_bound (chunk_max_size c) 16 ltac:(lia)).
  destruct (Z.eqb_spec (chunk_max_size c) 0); [lia|].
  rewrite ratio_above in Hs; [done|by vm_compute|by vm_compute|..].
  - rewrite (chunk_size_capacity _ _ Ec). unfold SAMPLE_SIZE. lia.
  - lia.
  - rewrite (chunk_size_capacity _ _ Ec). unfold SAMPLE_SIZE.
    assert (sval SPLIT_FACTOR * 2 ^ 10 <= 1229 * 2 ^ 1074) as Hf by (vm_compute; discriminate).
    assert (0 < 2 ^ 1074) as HX by (apply Z.pow_pos_nonneg; lia).
    revert Hf HX. generalize (sval SPLIT_FACTOR), (2 ^ 1074). intros S X Hf HX.
    assert (3 <= m) as Hm3 by lia.
    assert (1229 * chunk_max_size c * 2 ^ 40 <= chunk_len c * 16 * 2 ^ 10 * (2 ^ 40 - 1)) as Hr by lia.
    apply (Z.mul_le_mono_pos_r _ _ (2 ^ 10)); [done|].
    revert Hr Hb. clear - Hf HX. generalize (chunk_max_size c), (chunk_len c). intros M L Hr Hb.
    transitivity (1229 * X * (M * 2 ^ 40)).
    + pose proof (Z.mul_le_mono_nonneg_r _ _ (M * 2 ^ 40) ltac:(lia) Hf). lia.
    + pose proof (Z.mul_le_mono_nonneg_r _ _ X ltac:(lia) Hr). lia.
Qed.

(** A chunk to be split holds two samples at least: one is at most 20 bytes. *)
Lemma should_split_len (c : TimeSeriesChunk) l :
  holds c l -> budget_ok (chunk_max_size c) -> should_split c = true -> (2 <= length l)%nat.
Proof.
  intros Hh Hb Hs. destruct (Nat.lt_ge_cases (length l) 2) as [Hlt|]; [exfalso|done].
  pose proof (holds_size _ _ Hh) as Hsz. unfold should_split, utilization in Hs.
  unfold budget_ok, MIN_CHUNK_SIZE, MAX_CHUNK_SIZE in Hb.
  destruct (Z.eqb_spec (chunk_max_size c) 0); [lia|].
  assert (2 ^ 1074 <= sval SPLIT_FACTOR) as Hf by (vm_compute; discriminate).
  assert (0 < 2 ^ 1074) as HX by (apply Z.pow_pos_nonneg; lia).
  destruct (Z.eq_dec (chunk_size c) 0) as [E|].
  - rewrite E in Hs. assert (0 < chunk_max_size c < 2 ^ 53) as HM by lia. destruct (f64_of_usize_exact _ HM) as [_ Hy].
    change (f64_of_usize 0) with f64_zero in Hs. unfold f64_div in Hs.
    change (f64_spec f64_zero) with (S754_zero false) in Hs. unfold sval in Hy.
    destruct (f64_spec (f64_of_usize _)) as [| | |[] m e]; try lia. by vm_compute in Hs.
  - rewrite ratio_below in Hs; [done|by vm_compute|lia|lia|lia|].
    revert Hf HX. generalize (sval SPLIT_FACTOR), (2 ^ 1074). intros S X Hf HX.
    revert Hb Hsz. generalize (chunk_max_size c), (chunk_size c). intros M L Hb Hsz.
    apply (Z.lt_le_trans _ (X * M)); [nia|]. apply Z.mul_le_mono_nonneg_r; lia.
Qed.

(** An upsert into a compressed chunk, or one with room, never fails for want
    of space. *)
Lemma upsert_room c l s p :
  holds c l -> sample_valid s ->
  (appends l s -> forall m, capacity c = Some m -> chunk_is_full c = false) ->
  match list_upsert p s l with
  | Ok l' => exists c', chunk_upsert_sample c s p = Ok (Z.of_nat (length l'), c') /\
      holds c' l' /\ chunk_max_size c' = chunk_max_size c /\ capacity c' = capacity c
  | Err e => chunk_upsert_sample c s p = Err e
  end.
Proof.
  intros Hh Hs Hf.
  assert (match list_upsert p s l with
    | Ok l' => exists c', chunk_upsert_sample c s p = Ok (Z.of_nat (length l'), c') /\
        holds c' l' /\ chunk_max_size c' = chunk_max_size c
    | Err e => chunk_upsert_sample c s p = Err e
    end) as Hu.
  { destruct c as [u|u|u].
    - apply holds_upsert; [done|done|]. intros Ha. by eapply Hf.
    - pose proof (cc_upsert_law u l s p Hh Hs) as Hu. cbn [chunk_upsert_sample TimeSeriesChunk_ops dispatch_mut].
      cbn. destruct (list_upsert p s l); [destruct Hu as (c' & -> & H1 & H2)|by rewrite Hu].
      by exists (GorillaVariant c').
    - pose proof (cc_upsert_law u l s p Hh Hs) as Hu. cbn [chunk_upsert_sample TimeSeriesChunk_ops dispatch_mut].
      cbn. destruct (list_upsert p s l); [destruct Hu as (c' & -> & H1 & H2)|by rewrite Hu].
      by exists (ChimpVariant c'). }
  destruct (list_upsert p s l); [|done]. destruct Hu as (c' & E & H1 & H2). exists c'. split_and!; try done.
  by eapply capacity_upsert.
Qed.

End Fit.

(** ** The invariant *)

Definition first_of (l : list Sample) : Timestamp := match l with [] => 0 | x :: _ => timestamp x end.

(** The settings of a series, which no operation changes. *)
Definition settings (t : TimeSeries) :=
  (retention t, sample_duplicates t, chunk_encoding t, rounding t, chunk_size_bytes t).

(** The milliseconds of the retention fit an [i64]. *)
Definition settings_ok (t : TimeSeries) : Prop :=
  budget_ok (chunk_size_bytes t) /\ 0 <= retention t < 2 ^ 63 * 1000000.

Section Series.

Context `{Log10} `{ServerConfig}.

(** The chunks hold [ls], one non-empty list each, in time order, and satisfy
    [P]; the cached count, first timestamp and last sample are those of the
    content. *)
Record series_rep (P : TimeSeriesChunk -> Prop) (t : TimeSeries) (ls : list (list Sample)) : Prop := {
  sr_layout : layout (chunks t) ls;
  sr_fit : Forall P (chunks t);
  sr_total : total_samples t = Z.of_nat (length (concat ls));
  sr_first : series_first t = first_of (concat ls);
  sr_last : last_sample t = list.last (concat ls);
  sr_settings : settings_ok t;
}.


#[global] Arguments sr_layout {P} t ls _.
#[global] Arguments sr_fit {P} t ls _.
#[global] Arguments sr_total {P} t ls _.
#[global] Arguments sr_first {P} t ls _.
#[global] Arguments sr_last {P} t ls _.
#[global] Arguments sr_settings {P} t ls _.

(** The series stores the samples [l], in chunks satisfying [P]. *)
Definition stores (P : TimeSeriesChunk -> Prop) (t : TimeSeries) (l : list Sample) : Prop :=
  exists ls, series_rep P t ls /\ concat ls = l.

Lemma stores_content {P} t l : stores P t l -> content_ok l.
Proof. intros (ls & [(_ & _ & Hc)] & <-). done. Qed.

Lemma settings_eq t t' : settings t' = settings t -> settings_ok t -> settings_ok t'.
Proof. unfold settings, settings_ok. intros [= -> _ _ _ ->]. done. Qed.

Lemma first_of_app l1 l2 : l1 <> [] -> first_of (l1 ++ l2) = first_of l1.
Proof. by destruct l1. Qed.

Lemma concat_empty (ls : list (list Sample)) : Forall (fun l => l <> []) ls -> concat ls = [] -> ls = [].
Proof. destruct 1 as [|l ls Hl]; [done|]. cbn. by intros [? _]%app_eq_nil. Qed.

Lemma layout_first (cs : list TimeSeriesChunk) ls :
  layout cs ls -> match cs with c :: _ => first_timestamp c | [] => 0 end = first_of (concat ls).
Proof.
  intros HL. destruct cs as [|c cs]; [by rewrite (layout_nil_inv _ HL)|].
  apply layout_cons_inv in HL as (l & ls' & -> & (Hh & Hl & _)%layout_cons). cbn [concat].
  rewrite first_of_app by done. destruct l; [done|]. by rewrite (holds_first _ _ _ Hh).
Qed.

Lemma layout_last (cs : list TimeSeriesChunk) ls :
  layout cs ls -> match list.last cs with Some c => chunk_last_sample c | None => None end = list.last (concat ls).
Proof.
  intros HL. destruct cs as [|c cs _] using rev_ind; [by rewrite (layout_nil_inv _ HL)|].
  rewrite last_snoc. apply layout_app_inv in HL as (ls1 & ls2 & -> & Hlen & (_ & HL & _)%layout_app); [|done].
  apply layout_cons_inv in HL as (l & ls' & -> & (Hh & Hl & HL & _)%layout_cons).
  rewrite (layout_nil_inv _ HL). rewrite concat_app. cbn [concat]. rewrite app_nil_r, last_app.
  rewrite (holds_last_sample _ _ Hh). destruct (snoc_cases l Hl) as (l' & x & ->). by rewrite last_snoc.
Qed.

Lemma layout_total (cs : list TimeSeriesChunk) ls :
  layout cs ls -> foldr (fun c n => chunk_len c + n) 0 cs = Z.of_nat (length (concat ls)).
Proof.
  intros [Hh _]. induction Hh as [|c l cs ls Hc Hh IH]; [done|]. cbn [foldr concat].
  rewrite IH, (holds_len _ _ Hc), length_app. lia.
Qed.

(** Recomputing both ends of the right chunks and count gives the invariant. *)
Lemma update_ends_rep {P} t ls :
  layout (chunks t) ls -> Forall P (chunks t) -> total_samples t = Z.of_nat (length (concat ls)) ->
  settings_ok t ->
  series_rep P (update_first_last_timestamps t) ls /\ settings (update_first_last_timestamps t) = settings t.
Proof.
  intros HL Hf Ht Hs. pose proof (layout_first _ _ HL) as H1. pose proof (layout_last _ _ HL) as H2.
  unfold update_first_last_timestamps, update_last_sample.
  destruct (chunks t) as [|c cs] eqn:Ec; cbn [chunks with_first with_last]; rewrite ?Ec;
    [cbn [list.last] in *|destruct (list.last (c :: cs)) eqn:El];
    (split; [split; cbn; rewrite ?Ec; done|done]).
Qed.

Lemma rep_empty {P} t ls : series_rep P t ls -> series_is_empty t = match chunks t with [] => true | _ => false end.
Proof.
  intros Hr. unfold series_is_empty, series_len. rewrite (sr_total _ _ Hr). pose proof (sr_layout _ _ Hr) as HL.
  destruct (chunks t) as [|c cs]; [by rewrite (layout_nil_inv _ HL)|].
  apply layout_cons_inv in HL as (l & ls' & -> & (_ & Hl & _)%layout_cons). cbn [concat].
  rewrite length_app. destruct l; [done|]. cbn [length]. apply Z.eqb_neq. lia.
Qed.

(** ** Appending *)

Lemma make_sample_valid t ts v : 0 <= ts < 2 ^ 63 -> is_f64 v -> sample_valid (make_sample t ts v).
Proof.
  intros Hts Hv. assert (is_f64 (adjust_value t v)) as Ha.
  { unfold adjust_value. destruct (rounding t); [by apply round_range|done]. }
  split; [split|]; cbn; [ilia|done|lia].
Qed.

Lemma record_appended_rep {P} t ls s cs ls' :
  series_rep P t ls -> layout cs ls' -> Forall P cs -> concat ls' = concat ls ++ [s] ->
  series_rep P (record_appended_sample (with_chunks t cs) s) ls'.
Proof.
  intros [HL Hf Ht H1 H2 Hs] HL' Hf' E. unfold record_appended_sample. cbn [total_samples with_chunks].
  destruct (Z.eqb_spec (total_samples t) 0) as [Hz|Hz]; split; cbn; try done; rewrite ?E, ?length_app, ?last_snoc;
    cbn [length]; try done; try lia.
  - by destruct (concat ls); [|cbn in Ht; lia].
  - rewrite first_of_app; [done|]. intros Hn. rewrite Hn in Ht. cbn in Ht. lia.
Qed.

Lemma fresh_chunk_add t s :
  settings_ok t -> sample_valid s ->
  exists c, chunk_add_sample (create_chunk t) s = Ok c /\ holds c [s] /\ chunk_fit c.
Proof.
  intros [Hb _] Hs. unfold create_chunk. set (c0 := chunk_new _ _).
  destruct (holds_add c0 [] s (chunk_new_holds _ _) Hs ltac:(constructor) (chunk_new_not_full _ _ Hb)) as (c & E & Hh & Hm).
  exists c. split_and!; [done|done|]. pose proof (chunk_new_fit (chunk_encoding t) _ Hb) as [Hb' Hf].
  fold c0 in Hb', Hf. unfold chunk_fit. rewrite Hm, (capacity_add _ _ _ E), (holds_len _ _ Hh). split; [done|].
  destruct (capacity c0) as [m|] eqn:Ec; [|done]. destruct Hf as [-> _]. split; [done|].
  pose proof (budget_elements _ Hb'). cbn [app length]. lia.
Qed.

Lemma layout_snoc (cs : list TimeSeriesChunk) ls c s :
  layout cs ls -> holds c [s] -> appends (concat ls) s -> layout (cs ++ [c]) (ls ++ [[s]]).
Proof.
  intros HL Hh Ha. apply layout_app; [by apply layout_length|]. split_and!; [done| |].
  - apply layout_cons. split_and!; [done|done|apply layout_nil|]. cbn. fora.
  - cbn. eapply Forall_impl; [exact Ha|]. intros x Hx. fora.
Qed.

Lemma handle_full_spec t ls s :
  series_rep chunk_fit t ls -> sample_valid s -> appends (concat ls) s ->
  exists t', handle_full_chunk t s = (AddOk s, t') /\ series_rep chunk_fit t' (ls ++ [[s]]) /\ settings t' = settings t.
Proof.
  intros Hr Hs Ha. pose proof Hr as [HL Hf Ht H1 H2 Hset]. unfold handle_full_chunk, add_chunk_with_sample, seal_chunk.
  set (t1 := match list.last (chunks t) with Some _ => _ | None => t end).
  assert (t1 = t) as ->.
  { unfold t1, set_last_chunk. destruct (list.last (chunks t)) as [c|] eqn:El; [|done].
    rewrite last_lookup in El. rewrite list_insert_id; [by destruct t|]. by replace (length (chunks t) - 1)%nat with (pred (length (chunks t))) by lia. }
  destruct (fresh_chunk_add t s Hset Hs) as (c & -> & Hh & Hfc). eexists. split; [done|]. split; [|].
  - apply (record_appended_rep t ls); [done|by apply layout_snoc|by apply Forall_app; split; fora|].
    rewrite concat_app. done.
  - unfold record_appended_sample. by case_match.
Qed.

Lemma insert_last {A} (l : list A) x y : <[(length (l ++ [x]) - 1)%nat := y]> (l ++ [x]) = l ++ [y].
Proof.
  rewrite length_app. cbn [length]. replace (length l + 1 - 1)%nat with (length l + 0)%nat by lia.
  by rewrite insert_app_r.
Qed.

Lemma record_appended_settings t s : settings (record_appended_sample t s) = settings t.
Proof. unfold record_appended_sample. by case_match. Qed.

(** Appending to a chunk in place keeps the layout. *)
Lemma layout_grow_last (cs : list TimeSeriesChunk) c c' ls l s :
  layout (cs ++ [c]) (ls ++ [l]) -> length cs = length ls -> holds c' (l ++ [s]) ->
  appends (concat (ls ++ [l])) s -> layout (cs ++ [c']) (ls ++ [l ++ [s]]).
Proof.
  intros HL Hlen Hh Ha. rewrite concat_app in Ha. apply Forall_app in Ha as [Ha1 _].
  apply layout_app in HL as (HLa & _ & Hlt); [|done]. apply layout_app; [done|]. split_and!; [done| |].
  - apply layout_cons. split_and!; [done|by destruct l|apply layout_nil|]. apply Forall_true. intros; constructor.
  - cbn [concat] in *. rewrite app_nil_r in *. apply Forall_forall. intros x Hx. apply Forall_app.
    rewrite Forall_forall in Hlt, Ha1. split; [by apply Hlt|]. fora. by apply Ha1.
Qed.

Lemma chunk_fit_add c c' l s :
  chunk_fit c -> chunk_is_full c = false -> holds c l -> chunk_add_sample c s = Ok c' ->
  holds c' (l ++ [s]) -> chunk_max_size c' = chunk_max_size c -> chunk_fit c'.
Proof.
  intros [Hb Hcap] Hfull Hh E Hh' Hm. unfold chunk_fit.
  rewrite Hm, (capacity_add _ _ _ E), (holds_len _ _ Hh'). split; [done|].
  destruct (capacity c) as [m|] eqn:Em; [|done]. rewrite (full_capacity _ _ Em), (holds_len _ _ Hh) in Hfull.
  rewrite length_app. cbn [length]. pose proof (budget_elements _ Hb). lia.
Qed.

Lemma concat_snoc (ls : list (list Sample)) l : concat (ls ++ [l]) = concat ls ++ l.
Proof. rewrite concat_app. cbn [concat]. by rewrite app_nil_r. Qed.

Lemma add_internal_spec t ls s :
  series_rep chunk_fit t ls -> sample_valid s -> appends (concat ls) s ->
  exists t' ls', add_sample_internal t s = (AddOk s, t') /\ series_rep chunk_fit t' ls' /\
    concat ls' = concat ls ++ [s] /\ settings t' = settings t.
Proof.
  intros Hr Hs Ha. pose proof Hr as [HL Hf Ht H1 H2 Hset]. unfold add_sample_internal, get_last_chunk.
  destruct (chunks t) as [|c cs _] eqn:Ec using rev_ind.
  - destruct (fresh_chunk_add t s Hset Hs) as (c & E & Hh & Hfc). unfold append_chunk. rewrite Ec. cbn [app].
    cbn [chunks with_chunks list.last default]. unfold id, from_option.
    change (create_chunk (with_chunks t _)) with (create_chunk t).
    unfold create_chunk at 1. rewrite chunk_new_not_full by apply Hset. rewrite E. exists (record_appended_sample (with_chunks t [c]) s), (ls ++ [[s]]).
    split; [done|]. split; [|split; [apply concat_snoc|by rewrite record_appended_settings]].
    apply (record_appended_rep t ls); [done| |by fora|apply concat_snoc].
    rewrite (layout_nil_inv _ HL). apply (layout_snoc [] []); [apply layout_nil|done|constructor].
  - replace (match cs ++ [c] with [] => append_chunk t | _ => t end) with t by (by destruct cs).
    rewrite Ec, last_snoc. cbn [default]. unfold id, from_option. destruct (chunk_is_full c) eqn:Efull.
    { destruct (handle_full_spec t ls s Hr Hs Ha) as (t' & E & Hr' & Hset'). exists t', (ls ++ [[s]]).
      split_and!; try done. apply concat_snoc. }
    apply layout_app_inv in HL as (ls1 & ls2 & -> & Hlen & HL).
    pose proof HL as (_ & HLb & _)%layout_app; [|done].
    apply layout_cons_inv in HLb as (l & ls' & -> & (Hh & Hl & HLn & _)%layout_cons).
    apply layout_nil_inv in HLn as ->. pose proof Ha as Ha'. rewrite concat_snoc in Ha'.
    apply Forall_app in Ha' as [_ Ha2]. destruct (holds_add c l s Hh Hs Ha2 Efull) as (c' & E & Hh' & Hm). rewrite E.
    exists (record_appended_sample (set_last_chunk t c') s), (ls1 ++ [l ++ [s]]). split; [done|].
    assert (concat (ls1 ++ [l ++ [s]]) = concat (ls1 ++ [l]) ++ [s]) as Ecat by (by rewrite !concat_snoc, app_assoc).
    split; [|split; [done|by rewrite record_appended_settings]].
    unfold set_last_chunk. rewrite Ec, insert_last. apply Forall_app in Hf as [Hfa [Hfc _]%Forall_cons].
    apply (record_appended_rep t (ls1 ++ [l])); [done|by eapply layout_grow_last| |done].
    apply Forall_app. split; [done|]. fora. by eapply chunk_fit_add.
Qed.

(** ** Inserting *)

(** [c] at [i] is the chunk for [ts]: everything before it is older and
    everything after it newer. *)
Record located (cs : list TimeSeriesChunk) (ls : list (list Sample)) (i : nat) (ts : Timestamp)
    cs1 c cs2 ls1 l ls2 : Prop := {
  loc_chunks : cs = cs1 ++ c :: cs2;
  loc_content : ls = ls1 ++ l :: ls2;
  loc_index : length cs1 = i;
  loc_length : length cs1 = length ls1;
  loc_holds : holds c l;
  loc_before : Forall (fun x => timestamp x < ts) (concat ls1);
  loc_after : Forall (fun x => ts < timestamp x) (concat ls2);
}.

Lemma locate cs ls i c ts :
  layout cs ls -> cs !! i = Some c ->
  (forall j d, (j < i)%nat -> cs !! j = Some d -> last_timestamp d < ts) ->
  (forall j d, (i < j)%nat -> cs !! j = Some d -> ts < first_timestamp d) ->
  exists l, located cs ls i ts (take i cs) c (drop (S i) cs) (take i ls) l (drop (S i) ls).
Proof.
  intros HL Hi Hb Ha. destruct (layout_lookup _ _ _ _ HL Hi) as (l & Hl & Hh & _).
  pose proof (layout_length _ _ HL) as Hlen. pose proof (lookup_lt_Some _ _ _ Hi). exists l.
  pose proof HL as (HF & _ & _). split; try done.
  - by rewrite take_drop_middle.
  - by rewrite take_drop_middle.
  - rewrite length_take. lia.
  - rewrite !length_take. lia.
  - apply Forall_forall. intros x (k & [j Hj]%list_elem_of_lookup & Hx)%elem_of_concat.
    apply lookup_take_Some in Hj as [Hj Hji]. destruct (Forall2_lookup_r _ _ _ _ _ HF Hj) as (d & Hd & Hdl).
    pose proof (holds_bounds _ _ Hdl) as Hbd. rewrite Forall_forall in Hbd. specialize (Hbd x Hx). cbn beta in Hbd.
    specialize (Hb j d Hji Hd). lia.
  - apply Forall_forall. intros x (k & [j Hj]%list_elem_of_lookup & Hx)%elem_of_concat.
    rewrite lookup_drop in Hj. destruct (Forall2_lookup_r _ _ _ _ _ HF Hj) as (d & Hd & Hdl).
    pose proof (holds_bounds _ _ Hdl) as Hbd. rewrite Forall_forall in Hbd. specialize (Hbd x Hx). cbn beta in Hbd.
    specialize (Ha (S i + j)%nat d ltac:(lia) Hd). lia.
Qed.

Lemma located_upsert cs ls i s cs1 c cs2 ls1 l ls2 p :
  located cs ls i (timestamp s) cs1 c cs2 ls1 l ls2 ->
  list_upsert p s (concat ls) = (let? l' := list_upsert p s l in Ok (concat ls1 ++ l' ++ concat ls2)).
Proof.
  intros [_ -> _ _ _ Hb Ha]. rewrite concat_app. cbn [concat].
  rewrite list_upsert_app_l, list_upsert_app_r by done. by destruct (list_upsert p s l).
Qed.

(** Chunks in the place of one. *)
Lemma layout_replace cs ls i ts cs1 c cs2 ls1 l ls2 mid mls :
  layout cs ls -> located cs ls i ts cs1 c cs2 ls1 l ls2 ->
  Forall2 holds mid mls -> Forall (fun l => l <> []) mls ->
  content_ok (concat ls1 ++ concat mls ++ concat ls2) ->
  layout (cs1 ++ mid ++ cs2) (ls1 ++ mls ++ ls2).
Proof.
  intros (HF & HN & _) [-> -> _ Hlen _ _ _] Hm Hn Hc.
  apply Forall2_app_inv in HF as [HF1 [HFc HF2]%Forall2_cons]; [|done].
  apply Forall_app in HN as [HN1 [_ HN2]%Forall_cons].
  split_and!; [by repeat apply Forall2_app|by repeat (apply Forall_app; split)|by rewrite !concat_app].
Qed.

Lemma rep_last_chunk {P} t ls x :
  series_rep P t ls -> list.last (concat ls) = Some x ->
  exists cs c, chunks t = cs ++ [c] /\ last_timestamp c = timestamp x.
Proof.
  intros Hr Hx. pose proof (layout_last _ _ (sr_layout _ _ Hr)) as El. rewrite Hx in El.
  destruct (chunks t) as [|c cs _] using rev_ind; [done|]. rewrite last_snoc in El. exists cs, c. split; [done|].
  revert El. unfold chunk_last_sample. destruct (chunk_is_empty c); [done|]. by intros [= <-].
Qed.

Definition target_of (t : TimeSeries) (ts : Timestamp) : nat :=
  if ts <=? series_first t then O else upsert_target t ts.

Lemma target_spec {P} t ls ts x :
  series_rep P t ls -> list.last (concat ls) = Some x -> ts <= timestamp x ->
  exists c l, chunks t !! target_of t ts = Some c /\ ts <= last_timestamp c /\
    located (chunks t) ls (target_of t ts) ts (take (target_of t ts) (chunks t)) c
      (drop (S (target_of t ts)) (chunks t)) (take (target_of t ts) ls) l (drop (S (target_of t ts)) ls).
Proof.
  intros Hr Hx Hle. pose proof (sr_layout _ _ Hr) as HL.
  assert (exists c, chunks t !! target_of t ts = Some c /\ ts <= last_timestamp c /\
    (forall j d, (j < target_of t ts)%nat -> chunks t !! j = Some d -> last_timestamp d < ts) /\
    (forall j d, (target_of t ts < j)%nat -> chunks t !! j = Some d -> ts < first_timestamp d))
    as (c & Hc & Hcl & Hb & Ha).
  2: { destruct (locate _ _ _ _ _ HL Hc Hb Ha) as (l & Hl). by exists c, l. }
  unfold target_of. destruct (Z.leb_spec ts (series_first t)) as [Hf|Hf].
  { destruct (rep_last_chunk _ _ _ Hr Hx) as (cs' & c' & E & _). pose proof (layout_first _ _ HL) as H1.
    rewrite (sr_first _ _ Hr), <- H1 in Hf. destruct (chunks t) as [|c cs] eqn:Ec; [by destruct cs'|].
    pose proof (layout_ends _ _ O c HL eq_refl). exists c. split_and!; [done|lia|intros; lia|].
    intros j d Hj Hd. pose proof (layout_ordered _ _ 0 j c d HL Hj eq_refl Hd). lia. }
  unfold upsert_target. pose proof (get_chunk_index_spec _ _ ts HL) as Hg.
  destruct (get_chunk_index (chunks t) ts) as [i []].
  { destruct Hg as (c & Hc & Hin). exists c. split_and!; [done|lia|..]; intros j d Hj Hd.
    - pose proof (layout_ordered _ _ _ _ _ _ HL Hj Hd Hc). lia.
    - pose proof (layout_ordered _ _ _ _ _ _ HL Hj Hc Hd). lia. }
  destruct (position _ (chunks t)) as [k|] eqn:Ep; cbn [default]; unfold id, from_option.
  - apply position_Some in Ep as [(c & Hc & Hp) Hbef]. cbv beta in Hp. pose proof (layout_ends _ _ _ _ HL Hc).
    exists c. split_and!; [done|lia|..]; intros j d Hj Hd.
    + specialize (Hbef j d Hj Hd). cbv beta in Hbef. destruct (Hg d); [by eapply list_elem_of_lookup_2|lia|done].
    + pose proof (layout_ordered _ _ _ _ _ _ HL Hj Hc Hd). lia.
  - exfalso. destruct (rep_last_chunk _ _ _ Hr Hx) as (cs' & c' & E & Hlast).
    assert (c' ∈ chunks t) as Hin by (rewrite E; apply elem_of_app; right; by left).
    apply (position_None _ _ c') in Ep; [|done]. cbv beta in Ep. destruct (Hg c' Hin); lia.
Qed.

Lemma duplicate_value_err p ts a b e : duplicate_value p ts a b = Err e -> exists m, e = DuplicateSample m.
Proof. unfold duplicate_value. repeat case_match; intros Heq; try discriminate Heq; injection Heq as <-; eauto. Qed.

Lemma list_upsert_refused p s l e : list_upsert p s l = Err e -> exists m, e = DuplicateSample m.
Proof.
  induction l as [|x l IH]; cbn; [done|]. destruct (_ <? _); [done|]. destruct (_ =? _).
  - destruct (duplicate_value _ _ _ _) eqn:E; [done|]. intros [= <-]. by eapply duplicate_value_err.
  - destruct (list_upsert p s l); [done|]. intros [= <-]. by apply IH.
Qed.

Lemma first_of_upsert p s l l' :
  list_upsert p s l = Ok l' -> l <> [] -> first_of l' = Z.min (timestamp s) (first_of l).
Proof.
  destruct l as [|x l]; [done|]. cbn. intros E _.
  destruct (Z.ltb_spec (timestamp s) (timestamp x)); [apply ok_inj in E as <-; cbn; lia|].
  destruct (_ =? _).
  - destruct (duplicate_value _ _ _ _); [|done]. apply ok_inj in E as <-. cbn. lia.
  - destruct (list_upsert p s l); [|done]. apply ok_inj in E as <-. cbn. lia.
Qed.

Lemma chunk_upsert_spec c l s p :
  holds c l -> sample_valid s ->
  (appends l s -> forall m, capacity c = Some m -> chunk_is_full c = false) ->
  match list_upsert p s l with
  | Ok l' => exists c', chunk_upsert c s p = (Z.of_nat (length l'), AddOk s, c') /\
      holds c' l' /\ chunk_max_size c' = chunk_max_size c /\ capacity c' = capacity c
  | Err _ => chunk_upsert c s p = (0, Duplicate, c)
  end.
Proof.
  intros Hh Hs Hf. pose proof (upsert_room c l s p Hh Hs Hf) as Hu. unfold chunk_upsert.
  destruct (list_upsert p s l) as [l'|e] eqn:E.
  - destruct Hu as (c' & -> & Hr). by exists c'.
  - apply list_upsert_refused in E as [m ->]. by rewrite Hu.
Qed.

Lemma insert_middle {A} (l1 l2 : list A) x y : <[length l1 := y]> (l1 ++ x :: l2) = l1 ++ y :: l2.
Proof. replace (length l1) with (length l1 + 0)%nat at 1 by lia. by rewrite insert_app_r. Qed.

Lemma upsert_grows p s l l' :
  ts_sorted l -> list_upsert p s l = Ok l' -> (length l <= length l' <= length l + 1)%nat.
Proof. intros Hs E. rewrite (list_upsert_length _ _ _ _ Hs E). case_match; lia. Qed.

Lemma upsert_nonempty p s l l' : list_upsert p s l = Ok l' -> l' <> [].
Proof.
  destruct l as [|x l]; cbn; [by intros <-%ok_inj|]. destruct (_ <? _); [by intros <-%ok_inj|].
  destruct (_ =? _); [destruct (duplicate_value _ _ _ _)|destruct (list_upsert p s l)]; try done; by intros <-%ok_inj.
Qed.

(** *** Into a chunk that is not split *)

Lemma located_nonempty cs ls i ts cs1 c cs2 ls1 l ls2 :
  layout cs ls -> located cs ls i ts cs1 c cs2 ls1 l ls2 -> l <> [] /\ concat ls <> [].
Proof.
  intros (_ & HN & _) [_ -> _ _ _ _ _]. apply Forall_app in HN as [_ [Hl _]%Forall_cons]. split; [done|].
  rewrite concat_app. cbn [concat]. destruct l; [done|]. by destruct (concat ls1).
Qed.

(** An upsert in the middle of the content leaves its last sample. *)
Lemma located_last cs ls i ts cs1 c cs2 ls1 l ls2 l' :
  layout cs ls -> located cs ls i ts cs1 c cs2 ls1 l ls2 -> cs2 <> [] ->
  list.last (concat ls1 ++ l' ++ concat ls2) = list.last (concat ls).
Proof.
  intros (HF & HN & _) [-> -> _ Hlen _ _ _] Hc. rewrite concat_app. cbn [concat].
  apply Forall2_app_inv in HF as [_ [_ HF]%Forall2_cons]; [|done].
  apply Forall_app in HN as [_ [_ HN]%Forall_cons].
  destruct HF as [|d k cs2 ls2 _ _]; [done|]. cbn [concat]. apply Forall_cons in HN as [Hk _].
  assert (k ++ concat ls2 <> []) as Hne by (by destruct k).
  destruct (snoc_cases _ Hne) as (m & y & ->). by rewrite !app_assoc, !last_snoc.
Qed.

(** The cached fields after a successful upsert into one chunk. *)
Lemma upsert_fields_rep t ls i s p cs1 c c' cs2 ls1 l l' ls2 n :
  series_rep chunk_fit t ls -> located (chunks t) ls i (timestamp s) cs1 c cs2 ls1 l ls2 ->
  list_upsert p s (concat ls) = Ok (concat ls1 ++ l' ++ concat ls2) ->
  layout (cs1 ++ c' :: cs2) (ls1 ++ l' :: ls2) -> Forall chunk_fit (cs1 ++ c' :: cs2) ->
  total_samples t + n = Z.of_nat (length (concat ls1 ++ l' ++ concat ls2)) ->
  let t2 := with_total (with_chunks t (cs1 ++ c' :: cs2)) (total_samples t + n) in
  let t3 := if (i + 1 =? length (chunks t))%nat then update_last_sample t2 else t2 in
  series_rep chunk_fit (with_first t3 (Z.min (timestamp s) (series_first t3))) (ls1 ++ l' :: ls2).
Proof.
  intros [HL Hf Ht H1 H2 Hset] Hloc Eu HL' Hfit Hn t2 t3. pose proof Hloc as [Ec El Hi Hlen _ _ _].
  destruct (located_nonempty _ _ _ _ _ _ _ _ _ _ HL Hloc) as [_ Hne].
  assert (concat (ls1 ++ l' :: ls2) = concat ls1 ++ l' ++ concat ls2) as Ecat by (by rewrite concat_app).
  pose proof (first_of_upsert _ _ _ _ Eu Hne) as Hfirst. pose proof (layout_last _ _ HL') as Hlast.
  rewrite Ecat in Hlast. subst t3. destruct (Nat.eqb_spec (i + 1) (length (chunks t))) as [Hend|Hend].
  - unfold update_last_sample. cbn [chunks t2 with_total with_chunks].
    destruct (list.last (cs1 ++ c' :: cs2)) eqn:El'; split; cbn; rewrite ?Ecat, ?Hfirst, ?H1; done.
  - split; cbn; rewrite ?Ecat, ?Hfirst, ?H1; try done.
    rewrite (located_last _ _ _ _ _ _ _ _ _ _ l' HL Hloc); [done|].
    intros ->. apply Hend. rewrite Ec, length_app. cbn. lia.
Qed.

Lemma upsert_whole_spec t ls i s p cs1 c cs2 ls1 l ls2 :
  series_rep chunk_fit t ls -> located (chunks t) ls i (timestamp s) cs1 c cs2 ls1 l ls2 ->
  timestamp s <= last_timestamp c -> sample_valid s -> should_split c = false ->
  match list_upsert p s l with
  | Ok l' => exists t', upsert_whole t i c s p = (AddOk s, t') /\ series_rep chunk_fit t' (ls1 ++ l' :: ls2) /\
      settings t' = settings t
  | Err _ => upsert_whole t i c s p = (Duplicate, t)
  end.
Proof.
  intros Hr Hloc Hle Hs Hsp. pose proof Hr as [HL Hf Ht _ _ _]. pose proof Hloc as [Ec El Hi _ Hh _ _].
  destruct (located_nonempty _ _ _ _ _ _ _ _ _ _ HL Hloc) as [Hl _].
  pose proof (holds_content _ _ Hh) as [Hsort _]. unfold upsert_whole.
  assert (appends l s -> forall m, capacity c = Some m -> chunk_is_full c = false) as Happ.
  { intros Happ. exfalso. destruct (holds_ends c l Hh Hl) as (_ & (x & Hx & Hxe) & _).
    unfold appends in Happ. rewrite Forall_forall in Happ. specialize (Happ x Hx). unfold ts_lt in Happ. lia. }
  pose proof (chunk_upsert_spec c l s p Hh Hs Happ) as Hu. destruct (list_upsert p s l) as [l'|e] eqn:E.
  2: { rewrite Hu. cbn [add_is_ok]. rewrite list_insert_id; [by destruct t|]. rewrite Ec, <- Hi. by apply list_lookup_middle. }
  destruct Hu as (c' & -> & Hh' & Hm & Hcap). cbn [add_is_ok].
  pose proof (located_upsert _ _ _ _ _ _ _ _ _ _ p Hloc) as Eu. rewrite E in Eu.
  pose proof (upsert_grows _ _ _ _ Hsort E) as Hg. pose proof (upsert_nonempty _ _ _ _ E) as Hl'.
  eexists. split; [done|]. split; [|by case_match; [unfold update_last_sample; case_match|]].
  assert (<[i := c']> (chunks t) = cs1 ++ c' :: cs2) as -> by (by rewrite Ec, <- Hi, insert_middle).
  eapply (upsert_fields_rep t ls i s p cs1 c c' cs2 ls1 l l' ls2); try done.
  - apply (layout_replace _ _ _ _ _ _ _ _ _ _ [c'] [l'] HL Hloc); [by constructor|by constructor|].
    cbn [concat]. rewrite app_nil_r. eapply content_ok_upsert; [done| |done]. apply HL.
  - rewrite Ec in Hf. apply Forall_app in Hf as [Hf1 [Hfc Hf2]%Forall_cons].
    apply Forall_app. split; [done|]. constructor; [|done].
    eapply chunk_fit_grow; try done. rewrite (holds_len _ _ Hh'), (holds_len _ _ Hh). lia.
  - rewrite Ht, (holds_len _ _ Hh), El, concat_app. cbn [concat]. rewrite !length_app. unfold sat_usize_sub. lia.
Qed.

(** *** Into a chunk that is split first *)

(** The upper half goes right after the lower one. *)
Lemma insert_upper_half (cs1 : list TimeSeriesChunk) c1 c2 cs2 ls :
  layout (cs1 ++ c1 :: c2 :: cs2) ls ->
  let cs := cs1 ++ c1 :: cs2 in
  let i := partition_point (fun c => first_timestamp c <=? first_timestamp c2) cs in
  take i cs ++ c2 :: drop i cs = cs1 ++ c1 :: c2 :: cs2.
Proof.
  intros HL cs i. assert (cs = (cs1 ++ [c1]) ++ cs2) as Ecs by (unfold cs; by rewrite <- app_assoc).
  assert (i = length (cs1 ++ [c1])) as ->.
  2: { by rewrite Ecs, take_app_length, drop_app_length, <- app_assoc. }
  unfold i. rewrite Ecs. change (cs1 ++ c1 :: c2 :: cs2) with (cs1 ++ [c1] ++ c2 :: cs2) in HL.
  rewrite app_assoc in HL. set (a := cs1 ++ [c1]) in *.
  assert ((a ++ c2 :: cs2) !! length a = Some c2) as H2 by (by apply list_lookup_middle).
  apply partition_point_app; apply Forall_lookup; intros j d Hj.
  - pose proof (lookup_lt_Some _ _ _ Hj) as Hlt.
    assert ((a ++ c2 :: cs2) !! j = Some d) as Hd by (by rewrite lookup_app_l).
    pose proof (layout_ordered _ _ _ _ _ _ HL Hlt Hd H2). pose proof (layout_ends _ _ _ _ HL Hd). lia.
  - assert ((a ++ c2 :: cs2) !! (length a + S j)%nat = Some d) as Hd
      by (rewrite lookup_app_r by lia; by replace (length a + S j - length a)%nat with (S j) by lia).
    assert (length a < length a + S j)%nat as Hlt by lia.
    pose proof (layout_ordered _ _ _ _ _ _ HL Hlt H2 Hd). pose proof (layout_ends _ _ _ _ HL H2). lia.
Qed.

Lemma chunk_fit_half c c' :
  chunk_fit c -> capacity c' = capacity c -> chunk_max_size c' = chunk_max_size c ->
  2 * chunk_len c' <= chunk_len c + 3 -> chunk_fit c'.
Proof.
  intros [Hb Hf] Hc Hm Hl. unfold chunk_fit. rewrite Hc, Hm. split; [done|].
  destruct (capacity c); [|done]. destruct Hf as [-> Hf]. pose proof (budget_elements _ Hb). split; [done|]. lia.
Qed.

Lemma chunk_upsert_added (c : TimeSeriesChunk) l s p :
  holds c l -> sample_valid s -> l <> [] ->
  (appends l s -> forall m, capacity c = Some m -> chunk_is_full c = false) ->
  exists size res c' l', chunk_upsert c s p = (size, res, c') /\ holds c' l' /\ l' <> [] /\
    capacity c' = capacity c /\ chunk_max_size c' = chunk_max_size c /\
    sat_usize_sub size (chunk_len c) = Z.of_nat (length l') - Z.of_nat (length l) /\
    (length l' <= length l + 1)%nat /\
    match list_upsert p s l with
    | Ok k => res = AddOk s /\ l' = k
    | Err _ => res = Duplicate /\ l' = l
    end.
Proof.
  intros Hh Hs Hl Hf. pose proof (chunk_upsert_spec c l s p Hh Hs Hf) as Hu.
  pose proof (holds_content _ _ Hh) as [Hsort _]. rewrite (holds_len _ _ Hh).
  destruct (list_upsert p s l) as [k|e] eqn:E.
  - destruct Hu as (c' & -> & Hh' & Hm & Hc). pose proof (upsert_grows _ _ _ _ Hsort E).
    eexists _, _, c', k. split; [done|]. split_and!; try done; [by eapply upsert_nonempty|unfold sat_usize_sub; lia|lia].
  - rewrite Hu. eexists _, _, c, l. split; [done|]. split_and!; try done; [unfold sat_usize_sub; lia|lia].
Qed.

Lemma upsert_halves (c c1 c2 : TimeSeriesChunk) l1 l2 s p :
  chunk_fit c -> holds c (l1 ++ l2) -> length l1 = (length (l1 ++ l2) / 2)%nat -> l1 <> [] -> l2 <> [] ->
  holds c1 l1 -> holds c2 l2 -> sample_valid s -> timestamp s <= last_timestamp c2 ->
  capacity c1 = capacity c -> capacity c2 = capacity c ->
  chunk_max_size c1 = chunk_max_size c -> chunk_max_size c2 = chunk_max_size c ->
  exists added res c1' c2' l1' l2', upsert_half c1 c2 s p = (added, res, c1', c2') /\
    holds c1' l1' /\ holds c2' l2' /\ l1' <> [] /\ l2' <> [] /\ chunk_fit c1' /\ chunk_fit c2' /\
    added = Z.of_nat (length (l1' ++ l2')) - Z.of_nat (length (l1 ++ l2)) /\
    match list_upsert p s (l1 ++ l2) with
    | Ok l' => res = AddOk s /\ l1' ++ l2' = l'
    | Err _ => res = Duplicate /\ l1' ++ l2' = l1 ++ l2
    end.
Proof.
  intros Hfit Hh Hhalf Hn1 Hn2 H1 H2 Hs Hle K1 K2 M1 M2. pose proof (holds_len _ _ Hh) as HLc.
  assert (2 * length l1 <= length (l1 ++ l2) /\ 2 * length l2 <= length (l1 ++ l2) + 1)%nat as [B1 B2].
  { pose proof (Nat.div_mod (length (l1 ++ l2)) 2 ltac:(lia)). pose proof (Nat.mod_upper_bound (length (l1 ++ l2)) 2 ltac:(lia)).
    rewrite length_app in *. lia. }
  assert (chunk_fit c1) as F1 by (apply (chunk_fit_half c); try done; rewrite (holds_len _ _ H1); lia).
  assert (chunk_fit c2) as F2 by (apply (chunk_fit_half c); try done; rewrite (holds_len _ _ H2); lia).
  unfold upsert_half. replace (0 <? chunk_len c2) with true
    by (rewrite (holds_len _ _ H2); destruct l2; [done|]; symmetry; apply Z.ltb_lt; cbn; lia).
  destruct (holds_ends c2 l2 H2 Hn2) as ((y & Hy & Hye) & (z & Hz & Hze) & _).
  pose proof (holds_bounds _ _ H2) as Hb2. destruct (holds_content _ _ Hh) as [Hsort _].
  apply ts_sorted_app in Hsort as (_ & _ & Hlt). cbn [andb].
  destruct (Z.leb_spec (first_timestamp c2) (timestamp s)) as [Hge|Hgt].
  - rewrite list_upsert_app_l.
    2: { eapply Forall_impl; [exact Hlt|]. intros x Hx. cbn beta in Hx. rewrite Forall_forall in Hx.
         specialize (Hx y Hy). unfold ts_lt in Hx. lia. }
    destruct (chunk_upsert_added c2 l2 s p H2 Hs Hn2) as (size & res & c' & l' & -> & Hh' & Hl' & Hc & Hm & -> & Hg & Hres).
    { intros Ha. unfold appends in Ha. rewrite Forall_forall in Ha. specialize (Ha z Hz). unfold ts_lt in Ha. lia. }
    eexists _, _, c1, c', l1, l'. split; [done|]. split_and!; try done.
    + eapply (chunk_fit_half c); try done; [by rewrite Hc|by rewrite Hm|]. rewrite (holds_len _ _ Hh'). lia.
    + rewrite !length_app. lia.
    + destruct (list_upsert p s l2); by destruct Hres as [-> ->].
  - rewrite list_upsert_app_r.
    2: { eapply Forall_impl; [exact Hb2|]. intros x Hx. cbn beta in Hx. lia. }
    destruct (chunk_upsert_added c1 l1 s p H1 Hs Hn1) as (size & res & c' & l' & -> & Hh' & Hl' & Hc & Hm & -> & Hg & Hres).
    { intros _ m Hm. destruct Hfit as [_ Hf]. rewrite <- K1, Hm in Hf. destruct Hf as [_ Hf].
      rewrite (full_capacity _ _ Hm), (holds_len _ _ H1). apply Z.leb_gt. lia. }
    eexists _, _, c', c2, l', l2. split; [done|]. split_and!; try done.
    + eapply (chunk_fit_half c); try done; [by rewrite Hc|by rewrite Hm|]. rewrite (holds_len _ _ Hh'). lia.
    + rewrite !length_app. lia.
    + destruct (list_upsert p s l1); by destruct Hres as [-> ->].
Qed.

Lemma halves_of (l : list Sample) :
  (2 <= length l)%nat ->
  exists l1 l2, l = l1 ++ l2 /\ take (length l / 2) l = l1 /\ drop (length l / 2) l = l2 /\
    length l1 = (length (l1 ++ l2) / 2)%nat /\ l1 <> [] /\ l2 <> [].
Proof.
  intros Hl. assert (1 <= length l / 2 < length l)%nat as Hmid.
  { split; [apply Nat.div_str_pos; lia|apply Nat.div_lt; lia]. }
  exists (take (length l / 2) l), (drop (length l / 2) l). rewrite take_drop. split_and!; try done.
  - rewrite length_take. lia.
  - intros E%(f_equal length). rewrite length_take in E. cbn [length] in E. lia.
  - intros E%(f_equal length). rewrite length_drop in E. cbn [length] in E. lia.
Qed.

Lemma upsert_split_spec t ls i s p cs1 c cs2 ls1 l ls2 :
  series_rep chunk_fit t ls -> located (chunks t) ls i (timestamp s) cs1 c cs2 ls1 l ls2 ->
  timestamp s <= last_timestamp c -> sample_valid s -> should_split c = true ->
  exists res t' ls', upsert_split t i c s p = (res, t') /\ series_rep chunk_fit t' ls' /\ settings t' = settings t /\
  match list_upsert p s l with
  | Ok l' => res = AddOk s /\ concat ls' = concat ls1 ++ l' ++ concat ls2
  | Err _ => res = Duplicate /\ concat ls' = concat ls
  end.
Proof.
  intros Hr Hloc Hle Hs Hsp. pose proof Hr as [HL Hf Ht H1 H2 Hset]. pose proof Hloc as [Ec El Hi Hlen Hh _ _].
  pose proof Hf as Hf0. rewrite Ec in Hf0. apply Forall_app in Hf0 as [Hf1 [Hfc Hf2]%Forall_cons].
  pose proof (should_split_len _ _ Hh (proj1 Hfc) Hsp) as Hl2.
  destruct (holds_split c l Hh Hl2) as (c1 & c2 & Es & Hc1 & Hc2 & M1 & M2).
  destruct (capacity_split _ _ _ Es) as [K1 K2].
  destruct (halves_of l Hl2) as (l1 & l2 & El12 & T1 & T2 & Hhalf & N1 & N2). rewrite T1 in Hc1. rewrite T2 in Hc2.
  assert (timestamp s <= last_timestamp c2) as Hle2.
  { destruct (snoc_cases l2 N2) as (k & x & Ek). rewrite Ek in Hc2. destruct (holds_last _ _ _ Hc2) as [-> _].
    rewrite El12, Ek, app_assoc in Hh. destruct (holds_last _ _ _ Hh) as [<- _]. done. }
  rewrite El12 in Hh. destruct (upsert_halves c c1 c2 l1 l2 s p Hfc Hh Hhalf N1 N2 Hc1 Hc2 Hs Hle2 K1 K2 M1 M2)
    as (added & res & c1' & c2' & l1' & l2' & Eh & Hh1 & Hh2 & N1' & N2' & F1 & F2 & -> & Hres).
  rewrite <- El12 in Hres. pose proof (located_upsert _ _ _ _ _ _ _ _ _ _ p Hloc) as Eu.
  assert (concat ls = concat ls1 ++ l ++ concat ls2) as Ecat0 by (by rewrite El, concat_app).
  assert (content_ok (concat ls1 ++ (l1' ++ l2') ++ concat ls2)) as Hok.
  { destruct (list_upsert p s l) as [l'|e]; destruct Hres as [_ ->].
    - eapply content_ok_upsert; [exact Hs| |exact Eu]. apply HL.
    - rewrite <- Ecat0. apply HL. }
  assert (layout (cs1 ++ c1' :: c2' :: cs2) (ls1 ++ l1' :: l2' :: ls2)) as HL'.
  { apply (layout_replace _ _ _ _ _ _ _ _ _ _ [c1'; c2'] [l1'; l2'] HL Hloc); [by repeat constructor|by repeat constructor|].
    cbn [concat]. by rewrite app_nil_r. }
  assert (concat (ls1 ++ l1' :: l2' :: ls2) = concat ls1 ++ (l1' ++ l2') ++ concat ls2) as Ecat
    by (rewrite concat_app; cbn [concat]; by rewrite <- (app_assoc l1')).
  assert (Forall chunk_fit (cs1 ++ c1' :: c2' :: cs2)) as Hfit by (apply Forall_app; split; [done|constructor; [done|by constructor]]).
  unfold upsert_split. rewrite Es, Eh. cbn [chunks with_chunks]. rewrite Ec, <- Hi, insert_middle.
  replace (0 <? chunk_len c2') with true
    by (rewrite (holds_len _ _ Hh2); destruct l2'; [done|]; symmetry; apply Z.ltb_lt; cbn; lia).
  rewrite (insert_upper_half _ _ _ _ _ HL'). set (t1 := with_chunks _ _).
  destruct (list_upsert p s l) as [l'|e]; destruct Hres as [-> Hcat]; cbn [add_is_ok negb].
  - destruct (update_ends_rep (P := chunk_fit) (with_total t1 (total_samples t1 + (Z.of_nat (length (l1' ++ l2')) - Z.of_nat (length (l1 ++ l2)))))
      (ls1 ++ l1' :: l2' :: ls2)) as [Hr' Hset']; try done.
    { cbn. rewrite Ht, Ecat, Ecat0, El12, !length_app. lia. }
    eexists _, _, _. split; [done|]. split_and!; [exact Hr'|by rewrite Hset'|done|by rewrite Ecat, Hcat].
  - rewrite Hcat, <- Ecat0 in Ecat. eexists _, t1, (ls1 ++ l1' :: l2' :: ls2). split; [done|].
    split_and!; try done. split; cbn; rewrite ?Ecat; done.
Qed.

Definition series_policy (t : TimeSeries) (override : option DuplicatePolicy) : DuplicatePolicy :=
  resolve_policy config_duplicate_policy (sample_duplicates t) override.

Lemma upsert_sample_spec t ls s ov x :
  series_rep chunk_fit t ls -> list.last (concat ls) = Some x -> timestamp s <= timestamp x -> sample_valid s ->
  is_older_than_retention t (timestamp s) = false ->
  exists res t' ls', upsert_sample t s ov = (res, t') /\ series_rep chunk_fit t' ls' /\ settings t' = settings t /\
  match list_upsert (series_policy t ov) s (concat ls) with
  | Ok l' => res = AddOk s /\ concat ls' = l'
  | Err _ => res = Duplicate /\ concat ls' = concat ls
  end.
Proof.
  intros Hr Hx Hle Hs Hold. unfold upsert_sample. fold (series_policy t ov). rewrite Hold, andb_false_r.
  fold (target_of t (timestamp s)).
  destruct (target_spec t ls (timestamp s) x Hr Hx Hle) as (c & l & Hc & Hcl & Hloc).
  rewrite Hc, (located_upsert _ _ _ _ _ _ _ _ _ _ (series_policy t ov) Hloc).
  destruct (should_split c) eqn:Hsp; cbn [negb].
  - destruct (upsert_split_spec t ls _ s (series_policy t ov) _ _ _ _ _ _ Hr Hloc Hcl Hs Hsp)
      as (res & t' & ls' & -> & Hr' & Hset & Hres).
    exists res, t', ls'. split_and!; try done. by destruct (list_upsert _ s l).
  - pose proof (upsert_whole_spec t ls _ s (series_policy t ov) _ _ _ _ _ _ Hr Hloc Hcl Hs Hsp) as Hw.
    destruct (list_upsert _ s l) as [l'|e].
    + destruct Hw as (t' & -> & Hr' & Hset). eexists _, t', _. split; [done|]. split_and!; try done.
      rewrite concat_app. done.
    + rewrite Hw. eexists _, t, ls. by split_and!.
Qed.

(** ** Retention *)

Lemma retention_millis_nonneg t : settings_ok t -> 0 <= retention_millis t.
Proof.
  intros [_ Hr]. unfold retention_millis. assert (0 <= retention t / 1000000 < 2 ^ 63) as Hd.
  { split; [apply Z.div_pos; lia|apply Z.div_lt_upper_bound; lia]. }
  rewrite wrap_i64_id; [lia|ilia].
Qed.

Lemma rep_last_valid {P} t ls x : series_rep P t ls -> last_sample t = Some x -> sample_valid x.
Proof.
  intros Hr Hx. rewrite (sr_last _ _ Hr) in Hx. destruct (sr_layout _ _ Hr) as (_ & _ & _ & Hv).
  rewrite Forall_forall in Hv. apply Hv. by eapply last_Some_elem_of.
Qed.

(** The floor of the retention window never passes the last sample. *)
Lemma min_timestamp_bounds {P} t ls :
  series_rep P t ls ->
  match last_sample t with Some x => 0 <= get_min_timestamp t <= timestamp x | None => get_min_timestamp t = 0 end.
Proof.
  intros Hr. unfold get_min_timestamp, retention_is_zero.
  pose proof (retention_millis_nonneg t (sr_settings _ _ Hr)) as Hm.
  destruct (last_sample t) as [x|] eqn:Ex.
  - destruct (rep_last_valid _ _ _ Hr Ex) as [[Hx _] Hx0]. rewrite (sr_last _ _ Hr) in Ex.
    destruct (retention t =? 0).
    + rewrite (sr_first _ _ Hr). destruct (sr_layout _ _ Hr) as (_ & _ & Hs & Hv).
      destruct (concat ls) as [|y l]; [done|]. cbn [first_of]. apply Forall_cons in Hv as [[_ Hy] _].
      apply ts_sorted_cons in Hs as [_ Hlt]. rewrite Forall_forall in Hlt.
      apply last_Some_elem_of in Ex as [->|Hin]%elem_of_cons; [lia|]. specialize (Hlt x Hin). unfold ts_lt in Hlt. lia.
    + unfold sat_i64. ilia.
  - rewrite (sr_last _ _ Hr) in Ex. apply last_None in Ex. rewrite (sr_first _ _ Hr), Ex. cbn. by case_match.
Qed.

Lemma min_timestamp_eq t t' :
  settings t' = settings t -> last_sample t' = last_sample t -> retention_is_zero t = false ->
  get_min_timestamp t' = get_min_timestamp t.
Proof.
  unfold settings, get_min_timestamp, retention_is_zero, retention_millis. intros [= -> _ _ _ _] -> ->. done.
Qed.

Lemma take_while_split {A} (pred : A -> bool) l :
  exists a b, l = a ++ b /\ take_while pred l = a /\
    Forall (fun x => pred x = true) a /\ match b with [] => True | x :: _ => pred x = false end.
Proof.
  induction l as [|x l (a & b & E0 & Ew & Ha & Hb)]; cbn [take_while].
  { exists [], []. by split_and!. }
  destruct (pred x) eqn:E.
  - exists (x :: a), b. split_and!; [by rewrite E0|by rewrite Ew|by constructor|done].
  - exists [], (x :: l). by split_and!.
Qed.

(** The chunks dropped whole, and what is left. *)
Lemma remove_expired_spec t ls min :
  layout (chunks t) ls ->
  exists a b lsa lsb, chunks t = a ++ b /\ ls = lsa ++ lsb /\ length a = length lsa /\
    remove_expired_chunks t min = (Z.of_nat (length (concat lsa)), with_chunks t b) /\
    layout b lsb /\ Forall (fun x => timestamp x < min) (concat lsa) /\
    match b with [] => True | c :: _ => min <= last_timestamp c end.
Proof.
  intros HL. destruct (take_while_split (fun c => last_timestamp c <? min) (chunks t)) as (a & b & E & Hlen & Ha & Hb).
  rewrite E in HL. pose proof HL as (lsa & lsb & -> & Hl & (HLa & HLb & _)%layout_app)%layout_app_inv; [|done].
  exists a, b, lsa, lsb. unfold remove_expired_chunks. rewrite Hlen, E, take_app_length, drop_app_length.
  rewrite (layout_total _ _ HLa). split_and!; try done.
  - destruct (Nat.eqb_spec (length a) 0) as [Hz|]; [|done]. apply length_zero_iff_nil in Hz as ->.
    cbn [app] in E. rewrite (layout_nil_inv _ HLa), <- E. by destruct t.
  - destruct HLa as (HF & _ & _). apply Forall_forall. intros x (k & [j Hj]%list_elem_of_lookup & Hx)%elem_of_concat.
    destruct (Forall2_lookup_r _ _ _ _ _ HF Hj) as (d & Hd & Hdl). pose proof (holds_bounds _ _ Hdl) as Hbd.
    rewrite Forall_forall in Hbd. specialize (Hbd x Hx). cbn beta in Hbd.
    rewrite Forall_lookup in Ha. specialize (Ha j d Hd). cbv beta in Ha. lia.
  - destruct b; [done|]. lia.
Qed.

(** Cutting off what is older than [min] in a time-ordered list. *)
Lemma split_at_min min l :
  content_ok l ->
  l = select 0 (min - 1) l ++ remove 0 (min - 1) l /\
  Forall (fun x => timestamp x < min) (select 0 (min - 1) l) /\
  Forall (fun x => min <= timestamp x) (remove 0 (min - 1) l).
Proof.
  intros [Hs Hv]. assert (forall x, x ∈ l -> in_range 0 (min - 1) x = (timestamp x <? min)) as Hin.
  { intros x Hx. rewrite Forall_forall in Hv. destruct (Hv x Hx) as [_ H0']. unfold in_range. lia. }
  clear Hv. induction l as [|x l IH]; [by split_and!; constructor|].
  apply ts_sorted_cons in Hs as [Hs Hx]. destruct IH as (E & H1' & H2'); [done|intros; apply Hin; by right|].
  pose proof (Hin x ltac:(by left)) as Ex. unfold select, remove in *. cbn [List.filter]. rewrite Ex.
  destruct (Z.ltb_spec (timestamp x) min); cbn [negb].
  - split_and!; [cbn; by f_equal|by constructor|done].
  - assert (List.filter (in_range 0 (min - 1)) l = []) as En.
    { apply filter_none. apply Forall_forall. intros y Hy. rewrite Hin by (by right).
      rewrite Forall_forall in Hx. specialize (Hx y Hy). unfold ts_lt in Hx. lia. }
    rewrite En in *. split_and!; [cbn in *; by f_equal|constructor|by constructor].
Qed.

Lemma drop_prefix_rep {P} t ls cs ls' dead :
  series_rep P t ls -> layout cs ls' -> Forall P cs -> concat ls = dead ++ concat ls' ->
  let n := Z.of_nat (length dead) in
  let t1 := with_total (with_chunks t cs) (total_samples t - n) in
  let t' := if 0 <? n then update_first_last_timestamps t1 else t1 in
  series_rep P t' ls' /\ settings t' = settings t.
Proof.
  intros [HL Hf Ht H1 H2 Hset] HL' Hf' E n t1 t'. subst t'.
  assert (total_samples t1 = Z.of_nat (length (concat ls'))) as Ht1
    by (cbn; rewrite Ht, E, length_app; lia).
  destruct (Z.ltb_spec 0 n) as [Hn|Hn]; [by destruct (update_ends_rep (P := P) t1 ls') as [? ->]|].
  assert (dead = []) as -> by (unfold n in Hn; destruct dead; [done|cbn [length] in Hn; lia]). cbn [app] in E.
  split; [|done]. split; cbn; rewrite <- ?E; try done. by rewrite E.
Qed.

(** What a trim of the chunks behind the whole expired ones leaves. *)
Definition trimmed P (t : TimeSeries) (ls : list (list Sample)) (force : bool) (r : TsdbResult Z * TimeSeries) : Prop :=
  exists t' ls' dead, r = (Ok (Z.of_nat (length dead)), t') /\ series_rep P t' ls' /\
    settings t' = settings t /\ concat ls = dead ++ concat ls' /\
    Forall (fun x => timestamp x < get_min_timestamp t) dead /\
    last_sample t' = last_sample t /\
    (force = true -> Forall (fun x => get_min_timestamp t <= timestamp x) (concat ls')).

Lemma trimmed_last {P} t ls t' ls' dead x :
  series_rep P t ls -> series_rep P t' ls' -> concat ls = dead ++ concat ls' -> x ∈ concat ls' ->
  last_sample t' = last_sample t.
Proof.
  intros Hr Hr' E Hx. rewrite (sr_last _ _ Hr), (sr_last _ _ Hr'), E, last_app.
  destruct (snoc_cases (concat ls')) as (k & y & Ek); [by destruct (concat ls'); [apply elem_of_nil in Hx|]|].
  by rewrite Ek, last_snoc.
Qed.

Lemma above_min min l x : content_ok (x :: l) -> min <= timestamp x -> Forall (fun y => min <= timestamp y) (x :: l).
Proof.
  intros [[_ Hx]%ts_sorted_cons _] Hm. constructor; [done|]. eapply Forall_impl; [exact Hx|]. unfold ts_lt. intros; lia.
Qed.

(** Removing the expired prefix of a head chunk that outlives the floor. *)
Lemma head_trim_spec {P} `{!Shrinks P} (c : TimeSeriesChunk) cs l ls min :
  layout (c :: cs) (l :: ls) -> P c -> min <= last_timestamp c ->
  exists c' dead l', chunk_remove_range c 0 (min - 1) = Ok (Z.of_nat (length dead), c') /\
    l = dead ++ l' /\ layout (c' :: cs) (l' :: ls) /\ P c' /\
    Forall (fun x => timestamp x < min) dead /\ Forall (fun x => min <= timestamp x) (l' ++ concat ls).
Proof.
  intros (Hh & Hl & HL & Hlt)%layout_cons Hfit Hmin.
  destruct (holds_remove_range c l 0 (min - 1) Hh) as (c' & E & Hh' & Hm).
  destruct (split_at_min min l (holds_content _ _ Hh)) as (El & Hd & Hk).
  set (dead := select 0 (min - 1) l) in *. set (l' := remove 0 (min - 1) l) in *.
  exists c', dead, l'. destruct (holds_ends c l Hh Hl) as (_ & (z & Hz & Hze) & _).
  assert (z ∈ l') as Hzl.
  { rewrite El in Hz. apply elem_of_app in Hz as [Hz|]; [|done].
    rewrite Forall_forall in Hd. specialize (Hd z Hz). cbn beta in Hd. lia. }
  split_and!; try done.
  - apply layout_cons. split_and!; try done.
    + intros En. rewrite En in Hzl. by apply elem_of_nil in Hzl.
    + rewrite El in Hlt. by apply Forall_app in Hlt as [_ ?].
  - eapply (shrinks c); [exact Hfit|by eapply capacity_remove|done|].
    rewrite (holds_len _ _ Hh), (holds_len _ _ Hh'), El, length_app. lia.
  - apply Forall_app. split; [done|]. rewrite Forall_forall in Hlt. specialize (Hlt z ltac:(rewrite El; apply elem_of_app; by right)).
    cbn beta in Hlt. eapply Forall_impl; [exact Hlt|]. unfold ts_lt. intros; lia.
Qed.

(** Once the whole expired chunks are gone, the head chunk outlives the floor. *)
Lemma live_head t ls (a b : list TimeSeriesChunk) lsa lsb x :
  ls = lsa ++ lsb -> last_sample t = list.last (concat ls) -> last_sample t = Some x ->
  get_min_timestamp t <= timestamp x -> Forall (fun y => timestamp y < get_min_timestamp t) (concat lsa) ->
  x ∈ concat lsb.
Proof.
  intros -> H2 Hx Hle Hd. rewrite Hx, concat_app in H2. symmetry in H2. apply last_Some_elem_of in H2.
  apply elem_of_app in H2 as [Hin|]; [|done]. rewrite Forall_forall in Hd. specialize (Hd x Hin). cbn beta in Hd. lia.
Qed.

Lemma trim_spec {P} `{!Shrinks P} t ls force : series_rep P t ls -> trimmed P t ls force (trim_expired t force).
Proof.
  intros Hr. pose proof Hr as [HL Hf Ht H1 H2 Hset]. pose proof (min_timestamp_bounds t ls Hr) as Hmin.
  unfold trim_expired. destruct (Z.leb_spec (get_min_timestamp t) (series_first t)) as [Hle|Hgt].
  { exists t, ls, []. split_and!; try done. intros _. rewrite H1 in Hle. destruct HL as (_ & _ & Hc).
    destruct (concat ls); [constructor|by apply above_min]. }
  destruct (remove_expired_spec t ls (get_min_timestamp t) HL) as (a & b & lsa & lsb & Ec & El & Hlen & -> & HLb & Hdead & Hb).
  destruct (last_sample t) as [x|] eqn:Hx.
  2: { symmetry in H2. apply last_None in H2. rewrite H1, H2, Hmin in Hgt. cbn in Hgt. lia. }
  assert (x ∈ concat lsb) as Hxin by (eapply (live_head t ls a b); try done; [by rewrite Hx|lia]).
  rewrite Ec in Hf. apply Forall_app in Hf as [_ Hfb].
  destruct b as [|c cs]; [rewrite (layout_nil_inv _ HLb) in Hxin; by apply elem_of_nil in Hxin|].
  apply layout_cons_inv in HLb as (l & ls' & -> & HLb). apply Forall_cons in Hfb as [Hfc Hfcs].
  cbn [chunks with_chunks]. destruct (_ && _) eqn:Econd.
  - destruct (head_trim_spec c cs l ls' _ HLb Hfc Hb) as (c' & dead & l' & -> & -> & HL' & Hfc' & Hd & Hk).
    assert (concat ls = (concat lsa ++ dead) ++ concat (l' :: ls')) as Ecat
      by (rewrite El, concat_app; cbn [concat]; by rewrite <- !app_assoc).
    destruct (drop_prefix_rep (P := P) t ls (c' :: cs) (l' :: ls') (concat lsa ++ dead)) as [Hr' Hset']; [done|done|by constructor|done|].
    rewrite length_app, Nat2Z.inj_add in Hr', Hset'. eexists _, (l' :: ls'), (concat lsa ++ dead).
    split; [by rewrite length_app, Nat2Z.inj_add|]. split_and!; [exact Hr'|done|done|by apply Forall_app| |done].
    eapply (trimmed_last t ls _ (l' :: ls') _ x); [done|exact Hr'|exact Ecat|].
    cbn [concat] in Hxin |- *. rewrite <- app_assoc in Hxin. apply elem_of_app in Hxin as [Hin|]; [|done].
    rewrite Forall_forall in Hd. specialize (Hd x Hin). cbn beta in Hd. lia.
  - assert (concat ls = concat lsa ++ concat (l :: ls')) as Ecat by (by rewrite El, concat_app).
    destruct (drop_prefix_rep (P := P) t ls (c :: cs) (l :: ls') (concat lsa)) as [Hr' Hset']; [done|done|by constructor|done|].
    eexists _, (l :: ls'), (concat lsa). split; [done|]. split_and!; [exact Hr'|done|done|done| |].
    + by eapply (trimmed_last t ls _ (l :: ls') _ x); [|exact Hr'|exact Ecat|].
    + intros ->. cbn [orb] in Econd. rewrite andb_true_r in Econd. apply layout_first in HLb as HF1.
      destruct HLb as (_ & _ & Hc). destruct (concat (l :: ls')); [constructor|]. apply above_min; [done|].
      cbn [first_of] in HF1. lia.
Qed.

End Series.
