(* ===== verification/SeriesReads.v ===== *)
(** * SeriesReads: what the reads of a series return

    Every read of [TimeSeries] in terms of the stored list of samples and of its
    part inside the retention window ([visible]). *)

From S2P Require Import Prelude Float64 Types Slice Content Merge ChunkOps ChunkMethods Elf64.
From S2P Require Import TimeSeriesChunk ChunkSearch SeriesIterator TimeSeries SeriesLaws.

Section Reads.

Context `{Log10} `{ServerConfig}.

(** The samples a read may return. *)
Definition visible (t : TimeSeries) (l : list Sample) : list Sample :=
  List.filter (fun x => get_min_timestamp t <=? timestamp x) l.

Lemma select_visible t s e l : select s e (visible t l) = select (Z.max s (get_min_timestamp t)) e l.
Proof.
  unfold select, visible. induction l as [|x l IH]; [done|]. cbn [List.filter].
  destruct (Z.leb_spec (get_min_timestamp t) (timestamp x)); cbn [List.filter]; rewrite IH.
  - by replace (in_range (Z.max s (get_min_timestamp t)) e x) with (in_range s e x) by (unfold in_range; lia).
  - by replace (in_range (Z.max s (get_min_timestamp t)) e x) with false by (unfold in_range; lia).
Qed.

(** ** The chunks of a window *)

Lemma select_below s e l : Forall (fun x => timestamp x < s) l -> select s e l = [].
Proof. intros Hl. apply select_none. eapply Forall_impl; [exact Hl|]. cbn. intros; lia. Qed.

Lemma select_above s e l : Forall (fun x => e < timestamp x) l -> select s e l = [].
Proof. intros Hl. apply select_none. eapply Forall_impl; [exact Hl|]. cbn. intros; lia. Qed.

Lemma concat_bounded (cs : list TimeSeriesChunk) ls (P : Sample -> Prop) (Q : nat -> Prop) :
  layout cs ls ->
  (forall j c x, Q j -> cs !! j = Some c -> first_timestamp c <= timestamp x <= last_timestamp c -> P x) ->
  forall f : list (list Sample), (forall j l, f !! j = Some l -> exists k, Q k /\ ls !! k = Some l) -> Forall P (concat f).
Proof.
  intros (HF & _ & _) HP f Hf. apply Forall_forall. intros x (l & [j Hj]%list_elem_of_lookup & Hx)%elem_of_concat.
  destruct (Hf j l Hj) as (k & Hk & Hl). destruct (Forall2_lookup_r _ _ _ _ _ HF Hl) as (c & Hc & Hcl).
  pose proof (holds_bounds _ _ Hcl) as Hb. rewrite Forall_forall in Hb. eapply HP; [done|done|]. by apply Hb.
Qed.

Lemma concat_take_below (cs : list TimeSeriesChunk) ls i ts :
  layout cs ls -> (forall j c, (j < i)%nat -> cs !! j = Some c -> last_timestamp c < ts) ->
  Forall (fun x => timestamp x < ts) (concat (take i ls)).
Proof.
  intros HL Hb. apply (concat_bounded cs ls _ (fun j => (j < i)%nat) HL).
  - intros j c x Hj Hc Hx. specialize (Hb j c Hj Hc). lia.
  - intros j l [Hl Hj]%lookup_take_Some. by exists j.
Qed.

Lemma concat_drop_above (cs : list TimeSeriesChunk) ls i ts :
  layout cs ls -> (forall j c, (i <= j)%nat -> cs !! j = Some c -> ts < first_timestamp c) ->
  Forall (fun x => ts < timestamp x) (concat (drop i ls)).
Proof.
  intros HL Hb. apply (concat_bounded cs ls _ (fun j => (i <= j)%nat) HL).
  - intros j c x Hj Hc Hx. specialize (Hb j c Hj Hc). lia.
  - intros j l Hl. rewrite lookup_drop in Hl. exists (i + j)%nat. split; [lia|done].
Qed.

Lemma layout_drop (cs : list TimeSeriesChunk) ls i : layout cs ls -> layout (drop i cs) (drop i ls).
Proof.
  intros (HF & HN & HC). split_and!; [by apply Forall2_drop|by apply Forall_drop|].
  rewrite <- (take_drop i ls), concat_app in HC. by apply content_ok_app in HC as (_ & ? & _).
Qed.

Lemma layout_take (cs : list TimeSeriesChunk) ls i : layout cs ls -> layout (take i cs) (take i ls).
Proof.
  intros (HF & HN & HC). split_and!; [by apply Forall2_take|by apply Forall_take|].
  rewrite <- (take_drop i ls), concat_app in HC. by apply content_ok_app in HC as (? & _ & _).
Qed.

Lemma slice_split {A} (l : list A) i j :
  (i <= S j)%nat -> l = take i l ++ slice_incl l i j ++ drop (S j) l.
Proof.
  intros Hij. unfold slice_incl. rewrite <- (take_drop i l) at 1. f_equal.
  rewrite <- (take_drop (S j - i) (drop i l)) at 1. f_equal. rewrite drop_drop. f_equal. lia.
Qed.

Lemma index_bounds_spec {P} t ls s e :
  series_rep P t ls -> s <= e ->
  match get_chunk_index_bounds t s e with
  | None => select s e (concat ls) = []
  | Some (i, j) => (i <= j < length (chunks t))%nat /\
      Forall (fun x => timestamp x < s) (concat (take i ls)) /\
      Forall (fun x => e < timestamp x) (concat (drop (S j) ls))
  end.
Proof.
  intros Hr Hse. pose proof (sr_layout _ _ Hr) as HL. unfold get_chunk_index_bounds.
  rewrite (rep_empty _ _ Hr). destruct (Z.ltb_spec e s); [lia|]. rewrite orb_false_r.
  destruct (chunks t) as [|c0 cs0] eqn:Ec; [by rewrite (layout_nil_inv _ HL)|]. rewrite <- Ec in *.
  destruct (find_start_spec _ _ s HL) as (Hi & Hbef & Haft). set (i := find_start_chunk_index (chunks t) s) in *.
  pose proof (concat_take_below _ _ i s HL Hbef) as Hlow. pose proof (layout_length _ _ HL) as Hlen.
  destruct (Nat.leb_spec (length (chunks t)) i) as [Hge|Hlt].
  { rewrite <- (take_ge ls i) by lia. by apply select_below. }
  destruct (find_last_ge_index (drop i (chunks t)) e) as [idx fnd] eqn:Ei.
  set (j := Nat.min (i + idx) (length (chunks t) - 1)).
  assert (Forall (fun x => e < timestamp x) (concat (drop (S j) ls))) as Hhigh.
  { apply (concat_drop_above (chunks t)); [done|]. intros k d Hk Hd. pose proof (lookup_lt_Some _ _ _ Hd).
    apply (find_last_spec (drop i (chunks t)) (drop i ls) e (k - i) d); [by apply layout_drop|rewrite Ei; cbn; lia|].
    rewrite lookup_drop. by replace (i + (k - i))%nat with k by lia. }
  destruct (chunks t !! i) as [c|] eqn:Hc; [|by apply lookup_ge_None in Hc; lia].
  destruct ((i =? j)%nat && (e <? first_timestamp c)) eqn:Enone.
  - apply andb_true_iff in Enone as [_ Hf%Z.ltb_lt]. rewrite <- (take_drop i ls), concat_app, select_app.
    rewrite (select_below _ _ _ Hlow). cbn [app]. apply select_above, (concat_drop_above (chunks t)); [done|].
    intros k d Hk Hd. assert (k = i \/ (i < k)%nat) as [->|Hki] by lia; [by simplify_eq|].
    pose proof (layout_ordered _ _ _ _ _ _ HL Hki Hc Hd). pose proof (layout_ends _ _ _ _ HL Hc). lia.
  - split_and!; [lia|lia|done|done].
Qed.

Lemma slice_select {P} t ls s e i j :
  series_rep P t ls -> (i <= j < length (chunks t))%nat ->
  Forall (fun x => timestamp x < s) (concat (take i ls)) ->
  Forall (fun x => e < timestamp x) (concat (drop (S j) ls)) ->
  layout (slice_incl (chunks t) i j) (slice_incl ls i j) /\
  select s e (concat ls) = select s e (concat (slice_incl ls i j)).
Proof.
  intros Hr Hij Hl Hh. split; [apply layout_take, layout_drop, Hr|].
  rewrite (slice_split ls i j) at 1 by lia. rewrite !concat_app, !select_app.
  rewrite (select_below _ _ _ Hl), (select_above _ _ _ Hh). cbn [app]. by rewrite app_nil_r.
Qed.

(** ** Range reads *)

Lemma fits_memory_app l1 l2 : fits_memory (l1 ++ l2) <-> fits_memory l1 /\ fits_memory l2 /\ fits_memory (l1 ++ l2).
Proof. unfold fits_memory, SAMPLE_SIZE. rewrite length_app. lia. Qed.

Lemma get_range_parallel_from cs ls s e acc :
  layout cs ls -> fits_memory (concat ls) ->
  try_fold (fun acc c => let? l := chunk_get_range c s e in Ok (acc ++ l)) acc cs =
  Ok (acc ++ select s e (concat ls)).
Proof.
  intros (HF & _ & _). revert acc. induction HF as [|c l cs ls Hh HF IH]; intros acc Hm; cbn [try_fold concat].
  { by rewrite app_nil_r. }
  apply fits_memory_app in Hm as (Hm1 & Hm2 & _). rewrite (holds_get_range _ _ s e Hh Hm1), IH by done.
  by rewrite select_app, app_assoc.
Qed.

Lemma sort_sorted l : ts_sorted l -> sort_by_key timestamp l = l.
Proof.
  induction 1 as [|x l Hs IH Hx]; [done|]. cbn [sort_by_key foldr]. fold (sort_by_key timestamp l). rewrite IH.
  destruct l as [|y l]; [done|]. cbn. apply Forall_cons in Hx as [Hxy _]. unfold ts_lt in Hxy.
  by destruct (Z.leb_spec (timestamp x) (timestamp y)); [|lia].
Qed.

Lemma fits_memory_slice ls i j : fits_memory (concat ls) -> (i <= j)%nat -> fits_memory (concat (slice_incl ls i j)).
Proof.
  intros Hm Hij. rewrite (slice_split ls i j) in Hm by lia. rewrite !concat_app in Hm.
  apply fits_memory_app in Hm as (_ & Hm & _). by apply fits_memory_app in Hm as (Hm & _).
Qed.

Lemma overlaps_none {P} t ls s e : series_rep P t ls -> series_overlaps t s e = false -> select s e (concat ls) = [].
Proof.
  intros Hr Ho. unfold series_overlaps in Ho. rewrite (rep_empty _ _ Hr) in Ho. pose proof (sr_layout _ _ Hr) as HL.
  destruct (chunks t) as [|c cs] eqn:Ec; [by rewrite (layout_nil_inv _ HL)|]. cbn [negb andb] in Ho.
  unfold series_last_timestamp in Ho. rewrite (sr_first _ _ Hr), (sr_last _ _ Hr) in Ho.
  destruct HL as (_ & _ & Hs & _). destruct (concat ls) as [|x l] eqn:El; [done|]. cbn [first_of] in Ho.
  destruct (snoc_cases (x :: l)) as (k & y & Ek); [done|]. rewrite Ek, last_snoc in Ho.
  destruct (Z.leb_spec s (timestamp y)); cbn [andb] in Ho.
  - apply select_above. apply Z.leb_gt in Ho. pose proof Hs as [_ Hx]%ts_sorted_cons. constructor; [done|].
    eapply Forall_impl; [exact Hx|]. unfold ts_lt. intros; lia.
  - rewrite Ek in *. apply select_below. apply ts_sorted_snoc in Hs as [_ Hy]. apply Forall_app. split; [|by fora].
    eapply Forall_impl; [exact Hy|]. unfold ts_lt. intros; lia.
Qed.

Lemma get_range_spec {P} t ls s e :
  series_rep P t ls -> fits_memory (concat ls) -> get_range t s e = select s e (visible t (concat ls)).
Proof.
  intros Hr Hm. rewrite select_visible. unfold get_range. set (s' := Z.max s _).
  destruct (Z.ltb_spec e s') as [Hlt|Hle]; [symmetry; apply select_none, Forall_true; intros; lia|].
  destruct (series_overlaps t s' e) eqn:Ho; cbn [negb]; [|symmetry; exact (overlaps_none t ls s' e Hr Ho)].
  pose proof (index_bounds_spec t ls s' e Hr Hle) as Hb.
  destruct (get_chunk_index_bounds t s' e) as [[i j]|]; [|done]. destruct Hb as (Hij & Hlow & Hhigh).
  destruct (slice_select t ls s' e i j Hr Hij Hlow Hhigh) as [HLs ->].
  unfold get_range_parallel. rewrite (get_range_parallel_from _ (slice_incl ls i j)); [|done|apply fits_memory_slice; [done|lia]].
  cbn [app]. destruct (_ <? _)%nat; [|done]. apply sort_sorted, ts_sorted_filter. apply HLs.
Qed.

Lemma has_samples_spec {P} t ls s e :
  series_rep P t ls ->
  has_samples_in_range t s e = match select s e (visible t (concat ls)) with [] => false | _ => true end.
Proof.
  intros Hr. rewrite select_visible. unfold has_samples_in_range. rewrite (Z.max_comm s).
  destruct (series_overlaps t s e) eqn:Ho; cbn [negb].
  2: { assert (select (Z.max (get_min_timestamp t) s) e (concat ls) = []) as ->; [|done].
       pose proof (overlaps_none t ls s e Hr Ho) as Hn. clear - Hn. revert Hn. unfold select.
       induction (concat ls) as [|x l IH]; [done|]. cbn [List.filter].
       destruct (in_range s e x) eqn:E; [done|]. intros Hn.
       replace (in_range (Z.max (get_min_timestamp t) s) e x) with false by (unfold in_range in *; lia). by apply IH. }
  set (s' := Z.max (get_min_timestamp t) s).
  destruct (Z.lt_ge_cases e s') as [Hlt|Hle].
  { unfold get_chunk_index_bounds. replace (e <? s') with true by lia. rewrite orb_true_r.
    rewrite select_none; [done|]. apply Forall_true. intros; lia. }
  pose proof (index_bounds_spec t ls s' e Hr Hle) as Hb.
  destruct (get_chunk_index_bounds t s' e) as [[i j]|]; [|by rewrite Hb]. destruct Hb as (Hij & Hlow & Hhigh).
  destruct (slice_select t ls s' e i j Hr Hij Hlow Hhigh) as [(HF & _ & _) ->].
  induction HF as [|c l cs ls' Hh HF IH]; [done|]. cbn [existsb concat]. rewrite (holds_has_samples _ _ _ _ Hh), IH.
  rewrite select_app. by destruct (select s' e l).
Qed.

Lemma range_iter_spec {P} t ls s e fuel :
  series_rep P t ls -> (length (concat ls) <= fuel)%nat ->
  si_collect fuel (range_iter t s e) = select s e (visible t (concat ls)).
Proof.
  intros Hr Hf. rewrite select_visible. unfold range_iter. set (s' := Z.max s _).
  destruct (si_new_spec (chunks t) ls (series_is_empty t) s' e false (sr_layout _ _ Hr) (rep_empty _ _ Hr)) as [Hok El].
  rewrite (si_collect_spec _ _ ls Hok), El; [done|]. rewrite El. etrans; [apply List.filter_length_le|done].
Qed.

(** ** Point reads *)

Lemma select_point ts l : ts_sorted l -> select ts ts l = match lookup_ts ts l with Some x => [x] | None => [] end.
Proof.
  unfold select. induction 1 as [|x l Hs IH Hx]; [done|]. cbn [List.filter lookup_ts]. unfold in_range at 1.
  destruct (Z.eqb_spec (timestamp x) ts) as [<-|Hne].
  - rewrite !Z.leb_refl. cbn [andb]. f_equal. apply (select_above (timestamp x) (timestamp x)). exact Hx.
  - replace ((ts <=? timestamp x) && (timestamp x <=? ts)) with false by lia. done.
Qed.

(** A timestamp inside the bounds of a chunk is looked up in that chunk, and one
    outside those of all chunks is not stored. *)
Lemma lookup_inside (cs : list TimeSeriesChunk) ls i c ts :
  layout cs ls -> cs !! i = Some c -> first_timestamp c <= ts <= last_timestamp c ->
  exists l, ls !! i = Some l /\ holds c l /\ lookup_ts ts (concat ls) = lookup_ts ts l /\
    concat ls = concat (take i ls) ++ l ++ concat (drop (S i) ls).
Proof.
  intros HL Hc Hin.
  assert (exists l, located cs ls i ts (take i cs) c (drop (S i) cs) (take i ls) l (drop (S i) ls)) as (l & [_ El _ _ Hh Hb Ha]).
  { apply locate; [done|done|..]; intros j d Hj Hd.
    - pose proof (layout_ordered _ _ _ _ _ _ HL Hj Hd Hc). lia.
    - pose proof (layout_ordered _ _ _ _ _ _ HL Hj Hc Hd). lia. }
  destruct (layout_lookup _ _ _ _ HL Hc) as (l' & Hl' & _). exists l. split_and!; [|done|..].
  - rewrite Hl'. apply take_drop_middle in Hl'. rewrite El in Hl' at 3. apply app_inv_head in Hl'. by injection Hl' as ->.
  - rewrite El, concat_app. cbn [concat]. by rewrite !lookup_ts_app, (lookup_ts_below _ _ Hb), (lookup_ts_above _ _ Ha); destruct (lookup_ts ts l).
  - rewrite El at 1. by rewrite concat_app.
Qed.

Lemma lookup_outside (cs : list TimeSeriesChunk) ls ts :
  layout cs ls -> (forall c, c ∈ cs -> ts < first_timestamp c \/ last_timestamp c < ts) -> lookup_ts ts (concat ls) = None.
Proof.
  intros (HF & _ & _) Hg. destruct (lookup_ts ts (concat ls)) as [x|] eqn:Ex; [exfalso|done].
  apply lookup_ts_Some in Ex as [(l & [j Hj]%list_elem_of_lookup & Hx)%elem_of_concat <-].
  destruct (Forall2_lookup_r _ _ _ _ _ HF Hj) as (c & Hc & Hcl).
  pose proof (holds_bounds _ _ Hcl) as Hb. rewrite Forall_forall in Hb. specialize (Hb x Hx). cbn beta in Hb.
  apply list_elem_of_lookup_2 in Hc. destruct (Hg c Hc); lia.
Qed.

Lemma get_sample_spec {P} t ls ts :
  series_rep P t ls -> fits_memory (concat ls) -> get_sample t ts = Ok (lookup_ts ts (concat ls)).
Proof.
  intros Hr Hm. pose proof (sr_layout _ _ Hr) as HL. unfold get_sample.
  pose proof (get_chunk_index_spec _ _ ts HL) as Hg. destruct (get_chunk_index (chunks t) ts) as [i []].
  - destruct Hg as (c & Hc & Hin). rewrite Hc. destruct (lookup_inside _ _ _ _ _ HL Hc Hin) as (l & _ & Hh & -> & El).
    rewrite El in Hm. apply fits_memory_app in Hm as (_ & Hm & _). apply fits_memory_app in Hm as (Hm & _).
    rewrite (holds_get_range _ _ ts ts Hh Hm). cbn [map_err].
    rewrite select_point by apply (holds_content _ _ Hh). by destruct (lookup_ts ts l).
  - f_equal. symmetry. by apply (lookup_outside (chunks t)).
Qed.

(** ** What TS.INFO reports *)

Lemma visible_all t l : Forall (fun x => get_min_timestamp t <= timestamp x) l -> visible t l = l.
Proof. intros Hl. apply filter_all. eapply Forall_impl; [exact Hl|]. cbn. intros; lia. Qed.

Lemma visible_none t l : Forall (fun x => timestamp x < get_min_timestamp t) l -> visible t l = [].
Proof. intros Hl. apply filter_none. eapply Forall_impl; [exact Hl|]. cbn. intros; lia. Qed.

Lemma visible_app t l1 l2 : visible t (l1 ++ l2) = visible t l1 ++ visible t l2.
Proof. apply List.filter_app. Qed.

Lemma visible_untrimmed {P} t ls :
  series_rep P t ls -> get_min_timestamp t <= series_first t -> visible t (concat ls) = concat ls.
Proof.
  intros Hr Hle. rewrite (sr_first _ _ Hr) in Hle. destruct (sr_layout _ _ Hr) as (_ & _ & Hc).
  apply visible_all. destruct (concat ls); [constructor|by apply above_min].
Qed.

Lemma expired_count (cs : list TimeSeriesChunk) ls min :
  layout cs ls ->
  foldr (fun c n => (if last_timestamp c <? min then chunk_len c
     else Z.of_nat (length (chunk_range_iter c (first_timestamp c) (min - 1)))) + n) 0
    (take_while (fun c => first_timestamp c <? min) cs) =
  Z.of_nat (length (List.filter (fun x => timestamp x <? min) (concat ls))).
Proof.
  revert ls. induction cs as [|c cs IH]; intros ls HL; [by rewrite (layout_nil_inv _ HL)|].
  apply layout_cons_inv in HL as (l & ls' & -> & HL). pose proof HL as (Hh & Hl & HL' & Hlt)%layout_cons.
  cbn [take_while concat]. rewrite List.filter_app, length_app. pose proof (holds_bounds _ _ Hh) as Hb.
  destruct (Z.ltb_spec (first_timestamp c) min) as [Hf|Hf].
  - cbn [foldr]. rewrite (IH _ HL'). rewrite Nat2Z.inj_add. f_equal.
    destruct (Z.ltb_spec (last_timestamp c) min).
    + rewrite (holds_len _ _ Hh), filter_all; [done|]. eapply Forall_impl; [exact Hb|]. cbn beta. intros; lia.
    + rewrite (holds_range_iter _ _ _ _ Hh). do 2 f_equal. unfold select. clear - Hb.
      induction Hb as [|x l Hx Hb IH]; [done|]. cbn [List.filter]. rewrite IH.
      cbn beta in Hx.
      by replace (in_range (first_timestamp c) (min - 1) x) with (timestamp x <? min) by (unfold in_range; lia).
  - cbn [foldr]. rewrite (filter_none _ l), (filter_none _ (concat ls')); [done|..].
    + destruct (holds_ends c l Hh Hl) as ((y & Hy & Hye) & _). rewrite Forall_forall in Hlt. specialize (Hlt y Hy).
      cbn beta in Hlt. eapply Forall_impl; [exact Hlt|]. unfold ts_lt. intros; lia.
    + eapply Forall_impl; [exact Hb|]. cbn beta. intros; lia.
Qed.

Lemma visible_total_spec {P} t ls :
  series_rep P t ls -> visible_total_samples t = Z.of_nat (length (visible t (concat ls))).
Proof.
  intros Hr. unfold visible_total_samples. destruct (Z.leb_spec (get_min_timestamp t) (series_first t)) as [Hle|Hgt].
  { by rewrite (visible_untrimmed _ _ Hr Hle), (sr_total _ _ Hr). }
  rewrite (expired_count _ _ _ (sr_layout _ _ Hr)), (sr_total _ _ Hr). unfold visible, sat_usize_sub.
  assert (forall l, Z.of_nat (length (List.filter (fun x => timestamp x <? get_min_timestamp t) l)) +
    Z.of_nat (length (List.filter (fun x => get_min_timestamp t <=? timestamp x) l)) = Z.of_nat (length l)) as Hsum.
  { induction l as [|x l IH]; [done|]. cbn [List.filter].
    destruct (Z.leb_spec (get_min_timestamp t) (timestamp x)), (Z.ltb_spec (timestamp x) (get_min_timestamp t));
      cbn [length]; lia. }
  specialize (Hsum (concat ls)). lia.
Qed.

Lemma visible_first_spec {P} t ls : series_rep P t ls -> visible_first_timestamp t = first_of (visible t (concat ls)).
Proof.
  intros Hr. unfold visible_first_timestamp. destruct (Z.leb_spec (get_min_timestamp t) (series_first t)) as [Hle|Hgt].
  { by rewrite (visible_untrimmed _ _ Hr Hle), (sr_first _ _ Hr). }
  unfold range_iter. rewrite Z.max_id.
  destruct (si_new_spec (chunks t) ls (series_is_empty t) (get_min_timestamp t) (series_last_timestamp t) false
    (sr_layout _ _ Hr) (rep_empty _ _ Hr)) as [Hok El].
  assert (select (get_min_timestamp t) (series_last_timestamp t) (concat ls) = visible t (concat ls)) as Ev.
  { unfold select, visible. unfold series_last_timestamp. rewrite (sr_last _ _ Hr).
    destruct (sr_layout _ _ Hr) as (_ & _ & Hs & _). destruct (concat ls) as [|a k _] eqn:Ek using rev_ind; [done|].
    rewrite last_snoc. apply ts_sorted_snoc in Hs as [_ Ha]. apply List.filter_ext_in.
    intros x Hx%list_elem_of_In. unfold in_range. apply elem_of_app in Hx as [Hx|Hx%list_elem_of_singleton].
    - rewrite Forall_forall in Ha. specialize (Ha x Hx). unfold ts_lt in Ha. lia.
    - subst. lia. }
  rewrite Ev in El. pose proof (si_next_spec _ ls Hok) as Hn. destruct (si_next _) as [[x it']|].
  - destruct Hn as [Hx _]. rewrite El in Hx. by rewrite Hx.
  - exfalso. rewrite Hn in El. pose proof (min_timestamp_bounds t ls Hr) as Hm. rewrite (sr_last _ _ Hr) in Hm.
    rewrite (sr_first _ _ Hr) in Hgt. destruct (list.last (concat ls)) as [x|] eqn:Ex.
    + apply last_Some_elem_of in Ex. assert (x ∈ visible t (concat ls)) as Hin.
      { apply list_elem_of_In, List.filter_In. rewrite <- list_elem_of_In. split; [done|]. lia. }
      rewrite <- El in Hin. by apply elem_of_nil in Hin.
    + apply last_None in Ex. rewrite Ex, Hm in Hgt. cbn in Hgt. lia.
Qed.

End Reads.
