(* ===== verification/SeriesWrites.v ===== *)
(** * SeriesWrites: adding and deleting samples

    [add] refines an insert into the stored list under the series' policies,
    [remove_range] deletes a window of what is visible.  Both keep the invariant
    of [SeriesLaws]. *)

From S2P Require Import Prelude Float64 Types Slice Content Merge ChunkOps Elf64 ChunkMethods TimeSeriesChunk ChunkSearch SeriesIterator.
From S2P Require Import Rounding TimeSeries SeriesLaws SeriesReads.

Section Writes.

Context `{Log10} `{ServerConfig}.

(** ** Adding *)

(** What an add does to the stored list, before the retention trim. *)
Definition add_result (t : TimeSeries) (ts : Timestamp) (v : f64) (ov : option DuplicatePolicy) (l : list Sample)
    : SampleAddResult * list Sample :=
  let s := make_sample t ts v in
  if is_older_than_retention t ts then (TooOld, l)
  else
    match list.last l with
    | Some x =>
        if (timestamp x <=? ts) && is_duplicate config_duplicate_policy (sample_duplicates t) s x ov
        then (Ignored (timestamp x), l)
        else match list_upsert (series_policy t ov) s l with
             | Ok l' => (AddOk s, l')
             | Err _ => (Duplicate, l)
             end
    | None => (AddOk s, [s])
    end.

Lemma appends_last l x s :
  content_ok l -> list.last l = Some x -> timestamp x < timestamp s -> appends l s.
Proof.
  intros Hc (k & ->)%last_Some Hlt. by apply appends_app.
Qed.

Lemma add_deferring_spec t ls ts v ov :
  series_rep chunk_fit t ls -> 0 <= ts < 2 ^ 63 -> is_f64 v ->
  exists t' ls', add_deferring_retention t ts v ov = ((add_result t ts v ov (concat ls)).1, t') /\
    series_rep chunk_fit t' ls' /\ settings t' = settings t /\ concat ls' = (add_result t ts v ov (concat ls)).2.
Proof.
  intros Hr Hts Hv. unfold add_deferring_retention, add_result, validate_sample.
  pose proof (make_sample_valid t ts v Hts Hv) as Hs. set (s := make_sample t ts v) in *.
  change ts with (timestamp s). clearbody s.
  destruct (is_older_than_retention t (timestamp s)) eqn:Hold; [by exists t, ls|].
  rewrite (sr_last _ _ Hr). destruct (sr_layout _ _ Hr) as (_ & _ & Hc).
  destruct (list.last (concat ls)) as [x|] eqn:Ex.
  - destruct (is_duplicate _ _ s x ov); cbn [add_is_ok negb]; destruct (Z.leb_spec (timestamp x) (timestamp s)) as [Hle|Hlt];
      cbn [andb]; [by exists t, ls|..].
    all: destruct (Z.leb_spec (timestamp s) (timestamp x)) as [Hle'|Hlt']; try lia.
    all: try (destruct (upsert_sample_spec t ls s ov x Hr Ex Hle' Hs Hold) as (res & t' & ls' & -> & Hr' & Hset & Hres);
      exists t', ls'; destruct (list_upsert _ s (concat ls)); destruct Hres as [-> ?]; by split_and!).
    pose proof (appends_last _ _ _ Hc Ex Hlt') as Ha.
    destruct (add_internal_spec t ls s Hr Hs Ha) as (t' & ls' & -> & Hr' & Ecat & Hset).
    exists t', ls'. rewrite list_upsert_after by exact Ha. by split_and!.
  - apply last_None in Ex. destruct (add_internal_spec t ls s Hr Hs) as (t' & ls' & -> & Hr' & Ecat & Hset).
    { rewrite Ex. constructor. }
    exists t', ls'. rewrite Ex in Ecat. by split_and!.
Qed.

Lemma retention_zero_eq t t' : settings t' = settings t -> retention_is_zero t' = retention_is_zero t.
Proof. unfold settings, retention_is_zero. by intros [= -> _ _ _ _]. Qed.

(** The retention pass drops a prefix below the floor and leaves the floor. *)
Lemma apply_retention_spec {P} `{!Shrinks P} t ls :
  series_rep P t ls ->
  exists ls' dead, series_rep P (apply_retention t) ls' /\ settings (apply_retention t) = settings t /\
    concat ls = dead ++ concat ls' /\ Forall (fun x => timestamp x < get_min_timestamp (apply_retention t)) dead /\
    last_sample (apply_retention t) = last_sample t /\ (retention_is_zero t = true -> dead = []).
Proof.
  intros Hr. unfold apply_retention. destruct (retention_is_zero t) eqn:Hz; [by exists ls, []|].
  destruct (trim_spec t ls false Hr) as (t' & ls' & dead & E & Hr' & Hset & Ecat & Hd & Hlast & _).
  unfold trim_lazily. rewrite E. cbn [snd]. exists ls', dead. split_and!; try done.
  by rewrite (min_timestamp_eq t t').
Qed.

Lemma add_spec t ls ts v ov :
  series_rep chunk_fit t ls -> 0 <= ts < 2 ^ 63 -> is_f64 v ->
  exists t' ls' dead, add t ts v ov = ((add_result t ts v ov (concat ls)).1, t') /\
    series_rep chunk_fit t' ls' /\ settings t' = settings t /\
    (add_result t ts v ov (concat ls)).2 = dead ++ concat ls' /\
    Forall (fun x => timestamp x < get_min_timestamp t') dead /\
    last_sample t' = list.last (add_result t ts v ov (concat ls)).2 /\
    (retention_is_zero t = true -> dead = []).
Proof.
  intros Hr Hts Hv. destruct (add_deferring_spec t ls ts v ov Hr Hts Hv) as (t1 & ls1 & E & Hr1 & Hset1 & Ecat1).
  unfold add, add_reporting_insert. rewrite E. destruct (add_is_ok _).
  - destruct (apply_retention_spec t1 ls1 Hr1) as (ls' & dead & Hr' & Hset & Ecat & Hd & Hlast & Hz).
    eexists _, ls', dead. split; [done|]. split_and!; [done|by rewrite Hset|by rewrite <- Ecat1|done| |].
    + by rewrite Hlast, (sr_last _ _ Hr1), Ecat1.
    + intros Hz0. apply Hz. rewrite <- Hz0. by apply retention_zero_eq.
  - eexists t1, ls1, []. split_and!; try done. by rewrite (sr_last _ _ Hr1), Ecat1.
Qed.

(** ** Deleting *)

Lemma remove_internal_spec {P} `{!Shrinks P} (c : TimeSeriesChunk) l s e :
  holds c l -> l <> [] -> P c ->
  exists c', remove_internal c s e = Ok (Z.of_nat (length (select s e l)), c') /\ holds c' (remove s e l) /\ P c'.
Proof.
  intros Hh Hl Hf. unfold remove_internal, is_contained_by_range. pose proof (holds_bounds _ _ Hh) as Hb.
  destruct ((s <=? first_timestamp c) && (last_timestamp c <=? e)) eqn:Ec.
  - destruct (holds_clear c l Hh) as [Hh' Hm]. exists (chunk_clear c).
    assert (Forall (fun x => s <= timestamp x <= e) l) as Hin
      by (eapply Forall_impl; [exact Hb|]; cbn beta; intros; lia).
    rewrite (select_all s e l Hin), (remove_all s e l Hin), (holds_len _ _ Hh). split_and!; [done|done|].
    eapply (shrinks c); [exact Hf|apply capacity_clear|done|]. rewrite (holds_len _ _ Hh'), (holds_len _ _ Hh). cbn. lia.
  - destruct (holds_remove_range c l s e Hh) as (c' & E & Hh' & Hm). exists c'. split_and!; [done|done|].
    eapply (shrinks c); [exact Hf|by eapply capacity_remove|done|].
    rewrite (holds_len _ _ Hh'), (holds_len _ _ Hh). pose proof (length_select_remove s e l). lia.
Qed.

Lemma remove_from_chunks_spec {P} `{!Shrinks P} cs ls s e :
  layout cs ls -> Forall P cs ->
  exists cs', remove_from_chunks cs s e = (Ok (Z.of_nat (length (select s e (concat ls)))), cs') /\
    Forall2 holds cs' (map (remove s e) ls) /\ Forall P cs'.
Proof.
  intros (HF & HN & _). revert HN. induction HF as [|c l cs ls Hh HF IH]; intros HN Hf; [by exists []|].
  apply Forall_cons in HN as [Hl HN]. apply Forall_cons in Hf as [Hfc Hf]. cbn [remove_from_chunks].
  destruct (remove_internal_spec c l s e Hh Hl Hfc) as (c' & -> & Hh' & Hfc').
  destruct (IH HN Hf) as (cs' & -> & HF' & Hf'). exists (c' :: cs'). cbn [concat map].
  rewrite select_app, length_app, Nat2Z.inj_add. split_and!; [done|by constructor|by constructor].
Qed.

Lemma concat_map_remove s e ls : concat (map (remove s e) ls) = remove s e (concat ls).
Proof. induction ls as [|l ls IH]; [done|]. cbn [map concat]. by rewrite IH, remove_app. Qed.

(** Dropping the empty chunks of a list gives a layout. *)
Lemma layout_retain cs ls :
  Forall2 (holds (C := TimeSeriesChunk)) cs ls -> content_ok (concat ls) ->
  exists ls', layout (List.filter (fun c => negb (chunk_is_empty c)) cs) ls' /\ concat ls' = concat ls.
Proof.
  induction 1 as [|c l cs ls Hh HF IH]; intros Hc; [by exists []|]. cbn [concat] in Hc |- *.
  apply content_ok_app in Hc as (Hcl & Hcr & Hlt). destruct (IH Hcr) as (ls' & HL & Ecat). cbn [List.filter].
  rewrite (holds_is_empty _ _ Hh). destruct l as [|x l]; cbn [negb].
  - by exists ls'.
  - exists ((x :: l) :: ls'). split; [|cbn; by rewrite Ecat]. apply layout_cons. rewrite Ecat. by split_and!.
Qed.

Lemma remove_outside s e l1 l2 l3 :
  Forall (fun x => timestamp x < s) l1 -> Forall (fun x => e < timestamp x) l3 ->
  remove s e (l1 ++ l2 ++ l3) = l1 ++ remove s e l2 ++ l3.
Proof.
  intros H1 H3. rewrite !remove_app, (remove_none s e l1), (remove_none s e l3); [done|..].
  - eapply Forall_impl; [exact H3|]. cbn beta. intros; lia.
  - eapply Forall_impl; [exact H1|]. cbn beta. intros; lia.
Qed.

Lemma remove_window_spec {P} `{!Shrinks P} t ls s e :
  series_rep P t ls -> s <= e ->
  exists t' ls', remove_window t s e = (Ok (Z.of_nat (length (select s e (concat ls)))), t') /\
    series_rep P t' ls' /\ settings t' = settings t /\ concat ls' = remove s e (concat ls).
Proof.
  intros Hr Hse. pose proof (index_bounds_spec t ls s e Hr Hse) as Hb. pose proof Hr as [HL Hf Ht _ _ Hset].
  pose proof HL as (HF0 & _ & Hok). unfold remove_window. destruct (get_chunk_index_bounds t s e) as [[i j]|].
  2: { exists t, ls. rewrite Hb. split_and!; try done. by rewrite remove_unselected. }
  destruct Hb as (Hij & Hlow & Hhigh). destruct (slice_select t ls s e i j Hr Hij Hlow Hhigh) as [HLs Esel].
  destruct (remove_from_chunks_spec _ _ s e HLs) as (cs & -> & HF & Hfs).
  { unfold slice_incl. by apply Forall_take, Forall_drop. }
  rewrite <- Esel. cbn [chunks with_chunks]. set (cs0 := take i _ ++ cs ++ _).
  set (ls0 := take i ls ++ map (remove s e) (slice_incl ls i j) ++ drop (S j) ls).
  assert (concat ls0 = remove s e (concat ls)) as Ecat0.
  { rewrite (slice_split ls i j) at 1 by lia. unfold ls0. rewrite !concat_app, concat_map_remove.
    by rewrite remove_outside. }
  destruct (layout_retain cs0 ls0) as (ls' & HL' & Ecat).
  { unfold cs0, ls0. repeat apply Forall2_app; [by apply Forall2_take|done|by apply Forall2_drop]. }
  { rewrite Ecat0. by apply content_ok_remove. }
  set (t1 := with_total _ _). destruct (update_ends_rep (P := P) t1 ls') as [Hr' Hset']; [done| | |done|].
  - apply Forall_list_filter. unfold cs0. apply Forall_app. split; [by apply Forall_take|].
    apply Forall_app. split; [done|by apply Forall_drop].
  - cbn. rewrite Ht, Ecat, Ecat0. pose proof (length_select_remove s e (concat ls)). unfold sat_usize_sub. lia.
  - exists (update_first_last_timestamps t1), ls'. split_and!; [done|done|by rewrite Hset'|by rewrite Ecat].
Qed.

Lemma select_floor t t' s e l :
  get_min_timestamp t' = get_min_timestamp t ->
  select (Z.max s (get_min_timestamp t')) e (visible t l) = select s e (visible t l) /\
  remove (Z.max s (get_min_timestamp t')) e (visible t l) = remove s e (visible t l).
Proof.
  intros ->. assert (forall x, x ∈ visible t l ->
    in_range (Z.max s (get_min_timestamp t)) e x = in_range s e x) as Hin.
  { intros x [_ Hx]%list_elem_of_In%List.filter_In. unfold in_range. lia. }
  split; apply List.filter_ext_in; intros x Hx%list_elem_of_In; by rewrite Hin.
Qed.

Lemma remove_range_spec {P} `{!Shrinks P} t ls s e :
  series_rep P t ls ->
  exists t' ls', remove_range t s e = (Ok (Z.of_nat (length (select s e (visible t (concat ls))))), t') /\
    series_rep P t' ls' /\ settings t' = settings t /\
    (s <= e -> concat ls' = remove s e (visible t (concat ls))) /\ (e < s -> t' = t).
Proof.
  intros Hr. unfold remove_range. destruct (Z.ltb_spec e s) as [Hlt|Hle].
  { exists t, ls. rewrite select_none by (apply Forall_true; intros; lia). split_and!; try done. lia. }
  destruct (retention_is_zero t) eqn:Hz.
  { rewrite Hz. destruct (Z.ltb_spec e s); [lia|]. destruct (remove_window_spec t ls s e Hr Hle) as (t' & ls' & E & Hr' & Hset & Ecat).
    assert (visible t (concat ls) = concat ls) as ->.
    { apply (visible_untrimmed t ls Hr). unfold get_min_timestamp. rewrite Hz. lia. }
    exists t', ls'. split_and!; try done. lia. }
  destruct (trim_spec t ls true Hr) as (t1 & ls1 & dead & E & Hr1 & Hset1 & Ecat1 & Hd & Hlast & Hk).
  unfold trim. rewrite E. assert (retention_is_zero t1 = false) as Hz1 by (by rewrite (retention_zero_eq t t1)).
  rewrite Hz1. assert (get_min_timestamp t1 = get_min_timestamp t) as Hm by (by apply min_timestamp_eq).
  assert (visible t (concat ls) = concat ls1) as Ev.
  { rewrite Ecat1, visible_app, (visible_none _ _ Hd), (visible_all _ _ (Hk eq_refl)). done. }
  destruct (select_floor t t1 s e (concat ls) Hm) as [Es Er]. rewrite Ev in *. rewrite <- Es, <- Er.
  set (s' := Z.max s (get_min_timestamp t1)) in *. destruct (Z.ltb_spec e s') as [Hlt|Hle'].
  - exists t1, ls1. rewrite select_none by (apply Forall_true; intros; lia). split_and!; try done; [|lia].
    intros _. symmetry. apply remove_unselected, select_none, Forall_true. intros; lia.
  - destruct (remove_window_spec t1 ls1 s' e Hr1 Hle') as (t' & ls' & E' & Hr' & Hset' & Ecat').
    exists t', ls'. split_and!; [done|done|by rewrite Hset'|done|lia].
Qed.

(** ** Splitting overfull chunks *)

Lemma needs_split_len (c : TimeSeriesChunk) l :
  holds c l -> budget_ok (chunk_max_size c) -> needs_split c = true -> (2 <= length l)%nat.
Proof.
  intros Hh Hb Hn. pose proof (holds_size _ _ Hh) as Hs. unfold needs_split in Hn.
  apply andb_true_iff in Hn as [_ Hn%Z.ltb_lt]. unfold budget_ok, MIN_CHUNK_SIZE in Hb.
  assert (0 <= chunk_max_size c / SPLIT_SLACK_DIVISOR) by (apply Z.div_pos; [lia|done]). lia.
Qed.

Lemma merge_runs_nil_r a : merge_runs a [] = a.
Proof. by destruct a. Qed.

Lemma merge_runs_cons x a y b :
  merge_runs (x :: a) (y :: b) =
  if first_timestamp x <=? first_timestamp y then x :: merge_runs a (y :: b) else y :: merge_runs (x :: a) b.
Proof. done. Qed.

Lemma merge_runs_elem x a b : x ∈ a \/ x ∈ b -> x ∈ merge_runs a b.
Proof.
  revert b. induction a as [|y a IHa]; intros b; [by intros [Hx%elem_of_nil|Hx]; [|destruct b]|].
  induction b as [|z b IHb]; [rewrite merge_runs_nil_r; by intros [|Hx%elem_of_nil]|]. rewrite merge_runs_cons.
  destruct (_ <=? _); rewrite !elem_of_cons; intros Hx.
  - destruct Hx as [[->|Hx]|Hx]; [by left|right; apply IHa; by left|]. right. apply IHa. right. by apply elem_of_cons.
  - destruct Hx as [Hx|[->|Hx]]; [|by left|]; right; apply IHb; [left; by apply elem_of_cons|by right].
Qed.

(** A chunk before everything that follows comes out first. *)
Lemma merge_runs_head_l c a b :
  Forall (fun d => first_timestamp c <= first_timestamp d) b -> merge_runs (c :: a) b = c :: merge_runs a b.
Proof.
  destruct 1 as [|d b Hd _]; [by rewrite !merge_runs_nil_r|]. rewrite merge_runs_cons.
  by destruct (Z.leb_spec (first_timestamp c) (first_timestamp d)); [|lia].
Qed.

Lemma merge_runs_head_r c a b :
  Forall (fun d => first_timestamp c < first_timestamp d) a -> merge_runs a (c :: b) = c :: merge_runs a b.
Proof.
  destruct 1 as [|d a Hd _]; [by destruct b|]. rewrite merge_runs_cons.
  by destruct (Z.leb_spec (first_timestamp d) (first_timestamp c)); [lia|].
Qed.

Lemma insert_by_key_head {A} (key : A -> Z) x l :
  Forall (fun y => key x <= key y) l -> insert_by_key key x l = x :: l.
Proof. destruct 1 as [|y l Hy _]; [done|]. cbn. by destruct (Z.leb_spec (key x) (key y)); [|lia]. Qed.

Lemma split_pass_spec cs ls :
  layout cs ls -> Forall (fun c => budget_ok (chunk_max_size c)) cs ->
  exists kept new ls', split_pass cs = (kept, new, false) /\
    sort_by_key (fun c => first_timestamp c) new = new /\
    layout (merge_runs kept new) ls' /\ concat ls' = concat ls.
Proof.
  revert ls. induction cs as [|c cs IH]; intros ls HL Hb.
  { exists [], [], []. rewrite (layout_nil_inv _ HL). split_and!; [done|done|apply layout_nil|done]. }
  apply layout_cons_inv in HL as (l & ls0 & -> & (Hh & Hl & HL & Hlt)%layout_cons).
  apply Forall_cons in Hb as [Hbc Hb]. destruct (IH ls0 HL Hb) as (kept & new & ls' & E & Hsort & HL' & Ecat).
  assert (forall d, d ∈ kept \/ d ∈ new -> forall x, x ∈ l -> timestamp x < first_timestamp d) as Hafter.
  { intros d Hd%merge_runs_elem x Hx. apply list_elem_of_lookup in Hd as [j Hj].
    destruct (layout_lookup _ _ _ _ HL' Hj) as (k & Hk & Hhk & Hkn). destruct (holds_ends d k Hhk Hkn) as ((y & Hy & <-) & _).
    rewrite Forall_forall in Hlt. specialize (Hlt x Hx). cbn beta in Hlt. rewrite Forall_forall in Hlt. apply Hlt.
    rewrite <- Ecat. apply elem_of_concat. exists k. split; [by eapply list_elem_of_lookup_2|done]. }
  cbn [split_pass concat]. rewrite E. unfold seal_chunk. destruct (needs_split c) eqn:Hn.
  - pose proof (needs_split_len _ _ Hh Hbc Hn) as Hl2. destruct (holds_split c l Hh Hl2) as (c1 & c2 & -> & H1 & H2 & _).
    destruct (halves_of l Hl2) as (l1 & l2 & El & T1 & T2 & _ & N1 & N2). rewrite T1 in H1. rewrite T2 in H2.
    destruct (holds_ends c1 l1 H1 N1) as ((x1 & Hx1 & E1) & _). destruct (holds_ends c2 l2 H2 N2) as ((x2 & Hx2 & E2) & _).
    pose proof (holds_content _ _ Hh) as [Hs _]. rewrite El in Hs. apply ts_sorted_app in Hs as (_ & _ & H12).
    assert (first_timestamp c1 < first_timestamp c2) as Hc12.
    { rewrite Forall_forall in H12. specialize (H12 x1 Hx1). cbn beta in H12. rewrite Forall_forall in H12.
      specialize (H12 x2 Hx2). unfold ts_lt in H12. lia. }
    assert (forall d, d ∈ kept \/ d ∈ new -> first_timestamp c2 < first_timestamp d) as Hd2.
    { intros d Hd. rewrite <- E2. apply (Hafter d Hd). rewrite El. apply elem_of_app. by right. }
    exists (c1 :: kept), (c2 :: new), (l1 :: l2 :: ls'). split; [done|]. split.
    { unfold sort_by_key in *. cbn [foldr]. rewrite Hsort. apply insert_by_key_head, Forall_forall.
      intros d Hd. specialize (Hd2 d (or_intror Hd)). lia. }
    rewrite merge_runs_head_l.
    2: { constructor; [lia|]. apply Forall_forall. intros d Hd. specialize (Hd2 d (or_intror Hd)). lia. }
    rewrite merge_runs_head_r by (apply Forall_forall; intros d Hd; apply Hd2; by left).
    rewrite El in Hlt |- *. apply Forall_app in Hlt as [Hlt1 Hlt2]. split; [|cbn [concat]; by rewrite Ecat, <- app_assoc].
    apply layout_cons. cbn [concat]. rewrite Ecat. split_and!; [done|done|apply layout_cons; rewrite Ecat; by split_and!|].
    apply Forall_forall. intros x Hx. apply Forall_app. rewrite Forall_forall in H12, Hlt1. split; [by apply H12|by apply Hlt1].
  - exists (c :: kept), new, (l :: ls'). split; [done|]. split; [done|].
    rewrite merge_runs_head_l.
    2: { apply Forall_forall. intros d Hd. destruct (holds_ends c l Hh Hl) as ((x & Hx & <-) & _).
         specialize (Hafter d (or_intror Hd) x Hx). lia. }
    split; [|cbn [concat]; by rewrite Ecat]. apply layout_cons. rewrite Ecat. by split_and!.
Qed.

End Writes.

(** ** The sorts and the deduplication the series code calls

    [sort_by_key] is a permutation in key order, and the only one where keys
    differ; sorting and deduplicating timestamps lists each one once, in order. *)

Section Sort.

Context {A : Type} (key : A -> Z).

Lemma insert_by_key_perm x l : insert_by_key key x l ≡ₚ x :: l.
Proof.
  induction l as [|y l IH]; [done|]. cbn [insert_by_key]. destruct (_ <=? _); [done|].
  rewrite IH. apply Permutation_swap.
Qed.

Lemma sort_by_key_perm l : sort_by_key key l ≡ₚ l.
Proof.
  induction l as [|x l IH]; [done|]. cbn [sort_by_key foldr]. rewrite insert_by_key_perm. by constructor.
Qed.

Definition key_sorted : list A -> Prop := StronglySorted (fun a b => key a <= key b).

Lemma insert_by_key_sorted x l : key_sorted l -> key_sorted (insert_by_key key x l).
Proof.
  induction 1 as [|y l Hs IH Hy]; cbn [insert_by_key]; [by repeat constructor|].
  destruct (Z.leb_spec (key x) (key y)).
  - constructor; [by constructor|]. constructor; [done|]. eapply Forall_impl; [exact Hy|]. cbn. intros; lia.
  - constructor; [done|]. rewrite insert_by_key_perm. constructor; [cbn; lia|done].
Qed.

Lemma sort_by_key_sorted l : key_sorted (sort_by_key key l).
Proof. induction l as [|x l IH]; [constructor|]. by apply insert_by_key_sorted. Qed.

Definition key_increasing : list A -> Prop := StronglySorted (fun a b => key a < key b).

Lemma key_increasing_app a b :
  key_increasing (a ++ b) <->
  key_increasing a /\ key_increasing b /\ Forall (fun x => Forall (fun y => key x < key y) b) a.
Proof.
  induction a as [|x a IH]; cbn [app].
  - split; [|tauto]. intros. split_and!; [constructor|done|constructor].
  - unfold key_increasing in *. split.
    + inversion 1 as [|? ? Hs Hx]; subst. apply IH in Hs as (Ha & Hb & Hab). apply Forall_app in Hx as [Hxa Hxb].
      split_and!; [by constructor|done|by constructor].
    + intros (Ha & Hb & Hab). inversion Ha; subst. apply Forall_cons in Hab as [Hxb Hab].
      constructor; [by apply IH|]. by apply Forall_app.
Qed.

Lemma insert_by_key_place a x b :
  key_increasing (a ++ x :: b) -> insert_by_key key x (a ++ b) = a ++ x :: b.
Proof.
  induction a as [|y a IH]; cbn [app]; intros Hs.
  - inversion Hs as [|? ? _ Hx]; subst. apply insert_by_key_head. eapply Forall_impl; [exact Hx|]. cbn. intros; lia.
  - inversion Hs as [|? ? Hs' Hy]; subst. cbn [insert_by_key].
    apply Forall_app in Hy as [_ [Hyx _]%Forall_cons].
    destruct (Z.leb_spec (key x) (key y)); [lia|]. by rewrite IH.
Qed.

(** Sorting finds the one increasing order. *)
Lemma sort_by_key_unique l l' : key_increasing l -> l' ≡ₚ l -> sort_by_key key l' = l.
Proof.
  revert l. induction l' as [|x l' IH]; intros l Hs Hp; [by apply Permutation_nil_l in Hp|].
  assert (x ∈ l) as (a & b & ->)%list_elem_of_split by (rewrite <- Hp; by left).
  cbn [sort_by_key foldr]. fold (sort_by_key key l'). rewrite (IH (a ++ b)).
  - by apply insert_by_key_place.
  - apply key_increasing_app in Hs as (Ha & Hb & Hab). inversion Hb; subst. apply key_increasing_app.
    split_and!; [done|done|]. eapply Forall_impl; [exact Hab|]. intros y Hy. by apply Forall_cons in Hy as [_ ?].
  - apply (Permutation_cons_inv (a := x)). rewrite Hp. symmetry. apply Permutation_middle.
Qed.

End Sort.

(** ** Distinct timestamps *)

Lemma dedup_from_spec prev l : StronglySorted Z.le (prev :: l) ->
  StronglySorted Z.lt (prev :: dedup_from prev l) /\ forall x, x ∈ prev :: dedup_from prev l <-> x ∈ prev :: l.
Proof.
  revert prev. induction l as [|y l IH]; intros prev Hs; [split; [repeat constructor|done]|].
  inversion Hs as [|? ? Hl Hp]; subst. apply Forall_cons in Hp as [Hy Hp]. cbn [dedup_from].
  destruct (Z.eqb_spec y prev) as [->|Hne].
  - destruct (IH prev Hl) as [H1 H2]. split; [done|]. intros x. rewrite H2, !elem_of_cons. tauto.
  - destruct (IH y Hl) as [H1 H2]. split.
    + constructor; [done|]. apply Forall_forall. intros x Hx%H2%elem_of_cons.
      assert (prev < y) by lia. destruct Hx as [->|Hx]; [done|]. inversion Hl as [|? ? _ Hyl]; subst.
      rewrite Forall_forall in Hyl. specialize (Hyl x Hx). lia.
    + intros x. rewrite elem_of_cons, H2, !elem_of_cons. tauto.
Qed.

Lemma distinct_spec l :
  StronglySorted Z.lt (dedup (sort_by_key id l)) /\ forall x, x ∈ dedup (sort_by_key id l) <-> x ∈ l.
Proof.
  pose proof (sort_by_key_sorted id l) as Hs. pose proof (sort_by_key_perm id l) as Hp. unfold key_sorted in Hs.
  destruct (sort_by_key id l) as [|y l'] eqn:E; cbn [dedup].
  - split; [constructor|]. intros x. by rewrite <- Hp.
  - destruct (dedup_from_spec y l' Hs) as [H1 H2]. split; [done|]. intros x. by rewrite H2, Hp.
Qed.

Lemma dedup_from_length p l : (length (dedup_from p l) <= length l)%nat.
Proof.
  revert p. induction l as [|y l IH]; intros p; [done|]. cbn [dedup_from].
  destruct (_ =? _); cbn; [specialize (IH p)|specialize (IH y)]; lia.
Qed.

Lemma dedup_length l : (length (dedup l) <= length l)%nat.
Proof. destruct l as [|y l]; [done|]. cbn. pose proof (dedup_from_length y l). lia. Qed.

Lemma StronglySorted_filter {A} (R : A -> A -> Prop) (P : A -> bool) l : StronglySorted R l -> StronglySorted R (List.filter P l).
Proof.
  induction 1 as [|x l Hs IH Hx]; [constructor|]. cbn. destruct (P x); [|done]. constructor; [done|].
  apply Forall_forall. intros y [Hy _]%list_elem_of_In%filter_In. rewrite Forall_forall in Hx. by apply Hx, list_elem_of_In.
Qed.

Lemma StronglySorted_lookup {A} (R : A -> A -> Prop) l i j x y : StronglySorted R l -> (i < j)%nat -> l !! i = Some x -> l !! j = Some y -> R x y.
Proof.
  intros Hs. revert i j. induction Hs as [|z l Hs IH Hz]; intros [|i] [|j] Hij Hi Hj; try lia; try done; cbn in *; [|by eapply (IH i j); [lia|..]].
  injection Hi as ->. rewrite Forall_forall in Hz. by apply Hz, (list_elem_of_lookup_2 _ j).
Qed.

Lemma StronglySorted_weaken {A} (R S : A -> A -> Prop) l : (forall x y, R x y -> S x y) -> StronglySorted R l -> StronglySorted S l.
Proof. intros Hi. induction 1 as [|x l Hs IH Hx]; constructor; [done|]. eapply Forall_impl; [exact Hx|]. apply Hi. Qed.

Lemma StronglySorted_reverse {A} (R : A -> A -> Prop) l : StronglySorted R l -> StronglySorted (fun x y => R y x) (reverse l).
Proof.
  induction 1 as [|x l Hs IH Hx]; [constructor|]. rewrite reverse_cons. apply StronglySorted_app. split_and!; [|done|by repeat constructor].
  intros y z Hy%elem_of_reverse Hz%list_elem_of_singleton. subst z. rewrite reverse_involutive in Hy.
  exact (proj1 (Forall_forall _ _) Hx y Hy).
Qed.

(** ** Lists sorted by time *)

(** A time-ordered list is determined by its elements. *)
Lemma ts_sorted_ext l1 l2 : ts_sorted l1 -> ts_sorted l2 -> (forall x, x ∈ l1 <-> x ∈ l2) -> l1 = l2.
Proof.
  intros Hs. revert l2. induction Hs as [|x l1 Hs IH Hx]; intros l2 Hs2 He.
  { destruct l2 as [|y l2]; [done|]. pose proof (proj2 (He y) ltac:(by left)) as Hy. by apply elem_of_nil in Hy. }
  destruct Hs2 as [|y l2 Hs2 Hy]; [pose proof (proj1 (He x) ltac:(by left)) as Hn; by apply elem_of_nil in Hn|]. rewrite Forall_forall in Hx, Hy. unfold ts_lt in *.
  assert (x = y) as ->.
  { pose proof (proj1 (He x) ltac:(by left)) as [->|Hxy]%elem_of_cons; [done|].
    pose proof (proj2 (He y) ltac:(by left)) as [->|Hyx]%elem_of_cons; [done|]. specialize (Hx y Hyx). specialize (Hy x Hxy). lia. }
  f_equal. apply IH; [done|]. intros z. specialize (He z). rewrite !elem_of_cons in He. split; intros Hz.
  - destruct (proj1 He (or_intror Hz)) as [->|]; [|done]. specialize (Hx y Hz). lia.
  - destruct (proj2 He (or_intror Hz)) as [->|]; [|done]. specialize (Hy y Hz). lia.
Qed.

Lemma lookup_ts_elem l x : ts_sorted l -> x ∈ l -> lookup_ts (timestamp x) l = Some x.
Proof.
  induction 1 as [|y l Hs IH Hy]; intros Hx; [by apply elem_of_nil in Hx|]. cbn [lookup_ts].
  apply elem_of_cons in Hx as [->|Hx]; [by rewrite Z.eqb_refl|]. rewrite Forall_forall in Hy. specialize (Hy x Hx). unfold ts_lt in Hy.
  destruct (Z.eqb_spec (timestamp y) (timestamp x)); [lia|by apply IH].
Qed.

Lemma lookup_remove s e u l : lookup_ts u (remove s e l) = if (s <=? u) && (u <=? e) then None else lookup_ts u l.
Proof.
  induction l as [|x l IH]; [by destruct (_ && _)|]. unfold remove in *. cbn [List.filter lookup_ts]. unfold in_range in *.
  destruct ((s <=? timestamp x) && (timestamp x <=? e)) eqn:E; cbn [negb lookup_ts];
    destruct (Z.eqb_spec (timestamp x) u) as [Hu|Hu]; rewrite ?IH; try done; rewrite <- Hu, E; done.
Qed.

Lemma lookup_is_Some u l : is_Some (lookup_ts u l) <-> exists x, x ∈ l /\ timestamp x = u.
Proof.
  split; [intros [x Hx%lookup_ts_Some]; by exists x|]. intros (x & Hx & <-). induction Hx as [|x y l Hx IH]; cbn; [rewrite Z.eqb_refl; eauto|].
  destruct (_ =? _); eauto.
Qed.

Lemma ts_sorted_NoDup l : ts_sorted l -> NoDup (map timestamp l).
Proof.
  induction 1 as [|x l Hs IH Hx]; cbn; constructor; [|done]. intros (y & Hy & Hin)%list_elem_of_In%in_map_iff.
  apply list_elem_of_In in Hin. rewrite Forall_forall in Hx. specialize (Hx y Hin). unfold ts_lt in Hx. lia.
Qed.
