(* ===== verification/SeriesProps.v ===== *)
(** * SeriesProps: the properties of a series

    The theorems about [TimeSeries] as its callers see it, over every encoding,
    each with a concrete series it applies to. *)

From S2P Require Import Prelude Float64 FloatBounds Types Slice Content Merge ChunkOps Uncompressed.
From S2P Require Import ChunkMethods Elf64 Log10Ref TimeSeriesChunk ChunkSearch SeriesIterator Rounding.
From S2P Require Import TimeSeries SeriesLaws SeriesReads SeriesWrites.

Section Props.

Context `{Log10} `{ServerConfig}.

(** ** Reachable series *)

(** A series as a client makes it: created from options, then changed by adds,
    increments, deletes and retention trims. *)
Inductive reachable : TimeSeries -> Prop :=
| reach_new o t : with_options o = Ok t -> 0 <= retention t < 2 ^ 63 * 1000000 -> reachable t
| reach_add t ts v ov : reachable t -> 0 <= ts < 2 ^ 63 -> is_f64 v -> reachable (add t ts v ov).2
| reach_increment t ts delta now : reachable t -> 0 <= default now ts < 2 ^ 63 -> is_f64 delta ->
    reachable (increment_sample_value t ts delta now).2
| reach_remove t s e : reachable t -> reachable (remove_range t s e).2
| reach_trim t force : reachable t -> reachable (trim_expired t force).2.

Lemma validate_budget n : validate_chunk_size n = Ok tt -> budget_ok n.
Proof.
  unfold validate_chunk_size, budget_ok. destruct (Z.leb_spec MIN_CHUNK_SIZE n); [|done].
  by destruct (Z.leb_spec n MAX_CHUNK_SIZE).
Qed.

Lemma with_options_fresh o t :
  with_options o = Ok t ->
  chunks t = [] /\ total_samples t = 0 /\ series_first t = 0 /\ last_sample t = None /\ budget_ok (chunk_size_bytes t).
Proof.
  unfold with_options. destruct (opt_chunk_size o) as [n|].
  - destruct (validate_chunk_size n) as [[]|] eqn:E; [|done]. apply validate_budget in E.
    destruct (default _ _) as [a b]. intros <-%ok_inj. by split_and!.
  - destruct (default _ _) as [a b]. intros <-%ok_inj. by split_and!.
Qed.

Lemma fresh_stores o t : with_options o = Ok t -> 0 <= retention t < 2 ^ 63 * 1000000 -> series_rep chunk_fit t [].
Proof.
  intros (E1 & E2 & E3 & E4 & Hb)%with_options_fresh Hr. split; try done; rewrite ?E1; try done. apply layout_nil.
Qed.

Lemma increment_spec t ls ts delta now :
  series_rep chunk_fit t ls -> 0 <= default now ts < 2 ^ 63 -> is_f64 delta ->
  exists ls', series_rep chunk_fit (increment_sample_value t ts delta now).2 ls'.
Proof.
  intros Hr Hts Hd. unfold increment_sample_value. destruct (f64_is_nan delta); [by exists ls|].
  destruct (last_sample t) as [x|] eqn:Ex.
  - destruct (rep_last_valid _ _ _ Hr Ex) as [[Hx Hv] Hx0]. destruct (f64_is_nan (value x)); [by exists ls|].
    destruct (Z.ltb_spec (default (timestamp x) ts) (timestamp x)); [by exists ls|].
    destruct (add_spec t ls (default (timestamp x) ts) (f64_add (value x) delta) (Some KeepLast) Hr)
      as (t' & ls' & dead & -> & Hr' & _); [destruct ts; cbn in *; unfold id in *; ilia|apply f64_of_spec_range|by exists ls'].
  - rewrite Z.ltb_irrefl. destruct (add_spec t ls (default now ts) delta (Some KeepLast) Hr Hts Hd)
      as (t' & ls' & dead & -> & Hr' & _). by exists ls'.
Qed.

Lemma reachable_rep t : reachable t -> exists ls, series_rep chunk_fit t ls.
Proof.
  induction 1 as [o t E Hr|t ts v ov _ [ls Hr] Hts Hv|t ts d now _ [ls Hr] Hts Hd|t s e _ [ls Hr]|t force _ [ls Hr]].
  - exists []. by eapply fresh_stores.
  - destruct (add_spec t ls ts v ov Hr Hts Hv) as (t' & ls' & dead & -> & Hr' & _). by exists ls'.
  - by eapply increment_spec.
  - destruct (remove_range_spec t ls s e Hr) as (t' & ls' & -> & Hr' & _). by exists ls'.
  - destruct (trim_spec t ls force Hr) as (t' & ls' & dead & -> & Hr' & _). by exists ls'.
Qed.

(** ** Lookups after an add *)

Lemma last_upsert_ts p s l l' x :
  ts_sorted l -> list.last l = Some x -> list_upsert p s l = Ok l' ->
  exists y, list.last l' = Some y /\ timestamp y = Z.max (timestamp s) (timestamp x).
Proof.
  intros Hs Hx E. pose proof (list_upsert_cases p s l Hs) as Hc. rewrite E in Hc.
  destruct (lookup_ts (timestamp s) l) as [z|] eqn:Ez.
  - destruct Hc as (a & b & -> & Hu & Ha & Hb). apply lookup_ts_Some in Ez as [_ Ez].
    destruct (duplicate_value _ _ _ _) as [v|]; [|done]. apply ok_inj in Hu as ->.
    destruct b as [|y b _] using rev_ind.
    + rewrite last_snoc in *. injection Hx as <-. eexists. split; [done|]. cbn. lia.
    + rewrite app_comm_cons, app_assoc, last_snoc in Hx |- *. injection Hx as <-. exists y. split; [done|].
      apply Forall_app in Hb as [_ [Hy _]%Forall_cons]. lia.
  - destruct Hc as (a & b & -> & Hu%ok_inj & Ha & Hb). subst l'. destruct b as [|y b _] using rev_ind.
    + rewrite app_nil_r in Hx. rewrite last_snoc. exists s. split; [done|].
      apply last_Some_elem_of in Hx. rewrite Forall_forall in Ha. specialize (Ha x Hx). cbn beta in Ha. lia.
    + rewrite app_assoc, last_snoc in Hx. injection Hx as <-. rewrite app_comm_cons, app_assoc, last_snoc.
      exists y. split; [done|]. apply Forall_app in Hb as [_ [Hy _]%Forall_cons]. lia.
Qed.

(** An accepted sample changes the stored list by an upsert. *)
Lemma add_result_ok t ts v ov l s l' :
  add_result t ts v ov l = (AddOk s, l') ->
  s = make_sample t ts v /\ is_older_than_retention t ts = false /\ list_upsert (series_policy t ov) s l = Ok l'.
Proof.
  unfold add_result. destruct (is_older_than_retention t ts); [done|]. destruct (list.last l) as [x|] eqn:Ex.
  - destruct (_ && _); [done|]. destruct (list_upsert _ _ l) eqn:E; [|done]. by intros [= <- <-].
  - apply last_None in Ex as ->. by intros [= <- <-].
Qed.

(** The sample just added is inside the window. *)
Lemma added_in_window t ls ts v ov s l' t' ls' :
  series_rep chunk_fit t ls -> series_rep chunk_fit t' ls' -> settings t' = settings t ->
  add_result t ts v ov (concat ls) = (AddOk s, l') -> last_sample t' = list.last l' ->
  is_older_than_retention t' ts = false.
Proof.
  intros Hr Hr' Hset E Hlast. apply add_result_ok in E as (-> & Hold & Eu).
  unfold is_older_than_retention in *. rewrite (retention_zero_eq t t' Hset).
  destruct (retention_is_zero t) eqn:Hz; [done|]. apply Z.ltb_ge in Hold. apply Z.ltb_ge.
  pose proof (min_timestamp_bounds _ _ Hr') as Hb'. destruct (sr_layout _ _ Hr) as (_ & _ & Hs & _).
  destruct (list.last (concat ls)) as [x|] eqn:Ex.
  - destruct (last_upsert_ts _ _ _ _ _ Hs Ex Eu) as (y & Ey & Hy). rewrite Hlast, Ey in Hb'. cbn [timestamp make_sample] in Hy.
    destruct (Z.le_gt_cases (timestamp x) ts); [lia|].
    assert (timestamp y = timestamp x) as Hyx by lia. clear Hy. revert Hold. unfold get_min_timestamp.
    rewrite (retention_zero_eq t t' Hset), Hz, Hlast, Ey, (sr_last _ _ Hr), Ex, Hyx.
    unfold retention_millis. unfold settings in Hset. by injection Hset as -> _ _ _ _.
  - apply last_None in Ex. rewrite Ex in Eu. apply ok_inj in Eu as <-. rewrite Hlast in Hb'. cbn in Hb'. lia.
Qed.

(** A sample inside the window is not in the dropped prefix. *)
Lemma lookup_dropped t dead l u :
  Forall (fun x => timestamp x < get_min_timestamp t) dead -> is_older_than_retention t u = false ->
  (retention_is_zero t = true -> dead = []) -> lookup_ts u (dead ++ l) = lookup_ts u l.
Proof.
  intros Hd Hu Hz. unfold is_older_than_retention in Hu. destruct (retention_is_zero t); [by rewrite Hz|].
  rewrite lookup_ts_app, lookup_ts_below; [done|]. eapply Forall_impl; [exact Hd|]. cbn beta. intros; lia.
Qed.

Lemma fits_memory_suffix l1 l2 : fits_memory (l1 ++ l2) -> fits_memory l2.
Proof. intros Hm. by apply fits_memory_app in Hm as (_ & ? & _). Qed.

Lemma take_while_length {A} (pred : A -> bool) l k :
  (k <= length l)%nat -> (forall j x, (j < k)%nat -> l !! j = Some x -> pred x = true) ->
  (forall x, l !! k = Some x -> pred x = false) -> length (take_while pred l) = k.
Proof.
  revert k. induction l as [|y l IH]; intros k Hk Hb Ha; cbn [take_while]; [cbn in *; lia|].
  destruct k as [|k].
  - by rewrite (Ha y eq_refl).
  - rewrite (Hb O y ltac:(lia) eq_refl). cbn [length]. f_equal. apply IH; [cbn in Hk; lia| |done].
    intros j x Hj. apply (Hb (S j)). lia.
Qed.

(** ** Properties *)

(** C2. The invariant of a series: whatever sequence of adds, increments, deletes
    and trims made it, its chunks are non-empty, in time order and disjoint, each
    configured with a legal size, no uncompressed one holds twice the samples it has
    room for, and the cached sample count, first timestamp and last sample are those
    of the stored samples.  The encoded size of a compressed chunk is not part of
    it. *)
Theorem series_invariant (t : TimeSeries) : reachable t -> exists ls, series_rep chunk_fit t ls.
Proof. apply reachable_rep. Qed.

(** C1. [add] refines an insert into a time-ordered list, for a series with no
    uncompressed chunk at twice its capacity, as adds, increments, deletes and trims
    leave it: the reply is the one the retention window, the IGNORE filter and the
    duplicate policy give, the series then stores the updated list, less a prefix
    that has left the retention window, and stays below the limit.  A batch can
    leave a chunk past it, and a valid sample is then refused
    ([bulk_overfill_blocks_add]). *)
Theorem series_add_refines (t : TimeSeries) (l : list Sample) (ts : Timestamp) (v : f64)
    (ov : option DuplicatePolicy) :
  stores chunk_fit t l -> 0 <= ts < 2 ^ 63 -> is_f64 v ->
  exists t' dead l', add t ts v ov = ((add_result t ts v ov l).1, t') /\ stores chunk_fit t' l' /\
    (add_result t ts v ov l).2 = dead ++ l' /\ Forall (fun x => timestamp x < get_min_timestamp t') dead /\
    settings t' = settings t.
Proof.
  intros (ls & Hr & <-) Hts Hv. destruct (add_spec t ls ts v ov Hr Hts Hv) as (t' & ls' & dead & E & Hr' & Hset & Ecat & Hd & _).
  exists t', dead, (concat ls'). split_and!; try done. by exists ls'.
Qed.

(** C5. Adding always concludes: no valid sample is refused with an internal
    error, and one newer than everything stored that the IGNORE filter lets
    pass is always accepted. *)
Theorem series_add_progress (t : TimeSeries) (ts : Timestamp) (v : f64) (ov : option DuplicatePolicy) :
  reachable t -> 0 <= ts < 2 ^ 63 -> is_f64 v ->
  (forall msg, (add t ts v ov).1 <> AddError msg) /\
  ((forall x, last_sample t = Some x -> timestamp x < ts /\
      is_duplicate config_duplicate_policy (sample_duplicates t) (make_sample t ts v) x ov = false) ->
   (add t ts v ov).1 = AddOk (make_sample t ts v)).
Proof.
  intros [ls Hr]%reachable_rep Hts Hv. destruct (add_spec t ls ts v ov Hr Hts Hv) as (t' & ls' & dead & -> & _). cbn [fst].
  unfold add_result. rewrite <- (sr_last _ _ Hr). split.
  - intros msg. by repeat case_match.
  - intros Hnew. pose proof (min_timestamp_bounds _ _ Hr) as Hm.
    assert (is_older_than_retention t ts = false) as ->.
    { unfold is_older_than_retention. destruct (retention_is_zero t); [done|]. apply Z.ltb_ge.
      destruct (last_sample t) as [x|]; [destruct (Hnew x eq_refl); lia|lia]. }
    destruct (last_sample t) as [x|] eqn:Ex; [|done]. destruct (Hnew x eq_refl) as [Hlt ->]. rewrite andb_false_r.
    rewrite list_upsert_after; [done|]. rewrite (sr_last _ _ Hr) in Ex. destruct (sr_layout _ _ Hr) as (_ & _ & Hc).
    by apply (appends_last _ x).
Qed.

(** After an accepted add, the timestamp answers with the value the
    duplicate policy gives, and every other timestamp inside the retention
    window answers as before. *)
Theorem series_add_lookup (t t' : TimeSeries) (l : list Sample) (ts u : Timestamp) (v : f64)
    (ov : option DuplicatePolicy) (s : Sample) :
  stores chunk_fit t l -> 0 <= ts < 2 ^ 63 -> is_f64 v -> fits_memory (s :: l) -> add t ts v ov = (AddOk s, t') ->
  get_sample t' ts = Ok (match lookup_ts ts l with
    | Some x => match duplicate_value (series_policy t ov) ts (value x) (value s) with
                | Ok w => Some (mkSample ts w) | Err _ => None end
    | None => Some s
    end) /\
  (u <> ts -> is_older_than_retention t' u = false -> get_sample t' u = get_sample t u).
Proof.
  intros (ls & Hr & <-) Hts Hv Hm E.
  destruct (add_spec t ls ts v ov Hr Hts Hv) as (t1 & ls' & dead & E1 & Hr' & Hset & Ecat & Hd & Hlast & Hz).
  rewrite E1 in E. injection E as Es ->. destruct (add_result t ts v ov (concat ls)) as [r l'] eqn:Ea.
  cbn [fst snd] in *. subst r. pose proof (added_in_window _ _ _ _ _ _ _ _ _ Hr Hr' Hset Ea Hlast) as Hw.
  pose proof (add_result_ok _ _ _ _ _ _ _ Ea) as (-> & _ & Eu). destruct (sr_layout _ _ Hr) as (_ & _ & Hs & _).
  assert (fits_memory (concat ls')) as Hm'.
  { apply (fits_memory_suffix dead). rewrite <- Ecat. unfold fits_memory in *.
    rewrite (list_upsert_length _ _ _ _ Hs Eu). cbn [length] in Hm. unfold SAMPLE_SIZE in *. case_match; lia. }
  assert (fits_memory (concat ls)) as Hm0 by (unfold fits_memory, SAMPLE_SIZE in *; cbn [length] in Hm; lia).
  assert (forall u, is_older_than_retention t' u = false -> lookup_ts u (concat ls') = lookup_ts u l') as Hlk.
  { intros u' Hu'. rewrite Ecat. symmetry. apply (lookup_dropped t'); try done. by rewrite (retention_zero_eq t t' Hset). }
  rewrite !(get_sample_spec _ _ _ Hr' Hm'), (get_sample_spec _ _ _ Hr Hm0). split.
  - rewrite (Hlk _ Hw), (list_upsert_lookup _ _ _ _ ts Hs Eu). cbn [timestamp make_sample]. by rewrite Z.eqb_refl.
  - intros Hne Hu. rewrite (Hlk _ Hu), (list_upsert_lookup _ _ _ _ u Hs Eu). cbn [timestamp make_sample].
    by destruct (Z.eqb_spec u ts).
Qed.

(** C3. A range query over a series returns exactly the stored samples in the
    closed window that are inside the retention window, in time order, however
    they are spread over chunks; the existence test agrees. *)
Theorem series_range_exact (P : TimeSeriesChunk -> Prop) (t : TimeSeries) (l : list Sample) (s e : Timestamp) :
  stores P t l -> fits_memory l ->
  get_range t s e = select s e (visible t l) /\
  has_samples_in_range t s e = match select s e (visible t l) with [] => false | _ => true end.
Proof. intros (ls & Hr & <-) Hm. split; [exact (get_range_spec _ _ _ _ Hr Hm)|exact (has_samples_spec _ _ _ _ Hr)]. Qed.

(** The lazy iterators and the parallel range read are the same function:
    the forward iterator yields the range in order and the reverse one
    backwards. *)
Theorem series_iterators_agree (P : TimeSeriesChunk -> Prop) (t : TimeSeries) (l : list Sample) (s e : Timestamp) (fuel : nat) :
  stores P t l -> fits_memory l -> (length l <= fuel)%nat ->
  si_collect fuel (range_iter t s e) = get_range t s e /\
  si_collect fuel (si_new (chunks t) (series_is_empty t) (Z.max s (get_min_timestamp t)) e true) =
    reverse (get_range t s e).
Proof.
  intros (ls & Hr & <-) Hm Hf. rewrite (get_range_spec _ _ _ _ Hr Hm). split; [exact (range_iter_spec _ _ _ _ _ Hr Hf)|].
  destruct (si_new_spec (chunks t) ls (series_is_empty t) (Z.max s (get_min_timestamp t)) e true
    (sr_layout _ _ Hr) (rep_empty _ _ Hr)) as [Hok El].
  rewrite (si_collect_spec _ _ ls Hok), El, <- select_visible; [done|].
  rewrite El, length_reverse. etrans; [apply List.filter_length_le|done].
Qed.

(** Iterating terminates: an iterator yields at most as many samples as the
    series stores and then reports the end, so it never needs more than that
    many steps. *)
Theorem series_iteration_terminates (P : TimeSeriesChunk -> Prop) (t : TimeSeries) (l : list Sample) (s e : Timestamp) (rev : bool) (fuel : nat) :
  stores P t l -> (length l <= fuel)%nat ->
  let it := si_new (chunks t) (series_is_empty t) s e rev in
  si_collect fuel it = si_collect (length l) it /\ (length (si_collect fuel it) <= length l)%nat.
Proof.
  intros (ls & Hr & <-) Hf it.
  destruct (si_new_spec (chunks t) ls (series_is_empty t) s e rev (sr_layout _ _ Hr) (rep_empty _ _ Hr)) as [Hok El].
  assert (length (si_left it ls) <= length (concat ls))%nat as Hle.
  { unfold it. rewrite El. destruct rev; rewrite ?length_reverse; apply List.filter_length_le. }
  fold it in Hok. rewrite (si_collect_spec fuel it ls Hok) by lia.
  by rewrite (si_collect_spec (length (concat ls)) it ls Hok Hle).
Qed.

(** C4. Deleting a range removes exactly the visible samples in it, reports how
    many they were, and physically drops what had expired, so that no expired
    sample can reappear. *)
Theorem series_remove_exact (P : TimeSeriesChunk -> Prop) `{!Shrinks P} (t : TimeSeries) (l : list Sample) (s e : Timestamp) :
  stores P t l -> s <= e ->
  exists t', remove_range t s e = (Ok (Z.of_nat (length (select s e (visible t l)))), t') /\
    stores P t' (remove s e (visible t l)) /\ settings t' = settings t.
Proof.
  intros (ls & Hr & <-) Hse. destruct (remove_range_spec t ls s e Hr) as (t' & ls' & E & Hr' & Hset & Ecat & _).
  exists t'. split_and!; [done| |done]. exists ls'. split; [done|by apply Ecat].
Qed.

(** A retention trim, lazy or forced, is invisible: it reports how many
    samples it dropped, and every range query answers as before. *)
Theorem series_trim_invisible (P : TimeSeriesChunk -> Prop) `{!Shrinks P} (t : TimeSeries) (l : list Sample) (force : bool) (s e : Timestamp) :
  stores P t l -> fits_memory l ->
  exists n t', trim_expired t force = (Ok n, t') /\ total_samples t' = total_samples t - n /\
    get_range t' s e = get_range t s e /\
    (force = true -> visible_total_samples t' = total_samples t').
Proof.
  intros (ls & Hr & <-) Hm.
  destruct (trim_spec t ls force Hr) as (t' & ls' & dead & E & Hr' & Hset & Ecat & Hd & Hlast & Hk).
  assert (fits_memory (concat ls')) as Hm' by (rewrite Ecat in Hm; by eapply fits_memory_suffix).
  assert (get_min_timestamp t' = get_min_timestamp t \/ t' = t) as Hmin.
  { destruct (retention_is_zero t) eqn:Hz; [right|left; by apply min_timestamp_eq].
    revert E. unfold trim_expired, get_min_timestamp. rewrite Hz, Z.leb_refl. by intros [= _ <-]. }
  exists (Z.of_nat (length dead)), t'. split; [done|]. split.
  { rewrite (sr_total _ _ Hr), (sr_total _ _ Hr'), Ecat, length_app. lia. }
  destruct Hmin as [Hmin| ->].
  - split.
    + rewrite (get_range_spec _ _ _ _ Hr' Hm'), (get_range_spec _ _ _ _ Hr Hm), Ecat, visible_app.
      rewrite (visible_none t _ Hd). unfold visible. by rewrite Hmin.
    + intros Hforce. rewrite (visible_total_spec _ _ Hr'), (sr_total _ _ Hr'), visible_all; [done|].
      rewrite Hmin. by apply Hk.
  - split; [done|]. intros Hforce. rewrite (visible_total_spec _ _ Hr'), (sr_total _ _ Hr'), visible_all; [done|].
    by apply Hk.
Qed.

(** What TS.INFO reports agrees with what a query over all time returns: the
    visible count is its length and the visible first timestamp is that of its
    first sample. *)
Theorem series_info_agrees (P : TimeSeriesChunk -> Prop) (t : TimeSeries) (l : list Sample) :
  stores P t l -> fits_memory l ->
  visible_total_samples t = Z.of_nat (length (get_range t 0 i64_MAX)) /\
  visible_first_timestamp t = first_of (get_range t 0 i64_MAX).
Proof.
  intros (ls & Hr & <-) Hm. rewrite (get_range_spec _ _ _ _ Hr Hm), (visible_total_spec _ _ Hr), (visible_first_spec _ _ Hr).
  rewrite select_all; [done|]. destruct (sr_layout _ _ Hr) as (_ & _ & _ & Hv). apply Forall_list_filter.
  eapply Forall_impl; [exact Hv|]. intros x [[Hx _] H0x]. ilia.
Qed.

(** Point lookup is exact, whichever of the two chunk searches is used. *)
Theorem series_get_sample_exact (P : TimeSeriesChunk -> Prop) (t : TimeSeries) (l : list Sample) (ts : Timestamp) :
  stores P t l -> fits_memory l -> get_sample t ts = Ok (lookup_ts ts l).
Proof. intros (ls & Hr & <-) Hm. exact (get_sample_spec _ _ _ Hr Hm). Qed.

(** The linear scan of a short series and the binary search of a long one
    find the same chunk: the first whose last timestamp reaches the one
    searched for. *)
Theorem find_start_reference (cs : list TimeSeriesChunk) (ls : list (list Sample)) (ts : Timestamp) :
  layout cs ls -> find_start_chunk_index cs ts = length (take_while (fun c => last_timestamp c <? ts) cs).
Proof.
  intros HL. destruct (find_start_spec cs ls ts HL) as (Hk & Hb & Ha). symmetry. apply take_while_length; [done|..].
  - intros j c Hj Hc. specialize (Hb j c Hj Hc). lia.
  - intros c Hc. specialize (Ha _ c (le_n _) Hc). lia.
Qed.

(** C6. Memory is bounded by content: the chunks of a series made by adds,
    increments, deletes and trims, without batches, encode at most 20 bytes per
    stored sample, and no uncompressed chunk reaches twice its capacity. *)
Theorem series_size_bound (t : TimeSeries) :
  reachable t ->
  0 <= data_size t <= 20 * total_samples t /\
  Forall (fun c => match capacity c with Some m => chunk_len c < 2 * m | None => True end) (chunks t).
Proof.
  intros [ls Hr]%reachable_rep. split.
  - unfold data_size. rewrite (sr_total _ _ Hr). destruct (sr_layout _ _ Hr) as (HF & _ & _).
    clear Hr. induction HF as [|c l cs ls' Hh HF IH]; [done|]. cbn [foldr concat]. rewrite length_app.
    pose proof (holds_size _ _ Hh). lia.
  - eapply Forall_impl; [apply (sr_fit _ _ Hr)|]. intros c [_ Hf]. by destruct (capacity c); [destruct Hf|].
Qed.

(** Splitting the overfull chunks of a series reports no error and
    redistributes the samples: the chunks stay ordered and disjoint, and hold
    the same samples in the same order. *)
Theorem series_split_conserves (t : TimeSeries) (ls : list (list Sample)) :
  layout (chunks t) ls -> Forall (fun c => budget_ok (chunk_max_size c)) (chunks t) ->
  exists t' ls', split_chunks_if_needed t = (Ok tt, t') /\ layout (chunks t') ls' /\ concat ls' = concat ls.
Proof.
  intros HL Hb. unfold split_chunks_if_needed. destruct (existsb needs_split (chunks t)); cbn [negb]; [|by exists t, ls].
  destruct (split_pass_spec _ _ HL Hb) as (kept & new & ls' & -> & Hsort & HL' & Ecat).
  destruct new as [|c new].
  - exists (with_chunks t kept), ls'. split_and!; [done| |done]. by rewrite merge_runs_nil_r in HL'.
  - cbn [chunks with_chunks]. rewrite Hsort. eexists _, ls'. by split_and!.
Qed.

(** Creating a series accepts exactly the chunk sizes that are multiples of
    8 between 48 and 1048576 bytes, and the new series is well-formed and
    stores nothing. *)
Theorem with_options_checks (o : TimeSeriesOptions) :
  ((exists t, with_options o = Ok t) <->
   match opt_chunk_size o with Some n => 48 <= n <= 1048576 /\ n mod 8 = 0 | None => True end) /\
  (forall t, with_options o = Ok t -> 0 <= retention t < 2 ^ 63 * 1000000 -> stores chunk_fit t []).
Proof.
  split.
  - unfold with_options, validate_chunk_size, MIN_CHUNK_SIZE, MAX_CHUNK_SIZE. destruct (opt_chunk_size o) as [n|].
    + destruct (default _ _) as [a b]. destruct (Z.leb_spec 48 n), (Z.leb_spec n 1048576), (Z.eqb_spec (n mod 8) 0); cbn;
        (split; [intros [t Ht]|intros [Hn Hm]]); try discriminate Ht; try lia; eauto.
    + destruct (default _ _) as [a b]. split; [done|]. eauto.
  - intros t Ht Hr. exists []. split; [by eapply fresh_stores|done].
Qed.

End Props.

(** ** Instances *)

(** A series of two uncompressed chunks with a retention of 100 ms: its first
    two samples have expired and are not trimmed yet. *)
#[local] Instance demo_config : ServerConfig := {| config_duplicate_policy := Block; config_retention_period := 0 |}.

Definition one : f64 := 0x3FF0000000000000.
Definition two : f64 := 0x4000000000000000.
Definition demo_head : list Sample := [mkSample 10 one; mkSample 20 two; mkSample 30 one].
Definition demo_tail : list Sample := [mkSample 40 two; mkSample 130 one].

Definition demo_series : TimeSeries :=
  mkTimeSeries 100000000 (mkSampleDuplicatePolicy None 0 f64_zero) EncUncompressed None 48
    [UncompressedVariant (mkUncompressedChunk 48 demo_head 3); UncompressedVariant (mkUncompressedChunk 48 demo_tail 3)]
    5 10 (Some (mkSample 130 one)).

Lemma demo_layout : layout (chunks demo_series) [demo_head; demo_tail].
Proof.
  split_and!.
  - constructor; [|constructor; [|constructor]]; (split; [reflexivity|apply content_okb_sound; reflexivity]).
  - by repeat constructor.
  - apply content_okb_sound. reflexivity.
Qed.

Lemma demo_fit : Forall chunk_fit (chunks demo_series).
Proof. constructor; [|constructor; [|constructor]]; (split; [split; by vm_compute|split; by vm_compute]). Qed.

Lemma demo_stores : stores chunk_fit demo_series (demo_head ++ demo_tail).
Proof.
  exists [demo_head; demo_tail]. split; [|reflexivity]. split; [apply demo_layout|apply demo_fit|reflexivity|reflexivity|reflexivity|].
  split; [split; by vm_compute|split; [by vm_compute|by vm_compute]].
Qed.

Definition demo_options : TimeSeriesOptions := mkTimeSeriesOptions EncUncompressed (Some 48) (Some 100000000) None None None.
Definition demo_new : TimeSeries :=
  mkTimeSeries 100000000 (mkSampleDuplicatePolicy None 0 f64_zero) EncUncompressed None 48 [] 0 0 None.

Lemma demo_new_reachable : reachable demo_new.
Proof. refine (reach_new demo_options demo_new _ _); [vm_compute; reflexivity|cbn; lia]. Qed.

Lemma demo_value (v : f64) : (0 <=? v) && (v <? 2 ^ 64) = true -> is_f64 v.
Proof. intros. ilia. Qed.

Lemma demo_reachable : reachable (add (add demo_new 10 one None).2 20 two None).2.
Proof.
  refine (reach_add _ 20 two None (reach_add _ 10 one None demo_new_reachable _ _) _ _);
    first [lia|apply demo_value; vm_compute; reflexivity].
Qed.

Lemma series_invariant_witness : exists ls, series_rep chunk_fit (add (add demo_new 10 one None).2 20 two None).2 ls.
Proof. exact (series_invariant _ demo_reachable). Defined.

Definition demo_list : list Sample := demo_head ++ demo_tail.

Lemma demo_memory : fits_memory (mkSample 35 two :: demo_list).
Proof. vm_compute. discriminate. Qed.

Lemma demo_memory' : fits_memory demo_list.
Proof. vm_compute. discriminate. Qed.

Lemma series_add_refines_witness :
  exists t' dead l', add demo_series 35 two None = (AddOk (mkSample 35 two), t') /\ stores chunk_fit t' l' /\
    demo_head ++ mkSample 35 two :: demo_tail = dead ++ l' /\
    Forall (fun x => timestamp x < get_min_timestamp t') dead.
Proof.
  destruct (series_add_refines demo_series demo_list 35 two None demo_stores ltac:(lia)
    (demo_value two eq_refl)) as (t' & dead & l' & H1 & H2 & H3 & H4 & _).
  exists t', dead, l'. split; [rewrite H1; vm_compute; reflexivity|]. split; [exact H2|].
  split; [rewrite <- H3; vm_compute; reflexivity|exact H4].
Defined.

Lemma series_add_progress_witness :
  (add (add (add demo_new 10 one None).2 20 two None).2 30 one None).1 = AddOk (mkSample 30 one).
Proof.
  destruct (series_add_progress (add (add demo_new 10 one None).2 20 two None).2 30 one None demo_reachable
    ltac:(lia) (demo_value one eq_refl)) as [_ Hok].
  rewrite Hok; [vm_compute; reflexivity|]. intros x Hx. vm_compute in Hx. injection Hx as <-. split; vm_compute; reflexivity.
Defined.

Lemma series_add_lookup_witness :
  get_sample (add demo_series 35 two None).2 35 = Ok (Some (mkSample 35 two)) /\
  get_sample (add demo_series 35 two None).2 40 = get_sample demo_series 40.
Proof.
  destruct (series_add_lookup demo_series (add demo_series 35 two None).2 demo_list 35 40 two None (mkSample 35 two)
    demo_stores ltac:(lia) (demo_value two eq_refl) demo_memory ltac:(vm_compute; reflexivity)) as [H1 H2].
  split; [rewrite H1; vm_compute; reflexivity|apply H2; [lia|vm_compute; reflexivity]].
Defined.

Lemma series_range_exact_witness :
  get_range demo_series 0 50 = [mkSample 30 one; mkSample 40 two] /\ has_samples_in_range demo_series 0 29 = false.
Proof.
  destruct (series_range_exact chunk_fit demo_series demo_list 0 50 demo_stores demo_memory') as [H1 _].
  destruct (series_range_exact chunk_fit demo_series demo_list 0 29 demo_stores demo_memory') as [_ H2].
  rewrite H1, H2. vm_compute. split; reflexivity.
Defined.

Lemma series_iterators_agree_witness :
  si_collect 5 (range_iter demo_series 0 50) = [mkSample 30 one; mkSample 40 two] /\
  si_collect 5 (si_new (chunks demo_series) false 30 50 true) = [mkSample 40 two; mkSample 30 one].
Proof.
  destruct (series_iterators_agree chunk_fit demo_series demo_list 0 50 5 demo_stores demo_memory' ltac:(cbn; lia)) as [H1 H2].
  split; [rewrite H1; vm_compute; reflexivity|].
  change (si_new (chunks demo_series) false 30 50 true) with
    (si_new (chunks demo_series) (series_is_empty demo_series) (Z.max 0 (get_min_timestamp demo_series)) 50 true).
  rewrite H2. vm_compute. reflexivity.
Defined.

Lemma series_iteration_terminates_witness :
  (length (si_collect 1000 (si_new (chunks demo_series) false 0 130 true)) <= 5)%nat.
Proof.
  exact (proj2 (series_iteration_terminates chunk_fit demo_series demo_list 0 130 true 1000 demo_stores ltac:(cbn; lia))).
Defined.

Lemma series_remove_exact_witness :
  exists t', remove_range demo_series 0 50 = (Ok 2, t') /\ stores chunk_fit t' [mkSample 130 one].
Proof.
  destruct (series_remove_exact chunk_fit demo_series demo_list 0 50 demo_stores ltac:(lia)) as (t' & H1 & H2 & _).
  exists t'. split; [rewrite H1; vm_compute; reflexivity|exact H2].
Defined.

Lemma series_trim_invisible_witness :
  exists n t', trim_expired demo_series true = (Ok n, t') /\ get_range t' 0 50 = get_range demo_series 0 50 /\
    visible_total_samples t' = total_samples t'.
Proof.
  destruct (series_trim_invisible chunk_fit demo_series demo_list true 0 50 demo_stores demo_memory') as (n & t' & H1 & _ & H2 & H3).
  exists n, t'. split; [exact H1|]. split; [exact H2|exact (H3 eq_refl)].
Defined.

Lemma series_info_agrees_witness :
  visible_total_samples demo_series = 3 /\ visible_first_timestamp demo_series = 30.
Proof.
  destruct (series_info_agrees chunk_fit demo_series demo_list demo_stores demo_memory') as [H1 H2].
  rewrite H1, H2. vm_compute. split; reflexivity.
Defined.

Lemma series_get_sample_exact_witness :
  get_sample demo_series 40 = Ok (Some (mkSample 40 two)) /\ get_sample demo_series 41 = Ok None.
Proof.
  split; [rewrite (series_get_sample_exact chunk_fit demo_series demo_list 40 demo_stores demo_memory')
         |rewrite (series_get_sample_exact chunk_fit demo_series demo_list 41 demo_stores demo_memory')]; vm_compute; reflexivity.
Defined.

Lemma find_start_reference_witness : find_start_chunk_index (chunks demo_series) 35 = 1%nat.
Proof. rewrite (find_start_reference _ _ 35 demo_layout). vm_compute. reflexivity. Defined.

Lemma series_size_bound_witness :
  0 <= data_size (add (add demo_new 10 one None).2 20 two None).2 <= 40.
Proof. exact (proj1 (series_size_bound _ demo_reachable)). Defined.

(** Six samples in a chunk of capacity three are split. *)
Definition demo_overfull : list Sample :=
  [mkSample 10 one; mkSample 20 two; mkSample 30 one; mkSample 40 two; mkSample 50 one; mkSample 60 two].
Definition demo_split : TimeSeries :=
  with_chunks demo_new [UncompressedVariant (mkUncompressedChunk 48 demo_overfull 3)].

Lemma series_split_conserves_witness :
  exists t' ls', split_chunks_if_needed demo_split = (Ok tt, t') /\ length (chunks t') = 2%nat /\
    layout (chunks t') ls' /\ concat ls' = demo_overfull.
Proof.
  destruct (series_split_conserves demo_split [demo_overfull]) as (t' & ls' & H1 & H2 & H3).
  - split_and!; [constructor; [|constructor]; split; [reflexivity|apply content_okb_sound; reflexivity]
      |by repeat constructor|apply content_okb_sound; reflexivity].
  - constructor; [split; vm_compute; discriminate|constructor].
  - exists t', ls'. split; [exact H1|]. split; [|split; [exact H2|exact H3]].
    assert (t' = (split_chunks_if_needed demo_split).2) as -> by (by rewrite H1). vm_compute. reflexivity.
Defined.

Lemma with_options_checks_witness : stores chunk_fit demo_new [].
Proof. apply (with_options_checks demo_options); [vm_compute; reflexivity|cbn; lia]. Defined.
