(* ===== verification/BulkAdd.v ===== *)
(** * BulkAdd: batches of samples

    Models [src/series/ingest_normalize.rs], the merge core of
    [src/series/bulk_add.rs] and [merge_samples] of [src/series/sample_merge.rs]
    and [time_series.rs].  Groups are merged into disjoint chunks in parallel in
    the source; here they are merged in the order of the groups. *)

From stdpp Require Import strings.
From S2P Require Import Prelude Float64 Types Slice Content Merge ChunkOps ChunkMethods Elf64.
From S2P Require Import TimeSeriesChunk ChunkSearch SeriesIterator Rounding TimeSeries.

(** ** Normalization *)

Record NormalizedBatch := mkNormalizedBatch {
  to_insert : list Sample;
  insert_index : list nat;
  results : list SampleAddResult;
}.

Fixpoint gate_loop (retention_ms : Z) (running_max : option Timestamp) (samples : list Sample) : list bool :=
  match samples with
  | [] => []
  | s :: rest =>
      match running_max with
      | Some max =>
          if timestamp s <? sat_i64 (max - retention_ms)
          then true :: gate_loop retention_ms running_max rest
          else false :: gate_loop retention_ms (Some (Z.max max (timestamp s))) rest
      | None => false :: gate_loop retention_ms (Some (timestamp s)) rest
      end
  end.

Definition retention_gate (t : TimeSeries) (samples : list Sample) : list bool :=
  if retention_is_zero t then repeat false (length samples)
  else gate_loop (retention_millis t) (if series_is_empty t then None else Some (series_last_timestamp t)) samples.

Fixpoint is_sorted_by_ts (samples : list Sample) : bool :=
  match samples with
  | x :: (y :: _) as rest => (timestamp x <=? timestamp y) && is_sorted_by_ts rest
  | _ => true
  end.

Definition UNKNOWN_ERROR : string := "Unknown error".

Section Normalize.

Context `{Log10} `{ServerConfig}.

Variable t : TimeSeries.
Variable policy_override : option DuplicatePolicy.

(** One turn of the loop, on the sample at [index]. *)
Definition normalize_step (too_old : list bool)
    (st : NormalizedBatch * option Sample * option Timestamp) (item : nat * Sample)
    : NormalizedBatch * option Sample * option Timestamp :=
  let '(b, running_last, prev_ts) := st in
  let '(index, sample) := item in
  let ts := timestamp sample in
  let report r := mkNormalizedBatch (to_insert b) (insert_index b) (<[index := r]> (results b)) in
  if bool_decide (prev_ts = Some ts) then (report Duplicate, running_last, prev_ts)
  else
    let prev_ts := Some ts in
    if nth index too_old false then (report TooOld, running_last, prev_ts)
    else
      let adjusted := mkSample ts (adjust_value t (value sample)) in
      let ignored :=
        match running_last with
        | Some last => (timestamp last <=? ts) &&
            is_duplicate config_duplicate_policy (sample_duplicates t) adjusted last policy_override
        | None => false
        end in
      if ignored then
        (report (Ignored (match running_last with Some last => timestamp last | None => 0 end)), running_last, prev_ts)
      else
        let advances := match running_last with Some last => timestamp last <=? ts | None => true end in
        let running_last := if advances then Some adjusted else running_last in
        (mkNormalizedBatch (to_insert b ++ [adjusted]) (insert_index b ++ [index]) (results b), running_last, prev_ts).

Definition normalize_batch (samples : list Sample) : NormalizedBatch :=
  let too_old := retention_gate t samples in
  let indexed := combine (seq 0 (length samples)) samples in
  let order := if is_sorted_by_ts samples then indexed else sort_by_key (fun x => timestamp x.2) indexed in
  let init := mkNormalizedBatch [] [] (repeat (AddError UNKNOWN_ERROR) (length samples)) in
  let '(b, _, _) := fold_left (normalize_step too_old) order (init, last_sample t, None) in b.

End Normalize.

(** ** Planning the chunks *)

Definition OVERFILL_DIVISOR : Z := 8.
Definition BPS_SCALE : Z := 256.
Definition BPS_HISTORY_CHUNKS : nat := 4.
Definition BPS_PROBE_WINDOW : nat := 128.
Definition BPS_PROBE_WINDOWS : nat := 4.
Definition WORST_CASE_BYTES_PER_SAMPLE : Z := 20.
Definition UNCOMPRESSED_BPS : Z := SAMPLE_SIZE * BPS_SCALE.

(** [usize::div_ceil] and [saturating_mul]. *)
Definition div_ceil (a b : Z) : Z := (a + b - 1) / b.
Definition sat_usize_mul (a b : Z) : Z := Z.min (2 ^ 64 - 1) (a * b).

Inductive ChunkHolder :=
| ExistingIdx (i : nat)
| New.

Definition ChunkSampleGroup : Type := ChunkHolder * list Sample.

Definition samples_for (bytes bps : Z) : Z := bytes * BPS_SCALE / bps.

(** [slice::chunks]: each turn takes at least one sample. *)
Fixpoint slice_chunks (fuel : nat) (size : nat) (l : list Sample) : list (list Sample) :=
  match fuel with
  | O => []
  | S fuel' =>
      match l with
      | [] => []
      | _ => take size l :: slice_chunks fuel' size (drop size l)
      end
  end.

Definition push_new_groups (dest : list ChunkSampleGroup) (samples : list Sample) (size : Z) : list ChunkSampleGroup :=
  dest ++ map (fun g => (New, g)) (slice_chunks (length samples) (Z.to_nat size) samples).

(** [bps] is evaluated only where it is used. *)
Definition add_chunks_for_appends (dest : list ChunkSampleGroup) (samples : list Sample) (chunk_size : Z) (bps : Z)
    : list ChunkSampleGroup :=
  match samples with
  | [] => dest
  | _ =>
      let n := Z.of_nat (length samples) in
      if sat_usize_mul n WORST_CASE_BYTES_PER_SAMPLE <=? chunk_size then push_new_groups dest samples n
      else push_new_groups dest samples (Z.max (samples_for chunk_size bps) 1)
  end.

Definition add_chunks_for_backfill (dest : list ChunkSampleGroup) (samples : list Sample) (chunk_size : Z) (bps : Z)
    : list ChunkSampleGroup :=
  let n := Z.of_nat (length samples) in
  if n =? 0 then dest
  else if sat_usize_mul n WORST_CASE_BYTES_PER_SAMPLE <=? chunk_size then push_new_groups dest samples n
  else
    let cap := Z.max (samples_for chunk_size bps) 1 in
    let hard := Z.max (samples_for (chunk_size + chunk_size / OVERFILL_DIVISOR) bps) cap in
    let fewer := n / cap in
    let count := if (0 <? fewer) && (div_ceil n fewer <=? hard) then fewer else div_ceil n cap in
    push_new_groups dest samples (div_ceil n count).

Section Bulk.

Context `{Log10} `{ServerConfig}.

Definition tail_take (tail : TimeSeriesChunk) (rest : Z) (bps : Z) : Z :=
  let room := sat_usize_sub (chunk_max_size tail) (chunk_size tail) in
  if sat_usize_mul rest WORST_CASE_BYTES_PER_SAMPLE <=? room then rest
  else Z.min (samples_for room bps) rest.

(** One probe window: the bytes and samples behind its first sample. *)
Definition probe_window (scratch : TimeSeriesChunk) (probe : list Sample) : TsdbResult (Z * Z * TimeSeriesChunk) :=
  let scratch := chunk_clear scratch in
  let? (_, scratch) := chunk_merge_samples scratch (take 1 probe) (Some KeepLast) in
  let head := chunk_size scratch in
  let? (_, scratch) := chunk_merge_samples scratch (drop 1 probe) (Some KeepLast) in
  Ok (sat_usize_sub (chunk_size scratch) head, sat_usize_sub (chunk_len scratch) 1, scratch).

Definition estimate_bps (t : TimeSeries) (batch : list Sample) : Z :=
  if negb (series_is_compressed t) then UNCOMPRESSED_BPS
  else
    let history :=
      take BPS_HISTORY_CHUNKS (List.filter (fun c => MIN_SAMPLES_FOR_BPS_ESTIMATE <=? chunk_len c) (reverse (chunks t))) in
    let '(bytes, count) := fold_left (fun '(b, n) c => (b + chunk_size c, n + chunk_len c)) history (0, 0) in
    if 0 <? count then Z.max (div_ceil (bytes * BPS_SCALE) count) 1
    else if Z.of_nat (length batch) <? MIN_SAMPLES_FOR_BPS_ESTIMATE then UNCOMPRESSED_BPS
    else
      let window := Nat.min BPS_PROBE_WINDOW (length batch) in
      let windows := Nat.max (Nat.min BPS_PROBE_WINDOWS (length batch / (2 * window))) 1 in
      let stride := (length batch / windows)%nat in
      let scratch := chunk_new (chunk_encoding t) (chunk_size_bytes t) in
      let probed :=
        try_fold (fun '(bytes, count, scratch) w =>
          let? (b, n, scratch) := probe_window scratch (take window (drop (w * stride) batch)) in
          Ok (bytes + b, count + n, scratch)) (0, 0, scratch) (seq 0 windows) in
      match probed with
      | Err _ => UNCOMPRESSED_BPS
      | Ok (bytes, count, _) =>
          if count =? 0 then UNCOMPRESSED_BPS else Z.max (div_ceil (bytes * BPS_SCALE) count) 1
      end.

(** The loop over the existing chunks: the groups and the samples left. *)
Fixpoint group_existing (bps : Z) (chunk_idx : nat) (cs : list TimeSeriesChunk) (samples : list Sample)
    : list ChunkSampleGroup * list Sample :=
  match cs with
  | [] => ([], samples)
  | c :: cs' =>
      let taken := length (take_while (fun s => timestamp s <=? last_timestamp c) samples) in
      let rest := drop taken samples in
      let taken :=
        match cs', rest with
        | [], _ :: _ => (taken + Z.to_nat (tail_take c (Z.of_nat (length rest)) bps))%nat
        | _, _ => taken
        end in
      let '(groups, remaining) := group_existing bps (S chunk_idx) cs' (drop taken samples) in
      (if (0 <? taken)%nat then (ExistingIdx chunk_idx, take taken samples) :: groups else groups, remaining)
  end.

Definition group_samples_by_chunk (t : TimeSeries) (samples : list Sample) : list ChunkSampleGroup :=
  match samples with
  | [] => []
  | _ =>
      let bps := estimate_bps t samples in
      match chunks t with
      | [] => add_chunks_for_appends [] samples (chunk_size_bytes t) bps
      | c0 :: _ =>
          if series_is_empty t then add_chunks_for_appends [] samples (chunk_size_bytes t) bps
          else
            let older := take_while (fun s => timestamp s <? first_timestamp c0) samples in
            let out := add_chunks_for_backfill [] older (chunk_size_bytes t) bps in
            let '(groups, remaining) := group_existing bps 0 (chunks t) (drop (length older) samples) in
            add_chunks_for_appends (out ++ groups) remaining (chunk_size_bytes t) bps
      end
  end.

(** ** Merging *)

Definition exec_merge (c : TimeSeriesChunk) (samples : list Sample) (p : option DuplicatePolicy)
    : list SampleAddResult * TimeSeriesChunk :=
  match chunk_merge_samples c samples p with
  | Ok (res, c) => (res, c)
  | Err _ => (repeat (AddError CANNOT_ADD_SAMPLE) (length samples), c)
  end.

(** One group: the results so far, the existing chunks and the new ones. *)
Definition merge_group (t : TimeSeries) (p : option DuplicatePolicy)
    (st : list SampleAddResult * list TimeSeriesChunk * list TimeSeriesChunk) (g : ChunkSampleGroup)
    : list SampleAddResult * list TimeSeriesChunk * list TimeSeriesChunk :=
  let '(acc, cs, news) := st in
  match g with
  | (ExistingIdx i, samples) =>
      match cs !! i with
      | Some c => let '(res, c) := exec_merge c samples p in (acc ++ res, <[i := c]> cs, news)
      | None => st
      end
  | (New, samples) =>
      let '(res, c) := exec_merge (chunk_new (chunk_encoding t) (chunk_size_bytes t)) samples p in
      (acc ++ res, cs, news ++ [seal_chunk c])
  end.

(** Each outcome goes to the index its sample came from. *)
Definition splice (results : list SampleAddResult) (index : list nat) (outcomes : list SampleAddResult)
    : list SampleAddResult :=
  fold_left (fun rs '(i, r) => <[i := r]> rs) (combine index outcomes) results.

Definition merge_samples_into_series (t : TimeSeries) (samples : list Sample) (policy : option DuplicatePolicy)
    : list SampleAddResult * TimeSeries :=
  match samples with
  | [] => ([], t)
  | _ =>
      let resolved := Some (resolve_policy config_duplicate_policy (sample_duplicates t) policy) in
      let b := normalize_batch t policy samples in
      let groups := group_samples_by_chunk t (to_insert b) in
      match groups with
      | [] => (results b, t)
      | _ =>
          let '(outcomes, cs, news) := fold_left (merge_group t resolved) groups ([], chunks t, []) in
          let cs := match news with [] => cs | _ => sort_by_key (fun c => first_timestamp c) (cs ++ news) end in
          let t := recalculate_total_samples (update_first_last_timestamps (with_chunks t cs)) in
          (splice (results b) (insert_index b) outcomes, t)
      end
  end.

Definition merge_samples_deferring_retention (t : TimeSeries) (samples : list Sample) (policy : option DuplicatePolicy)
    : TsdbResult (list SampleAddResult) * TimeSeries :=
  match samples with
  | [] => (Ok [], t)
  | _ =>
      let '(results, t) := merge_samples_into_series t samples policy in
      let '(split, t) := split_chunks_if_needed t in
      (let? _ := split in Ok results, t)
  end.

Definition series_merge_samples (t : TimeSeries) (samples : list Sample) (policy : option DuplicatePolicy)
    : TsdbResult (list SampleAddResult) * TimeSeries :=
  let '(r, t) := merge_samples_deferring_retention t samples policy in
  match r with
  | Ok results => (Ok results, apply_retention t)
  | Err e => (Err e, t)
  end.

End Bulk.
