(* ===== verification/BulkLaws.v ===== *)
(** * BulkLaws: what a batch does to a series

    A batch is normalized to a time-ordered list of samples, which is then
    upserted: the groups, the chunks they go to and the new chunks are how it is
    done, not what is stored. *)

From S2P Require Import Prelude Float64 Types Slice Content Merge ChunkOps Uncompressed Codec ChunkMethods Elf64.
From S2P Require Import TimeSeriesChunk ChunkSearch SeriesIterator Rounding TimeSeries SeriesLaws SeriesReads.
From S2P Require Import SeriesWrites BulkAdd.

(** ** Upserting a list *)

Lemma upsert_all_app p l r1 r2 : upsert_all p l (r1 ++ r2) = upsert_all p (upsert_all p l r1) r2.
Proof. unfold upsert_all. by rewrite foldl_app. Qed.

Lemma upsert_all_below p a b r :
  Forall (fun s => Forall (fun x => timestamp s < timestamp x) b) r ->
  upsert_all p (a ++ b) r = upsert_all p a r ++ b.
Proof.
  intros Hr. revert a. induction Hr as [|s r Hs Hr IH]; intros a; [done|]. cbn [upsert_all foldl].
  change (upsert_all p (upsert_or_keep p (a ++ b) s) r = upsert_all p (upsert_or_keep p a s) r ++ b).
  rewrite <- IH. f_equal. unfold upsert_or_keep. rewrite list_upsert_app_r by done. by destruct (list_upsert p s a).
Qed.

Lemma upsert_all_above p a b r :
  Forall (fun s => Forall (fun x => timestamp x < timestamp s) a) r ->
  upsert_all p (a ++ b) r = a ++ upsert_all p b r.
Proof.
  intros Hr. revert b. induction Hr as [|s r Hs Hr IH]; intros b; [done|]. cbn [upsert_all foldl].
  change (upsert_all p (upsert_or_keep p (a ++ b) s) r = a ++ upsert_all p (upsert_or_keep p b s) r).
  rewrite <- IH. f_equal. unfold upsert_or_keep. rewrite list_upsert_app_l by done. by destruct (list_upsert p s b).
Qed.

Lemma upsert_all_fresh p l r : ts_sorted (l ++ r) -> upsert_all p l r = l ++ r.
Proof.
  revert l. induction r as [|s r IH]; intros l Hs; [by rewrite app_nil_r|].
  cbn [upsert_all foldl]. change (upsert_all p (upsert_or_keep p l s) r = l ++ s :: r).
  assert (upsert_or_keep p l s = l ++ [s]) as ->.
  { unfold upsert_or_keep. rewrite list_upsert_after; [done|]. apply ts_sorted_app in Hs as (_ & _ & Hl).
    eapply Forall_impl; [exact Hl|]. intros x Hx. by apply Forall_cons in Hx as [? _]. }
  rewrite IH; [by rewrite <- app_assoc|]. by rewrite <- app_assoc.
Qed.

Lemma upsert_all_ts (Q : Timestamp -> Prop) p l r :
  Forall (fun x => Q (timestamp x)) l -> Forall (fun x => Q (timestamp x)) r ->
  Forall (fun x => Q (timestamp x)) (upsert_all p l r).
Proof.
  intros Hl Hr. revert l Hl. induction Hr as [|s r Hs Hr IH]; intros l Hl; [done|]. apply (IH (upsert_or_keep p l s)).
  unfold upsert_or_keep. destruct (list_upsert p s l) eqn:E; [|done]. by eapply list_upsert_ts.
Qed.

Lemma upsert_all_nonempty p l r : l <> [] -> upsert_all p l r <> [].
Proof.
  revert l. induction r as [|s r IH]; intros l Hl; [done|]. apply (IH (upsert_or_keep p l s)).
  unfold upsert_or_keep. destruct (list_upsert p s l) eqn:E; [by eapply upsert_nonempty|done].
Qed.

(** ** Chunks of a series with encoding [e] *)

Section Laws.

Context `{Log10} `{ServerConfig}.

Definition chunk_sized (e : ChunkEncoding) (c : TimeSeriesChunk) : Prop :=
  budget_ok (chunk_max_size c) /\
  capacity c = match e with EncUncompressed => Some (chunk_max_size c / SAMPLE_SIZE) | _ => None end.

Lemma chunk_sized_eq e c c' :
  chunk_sized e c -> capacity c' = capacity c -> chunk_max_size c' = chunk_max_size c -> chunk_sized e c'.
Proof. intros [Hb Hc] E1 E2. unfold chunk_sized. by rewrite E1, E2. Qed.

#[export] Instance chunk_sized_shrinks e : Shrinks (chunk_sized e).
Proof. intros c c' Hc E1 E2 _. by eapply chunk_sized_eq. Qed.

Lemma chunk_new_sized e n : budget_ok n -> chunk_sized e (chunk_new e n).
Proof. intros Hn. split; rewrite ?chunk_new_max_size; [done|]. by destruct e. Qed.

(** A merge keeps the capacity. *)
Lemma u_merge_capacity u r dp res u' : u_merge_samples u r dp = Ok (res, u') -> max_elements u' = max_elements u.
Proof.
  unfold u_merge_samples. destruct r as [|s [|s2 r]]; [by intros [= _ <-]| |].
  - destruct (samples u) as [|x l].
    + unfold u_add_sample. destruct (u_is_full u); [done|]. by intros [= _ <-].
    + destruct (u_upsert_sample u s (default KeepLast dp)) as [[n v]|[]] eqn:E; try done; intros [= _ <-]; try done.
      assert (capacity (UncompressedVariant v) = capacity (UncompressedVariant u)) as Hc.
      { apply (capacity_upsert (UncompressedVariant u) s (default KeepLast dp) n). cbn. by rewrite E. }
      by injection Hc.
  - destruct (_ || _); [by intros [= _ <-]|]. destruct (merge_chunk_samples _ _ _ _ _) as [[d rs]|]; [|done].
    by intros [= _ <-].
Qed.

Lemma capacity_merge c r dp res c' : chunk_merge_samples c r dp = Ok (res, c') -> capacity c' = capacity c.
Proof. apply dispatch_mut_capacity. intros u u' E. cbn in E. by eapply u_merge_capacity. Qed.

Definition outcome_ok (r : SampleAddResult) : Prop := match r with AddError _ => False | _ => True end.

Lemma result_for_ok p l s r : result_for p l s r -> outcome_ok r.
Proof. intros [->|[-> _]]; [|done]. unfold merge_result. by repeat case_match. Qed.

(** A group merged into its chunk. *)
Lemma exec_merge_spec e (c : TimeSeriesChunk) l r p :
  holds c l -> chunk_sized e c -> content_ok r ->
  (forall s, r = [s] -> appends l s -> forall m, capacity c = Some m -> chunk_is_full c = false) ->
  exists res c', exec_merge c r (Some p) = (res, c') /\ holds c' (upsert_all p l r) /\ chunk_sized e c' /\
    length res = length r /\ Forall outcome_ok res.
Proof.
  intros Hh Hs Hr Hroom.
  assert (exists res c', chunk_merge_samples c r (Some p) = Ok (res, c') /\ holds c' (upsert_all p l r) /\
    Forall2 (result_for p l) r res /\ chunk_max_size c' = chunk_max_size c) as (res & c' & E & Hh' & HF & Hm).
  { destruct c as [u|u|u].
    - apply (holds_merge (UncompressedVariant u) l r (Some p) Hh Hr). intros s Es Ha. by eapply Hroom.
    - destruct (cc_merge_law u l r (Some p) Hh Hr) as (res & c' & E & H1 & H2 & H3). exists res, (GorillaVariant c').
      split_and!; try done. cbn. by rewrite E.
    - destruct (cc_merge_law u l r (Some p) Hh Hr) as (res & c' & E & H1 & H2 & H3). exists res, (ChimpVariant c').
      split_and!; try done. cbn. by rewrite E. }
  exists res, c'. unfold exec_merge. rewrite E. split_and!; [done|done| | |].
  - eapply chunk_sized_eq; [done|by eapply capacity_merge|done].
  - symmetry. by eapply Forall2_length.
  - apply Forall_lookup. intros i x Hx. destruct (Forall2_lookup_r _ _ _ _ _ HF Hx) as (s & _ & Hres).
    by eapply result_for_ok.
Qed.

(** *** New chunks *)

Lemma slice_chunks_concat fuel size l :
  (0 < size)%nat -> (length l <= fuel)%nat ->
  concat (slice_chunks fuel size l) = l /\ Forall (fun g => g <> []) (slice_chunks fuel size l).
Proof.
  intros Hs. revert l. induction fuel as [|fuel IH]; intros l Hf; cbn [slice_chunks].
  { by destruct l; [|cbn in Hf; lia]. }
  destruct l as [|x l]; [done|]. destruct (IH (drop size (x :: l))) as [Ec Hn].
  { rewrite length_drop. cbn [length] in *. lia. }
  split; [cbn [concat]; by rewrite Ec, take_drop|]. constructor; [|done]. destruct size; [lia|done].
Qed.

(** Slices of an ordered list, each merged into a chunk of its own. *)
Lemma merge_new_groups t p (gs : list (list Sample)) acc cs news :
  settings_ok t -> Forall (fun g : list Sample => g <> []) gs -> content_ok (concat gs) ->
  exists res new, fold_left (merge_group t (Some p)) (map (fun g => (New, g)) gs) (acc, cs, news) =
      (acc ++ res, cs, news ++ new) /\
    Forall2 holds new gs /\ Forall (chunk_sized (chunk_encoding t)) new /\
    length res = length (concat gs) /\ Forall outcome_ok res.
Proof.
  intros [Hb _]. revert acc news. induction gs as [|g gs IH]; intros acc news Hn Hc.
  { exists [], []. cbn. rewrite !app_nil_r. by split_and!. }
  apply Forall_cons in Hn as [Hg Hn]. cbn [concat] in Hc. apply content_ok_app in Hc as (Hcg & Hc & _).
  destruct (exec_merge_spec (chunk_encoding t) (chunk_new (chunk_encoding t) (chunk_size_bytes t)) [] g p
    (chunk_new_holds _ _) (chunk_new_sized _ _ Hb) Hcg) as (res & c & E & Hh & Hs & Hlen & Hok).
  { intros _ _ _ _ _. by apply chunk_new_not_full. }
  rewrite upsert_all_fresh in Hh by apply Hcg.
  cbn [map fold_left merge_group]. rewrite E. unfold seal_chunk.
  destruct (IH (acc ++ res) (news ++ [c]) Hn Hc) as (res' & new & -> & HF & Hss & Hlen' & Hok').
  exists (res ++ res'), (c :: new). rewrite <- !app_assoc. split_and!; [done|by constructor|by constructor| |by apply Forall_app].
  cbn [concat]. rewrite !length_app. lia.
Qed.

(** What [add_chunks_for_appends] and [add_chunks_for_backfill] add: slices of
    the samples, in order. *)
Lemma push_new_groups_spec dest l size :
  0 < size -> exists gs, push_new_groups dest l size = dest ++ map (fun g => (New, g)) gs /\
    concat gs = l /\ Forall (fun g : list Sample => g <> []) gs.
Proof.
  intros Hs. destruct (slice_chunks_concat (length l) (Z.to_nat size) l ltac:(lia) (le_n _)) as [Ec Hn].
  exists (slice_chunks (length l) (Z.to_nat size) l). by split_and!.
Qed.

Lemma appends_groups dest l n bps :
  exists gs, add_chunks_for_appends dest l n bps = dest ++ map (fun g => (New, g)) gs /\
    concat gs = l /\ Forall (fun g : list Sample => g <> []) gs.
Proof.
  unfold add_chunks_for_appends. destruct l as [|x l].
  { exists []. cbn. by rewrite app_nil_r. }
  case_match; apply push_new_groups_spec; cbn [length]; lia.
Qed.

Lemma backfill_groups dest l n bps :
  exists gs, add_chunks_for_backfill dest l n bps = dest ++ map (fun g => (New, g)) gs /\
    concat gs = l /\ Forall (fun g : list Sample => g <> []) gs.
Proof.
  unfold add_chunks_for_backfill. destruct (Z.eqb_spec (Z.of_nat (length l)) 0) as [Hz|Hz].
  { exists []. destruct l; [|cbn [length] in Hz; lia]. cbn. by rewrite app_nil_r. }
  destruct (_ <=? n); [apply push_new_groups_spec; lia|].
  set (cap := Z.max _ 1). set (k := Z.of_nat (length l)) in *. apply push_new_groups_spec.
  assert (forall b, 0 < b -> 0 < div_ceil k b) as Hdiv by (intros b Hb; unfold div_ceil; apply Z.div_str_pos; lia).
  apply Hdiv. destruct ((0 <? k / cap) && _) eqn:E; [lia|]. apply Hdiv. lia.
Qed.

(** *** Existing chunks *)

(** What the tail takes fits it. *)
Lemma tail_room e (c : TimeSeriesChunk) l rest bps m :
  holds c l -> chunk_sized e c -> (e = EncUncompressed -> bps = UNCOMPRESSED_BPS) -> 0 < rest ->
  1 <= tail_take c rest bps -> capacity c = Some m -> chunk_is_full c = false.
Proof.
  intros Hh [Hb Hc] Hbps Hrest Ht Hm. rewrite (full_capacity _ _ Hm). rewrite Hm in Hc. destruct e; [|done|done].
  assert (m = chunk_max_size c / SAMPLE_SIZE) as -> by congruence. pose proof (chunk_size_capacity _ _ Hm) as Hsz. rewrite (Hbps eq_refl) in Ht.
  assert (16 <= chunk_max_size c - chunk_size c) as Hroom.
  { revert Ht. unfold tail_take, sat_usize_mul, samples_for, UNCOMPRESSED_BPS, WORST_CASE_BYTES_PER_SAMPLE, BPS_SCALE, SAMPLE_SIZE, sat_usize_sub.
    destruct (Z.leb_spec (Z.min (2 ^ 64 - 1) (rest * 20)) (Z.max 0 (chunk_max_size c - chunk_size c))); [lia|].
    intros Ht. destruct (Z.lt_ge_cases (chunk_max_size c - chunk_size c) 16) as [Hlt|]; [exfalso|done].
    assert (Z.max 0 (chunk_max_size c - chunk_size c) * 256 / (16 * 256) = 0); [|lia].
    apply Z.div_small. lia. }
  apply Z.leb_gt. unfold SAMPLE_SIZE in *. apply (Z.lt_le_trans _ (chunk_len c + 1)); [lia|].
  apply Z.div_le_lower_bound; lia.
Qed.

Lemma above_bound b r : ts_sorted r -> match r with [] => True | x :: _ => b < timestamp x end ->
  Forall (fun s => b < timestamp s) r.
Proof.
  destruct 1 as [|x r Hs Hx]; [constructor|]. intros Hb. constructor; [done|].
  eapply Forall_impl; [exact Hx|]. unfold ts_lt. intros; lia.
Qed.

(** The upserts into the first chunk and into the rest do not interfere. *)
Lemma upsert_all_split p b l k rr r' :
  Forall (fun x => timestamp x <= b) l -> Forall (fun s => b < timestamp s) r' ->
  ts_sorted (rr ++ r') -> Forall (fun s => Forall (fun x => timestamp s < timestamp x) k) rr ->
  upsert_all p (l ++ k) (rr ++ r') = upsert_all p l rr ++ upsert_all p k r'.
Proof.
  intros Hl Hr' Hs Hk. rewrite upsert_all_app, upsert_all_below by done. apply upsert_all_above.
  apply ts_sorted_app in Hs as (_ & _ & Hlt). apply Forall_forall. intros s Hs.
  apply (upsert_all_ts (fun t => t < timestamp s)).
  - rewrite Forall_forall in Hr'. specialize (Hr' s Hs). cbn beta in Hr'. eapply Forall_impl; [exact Hl|]. cbn. intros; lia.
  - eapply Forall_impl; [exact Hlt|]. intros x Hx. cbn beta in Hx. rewrite Forall_forall in Hx. by apply Hx.
Qed.

Lemma merge_existing_group e t p (c : TimeSeriesChunk) l rr n pre cs acc news :
  holds c l -> chunk_sized e c -> content_ok rr -> n = length rr ->
  (forall s, rr = [s] -> appends l s -> forall m, capacity c = Some m -> chunk_is_full c = false) ->
  exists res c', fold_left (merge_group t (Some p)) (if (0 <? n)%nat then [(ExistingIdx (length pre), rr)] else [])
      (acc, pre ++ c :: cs, news) = (acc ++ res, pre ++ c' :: cs, news) /\ holds c' (upsert_all p l rr) /\
    chunk_sized e c' /\ length res = length rr /\ Forall outcome_ok res.
Proof.
  intros Hh Hc Hr -> Hroom. destruct rr as [|s rr]; cbn [length].
  { exists [], c. cbn. rewrite app_nil_r. by split_and!. }
  destruct (exec_merge_spec e c l (s :: rr) p Hh Hc Hr Hroom) as (res & c' & E & Hh' & Hc' & Hlen & Hok).
  exists res, c'. cbn [Nat.ltb Nat.leb fold_left merge_group]. rewrite list_lookup_middle by done. rewrite E, insert_middle.
  by split_and!.
Qed.

Lemma tail_take_le (c : TimeSeriesChunk) rest bps : 0 <= rest -> tail_take c rest bps <= rest.
Proof. unfold tail_take. case_match; lia. Qed.

(** A group of one newer sample goes to a chunk with room. *)
Lemma single_has_room e bps (c : TimeSeriesChunk) l (r1 r2 : list Sample) k s m :
  (e = EncUncompressed -> bps = UNCOMPRESSED_BPS) -> holds c l -> l <> [] -> chunk_sized e c ->
  Forall (fun x => timestamp x <= last_timestamp c) r1 ->
  k = Z.to_nat (tail_take c (Z.of_nat (length r2)) bps) \/ k = O ->
  r1 ++ take k r2 = [s] -> appends l s -> capacity c = Some m -> chunk_is_full c = false.
Proof.
  intros Hbps Hh Hl Hc Hr1 Hk E Ha Hm. destruct (holds_ends c l Hh Hl) as (_ & (x & Hx & Hxe) & _).
  unfold appends in Ha. rewrite Forall_forall in Ha. specialize (Ha x Hx). unfold ts_lt in Ha.
  destruct r1 as [|y r1].
  - cbn in E. destruct k as [|k]; [done|]. destruct r2 as [|z r2]; [done|]. destruct Hk as [Hk|]; [|done].
    eapply (tail_room e c l (Z.of_nat (length (z :: r2)))); try done; cbn [length] in *; lia.
  - injection E as -> _. apply Forall_cons in Hr1 as [Hs _]. cbn beta in Hs. lia.
Qed.

Lemma group_existing_spec e bps t p :
  (e = EncUncompressed -> bps = UNCOMPRESSED_BPS) ->
  forall cs ls k r pre acc news groups remaining,
  layout cs ls -> Forall (chunk_sized e) cs -> content_ok r -> length pre = k ->
  group_existing bps k cs r = (groups, remaining) ->
  exists taken res cs' ls', r = taken ++ remaining /\
    fold_left (merge_group t (Some p)) groups (acc, pre ++ cs, news) = (acc ++ res, pre ++ cs', news) /\
    Forall2 holds cs' ls' /\ Forall (fun l : list Sample => l <> []) ls' /\ Forall (chunk_sized e) cs' /\
    concat ls' = upsert_all p (concat ls) taken /\ length res = length taken /\ Forall outcome_ok res /\
    Forall (fun s => Forall (fun x => timestamp x < timestamp s) (concat ls)) remaining.
Proof.
  intros Hbps. induction cs as [|c cs IH]; intros ls k r pre acc news groups remaining HL Hsz Hr Hk Eg.
  { rewrite (layout_nil_inv _ HL). cbn in Eg. injection Eg as <- <-. exists [], [], [], []. cbn. rewrite !app_nil_r.
    split_and!; try done. apply Forall_true. intros; constructor. }
  apply layout_cons_inv in HL as (l & ls1 & -> & (Hh & Hl & HL & Hlt)%layout_cons).
  apply Forall_cons in Hsz as [Hc Hsz]. pose proof (holds_bounds _ _ Hh) as Hb.
  destruct (take_while_split (fun s => timestamp s <=? last_timestamp c) r) as (r1 & r2 & Er & Hlen & Hr1 & Hr2).
  cbn [group_existing] in Eg. rewrite Hlen, Er, drop_app_length in Eg.
  set (extra := match cs, r2 with [], _ :: _ => Z.to_nat (tail_take c (Z.of_nat (length r2)) bps) | _, _ => O end).
  assert (match cs, r2 with
    | [], _ :: _ => (length r1 + Z.to_nat (tail_take c (Z.of_nat (length r2)) bps))%nat
    | _, _ => length r1 end = (length r1 + extra)%nat) as Etaken by (unfold extra; destruct cs, r2; lia).
  rewrite Etaken, take_app_add, drop_app_add in Eg. set (rr := r1 ++ take extra r2) in *.
  destruct (group_existing bps (S k) cs (drop extra r2)) as [gs rem] eqn:Eg'. injection Eg as Egs ->.
  pose proof Hr as Hr0. rewrite Er in Hr0. pose proof Hr0 as (_ & Hcr2 & _)%content_ok_app.
  assert (Forall (fun s => last_timestamp c < timestamp s) r2) as Habove.
  { apply above_bound; [apply Hcr2|]. destruct r2; [done|]. lia. }
  assert (r = rr ++ drop extra r2) as Er' by (unfold rr; by rewrite <- app_assoc, take_drop).
  assert (exists res c', fold_left (merge_group t (Some p)) (if (0 <? length r1 + extra)%nat then [(ExistingIdx k, rr)] else [])
      (acc, pre ++ c :: cs, news) = (acc ++ res, pre ++ c' :: cs, news) /\ holds c' (upsert_all p l rr) /\
      chunk_sized e c' /\ length res = length rr /\ Forall outcome_ok res) as (res & c' & Efold & Hh' & Hc' & Hlres & Hok).
  { rewrite <- Hk. eapply merge_existing_group; [done|done| | |].
    - rewrite Er' in Hr. by apply content_ok_app in Hr as (? & _).
    - unfold rr. rewrite length_app, length_take. f_equal. rewrite Nat.min_l; [done|]. unfold extra.
      destruct cs, r2; cbn [length]; try lia. pose proof (tail_take_le c (Z.of_nat (S (length r2))) bps). lia.
    - intros s Es Ha m Hm. eapply (single_has_room e bps c l r1 r2 extra); try done.
      + eapply Forall_impl; [exact Hr1|]. cbn beta. intros; lia.
      + unfold extra. destruct cs; [|by right]. destruct r2; [by right|by left]. }
  destruct (IH ls1 (S k) (drop extra r2) (pre ++ [c']) (acc ++ res) news gs remaining) as
    (taken & res' & cs' & ls' & Et & Ef & HF & HN & HS & Ecat & Hlen' & Hok' & Hrem); try done.
  { by apply content_ok_drop. } { rewrite length_app. cbn. lia. }
  exists (rr ++ taken), (res ++ res'), (c' :: cs'), (upsert_all p l rr :: ls').
  assert (Forall (fun x => timestamp x <= last_timestamp c) l) as Hlle
    by (eapply Forall_impl; [exact Hb|]; cbn beta; intros; lia).
  assert (Forall (fun s => last_timestamp c < timestamp s) (drop extra r2)) as Hdrop by (by apply Forall_drop).
  rewrite Et in Hdrop. apply Forall_app in Hdrop as [Htak Hremc].
  split_and!.
  - by rewrite Er', Et, app_assoc.
  - replace groups with ((if (0 <? length r1 + extra)%nat then [(ExistingIdx k, rr)] else []) ++ gs)
      by (rewrite <- Egs; by destruct (0 <? _)%nat).
    etrans; [apply fold_left_app|]. etrans; [apply (f_equal (fold_left _ gs)); exact Efold|].
    rewrite <- (app_assoc pre [c'] cs), <- (app_assoc pre [c'] cs') in Ef. cbn [app] in Ef.
    by rewrite Ef, app_assoc.
  - by constructor.
  - constructor; [by apply upsert_all_nonempty|done].
  - by constructor.
  - cbn [concat]. rewrite Ecat. symmetry. apply (upsert_all_split p (last_timestamp c)); [done|done| |].
    + destruct Hr as [Hs _]. rewrite Er', Et, app_assoc in Hs. by apply ts_sorted_app in Hs as (? & _).
    + destruct cs as [|d cs]; [rewrite (layout_nil_inv _ HL); apply Forall_true; intros; constructor|].
      unfold rr, extra. cbn [take]. rewrite app_nil_r. destruct (holds_ends c l Hh Hl) as (_ & (z & Hz & Hze) & _).
      rewrite Forall_forall in Hlt. specialize (Hlt z Hz). cbn beta in Hlt. eapply Forall_impl; [exact Hr1|].
      intros s Hs. eapply Forall_impl; [exact Hlt|]. unfold ts_lt. cbn beta in *. intros; lia.
  - rewrite !length_app. lia.
  - by apply Forall_app.
  - cbn [concat]. apply Forall_forall. intros s Hs. apply Forall_app. rewrite Forall_forall in Hrem, Hremc.
    split; [|by apply Hrem]. specialize (Hremc s Hs). cbn beta in Hremc.
    eapply Forall_impl; [exact Hlle|]. cbn beta. intros; lia.
Qed.

(** ** All groups of a batch *)

Lemma layout_increasing (cs : list TimeSeriesChunk) ls :
  layout cs ls -> key_increasing (fun c => first_timestamp c) cs.
Proof.
  revert ls. induction cs as [|c cs IH]; intros ls HL; [constructor|].
  pose proof HL as HL0. apply layout_cons_inv in HL as (l & ls' & -> & (Hh & Hl & HL & _)%layout_cons).
  constructor; [by eapply IH|]. apply Forall_forall. intros d Hd.
  pose proof (layout_head_before _ _ _ _ HL0 Hd). destruct (holds_ends c l Hh Hl) as (_ & _ & Hle). lia.
Qed.

(** The new chunks before and after the existing ones end up in place. *)
Lemma sort_in_place (new1 cs new2 : list TimeSeriesChunk) ls :
  layout (new1 ++ cs ++ new2) ls ->
  match new1 ++ new2 with [] => cs | _ => sort_by_key (fun c => first_timestamp c) (cs ++ new1 ++ new2) end =
  new1 ++ cs ++ new2.
Proof.
  intros HL. destruct (new1 ++ new2) as [|c n] eqn:E.
  { apply app_eq_nil in E as [-> ->]. cbn. by rewrite app_nil_r. }
  rewrite <- E. apply sort_by_key_unique; [by eapply layout_increasing|]. rewrite !app_assoc. f_equiv.
  apply Permutation_app_comm.
Qed.

Lemma upsert_all_around p l old taken rem :
  content_ok l -> content_ok (old ++ taken ++ rem) ->
  Forall (fun s => Forall (fun x => timestamp s < timestamp x) l) old ->
  Forall (fun s => Forall (fun x => timestamp x < timestamp s) l) rem ->
  upsert_all p l (old ++ taken ++ rem) = old ++ upsert_all p l taken ++ rem.
Proof.
  intros Hl Hr Ho Hrem. pose proof Hr as (Hco & Hctr & Hlt1)%content_ok_app. pose proof Hctr as (Hct & Hcr & Hlt2)%content_ok_app.
  rewrite upsert_all_app. change l with ([] ++ l) at 1. rewrite upsert_all_below by done.
  rewrite (upsert_all_fresh p [] old) by apply Hco. cbn [app]. rewrite upsert_all_above.
  2: { apply Forall_forall. intros s Hs. eapply Forall_impl; [exact Hlt1|]. intros x Hx. cbn beta in Hx.
       rewrite Forall_forall in Hx. by apply Hx. }
  f_equal. rewrite upsert_all_app. apply upsert_all_fresh. apply ts_sorted_app. split_and!.
  - apply content_ok_upsert_all; [done|apply Hct].
  - apply Hcr.
  - apply Forall_forall. intros x Hx. apply Forall_forall. intros s Hs. unfold ts_lt.
    assert (Forall (fun x => timestamp x < timestamp s) (upsert_all p l taken)) as Hall.
    { apply (upsert_all_ts (fun t => t < timestamp s)); [rewrite Forall_forall in Hrem; by apply Hrem|].
      eapply Forall_impl; [exact Hlt2|]. intros y Hy. cbn beta in Hy. rewrite Forall_forall in Hy. by apply Hy. }
    rewrite Forall_forall in Hall. by apply Hall.
Qed.

Lemma estimate_uncompressed t r : chunk_encoding t = EncUncompressed -> estimate_bps t r = UNCOMPRESSED_BPS.
Proof. intros E. unfold estimate_bps, series_is_compressed. by rewrite E, bool_decide_true. Qed.

Definition place (cs news : list TimeSeriesChunk) : list TimeSeriesChunk :=
  match news with [] => cs | _ => sort_by_key (fun c => first_timestamp c) (cs ++ news) end.

Lemma merge_groups_spec t ls r p :
  series_rep (chunk_sized (chunk_encoding t)) t ls -> content_ok r -> r <> [] ->
  exists outcomes cs news ls',
    fold_left (merge_group t (Some p)) (group_samples_by_chunk t r) ([], chunks t, []) = (outcomes, cs, news) /\
    layout (place cs news) ls' /\ Forall (chunk_sized (chunk_encoding t)) (place cs news) /\
    concat ls' = upsert_all p (concat ls) r /\ length outcomes = length r /\ Forall outcome_ok outcomes.
Proof.
  intros Hr Hc Hne. pose proof Hr as [HL Hsz _ _ _ Hset]. unfold group_samples_by_chunk.
  destruct r as [|s0 r0] eqn:Er; [done|]. rewrite <- Er in *. clear Hne.
  pose proof (rep_empty _ _ Hr) as Hempty. destruct (chunks t) as [|c0 cs0] eqn:Ecs.
  - destruct (appends_groups [] r (chunk_size_bytes t) (estimate_bps t r)) as (gs & -> & Egs & Hn). cbn [app].
    destruct (merge_new_groups t p gs [] [] [] Hset Hn) as (res & new & E & HF & Hs & Hlen & Hok); [by rewrite Egs|].
    exists res, [], new, gs. assert (layout new gs) as HLn by (split_and!; [done|done|by rewrite Egs]).
    pose proof (sort_in_place new [] [] gs) as Hplace. rewrite !app_nil_r in Hplace.
    assert (place [] new = new) as -> by (unfold place; apply Hplace; done).
    rewrite (layout_nil_inv _ HL), upsert_all_fresh by apply Hc. rewrite <- Egs. by split_and!.
  - rewrite Hempty, <- Ecs in *. set (bps := estimate_bps t r).
    destruct (take_while_split (fun s => timestamp s <? first_timestamp c0) r) as (old & r' & Erold & -> & Hold & _).
    rewrite Erold, drop_app_length.
    destruct (backfill_groups [] old (chunk_size_bytes t) bps) as (gs1 & -> & Egs1 & Hn1). cbn [app].
    destruct (group_existing bps 0 (chunks t) r') as [groups rem] eqn:Eg.
    match goal with |- context [add_chunks_for_appends ?dest rem _ _] =>
      destruct (appends_groups dest rem (chunk_size_bytes t) bps) as (gs2 & -> & Egs2 & Hn2) end.
    rewrite Erold in Hc. pose proof Hc as (Hco & Hcr & _)%content_ok_app.
    destruct (merge_new_groups t p gs1 [] (chunks t) [] Hset Hn1) as (res1 & new1 & E1 & HF1 & Hs1 & Hlen1 & Hok1); [by rewrite Egs1|].
    destruct (group_existing_spec (chunk_encoding t) bps t p (fun E => estimate_uncompressed t r E) (chunks t) ls 0 r' []
      ([] ++ res1) ([] ++ new1) groups rem HL Hsz Hcr eq_refl Eg)
      as (taken & res & cs & ls1 & Er' & E2 & HF & HN & Hs & Ecat & Hlen & Hok & Hrem).
    rewrite Er' in Hc, Hcr. pose proof Hcr as (_ & Hcrem & _)%content_ok_app.
    destruct (merge_new_groups t p gs2 ([] ++ res1 ++ res) cs ([] ++ new1) Hset Hn2) as (res2 & new2 & E3 & HF2 & Hs2 & Hlen2 & Hok2);
      [by rewrite Egs2|].
    cbn [app] in E1, E2, E3. exists (res1 ++ res ++ res2), cs, (new1 ++ new2), (gs1 ++ ls1 ++ gs2).
    assert (concat (gs1 ++ ls1 ++ gs2) = upsert_all p (concat ls) (old ++ taken ++ rem)) as Eall.
    { rewrite !concat_app, Egs1, Ecat, Egs2. symmetry. apply upsert_all_around; [apply HL|done| |done].
      pose proof (layout_first _ _ HL) as Hfirst. rewrite Ecs in Hfirst. destruct HL as (_ & _ & Hcl).
      destruct (concat ls) as [|x k]; [apply Forall_true; intros; constructor|]. cbn [first_of] in Hfirst.
      eapply Forall_impl; [exact Hold|]. intros s Hs0. cbn beta in Hs0.
      eapply (Forall_impl _ _ _ (above_min (timestamp x) k x Hcl ltac:(lia))). cbn beta. intros; lia. }
    assert (layout (new1 ++ cs ++ new2) (gs1 ++ ls1 ++ gs2)) as HLall.
    { split_and!; [by repeat apply Forall2_app|by repeat (apply Forall_app; split)|].
      rewrite Eall. apply content_ok_upsert_all; [apply HL|apply Hc]. }
    assert (place cs (new1 ++ new2) = new1 ++ cs ++ new2) as -> by (by eapply sort_in_place).
    split_and!.
    + rewrite <- app_assoc. etrans; [apply fold_left_app|]. rewrite E1. etrans; [apply fold_left_app|].
      rewrite E2. cbn [app]. by rewrite E3, <- app_assoc.
    + done.
    + repeat (apply Forall_app; split); done.
    + by rewrite Er'.
    + rewrite Er', !length_app, Hlen1, Hlen2, Egs1, Egs2. lia.
    + repeat (apply Forall_app; split); done.
Qed.

(** ** Normalization *)

(** The result at [i] is not an internal error. *)
Definition settled (rs : list SampleAddResult) (i : nat) : Prop := exists r, rs !! i = Some r /\ outcome_ok r.

Lemma settled_insert rs i j r : settled rs j -> outcome_ok r -> settled (<[i := r]> rs) j.
Proof.
  intros (r0 & Hr0 & Hok) Hr. destruct (decide (i = j)) as [->|Hne].
  - exists r. split; [|done]. apply list_lookup_insert_eq. by eapply lookup_lt_Some.
  - exists r0. split; [|done]. by rewrite list_lookup_insert_ne.
Qed.

Lemma settled_new rs i r : (i < length rs)%nat -> outcome_ok r -> settled (<[i := r]> rs) i.
Proof. intros Hi Hr. exists r. split; [by apply list_lookup_insert_eq|done]. Qed.

Lemma splice_length rs index outs : length (splice rs index outs) = length rs.
Proof.
  unfold splice. revert rs. induction (combine index outs) as [|[i r] l IH]; intros rs; [done|].
  cbn [fold_left]. by rewrite IH, length_insert.
Qed.

Lemma splice_settled rs index outs j :
  length outs = length index -> Forall outcome_ok outs -> Forall (fun i => (i < length rs)%nat) index ->
  j ∈ index \/ settled rs j -> settled (splice rs index outs) j.
Proof.
  intros Hlen Hok. revert outs rs Hlen Hok.
  induction index as [|i index IH]; intros [|r outs] rs Hlen Hok Hi Hj; try done.
  { by destruct Hj as [Hj%elem_of_nil|]. }
  apply Forall_cons in Hok as [Hr Hok]. apply Forall_cons in Hi as [Hi0 Hi].
  change (settled (splice (<[i := r]> rs) index outs) j). apply IH; [by injection Hlen|done| |].
  - by rewrite length_insert.
  - destruct Hj as [[->|Hj]%elem_of_cons|Hj]; [right; by apply settled_new|by left|right; by apply settled_insert].
Qed.

(** What the loop keeps, once the items at [seen] are through. *)
Record norm_inv (t : TimeSeries) (samples : list Sample) (seen : list nat)
    (st : NormalizedBatch * option Sample * option Timestamp) : Prop := {
  ni_content : content_ok (to_insert st.1.1);
  ni_before : Forall (fun s => exists p, st.2 = Some p /\ timestamp s <= p) (to_insert st.1.1);
  ni_source : Forall (fun s => exists x, x ∈ samples /\ s = mkSample (timestamp x) (adjust_value t (value x))) (to_insert st.1.1);
  ni_length : length (results st.1.1) = length samples;
  ni_index : length (insert_index st.1.1) = length (to_insert st.1.1);
  ni_bound : Forall (fun i => (i < length samples)%nat) (insert_index st.1.1);
  ni_seen : forall i, i ∈ seen -> i ∈ insert_index st.1.1 \/ settled (results st.1.1) i;
}.

Lemma adjusted_valid t x : sample_valid x -> sample_valid (mkSample (timestamp x) (adjust_value t (value x))).
Proof.
  intros [[Hx Hv] H0x]. assert (0 <= timestamp x < 2 ^ 63) as Ht by (split; [exact H0x|apply Hx]).
  exact (make_sample_valid t _ _ Ht Hv).
Qed.

Lemma norm_inv_report t samples seen b rl prev prev' i r :
  norm_inv t samples seen (b, rl, prev) -> (i < length samples)%nat -> outcome_ok r ->
  (forall p, prev = Some p -> exists p', prev' = Some p' /\ p <= p') ->
  norm_inv t samples (i :: seen) (mkNormalizedBatch (to_insert b) (insert_index b) (<[i := r]> (results b)), rl, prev').
Proof.
  intros [Hc Hb Hsrc Hl Hi Hbd Hs] Hlt Hr Hp. cbn [fst snd] in *. split; cbn [fst snd to_insert insert_index results]; try done.
  - eapply Forall_impl; [exact Hb|]. intros s (p & -> & Hle). destruct (Hp p eq_refl) as (p' & -> & Hpp). exists p'. split; [done|lia].
  - by rewrite length_insert.
  - intros j [->|Hj]%elem_of_cons; [right; apply settled_new; [lia|done]|].
    destruct (Hs j Hj) as [|Hset]; [by left|right; by apply settled_insert].
Qed.

Lemma norm_inv_step t ov samples too_old seen st i x :
  norm_inv t samples seen st -> samples !! i = Some x -> sample_valid x ->
  (forall p, st.2 = Some p -> p <= timestamp x) ->
  norm_inv t samples (i :: seen) (normalize_step t ov too_old st (i, x)) /\
  (normalize_step t ov too_old st (i, x)).2 = Some (timestamp x).
Proof.
  destruct st as [[b rl] prev]. cbn [snd]. intros Hinv Hx Hv Hp. pose proof (lookup_lt_Some _ _ _ Hx) as Hlt.
  unfold normalize_step. case_bool_decide as Edup.
  { split; [|done]. subst prev. eapply norm_inv_report; [done|done|done|]. intros p [= <-]. exists (timestamp x). by split. }
  assert (forall p, prev = Some p -> exists p', Some (timestamp x) = Some p' /\ p <= p') as Hp'.
  { intros p ->. exists (timestamp x). split; [done|by apply Hp]. }
  destruct (nth i too_old false); [split; [by eapply norm_inv_report|done]|].
  set (ignored := match rl with Some _ => _ | None => false end). destruct ignored; [split; [by eapply norm_inv_report|done]|].
  split; [|done]. destruct Hinv as [Hc Hb Hsrc Hl Hi Hbd Hs]. cbn [fst snd] in *.
  split; cbn [fst snd to_insert insert_index results]; try done.
  - apply content_ok_snoc; [done|by apply adjusted_valid|]. eapply Forall_impl; [exact Hb|].
    intros s (p & -> & Hle). unfold ts_lt. cbn [timestamp]. specialize (Hp p eq_refl).
    destruct (Z.eq_dec p (timestamp x)) as [->|]; [done|lia].
  - apply Forall_app. split.
    + eapply Forall_impl; [exact Hb|]. intros s (p & -> & Hle). specialize (Hp p eq_refl). exists (timestamp x). split; [done|lia].
    + constructor; [|constructor]. exists (timestamp x). split; [done|cbn; lia].
  - apply Forall_app. split; [done|]. constructor; [|constructor]. exists x. split; [by eapply list_elem_of_lookup_2|done].
  - rewrite !length_app, Hi. done.
  - apply Forall_app. split; [done|by constructor].
  - intros j [->|Hj]%elem_of_cons; [left; apply elem_of_app; right; by left|].
    destruct (Hs j Hj) as [|]; [left; apply elem_of_app; by left|by right].
Qed.

Lemma norm_inv_loop t ov samples too_old order seen st :
  norm_inv t samples seen st -> key_sorted (fun x : nat * Sample => timestamp x.2) order ->
  Forall (fun x => samples !! x.1 = Some x.2 /\ sample_valid x.2) order ->
  (forall p, st.2 = Some p -> Forall (fun x => p <= timestamp x.2) order) ->
  exists seen', norm_inv t samples seen' (fold_left (normalize_step t ov too_old) order st) /\
    forall i, i ∈ seen \/ i ∈ order.*1 -> i ∈ seen'.
Proof.
  intros Hinv Hs. revert seen st Hinv. induction Hs as [|[i x] order Hs IH Hx]; intros seen st Hinv Ho Hp.
  { exists seen. split; [done|]. by intros i [|Hi%elem_of_nil]. }
  apply Forall_cons in Ho as [[Hi Hv] Ho]. cbn [fst snd] in Hi, Hv.
  destruct (norm_inv_step t ov samples too_old seen st i x Hinv Hi Hv) as [Hinv' Hprev].
  { intros p Ep. by pose proof (Forall_inv (Hp p Ep)). }
  cbn [fold_left]. destruct (IH (i :: seen) _ Hinv' Ho) as (seen' & Hfin & Hseen).
  { intros p Ep. rewrite Hprev in Ep. injection Ep as <-. exact Hx. }
  exists seen'. split; [done|]. intros j Hj. apply Hseen. rewrite fmap_cons in Hj. cbn [fst] in Hj.
  rewrite elem_of_cons in Hj |- *. tauto.
Qed.

Lemma is_sorted_by_ts_spec samples k : is_sorted_by_ts samples = true ->
  key_sorted (fun x : nat * Sample => timestamp x.2) (combine (seq k (length samples)) samples).
Proof.
  intros Hs. apply Sorted_StronglySorted; [intros [? ?] [? ?] [? ?]; cbn; lia|].
  revert k Hs. induction samples as [|x [|y l] IH]; intros k Hs; [constructor|repeat constructor|].
  cbn [is_sorted_by_ts] in Hs. apply andb_prop in Hs as [Hxy Hs]. constructor; [exact (IH (S k) Hs)|].
  constructor. cbn. by apply Z.leb_le.
Qed.

Lemma combine_fst {A B} (l : list A) (k : list B) : length l = length k -> (combine l k).*1 = l.
Proof. revert k. induction l as [|x l IH]; intros [|y k] Hl; try done. injection Hl as Hl. cbn. f_equal. by apply IH. Qed.

Lemma combine_seq_lookup (samples : list Sample) x : x ∈ combine (seq 0 (length samples)) samples ->
  samples !! x.1 = Some x.2.
Proof.
  change samples with (drop 0 samples) at 1 2. generalize 0%nat. intros k. rewrite length_drop. revert k.
  enough (forall l k, drop k samples = l -> x ∈ combine (seq k (length l)) l -> samples !! x.1 = Some x.2) as Hgen.
  { intros k Hx. apply (Hgen _ k eq_refl). by rewrite length_drop. }
  induction l as [|y l IH]; intros k Hk Hx; [by apply elem_of_nil in Hx|].
  cbn [length seq combine] in Hx. apply elem_of_cons in Hx as [->|Hx].
  - cbn [fst snd]. rewrite <- (Nat.add_0_r k), <- lookup_drop, Hk. done.
  - apply (IH (S k)); [|done]. rewrite <- Nat.add_1_r, <- drop_drop, Hk. done.
Qed.

(** A batch normalizes to valid content made of its samples, values rounded;
    every position is either passed on or already has its answer. *)
Lemma normalize_batch_spec t ov samples : Forall sample_valid samples ->
  exists rl prev, norm_inv t samples (seq 0 (length samples)) (normalize_batch t ov samples, rl, prev).
Proof.
  intros Hv. unfold normalize_batch. set (indexed := combine _ samples).
  set (order := if is_sorted_by_ts samples then _ else _).
  assert (order ≡ₚ indexed) as Hperm by (unfold order; case_match; [done|apply sort_by_key_perm]).
  assert (key_sorted (fun x : nat * Sample => timestamp x.2) order) as Hs.
  { unfold order. case_match; [by apply is_sorted_by_ts_spec|apply sort_by_key_sorted]. }
  clearbody order. set (init := mkNormalizedBatch _ _ _).
  destruct (norm_inv_loop t ov samples (retention_gate t samples) order [] (init, last_sample t, None))
    as (seen & Hfin & Hseen); [|done| |done|].
  - split; cbn; [apply content_ok_nil|done|done|by rewrite repeat_length|done|done|by intros i Hi%elem_of_nil].
  - apply Forall_forall. intros x Hx. rewrite Hperm in Hx. apply combine_seq_lookup in Hx. split; [done|].
    eapply Forall_lookup_1; done.
  - destruct (fold_left _ order _) as [[b rl] prev] eqn:Ef. exists rl, prev. destruct Hfin as [? ? ? ? ? ? Hs']. split; try done.
    intros i Hi. apply Hs', Hseen. right. rewrite Hperm. unfold indexed.
    rewrite combine_fst; [done|by rewrite length_seq].
Qed.

(** ** The batch *)

Lemma refresh_rep {P} t ls :
  layout (chunks t) ls -> Forall P (chunks t) -> settings_ok t ->
  series_rep P (recalculate_total_samples (update_first_last_timestamps t)) ls /\
  settings (recalculate_total_samples (update_first_last_timestamps t)) = settings t.
Proof.
  intros HL Hf Hs. set (t0 := with_total t (Z.of_nat (length (concat ls)))).
  destruct (update_ends_rep (P := P) t0 ls) as [Hr Hset]; [done|done|done|done|].
  assert (recalculate_total_samples (update_first_last_timestamps t) = update_first_last_timestamps t0) as ->; [|by rewrite Hset].
  unfold recalculate_total_samples.
  assert (chunks (update_first_last_timestamps t) = chunks t) as ->.
  { unfold update_first_last_timestamps, update_last_sample. cbn [chunks with_first with_last]. by repeat case_match. }
  rewrite (layout_total _ _ HL). subst t0. generalize (Z.of_nat (length (concat ls))). intros n. clear.
  unfold update_first_last_timestamps, update_last_sample. cbn [chunks with_total with_first with_last].
  destruct (chunks t) as [|c cs] eqn:Ec; cbn [chunks with_total with_first with_last]; rewrite Ec; by destruct (list.last _).
Qed.

Lemma merge_into_spec t ls samples ov :
  series_rep (chunk_sized (chunk_encoding t)) t ls -> Forall sample_valid samples ->
  exists res t' ls', merge_samples_into_series t samples ov = (res, t') /\
    series_rep (chunk_sized (chunk_encoding t)) t' ls' /\ settings t' = settings t /\
    concat ls' = upsert_all (series_policy t ov) (concat ls) (to_insert (normalize_batch t ov samples)) /\
    length res = length samples /\ Forall outcome_ok res.
Proof.
  intros Hr Hv. destruct (normalize_batch_spec t ov samples Hv) as (rl & prev & [Hc _ _ Hlen Hidx Hbd Hseen]).
  cbn [fst snd] in *. remember (normalize_batch t ov samples) as b eqn:Eb.
  assert (forall rs, length rs = length samples -> (forall i, (i < length samples)%nat -> settled rs i) -> Forall outcome_ok rs) as Hall.
  { intros rs Hl Hrs. apply Forall_lookup. intros i x Hx. pose proof (lookup_lt_Some _ _ _ Hx).
    destruct (Hrs i) as (r & Hri & Hok); [lia|]. by simplify_eq. }
  assert (forall i, (i < length samples)%nat -> i ∈ insert_index b \/ settled (results b) i) as Hcover.
  { intros i Hi. apply Hseen, elem_of_seq. lia. }
  unfold merge_samples_into_series. destruct samples as [|s0 samples0] eqn:Es.
  { exists [], t, ls. rewrite Eb. by split_and!. }
  rewrite <- Es in *. rewrite <- Eb. destruct (decide (to_insert b = [])) as [E0|Hne].
  - rewrite E0. cbn [group_samples_by_chunk upsert_all foldl]. exists (results b), t, ls. split_and!; try done.
    apply Hall; [done|]. intros i Hi. destruct (Hcover i Hi) as [Hin|]; [|done].
    rewrite E0 in Hidx. apply nil_length_inv in Hidx. rewrite Hidx in Hin. by apply elem_of_nil in Hin.
  - destruct (merge_groups_spec t ls (to_insert b) (series_policy t ov) Hr Hc Hne)
      as (outs & cs & news & ls' & E & HL & Hs & Ecat & Hlo & Hok).
    destruct (group_samples_by_chunk t (to_insert b)) as [|g gs] eqn:Eg.
    { cbn [fold_left] in E. injection E as <- _ _. by destruct (to_insert b). }
    unfold series_policy in E. rewrite E. fold (place cs news).
    destruct (refresh_rep (P := chunk_sized (chunk_encoding t)) (with_chunks t (place cs news)) ls' HL Hs (sr_settings _ _ Hr)) as [Hr' Hset].
    eexists _, _, ls'. split; [done|]. split_and!; [done|done|done|by rewrite splice_length|].
    apply Hall; [by rewrite splice_length|]. intros i Hi. apply splice_settled; [lia|done|by rewrite Hlen|by apply Hcover].
Qed.

Lemma split_pass_keeps {P} `{!Shrinks P} cs ls kept new err :
  layout cs ls -> Forall P cs -> (forall c, P c -> budget_ok (chunk_max_size c)) ->
  split_pass cs = (kept, new, err) -> Forall P kept /\ Forall P new.
Proof.
  intros HL HP Hb. revert ls kept new err HL. induction HP as [|c cs Hc HP IH]; intros ls kept new err HL E.
  { injection E as <- <- _. by split. }
  apply layout_cons_inv in HL as (l & ls0 & -> & (Hh & Hl & HL & Hlt)%layout_cons).
  cbn [split_pass] in E. destruct (split_pass cs) as [[kept0 new0] err0]. destruct (IH _ _ _ _ HL eq_refl) as [Hk Hn].
  destruct (needs_split c) eqn:Hns; [|injection E as <- <- _; split; [by constructor|done]].
  pose proof (needs_split_len _ _ Hh (Hb _ Hc) Hns) as Hl2. destruct (holds_split c l Hh Hl2) as (c1 & c2 & Es & H1 & H2 & M1 & M2).
  rewrite Es in E. unfold seal_chunk in E. injection E as <- <- _. destruct (capacity_split _ _ _ Es) as [C1 C2].
  pose proof (holds_len _ _ Hh). pose proof (holds_len _ _ H1) as L1. pose proof (holds_len _ _ H2) as L2.
  rewrite length_take in L1. rewrite length_drop in L2.
  split; (constructor; [|done]); (eapply shrinks; [exact Hc|done|done|lia]).
Qed.

Lemma merge_runs_Forall (P : TimeSeriesChunk -> Prop) a b : Forall P a -> Forall P b -> Forall P (merge_runs a b).
Proof.
  intros Ha. revert b. induction Ha as [|x a Hx Ha IHa]; intros b Hb; [by destruct b|].
  induction Hb as [|y b Hy Hb IHb]; [rewrite merge_runs_nil_r; by constructor|]. rewrite merge_runs_cons.
  case_match; constructor; try done. apply IHa. by constructor.
Qed.

Lemma split_rep {P} `{!Shrinks P} t ls :
  series_rep P t ls -> (forall c, P c -> budget_ok (chunk_max_size c)) ->
  exists t' ls', split_chunks_if_needed t = (Ok tt, t') /\ series_rep P t' ls' /\ settings t' = settings t /\
    concat ls' = concat ls /\ last_sample t' = last_sample t.
Proof.
  intros [HL HP Htot Hfirst Hlast Hset] Hb. unfold split_chunks_if_needed.
  destruct (existsb needs_split (chunks t)); cbn [negb]; [|by exists t, ls].
  destruct (split_pass_spec _ _ HL) as (kept & new & ls' & E & Hsort & HL' & Ecat); [by eapply Forall_impl|].
  destruct (split_pass_keeps _ _ _ _ _ HL HP Hb E) as [Hk Hn]. rewrite E.
  assert (Forall P (merge_runs kept new)) as Hm.
  { by apply merge_runs_Forall. }
  destruct new as [|c new].
  - rewrite merge_runs_nil_r in HL', Hm. exists (with_chunks t kept), ls'. split_and!; try done. split; cbn; rewrite ?Ecat; done.
  - cbn [chunks with_chunks]. rewrite Hsort. eexists _, ls'. split_and!; try done. split; cbn; rewrite ?Ecat; done.
Qed.

Lemma bulk_spec t ls samples ov :
  series_rep (chunk_sized (chunk_encoding t)) t ls -> Forall sample_valid samples ->
  exists res t' ls' dead, series_merge_samples t samples ov = (Ok res, t') /\
    series_rep (chunk_sized (chunk_encoding t)) t' ls' /\ settings t' = settings t /\
    upsert_all (series_policy t ov) (concat ls) (to_insert (normalize_batch t ov samples)) = dead ++ concat ls' /\
    Forall (fun x => timestamp x < get_min_timestamp t') dead /\ (retention_is_zero t = true -> dead = []) /\
    length res = length samples /\ Forall outcome_ok res.
Proof.
  intros Hr Hv. destruct (merge_into_spec t ls samples ov Hr Hv) as (res & t1 & ls1 & E1 & Hr1 & Hs1 & Ec1 & Hlen & Hok).
  destruct (split_rep t1 ls1 Hr1) as (t2 & ls2 & E2 & Hr2 & Hs2 & Ec2 & Hl2); [by intros c [? _]|].
  assert (exists t2' ls2', merge_samples_deferring_retention t samples ov = (Ok res, t2') /\
    series_rep (chunk_sized (chunk_encoding t)) t2' ls2' /\ settings t2' = settings t /\ concat ls2' = concat ls1)
    as (t2' & ls2' & E & Hr2' & Hs2' & Ec2').
  { unfold merge_samples_deferring_retention. destruct samples as [|s samples].
    - cbn in E1. injection E1 as <- <-. by exists t, ls1.
    - rewrite E1, E2. exists t2, ls2. split_and!; [done|done|by rewrite Hs2|done]. }
  destruct (apply_retention_spec t2' ls2' Hr2') as (ls' & dead & Hr' & Hset & Ecat & Hd & _ & Hz).
  exists res, (apply_retention t2'), ls', dead. unfold series_merge_samples. rewrite E. split_and!; try done.
  - by rewrite Hset.
  - by rewrite <- Ec1, <- Ec2'.
  - intros Hz0. apply Hz. rewrite <- Hz0. by apply retention_zero_eq.
Qed.

(** ** Without retention and without the IGNORE filter *)

Lemma not_ignored t ov a x : series_policy t ov <> KeepLast ->
  is_duplicate config_duplicate_policy (sample_duplicates t) a x ov = false.
Proof.
  intros Hp. unfold is_duplicate, series_policy in *. rewrite bool_decide_eq_false_2 by done. by case_match.
Qed.

Lemma normalize_all t ov samples :
  retention_is_zero t = true -> series_policy t ov <> KeepLast -> ts_sorted samples ->
  to_insert (normalize_batch t ov samples) = map (fun x => make_sample t (timestamp x) (value x)) samples.
Proof.
  intros Hz Hp Hs. unfold normalize_batch, retention_gate. rewrite Hz.
  assert (is_sorted_by_ts samples = true) as ->.
  { clear -Hs. induction Hs as [|x l Hs IH Hx]; [done|]. destruct Hx as [|y l Hy]; [done|].
    unfold ts_lt in Hy. cbn [is_sorted_by_ts] in *. rewrite IH. apply andb_true_intro. split; [apply Z.leb_le; lia|done]. }
  set (old := repeat _ _).
  assert (forall i, nth i old false = false) as Hold.
  { intros i. unfold old. generalize (length samples). intros n. revert i. induction n as [|n IH]; intros [|i]; cbn; try done. }
  clearbody old. set (init := mkNormalizedBatch _ _ _). generalize (last_sample t). generalize 0%nat.
  enough (forall k b rl prev, (forall p, prev = Some p -> Forall (fun s => p < timestamp s) samples) ->
    to_insert (let '(b', _, _) := fold_left (normalize_step t ov old) (combine (seq k (length samples)) samples) (b, rl, prev) in b')
    = to_insert b ++ map (fun x => make_sample t (timestamp x) (value x)) samples) as Hgen.
  { intros k rl. by apply (Hgen k init rl None). }
  clear init. induction Hs as [|x l Hs IH Hx]; intros k b rl prev Hprev; [by rewrite app_nil_r|].
  cbn [length seq combine fold_left map normalize_step].
  rewrite bool_decide_eq_false_2, Hold.
  2: { intros ->. specialize (Hprev _ eq_refl). apply Forall_cons in Hprev as [? _]. lia. }
  assert (match rl with
    | Some last => (timestamp last <=? timestamp x) && is_duplicate config_duplicate_policy (sample_duplicates t)
        (mkSample (timestamp x) (adjust_value t (value x))) last ov
    | None => false end = false) as -> by (destruct rl; [by rewrite not_ignored, andb_false_r|done]).
  rewrite IH by (intros p [= <-]; exact Hx). cbn [to_insert]. by rewrite <- app_assoc.
Qed.

Lemma adds_spec t ls samples ov :
  series_rep chunk_fit t ls -> Forall sample_valid samples -> retention_is_zero t = true -> series_policy t ov <> KeepLast ->
  exists ls', series_rep chunk_fit (fold_left (fun u x => (add u (timestamp x) (value x) ov).2) samples t) ls' /\
    concat ls' = upsert_all (series_policy t ov) (concat ls) (map (fun x => make_sample t (timestamp x) (value x)) samples).
Proof.
  intros Hr Hv. revert t ls Hr. induction Hv as [|x samples [[Hx Hxv] Hx0] Hv IH]; intros t ls Hr Hz Hp; [by exists ls|].
  assert (0 <= timestamp x < 2 ^ 63) as Ht by (split; [exact Hx0|apply Hx]).
  destruct (add_spec t ls (timestamp x) (value x) ov Hr Ht Hxv) as (t' & ls' & dead & E & Hr' & Hset & Ecat & _ & _ & Hdead).
  rewrite (Hdead Hz) in Ecat. cbn [app] in Ecat.
  assert (retention_is_zero t' = true) as Hz' by (rewrite <- Hz; by apply retention_zero_eq).
  assert (series_policy t' ov = series_policy t ov /\ forall a v, make_sample t' a v = make_sample t a v) as [Hp' Hm].
  { unfold settings in Hset. injection Hset as _ E1 _ E3 _. unfold series_policy, make_sample, adjust_value. by rewrite E1, E3. }
  cbn [fold_left]. rewrite E. cbn [snd]. destruct (IH t' ls' Hr' Hz') as (ls2 & Hr2 & Ec2); [by rewrite Hp'|].
  exists ls2. split; [done|]. rewrite Ec2, Hp'. cbn [map upsert_all foldl].
  assert (concat ls' = upsert_or_keep (series_policy t ov) (concat ls) (make_sample t (timestamp x) (value x))) as ->.
  { rewrite <- Ecat. unfold add_result, is_older_than_retention, upsert_or_keep. rewrite Hz.
    destruct (list.last (concat ls)) as [y|] eqn:El; [|by apply last_None in El as ->].
    rewrite not_ignored, andb_false_r by done. by destruct (list_upsert _ _ _). }
  unfold upsert_all. f_equal. apply map_ext. intros y. by rewrite Hm.
Qed.

End Laws.
