(* ===== verification/BulkProps.v ===== *)
(** * BulkProps: the properties of batch ingestion

    The theorems about [merge_samples] as its callers see it, each with a
    concrete series and batch it applies to, and the one input class on which a
    batch leaves a series that then refuses a valid sample. *)

From S2P Require Import Prelude Float64 FloatBounds Types Slice Content Merge ChunkOps Uncompressed.
From S2P Require Import ChunkMethods Elf64 Log10Ref TimeSeriesChunk ChunkSearch SeriesIterator Rounding.
From S2P Require Import TimeSeries SeriesLaws SeriesReads SeriesWrites SeriesProps BulkAdd BulkLaws.

Section Props.

Context `{Log10} `{ServerConfig}.

(** C7. A batch refines upserts into a time-ordered list: every sample of the
    batch gets one reply, none of them an internal error, and the series then
    stores the old list with the normalized batch upserted under the duplicate
    policy, less a prefix that has left the retention window. *)
Theorem bulk_refines (t : TimeSeries) (l samples : list Sample) (ov : option DuplicatePolicy) :
  stores (chunk_sized (chunk_encoding t)) t l -> Forall sample_valid samples ->
  exists replies t' dead l', series_merge_samples t samples ov = (Ok replies, t') /\
    stores (chunk_sized (chunk_encoding t)) t' l' /\ settings t' = settings t /\
    upsert_all (series_policy t ov) l (to_insert (normalize_batch t ov samples)) = dead ++ l' /\
    Forall (fun x => timestamp x < get_min_timestamp t') dead /\
    length replies = length samples /\ Forall outcome_ok replies.
Proof.
  intros (ls & Hr & <-) Hv. destruct (bulk_spec t ls samples ov Hr Hv)
    as (res & t' & ls' & dead & E & Hr' & Hset & Ecat & Hd & _ & Hlen & Hok).
  exists res, t', dead, (concat ls'). split_and!; try done. by exists ls'.
Qed.

(** Normalization keeps what matters of a batch: the samples to insert are
    in strictly increasing time order, each is a sample of the batch with its
    value rounded as the series asks, and every position of the batch either
    is passed on for insertion, once per sample to insert, or already has a
    reply that is not an internal error. *)
Theorem normalize_sound (t : TimeSeries) (samples : list Sample) (ov : option DuplicatePolicy) :
  Forall sample_valid samples ->
  let b := normalize_batch t ov samples in
  content_ok (to_insert b) /\
  Forall (fun s => exists x, x ∈ samples /\ s = make_sample t (timestamp x) (value x)) (to_insert b) /\
  length (insert_index b) = length (to_insert b) /\ length (results b) = length samples /\
  forall i, (i < length samples)%nat -> i ∈ insert_index b \/ settled (results b) i.
Proof.
  intros Hv b. destruct (normalize_batch_spec t ov samples Hv) as (rl & prev & [Hc _ Hsrc Hl Hi _ Hs]). fold b in Hc, Hsrc, Hl, Hi, Hs.
  split_and!; try done. intros i Hlt. apply Hs, elem_of_seq. lia.
Qed.

(** The batch path and the single-sample path agree: without retention and
    under a policy other than LAST, merging a time-ordered batch and adding its
    samples one by one store the same list. *)
Theorem bulk_equals_adds (t : TimeSeries) (l samples : list Sample) (ov : option DuplicatePolicy) :
  stores (chunk_sized (chunk_encoding t)) t l -> stores chunk_fit t l -> content_ok samples ->
  retention_is_zero t = true -> series_policy t ov <> KeepLast ->
  exists l', stores (chunk_sized (chunk_encoding t)) (series_merge_samples t samples ov).2 l' /\
    stores chunk_fit (fold_left (fun u x => (add u (timestamp x) (value x) ov).2) samples t) l'.
Proof.
  intros (ls & Hr & <-) (ls0 & Hr0 & E0) [Hs Hv] Hz Hp.
  destruct (bulk_spec t ls samples ov Hr Hv) as (res & t' & ls' & dead & E & Hr' & _ & Ecat & _ & Hdead & _).
  destruct (adds_spec t ls0 samples ov Hr0 Hv Hz Hp) as (ls2 & Hr2 & Ec2).
  rewrite (Hdead Hz), normalize_all in Ecat by done. cbn [app] in Ecat.
  exists (concat ls'). rewrite E. split; [by exists ls'|]. exists ls2. split; [done|]. by rewrite Ec2, E0, Ecat.
Qed.

End Props.

(** ** A batch that overfills a chunk *)

#[local] Existing Instance demo_config.

Definition bulk_options : TimeSeriesOptions := mkTimeSeriesOptions EncUncompressed (Some 48) (Some 0) None None None.
Definition bulk_new : TimeSeries :=
  mkTimeSeries 0 (mkSampleDuplicatePolicy None 0 f64_zero) EncUncompressed None 48 [] 0 0 None.

(** Three samples fill the only chunk of the series. *)
Definition bulk_start : TimeSeries :=
  (add (add (add bulk_new 100 one None).2 200 one None).2 1200 one None).2.

(** Nine samples between the second and the third. *)
Definition bulk_batch : list Sample := map (fun k => mkSample (Z.of_nat k * 100) two) (seq 3 9).

Definition bulk_after : TimeSeries := (series_merge_samples bulk_start bulk_batch None).2.

(** A batch that falls between the samples of one full chunk is all taken by
    that chunk, and the single split afterwards leaves two chunks at twice
    their capacity.  The next valid sample that goes there is refused with an
    internal error, although the same sample sent again is stored. *)
Theorem bulk_overfill_blocks_add :
  with_options bulk_options = Ok bulk_new /\
  (series_merge_samples bulk_start bulk_batch None).1 = Ok (map AddOk bulk_batch) /\
  map chunk_len (chunks bulk_after) = [6; 6] /\ map capacity (chunks bulk_after) = [Some 3; Some 3] /\
  (add bulk_after 350 one None).1 = AddError CANNOT_ADD_SAMPLE /\
  (add (add bulk_after 350 one None).2 350 one None).1 = AddOk (mkSample 350 one).
Proof. split_and!; vm_compute; reflexivity. Qed.

(** ** Witnesses *)

Lemma bulk_new_rep : series_rep chunk_fit bulk_new [].
Proof. apply (fresh_stores bulk_options); [vm_compute; reflexivity|cbn; lia]. Qed.

Lemma bulk_new_sized : stores (chunk_sized EncUncompressed) bulk_new [].
Proof. exists []. split; [|done]. destruct bulk_new_rep. by split. Qed.

Lemma demo_sized : stores (chunk_sized EncUncompressed) demo_series demo_list.
Proof.
  destruct demo_stores as (ls & [HL Hf Ht H1 H2 Hs] & E). exists ls. split; [|exact E]. split; try done.
  constructor; [|constructor; [|constructor]]; (split; [split; by vm_compute|reflexivity]).
Qed.

(** Out of order, with one timestamp twice and one sample too old. *)
Definition demo_batch : list Sample := [mkSample 35 two; mkSample 15 two; mkSample 35 one; mkSample 140 one].

Lemma demo_batch_valid : Forall sample_valid demo_batch.
Proof. repeat (constructor; [by apply sample_validb_sound|]). constructor. Qed.

Lemma bulk_refines_witness :
  exists replies t' dead l', series_merge_samples demo_series demo_batch None = (Ok replies, t') /\
    stores (chunk_sized EncUncompressed) t' l' /\
    [mkSample 10 one; mkSample 20 two; mkSample 30 one; mkSample 35 two; mkSample 40 two;
     mkSample 130 one; mkSample 140 one] = dead ++ l' /\ length replies = 4%nat /\ Forall outcome_ok replies.
Proof.
  destruct (bulk_refines demo_series demo_list demo_batch None demo_sized demo_batch_valid)
    as (replies & t' & dead & l' & E & Hs & _ & Ecat & _ & Hlen & Hok).
  exists replies, t', dead, l'. split; [exact E|]. split; [exact Hs|]. split; [|split; [exact Hlen|exact Hok]].
  rewrite <- Ecat. vm_compute. reflexivity.
Defined.

Lemma normalize_sound_witness :
  to_insert (normalize_batch demo_series None demo_batch) = [mkSample 35 two; mkSample 140 one] /\
  content_ok (to_insert (normalize_batch demo_series None demo_batch)).
Proof.
  split; [vm_compute; reflexivity|]. exact (proj1 (normalize_sound demo_series demo_batch None demo_batch_valid)).
Defined.

Lemma bulk_equals_adds_witness :
  exists l', stores (chunk_sized EncUncompressed) (series_merge_samples bulk_new demo_head None).2 l' /\
    stores chunk_fit (fold_left (fun u x => (add u (timestamp x) (value x) None).2) demo_head bulk_new) l'.
Proof.
  apply (bulk_equals_adds bulk_new [] demo_head None); [exact bulk_new_sized|by exists []; split; [apply bulk_new_rep|]| | |].
  - apply content_okb_sound. reflexivity.
  - reflexivity.
  - vm_compute. discriminate.
Defined.
