(* ===== verification/Aggregators.v ===== *)
(** * Aggregators: what a bucket of samples is reduced to

    Models [src/aggregators]: the enumeration of [mod.rs], the compensated sums
    of [kahan.rs], the conditional aggregators of [filtered.rs] and the handlers
    of [handlers.rs], with the conditions of [request_types.rs] and the
    comparison operators of [common/binop.rs].  The trait [AggregationHandler] is
    a class; [AggregatorLaws] is what the bucket iterator relies on. *)

From Stdlib Require Import SpecFloat.
From stdpp Require Import strings.
From S2P Require Import Prelude Float64 Types Rounding.

(** ** Conditions *)

(** [f64::min] and [f64::max], a NaN losing to the other side. *)
Definition f64_min_num (a b : f64) : f64 := if f64_is_nan a then b else if f64_is_nan b then a else f64_min a b.
Definition f64_max_num (a b : f64) : f64 := if f64_is_nan a then b else if f64_is_nan b then a else f64_max a b.
Definition f64_sqrt (a : f64) : f64 := f64_of_spec (SFsqrt 53 1024 (f64_spec a)).

Inductive ComparisonOperator := Equal | NotEqual | GreaterThan | GreaterThanOrEqual | LessThan | LessThanOrEqual.

#[export] Instance ComparisonOperator_eq_dec : EqDecision ComparisonOperator.
Proof. solve_decision. Defined.

Definition op_eq (left right : f64) : bool :=
  if f64_is_nan left then f64_is_nan right else f64_eq left right.

Definition op_neq (left right : f64) : bool :=
  if f64_is_nan left then negb (f64_is_nan right)
  else if f64_is_nan right then true else negb (f64_eq left right).

Definition op_compare (op : ComparisonOperator) (a b : f64) : bool :=
  match op with
  | Equal => op_eq a b
  | NotEqual => op_neq a b
  | GreaterThan => f64_lt b a
  | GreaterThanOrEqual => f64_le b a
  | LessThan => f64_lt a b
  | LessThanOrEqual => f64_le a b
  end.

Definition op_as_u8 (op : ComparisonOperator) : Z :=
  match op with
  | Equal => 0 | NotEqual => 1 | GreaterThan => 2 | GreaterThanOrEqual => 3 | LessThan => 4 | LessThanOrEqual => 5
  end.

Definition op_try_from_u8 (v : Z) : option ComparisonOperator :=
  match v with
  | 0 => Some Equal | 1 => Some NotEqual | 2 => Some GreaterThan | 3 => Some GreaterThanOrEqual
  | 4 => Some LessThan | 5 => Some LessThanOrEqual | _ => None
  end.

Record ValueComparisonFilter := mkValueComparisonFilter { vc_operator : ComparisonOperator; vc_value : f64 }.

Definition vc_default : ValueComparisonFilter := mkValueComparisonFilter NotEqual f64_NAN.

Definition vc_compare (f : ValueComparisonFilter) (sample_value : f64) : bool :=
  op_compare (vc_operator f) sample_value (vc_value f).

(** ** Aggregation types *)

Inductive AggregationType :=
| TyAll | TyAny | TyAvg | TyCount | TyCountAll | TyCountIf | TyCountNan | TyFirst | TyIncrease | TyIRate | TyLast
| TyMax | TyMin | TyNone | TyRange | TyRate | TyShare | TyStdP | TyStdS | TySum | TySumIf | TyVarP | TyVarS.

#[export] Instance AggregationType_eq_dec : EqDecision AggregationType.
Proof. solve_decision. Defined.

Definition aggregation_name (a : AggregationType) : string :=
  match a with
  | TyAll => "all" | TyAny => "any" | TyAvg => "avg" | TyCount => "count" | TyCountAll => "countall"
  | TyCountIf => "countif" | TyCountNan => "countnan" | TyFirst => "first" | TyIncrease => "increase"
  | TyIRate => "irate" | TyLast => "last" | TyMin => "min" | TyMax => "max" | TyNone => "none" | TyShare => "share"
  | TyStdS => "std.s" | TyStdP => "std.p" | TySum => "sum" | TySumIf => "sumif" | TyRange => "range"
  | TyRate => "rate" | TyVarS => "var.s" | TyVarP => "var.p"
  end.

Definition is_filtered (a : AggregationType) : bool :=
  match a with TyAll | TyAny | TyCountIf | TySumIf | TyShare | TyNone => true | _ => false end.

Definition has_filtered_variant (a : AggregationType) : bool :=
  match a with TyCount | TySum => true | _ => false end.

Definition is_groupable (a : AggregationType) : bool := negb (is_filtered a).

Definition reduces_empty_to_zero (a : AggregationType) : bool :=
  match a with TyCount | TyCountAll | TyCountIf | TyCountNan | TySumIf => true | _ => false end.

Definition is_decomposable (a : AggregationType) : bool :=
  match a with
  | TySum | TySumIf | TyCount | TyCountIf | TyCountAll | TyCountNan | TyMin | TyMax | TyRange | TyAvg
  | TyStdP | TyStdS | TyVarP | TyVarS | TyFirst | TyLast => true
  | TyIncrease | TyIRate | TyRate | TyAll | TyAny | TyNone | TyShare => false
  end.

Definition apply_reverse_adjusted (a : AggregationType) (is_reverse : bool) : AggregationType :=
  if is_reverse then match a with TyFirst => TyLast | TyLast => TyFirst | other => other end else a.

(** The discriminants, which are persisted. *)
Definition aggregation_as_u8 (a : AggregationType) : Z :=
  match a with
  | TyAll => 0 | TyAny => 1 | TyAvg => 2 | TyCount => 3 | TyCountAll => 4 | TyCountIf => 5 | TyCountNan => 6
  | TyFirst => 7 | TyIncrease => 8 | TyIRate => 9 | TyLast => 10 | TyMax => 11 | TyMin => 12 | TyNone => 13
  | TyRange => 14 | TyRate => 15 | TyShare => 16 | TyStdP => 17 | TyStdS => 18 | TySum => 19 | TySumIf => 20
  | TyVarP => 21 | TyVarS => 22
  end.

Definition aggregation_try_from_u8 (v : Z) : option AggregationType :=
  match v with
  | 0 => Some TyAll | 1 => Some TyAny | 2 => Some TyAvg | 3 => Some TyCount | 4 => Some TyCountAll
  | 5 => Some TyCountIf | 6 => Some TyCountNan | 7 => Some TyFirst | 8 => Some TyIncrease | 9 => Some TyIRate
  | 10 => Some TyLast | 11 => Some TyMax | 12 => Some TyMin | 13 => Some TyNone | 14 => Some TyRange
  | 15 => Some TyRate | 16 => Some TyShare | 17 => Some TyStdP | 18 => Some TyStdS | 19 => Some TySum
  | 20 => Some TySumIf | 21 => Some TyVarP | 22 => Some TyVarS | _ => None
  end.

(** ** Compensated sums *)

Record KahanSum := mkKahanSum { ks_sum : f64; ks_compensation : f64 }.

Definition kahan_new : KahanSum := mkKahanSum f64_zero f64_zero.

(** Neumaier's increment. *)
Definition kahan_inc (inc sum c : f64) : f64 * f64 :=
  let t := f64_add sum inc in
  let new_c :=
    if f64_is_infinite t then f64_zero
    else if f64_le (f64_abs inc) (f64_abs sum) then f64_add c (f64_add (f64_sub sum t) inc)
    else f64_add c (f64_add (f64_sub inc t) sum) in
  (t, new_c).

Definition kahan_add (k : KahanSum) (rhs : f64) : KahanSum :=
  let '(sum, c) := kahan_inc rhs (ks_sum k) (ks_compensation k) in mkKahanSum sum c.

Definition kahan_merge (k rhs : KahanSum) : KahanSum :=
  let '(sum, compensation) := kahan_inc (ks_sum rhs) (ks_sum k) (ks_compensation k) in
  mkKahanSum sum (f64_add compensation (ks_compensation rhs)).

Definition kahan_value (k : KahanSum) : f64 := f64_add (ks_sum k) (ks_compensation k).

Definition kahan_is_empty (k : KahanSum) : bool := f64_eq (ks_sum k) f64_zero && f64_eq (ks_compensation k) f64_zero.

Record KahanAvg := mkKahanAvg { ka_count : Z; ka_sum : KahanSum }.

Definition kahan_avg_new : KahanAvg := mkKahanAvg 0 kahan_new.
Definition kahan_avg_add (k : KahanAvg) (inc : f64) : KahanAvg :=
  mkKahanAvg (Z.min (2 ^ 32 - 1) (ka_count k + 1)) (kahan_add (ka_sum k) inc).
Definition kahan_avg_value (k : KahanAvg) : option f64 :=
  if ka_count k =? 0 then None else Some (f64_div (kahan_value (ka_sum k)) (f64_of_usize (ka_count k))).

(** ** The handler interface *)

Class AggregationHandler (A : Type) := {
  agg_default : A;
  agg_update : A -> Timestamp -> f64 -> bool * A;
  agg_reset : A -> A;
  agg_current : A -> option f64;
  agg_empty_value : A -> f64;
}.

Definition agg_empty_bucket_value {A} `{AggregationHandler A} (a : A) : f64 := agg_empty_value a.

Definition agg_finalize {A} `{AggregationHandler A} (a : A) : f64 * A :=
  (match agg_current a with Some v => v | None => agg_empty_value a end, agg_reset a).

(** *** Selection and counting *)

Record FirstAggregator := mkFirst { first_0 : option f64 }.

#[export] Instance First_handler : AggregationHandler FirstAggregator := {|
  agg_default := mkFirst None;
  agg_update a _ v :=
    if f64_is_nan v then (false, a)
    else (true, match first_0 a with None => mkFirst (Some v) | Some _ => a end);
  agg_reset _ := mkFirst None;
  agg_current a := first_0 a;
  agg_empty_value _ := f64_NAN;
|}.

Record LastAggregator := mkLast { last_current : option f64 }.

#[export] Instance Last_handler : AggregationHandler LastAggregator := {|
  agg_default := mkLast None;
  agg_update a _ v := if f64_is_nan v then (false, a) else (true, mkLast (Some v));
  agg_reset _ := mkLast None;
  agg_current a := last_current a;
  agg_empty_value _ := f64_NAN;
|}.

Record MinAggregator := mkMin { min_0 : option f64 }.

#[export] Instance Min_handler : AggregationHandler MinAggregator := {|
  agg_default := mkMin None;
  agg_update a _ v :=
    if negb (f64_is_nan v) then
      (true, mkMin (Some (match min_0 a with None => v | Some m => f64_min_num m v end)))
    else (false, a);
  agg_reset _ := mkMin None;
  agg_current a := min_0 a;
  agg_empty_value _ := f64_NAN;
|}.

Record MaxAggregator := mkMax { max_0 : option f64 }.

#[export] Instance Max_handler : AggregationHandler MaxAggregator := {|
  agg_default := mkMax None;
  agg_update a _ v :=
    if f64_is_nan v then (false, a)
    else (true, mkMax (Some (match max_0 a with None => v | Some m => f64_max_num m v end)));
  agg_reset _ := mkMax None;
  agg_current a := max_0 a;
  agg_empty_value _ := f64_NAN;
|}.

Record RangeAggregator := mkRange { range_min : f64; range_max : f64; range_init : bool }.

#[export] Instance Range_handler : AggregationHandler RangeAggregator := {|
  agg_default := mkRange f64_zero f64_zero false;
  agg_update a _ v :=
    if f64_is_nan v then (false, a)
    else if negb (range_init a) then (true, mkRange v v true)
    else (true, mkRange (f64_min_num (range_min a) v) (f64_max_num (range_max a) v) true);
  agg_reset _ := mkRange f64_zero f64_zero false;
  agg_current a := if negb (range_init a) then None else Some (f64_sub (range_max a) (range_min a));
  agg_empty_value _ := f64_NAN;
|}.

Definition count_value (n : Z) : option f64 := if n =? 0 then None else Some (f64_of_usize n).

Record CountAggregator := mkCount { count_0 : Z }.

#[export] Instance Count_handler : AggregationHandler CountAggregator := {|
  agg_default := mkCount 0;
  agg_update a _ v := if negb (f64_is_nan v) then (true, mkCount (count_0 a + 1)) else (false, a);
  agg_reset _ := mkCount 0;
  agg_current a := count_value (count_0 a);
  agg_empty_value _ := f64_zero;
|}.

Record CountNanAggregator := mkCountNan { count_nan_0 : Z }.

#[export] Instance CountNan_handler : AggregationHandler CountNanAggregator := {|
  agg_default := mkCountNan 0;
  agg_update a _ v := if f64_is_nan v then (true, mkCountNan (count_nan_0 a + 1)) else (false, a);
  agg_reset _ := mkCountNan 0;
  agg_current a := count_value (count_nan_0 a);
  agg_empty_value _ := f64_zero;
|}.

Record CountAllAggregator := mkCountAll { count_all_0 : Z }.

#[export] Instance CountAll_handler : AggregationHandler CountAllAggregator := {|
  agg_default := mkCountAll 0;
  agg_update a _ _ := (true, mkCountAll (count_all_0 a + 1));
  agg_reset _ := mkCountAll 0;
  agg_current a := count_value (count_all_0 a);
  agg_empty_value _ := f64_zero;
|}.

(** *** Sums and moments *)

Record SumAggregator := mkSum { sum_0 : KahanSum }.

#[export] Instance Sum_handler : AggregationHandler SumAggregator := {|
  agg_default := mkSum kahan_new;
  agg_update a _ v := if f64_is_nan v then (false, a) else (true, mkSum (kahan_add (sum_0 a) v));
  agg_reset _ := mkSum kahan_new;
  agg_current a := if kahan_is_empty (sum_0 a) then None else Some (kahan_value (sum_0 a));
  agg_empty_value _ := f64_zero;
|}.

Record AvgAggregator := mkAvg { avg_0 : KahanAvg }.

#[export] Instance Avg_handler : AggregationHandler AvgAggregator := {|
  agg_default := mkAvg kahan_avg_new;
  agg_update a _ v := if negb (f64_is_nan v) then (true, mkAvg (kahan_avg_add (avg_0 a) v)) else (false, a);
  agg_reset _ := mkAvg kahan_avg_new;
  agg_current a := kahan_avg_value (avg_0 a);
  agg_empty_value _ := f64_NAN;
|}.

(** Welford's accumulator. *)
Record AggStd := mkAggStd { std_mean : f64; std_m2 : f64; std_count : Z }.

Definition std_new : AggStd := mkAggStd f64_zero f64_zero 0.

Definition std_add (s : AggStd) (v : f64) : bool * AggStd :=
  if f64_is_nan v then (false, s)
  else
    let count := std_count s + 1 in
    let delta := f64_sub v (std_mean s) in
    let mean := f64_add (std_mean s) (f64_div delta (f64_of_usize count)) in
    (true, mkAggStd mean (f64_add (std_m2 s) (f64_mul delta (f64_sub v mean))) count).

Definition std_variance (s : AggStd) : f64 := if std_count s <=? 1 then f64_zero else std_m2 s.

Definition var_p (s : AggStd) : option f64 :=
  if std_count s =? 0 then None else Some (f64_div (std_variance s) (f64_of_usize (std_count s))).

Definition var_s (s : AggStd) : option f64 :=
  if std_count s =? 0 then None
  else if std_count s =? 1 then Some f64_zero
  else Some (f64_div (std_variance s) (f64_of_usize (std_count s - 1))).

Definition std_p (s : AggStd) : option f64 :=
  if std_count s =? 0 then None else Some (f64_sqrt (f64_div (std_variance s) (f64_of_usize (std_count s)))).

Definition std_s (s : AggStd) : option f64 :=
  if std_count s =? 0 then None
  else if std_count s =? 1 then Some f64_zero
  else Some (f64_sqrt (f64_div (std_variance s) (f64_of_usize (std_count s - 1)))).

(** The four handlers over it, which differ in what they report. *)
Record OnlineAggregator (report : AggStd -> option f64) := mkOnline { online_0 : AggStd }.
Arguments mkOnline {report} _.
Arguments online_0 {report} _.

#[export] Instance Online_handler report : AggregationHandler (OnlineAggregator report) := {|
  agg_default := mkOnline std_new;
  agg_update a _ v := let '(ok, s) := std_add (online_0 a) v in (ok, mkOnline s);
  agg_reset _ := mkOnline std_new;
  agg_current a := report (online_0 a);
  agg_empty_value _ := f64_NAN;
|}.

Abbreviation VarPAggregator := (OnlineAggregator var_p).
Abbreviation VarSAggregator := (OnlineAggregator var_s).
Abbreviation StdPAggregator := (OnlineAggregator std_p).
Abbreviation StdSAggregator := (OnlineAggregator std_s).

(** *** Counters *)

Record CounterAggregatorState := mkCounter { sum_deltas : f64; counter_last_value : option f64 }.

Definition counter_new : CounterAggregatorState := mkCounter f64_zero None.

Definition counter_update (c : CounterAggregatorState) (v : f64) : bool * CounterAggregatorState :=
  if f64_is_nan v then (false, c)
  else
    let delta := match counter_last_value c with
                 | None => f64_zero
                 | Some last => f64_max_num (f64_sub v last) f64_zero
                 end in
    (true, mkCounter (f64_add (sum_deltas c) delta) (Some v)).

Record IncreaseAggregator := mkIncrease { increase_0 : CounterAggregatorState }.

#[export] Instance Increase_handler : AggregationHandler IncreaseAggregator := {|
  agg_default := mkIncrease counter_new;
  agg_update a _ v := let '(ok, c) := counter_update (increase_0 a) v in (ok, mkIncrease c);
  agg_reset _ := mkIncrease counter_new;
  agg_current a := match counter_last_value (increase_0 a) with
                   | None => None
                   | Some _ => Some (sum_deltas (increase_0 a))
                   end;
  agg_empty_value _ := f64_NAN;
|}.

Record RateAggregator := mkRate { window_ms : Z; rate_counter : CounterAggregatorState }.

Definition rate_new (window : Z) : RateAggregator := mkRate (wrap_u64 window) counter_new.
Definition set_window_ms (r : RateAggregator) (window : Z) : RateAggregator := mkRate window (rate_counter r).

Definition f64_1000 : f64 := f64_of_usize 1000.

#[export] Instance Rate_handler : AggregationHandler RateAggregator := {|
  agg_default := mkRate 0 counter_new;
  agg_update a _ v := let '(ok, c) := counter_update (rate_counter a) v in (ok, mkRate (window_ms a) c);
  agg_reset a := mkRate (window_ms a) counter_new;
  agg_current a := match counter_last_value (rate_counter a) with
                   | None => None
                   | Some _ =>
                       if 0 <? window_ms a
                       then Some (f64_div (sum_deltas (rate_counter a)) (f64_div (f64_of_usize (window_ms a)) f64_1000))
                       else None
                   end;
  agg_empty_value _ := f64_NAN;
|}.

Record IRateAggregator := mkIRate { irate_dt : Z; irate_dv : f64; irate_last_sample : option Sample }.

Definition update_irate (a : IRateAggregator) (ts : Timestamp) (v : f64) : bool * IRateAggregator :=
  if f64_is_nan v then (false, a)
  else
    let current := mkSample ts v in
    match irate_last_sample a with
    | Some prev =>
        if f64_lt v (value prev) then (false, mkIRate 0 f64_zero (Some current))
        else
          let dt := wrap_i64 (ts - timestamp prev) in
          if 0 <? dt then (true, mkIRate dt (f64_sub v (value prev)) (Some current))
          else (true, mkIRate dt (irate_dv a) (irate_last_sample a))
    | None => (true, mkIRate (irate_dt a) (irate_dv a) (Some current))
    end.

#[export] Instance IRate_handler : AggregationHandler IRateAggregator := {|
  agg_default := mkIRate 0 f64_zero None;
  agg_update := update_irate;
  agg_reset _ := mkIRate 0 f64_zero None;
  agg_current a := match irate_last_sample a with
                   | None => None
                   | Some _ => if irate_dt a =? 0 then None
                               else Some (f64_div (irate_dv a) (f64_div (f64_of_i64 (irate_dt a)) f64_1000))
                   end;
  agg_empty_value _ := f64_NAN;
|}.

(** *** Conditional aggregators *)

Record ConditionalCountState := mkConditional { cond_has_samples : bool; cond_sum : KahanSum; cond_filter : ValueComparisonFilter }.

Definition conditional_new (op : ComparisonOperator) (comparand : f64) : ConditionalCountState :=
  mkConditional false kahan_new (mkValueComparisonFilter op comparand).

Definition conditional_default : ConditionalCountState := mkConditional false kahan_new vc_default.

Definition conditional_reset (c : ConditionalCountState) : ConditionalCountState :=
  mkConditional false kahan_new (cond_filter c).

Definition update_sum (c : ConditionalCountState) (v : f64) : bool * ConditionalCountState :=
  if f64_is_nan v then (false, c)
  else if vc_compare (cond_filter c) v then (true, mkConditional true (kahan_add (cond_sum c) v) (cond_filter c))
  else (true, c).

Definition update_count (c : ConditionalCountState) (v : f64) : bool * ConditionalCountState :=
  if f64_is_nan v then (false, c)
  else if vc_compare (cond_filter c) v
       then (true, mkConditional true (kahan_add (cond_sum c) f64_one_value) (cond_filter c))
  else (true, c).

Definition conditional_value (c : ConditionalCountState) : f64 :=
  if negb (cond_has_samples c) then f64_NAN else kahan_value (cond_sum c).

Definition conditional_current (c : ConditionalCountState) : option f64 :=
  if cond_has_samples c then Some (conditional_value c) else None.

Record CountIfAggregator := mkCountIf { count_if_0 : ConditionalCountState }.

#[export] Instance CountIf_handler : AggregationHandler CountIfAggregator := {|
  agg_default := mkCountIf conditional_default;
  agg_update a _ v := let '(ok, c) := update_count (count_if_0 a) v in (ok, mkCountIf c);
  agg_reset a := mkCountIf (conditional_reset (count_if_0 a));
  agg_current a := conditional_current (count_if_0 a);
  agg_empty_value _ := f64_zero;
|}.

Record SumIfAggregator := mkSumIf { sum_if_0 : ConditionalCountState }.

#[export] Instance SumIf_handler : AggregationHandler SumIfAggregator := {|
  agg_default := mkSumIf (conditional_new NotEqual f64_NAN);
  agg_update a _ v := let '(ok, c) := update_sum (sum_if_0 a) v in (ok, mkSumIf c);
  agg_reset a := mkSumIf (conditional_reset (sum_if_0 a));
  agg_current a := conditional_current (sum_if_0 a);
  agg_empty_value _ := f64_zero;
|}.

Record ShareAggregator := mkShare { share_count : Z; share_match_count : Z; share_filter : ValueComparisonFilter }.

Definition share_new (op : ComparisonOperator) (comparand : f64) : ShareAggregator :=
  mkShare 0 0 (mkValueComparisonFilter op comparand).

Definition sat_usize_add (a b : Z) : Z := Z.min (2 ^ 64 - 1) (a + b).

Definition share (a : ShareAggregator) : f64 :=
  if share_count a =? 0 then f64_NAN else f64_div (f64_of_usize (share_match_count a)) (f64_of_usize (share_count a)).

#[export] Instance Share_handler : AggregationHandler ShareAggregator := {|
  agg_default := mkShare 0 0 vc_default;
  agg_update a _ v :=
    let count := sat_usize_add (share_count a) 1 in
    (true, mkShare count (if vc_compare (share_filter a) v then sat_usize_add (share_match_count a) 1
                          else share_match_count a) (share_filter a));
  agg_reset a := mkShare 0 0 (share_filter a);
  agg_current a := if 0 <? share_count a then Some (share a) else None;
  agg_empty_value _ := f64_NAN;
|}.

Record AllNoneAggregatorState := mkAllNone { an_matches : option bool; an_filter : ValueComparisonFilter }.

Definition all_none_new (op : ComparisonOperator) (v : f64) : AllNoneAggregatorState :=
  mkAllNone None (mkValueComparisonFilter op v).
Definition all_none_default : AllNoneAggregatorState := mkAllNone None vc_default.
Definition all_none_reset (s : AllNoneAggregatorState) : AllNoneAggregatorState := mkAllNone None (an_filter s).

Definition update_all (s : AllNoneAggregatorState) (v : f64) : AllNoneAggregatorState :=
  match an_matches s with
  | Some false => s
  | _ => mkAllNone (Some (vc_compare (an_filter s) v)) (an_filter s)
  end.

Definition update_none (s : AllNoneAggregatorState) (v : f64) : AllNoneAggregatorState :=
  match an_matches s with
  | Some false => s
  | _ => mkAllNone (Some (negb (vc_compare (an_filter s) v))) (an_filter s)
  end.

Definition update_any (s : AllNoneAggregatorState) (v : f64) : AllNoneAggregatorState :=
  match an_matches s with
  | Some true => s
  | _ => mkAllNone (Some (vc_compare (an_filter s) v)) (an_filter s)
  end.

Definition all_none_current (s : AllNoneAggregatorState) : option f64 :=
  match an_matches s with
  | Some true => Some f64_one_value
  | Some false => Some f64_zero
  | None => None
  end.

Record AllAggregator := mkAll { all_0 : AllNoneAggregatorState }.

#[export] Instance All_handler : AggregationHandler AllAggregator := {|
  agg_default := mkAll all_none_default;
  agg_update a _ v := (true, mkAll (update_all (all_0 a) v));
  agg_reset a := mkAll (all_none_reset (all_0 a));
  agg_current a := all_none_current (all_0 a);
  agg_empty_value _ := f64_NAN;
|}.

Record NoneAggregator := mkNone { none_0 : AllNoneAggregatorState }.

#[export] Instance None_handler : AggregationHandler NoneAggregator := {|
  agg_default := mkNone all_none_default;
  agg_update a _ v := (true, mkNone (update_none (none_0 a) v));
  agg_reset a := mkNone (all_none_reset (none_0 a));
  agg_current a := all_none_current (none_0 a);
  agg_empty_value _ := f64_NAN;
|}.

Record AnyAggregator := mkAny { any_0 : AllNoneAggregatorState }.

#[export] Instance Any_handler : AggregationHandler AnyAggregator := {|
  agg_default := mkAny all_none_default;
  agg_update a _ v := (true, mkAny (update_any (any_0 a) v));
  agg_reset a := mkAny (all_none_reset (any_0 a));
  agg_current a := all_none_current (any_0 a);
  agg_empty_value _ := f64_NAN;
|}.

(** ** The enum *)

Inductive Aggregator :=
| AggAll (a : AllAggregator) | AggAny (a : AnyAggregator) | AggAvg (a : AvgAggregator) | AggCount (a : CountAggregator)
| AggCountAll (a : CountAllAggregator) | AggCountIf (a : CountIfAggregator) | AggCountNan (a : CountNanAggregator)
| AggFirst (a : FirstAggregator) | AggIncrease (a : IncreaseAggregator) | AggIRate (a : IRateAggregator)
| AggLast (a : LastAggregator) | AggMax (a : MaxAggregator) | AggMin (a : MinAggregator) | AggNone (a : NoneAggregator)
| AggRange (a : RangeAggregator) | AggRate (a : RateAggregator) | AggShare (a : ShareAggregator)
| AggStdP (a : StdPAggregator) | AggStdS (a : StdSAggregator) | AggSum (a : SumAggregator)
| AggSumIf (a : SumIfAggregator) | AggVarP (a : VarPAggregator) | AggVarS (a : VarSAggregator).

(** [enum_dispatch]: a method of the trait on the variant inside. *)
Definition agg_dispatch {R} (a : Aggregator) (f : forall A, AggregationHandler A -> A -> (A -> Aggregator) -> R) : R :=
  match a with
  | AggAll a => f _ _ a AggAll | AggAny a => f _ _ a AggAny | AggAvg a => f _ _ a AggAvg
  | AggCount a => f _ _ a AggCount | AggCountAll a => f _ _ a AggCountAll | AggCountIf a => f _ _ a AggCountIf
  | AggCountNan a => f _ _ a AggCountNan | AggFirst a => f _ _ a AggFirst | AggIncrease a => f _ _ a AggIncrease
  | AggIRate a => f _ _ a AggIRate | AggLast a => f _ _ a AggLast | AggMax a => f _ _ a AggMax
  | AggMin a => f _ _ a AggMin | AggNone a => f _ _ a AggNone | AggRange a => f _ _ a AggRange
  | AggRate a => f _ _ a AggRate | AggShare a => f _ _ a AggShare | AggStdP a => f _ _ a AggStdP
  | AggStdS a => f _ _ a AggStdS | AggSum a => f _ _ a AggSum | AggSumIf a => f _ _ a AggSumIf
  | AggVarP a => f _ _ a AggVarP | AggVarS a => f _ _ a AggVarS
  end.

Definition aggregator_from (t : AggregationType) : Aggregator :=
  match t with
  | TyAll => AggAll agg_default | TyAny => AggAny agg_default | TyAvg => AggAvg agg_default
  | TyCount => AggCount agg_default | TyCountAll => AggCountAll agg_default | TyCountIf => AggCountIf agg_default
  | TyCountNan => AggCountNan agg_default | TyFirst => AggFirst agg_default | TyIncrease => AggIncrease agg_default
  | TyIRate => AggIRate agg_default | TyLast => AggLast agg_default | TyMax => AggMax agg_default
  | TyMin => AggMin agg_default | TyNone => AggNone agg_default | TyRange => AggRange agg_default
  | TyRate => AggRate agg_default | TyShare => AggShare agg_default | TyStdP => AggStdP agg_default
  | TyStdS => AggStdS agg_default | TyVarP => AggVarP agg_default | TyVarS => AggVarS agg_default
  | TySum => AggSum agg_default | TySumIf => AggSumIf agg_default
  end.

#[export] Instance Aggregator_handler : AggregationHandler Aggregator := {|
  agg_default := aggregator_from TyAvg;
  agg_update a ts v := agg_dispatch a (fun _ _ a wrap => let '(ok, a) := agg_update a ts v in (ok, wrap a));
  agg_reset a := agg_dispatch a (fun _ _ a wrap => wrap (agg_reset a));
  agg_current a := agg_dispatch a (fun _ _ a _ => agg_current a);
  agg_empty_value a := agg_dispatch a (fun _ _ a _ => agg_empty_value a);
|}.

Definition aggregation_type (a : Aggregator) : AggregationType :=
  match a with
  | AggAll _ => TyAll | AggAny _ => TyAny | AggAvg _ => TyAvg | AggCount _ => TyCount | AggCountAll _ => TyCountAll
  | AggCountIf _ => TyCountIf | AggCountNan _ => TyCountNan | AggFirst _ => TyFirst | AggIncrease _ => TyIncrease
  | AggIRate _ => TyIRate | AggLast _ => TyLast | AggMax _ => TyMax | AggMin _ => TyMin | AggNone _ => TyNone
  | AggRange _ => TyRange | AggRate _ => TyRate | AggShare _ => TyShare | AggStdP _ => TyStdP | AggStdS _ => TyStdS
  | AggVarP _ => TyVarP | AggVarS _ => TyVarS | AggSum _ => TySum | AggSumIf _ => TySumIf
  end.

Definition empty_group_value (a : Aggregator) : f64 :=
  if reduces_empty_to_zero (aggregation_type a) then f64_zero else f64_NAN.

(** ** Configuration *)

Record AggregatorConfig := mkAggregatorConfig { aggregation : AggregationType; value_filter : option ValueComparisonFilter }.

Definition MISSING_CONDITION : string := "TSDB: missing condition for aggregator".
Definition CONDITION_UNSUPPORTED : string := "TSDB: aggregation type does not support a filter condition".

Definition aggregator_config_new (a : AggregationType) (f : option ValueComparisonFilter) : result string AggregatorConfig :=
  if is_filtered a && negb (bool_decide (is_Some f)) then Err MISSING_CONDITION
  else if negb (is_filtered a || has_filtered_variant a) && bool_decide (is_Some f) then Err CONDITION_UNSUPPORTED
  else Ok (mkAggregatorConfig a f).

Definition create_aggregator (c : AggregatorConfig) : Aggregator :=
  match value_filter c with
  | Some f =>
      let op := vc_operator f in
      let v := vc_value f in
      match aggregation c with
      | TyAll => AggAll (mkAll (all_none_new op v))
      | TyAny => AggAny (mkAny (all_none_new op v))
      | TyCount | TyCountIf => AggCountIf (mkCountIf (conditional_new op v))
      | TyNone => AggNone (mkNone (all_none_new op v))
      | TyShare => AggShare (share_new op v)
      | TySum | TySumIf => AggSumIf (mkSumIf (conditional_new op v))
      | t => aggregator_from t
      end
  | None => aggregator_from (aggregation c)
  end.

(** ** Laws *)

(** What the bucket iterator relies on: a reset forgets every update, a handler
    that was reset has nothing to report, and the fill of an empty bucket does
    not depend on what was seen. *)
Class AggregatorLaws (A : Type) `{AggregationHandler A} := {
  reset_update a ts v : agg_reset (agg_update a ts v).2 = agg_reset a;
  reset_reset a : agg_reset (agg_reset a) = agg_reset a;
  reset_default : agg_reset agg_default = agg_default;
  current_reset a : agg_current (agg_reset a) = None;
  empty_update a ts v : agg_empty_value (agg_update a ts v).2 = agg_empty_value a;
  empty_reset a : agg_empty_value (agg_reset a) = agg_empty_value a;
}.

Ltac handler_laws :=
  split; intros; cbn; unfold counter_update, update_irate, std_add, update_sum, update_count, update_all, update_none, update_any,
    conditional_reset, all_none_reset in *; repeat case_match; simplify_eq; cbn; done.

#[export] Instance First_laws : AggregatorLaws FirstAggregator. Proof. handler_laws. Qed.
#[export] Instance Last_laws : AggregatorLaws LastAggregator. Proof. handler_laws. Qed.
#[export] Instance Min_laws : AggregatorLaws MinAggregator. Proof. handler_laws. Qed.
#[export] Instance Max_laws : AggregatorLaws MaxAggregator. Proof. handler_laws. Qed.
#[export] Instance Range_laws : AggregatorLaws RangeAggregator. Proof. handler_laws. Qed.
#[export] Instance Count_laws : AggregatorLaws CountAggregator. Proof. handler_laws. Qed.
#[export] Instance CountNan_laws : AggregatorLaws CountNanAggregator. Proof. handler_laws. Qed.
#[export] Instance CountAll_laws : AggregatorLaws CountAllAggregator. Proof. handler_laws. Qed.
#[export] Instance Sum_laws : AggregatorLaws SumAggregator. Proof. handler_laws. Qed.
#[export] Instance Avg_laws : AggregatorLaws AvgAggregator. Proof. handler_laws. Qed.
#[export] Instance VarP_laws : AggregatorLaws VarPAggregator. Proof. handler_laws. Qed.
#[export] Instance VarS_laws : AggregatorLaws VarSAggregator. Proof. handler_laws. Qed.
#[export] Instance StdP_laws : AggregatorLaws StdPAggregator. Proof. handler_laws. Qed.
#[export] Instance StdS_laws : AggregatorLaws StdSAggregator. Proof. handler_laws. Qed.
#[export] Instance Increase_laws : AggregatorLaws IncreaseAggregator. Proof. handler_laws. Qed.
#[export] Instance Rate_laws : AggregatorLaws RateAggregator. Proof. handler_laws. Qed.
#[export] Instance IRate_laws : AggregatorLaws IRateAggregator. Proof. handler_laws. Qed.
#[export] Instance CountIf_laws : AggregatorLaws CountIfAggregator. Proof. handler_laws. Qed.
#[export] Instance SumIf_laws : AggregatorLaws SumIfAggregator. Proof. handler_laws. Qed.
#[export] Instance Share_laws : AggregatorLaws ShareAggregator. Proof. handler_laws. Qed.
#[export] Instance All_laws : AggregatorLaws AllAggregator. Proof. handler_laws. Qed.
#[export] Instance None_laws : AggregatorLaws NoneAggregator. Proof. handler_laws. Qed.
#[export] Instance Any_laws : AggregatorLaws AnyAggregator. Proof. handler_laws. Qed.

#[export] Instance Aggregator_laws : AggregatorLaws Aggregator.
Proof.
  split.
  - intros [] ts v; cbn [agg_update agg_reset Aggregator_handler agg_dispatch]; destruct (agg_update _ ts v) as [ok b] eqn:E;
      cbn [snd agg_dispatch]; f_equal; change b with (ok, b).2; rewrite <- E; apply reset_update.
  - intros []; cbn [agg_reset Aggregator_handler agg_dispatch]; f_equal; apply reset_reset.
  - reflexivity.
  - intros []; cbn [agg_reset agg_current Aggregator_handler agg_dispatch]; apply current_reset.
  - intros [] ts v; cbn [agg_update agg_empty_value Aggregator_handler agg_dispatch]; destruct (agg_update _ ts v) as [ok b] eqn:E;
      cbn [snd agg_dispatch]; change b with (ok, b).2; rewrite <- E; apply empty_update.
  - intros []; cbn [agg_reset agg_empty_value Aggregator_handler agg_dispatch]; apply empty_reset.
Qed.
