(* ===== verification/AggregateIterator.v ===== *)
(** * AggregateIterator: samples grouped into time buckets

    Models the bucket options of [src/aggregators/mod.rs], the options of
    [src/series/request_types.rs] and the iterators of
    [src/aggregators/aggregate_iterator.rs].  The iterator over samples is the
    list of the samples it has still to give. *)

From stdpp Require Import strings.
From S2P Require Import Prelude Float64 Types Content Aggregators.

(** ** Options *)

Inductive BucketTimestamp := BucketStart | BucketEnd | BucketMid.

(** [i64::saturating_add_unsigned] *)
Definition sat_add_unsigned (ts delta : Z) : Z := sat_i64 (ts + delta).

Definition bt_calculate (b : BucketTimestamp) (ts : Timestamp) (time_delta : Z) : Timestamp :=
  match b with
  | BucketStart => ts
  | BucketMid => sat_add_unsigned ts (time_delta / 2)
  | BucketEnd => sat_add_unsigned ts time_delta
  end.

Inductive BucketAlignment := AlignDefault | AlignStart | AlignEnd | AlignTimestamp (ts : Timestamp).

Definition get_aligned_timestamp (a : BucketAlignment) (start end_ : Timestamp) : Timestamp :=
  match a with
  | AlignDefault => 0
  | AlignStart => start
  | AlignEnd => end_
  | AlignTimestamp ts => ts
  end.

Record MultiSample := mkMultiSample { ms_timestamp : Timestamp; ms_values : list f64 }.

Record AggregationOptions := mkAggregationOptions {
  aggregations : list AggregatorConfig;
  bucket_duration : Z;
  timestamp_output : BucketTimestamp;
  alignment : BucketAlignment;
  report_empty : bool;
}.

Definition create_aggregators (o : AggregationOptions) : list Aggregator := map create_aggregator (aggregations o).

(** [%] of the source truncates; overflow wraps. *)
Definition bucket_start_for (ts align_timestamp : Timestamp) (bucket_duration : Z) : Timestamp :=
  let diff := wrap_i64 (ts - align_timestamp) in
  let delta := wrap_i64 bucket_duration in
  wrap_i64 (ts - Z.rem (wrap_i64 (Z.rem diff delta + delta)) delta).

Definition calc_bucket_start (ts align_timestamp : Timestamp) (bucket_duration : Z) : Timestamp :=
  Z.max 0 (bucket_start_for ts align_timestamp bucket_duration).

(** ** Runs of empty buckets *)

Record EmptyBucketRun := mkEmptyBucketRun { next_bucket : Timestamp; end_exclusive : Timestamp }.

Definition no_run : EmptyBucketRun := mkEmptyBucketRun 0 0.
Definition run_is_empty (r : EmptyBucketRun) : bool := end_exclusive r <=? next_bucket r.

Record EmptyFillBounds := mkEmptyFillBounds {
  fill_start : option Timestamp;
  fill_end : option Timestamp;
  carry_seed : f64;
}.

Definition no_fill : EmptyFillBounds := mkEmptyFillBounds None None f64_NAN.

(** ** The helper *)

Section Helper.

Context {A : Type} `{AggregationHandler A}.

Record AggregationHelper := mkHelper {
  h_aggregators : list A;
  h_accepted : list bool;
  h_bucket_duration : Z;
  h_bucket_ts : BucketTimestamp;
  h_range_start : Timestamp;
  h_range_end : Timestamp;
  h_align_timestamp : Timestamp;
  h_saw_sample : bool;
  h_report_empty : bool;
}.

Definition h_calc_bucket_start (h : AggregationHelper) (ts : Timestamp) : Timestamp :=
  bucket_start_for ts (h_align_timestamp h) (h_bucket_duration h).

Definition render_timestamp (h : AggregationHelper) (bucket_start : Timestamp) : Timestamp :=
  bt_calculate (h_bucket_ts h) (Z.max bucket_start 0) (h_bucket_duration h).

Definition output_timestamp (h : AggregationHelper) : Timestamp := render_timestamp h (h_range_start h).

Definition empty_row (h : AggregationHelper) (ts : Timestamp) : MultiSample :=
  mkMultiSample ts (map agg_empty_bucket_value (h_aggregators h)).

Definition add_empty_bucket_internal (run : EmptyBucketRun) (start_bucket end_bucket_exclusive : Timestamp) : EmptyBucketRun :=
  if end_bucket_exclusive <=? start_bucket then run else mkEmptyBucketRun start_bucket end_bucket_exclusive.

Definition add_empty_buckets_between_timestamps (h : AggregationHelper) (run : EmptyBucketRun) (first_ts end_ts : Timestamp)
    : EmptyBucketRun :=
  add_empty_bucket_internal run (h_calc_bucket_start h first_ts) (h_calc_bucket_start h end_ts).

Definition complete_bucket (h : AggregationHelper) (last_ts : option Timestamp) (empty_buckets : EmptyBucketRun)
    : option MultiSample * AggregationHelper * EmptyBucketRun :=
  let any_accepted := existsb id (h_accepted h) in
  let '(bucket, aggregators) :=
    if any_accepted then
      (Some (mkMultiSample (output_timestamp h) (map (fun a => (agg_finalize a).1) (h_aggregators h))),
       map (fun a => (agg_finalize a).2) (h_aggregators h))
    else if h_report_empty h then
      (Some (mkMultiSample (output_timestamp h) (map agg_empty_value (h_aggregators h))), h_aggregators h)
    else (None, h_aggregators h) in
  let run :=
    match last_ts with
    | Some last_ts =>
        if h_report_empty h && (h_range_end h <=? last_ts)
        then add_empty_buckets_between_timestamps h empty_buckets (wrap_i64 (h_range_end h + 1)) last_ts
        else empty_buckets
    | None => empty_buckets
    end in
  (bucket,
   mkHelper (map agg_reset aggregators) (map (fun _ => false) (h_accepted h)) (h_bucket_duration h) (h_bucket_ts h)
     (h_range_start h) (h_range_end h) (h_align_timestamp h) false (h_report_empty h),
   run).

Definition h_update (h : AggregationHelper) (s : Sample) : AggregationHelper :=
  let updated := map (fun a => agg_update a (timestamp s) (value s)) (h_aggregators h) in
  mkHelper updated.*2 (zip_with orb (h_accepted h) updated.*1) (h_bucket_duration h) (h_bucket_ts h)
    (h_range_start h) (h_range_end h) (h_align_timestamp h) true (h_report_empty h).

Definition should_finalize_bucket (h : AggregationHelper) (ts : Timestamp) : bool := h_range_end h <=? ts.

Definition update_bucket_timestamps (h : AggregationHelper) (ts : Timestamp) : AggregationHelper :=
  let range_start := h_calc_bucket_start h ts in
  mkHelper (h_aggregators h) (h_accepted h) (h_bucket_duration h) (h_bucket_ts h)
    range_start (sat_add_unsigned range_start (h_bucket_duration h)) (h_align_timestamp h) (h_saw_sample h) (h_report_empty h).

(** ** The iterator *)

Record MultiAggregateIterator := mkMultiAggregateIterator {
  it_inner : list Sample;
  it_helper : AggregationHelper;
  it_empty_buckets : EmptyBucketRun;
  it_init : bool;
  it_empty_fill : EmptyFillBounds;
}.

Definition start_new_bucket (h : AggregationHelper) (s : Sample) : AggregationHelper :=
  h_update (update_bucket_timestamps h (timestamp s)) s.

Definition pop_empty_bucket (it : MultiAggregateIterator) : option (MultiSample * MultiAggregateIterator) :=
  let run := it_empty_buckets it in
  let h := it_helper it in
  if run_is_empty run then None
  else
    let bucket_start := next_bucket run in
    Some (empty_row h (render_timestamp h bucket_start),
          mkMultiAggregateIterator (it_inner it) h
            (mkEmptyBucketRun (sat_add_unsigned bucket_start (h_bucket_duration h)) (end_exclusive run))
            (it_init it) (it_empty_fill it)).

Definition bucket_end_exclusive (h : AggregationHelper) (ts : Timestamp) : Timestamp :=
  sat_add_unsigned (h_calc_bucket_start h ts) (h_bucket_duration h).

Definition enqueue_leading_empty_buckets (h : AggregationHelper) (fill : EmptyFillBounds) (run : EmptyBucketRun)
    (first_sample_ts : Timestamp) : EmptyBucketRun :=
  if negb (h_report_empty h) then run
  else match fill_start fill with
       | Some query_start =>
           add_empty_bucket_internal run (h_calc_bucket_start h query_start) (h_calc_bucket_start h first_sample_ts)
       | None => run
       end.

Definition enqueue_full_empty_range_if_needed (h : AggregationHelper) (fill : EmptyFillBounds) (run : EmptyBucketRun)
    : EmptyBucketRun :=
  if negb (h_report_empty h) then run
  else match fill_start fill, fill_end fill with
       | Some query_start, Some query_end =>
           add_empty_bucket_internal run (h_calc_bucket_start h query_start) (bucket_end_exclusive h query_end)
       | _, _ => run
       end.

Definition ensure_initialized (it : MultiAggregateIterator) : bool * MultiAggregateIterator :=
  if it_init it then (true, it)
  else
    let h := it_helper it in
    let fill := it_empty_fill it in
    match it_inner it with
    | s :: inner =>
        let run := enqueue_leading_empty_buckets h fill (it_empty_buckets it) (timestamp s) in
        (true, mkMultiAggregateIterator inner (start_new_bucket h s) run true fill)
    | [] =>
        let run := enqueue_full_empty_range_if_needed h fill (it_empty_buckets it) in
        (false, mkMultiAggregateIterator [] h run true fill)
    end.

(** The samples read before a bucket is due, and the state after it. *)
Fixpoint process_bucket (inner : list Sample) (h : AggregationHelper) (run : EmptyBucketRun)
    : option MultiSample * list Sample * AggregationHelper * EmptyBucketRun :=
  match inner with
  | [] => (None, [], h, run)
  | s :: inner =>
      if negb (should_finalize_bucket h (timestamp s)) then process_bucket inner (h_update h s) run
      else
        let '(bucket, h, run) := complete_bucket h (Some (timestamp s)) run in
        let h := start_new_bucket h s in
        match bucket with
        | Some row => (Some row, inner, h, run)
        | None => process_bucket inner h run
        end
  end.

Definition finalize_last_bucket_if_any (h : AggregationHelper) (fill : EmptyFillBounds) (run : EmptyBucketRun)
    : option MultiSample * AggregationHelper * EmptyBucketRun :=
  if negb (h_saw_sample h) then (None, h, run)
  else
    let '(bucket, h, run) := complete_bucket h None run in
    let run :=
      if h_report_empty h then
        match fill_end fill with
        | Some query_end => add_empty_bucket_internal run (h_range_end h) (bucket_end_exclusive h query_end)
        | None => run
        end
      else run in
    (bucket, h, run).

Definition agg_next (it : MultiAggregateIterator) : option (MultiSample * MultiAggregateIterator) :=
  match pop_empty_bucket it with
  | Some r => Some r
  | None =>
      let '(initialized, it) := ensure_initialized it in
      match pop_empty_bucket it with
      | Some r => Some r
      | None =>
          if negb initialized then None
          else
            let fill := it_empty_fill it in
            let '(bucket, inner, h, run) := process_bucket (it_inner it) (it_helper it) (it_empty_buckets it) in
            match bucket with
            | Some row => Some (row, mkMultiAggregateIterator inner h run true fill)
            | None =>
                let '(bucket, h, run) := finalize_last_bucket_if_any h fill run in
                let it := mkMultiAggregateIterator inner h run true fill in
                match bucket with
                | Some row => Some (row, it)
                | None => pop_empty_bucket it
                end
            end
      end
  end.

(** [Iterator::collect], reading at most [fuel] rows. *)
Fixpoint agg_collect (fuel : nat) (it : MultiAggregateIterator) : list MultiSample :=
  match fuel with
  | O => []
  | S fuel => match agg_next it with Some (row, it) => row :: agg_collect fuel it | None => [] end
  end.

End Helper.

Arguments AggregationHelper A : clear implicits.
Arguments MultiAggregateIterator A : clear implicits.

(** ** Construction *)

(** A rate aggregator divides by the length of the bucket. *)
Definition with_window (bucket_duration : Z) (a : Aggregator) : Aggregator :=
  match a with AggRate r => AggRate (set_window_ms r bucket_duration) | _ => a end.

Definition helper_new (o : AggregationOptions) (align_timestamp : Timestamp) : AggregationHelper Aggregator :=
  let aggregators := map (with_window (bucket_duration o)) (create_aggregators o) in
  mkHelper aggregators (map (fun _ => false) aggregators) (bucket_duration o) (timestamp_output o) 0 0
    align_timestamp false (report_empty o).

Definition with_empty_fill (inner : list Sample) (o : AggregationOptions) (aligned_timestamp : Timestamp)
    (fill : EmptyFillBounds) : MultiAggregateIterator Aggregator :=
  mkMultiAggregateIterator inner (helper_new o aligned_timestamp) no_run false fill.

Definition multi_aggregate_new (inner : list Sample) (o : AggregationOptions) (aligned_timestamp : Timestamp)
    : MultiAggregateIterator Aggregator :=
  with_empty_fill inner o aligned_timestamp no_fill.

(** [AggregateIterator::next]: the one column of the row. *)
Definition single_value (row : MultiSample) : Sample :=
  mkSample (ms_timestamp row) (match ms_values row with v :: _ => v | [] => f64_NAN end).
