(* ===== verification/AggregateLaws.v ===== *)
(** * AggregateLaws: the rows of a bucketed query

    The iterator of [AggregateIterator] reads the samples once.  Its rows are
    those of the definition by buckets: over the grid of buckets from the first
    to the last, one row per bucket, the aggregators run over the samples of the
    bucket; without EMPTY only the rows of buckets some aggregator took a sample
    from. *)

From S2P Require Import Prelude Float64 Types Content Aggregators AggregateIterator.

(** ** The grid *)

Lemma rem_rem_mod a d : 0 < d -> Z.rem (Z.rem a d + d) d = a mod d.
Proof.
  intros Hd. assert (Z.rem a d = a mod d \/ Z.rem a d = a mod d - d) as H.
  { pose proof (Z.quot_rem' a d) as Hq. pose proof (Z.rem_bound_abs a d ltac:(lia)) as Hr. rewrite (Z.abs_eq d) in Hr by lia.
    destruct (Z.le_gt_cases 0 (Z.rem a d)) as [Hp|Hn]; [left|right].
    - apply Z.mod_unique with (Z.quot a d); lia.
    - enough (a mod d = Z.rem a d + d) by lia. symmetry. apply Z.mod_unique with (Z.quot a d - 1); lia. }
  pose proof (Z.mod_pos_bound a d Hd) as Hb. destruct H as [->| ->].
  - rewrite Z.rem_mod_nonneg by lia. rewrite <- Z.add_mod_idemp_r, Z.mod_same, Z.add_0_r by lia. by rewrite Z.mod_mod by lia.
  - rewrite Z.sub_add, Z.rem_mod_nonneg by lia. by rewrite Z.mod_mod by lia.
Qed.

(** Far from the ends of [i64]. *)
Definition TIME_BOUND : Z := 2 ^ 60.
Definition near (ts : Z) : Prop := - TIME_BOUND <= ts <= TIME_BOUND.

Section Grid.

Variables (d align : Z).

Definition bucket_of (ts : Timestamp) : Z := (ts - align) / d.
Definition start_of (k : Z) : Z := align + d * k.

Definition grid_ok : Prop := 0 < d <= TIME_BOUND /\ near align.

Hypothesis Hgrid : grid_ok.

Lemma start_of_bucket ts : start_of (bucket_of ts) <= ts < start_of (bucket_of ts + 1).
Proof.
  destruct Hgrid as [Hd _]. unfold start_of, bucket_of. pose proof (Z.mul_div_le (ts - align) d ltac:(lia)).
  pose proof (Z.mul_succ_div_gt (ts - align) d ltac:(lia)). nia.
Qed.

Lemma bucket_of_unique ts k : start_of k <= ts < start_of (k + 1) -> bucket_of ts = k.
Proof.
  intros Hk. pose proof (start_of_bucket ts). destruct Hgrid as [Hd _]. unfold start_of in *. nia.
Qed.

Lemma bucket_of_mono a b : a <= b -> bucket_of a <= bucket_of b.
Proof. intros. destruct Hgrid as [Hd _]. apply Z.div_le_mono; lia. Qed.

Lemma bucket_of_start k : bucket_of (start_of k) = k.
Proof. apply bucket_of_unique. destruct Hgrid as [Hd _]. unfold start_of. lia. Qed.

Lemma start_of_lt j k : start_of j < start_of k <-> j < k.
Proof. destruct Hgrid as [Hd _]. unfold start_of. nia. Qed.

Lemma bucket_start_spec ts : - 2 ^ 62 <= ts <= 2 ^ 62 -> bucket_start_for ts align d = start_of (bucket_of ts).
Proof.
  destruct Hgrid as [Hd Ha]. unfold near, TIME_BOUND in *. intros Hts. unfold bucket_start_for.
  rewrite (wrap_i64_id (ts - align)), (wrap_i64_id d) by ilia.
  assert (- d < Z.rem (ts - align) d < d) as Hr.
  { pose proof (Z.rem_bound_abs (ts - align) d ltac:(lia)). lia. }
  rewrite (wrap_i64_id (Z.rem (ts - align) d + d)) by ilia. rewrite rem_rem_mod by lia.
  pose proof (Z.mod_pos_bound (ts - align) d ltac:(lia)) as Hm. rewrite wrap_i64_id by ilia.
  pose proof (Z.div_mod (ts - align) d ltac:(lia)). unfold start_of, bucket_of. lia.
Qed.

Lemma start_bounds ts k : near ts -> bucket_of ts = k -> - 2 ^ 62 < start_of k <= TIME_BOUND /\ start_of (k + 1) < 2 ^ 62.
Proof.
  intros Hts <-. pose proof (start_of_bucket ts). destruct Hgrid as [Hd _]. unfold near, TIME_BOUND, start_of in *. lia.
Qed.

End Grid.

(** ** The definition by buckets *)

Section Rows.

Context {A : Type} `{AggregatorLaws A}.

(** The aggregators run over a list of samples, and which of them took one. *)
Definition feed (st : list A * list bool) (s : Sample) : list A * list bool :=
  let updated := map (fun a => agg_update a (timestamp s) (value s)) st.1 in
  (updated.*2, zip_with orb st.2 updated.*1).

Definition bucket_state (bs : list A) (ss : list Sample) : list A * list bool :=
  fold_left feed ss (bs, map (fun _ => false) bs).

Definition accepted (bs : list A) (ss : list Sample) : bool := existsb id (bucket_state bs ss).2.

Definition row_values (bs : list A) (ss : list Sample) : list f64 :=
  if accepted bs ss then map (fun a => (agg_finalize a).1) (bucket_state bs ss).1 else map agg_empty_value bs.

Lemma bucket_state_snoc bs ss s : bucket_state bs (ss ++ [s]) = feed (bucket_state bs ss) s.
Proof. unfold bucket_state. by rewrite fold_left_app. Qed.

Lemma bucket_state_lengths bs ss :
  length (bucket_state bs ss).1 = length bs /\ length (bucket_state bs ss).2 = length bs.
Proof.
  induction ss as [|s ss [IH1 IH2]] using rev_ind; [unfold bucket_state; cbn; by rewrite length_map|].
  rewrite bucket_state_snoc. unfold feed. cbn [fst snd]. rewrite length_zip_with, !length_fmap, ?length_map. lia.
Qed.

Lemma bucket_state_reset bs ss : map agg_reset bs = bs -> map agg_reset (bucket_state bs ss).1 = bs.
Proof.
  intros Hb. induction ss as [|s ss IH] using rev_ind; [done|]. rewrite bucket_state_snoc. unfold feed. cbn [fst].
  rewrite <- IH at 2. change (@fmap list _) with map. rewrite !map_map. apply map_ext. intros a. apply reset_update.
Qed.

Lemma bucket_state_empty bs ss : map agg_empty_value (bucket_state bs ss).1 = map agg_empty_value bs.
Proof.
  induction ss as [|s ss IH] using rev_ind; [done|]. rewrite bucket_state_snoc. unfold feed. cbn [fst].
  rewrite <- IH. change (@fmap list _) with map. rewrite !map_map. apply map_ext. intros a. apply empty_update.
Qed.

Lemma map_const_length {B C D} (x : D) (l : list B) (k : list C) :
  length l = length k -> map (fun _ => x) l = map (fun _ => x) k.
Proof. revert k. induction l as [|y l IH]; intros [|z k] Hl; try done. cbn. f_equal. apply IH. by injection Hl. Qed.

Lemma bucket_state_clear bs ss : map (fun _ => false) (bucket_state bs ss).2 = map (fun _ => false) bs.
Proof. apply map_const_length. apply bucket_state_lengths. Qed.

Lemma accepted_nil bs : accepted bs [] = false.
Proof. unfold accepted, bucket_state. cbn [fold_left snd]. by induction bs. Qed.

Lemma row_values_nil bs : row_values bs [] = map agg_empty_value bs.
Proof. unfold row_values. by rewrite accepted_nil. Qed.

Context (d align : Z) (bt : BucketTimestamp) (re : bool) (bs : list A).

Definition render (k : Z) : Timestamp := bt_calculate bt (Z.max (start_of d align k) 0) d.

Definition in_bucket (k : Z) (ss : list Sample) : list Sample := List.filter (fun s => bucket_of d align (timestamp s) =? k) ss.

(** The row of bucket [k], if it is reported. *)
Definition bucket_row (ss : list Sample) (k : Z) : option MultiSample :=
  let ss := in_bucket k ss in
  if accepted bs ss || re then Some (mkMultiSample (render k) (row_values bs ss)) else None.

Definition rows_between (ss : list Sample) (lo hi : Z) : list MultiSample := omap (bucket_row ss) (seqZ lo (hi - lo + 1)).

Lemma rows_between_cons ss lo hi : lo <= hi ->
  rows_between ss lo hi = option_list (bucket_row ss lo) ++ rows_between ss (lo + 1) hi.
Proof.
  intros Hle. unfold rows_between. rewrite seqZ_cons by lia. cbn [omap list_omap].
  replace (Z.pred (hi - lo + 1)) with (hi - (lo + 1) + 1) by lia. rewrite <- Z.add_1_r. by destruct (bucket_row ss lo).
Qed.

Lemma rows_between_app ss lo mid hi : lo <= mid + 1 -> mid <= hi ->
  rows_between ss lo hi = rows_between ss lo mid ++ rows_between ss (mid + 1) hi.
Proof.
  intros H1 H2. unfold rows_between. rewrite <- omap_app.
  replace (hi - lo + 1) with ((mid - lo + 1) + (hi - (mid + 1) + 1)) by lia. rewrite seqZ_app by lia.
  by replace (lo + (mid - lo + 1)) with (mid + 1) by lia.
Qed.

Lemma rows_between_none ss lo hi : hi < lo -> rows_between ss lo hi = [].
Proof. intros Hlt. unfold rows_between. by rewrite seqZ_nil by lia. Qed.

Lemma rows_between_ext ss ss' lo hi :
  (forall k, lo <= k <= hi -> in_bucket k ss = in_bucket k ss') -> rows_between ss lo hi = rows_between ss' lo hi.
Proof.
  intros He. unfold rows_between. assert (forall k, k ∈ seqZ lo (hi - lo + 1) -> bucket_row ss k = bucket_row ss' k) as Hk.
  { intros k Hk%elem_of_seqZ. unfold bucket_row. rewrite He by lia. done. }
  revert Hk. generalize (seqZ lo (hi - lo + 1)). induction l as [|k l IH]; intros Hk; [done|]. cbn [omap list_omap].
  rewrite (Hk k) by (by left). destruct (bucket_row ss' k); [f_equal|]; apply IH; intros j Hj; apply Hk; by right.
Qed.

(** ** The helper *)

Hypothesis Hgrid : grid_ok d align.
Hypothesis Hbs : map agg_reset bs = bs.

(** The helper inside bucket [k], whose samples so far are [cur]; and between
    buckets. *)
Definition live_helper (k : Z) (cur : list Sample) : AggregationHelper A :=
  mkHelper (bucket_state bs cur).1 (bucket_state bs cur).2 d bt (start_of d align k) (start_of d align (k + 1)) align true re.

Definition idle_helper (rs rend : Timestamp) : AggregationHelper A :=
  mkHelper bs (map (fun _ => false) bs) d bt rs rend align false re.

Lemma update_live k cur s : h_update (live_helper k cur) s = live_helper k (cur ++ [s]).
Proof. unfold live_helper at 2. rewrite bucket_state_snoc. done. Qed.

Lemma start_idle rs rend s : near (timestamp s) ->
  start_new_bucket (idle_helper rs rend) s = live_helper (bucket_of d align (timestamp s)) [s].
Proof.
  intros Hn. unfold start_new_bucket, update_bucket_timestamps, h_calc_bucket_start, idle_helper. cbn.
  destruct (start_bounds d align Hgrid _ _ Hn eq_refl) as [Hb1 Hb2]. unfold near, TIME_BOUND in *.
  rewrite bucket_start_spec by (done || lia). unfold sat_add_unsigned.
  assert (start_of d align (bucket_of d align (timestamp s)) + d = start_of d align (bucket_of d align (timestamp s) + 1)) as ->
    by (unfold start_of; lia).
  assert (sat_i64 (start_of d align (bucket_of d align (timestamp s) + 1)) = start_of d align (bucket_of d align (timestamp s) + 1)) as ->.
  { destruct Hgrid as [Hd _]. unfold sat_i64, i64_MIN, i64_MAX. unfold start_of in *. lia. }
  reflexivity.
Qed.

Lemma complete_live k cur last_ts run :
  complete_bucket (live_helper k cur) last_ts run =
  (if accepted bs cur || re then Some (mkMultiSample (render k) (row_values bs cur)) else None,
   idle_helper (start_of d align k) (start_of d align (k + 1)),
   match last_ts with
   | Some ts => if re && (start_of d align (k + 1) <=? ts)
                then add_empty_buckets_between_timestamps (live_helper k cur) run (wrap_i64 (start_of d align (k + 1) + 1)) ts
                else run
   | None => run
   end).
Proof.
  unfold complete_bucket, live_helper, idle_helper, row_values. cbn [h_accepted h_aggregators h_report_empty h_range_end h_range_start
    h_bucket_duration h_bucket_ts h_align_timestamp]. fold (accepted bs cur). rewrite bucket_state_clear.
  destruct (accepted bs cur); cbn [orb].
  - rewrite map_map. assert (map (fun a => agg_reset (agg_finalize a).2) (bucket_state bs cur).1 = bs) as ->; [|done].
    rewrite <- (bucket_state_reset bs cur Hbs) at 2. apply map_ext. intros a. apply reset_reset.
  - destruct re; cbn [andb]; by rewrite ?bucket_state_empty, bucket_state_reset.
Qed.

(** ** Runs of empty buckets *)

Definition empties (j n : Z) : list MultiSample :=
  map (fun k => mkMultiSample (render k) (map agg_empty_value bs)) (seqZ j n).

Definition run_rep (run : EmptyBucketRun) (rows : list MultiSample) : Prop :=
  (run_is_empty run = true /\ rows = []) \/
  exists j n, 0 < n /\ run = mkEmptyBucketRun (start_of d align j) (start_of d align (j + n)) /\
    - 2 ^ 62 <= start_of d align j /\ start_of d align (j + n) <= 2 ^ 62 /\ rows = empties j n.

Definition fills (h : AggregationHelper A) : Prop :=
  h_bucket_duration h = d /\ h_bucket_ts h = bt /\ map agg_empty_value (h_aggregators h) = map agg_empty_value bs.

Lemma live_fills k cur : fills (live_helper k cur).
Proof. split_and!; [done|done|]. apply bucket_state_empty. Qed.

Lemma idle_fills rs rend : fills (idle_helper rs rend).
Proof. done. Qed.

Lemma empties_cons j n : 0 < n ->
  empties j n = mkMultiSample (render j) (map agg_empty_value bs) :: empties (j + 1) (n - 1).
Proof. intros Hn. unfold empties. rewrite seqZ_cons by lia. done. Qed.

Lemma empties_nil j n : n <= 0 -> empties j n = [].
Proof. intros Hn. unfold empties. by rewrite seqZ_nil by lia. Qed.

Lemma pop_spec it rows : fills (it_helper it) -> run_rep (it_empty_buckets it) rows ->
  match pop_empty_bucket it with
  | Some (row, it') => exists rows' run', rows = row :: rows' /\ run_rep run' rows' /\
      it' = mkMultiAggregateIterator (it_inner it) (it_helper it) run' (it_init it) (it_empty_fill it)
  | None => rows = [] /\ run_is_empty (it_empty_buckets it) = true
  end.
Proof.
  intros (Hd & Hb & He) [[Hr ->]|(j & n & Hn & Hr & Hlo & Hhi & ->)]; unfold pop_empty_bucket.
  { by rewrite Hr. }
  assert (0 < d) as Hdpos by apply Hgrid. rewrite Hr. unfold run_is_empty. cbn [next_bucket end_exclusive].
  destruct (Z.leb_spec (start_of d align (j + n)) (start_of d align j)) as [Hle|Hlt]; [unfold start_of in *; nia|].
  rewrite empties_cons by done. unfold empty_row, render_timestamp. rewrite Hd, Hb.
  change (map agg_empty_bucket_value (h_aggregators (it_helper it))) with (map agg_empty_value (h_aggregators (it_helper it))).
  rewrite He. eexists _, _. split; [done|]. split; [|done].
  assert (start_of d align (j + 1) <= start_of d align (j + n)) as Hstep by (unfold start_of; nia).
  assert (sat_add_unsigned (start_of d align j) d = start_of d align (j + 1)) as ->.
  { unfold sat_add_unsigned, sat_i64, i64_MIN, i64_MAX. unfold start_of in *. lia. }
  destruct (Z.eq_dec n 1) as [->|Hn1]; [left|right].
  - split; [|by rewrite empties_nil by lia]. unfold run_is_empty. cbn. lia.
  - exists (j + 1), (n - 1). replace (j + 1 + (n - 1)) with (j + n) by lia. split_and!; try done; [lia|]. unfold start_of in *. lia.
Qed.

Lemma add_run_spec run j e : run_is_empty run = true ->
  - 2 ^ 62 <= start_of d align j -> start_of d align e <= 2 ^ 62 ->
  run_rep (add_empty_bucket_internal run (start_of d align j) (start_of d align e)) (empties j (e - j)).
Proof.
  intros Hr Hlo Hhi. unfold add_empty_bucket_internal. assert (0 < d) as Hd by apply Hgrid.
  destruct (Z.leb_spec (start_of d align e) (start_of d align j)) as [Hle|Hlt].
  - left. split; [done|]. apply empties_nil. unfold start_of in *. nia.
  - right. exists j, (e - j). replace (j + (e - j)) with e by lia. split_and!; try done. unfold start_of in *. nia.
Qed.

(** ** Buckets and their samples *)

Lemma in_bucket_app k a b : in_bucket k (a ++ b) = in_bucket k a ++ in_bucket k b.
Proof. apply List.filter_app. Qed.

Lemma in_bucket_all k ss : Forall (fun s => bucket_of d align (timestamp s) = k) ss -> in_bucket k ss = ss.
Proof. induction 1 as [|s ss Hs _ IH]; [done|]. cbn. rewrite Hs, Z.eqb_refl. f_equal. exact IH. Qed.

Lemma in_bucket_none k ss : Forall (fun s => bucket_of d align (timestamp s) <> k) ss -> in_bucket k ss = [].
Proof. induction 1 as [|s ss Hs _ IH]; [done|]. cbn. apply Z.eqb_neq in Hs. rewrite Hs. exact IH. Qed.

Lemma rows_between_empty ss lo hi : re = true -> (forall k, lo <= k <= hi -> in_bucket k ss = []) ->
  rows_between ss lo hi = empties lo (hi - lo + 1).
Proof.
  intros Hre He. rewrite (rows_between_ext ss [] lo hi) by (intros k Hk; by rewrite He).
  unfold rows_between, empties. induction (seqZ lo (hi - lo + 1)) as [|k l IH]; [done|]. cbn [omap list_omap map].
  unfold bucket_row at 1. cbn [in_bucket List.filter]. rewrite Hre, orb_true_r, row_values_nil. f_equal. exact IH.
Qed.

Lemma rows_between_silent ss lo hi : re = false -> (forall k, lo <= k <= hi -> in_bucket k ss = []) ->
  rows_between ss lo hi = [].
Proof.
  intros Hre He. rewrite (rows_between_ext ss [] lo hi) by (intros k Hk; by rewrite He).
  unfold rows_between. induction (seqZ lo (hi - lo + 1)) as [|k l IH]; [done|]. cbn [omap list_omap].
  unfold bucket_row at 1. cbn [in_bucket List.filter]. by rewrite Hre, orb_false_r, accepted_nil.
Qed.

Definition time_ordered (ss : list Sample) : Prop := StronglySorted (fun a b => timestamp a <= timestamp b) ss.

Definition last_bucket (k : Z) (inner : list Sample) : Z :=
  match list.last inner with Some s => bucket_of d align (timestamp s) | None => k end.

(** Inside bucket [k], with [inner] still to read. *)
Record live (k : Z) (cur inner : list Sample) : Prop := {
  live_some : cur <> [];
  live_cur : Forall (fun s => bucket_of d align (timestamp s) = k) cur;
  live_order : time_ordered (cur ++ inner);
  live_near : Forall (fun s => near (timestamp s)) (cur ++ inner);
}.

Lemma time_ordered_app a b :
  time_ordered (a ++ b) -> time_ordered a /\ time_ordered b /\ Forall (fun x => Forall (fun y => timestamp x <= timestamp y) b) a.
Proof.
  intros (Hx & Ha & Hb)%StronglySorted_app. split_and!; [done|done|].
  apply Forall_forall. intros x Hxa. apply Forall_forall. intros y Hy. by apply Hx.
Qed.

Lemma live_ge k cur inner : live k cur inner -> Forall (fun s => k <= bucket_of d align (timestamp s)) inner.
Proof.
  intros [Hne Hc Ho _]. apply time_ordered_app in Ho as (_ & _ & Hx). destruct cur as [|x cur]; [done|].
  apply Forall_cons in Hc as [<- _]. apply Forall_cons in Hx as [Hx _]. eapply Forall_impl; [exact Hx|].
  intros s Hs. by apply bucket_of_mono.
Qed.

Lemma live_near_k k cur inner : live k cur inner -> exists ts, near ts /\ bucket_of d align ts = k.
Proof.
  intros [Hne Hc _ Hn]. destruct cur as [|x cur]; [done|]. apply Forall_cons in Hc as [Hc _]. apply Forall_cons in Hn as [Hn _].
  by exists (timestamp x).
Qed.

Lemma last_bucket_cons k s inner : last_bucket k (s :: inner) = last_bucket (bucket_of d align (timestamp s)) inner.
Proof. unfold last_bucket. rewrite last_cons. by destruct (list.last inner). Qed.

Lemma last_bucket_ge k inner : Forall (fun s => k <= bucket_of d align (timestamp s)) inner -> k <= last_bucket k inner.
Proof.
  intros Hi. unfold last_bucket. destruct (list.last inner) as [s|] eqn:El; [|lia].
  rewrite Forall_forall in Hi. apply Hi. by apply last_Some_elem_of.
Qed.

Lemma live_snoc k cur s inner : live k cur (s :: inner) -> bucket_of d align (timestamp s) = k -> live k (cur ++ [s]) inner.
Proof.
  intros [Hne Hc Ho Hn] Hk. split; rewrite <- ?app_assoc; try done; [by destruct cur|]. apply Forall_app. split; [done|]. by constructor.
Qed.

Lemma live_next k cur s inner : live k cur (s :: inner) -> live (bucket_of d align (timestamp s)) [s] inner.
Proof.
  intros [Hne Hc Ho Hn]. split; [done|by constructor|by apply time_ordered_app in Ho as (_ & ? & _)|by apply Forall_app in Hn as [_ ?]].
Qed.

(** Moving on to the bucket of the next sample. *)
Lemma rows_step k cur s inner : live k cur (s :: inner) -> k < bucket_of d align (timestamp s) ->
  rows_between (cur ++ s :: inner) k (last_bucket k (s :: inner)) =
  option_list (bucket_row cur k) ++ (if re then empties (k + 1) (bucket_of d align (timestamp s) - k - 1) else []) ++
  rows_between ([s] ++ inner) (bucket_of d align (timestamp s)) (last_bucket (bucket_of d align (timestamp s)) inner).
Proof.
  intros Hl Hk. rewrite last_bucket_cons. set (k' := bucket_of d align (timestamp s)) in *.
  pose proof (live_ge _ _ _ (live_next _ _ _ _ Hl)) as Hge. fold k' in Hge. pose proof (last_bucket_ge _ _ Hge) as Hhi.
  assert (forall j, j < k' -> in_bucket j (s :: inner) = []) as Hafter.
  { intros j Hj. apply in_bucket_none. constructor; [fold k'; lia|]. eapply Forall_impl; [exact Hge|]. cbn. lia. }
  assert (forall j, j <> k -> in_bucket j cur = []) as Hcur.
  { intros j Hj. apply in_bucket_none. eapply Forall_impl; [apply (live_cur _ _ _ Hl)|]. cbn. lia. }
  rewrite rows_between_cons by lia. rewrite (rows_between_app _ _ (k' - 1)) by lia. rewrite Z.sub_add. f_equal; [|f_equal].
  - f_equal. unfold bucket_row. by rewrite in_bucket_app, (Hafter k), app_nil_r by lia.
  - assert (forall j, k + 1 <= j <= k' - 1 -> in_bucket j (cur ++ s :: inner) = []) as Hgap.
    { intros j Hj. by rewrite in_bucket_app, Hcur, Hafter by lia. }
    destruct re eqn:Hre; [|by apply rows_between_silent]. rewrite rows_between_empty by done. f_equal. lia.
  - apply rows_between_ext. intros j Hj. by rewrite in_bucket_app, Hcur by lia.
Qed.

Hypothesis Hwide : re = true -> 2 <= d.

(** The run queued when the bucket is closed by a sample of a later one. *)
Lemma gap_run k cur s inner run : live k cur (s :: inner) -> k < bucket_of d align (timestamp s) -> run_is_empty run = true -> re = true ->
  run_rep (add_empty_buckets_between_timestamps (live_helper k cur) run (wrap_i64 (start_of d align (k + 1) + 1)) (timestamp s))
    (empties (k + 1) (bucket_of d align (timestamp s) - k - 1)).
Proof.
  intros Hl Hk Hr Hre. pose proof (Hwide Hre) as Hd2. destruct (live_near_k _ _ _ Hl) as (ts & Hts & Ek).
  destruct (start_bounds d align Hgrid ts k Hts Ek) as [Hb1 Hb2]. pose proof (live_near _ _ _ Hl) as Hn.
  apply Forall_app in Hn as [_ [Hs _]%Forall_cons].
  destruct (start_bounds d align Hgrid (timestamp s) _ Hs eq_refl) as [Hb3 Hb4].
  assert (0 < d <= TIME_BOUND) as Hd by apply Hgrid. unfold near, TIME_BOUND in *.
  unfold add_empty_buckets_between_timestamps, h_calc_bucket_start. cbn [h_align_timestamp h_bucket_duration live_helper].
  rewrite wrap_i64_id by (unfold start_of in *; ilia).
  rewrite !bucket_start_spec by (done || lia || (unfold start_of in *; lia)).
  assert (bucket_of d align (start_of d align (k + 1) + 1) = k + 1) as ->.
  { apply bucket_of_unique; [done|]. unfold start_of. lia. }
  replace (bucket_of d align (timestamp s) - k - 1) with (bucket_of d align (timestamp s) - (k + 1)) by lia.
  apply add_run_spec; [done|unfold start_of in *; lia|lia].
Qed.

(** ** Reading on *)

Lemma bucket_row_cur k cur inner : live k cur inner ->
  bucket_row cur k = if accepted bs cur || re then Some (mkMultiSample (render k) (row_values bs cur)) else None.
Proof. intros Hl. unfold bucket_row. by rewrite in_bucket_all by apply (live_cur _ _ _ Hl). Qed.

Lemma process_spec inner : forall k cur run, live k cur inner -> run_is_empty run = true ->
  match process_bucket inner (live_helper k cur) run with
  | (Some row, inner', h', run') => exists k' cur' gap,
      h' = live_helper k' cur' /\ live k' cur' inner' /\ run_rep run' gap /\ last_bucket k' inner' = last_bucket k inner /\
      rows_between (cur ++ inner) k (last_bucket k inner) =
        row :: gap ++ rows_between (cur' ++ inner') k' (last_bucket k' inner')
  | (None, inner', h', run') => exists cur',
      inner' = [] /\ h' = live_helper (last_bucket k inner) cur' /\ run' = run /\ live (last_bucket k inner) cur' [] /\
      rows_between (cur ++ inner) k (last_bucket k inner) = option_list (bucket_row cur' (last_bucket k inner))
  end.
Proof.
  induction inner as [|s inner IH]; intros k cur run Hl Hr; cbn [process_bucket].
  - exists cur. cbn. split_and!; try done. rewrite app_nil_r, rows_between_cons by lia.
    by rewrite rows_between_none, app_nil_r by lia.
  - unfold should_finalize_bucket. cbn [h_range_end live_helper]. pose proof (live_ge _ _ _ Hl) as [Hge _]%Forall_cons.
    pose proof (start_of_bucket d align Hgrid (timestamp s)) as Hsb.
    destruct (Z.leb_spec (start_of d align (k + 1)) (timestamp s)) as [Hnew|Hsame]; cbn [negb].
    + assert (k < bucket_of d align (timestamp s)) as Hk.
      { destruct (Z.eq_dec (bucket_of d align (timestamp s)) k) as [E|]; [rewrite E in Hsb; lia|lia]. }
      rewrite complete_live, <- (bucket_row_cur _ _ _ Hl). pose proof (rows_step _ _ _ _ Hl Hk) as Hrows.
      pose proof (live_near _ _ _ Hl) as Hn. apply Forall_app in Hn as [_ [Hs _]%Forall_cons].
      rewrite start_idle by done. pose proof (live_next _ _ _ _ Hl) as Hl'.
      assert ((start_of d align (k + 1) <=? timestamp s) = true) as -> by lia. rewrite andb_true_r.
      destruct (bucket_row cur k) as [row|] eqn:Erow.
      * exists (bucket_of d align (timestamp s)), [s], (if re then empties (k + 1) (bucket_of d align (timestamp s) - k - 1) else []).
        rewrite last_bucket_cons, <- last_bucket_cons with (k := k). split_and!; [done|done| |by rewrite last_bucket_cons|].
        -- destruct (bool_dec re true) as [Hre|Hre%not_true_is_false]; [|rewrite Hre; by left].
           pose proof (gap_run _ _ _ _ _ Hl Hk Hr Hre) as Hgap. by rewrite Hre.
        -- rewrite Hrows. by rewrite last_bucket_cons.
      * assert (re = false) as Hre.
        { apply not_true_is_false. intros Hre. by rewrite (bucket_row_cur _ _ _ Hl), Hre, orb_true_r in Erow. }
        rewrite Hre in Hrows |- *. specialize (IH _ _ run Hl' Hr). rewrite last_bucket_cons in Hrows |- *.
        destruct (process_bucket inner _ run) as [[[[row|] inner'] h'] run'].
        -- destruct IH as (k' & cur' & gap & -> & Hl2 & Hg & El & Er). exists k', cur', gap. split_and!; try done.
           rewrite <- Er. exact Hrows.
        -- destruct IH as (cur' & -> & -> & -> & Hl2 & Er). exists cur'. split_and!; try done.
           rewrite <- Er. exact Hrows.
    + assert (bucket_of d align (timestamp s) = k) as Ek.
      { destruct (Z.eq_dec (bucket_of d align (timestamp s)) k) as [|Hne]; [done|]. exfalso.
        assert (start_of d align (k + 1) <= start_of d align (bucket_of d align (timestamp s))).
        { destruct Hgrid as [Hd _]. unfold start_of. nia. } lia. }
      rewrite update_live. specialize (IH _ _ run (live_snoc _ _ _ _ Hl Ek) Hr).
      rewrite last_bucket_cons, Ek. rewrite <- app_assoc in IH. exact IH.
Qed.

(** ** The iterator *)

Context (fill : EmptyFillBounds).

Hypothesis Hfill : (forall qs, fill_start fill = Some qs -> near qs) /\ (forall qe, fill_end fill = Some qe -> near qe).

Definition leading (k : Z) : list MultiSample :=
  if re then match fill_start fill with
             | Some qs => empties (bucket_of d align qs) (k - bucket_of d align qs)
             | None => []
             end
  else [].

Definition trailing (k : Z) : list MultiSample :=
  if re then match fill_end fill with
             | Some qe => empties (k + 1) (bucket_of d align qe + 1 - (k + 1))
             | None => []
             end
  else [].

Definition gap_only : list MultiSample :=
  if re then match fill_start fill, fill_end fill with
             | Some qs, Some qe => empties (bucket_of d align qs) (bucket_of d align qe + 1 - bucket_of d align qs)
             | _, _ => []
             end
  else [].

Definition expected_rows (ss : list Sample) : list MultiSample :=
  match ss with
  | [] => gap_only
  | s :: inner =>
      let k := bucket_of d align (timestamp s) in
      leading k ++ rows_between ss k (last_bucket k inner) ++ trailing (last_bucket k inner)
  end.

Inductive it_rep : MultiAggregateIterator A -> list MultiSample -> Prop :=
| rep_live k cur inner run gap : live k cur inner -> run_rep run gap ->
    it_rep (mkMultiAggregateIterator inner (live_helper k cur) run true fill)
      (gap ++ rows_between (cur ++ inner) k (last_bucket k inner) ++ trailing (last_bucket k inner))
| rep_idle rs rend run gap : run_rep run gap ->
    it_rep (mkMultiAggregateIterator [] (idle_helper rs rend) run true fill) gap
| rep_new ss : time_ordered ss -> Forall (fun s => near (timestamp s)) ss ->
    it_rep (mkMultiAggregateIterator ss (idle_helper 0 0) no_run false fill) (expected_rows ss).

Lemma near_start ts : near ts -> - 2 ^ 62 <= start_of d align (bucket_of d align ts) /\
  start_of d align (bucket_of d align ts + 1) <= 2 ^ 62 /\ - 2 ^ 62 <= ts <= 2 ^ 62 /\
  sat_add_unsigned (start_of d align (bucket_of d align ts)) d = start_of d align (bucket_of d align ts + 1).
Proof.
  intros Hn. destruct (start_bounds d align Hgrid ts _ Hn eq_refl) as [Hb1 Hb2]. unfold near, TIME_BOUND in *.
  split_and!; try lia. destruct Hgrid as [Hd _]. unfold sat_add_unsigned, sat_i64, i64_MIN, i64_MAX. unfold start_of in *. lia.
Qed.

Lemma finalize_live k cur run : live k cur [] -> run_is_empty run = true ->
  exists run', finalize_last_bucket_if_any (live_helper k cur) fill run =
    (bucket_row cur k, idle_helper (start_of d align k) (start_of d align (k + 1)), run') /\ run_rep run' (trailing k).
Proof.
  intros Hl Hr. unfold finalize_last_bucket_if_any. cbn [h_saw_sample live_helper negb]. fold (live_helper k cur).
  rewrite complete_live, <- (bucket_row_cur _ _ _ Hl). cbn [h_report_empty idle_helper h_range_end].
  eexists. split; [done|]. unfold trailing. destruct (bool_dec re true) as [Hre|Hre%not_true_is_false]; rewrite Hre; [|by left].
  pose proof (proj2 Hfill) as Hq. clear Hfill. destruct (fill_end fill) as [qe|]; [|by left].
  destruct (near_start qe (Hq qe eq_refl)) as (H1 & H2 & H3 & H4).
  unfold bucket_end_exclusive, h_calc_bucket_start. cbn [h_align_timestamp h_bucket_duration idle_helper].
  rewrite bucket_start_spec, H4 by done. destruct (live_near_k _ _ _ Hl) as (ts & Hts & Ek).
  destruct (start_bounds d align Hgrid ts k Hts Ek) as [Hb1 _]. destruct Hgrid as [Hd _].
  apply add_run_spec; [done|unfold start_of in *; lia|done].
Qed.

(** A live iterator with no run pending. *)
Lemma next_live it k cur inner run : live k cur inner -> run_is_empty run = true ->
  it = mkMultiAggregateIterator inner (live_helper k cur) run true fill ->
  match agg_next it with
  | Some (row, it') => exists rows, it_rep it' rows /\
      rows_between (cur ++ inner) k (last_bucket k inner) ++ trailing (last_bucket k inner) = row :: rows
  | None => rows_between (cur ++ inner) k (last_bucket k inner) ++ trailing (last_bucket k inner) = []
  end.
Proof.
  intros Hl Hr ->. unfold agg_next, ensure_initialized. cbn [it_init it_inner it_helper it_empty_buckets it_empty_fill].
  assert (pop_empty_bucket (mkMultiAggregateIterator inner (live_helper k cur) run true fill) = None) as Hpop
    by (unfold pop_empty_bucket; cbn [it_empty_buckets]; by rewrite Hr).
  rewrite Hpop. cbn [negb]. pose proof (process_spec inner k cur run Hl Hr) as Hp.
  destruct (process_bucket inner (live_helper k cur) run) as [[[[row|] inner'] h'] run'].
  - destruct Hp as (k' & cur' & gap & -> & Hl' & Hg & El & Er). eexists. split; [by apply rep_live|].
    rewrite Er, El. cbn [app]. by rewrite <- app_assoc.
  - destruct Hp as (cur' & -> & -> & -> & Hl' & Er). rewrite Er.
    destruct (finalize_live _ _ run Hl' Hr) as (run' & -> & Hrun').
    destruct (bucket_row cur' (last_bucket k inner)) as [row|]; cbn [option_list app].
    + eexists. split; [by apply rep_idle|done].
    + pose proof (pop_spec (mkMultiAggregateIterator [] (idle_helper (start_of d align (last_bucket k inner))
        (start_of d align (last_bucket k inner + 1))) run' true fill) _ (idle_fills _ _) Hrun') as Hq.
      match type of Hq with context [pop_empty_bucket ?it] => destruct (pop_empty_bucket it) as [[row it']|] end; [|by destruct Hq].
      destruct Hq as (rows' & run2 & -> & Hr2 & ->). exists rows'. split; [by apply rep_idle|done].
Qed.

Lemma next_pop it rows tail k cur inner : fills (it_helper it) -> run_rep (it_empty_buckets it) rows ->
  (it_helper it = live_helper k cur /\ it_inner it = inner /\ live k cur inner /\ it_init it = true /\ it_empty_fill it = fill /\
   tail = rows_between (cur ++ inner) k (last_bucket k inner) ++ trailing (last_bucket k inner)) ->
  match pop_empty_bucket it with
  | Some (row, it') => exists rows', it_rep it' rows' /\ rows ++ tail = row :: rows'
  | None => rows = [] /\ run_is_empty (it_empty_buckets it) = true
  end.
Proof.
  intros Hf Hr (E1 & E2 & Hl & E3 & E4 & ->). pose proof (pop_spec it rows Hf Hr) as Hp.
  destruct (pop_empty_bucket it) as [[row it']|]; [|done]. destruct Hp as (rows' & run' & -> & Hr' & ->).
  eexists. rewrite E1, E2, E3, E4. split; [by apply rep_live|done].
Qed.

Lemma leading_run s : near (timestamp s) ->
  run_rep (enqueue_leading_empty_buckets (idle_helper 0 0) fill no_run (timestamp s)) (leading (bucket_of d align (timestamp s))).
Proof.
  intros Hn. unfold enqueue_leading_empty_buckets, leading. cbn [h_report_empty idle_helper].
  destruct (bool_dec re true) as [Hre|Hre%not_true_is_false]; rewrite Hre; [|by left]. cbn [negb].
  pose proof (proj1 Hfill) as Hq. clear Hfill. destruct (fill_start fill) as [qs|]; [|by left].
  destruct (near_start qs (Hq qs eq_refl)) as (H1 & H2 & H3 & _). destruct (near_start _ Hn) as (H5 & H6 & H7 & _).
  unfold h_calc_bucket_start. cbn [h_align_timestamp h_bucket_duration idle_helper]. rewrite !bucket_start_spec by done.
  destruct Hgrid as [Hd _]. apply add_run_spec; [done|done|unfold start_of in *; lia].
Qed.

Lemma full_run : run_rep (enqueue_full_empty_range_if_needed (idle_helper 0 0) fill no_run) gap_only.
Proof.
  unfold enqueue_full_empty_range_if_needed, gap_only. cbn [h_report_empty idle_helper].
  destruct (bool_dec re true) as [Hre|Hre%not_true_is_false]; rewrite Hre; [|by left]. cbn [negb].
  destruct Hfill as [Hq1 Hq2]. clear Hfill. destruct (fill_start fill) as [qs|]; [|by left]. destruct (fill_end fill) as [qe|]; [|by left].
  destruct (near_start qs (Hq1 qs eq_refl)) as (H1 & H2 & H3 & _). destruct (near_start qe (Hq2 qe eq_refl)) as (H5 & H6 & H7 & H8).
  unfold bucket_end_exclusive, h_calc_bucket_start. cbn [h_align_timestamp h_bucket_duration idle_helper].
  rewrite !bucket_start_spec, H8 by done. by apply add_run_spec.
Qed.

Lemma next_spec it rows : it_rep it rows ->
  match agg_next it with
  | Some (row, it') => exists rows', it_rep it' rows' /\ rows = row :: rows'
  | None => rows = []
  end.
Proof.
  intros [k cur inner run gap Hl Hg|rs rend run gap Hg|ss Ho Hn].
  - set (it0 := mkMultiAggregateIterator inner (live_helper k cur) run true fill).
    pose proof (next_pop it0 gap _ k cur inner (live_fills _ _) Hg ltac:(by split_and!)) as Hp.
    destruct (pop_empty_bucket it0) as [[row it']|] eqn:Ep.
    + unfold agg_next. rewrite Ep. exact Hp.
    + destruct Hp as [-> Hr]. cbn [app]. pose proof (next_live it0 k cur inner run Hl Hr eq_refl) as Hnext.
      destruct (agg_next it0) as [[row it']|]; [|done]. destruct Hnext as (rows2 & H1 & H2). by exists rows2.
  - set (it0 := mkMultiAggregateIterator [] (idle_helper rs rend) run true fill).
    pose proof (pop_spec it0 gap (idle_fills _ _) Hg) as Hp. unfold agg_next.
    destruct (pop_empty_bucket it0) as [[row it']|] eqn:Ep.
    + destruct Hp as (rows' & run' & -> & Hr' & ->). exists rows'. split; [by apply rep_idle|done].
    + destruct Hp as [-> Hr]. unfold ensure_initialized. cbn [it0 it_init]. fold it0. rewrite Ep. cbn [negb].
      cbn [it0 it_inner process_bucket it_helper it_empty_buckets it_empty_fill finalize_last_bucket_if_any h_saw_sample idle_helper negb].
      fold (idle_helper rs rend). fold it0. by rewrite Ep.
  - destruct ss as [|s inner]; unfold agg_next, ensure_initialized; cbn [it_init it_inner it_helper it_empty_buckets it_empty_fill];
      cbn [pop_empty_bucket it_empty_buckets run_is_empty no_run end_exclusive next_bucket Z.leb Z.compare].
    + set (run := enqueue_full_empty_range_if_needed _ _ _). pose proof full_run as Hr. fold run in Hr.
      pose proof (pop_spec (mkMultiAggregateIterator [] (idle_helper 0 0) run true fill) _ (idle_fills _ _) Hr) as Hp.
      match type of Hp with context [pop_empty_bucket ?it] => change (run_is_empty no_run) with true; cbn [expected_rows];
        destruct (pop_empty_bucket it) as [[row it']|] end; [|by destruct Hp].
      destruct Hp as (rows' & run' & -> & Hr' & ->). exists rows'. split; [by apply rep_idle|done].
    + apply Forall_cons in Hn as [Hs Hn]. rewrite start_idle by done. set (k := bucket_of d align (timestamp s)).
      set (run := enqueue_leading_empty_buckets _ _ _ _). pose proof (leading_run s Hs) as Hr. fold run in Hr. fold k in Hr.
      assert (live k [s] inner) as Hl by (split; [done|by constructor|done|by constructor]).
      set (it0 := mkMultiAggregateIterator inner (live_helper k [s]) run true fill).
      pose proof (next_pop it0 _ _ k [s] inner (live_fills _ _) Hr ltac:(by split_and!)) as Hp.
      change (run_is_empty no_run) with true. cbn [expected_rows]. fold k.
      destruct (pop_empty_bucket it0) as [[row it']|] eqn:Ep; [exact Hp|]. destruct Hp as [-> Hre]. cbn [app negb].
      pose proof (next_live it0 k [s] inner run Hl Hre eq_refl) as Hnext. unfold agg_next, ensure_initialized in Hnext.
      rewrite Ep in Hnext. cbn [it0 it_init negb] in Hnext. fold it0 in Hnext. rewrite Ep in Hnext. exact Hnext.
Qed.

Lemma collect_spec it rows fuel : it_rep it rows -> (length rows < fuel)%nat -> agg_collect fuel it = rows.
Proof.
  revert it rows. induction fuel as [|fuel IH]; intros it rows Hr Hf; [lia|]. cbn [agg_collect].
  pose proof (next_spec it rows Hr) as Hn. destruct (agg_next it) as [[row it']|]; [|done].
  destruct Hn as (rows' & Hr' & ->). f_equal. apply IH; [done|cbn in Hf; lia].
Qed.

(** The buckets the rows run over. *)
Definition first_row_bucket (k : Z) : Z :=
  match fill_start fill with Some qs => if re then Z.min (bucket_of d align qs) k else k | None => k end.
Definition last_row_bucket (k : Z) : Z :=
  match fill_end fill with Some qe => if re then Z.max (bucket_of d align qe) k else k | None => k end.

Lemma outside_none s inner j : time_ordered (s :: inner) ->
  j < bucket_of d align (timestamp s) \/ last_bucket (bucket_of d align (timestamp s)) inner < j -> in_bucket j (s :: inner) = [].
Proof.
  intros Ho Hj. apply in_bucket_none. inversion Ho as [|? ? Ho' Hs]; subst. set (k := bucket_of d align (timestamp s)) in *.
  assert (Forall (fun x => k <= bucket_of d align (timestamp x) <= last_bucket k inner) (s :: inner)) as Hall.
  { assert (Forall (fun x => k <= bucket_of d align (timestamp x)) inner) as Hge.
    { eapply Forall_impl; [exact Hs|]. intros x Hx. by apply bucket_of_mono. }
    constructor; [split; [done|by apply last_bucket_ge]|]. unfold last_bucket. destruct inner as [|y inner _] using rev_ind; [done|].
    rewrite last_snoc. apply time_ordered_app in Ho' as (_ & _ & Hy). apply Forall_app in Hge as [Hge Hgy].
    apply Forall_app. split; [|constructor; [split; [by apply Forall_cons in Hgy as [? _]|done]|done]].
    rewrite Forall_forall in Hge, Hy. apply Forall_forall. intros x Hx. split; [by apply Hge|].
    apply bucket_of_mono; [done|]. specialize (Hy x Hx). cbn beta in Hy. by apply Forall_cons in Hy as [? _]. }
  eapply Forall_impl; [exact Hall|]. cbn. lia.
Qed.

Lemma expected_uniform s inner : time_ordered (s :: inner) ->
  let k := bucket_of d align (timestamp s) in
  expected_rows (s :: inner) = rows_between (s :: inner) (first_row_bucket k) (last_row_bucket (last_bucket k inner)).
Proof.
  intros Ho k. cbn [expected_rows]. fold k. pose proof (outside_none s inner) as Hout. fold k in Hout.
  assert (k <= last_bucket k inner) as Hkl.
  { apply last_bucket_ge. inversion Ho as [|? ? _ Hs]; subst. eapply Forall_impl; [exact Hs|]. intros x Hx. by apply bucket_of_mono. }
  assert (first_row_bucket k <= k /\ leading k = rows_between (s :: inner) (first_row_bucket k) (k - 1)) as [Hf ->].
  { unfold first_row_bucket, leading. destruct (fill_start fill) as [qs|]; [|destruct re; by rewrite rows_between_none by lia].
    destruct re eqn:Hre; [|by rewrite rows_between_none by lia]. split; [lia|].
    rewrite (rows_between_empty _ _ _ Hre) by (intros j Hj; apply Hout; [done|lia]).
    destruct (Z.le_gt_cases (bucket_of d align qs) k); [f_equal; lia|]. rewrite !empties_nil by lia. done. }
  assert (last_bucket k inner <= last_row_bucket (last_bucket k inner) /\
    trailing (last_bucket k inner) = rows_between (s :: inner) (last_bucket k inner + 1) (last_row_bucket (last_bucket k inner))) as [Hl ->].
  { unfold last_row_bucket, trailing. destruct (fill_end fill) as [qe|]; [|destruct re; by rewrite rows_between_none by lia].
    destruct re eqn:Hre; [|by rewrite rows_between_none by lia]. split; [lia|].
    rewrite (rows_between_empty _ _ _ Hre) by (intros j Hj; apply Hout; [done|lia]).
    destruct (Z.le_gt_cases (last_bucket k inner) (bucket_of d align qe)); [f_equal; lia|]. rewrite !empties_nil by lia. done. }
  etrans; [|symmetry; apply (rows_between_app _ (first_row_bucket k) (k - 1)); lia]. rewrite Z.sub_add. f_equal.
  symmetry. apply rows_between_app; lia.
Qed.

(** Under EMPTY every bucket of the grid has its row. *)
Lemma rows_between_timestamps ss lo hi : re = true ->
  map ms_timestamp (rows_between ss lo hi) = map render (seqZ lo (hi - lo + 1)).
Proof.
  intros Hre. unfold rows_between. induction (seqZ lo (hi - lo + 1)) as [|k l IH]; [done|]. cbn [omap list_omap map].
  unfold bucket_row at 1. rewrite Hre, orb_true_r. cbn [map ms_timestamp]. f_equal. exact IH.
Qed.

End Rows.
