(* ===== verification/AggregateColumns.v ===== *)
(** * AggregateColumns: what one aggregator reports for a bucket

    A reference for the aggregators that select, count or test samples, as a
    function or a relation on the list of the samples of the bucket, and the
    proof that folding the updates over that list gives it. *)

From stdpp Require Import strings.
From S2P Require Import Prelude Float64 FloatBounds Types Content Rounding Aggregators AggregateIterator AggregateLaws.

(** ** One aggregator over a list of samples *)

Section Fold.

Context {A : Type} `{AggregatorLaws A}.

Definition feed_one (a : A) (s : Sample) : A := (agg_update a (timestamp s) (value s)).2.
Definition feed_all (a : A) (ss : list Sample) : A := fold_left feed_one ss a.

(** Some sample of the list was taken. *)
Fixpoint took (a : A) (ss : list Sample) : bool :=
  match ss with
  | [] => false
  | s :: ss => (agg_update a (timestamp s) (value s)).1 || took (feed_one a s) ss
  end.

Lemma feed_all_cons a s ss : feed_all a (s :: ss) = feed_all (feed_one a s) ss.
Proof. done. Qed.

Lemma reset_feed a ss : agg_reset (feed_all a ss) = agg_reset a.
Proof. revert a. induction ss as [|s ss IH]; intros a; [done|]. rewrite feed_all_cons, IH. apply reset_update. Qed.

Lemma feed_all_snoc a ss s : feed_all a (ss ++ [s]) = feed_one (feed_all a ss) s.
Proof. unfold feed_all. by rewrite fold_left_app. Qed.

Lemma took_snoc a ss s : took a (ss ++ [s]) = took a ss || (agg_update (feed_all a ss) (timestamp s) (value s)).1.
Proof.
  revert a. induction ss as [|x ss IH]; intros a; cbn [app took]; [by rewrite orb_false_r|].
  rewrite IH, orb_assoc. done.
Qed.

Lemma feed_all_empty a ss : agg_empty_value (feed_all a ss) = agg_empty_value a.
Proof. revert a. induction ss as [|s ss IH]; intros a; [done|]. cbn. unfold feed_all in IH. rewrite IH. apply empty_update. Qed.

Lemma bucket_state_columns bs ss :
  bucket_state bs ss = (map (fun a => feed_all a ss) bs, map (fun a => took a ss) bs).
Proof.
  induction ss as [|s ss IH] using rev_ind; [unfold bucket_state; cbn; by rewrite map_id|].
  rewrite bucket_state_snoc, IH. unfold feed. cbn [fst snd]. f_equal.
  - change (@fmap list _) with map. rewrite !map_map. apply map_ext. intros a. by rewrite feed_all_snoc.
  - change (@fmap list _) with map. rewrite !map_map. clear IH. induction bs as [|a bs IHb]; [done|].
    cbn [map zip_with]. f_equal; [by rewrite took_snoc|exact IHb].
Qed.

(** An aggregator with nothing to report while it takes no sample. *)
Definition quiet (a : A) : Prop := forall ss, took a ss = false -> agg_current (feed_all a ss) = None.

Definition column (a : A) (ss : list Sample) : f64 := default (agg_empty_value a) (agg_current (feed_all a ss)).

Lemma row_values_columns bs ss : Forall quiet bs -> row_values bs ss = map (fun a => column a ss) bs.
Proof.
  intros Hq. unfold row_values, accepted. rewrite bucket_state_columns. cbn [fst snd].
  destruct (existsb id (map (fun a => took a ss) bs)) eqn:E.
  - rewrite map_map. apply map_ext. intros a. unfold agg_finalize, column. cbn [fst].
    rewrite feed_all_empty. by destruct (agg_current _).
  - apply map_ext_in. intros a Ha. unfold column. rewrite Forall_forall in Hq.
    assert (took a ss = false) as Ht.
    { destruct (took a ss) eqn:Et; [|done]. rewrite <- E. symmetry. apply existsb_exists. exists true. split; [|done].
      apply in_map_iff. by exists a. }
    apply list_elem_of_In in Ha. by rewrite (Hq a Ha ss Ht).
Qed.

(** It is enough that a rejected sample leaves no trace on the fresh aggregator. *)
Lemma quiet_unchanged a :
  (forall s, (agg_update a (timestamp s) (value s)).1 = false -> feed_one a s = a) -> agg_current a = None -> quiet a.
Proof.
  intros Hu Hc ss. induction ss as [|s ss IH]; [done|]. cbn [took feed_all fold_left].
  intros [H1 H2]%orb_false_iff. rewrite (Hu s H1) in *. by apply IH.
Qed.

End Fold.

#[global] Arguments feed_all : simpl never.

(** The enum's updates are those of the variant inside. *)
Lemma feed_wrap {A B} `{AggregationHandler A} `{AggregationHandler B} (W : A -> B) a ss :
  (forall a ts v, agg_update (W a) ts v = let '(ok, b) := agg_update a ts v in (ok, W b)) ->
  feed_all (W a) ss = W (feed_all a ss).
Proof.
  intros Hw. revert a. induction ss as [|s ss IH]; intros a; [done|]. rewrite !feed_all_cons, <- IH. f_equal.
  unfold feed_one. rewrite Hw. by destruct (agg_update _ _ _).
Qed.

(** ** References *)

Definition numbers (ss : list Sample) : list f64 := List.filter (fun v => negb (f64_is_nan v)) (map value ss).
Definition matching (f : ValueComparisonFilter) (ss : list Sample) : list f64 := List.filter (vc_compare f) (map value ss).

Definition least (vs : list f64) (m : f64) : Prop := m ∈ vs /\ Forall (fun v => f64_le m v = true) vs.
Definition greatest (vs : list f64) (m : f64) : Prop := m ∈ vs /\ Forall (fun v => f64_le v m = true) vs.

Definition truth (b : bool) : f64 := if b then f64_one_value else f64_zero.
Definition when_some {B} (ss : list Sample) (r : B) : option B := match ss with [] => None | _ :: _ => Some r end.

Definition kahan_all (vs : list f64) : KahanSum := fold_left kahan_add vs kahan_new.

(** The aggregations with a reference: all but the moments and the rates. *)
Definition selective (t : AggregationType) : bool :=
  match t with
  | TyFirst | TyLast | TyMin | TyMax | TyRange | TyCount | TyCountAll | TyCountNan | TySum | TyAll | TyAny | TyNone
  | TyShare | TyCountIf | TySumIf => true
  | _ => false
  end.

(** [reports c ss r]: over the samples [ss], the aggregation [c] gives [r]. *)
Definition reports (c : AggregatorConfig) (ss : list Sample) (r : option f64) : Prop :=
  let f := default vc_default (value_filter c) in
  let nums := numbers ss in
  let matches := length (matching f ss) in
  let chosen := List.filter (vc_compare f) nums in
  let conditional vs := r = if decide (vs = []) then None else Some (kahan_value (kahan_all vs)) in
  match aggregation c, value_filter c with
  | TyFirst, _ => r = head nums
  | TyLast, _ => r = list.last nums
  | TyMin, _ => match r with None => nums = [] | Some m => least nums m end
  | TyMax, _ => match r with None => nums = [] | Some m => greatest nums m end
  | TyRange, _ =>
      match r with
      | None => nums = []
      | Some d => exists lo hi, least nums lo /\ greatest nums hi /\ d = f64_sub hi lo
      end
  | TyCount, None => r = count_value (Z.of_nat (length nums))
  | TyCountAll, _ => r = count_value (Z.of_nat (length ss))
  | TyCountNan, _ => r = count_value (Z.of_nat (length ss - length nums))
  | TySum, None => r = if kahan_is_empty (kahan_all nums) then None else Some (kahan_value (kahan_all nums))
  | TyAll, _ => r = when_some ss (truth (bool_decide (matches = length ss)))
  | TyAny, _ => r = when_some ss (truth (bool_decide (matches <> 0%nat)))
  | TyNone, _ => r = when_some ss (truth (bool_decide (matches = 0%nat)))
  | TyShare, _ => r = when_some ss (f64_div (f64_of_usize (Z.of_nat matches)) (f64_of_usize (Z.of_nat (length ss))))
  | (TyCountIf | TyCount), _ => conditional (map (fun _ => f64_one_value) chosen)
  | (TySumIf | TySum), _ => conditional chosen
  | _, _ => True
  end.

(** ** Each variant gives its reference *)

Lemma numbers_cons s ss : numbers (s :: ss) = if f64_is_nan (value s) then numbers ss else value s :: numbers ss.
Proof. unfold numbers. cbn. by destruct (f64_is_nan (value s)). Qed.

Lemma numbers_length ss : (length (numbers ss) <= length ss)%nat.
Proof. induction ss as [|s ss IH]; [done|]. rewrite numbers_cons. destruct (f64_is_nan _); cbn; lia. Qed.

(** One sample read. *)
Ltac feed_step := rewrite feed_all_cons; unfold feed_one; cbn [agg_update snd fst numbers].

Lemma first_feed ss o : first_0 (feed_all (mkFirst o) ss) = match o with Some v => Some v | None => head (numbers ss) end.
Proof.
  revert o. induction ss as [|s ss IH]; intros o; [by destruct o|]. feed_step. rewrite numbers_cons. cbn.
  destruct (f64_is_nan (value s)); [cbn; by rewrite IH|]. destruct o; cbn; by rewrite IH.
Qed.

Lemma last_feed ss o : last_current (feed_all (mkLast o) ss) = match list.last (numbers ss) with Some v => Some v | None => o end.
Proof.
  revert o. induction ss as [|s ss IH]; intros o; [done|]. feed_step. rewrite numbers_cons. cbn.
  destruct (f64_is_nan (value s)); cbn; rewrite IH; [done|]. rewrite last_cons. by destruct (list.last (numbers ss)).
Qed.

Lemma count_feed ss n : count_0 (feed_all (mkCount n) ss) = n + Z.of_nat (length (numbers ss)).
Proof.
  revert n. induction ss as [|s ss IH]; intros n; [unfold feed_all; cbn; lia|]. feed_step. rewrite numbers_cons. cbn.
  destruct (f64_is_nan (value s)); cbn; rewrite IH; lia.
Qed.

Lemma count_nan_feed ss n : count_nan_0 (feed_all (mkCountNan n) ss) = n + Z.of_nat (length ss - length (numbers ss)).
Proof.
  revert n. induction ss as [|s ss IH]; intros n; [unfold feed_all; cbn; lia|]. feed_step. pose proof (numbers_length ss). rewrite numbers_cons. cbn.
  destruct (f64_is_nan (value s)); cbn; rewrite IH; lia.
Qed.

Lemma count_all_feed ss n : count_all_0 (feed_all (mkCountAll n) ss) = n + Z.of_nat (length ss).
Proof. revert n. induction ss as [|s ss IH]; intros n; [unfold feed_all; cbn; lia|]. feed_step. cbn. rewrite IH. lia. Qed.

Lemma sum_feed ss k : sum_0 (feed_all (mkSum k) ss) = fold_left kahan_add (numbers ss) k.
Proof.
  revert k. induction ss as [|s ss IH]; intros k; [done|]. feed_step. rewrite numbers_cons. cbn.
  destruct (f64_is_nan (value s)); cbn; by rewrite IH.
Qed.

(** *** Extremes *)

Definition number (v : f64) : Prop := is_f64 v /\ f64_is_nan v = false.

Lemma numbers_ok ss : Forall sample_valid ss -> Forall number (numbers ss).
Proof.
  induction 1 as [|s ss Hs _ IH]; [constructor|]. rewrite numbers_cons. destruct (f64_is_nan (value s)) eqn:E; [done|].
  constructor; [|done]. split; [apply Hs|done].
Qed.

Lemma least_key vs m : Forall number vs -> m ∈ vs -> Forall (fun v => fkey m <= fkey v) vs -> least vs m.
Proof.
  intros Hv Hm Hle. split; [done|]. pose proof (proj1 (Forall_forall _ _) Hv m Hm) as [Hf Hn].
  apply Forall_forall. intros v Hin. rewrite Forall_forall in Hv, Hle. destruct (Hv v Hin).
  rewrite f64_le_key by done. apply Z.leb_le. by apply Hle.
Qed.

Lemma greatest_key vs m : Forall number vs -> m ∈ vs -> Forall (fun v => fkey v <= fkey m) vs -> greatest vs m.
Proof.
  intros Hv Hm Hle. split; [done|]. pose proof (proj1 (Forall_forall _ _) Hv m Hm) as [Hf Hn].
  apply Forall_forall. intros v Hin. rewrite Forall_forall in Hv, Hle. destruct (Hv v Hin).
  rewrite f64_le_key by done. apply Z.leb_le. by apply Hle.
Qed.

(** The smaller or the larger of two numbers is one of them. *)
Lemma min_num_spec a b : number a -> number b ->
  (f64_min_num a b = a \/ f64_min_num a b = b) /\ fkey (f64_min_num a b) = Z.min (fkey a) (fkey b).
Proof.
  intros [Ha Na] [Hb Nb]. unfold f64_min_num. rewrite Na, Nb. split; [|by apply f64_min_key].
  unfold f64_min. destruct (f64_lt b a); auto.
Qed.

Lemma max_num_spec a b : number a -> number b ->
  (f64_max_num a b = a \/ f64_max_num a b = b) /\ fkey (f64_max_num a b) = Z.max (fkey a) (fkey b).
Proof.
  intros [Ha Na] [Hb Nb]. unfold f64_max_num. rewrite Na, Nb. split; [|by apply f64_max_key].
  unfold f64_max. destruct (f64_lt a b); auto.
Qed.

Lemma fold_min_least vs m : number m -> Forall number vs -> least (m :: vs) (fold_left f64_min_num vs m).
Proof.
  intros Hm Hv. assert (fold_left f64_min_num vs m ∈ m :: vs /\ Forall (fun v => fkey (fold_left f64_min_num vs m) <= fkey v) (m :: vs))
    as [? ?]; [|apply least_key; [by constructor|done|done]].
  revert m Hm. induction Hv as [|v vs Hv _ IH]; intros m Hm; cbn [fold_left]; [split; [by constructor|by repeat constructor]|].
  destruct (min_num_spec m v Hm Hv) as [Hc Hk]. destruct (IH (f64_min_num m v)) as [Hin Hle]; [by destruct Hc as [-> | ->]|].
  split; [rewrite !elem_of_cons in *; destruct Hin as [E|E]; [rewrite E; destruct Hc; auto|auto]|]. apply Forall_cons in Hle as [Hl Hle].
  constructor; [lia|]. constructor; [lia|done].
Qed.

Lemma fold_max_greatest vs m : number m -> Forall number vs -> greatest (m :: vs) (fold_left f64_max_num vs m).
Proof.
  intros Hm Hv. assert (fold_left f64_max_num vs m ∈ m :: vs /\ Forall (fun v => fkey v <= fkey (fold_left f64_max_num vs m)) (m :: vs))
    as [? ?]; [|apply greatest_key; [by constructor|done|done]].
  revert m Hm. induction Hv as [|v vs Hv _ IH]; intros m Hm; cbn [fold_left]; [split; [by constructor|by repeat constructor]|].
  destruct (max_num_spec m v Hm Hv) as [Hc Hk]. destruct (IH (f64_max_num m v)) as [Hin Hle]; [by destruct Hc as [-> | ->]|].
  split; [rewrite !elem_of_cons in *; destruct Hin as [E|E]; [rewrite E; destruct Hc; auto|auto]|]. apply Forall_cons in Hle as [Hl Hle].
  constructor; [lia|]. constructor; [lia|done].
Qed.

Definition fold_some (f : f64 -> f64 -> f64) (o : option f64) (vs : list f64) : option f64 :=
  match o, vs with
  | Some m, _ => Some (fold_left f vs m)
  | None, [] => None
  | None, v :: vs => Some (fold_left f vs v)
  end.

Lemma min_feed ss o : min_0 (feed_all (mkMin o) ss) = fold_some f64_min_num o (numbers ss).
Proof.
  revert o. induction ss as [|s ss IH]; intros o; [by destruct o|]. feed_step. rewrite numbers_cons. cbn.
  destruct (f64_is_nan (value s)); cbn; rewrite IH; by destruct o.
Qed.

Lemma max_feed ss o : max_0 (feed_all (mkMax o) ss) = fold_some f64_max_num o (numbers ss).
Proof.
  revert o. induction ss as [|s ss IH]; intros o; [by destruct o|]. feed_step. rewrite numbers_cons. cbn.
  destruct (f64_is_nan (value s)); cbn; rewrite IH; by destruct o.
Qed.

Lemma range_feed ss lo hi : feed_all (mkRange lo hi true) ss =
  mkRange (fold_left f64_min_num (numbers ss) lo) (fold_left f64_max_num (numbers ss) hi) true.
Proof.
  revert lo hi. induction ss as [|s ss IH]; intros lo hi; [done|]. feed_step. rewrite numbers_cons. cbn.
  destruct (f64_is_nan (value s)); cbn; by rewrite IH.
Qed.

Lemma range_feed_fresh ss : feed_all agg_default ss =
  match numbers ss with
  | [] => agg_default
  | v :: vs => mkRange (fold_left f64_min_num vs v) (fold_left f64_max_num vs v) true
  end.
Proof.
  induction ss as [|s ss IH]; [done|]. feed_step. rewrite numbers_cons. cbn.
  destruct (f64_is_nan (value s)); cbn; [exact IH|apply range_feed].
Qed.

(** *** Conditions *)

Lemma matching_cons f s ss : matching f (s :: ss) = if vc_compare f (value s) then value s :: matching f ss else matching f ss.
Proof. done. Qed.

Lemma matching_length f ss : (length (matching f ss) <= length ss)%nat.
Proof. induction ss as [|s ss IH]; [done|]. rewrite matching_cons. destruct (vc_compare _ _); cbn; lia. Qed.

Lemma all_matching f ss : forallb (fun s => vc_compare f (value s)) ss = bool_decide (length (matching f ss) = length ss).
Proof.
  induction ss as [|s ss IH]; [done|]. cbn [forallb]. rewrite matching_cons, IH. pose proof (matching_length f ss).
  destruct (vc_compare _ _); cbn; symmetry; [apply bool_decide_ext; lia|apply bool_decide_eq_false; lia].
Qed.

Lemma none_matching f ss : forallb (fun s => negb (vc_compare f (value s))) ss = bool_decide (length (matching f ss) = 0%nat).
Proof.
  induction ss as [|s ss IH]; [done|]. cbn [forallb]. rewrite matching_cons, IH.
  destruct (vc_compare _ _); cbn; [symmetry; apply bool_decide_eq_false; lia|done].
Qed.

Lemma any_matching f ss : existsb (fun s => vc_compare f (value s)) ss = bool_decide (length (matching f ss) <> 0%nat).
Proof.
  induction ss as [|s ss IH]; [done|]. cbn [existsb]. rewrite matching_cons, IH.
  destruct (vc_compare _ _); cbn; [symmetry; apply bool_decide_eq_true; lia|done].
Qed.

Lemma all_feed f ss o : an_matches (all_0 (feed_all (mkAll (mkAllNone o f)) ss)) =
  match ss with [] => o | _ => Some (default true o && forallb (fun s => vc_compare f (value s)) ss) end.
Proof.
  revert o. induction ss as [|s ss IH]; intros o; [done|]. feed_step. cbn.
  destruct o as [[]|]; cbn; rewrite IH; destruct ss, (vc_compare f (value s)); done.
Qed.

Lemma none_feed f ss o : an_matches (none_0 (feed_all (mkNone (mkAllNone o f)) ss)) =
  match ss with [] => o | _ => Some (default true o && forallb (fun s => negb (vc_compare f (value s))) ss) end.
Proof.
  revert o. induction ss as [|s ss IH]; intros o; [done|]. feed_step. cbn.
  destruct o as [[]|]; cbn; rewrite IH; destruct ss, (vc_compare f (value s)); done.
Qed.

Lemma any_feed f ss o : an_matches (any_0 (feed_all (mkAny (mkAllNone o f)) ss)) =
  match ss with [] => o | _ => Some (default false o || existsb (fun s => vc_compare f (value s)) ss) end.
Proof.
  revert o. induction ss as [|s ss IH]; intros o; [done|]. feed_step. cbn.
  destruct o as [[]|]; cbn; rewrite IH; destruct ss, (vc_compare f (value s)); done.
Qed.

Lemma share_feed f ss n m : 0 <= m <= n -> n + Z.of_nat (length ss) < 2 ^ 64 ->
  feed_all (mkShare n m f) ss = mkShare (n + Z.of_nat (length ss)) (m + Z.of_nat (length (matching f ss))) f.
Proof.
  revert n m. induction ss as [|s ss IH]; intros n m Hm Hn; [unfold feed_all; cbn; by rewrite !Z.add_0_r|]. feed_step. rewrite matching_cons.
  cbn [length] in Hn. cbn [agg_update Share_handler share_count share_match_count share_filter snd fst]. unfold sat_usize_add. rewrite !Z.min_r by lia.
  destruct (vc_compare f (value s)); cbn; rewrite IH by lia; f_equal; lia.
Qed.

Lemma chosen_cons f s ss : List.filter (vc_compare f) (numbers (s :: ss)) =
  if negb (f64_is_nan (value s)) && vc_compare f (value s) then value s :: List.filter (vc_compare f) (numbers ss)
  else List.filter (vc_compare f) (numbers ss).
Proof. rewrite numbers_cons. destruct (f64_is_nan _); [done|]. cbn. by destruct (vc_compare _ _). Qed.

Definition nonempty {B} (l : list B) : bool := match l with [] => false | _ => true end.

Lemma count_if_feed f ss h k : feed_all (mkCountIf (mkConditional h k f)) ss =
  mkCountIf (mkConditional (h || nonempty (List.filter (vc_compare f) (numbers ss)))
    (fold_left kahan_add (map (fun _ => f64_one_value) (List.filter (vc_compare f) (numbers ss))) k) f).
Proof.
  revert h k. induction ss as [|s ss IH]; intros h k; [unfold feed_all; cbn; by rewrite orb_false_r|]. feed_step. rewrite chosen_cons.
  cbn. unfold update_count. cbn. destruct (f64_is_nan (value s)); cbn; [by rewrite IH|].
  destruct (vc_compare f (value s)); cbn; rewrite IH; [|done]. by rewrite orb_true_r.
Qed.

Lemma sum_if_feed f ss h k : feed_all (mkSumIf (mkConditional h k f)) ss =
  mkSumIf (mkConditional (h || nonempty (List.filter (vc_compare f) (numbers ss)))
    (fold_left kahan_add (List.filter (vc_compare f) (numbers ss)) k) f).
Proof.
  revert h k. induction ss as [|s ss IH]; intros h k; [unfold feed_all; cbn; by rewrite orb_false_r|]. feed_step. rewrite chosen_cons.
  cbn. unfold update_sum. cbn. destruct (f64_is_nan (value s)); cbn; [by rewrite IH|].
  destruct (vc_compare f (value s)); cbn; rewrite IH; [|done]. by rewrite orb_true_r.
Qed.

(** ** The enum *)

#[local] Arguments vc_compare : simpl never.

Lemma create_current c d : agg_current (with_window d (create_aggregator c)) = None.
Proof. destruct c as [t [f|]], t; reflexivity. Qed.

Lemma create_reset c d : agg_reset (with_window d (create_aggregator c)) = with_window d (create_aggregator c).
Proof. destruct c as [t [f|]], t; reflexivity. Qed.

Lemma create_quiet c d : quiet (with_window d (create_aggregator c)).
Proof.
  apply quiet_unchanged; [|apply create_current]. intros s. unfold feed_one.
  destruct c as [t [f|]], t; cbn; unfold counter_update, update_irate, std_add, update_sum, update_count; cbn;
    destruct (f64_is_nan (value s)); cbn; try destruct (vc_compare _ _); done.
Qed.

Lemma conditional_reports f (vs : list f64) k : conditional_current (mkConditional (false || nonempty vs) k f) =
  if decide (vs = []) then None else Some (kahan_value k).
Proof. destruct vs; [done|]. destruct (decide _); done. Qed.

Lemma fold_some_extreme (R : list f64 -> f64 -> Prop) f vs :
  (forall vs v, number v -> Forall number vs -> R (v :: vs) (fold_left f vs v)) -> Forall number vs ->
  match fold_some f None vs with None => vs = [] | Some m => R vs m end.
Proof. intros Hf Hv. destruct vs as [|v vs]; [done|]. apply Forall_cons in Hv as [Hv Hvs]. by apply Hf. Qed.

Lemma range_reports ss : Forall sample_valid ss ->
  match agg_current (feed_all (agg_default (A := RangeAggregator)) ss) with
  | None => numbers ss = []
  | Some d => exists lo hi, least (numbers ss) lo /\ greatest (numbers ss) hi /\ d = f64_sub hi lo
  end.
Proof.
  intros Hv%numbers_ok. rewrite range_feed_fresh. destruct (numbers ss) as [|v vs]; [done|]. apply Forall_cons in Hv as [Hv Hvs].
  cbn. exists (fold_left f64_min_num vs v), (fold_left f64_max_num vs v).
  split_and!; [by apply fold_min_least|by apply fold_max_greatest|done].
Qed.

Lemma all_none_reports ss (o : option bool) b :
  o = match ss with [] => None | _ => Some b end ->
  match o with Some true => Some f64_one_value | Some false => Some f64_zero | None => None end = when_some ss (truth b).
Proof. intros ->. destruct ss; [done|]. by destruct b. Qed.

Lemma share_reports f ss : Z.of_nat (length ss) < 2 ^ 64 ->
  agg_current (feed_all (mkShare 0 0 f) ss) =
  when_some ss (f64_div (f64_of_usize (Z.of_nat (length (matching f ss)))) (f64_of_usize (Z.of_nat (length ss)))).
Proof.
  intros Hl. rewrite share_feed by lia. cbn [agg_current Share_handler share_count share_match_count]. unfold share.
  cbn [share_count share_match_count]. rewrite !Z.add_0_l. destruct ss as [|s ss]; [done|].
  destruct (Z.ltb_spec 0 (Z.of_nat (length (s :: ss)))) as [_|Hc]; [|cbn in Hc; lia].
  destruct (Z.eqb_spec (Z.of_nat (length (s :: ss))) 0) as [Hc|_]; [cbn in Hc; lia|done].
Qed.

Lemma all_reports f ss : agg_current (feed_all (mkAll (mkAllNone None f)) ss) =
  when_some ss (truth (bool_decide (length (matching f ss) = length ss))).
Proof. apply all_none_reports. rewrite all_feed, all_matching. by destruct ss. Qed.

Lemma none_reports f ss : agg_current (feed_all (mkNone (mkAllNone None f)) ss) =
  when_some ss (truth (bool_decide (length (matching f ss) = 0%nat))).
Proof. apply all_none_reports. rewrite none_feed, none_matching. by destruct ss. Qed.

Lemma any_reports f ss : agg_current (feed_all (mkAny (mkAllNone None f)) ss) =
  when_some ss (truth (bool_decide (length (matching f ss) <> 0%nat))).
Proof. apply all_none_reports. rewrite any_feed, any_matching. by destruct ss. Qed.

Lemma count_if_reports f ss : let vs := map (fun _ => f64_one_value) (List.filter (vc_compare f) (numbers ss)) in
  agg_current (feed_all (mkCountIf (mkConditional false kahan_new f)) ss) =
  if decide (vs = []) then None else Some (kahan_value (kahan_all vs)).
Proof.
  cbn zeta. rewrite count_if_feed. cbn [agg_current CountIf_handler count_if_0]. unfold kahan_all.
  destruct (List.filter _ _); [done|]. cbn [map]. by destruct (decide _).
Qed.

Lemma sum_if_reports f ss : let vs := List.filter (vc_compare f) (numbers ss) in
  agg_current (feed_all (mkSumIf (mkConditional false kahan_new f)) ss) =
  if decide (vs = []) then None else Some (kahan_value (kahan_all vs)).
Proof. cbn zeta. rewrite sum_if_feed. cbn [agg_current SumIf_handler sum_if_0]. apply conditional_reports. Qed.

Lemma sum_reports ss : agg_current (feed_all (agg_default (A := SumAggregator)) ss) =
  if kahan_is_empty (kahan_all (numbers ss)) then None else Some (kahan_value (kahan_all (numbers ss))).
Proof. cbn [agg_current agg_default Sum_handler]. by rewrite sum_feed. Qed.

Lemma min_reports ss : Forall number (numbers ss) ->
  match agg_current (feed_all (agg_default (A := MinAggregator)) ss) with None => numbers ss = [] | Some m => least (numbers ss) m end.
Proof. intros Hn. cbn [agg_current agg_default Min_handler]. rewrite min_feed. apply (fold_some_extreme least); [apply fold_min_least|done]. Qed.

Lemma max_reports ss : Forall number (numbers ss) ->
  match agg_current (feed_all (agg_default (A := MaxAggregator)) ss) with None => numbers ss = [] | Some m => greatest (numbers ss) m end.
Proof. intros Hn. cbn [agg_current agg_default Max_handler]. rewrite max_feed. apply (fold_some_extreme greatest); [apply fold_max_greatest|done]. Qed.

Lemma create_reports c d ss : selective (aggregation c) = true -> Forall sample_valid ss -> (aggregation c = TyShare -> Z.of_nat (length ss) < 2 ^ 64) ->
  reports c ss (agg_current (feed_all (with_window d (create_aggregator c)) ss)).
Proof.
  intros Hs Hv Hl. pose proof (numbers_ok ss Hv) as Hn.
  destruct c as [t [[op v]|]], t; try done; unfold reports; cbn [aggregation value_filter default create_aggregator with_window aggregator_from];
    rewrite feed_wrap by done; cbn [agg_current Aggregator_handler agg_dispatch].
  all: first [ by apply all_reports | by apply none_reports | by apply any_reports | apply share_reports; by apply Hl
             | by apply count_if_reports | by apply sum_if_reports | by apply sum_reports | by apply min_reports
             | by apply max_reports | by apply range_reports
             | cbn [agg_current First_handler Last_handler Count_handler CountNan_handler CountAll_handler agg_default];
               rewrite ?first_feed, ?count_feed, ?count_nan_feed, ?count_all_feed; done
             | cbn [agg_current Last_handler agg_default]; rewrite last_feed; by destruct (list.last (numbers ss)) ].
Qed.
