(* ===== verification/AggregateProps.v ===== *)
(** * AggregateProps: the properties of bucketed aggregation

    The rows an aggregation query yields are those of a uniform grid of
    buckets, every sample is in one of them, and each column is the reference
    of its aggregator over the samples of the bucket. *)

From stdpp Require Import strings.
From S2P Require Import Prelude Float64 Types Content Rounding Aggregators AggregateIterator AggregateLaws AggregateColumns.

(** ** Queries *)

Definition query_aggregators (o : AggregationOptions) : list Aggregator :=
  map (with_window (bucket_duration o)) (create_aggregators o).

Lemma query_reset o : map agg_reset (query_aggregators o) = query_aggregators o.
Proof. unfold query_aggregators, create_aggregators. rewrite !map_map. apply map_ext. intros c. apply create_reset. Qed.

Lemma query_quiet o : Forall quiet (query_aggregators o).
Proof.
  unfold query_aggregators, create_aggregators. rewrite map_map. apply Forall_forall. intros a Ha.
  apply list_elem_of_In, in_map_iff in Ha as (c & <- & _). apply create_quiet.
Qed.

(** Samples in time order, timestamps and bucket lengths far from the end of
    the 64-bit range, and buckets of at least 2 ms where empty ones are
    reported. *)
Record query_ok (o : AggregationOptions) (align : Timestamp) (fill : EmptyFillBounds) (ss : list Sample) : Prop := {
  q_grid : grid_ok (bucket_duration o) align;
  q_wide : report_empty o = true -> 2 <= bucket_duration o;
  q_fill : (forall qs, fill_start fill = Some qs -> near qs) /\ (forall qe, fill_end fill = Some qe -> near qe);
  q_order : time_ordered ss;
  q_near : Forall (fun s => near (timestamp s)) ss;
}.

(** The first and the last bucket of the rows. *)
Definition row_span (o : AggregationOptions) (align : Timestamp) (fill : EmptyFillBounds) (ss : list Sample) : option (Z * Z) :=
  let d := bucket_duration o in
  match ss with
  | s :: inner =>
      let k := bucket_of d align (timestamp s) in
      Some (first_row_bucket d align (report_empty o) fill k, last_row_bucket d align (report_empty o) fill (last_bucket d align k inner))
  | [] =>
      match report_empty o, fill_start fill, fill_end fill with
      | true, Some qs, Some qe => Some (bucket_of d align qs, bucket_of d align qe)
      | _, _, _ => None
      end
  end.

(** The row of every bucket of the span that is reported. *)
Definition query_rows (o : AggregationOptions) (align : Timestamp) (fill : EmptyFillBounds) (ss : list Sample) : list MultiSample :=
  match row_span o align fill ss with
  | Some (lo, hi) =>
      rows_between (bucket_duration o) align (timestamp_output o) (report_empty o) (query_aggregators o) ss lo hi
  | None => []
  end.

Lemma expected_query o align fill ss : query_ok o align fill ss ->
  expected_rows (bucket_duration o) align (timestamp_output o) (report_empty o) (query_aggregators o) fill ss =
  query_rows o align fill ss.
Proof.
  intros [Hg Hw Hf Ho Hn]. unfold query_rows, row_span. destruct ss as [|s inner]; [|by apply expected_uniform].
  cbn [expected_rows]. unfold gap_only. destruct (report_empty o) eqn:Hre; [|done].
  destruct (fill_start fill) as [qs|]; [|done]. destruct (fill_end fill) as [qe|]; [|done].
  rewrite rows_between_empty by done. f_equal. lia.
Qed.

Lemma omap_length_le {B C} (f : B -> option C) l : (length (omap f l) <= length l)%nat.
Proof. induction l as [|x l IH]; [done|]. cbn. destruct (f x); cbn; lia. Qed.

Lemma collect_query o align fill ss fuel : query_ok o align fill ss -> (length (query_rows o align fill ss) < fuel)%nat ->
  agg_collect fuel (with_empty_fill ss o align fill) = query_rows o align fill ss.
Proof.
  intros Hq Hf. destruct (Hq) as [Hg Hw Hfl Ho Hn].
  apply (collect_spec (bucket_duration o) align (timestamp_output o) (report_empty o) (query_aggregators o) Hg (query_reset o) Hw fill Hfl);
    [|done]. rewrite <- expected_query by done. by apply rep_new.
Qed.

(** ** The buckets partition the samples *)

Lemma time_ordered_cons s ss : time_ordered (s :: ss) -> time_ordered ss /\ Forall (fun x => timestamp s <= timestamp x) ss.
Proof. intros Ho. by inversion Ho. Qed.

Lemma bucket_split d align k ss : grid_ok d align -> time_ordered ss -> Forall (fun s => k <= bucket_of d align (timestamp s)) ss ->
  exists rest, ss = in_bucket d align k ss ++ rest /\ time_ordered rest /\ Forall (fun s => k + 1 <= bucket_of d align (timestamp s)) rest.
Proof.
  intros Hg. induction ss as [|s ss IH]; [exists []; split_and!; [done|constructor|constructor]|].
  intros [Ho Hs]%time_ordered_cons [Hk Hks]%Forall_cons. cbn [in_bucket List.filter].
  destruct (Z.eqb_spec (bucket_of d align (timestamp s)) k) as [Ek|Ek].
  - destruct (IH Ho Hks) as (rest & Er & Hr1 & Hr2). exists rest. split_and!; [|done|done].
    cbn [app]. f_equal. exact Er.
  - assert (Forall (fun x => k + 1 <= bucket_of d align (timestamp x)) ss) as Hgt.
    { eapply Forall_impl; [exact Hs|]. intros x Hx. cbn beta in Hx.
      pose proof (bucket_of_mono d align Hg _ _ Hx). lia. }
    exists (s :: ss). assert (in_bucket d align k ss = []) as E.
    { apply in_bucket_none. eapply Forall_impl; [exact Hgt|]. cbn. lia. }
    unfold in_bucket in E. rewrite E. split_and!; [done|by constructor|constructor; [lia|done]].
Qed.

Lemma buckets_partition d align n : grid_ok d align -> forall lo ss, time_ordered ss ->
  Forall (fun s => lo <= bucket_of d align (timestamp s) < lo + Z.of_nat n) ss ->
  concat (map (fun k => in_bucket d align k ss) (seqZ lo (Z.of_nat n))) = ss.
Proof.
  intros Hg. induction n as [|n IH]; intros lo ss Ho Hb.
  { destruct ss as [|s ss]; [done|]. apply Forall_cons in Hb as [Hb _]. lia. }
  rewrite seqZ_cons by lia. cbn [map concat]. replace (Z.pred (Z.of_nat (S n))) with (Z.of_nat n) by lia. rewrite <- Z.add_1_r.
  destruct (bucket_split d align lo ss Hg Ho) as (rest & Er & Hro & Hrk); [eapply Forall_impl; [exact Hb|cbn; lia]|].
  etrans; [|symmetry; exact Er]. f_equal. etrans; [|apply (IH (lo + 1) rest); [done|]].
  - f_equal. apply map_ext_in. intros k Hk%list_elem_of_In%elem_of_seqZ. rewrite Er at 1. rewrite in_bucket_app.
    rewrite (in_bucket_none d align k (in_bucket d align lo ss)); [done|]. apply Forall_forall. intros s Hs%list_elem_of_In.
    apply filter_In in Hs as [_ Hs%Z.eqb_eq]. lia.
  - rewrite Er in Hb. apply Forall_app in Hb as [_ Hb]. apply Forall_forall. intros s Hs.
    rewrite Forall_forall in Hb, Hrk. specialize (Hb s Hs). specialize (Hrk s Hs). cbn beta in *. lia.
Qed.

Lemma span_covers o align fill ss lo hi : query_ok o align fill ss -> ss <> [] -> row_span o align fill ss = Some (lo, hi) ->
  Forall (fun s => lo <= bucket_of (bucket_duration o) align (timestamp s) <= hi) ss.
Proof.
  intros [Hg _ _ Ho _] Hne. destruct ss as [|s inner]; [done|]. unfold row_span. intros [= <- <-].
  set (d := bucket_duration o) in *. set (k := bucket_of d align (timestamp s)).
  apply Forall_forall. intros x Hx.
  assert (k <= bucket_of d align (timestamp x) <= last_bucket d align k inner) as Hk.
  { destruct (Z.lt_ge_cases (bucket_of d align (timestamp x)) k) as [Hlt|Hge1];
      [|destruct (Z.lt_ge_cases (last_bucket d align k inner) (bucket_of d align (timestamp x))) as [Hlt|Hge2]; [|lia]].
    all: pose proof (outside_none d align Hg s inner (bucket_of d align (timestamp x)) Ho) as Hnone; fold k in Hnone.
    all: exfalso; assert (x ∈ in_bucket d align (bucket_of d align (timestamp x)) (s :: inner)) as Hin.
    1, 3: apply list_elem_of_In, filter_In; split; [by apply list_elem_of_In|by apply Z.eqb_eq].
    all: rewrite Hnone in Hin by lia; by apply elem_of_nil in Hin. }
  unfold first_row_bucket, last_row_bucket.
  destruct (fill_start fill), (fill_end fill), (report_empty o); lia.
Qed.

(** ** Properties *)

(** C8. The rows of an aggregation query are those of a uniform grid of buckets, in
    order: each bucket that took a sample, and each one of the span where empty
    buckets are reported.  The buckets of the span partition the samples: none is
    lost, duplicated or put in two rows.  Where empty buckets are reported a bucket
    lasts at least 2 ms (with 1 ms the first bucket of a gap is lost,
    [empty_gap_lost]); timestamps, alignment and bucket length are at most 2^60 in
    magnitude. *)
Theorem aggregate_rows_exact (o : AggregationOptions) (align : Timestamp) (fill : EmptyFillBounds) (ss : list Sample) (fuel : nat) :
  query_ok o align fill ss -> (length (query_rows o align fill ss) < fuel)%nat ->
  agg_collect fuel (with_empty_fill ss o align fill) = query_rows o align fill ss /\
  forall lo hi, row_span o align fill ss = Some (lo, hi) ->
    concat (map (fun k => in_bucket (bucket_duration o) align k ss) (seqZ lo (hi - lo + 1))) = ss.
Proof.
  intros Hq Hf. split; [by apply collect_query|]. intros lo hi Hs. destruct (decide (ss = [])) as [->|Hne].
  { clear. induction (seqZ lo (hi - lo + 1)); done. }
  pose proof (span_covers _ _ _ _ _ _ Hq Hne Hs) as Hc. destruct (Hq) as [Hg _ _ Ho _].
  assert (lo <= hi + 1) as Hlh by (destruct ss; [done|]; apply Forall_cons in Hc as [? _]; lia).
  rewrite <- (Z2Nat.id (hi - lo + 1)) by lia. apply buckets_partition; [done|done|].
  eapply Forall_impl; [exact Hc|]. cbn. intros s. rewrite Z2Nat.id by lia. lia.
Qed.

(** With EMPTY the timestamps of the rows are the rendered starts of all the
    buckets of the span, consecutive and without a gap, whatever the samples. *)
Theorem aggregate_empty_complete (o : AggregationOptions) (align : Timestamp) (fill : EmptyFillBounds) (ss : list Sample) (fuel : nat)
    (lo hi : Z) :
  query_ok o align fill ss -> report_empty o = true -> row_span o align fill ss = Some (lo, hi) -> (Z.to_nat (hi - lo + 1) < fuel)%nat ->
  map ms_timestamp (agg_collect fuel (with_empty_fill ss o align fill)) =
  map (fun k => bt_calculate (timestamp_output o) (Z.max (align + bucket_duration o * k) 0) (bucket_duration o)) (seqZ lo (hi - lo + 1)).
Proof.
  intros Hq Hre Hs Hf. assert (map ms_timestamp (query_rows o align fill ss) =
    map (fun k => bt_calculate (timestamp_output o) (Z.max (align + bucket_duration o * k) 0) (bucket_duration o)) (seqZ lo (hi - lo + 1))) as E.
  { unfold query_rows. rewrite Hs. by apply rows_between_timestamps. }
  rewrite collect_query; [done|done|]. rewrite <- (length_map ms_timestamp), E, length_map, length_seqZ. lia.
Qed.

(** What a column of the row of a bucket with the samples [ss] holds. *)
Definition column_ok (ss : list Sample) (c : AggregatorConfig) (v : f64) : Prop :=
  exists r, reports c ss r /\ v = default (agg_empty_value (create_aggregator c)) r.

Lemma query_columns o ss : Forall (fun c => selective (aggregation c) = true) (aggregations o) -> Forall sample_valid ss ->
  Z.of_nat (length ss) < 2 ^ 64 -> Forall2 (column_ok ss) (aggregations o) (row_values (query_aggregators o) ss).
Proof.
  intros Hs Hv Hl. rewrite row_values_columns by apply query_quiet. unfold query_aggregators, create_aggregators.
  rewrite !map_map. induction Hs as [|c cs Hc _ IH]; cbn [map]; constructor; [|done].
  exists (agg_current (feed_all (with_window (bucket_duration o) (create_aggregator c)) ss)).
  split; [apply create_reports; [done|done|by intros _]|]. unfold column. f_equal. by destruct c as [[] [f|]].
Qed.

(** C9. Each column of each row is what its aggregator means over the samples of
    the bucket: the first, last, least or greatest number, the count of the
    numbers, of the NaNs or of all samples, the truth of the condition, or the
    compensated sum; a bucket with nothing to report gives the aggregator's
    empty value. *)
Theorem aggregate_columns_exact (o : AggregationOptions) (align : Timestamp) (fill : EmptyFillBounds) (ss : list Sample) (fuel : nat) :
  query_ok o align fill ss -> (length (query_rows o align fill ss) < fuel)%nat ->
  Forall sample_valid ss -> Z.of_nat (length ss) < 2 ^ 64 -> Forall (fun c => selective (aggregation c) = true) (aggregations o) ->
  Forall (fun row => exists k, ms_timestamp row = render (bucket_duration o) align (timestamp_output o) k /\
      Forall2 (column_ok (in_bucket (bucket_duration o) align k ss)) (aggregations o) (ms_values row))
    (agg_collect fuel (with_empty_fill ss o align fill)).
Proof.
  intros Hq Hf Hv Hl Hs. rewrite collect_query by done. unfold query_rows. destruct (row_span o align fill ss) as [[lo hi]|]; [|constructor].
  apply Forall_forall. intros row (k & _ & Hrow)%list_elem_of_omap. unfold bucket_row in Hrow.
  destruct (_ || _); [|done]. injection Hrow as <-. exists k. split; [done|]. cbn [ms_values].
  apply query_columns; [done|..].
  - apply Forall_forall. intros s [Hin _]%list_elem_of_In%filter_In. rewrite Forall_forall in Hv. by apply Hv, list_elem_of_In.
  - unfold in_bucket. pose proof (filter_length_le (fun s => bucket_of (bucket_duration o) align (timestamp s) =? k) ss). lia.
Qed.

(** ** Concrete queries *)

Definition config (t : AggregationType) : AggregatorConfig := mkAggregatorConfig t None.

Definition sample_query (d : Z) : AggregationOptions :=
  mkAggregationOptions [config TyFirst; config TyMax; config TyCount] d BucketStart AlignDefault true.

Definition sample_run : list Sample := map (fun t => mkSample t (f64_of_usize (100 - t))) [3; 7; 8; 31].
Definition sample_fill : EmptyFillBounds := mkEmptyFillBounds (Some (-4)) (Some 52) f64_NAN.

Lemma sample_query_ok : query_ok (sample_query 10) 0 sample_fill sample_run.
Proof.
  split; [unfold grid_ok, near, TIME_BOUND; cbn; lia|cbn; lia| | |].
  - split; intros q [= <-]; unfold near, TIME_BOUND; lia.
  - repeat constructor; cbn; lia.
  - repeat constructor; unfold near, TIME_BOUND; cbn; lia.
Qed.

Lemma aggregate_rows_exact_witness :
  agg_collect 10 (with_empty_fill sample_run (sample_query 10) 0 sample_fill) = query_rows (sample_query 10) 0 sample_fill sample_run.
Proof. apply (aggregate_rows_exact (sample_query 10) 0 sample_fill sample_run 10 sample_query_ok). vm_compute. lia. Defined.

Lemma aggregate_empty_complete_witness :
  map ms_timestamp (agg_collect 10 (with_empty_fill sample_run (sample_query 10) 0 sample_fill)) = [0; 0; 10; 20; 30; 40; 50].
Proof.
  rewrite (aggregate_empty_complete (sample_query 10) 0 sample_fill sample_run 10 (-1) 5 sample_query_ok eq_refl eq_refl); [reflexivity|].
  vm_compute. lia.
Defined.

Lemma aggregate_columns_exact_witness : exists rows,
  agg_collect 10 (with_empty_fill sample_run (sample_query 10) 0 sample_fill) = rows /\ length rows = 7%nat /\
  Forall (fun row => length (ms_values row) = 3%nat) rows.
Proof.
  eexists. split; [reflexivity|]. split; [vm_compute; reflexivity|].
  eapply Forall_impl; [apply (aggregate_columns_exact (sample_query 10) 0 sample_fill sample_run 10 sample_query_ok)|].
  - vm_compute. lia.
  - repeat constructor; vm_compute; try discriminate.
  - reflexivity.
  - repeat constructor.
  - intros row (k & _ & Hf). cbn beta. by rewrite <- (Forall2_length _ _ _ Hf).
Defined.

(** With EMPTY and buckets of one millisecond, the first bucket of every gap
    has no row: the search for the gap starts one past the end of the bucket
    that was closed, which is already inside the second bucket of the gap.  The
    buckets at 1 and at 4 are missing between samples at 0, 3 and 9. *)
Theorem empty_gap_lost :
  map ms_timestamp (agg_collect 20 (with_empty_fill (map (fun t => mkSample t f64_zero) [0; 3; 9])
    (mkAggregationOptions [config TyCount] 1 BucketStart AlignDefault true) 0 no_fill)) = [0; 2; 3; 5; 6; 7; 8; 9].
Proof. vm_compute. reflexivity. Qed.
