(* ===== verification/TimestampRange.v ===== *)
(** * TimestampRange: the window of a query

    Models [src/series/timestamp_range.rs]: bounds given as a timestamp, as an
    end of the series or relative to the clock, and how a window resolves.
    Every reading of the clock is an argument: two bounds read it twice.  The
    parsing and printing of bounds is not modelled. *)

From S2P Require Import Prelude Float64 Types Rounding TimeSeries.

Definition MAX_TIMESTAMP : Timestamp := 2 ^ 63 - 1.

Record DateRange := mkDateRange { dr_start : Timestamp; dr_end : Timestamp }.

Definition dr_default : DateRange := mkDateRange 0 MAX_TIMESTAMP.

Inductive TimestampValue :=
| Earliest
| Latest
| Now
| Specific (ts : Timestamp)
| Relative (delta : Z).

#[export] Instance TimestampValue_eq_dec : EqDecision TimestampValue.
Proof. solve_decision. Defined.

(** [current_time_millis] is the reading of the clock, used where no [now] is
    given. *)
Definition as_timestamp (v : TimestampValue) (now : option Timestamp) (current_time_millis : Timestamp) : Timestamp :=
  match v with
  | Earliest => 0
  | Latest => MAX_TIMESTAMP
  | Now => default current_time_millis now
  | Specific ts => ts
  | Relative delta => sat_i64 (default current_time_millis now + delta)
  end.

Definition as_series_timestamp (v : TimestampValue) (t : TimeSeries) (now : option Timestamp) (current_time_millis : Timestamp)
    : Timestamp :=
  match v with
  | Earliest => get_min_timestamp t
  | Latest => series_last_timestamp t
  | Now => default current_time_millis now
  | Specific ts => ts
  | Relative delta => sat_i64 (default current_time_millis now + delta)
  end.

(** [PartialOrd::partial_cmp], which always answers. *)
Definition tv_partial_cmp (a b : TimestampValue) (current_time_millis : Timestamp) : comparison :=
  match a, b with
  | Now, Now | Earliest, Earliest | Latest, Latest => Eq
  | Relative x, Relative y => x ?= y
  | Specific x, Specific y => x ?= y
  | Now, Specific v => current_time_millis ?= v
  | Specific v, Now => v ?= current_time_millis
  | Relative y, Now => y ?= 0
  | Now, Relative y => 0 ?= y
  | Specific _, Relative y => 0 ?= y
  | Relative delta, Specific y => wrap_i64 (current_time_millis + delta) ?= y
  | Earliest, _ => Lt
  | _, Earliest => Gt
  | Latest, _ => Gt
  | _, Latest => Lt
  end.

Record TimestampRange := mkTimestampRange { tr_start : TimestampValue; tr_end : TimestampValue }.

Definition tr_default : TimestampRange := mkTimestampRange Earliest Latest.

Definition from_timestamps (start end_ : Timestamp) : TimestampRange := mkTimestampRange (Specific start) (Specific end_).

Definition is_inverted (r : TimestampRange) (current_time_millis : Timestamp) : bool :=
  match tv_partial_cmp (tr_start r) (tr_end r) current_time_millis with Gt => true | _ => false end.

(** [clock] has the readings for the start and for the end. *)
Definition get_series_range (r : TimestampRange) (t : TimeSeries) (now : option Timestamp) (check_retention : bool)
    (clock : Timestamp * Timestamp) : Timestamp * Timestamp :=
  let start_timestamp := as_series_timestamp (tr_start r) t now clock.1 in
  let end_timestamp :=
    match tr_end r with
    | Relative delta => wrap_i64 (start_timestamp + delta)
    | v => as_series_timestamp v t now clock.2
    end in
  if check_retention && negb (retention_is_zero t)
  then (Z.max start_timestamp (get_min_timestamp t), end_timestamp)
  else (start_timestamp, end_timestamp).

Definition get_timestamps (r : TimestampRange) (now : option Timestamp) (clock : Timestamp * Timestamp) : Timestamp * Timestamp :=
  let start_timestamp := as_timestamp (tr_start r) now clock.1 in
  let end_timestamp :=
    match tr_end r with
    | Relative delta => wrap_i64 (start_timestamp + delta)
    | v => as_timestamp v now clock.2
    end in
  (start_timestamp, end_timestamp).

Definition tr_is_empty (r : TimestampRange) : bool :=
  bool_decide (tr_end r = Latest) && bool_decide (tr_start r = Earliest).

Definition resolve (r : TimestampRange) (now : option Timestamp) (clock : Timestamp * Timestamp) : DateRange :=
  let '(start, end_) := get_timestamps r now clock in mkDateRange start end_.

(** A bound that does not read the clock. *)
Definition fixed (v : TimestampValue) : bool :=
  match v with Now | Relative _ => false | _ => true end.
