(* ===== verification/TimestampFilter.v ===== *)
(** * TimestampFilter: looking up a list of timestamps in a series

    Models [src/iterators/timestamp_filter_iterator.rs]: the iterator behind
    FILTER_BY_TS, which walks the chunks once in either direction and reads a
    compressed chunk forwards through its iterator and backwards through a
    buffer.  It yields exactly the visible samples whose timestamp is listed. *)

From S2P Require Import Prelude Float64 Types Slice Content ChunkOps Uncompressed Elf64 Log10Ref ChunkMethods TimeSeriesChunk ChunkSearch.
From S2P Require Import SeriesIterator Rounding TimeSeries SeriesLaws SeriesReads SeriesWrites.

Section Filter.

Context `{Log10}.

Record TimestampFilterIterator := mkTimestampFilterIterator {
  tf_chunks : list TimeSeriesChunk;    (* [series.chunks] *)
  tf_chunk : option TimeSeriesChunk;
  tf_sample_iter : list Sample;
  tf_timestamps : list Timestamp;
  tf_is_reverse : bool;
  tf_buffer : list Sample;
  tf_pos : nat;
  tf_chunk_idx : Z;
  tf_random_access : bool;
}.

Definition tf_new (t : TimeSeries) (timestamps : list Timestamp) (is_reverse : bool) : TimestampFilterIterator :=
  let timestamps := dedup (sort_by_key id timestamps) in
  let min_timestamp := get_min_timestamp t in
  let timestamps := List.filter (fun ts => min_timestamp <=? ts) timestamps in
  let chunk_idx := if series_is_empty t then -1
                   else if is_reverse then Z.of_nat (length (chunks t)) - 1 else 0 in
  let pos := if is_reverse then length timestamps else O in
  mkTimestampFilterIterator (chunks t) None [] timestamps is_reverse [] pos chunk_idx false.

Definition tf_with_pos (it : TimestampFilterIterator) (pos : nat) : TimestampFilterIterator :=
  mkTimestampFilterIterator (tf_chunks it) (tf_chunk it) (tf_sample_iter it) (tf_timestamps it) (tf_is_reverse it)
    (tf_buffer it) pos (tf_chunk_idx it) (tf_random_access it).

Definition tf_with_idx (it : TimestampFilterIterator) (idx : Z) : TimestampFilterIterator :=
  mkTimestampFilterIterator (tf_chunks it) (tf_chunk it) (tf_sample_iter it) (tf_timestamps it) (tf_is_reverse it)
    (tf_buffer it) (tf_pos it) idx (tf_random_access it).

Definition tf_with_chunk (it : TimestampFilterIterator) (c : option TimeSeriesChunk) : TimestampFilterIterator :=
  mkTimestampFilterIterator (tf_chunks it) c (tf_sample_iter it) (tf_timestamps it) (tf_is_reverse it)
    (tf_buffer it) (tf_pos it) (tf_chunk_idx it) (tf_random_access it).

(** The chunk and how it is read: [iter] in sequence or [buffer] by search. *)
Definition tf_reading (it : TimestampFilterIterator) (random_access : bool) (iter buffer : list Sample) : TimestampFilterIterator :=
  mkTimestampFilterIterator (tf_chunks it) (tf_chunk it) iter (tf_timestamps it) (tf_is_reverse it)
    buffer (tf_pos it) (tf_chunk_idx it) random_access.

Definition pop_timestamp (it : TimestampFilterIterator) : option (Timestamp * TimestampFilterIterator) :=
  if tf_is_reverse it then
    match tf_pos it with
    | O => None
    | S pos => match tf_timestamps it !! pos with
               | Some ts => Some (ts, tf_with_pos it pos)
               | None => None    (* the position is in bounds *)
               end
    end
  else
    match tf_timestamps it !! tf_pos it with
    | Some ts => Some (ts, tf_with_pos it (tf_pos it + 1))
    | None => None
    end.

(** The [loop]: the index moves one way until it leaves the chunks. *)
Fixpoint seek_loop (fuel : nat) (it : TimestampFilterIterator) (ts : Timestamp) : option TimeSeriesChunk * TimestampFilterIterator :=
  match fuel with
  | O => (None, it)
  | S fuel =>
      let idx := tf_chunk_idx it in
      if idx <? 0 then (None, it)
      else match tf_chunks it !! Z.to_nat idx with
           | None => (None, it)
           | Some chunk =>
               if ts <? first_timestamp chunk then
                 if tf_is_reverse it then seek_loop fuel (tf_with_idx it (idx - 1)) ts else (None, it)
               else if last_timestamp chunk <? ts then
                 if tf_is_reverse it then (None, it) else seek_loop fuel (tf_with_idx it (idx + 1)) ts
               else (Some chunk, it)
           end
  end.

Definition seek_chunk (it : TimestampFilterIterator) (ts : Timestamp) : option TimeSeriesChunk * TimestampFilterIterator :=
  seek_loop (length (tf_chunks it) + 2) it ts.

Definition fill_buffer (chunk : TimeSeriesChunk) : list Sample :=
  match chunk with
  | UncompressedVariant c => samples c
  | _ => chunk_range_iter chunk (first_timestamp chunk) (last_timestamp chunk)
  end.

Definition ensure_chunk_for_timestamp (it : TimestampFilterIterator) (ts : Timestamp) : bool * TimestampFilterIterator :=
  if match tf_chunk it with Some chunk => is_timestamp_in_range chunk ts | None => false end then (true, it)
  else
    match seek_chunk it ts with
    | (Some chunk, it) =>
        let it := if tf_is_reverse it || negb (chunk_is_compressed chunk)
                  then tf_reading it true [] (fill_buffer chunk)
                  else tf_reading it false (chunk_range_iter chunk ts (last_timestamp chunk)) (tf_buffer it) in
        (true, tf_with_chunk it (Some chunk))
    | (None, it) => (false, tf_with_chunk it None)
    end.

(** The [for] over the rest of the chunk: what is found and what is left. *)
Fixpoint scan_for (ts : Timestamp) (iter : list Sample) : option Sample * list Sample :=
  match iter with
  | [] => (None, [])
  | s :: iter =>
      if timestamp s =? ts then (Some s, iter)
      else if ts <? timestamp s then (None, iter)
      else scan_for ts iter
  end.

Definition tf_get_sample (it : TimestampFilterIterator) (ts : Timestamp) : option Sample * TimestampFilterIterator :=
  match ensure_chunk_for_timestamp it ts with
  | (false, it) => (None, it)
  | (true, it) =>
      if tf_random_access it then
        (match binary_search_by (fun s => timestamp s ?= ts) (tf_buffer it) with
         | Ok idx => tf_buffer it !! idx
         | Err _ => None
         end, it)
      else
        match scan_for ts (tf_sample_iter it) with
        | (Some s, iter) => (Some s, tf_reading it (tf_random_access it) iter (tf_buffer it))
        | (None, iter) => (None, tf_with_chunk (tf_reading it (tf_random_access it) iter (tf_buffer it)) None)
        end
  end.

(** [Iterator::next]: every turn of the [while] takes a timestamp. *)
Fixpoint tf_next_loop (fuel : nat) (it : TimestampFilterIterator) : option (Sample * TimestampFilterIterator) :=
  match fuel with
  | O => None
  | S fuel =>
      match pop_timestamp it with
      | None => None
      | Some (ts, it) =>
          match tf_get_sample it ts with
          | (Some s, it) => Some (s, it)
          | (None, it) => tf_next_loop fuel it
          end
      end
  end.

Definition tf_next (it : TimestampFilterIterator) : option (Sample * TimestampFilterIterator) :=
  tf_next_loop (S (length (tf_timestamps it))) it.

Fixpoint tf_collect (fuel : nat) (it : TimestampFilterIterator) : list Sample :=
  match fuel with
  | O => []
  | S fuel => match tf_next it with None => [] | Some (s, it) => s :: tf_collect fuel it end
  end.

(** All it gives: at most one sample for each timestamp. *)
Definition timestamp_filter_samples (t : TimeSeries) (timestamps : list Timestamp) (is_reverse : bool) : list Sample :=
  tf_collect (S (length timestamps)) (tf_new t timestamps is_reverse).

(** ** What it yields *)

Implicit Types (it : TimestampFilterIterator) (ls : list (list Sample)).

(** [b] bounds the timestamps still to come: from below going forwards, from
    above going backwards. *)
Definition tf_ahead it (b ts : Timestamp) : Prop := if tf_is_reverse it then ts <= b else b <= ts.

Definition tf_passed it (b : Timestamp) : Prop :=
  forall j c, tf_chunks it !! j = Some c ->
    if tf_is_reverse it then tf_chunk_idx it < Z.of_nat j -> b < first_timestamp c
    else Z.of_nat j < tf_chunk_idx it -> last_timestamp c < b.

Definition tf_cached it ls (b : Timestamp) : Prop :=
  forall c, tf_chunk it = Some c -> exists i l, tf_chunks it !! i = Some c /\ ls !! i = Some l /\ holds c l /\
    if tf_random_access it then tf_buffer it = l
    else tf_is_reverse it = false /\ exists pre, l = pre ++ tf_sample_iter it /\ Forall (fun x => timestamp x < b) pre.

(** The index of a chunk, or one past the last chunk in the direction; going
    forwards it is negative only where there is no chunk. *)
Definition tf_idx_ok it : Prop :=
  let n := Z.of_nat (length (tf_chunks it)) in
  if tf_is_reverse it then -1 <= tf_chunk_idx it < n
  else 0 <= tf_chunk_idx it <= n \/ tf_chunk_idx it = -1 /\ tf_chunks it = [].

Record tf_ok it ls (b : Timestamp) : Prop := {
  tf_layout : layout (tf_chunks it) ls;
  tf_idx : tf_idx_ok it;
  tf_past : tf_passed it b;
  tf_cache : tf_cached it ls b;
}.

(** Two states that differ only in what is read. *)
Definition tf_same it it' : Prop :=
  tf_chunks it' = tf_chunks it /\ tf_timestamps it' = tf_timestamps it /\ tf_is_reverse it' = tf_is_reverse it /\ tf_pos it' = tf_pos it.

Lemma fill_buffer_holds c l : holds c l -> fill_buffer c = l.
Proof.
  intros Hh. pose proof (holds_bounds _ _ Hh) as Hb. destruct c as [u|g|ch].
  - exact (holds_iter _ _ Hh).
  - unfold fill_buffer. rewrite (holds_range_iter _ _ _ _ Hh). by apply select_all.
  - unfold fill_buffer. rewrite (holds_range_iter _ _ _ _ Hh). by apply select_all.
Qed.

Lemma passed_mono it b b' : tf_ahead it b b' -> tf_passed it b -> tf_passed it b'.
Proof.
  unfold tf_ahead, tf_passed. intros Hb Hp j c Hc. specialize (Hp j c Hc). destruct (tf_is_reverse it); intros Hj; specialize (Hp Hj); lia.
Qed.

(** What a search that stopped leaves behind. *)
Record sought it ts it' : Prop := {
  sought_eq : it' = tf_with_idx it (tf_chunk_idx it');
  sought_idx : tf_idx_ok it';
  sought_past : tf_passed it' ts;
}.

Definition outside (cs : list TimeSeriesChunk) (ts : Timestamp) : Prop :=
  forall c, c ∈ cs -> ts < first_timestamp c \/ last_timestamp c < ts.

Definition seek_left it : nat :=
  if tf_is_reverse it then S (Z.to_nat (tf_chunk_idx it + 1)) else S (Z.to_nat (Z.of_nat (length (tf_chunks it)) - tf_chunk_idx it)).

(** The chunks on the other side of one that misses [ts] miss it too. *)
Lemma outside_gap it ls ts i c :
  layout (tf_chunks it) ls -> tf_chunks it !! i = Some c -> tf_chunk_idx it = Z.of_nat i -> tf_passed it ts ->
  (if tf_is_reverse it then last_timestamp c < ts else ts < first_timestamp c) -> outside (tf_chunks it) ts.
Proof.
  intros HL Hc Hi Hp Hg d [j Hj]%list_elem_of_lookup. specialize (Hp j d Hj).
  pose proof (layout_ends _ _ _ _ HL Hc). pose proof (layout_ends _ _ _ _ HL Hj).
  destruct (tf_is_reverse it), (Nat.lt_trichotomy j i) as [Hlt|[->|Hgt]]; simplify_eq; try lia;
    try (left; apply Hp; lia); try (right; apply Hp; lia).
  - pose proof (layout_ordered _ _ _ _ _ _ HL Hlt Hj Hc). lia.
  - pose proof (layout_ordered _ _ _ _ _ _ HL Hgt Hc Hj). lia.
Qed.

Lemma sought_step it ts idx it' : sought (tf_with_idx it idx) ts it' -> sought it ts it'.
Proof. intros [E Hi Hp]. split; [|done|done]. rewrite E. by destruct it. Qed.

Lemma seek_loop_spec fuel it ls ts :
  layout (tf_chunks it) ls -> tf_idx_ok it -> tf_passed it ts -> (seek_left it <= fuel)%nat ->
  match seek_loop fuel it ts with
  | (Some c, it') => sought it ts it' /\ exists i, tf_chunks it !! i = Some c /\ first_timestamp c <= ts <= last_timestamp c
  | (None, it') => sought it ts it' /\ outside (tf_chunks it) ts
  end.
Proof.
  intros HL. revert it HL. induction fuel as [|fuel IH]; intros it HL Hi Hp Hf; [unfold seek_left in Hf; destruct (tf_is_reverse it); lia|].
  assert (sought it ts it) as Hhere by (split; [by destruct it|done|done]).
  cbn [seek_loop]. unfold tf_idx_ok in Hi. destruct (Z.ltb_spec (tf_chunk_idx it) 0) as [Hneg|Hpos].
  { split; [done|]. intros d [j Hj]%list_elem_of_lookup. specialize (Hp j d Hj). destruct (tf_is_reverse it); [left; apply Hp; lia|].
    destruct Hi as [Hi|[_ Hi]]; [lia|by rewrite Hi in Hj]. }
  destruct (tf_chunks it !! Z.to_nat (tf_chunk_idx it)) as [c|] eqn:Hc.
  2: { split; [done|]. apply lookup_ge_None in Hc. intros d [j Hj]%list_elem_of_lookup. pose proof (lookup_lt_Some _ _ _ Hj).
       specialize (Hp j d Hj). destruct (tf_is_reverse it); [lia|]. right. apply Hp. lia. }
  assert (tf_chunk_idx it = Z.of_nat (Z.to_nat (tf_chunk_idx it))) as Hz by lia. pose proof (lookup_lt_Some _ _ _ Hc) as Hlt.
  pose proof (outside_gap it ls ts _ c HL Hc Hz Hp) as Hout.
  destruct (Z.ltb_spec ts (first_timestamp c)) as [H1|H1]; [|destruct (Z.ltb_spec (last_timestamp c) ts) as [H2|H2]].
  - destruct (tf_is_reverse it) eqn:Hrev; [|split; [done|by apply Hout]].
    specialize (IH (tf_with_idx it (tf_chunk_idx it - 1)) HL).
    destruct (seek_loop fuel _ ts) as [[d|] it'] eqn:E; (destruct IH as [Hso Hr]; [..|split; [by eapply sought_step|done]]).
    all: unfold tf_idx_ok, seek_left in *; cbn [tf_with_idx tf_chunks tf_is_reverse tf_chunk_idx]; rewrite Hrev in *; try lia.
    all: intros j d' Hj; cbn [tf_with_idx tf_chunks tf_is_reverse tf_chunk_idx]; rewrite Hrev; intros Hji; specialize (Hp j d' Hj); cbn in Hj;
      rewrite Hrev in Hp; destruct (decide (j = Z.to_nat (tf_chunk_idx it))) as [->|]; [simplify_eq; lia|apply Hp; lia].
  - destruct (tf_is_reverse it) eqn:Hrev; [split; [done|by apply Hout]|].
    specialize (IH (tf_with_idx it (tf_chunk_idx it + 1)) HL).
    destruct (seek_loop fuel _ ts) as [[d|] it'] eqn:E; (destruct IH as [Hso Hr]; [..|split; [by eapply sought_step|done]]).
    all: unfold tf_idx_ok, seek_left in *; cbn [tf_with_idx tf_chunks tf_is_reverse tf_chunk_idx]; rewrite Hrev in *; try lia.
    all: intros j d' Hj; cbn [tf_with_idx tf_chunks tf_is_reverse tf_chunk_idx]; rewrite Hrev; intros Hji; specialize (Hp j d' Hj); cbn in Hj;
      rewrite Hrev in Hp; destruct (decide (j = Z.to_nat (tf_chunk_idx it))) as [->|]; [simplify_eq; lia|apply Hp; lia].
  - split; [done|]. exists (Z.to_nat (tf_chunk_idx it)). split; [done|lia].
Qed.

Lemma select_suffix ts e l : ts_sorted l -> Forall (fun x => timestamp x <= e) l ->
  exists pre, l = pre ++ select ts e l /\ Forall (fun x => timestamp x < ts) pre.
Proof.
  intros Hs. induction Hs as [|x l Hs IH Hx]; intros He; [by exists []|]. apply Forall_cons in He as [Hxe He].
  destruct (Z.lt_ge_cases (timestamp x) ts) as [Hlt|Hge].
  - destruct (IH He) as (pre & El & Hp). exists (x :: pre). split; [|by constructor].
    unfold select in *. cbn [List.filter]. replace (in_range ts e x) with false by (unfold in_range; lia). cbn. by f_equal.
  - exists []. split; [|constructor]. symmetry. apply select_all. constructor; [lia|]. apply Forall_forall. intros y Hy.
    rewrite Forall_forall in He, Hx. specialize (He y Hy). specialize (Hx y Hy). unfold ts_lt in Hx. cbn beta in He. lia.
Qed.

Lemma scan_for_spec ts iter : ts_sorted iter ->
  (scan_for ts iter).1 = lookup_ts ts iter /\
  (lookup_ts ts iter <> None -> exists pre, iter = pre ++ (scan_for ts iter).2 /\ Forall (fun x => timestamp x < ts + 1) pre).
Proof.
  induction 1 as [|x l Hs IH Hx]; [by split|]. cbn [scan_for lookup_ts].
  destruct (Z.eqb_spec (timestamp x) ts) as [Heq|Hne]; [split; [done|intros _; exists [x]; split; [done|]; constructor; [lia|done]]|].
  destruct (Z.ltb_spec ts (timestamp x)) as [Hlt|Hge].
  - assert (lookup_ts ts l = None) as ->; [|by split]. apply lookup_ts_above. eapply Forall_impl; [exact Hx|]. unfold ts_lt. intros y Hy. lia.
  - destruct IH as [E IH]. split; [done|]. intros Hn. destruct (IH Hn) as (pre & El & Hp). exists (x :: pre).
    split; [cbn; by f_equal|constructor; [lia|done]].
Qed.

Lemma search_spec ts l : ts_sorted l ->
  match binary_search_by (fun s => timestamp s ?= ts) l with Ok i => l !! i | Err _ => None end = lookup_ts ts l.
Proof.
  intros Hs. destruct (search_result (binary_search_by (fun s => timestamp s ?= ts) l)) as [n found] eqn:E.
  destruct (search_split _ l ts n found Hs (fun _ => eq_refl) E) as (a & b & -> & <- & Ha & Hb).
  rewrite lookup_ts_app, (lookup_ts_below _ _ Ha). unfold search_result in E. destruct (binary_search_by _ _); simplify_eq.
  - destruct Hb as (x & b' & -> & Ht & _). cbn [lookup_ts]. rewrite Ht, Z.eqb_refl. by apply list_lookup_middle.
  - by rewrite (lookup_ts_above _ _ Hb).
Qed.

(** The bound for the timestamps after [ts]. *)
Definition tf_beyond it (ts : Timestamp) : Timestamp := if tf_is_reverse it then ts - 1 else ts + 1.

Lemma beyond_ahead it b ts : tf_ahead it b ts -> tf_ahead it b (tf_beyond it ts).
Proof. unfold tf_ahead, tf_beyond. destruct (tf_is_reverse it); lia. Qed.

Lemma cached_mono it ls b b' : tf_ahead it b b' -> tf_cached it ls b -> tf_cached it ls b'.
Proof.
  intros Hb Hc c Hic. destruct (Hc c Hic) as (i & l & H1 & H2 & H3 & Hcase). exists i, l. split_and!; [done|done|done|].
  destruct (tf_random_access it); [done|]. destruct Hcase as [Hrev (pre & El & Hp)]. split; [done|]. exists pre. split; [done|].
  unfold tf_ahead in Hb. rewrite Hrev in Hb. eapply Forall_impl; [exact Hp|]. cbn. lia.
Qed.

(** Either no chunk has [ts] in its bounds, or the one that has is cached. *)
Lemma ensure_spec it ls b ts : tf_ok it ls b -> tf_ahead it b ts ->
  match ensure_chunk_for_timestamp it ts with
  | (true, it') => tf_ok it' ls ts /\ tf_same it it' /\ exists c, tf_chunk it' = Some c /\ first_timestamp c <= ts <= last_timestamp c
  | (false, it') => tf_ok it' ls ts /\ tf_same it it' /\ outside (tf_chunks it) ts
  end.
Proof.
  intros [HL Hi Hp Hc] Ha. unfold ensure_chunk_for_timestamp.
  destruct (match tf_chunk it with Some chunk => _ | None => false end) eqn:Hin.
  - split_and!; [split; [done|done|by eapply passed_mono|by eapply cached_mono]|done|].
    destruct (tf_chunk it) as [c|]; [|done]. exists c. split; [done|]. unfold is_timestamp_in_range in Hin. lia.
  - unfold seek_chunk. pose proof (seek_loop_spec (length (tf_chunks it) + 2) it ls ts HL Hi (passed_mono _ _ _ Ha Hp)) as Hs.
    assert (seek_left it <= length (tf_chunks it) + 2)%nat as Hf.
    { unfold seek_left, tf_idx_ok in *. destruct (tf_is_reverse it); [lia|]. destruct Hi as [Hi|[Hi ->]]; [lia|cbn; lia]. }
    specialize (Hs Hf). destruct (seek_loop _ it ts) as [[c|] it'].
    + destruct Hs as [[E Hi' Hp'] (i & Hci & Hb)]. rewrite E in *.
      destruct (layout_lookup _ _ _ _ HL Hci) as (l & Hl & Hh & Hne).
      assert (forall ra iter buf, (if ra : bool then buf = l else tf_is_reverse it = false /\ exists pre, l = pre ++ iter /\
        Forall (fun x => timestamp x < ts) pre) ->
        let it2 := tf_with_chunk (tf_reading (tf_with_idx it (tf_chunk_idx it')) ra iter buf) (Some c) in
        tf_ok it2 ls ts /\ tf_same it it2 /\ exists c0, tf_chunk it2 = Some c0 /\ first_timestamp c0 <= ts <= last_timestamp c0) as Hgen.
      { intros ra iter buf Hra it2. split_and!; [|done|by exists c]. split; [done|done|done|]. intros c0 [= <-].
        exists i, l. by split_and!. }
      destruct (tf_is_reverse (tf_with_idx it (tf_chunk_idx it')) || negb (chunk_is_compressed c)) eqn:Hra; apply Hgen.
      * by apply fill_buffer_holds.
      * apply orb_false_iff in Hra as [Hrev _]. split; [exact Hrev|]. rewrite (holds_range_iter _ _ _ _ Hh).
        apply select_suffix; [apply (holds_content _ _ Hh)|]. eapply Forall_impl; [exact (holds_bounds _ _ Hh)|]. cbn. lia.
    + destruct Hs as [[E Hi' Hp'] Hout]. rewrite E in *. split_and!; [|done|done]. split; [done|done|done|done].
Qed.

Lemma tf_ok_mono it ls b b' : tf_ahead it b b' -> tf_ok it ls b -> tf_ok it ls b'.
Proof. intros Hb [HL Hi Hp Hc]. split; [done|done|by eapply passed_mono|by eapply cached_mono]. Qed.

Lemma ahead_beyond it ts : tf_ahead it ts (tf_beyond it ts).
Proof. unfold tf_ahead, tf_beyond. destruct (tf_is_reverse it); lia. Qed.

Lemma same_beyond it it' ts : tf_same it it' -> tf_beyond it' ts = tf_beyond it ts.
Proof. intros (_ & _ & E & _). unfold tf_beyond. by rewrite E. Qed.

Lemma tf_get_sample_spec it ls b ts : tf_ok it ls b -> tf_ahead it b ts ->
  let '(r, it') := tf_get_sample it ts in
  r = lookup_ts ts (concat ls) /\ tf_ok it' ls (tf_beyond it ts) /\ tf_same it it'.
Proof.
  intros Hok Ha. pose proof (ensure_spec it ls b ts Hok Ha) as He. unfold tf_get_sample.
  destruct (ensure_chunk_for_timestamp it ts) as [[] it1]; destruct He as (Hok1 & Hsame & He);
    rewrite <- (same_beyond _ _ _ Hsame); pose proof (tf_ok_mono _ _ _ _ (ahead_beyond it1 ts) Hok1) as Hok2.
  2: { split_and!; [|done|done]. symmetry. apply (lookup_outside (tf_chunks it)); [apply Hok|exact He]. }
  destruct He as (c & Hc & Hb). destruct Hok1 as [HL Hi Hp Hcache].
  destruct (Hcache c Hc) as (i & l & Hci & Hl & Hh & Hcase). destruct (lookup_inside _ _ _ _ ts HL Hci Hb) as (l' & Hl' & _ & -> & _).
  simplify_eq. assert (ts_sorted l) as Hs by apply (holds_content _ _ Hh). destruct (tf_random_access it1) eqn:Hra.
  { split_and!; [|done|done]. rewrite Hcase. by apply search_spec. }
  destruct Hcase as [Hrev (pre & El & Hpre)]. assert (ts_sorted (tf_sample_iter it1)) as Hsi.
  { rewrite El in Hs. by apply ts_sorted_app in Hs as (_ & ? & _). }
  destruct (scan_for_spec ts _ Hsi) as [E1 E2]. assert (lookup_ts ts l = lookup_ts ts (tf_sample_iter it1)) as ->.
  { rewrite El, lookup_ts_app. by rewrite (lookup_ts_below _ _ Hpre). }
  destruct (scan_for ts (tf_sample_iter it1)) as [[s|] iter]; cbn [fst snd] in *; rewrite <- E1 in *.
  - split_and!; [done| |done]. destruct Hok2 as [_ _ Hp2 _]. split; [done|done|exact Hp2|]. intros c0 Hc0. cbn in Hc0. rewrite Hc in Hc0. injection Hc0 as <-.
    exists i, l. split_and!; [done|done|done|]. cbn [tf_reading tf_random_access]. split; [done|]. destruct (E2 ltac:(done)) as (pre' & El' & Hp').
    exists (pre ++ pre'). cbn [tf_reading tf_sample_iter]. rewrite El, El', <- app_assoc. split; [done|]. unfold tf_beyond. rewrite Hrev.
    apply Forall_app. split; [eapply Forall_impl; [exact Hpre|cbn; lia]|done].
  - split_and!; [done| |done]. destruct Hok2 as [_ _ Hp2 _]. split; [done|done|exact Hp2|done].
Qed.

(** The timestamps still to look up, in the order they are taken. *)
Definition tf_todo it : list Timestamp :=
  if tf_is_reverse it then reverse (take (tf_pos it) (tf_timestamps it)) else drop (tf_pos it) (tf_timestamps it).

Record tf_inv it ls (b : Timestamp) : Prop := {
  tfi_ok : tf_ok it ls b;
  tfi_pos : (tf_pos it <= length (tf_timestamps it))%nat;
  tfi_ahead : Forall (tf_ahead it b) (tf_todo it);
  tfi_order : StronglySorted (fun x y => tf_ahead it (tf_beyond it x) y) (tf_todo it);
}.

Lemma pop_todo it : (tf_pos it <= length (tf_timestamps it))%nat ->
  match pop_timestamp it with
  | None => tf_todo it = []
  | Some (ts, it') => tf_todo it = ts :: tf_todo it' /\ (tf_pos it' <= length (tf_timestamps it))%nat /\ it' = tf_with_pos it (tf_pos it')
  end.
Proof.
  intros Hp. unfold pop_timestamp, tf_todo. destruct (tf_is_reverse it) eqn:Hr.
  - destruct (tf_pos it) as [|p] eqn:Ep; [done|]. destruct (lookup_lt_is_Some_2 (tf_timestamps it) p) as [ts Hts]; [lia|].
    rewrite Hts. cbn [tf_with_pos tf_pos tf_is_reverse tf_timestamps]. rewrite Hr, (take_S_r _ _ _ Hts), reverse_app.
    split_and!; [done|lia|done].
  - destruct (tf_timestamps it !! tf_pos it) as [ts|] eqn:Hts; cbn [tf_with_pos tf_pos tf_is_reverse tf_timestamps]; rewrite ?Hr.
    + pose proof (lookup_lt_Some _ _ _ Hts). rewrite (drop_S _ _ _ Hts), Nat.add_1_r. split_and!; [done|lia|done].
    + apply lookup_ge_None in Hts. by rewrite drop_ge by lia.
Qed.

Lemma with_pos_ok it ls b pos : tf_ok it ls b -> tf_ok (tf_with_pos it pos) ls b.
Proof. intros [HL Hi Hp Hc]. split; [exact HL|exact Hi|exact Hp|exact Hc]. Qed.

Lemma same_todo it it' : tf_same it it' -> tf_todo it' = tf_todo it.
Proof. intros (_ & E1 & E2 & E3). unfold tf_todo. by rewrite E1, E2, E3. Qed.

Lemma tf_step it ls b ts it1 : tf_inv it ls b -> pop_timestamp it = Some (ts, it1) ->
  let '(r, it2) := tf_get_sample it1 ts in
  r = lookup_ts ts (concat ls) /\ tf_inv it2 ls (tf_beyond it ts) /\ tf_todo it = ts :: tf_todo it2 /\
  tf_timestamps it2 = tf_timestamps it.
Proof.
  intros [Hok Hp Ha Ho] Epop. pose proof (pop_todo it Hp) as Ht. rewrite Epop in Ht. destruct Ht as (Et & Hp1 & E1).
  rewrite Et in Ha, Ho. apply Forall_cons in Ha as [Ha Hall]. inversion Ho as [|? ? Ho' Hb]; subst.
  pose proof (tf_get_sample_spec it1 ls b ts) as Hg. rewrite E1 in Hg.
  specialize (Hg (with_pos_ok _ _ _ _ Hok) Ha). rewrite <- E1 in Hg. destruct (tf_get_sample it1 ts) as [r it2]. destruct Hg as (Hr & Hok2 & Hsame).
  pose proof Hsame as (_ & Ets & Erev & Epos). assert (tf_is_reverse it2 = tf_is_reverse it) as Erev' by (rewrite Erev, E1; done).
  assert (tf_beyond it1 ts = tf_beyond it ts) as Eb by (rewrite E1; done). rewrite Eb in Hok2.
  split_and!; [done| |by rewrite (same_todo _ _ Hsame)|by rewrite Ets, E1].
  split; [done|rewrite Epos, Ets, E1 at 1; rewrite E1; exact Hp1|..]; rewrite (same_todo _ _ Hsame).
  - unfold tf_ahead in *. by rewrite Erev'.
  - unfold tf_ahead, tf_beyond in *. by rewrite Erev'.
Qed.

Definition found ls (todo : list Timestamp) : list Sample := omap (fun ts => lookup_ts ts (concat ls)) todo.

Lemma tf_next_loop_spec fuel it ls b : tf_inv it ls b -> (length (tf_todo it) < fuel)%nat ->
  match tf_next_loop fuel it with
  | None => found ls (tf_todo it) = []
  | Some (s, it') => found ls (tf_todo it) = s :: found ls (tf_todo it') /\ (exists b', tf_inv it' ls b') /\
      (length (tf_todo it') < length (tf_todo it))%nat /\ tf_timestamps it' = tf_timestamps it
  end.
Proof.
  revert it b. induction fuel as [|fuel IH]; intros it b Hinv Hf; [lia|]. cbn [tf_next_loop].
  destruct (pop_timestamp it) as [[ts it1]|] eqn:Epop.
  2: { pose proof (pop_todo it (tfi_pos _ _ _ Hinv)) as Ht. rewrite Epop in Ht. by rewrite Ht. }
  pose proof (tf_step it ls b ts it1 Hinv Epop) as Hs. destruct (tf_get_sample it1 ts) as [r it2].
  destruct Hs as (Hr & Hinv2 & Et & Ets). rewrite Et in Hf |- *. unfold found. cbn [omap list_omap length] in *. rewrite <- Hr.
  destruct r as [s|]; cbn.
  - split_and!; [done|by eexists|lia|done].
  - specialize (IH it2 _ Hinv2 ltac:(lia)). destruct (tf_next_loop fuel it2) as [[s it']|]; [|done].
    destruct IH as (E & Hi & Hl & Ets'). split_and!; [done|done|lia|by rewrite Ets'].
Qed.

Lemma todo_length it : (length (tf_todo it) <= length (tf_timestamps it))%nat.
Proof. unfold tf_todo. destruct (tf_is_reverse it); rewrite ?length_reverse, ?length_take, ?length_drop; lia. Qed.

Lemma tf_collect_spec fuel it ls b : tf_inv it ls b -> (length (tf_todo it) < fuel)%nat -> tf_collect fuel it = found ls (tf_todo it).
Proof.
  revert it b. induction fuel as [|fuel IH]; intros it b Hinv Hf; [lia|]. cbn [tf_collect]. unfold tf_next.
  pose proof (tf_next_loop_spec (S (length (tf_timestamps it))) it ls b Hinv) as Hn. pose proof (todo_length it).
  specialize (Hn ltac:(lia)). destruct (tf_next_loop _ it) as [[s it']|]; [|by rewrite Hn].
  destruct Hn as (-> & (b' & Hinv') & Hl & _). f_equal. eapply IH; [done|lia].
Qed.

Lemma found_elem l (todo : list Timestamp) x : ts_sorted l ->
  x ∈ omap (fun ts => lookup_ts ts l) todo <-> x ∈ l /\ timestamp x ∈ todo.
Proof.
  intros Hl. rewrite list_elem_of_omap. split.
  - intros (ts & Hts & [Hx <-]%lookup_ts_Some). done.
  - intros [Hx Ht]. exists (timestamp x). split; [done|]. by apply lookup_ts_elem.
Qed.

(** Looking up increasing timestamps gives the samples that are listed. *)
Lemma found_filter l todo : ts_sorted l -> StronglySorted Z.lt todo ->
  omap (fun ts => lookup_ts ts l) todo = List.filter (fun x => bool_decide (timestamp x ∈ todo)) l.
Proof.
  intros Hl Ht. apply ts_sorted_ext.
  - induction Ht as [|t todo Hs IH Hlt]; [constructor|]. cbn [omap list_omap]. destruct (lookup_ts t l) as [x|] eqn:E; [|done].
    constructor; [done|]. apply Forall_forall. intros y [_ Hy]%found_elem; [|done]. apply lookup_ts_Some in E as [_ <-].
    rewrite Forall_forall in Hlt. by apply Hlt.
  - by apply ts_sorted_filter.
  - intros x. rewrite found_elem by done. split.
    + intros [Hx Hin]. apply list_elem_of_In, filter_In. split; [by apply list_elem_of_In|by apply bool_decide_eq_true].
    + intros [Hx Hin%bool_decide_eq_true]%list_elem_of_In%filter_In. split; [by apply list_elem_of_In|done].
Qed.

Lemma found_reverse l todo : omap (fun ts => lookup_ts ts l) (reverse todo) = reverse (omap (fun ts => lookup_ts ts l) todo).
Proof.
  induction todo as [|t todo IH]; [done|]. rewrite reverse_cons, omap_app, IH. cbn [omap list_omap].
  destruct (lookup_ts t l) as [x|]; [by rewrite reverse_cons|by rewrite app_nil_r].
Qed.

Lemma order_bound it todo : StronglySorted (fun x y => tf_ahead it (tf_beyond it x) y) todo ->
  Forall (tf_ahead it (default 0 (head todo))) todo.
Proof.
  destruct 1 as [|x l Hs Hx]; [constructor|]. cbn. constructor; [unfold tf_ahead; destruct (tf_is_reverse it); lia|].
  eapply Forall_impl; [exact Hx|]. unfold tf_ahead, tf_beyond. cbn. intros y. destruct (tf_is_reverse it); lia.
Qed.

Lemma tf_new_inv {P} t ls timestamps rev : series_rep P t ls -> let it := tf_new t timestamps rev in
  let todo := List.filter (fun ts => get_min_timestamp t <=? ts) (dedup (sort_by_key id timestamps)) in
  tf_todo it = (if rev then reverse todo else todo) /\ tf_inv it ls (default 0 (head (tf_todo it))).
Proof.
  intros Hr it todo. destruct (distinct_spec timestamps) as [Hd _].
  assert (StronglySorted Z.lt todo) as Hst by by apply StronglySorted_filter.
  assert (tf_todo it = if rev then reverse todo else todo) as Et.
  { unfold tf_todo, it, tf_new. cbn. fold todo. destruct rev; [by rewrite firstn_all|done]. }
  assert (StronglySorted (fun x y => tf_ahead it (tf_beyond it x) y) (tf_todo it)) as Ho.
  { rewrite Et. unfold tf_ahead, tf_beyond, it, tf_new. cbn [tf_is_reverse]. destruct rev.
    - eapply StronglySorted_weaken; [|by apply StronglySorted_reverse]. cbn. lia.
    - eapply StronglySorted_weaken; [|exact Hst]. cbn. lia. }
  split; [done|]. split; [|unfold it, tf_new; cbn; fold todo; destruct rev; lia|by apply order_bound|done].
  pose proof (rep_empty _ _ Hr) as Hemp. split; [by apply (sr_layout _ _ Hr)|..].
  - unfold tf_idx_ok, it, tf_new. cbn. rewrite Hemp. destruct (chunks t), rev; cbn; auto; lia.
  - intros j c Hj. pose proof (lookup_lt_Some _ _ _ Hj) as Hlt. unfold it, tf_new in *. cbn in *. rewrite Hemp.
    destruct (chunks t), rev; cbn in *; lia.
  - intros c Hc. done.
Qed.

(** The samples a FILTER_BY_TS query reads: the visible ones whose timestamp is
    listed, once each, in the direction of the query. *)
Lemma timestamp_filter_spec {P} t ls timestamps rev : series_rep P t ls ->
  timestamp_filter_samples t timestamps rev =
  let l := List.filter (fun x => bool_decide (timestamp x ∈ timestamps)) (visible t (concat ls)) in
  if rev then reverse l else l.
Proof.
  intros Hr. pose proof (sr_layout _ _ Hr) as (_ & _ & Hs & _).
  destruct (distinct_spec timestamps) as [Hd He]. pose proof (dedup_length (sort_by_key id timestamps)) as Hlen.
  rewrite (Permutation_length (sort_by_key_perm id timestamps)) in Hlen. unfold timestamp_filter_samples.
  destruct (tf_new_inv t ls timestamps rev Hr) as [Et Hinv]. set (it := tf_new t timestamps rev) in *.
  set (todo := List.filter (fun ts => get_min_timestamp t <=? ts) (dedup (sort_by_key id timestamps))) in *.
  assert (length todo <= length timestamps)%nat as Hlt by (etrans; [apply filter_length_le|done]).
  rewrite (tf_collect_spec _ it ls _ Hinv) by (rewrite Et; destruct rev; rewrite ?length_reverse; lia).
  unfold found. rewrite Et. cbn zeta. replace (List.filter _ (visible t (concat ls))) with (omap (fun ts => lookup_ts ts (concat ls)) todo).
  { destruct rev; [apply found_reverse|done]. }
  apply ts_sorted_ext; [rewrite found_filter; [by apply ts_sorted_filter|done|by apply StronglySorted_filter]
    |by apply ts_sorted_filter, ts_sorted_filter|].
  intros x. rewrite found_elem by done. unfold todo, visible.
  assert (forall {A} (f : A -> bool) (l : list A) y, y ∈ List.filter f l <-> y ∈ l /\ f y = true) as Hf.
  { intros A f l y. rewrite !list_elem_of_In. apply filter_In. }
  rewrite !Hf, He, bool_decide_eq_true, Z.leb_le. tauto.
Qed.

End Filter.
