(* ===== verification/RangeQuery.v ===== *)
(** * RangeQuery: a range query over one series

    Models [src/iterators/utils.rs], [timeseries_range_iterator.rs] and
    [reduce_iterator.rs]: reading the window of a series, its filters, LATEST,
    aggregation with empty fill, grouping, the direction and COUNT.  An iterator
    is the list of the items it gives.  The window is resolved at several places
    of a query; each reading of the clock is an argument. *)

From stdpp Require Import gmap strings.
From S2P Require Import Prelude Float64 Types Content Elf64 Log10Ref TimeSeriesChunk SeriesIterator Rounding TimeSeries.
From S2P Require Import TimestampRange TimestampFilter Aggregators AggregateIterator.

(** ** Options *)

Record RangeGroupingOptions := mkRangeGroupingOptions { grp_aggregation : AggregatorConfig; group_label : string }.

Record RangeOptions := mkRangeOptions {
  date_range : TimestampRange;
  ro_count : option nat;
  ro_latest : bool;
  ro_aggregation : option AggregationOptions;
  timestamp_filter : option (list Timestamp);
  ro_value_filter : option ValueFilter;
}.

(** The readings of the clock for the two bounds of a window. *)
Definition Reading : Type := Timestamp * Timestamp.

Definition get_timestamp_range (o : RangeOptions) (clock : Reading) : Timestamp * Timestamp :=
  get_timestamps (date_range o) None clock.

(** Where a query resolves its window. *)
Record Readings := mkReadings { at_latest : Reading; at_fill : Reading; at_read : Reading; at_align : Reading }.

(** ** Filters *)

Definition TIMESTAMP_FILTER_INLINE_THRESHOLD : nat := 16.

Inductive TimestampFilter :=
| FilterSet (s : gset Timestamp)
| FilterList (l : list Timestamp).

Definition timestamp_filter_new (timestamps : list Timestamp) : TimestampFilter :=
  if (TIMESTAMP_FILTER_INLINE_THRESHOLD <? length timestamps)%nat then FilterSet (list_to_set timestamps) else FilterList timestamps.

Definition timestamp_filter_matches (f : TimestampFilter) (ts : Timestamp) : bool :=
  match f with
  | FilterSet s => bool_decide (ts ∈ s)
  | FilterList l => bool_decide (ts ∈ l)
  end.

(** The closure both scans outside the window and the adapter use. *)
Definition passes (ts_filter : option (list Timestamp)) (value_filter : option ValueFilter) (s : Sample) : bool :=
  match ts_filter with Some f => timestamp_filter_matches (timestamp_filter_new f) (timestamp s) | None => true end &&
  match value_filter with Some f => vf_is_match f (value s) | None => true end.

(** ** Adapters *)

Definition apply_iter_limit {A} (items : list A) (limit : option nat) : list A :=
  match limit with Some n => take n items | None => items end.

(** [ReverseIter]: everything is buffered, then popped from the end. *)
Definition reverse_iter {A} (items : list A) : list A := reverse items.

(** [TailIter]: a ring buffer of [capacity] items. *)
Definition tail_push {A} (capacity : nat) (buf : list A) (item : A) : list A :=
  (if (length buf =? capacity)%nat then tail buf else buf) ++ [item].

Definition tail_iter {A} (items : list A) (capacity : nat) : list A :=
  if (capacity =? 0)%nat then [] else fold_left (tail_push capacity) items [].

Definition reverse_limited {A} (items : list A) (count : option nat) : list A :=
  match count with
  | Some count => reverse_iter (tail_iter items count)
  | None => reverse_iter items
  end.

(** The value slots of an emitted bucket. *)
Class BucketValues (T : Type) := { bv_values : T -> list f64; bv_with : T -> list f64 -> T }.

#[export] Instance Sample_bucket_values : BucketValues Sample := {|
  bv_values s := [value s];
  bv_with s vs := match vs with v :: _ => mkSample (timestamp s) v | [] => s end;
|}.

#[export] Instance MultiSample_bucket_values : BucketValues MultiSample := {|
  bv_values := ms_values;
  bv_with s vs := mkMultiSample (ms_timestamp s) vs;
|}.

(** The loop over the columns: the new [prev] and the new values. *)
Fixpoint carry_values (carry : list bool) (prev values : list f64) : list f64 * list f64 :=
  match values, carry, prev with
  | v :: values, c :: carry, p :: prev =>
      let '(prev', values') := carry_values carry prev values in
      if negb c then (p :: prev', v :: values')
      else if f64_is_nan v then (p :: prev', p :: values') else (v :: prev', v :: values')
  | values, _, prev => (prev, values)
  end.

(** [CarryLastEmpty::next] over all items. *)
Fixpoint carry_items {T} `{BucketValues T} (carry : list bool) (prev : list f64) (items : list T) : list T :=
  match items with
  | [] => []
  | item :: items =>
      let '(prev, values) := carry_values carry prev (bv_values item) in
      bv_with item values :: carry_items carry prev items
  end.

Definition carry_last_empty {T} `{BucketValues T} (items : list T) (carry : list bool) (seed : f64) : list T :=
  carry_items carry (replicate (length carry) seed) items.

Definition last_carry_mask (o : AggregationOptions) : option (list bool) :=
  if negb (report_empty o) then None
  else
    let mask := map (fun a => bool_decide (aggregation a = TyLast)) (aggregations o) in
    if existsb id mask then Some mask else None.

(** [finalize] and [finalize_row_iterator]: the carry, the reversal and COUNT. *)
Definition finalize {T} `{BucketValues T} (items : list T) (is_reverse : bool) (count : option nat)
    (carry : option (list bool)) (carry_seed : f64) : list T :=
  match is_reverse, carry with
  | true, Some mask => apply_iter_limit (reverse_limited (carry_last_empty items mask carry_seed) count) count
  | true, None => apply_iter_limit (reverse_limited items count) count
  | false, Some mask => apply_iter_limit (carry_last_empty items mask carry_seed) count
  | false, None => apply_iter_limit items count
  end.

(** ** Reducing samples that share a timestamp *)

(** [ReduceIterator::next] from the sample [current] on, which was just taken. *)
Fixpoint reduce_group (a : Aggregator) (current : Sample) (has_samples : bool) (rest : list Sample) : list Sample :=
  let value a := if has_samples then (agg_finalize a).1 else empty_group_value a in
  match rest with
  | [] => [mkSample (timestamp current) (value a)]
  | next :: rest =>
      if timestamp next =? timestamp current then
        let '(ok, a) := agg_update a (timestamp next) (Types.value next) in
        reduce_group a current (has_samples || ok) rest
      else
        mkSample (timestamp current) (value a) ::
        (let a := agg_reset (if has_samples then (agg_finalize a).2 else a) in
         let '(ok, a) := agg_update a (timestamp next) (Types.value next) in
         reduce_group a next ok rest)
  end.

Definition reduce_iterator (items : list Sample) (a : Aggregator) : list Sample :=
  match items with
  | [] => []
  | current :: rest => let '(ok, a) := agg_update a (timestamp current) (Types.value current) in reduce_group a current ok rest
  end.

(** ** Queries *)

Section Query.

Context `{Log10}.

(** The samples [SeriesSampleIterator::new] gives: at most those of the series. *)
Definition series_samples (t : TimeSeries) (start end_ : Timestamp) (is_reverse : bool) : list Sample :=
  si_collect (Z.to_nat (series_len t)) (si_new (chunks t) (series_is_empty t) start end_ is_reverse).

(** [SeriesSampleIterator::from_range_options] *)
Definition from_range_options (t : TimeSeries) (o : RangeOptions) (is_reverse : bool) (clock : Reading) : list Sample :=
  let '(start, end_) := get_timestamp_range o clock in
  series_samples t (Z.max start (get_min_timestamp t)) end_ is_reverse.

(** Does a sample in [from, to] pass the filters? *)
Definition has_passing_sample (t : TimeSeries) (o : RangeOptions) (from to : Timestamp) : bool :=
  if (to <? from) || series_is_empty t then false
  else
    let first := visible_first_timestamp t in
    let last := series_last_timestamp t in
    if (to <? first) || (last <? from) then false
    else if negb (bool_decide (is_Some (ro_value_filter o))) && negb (bool_decide (is_Some (timestamp_filter o))) then true
    else existsb (passes (timestamp_filter o) (ro_value_filter o)) (series_samples t (Z.max from first) to false).

Definition last_passing_sample_before (t : TimeSeries) (o : RangeOptions) (to : Timestamp) : option Sample :=
  let first := visible_first_timestamp t in
  if series_is_empty t || (to <? first) then None
  else List.find (passes (timestamp_filter o) (ro_value_filter o)) (series_samples t first to true).

Definition empty_fill_bounds (t : TimeSeries) (o : RangeOptions) (clock : Reading) : EmptyFillBounds :=
  match ro_aggregation o with
  | Some aggregation =>
      if negb (report_empty aggregation) then no_fill
      else
        let '(start_ts, end_ts) := get_timestamp_range o clock in
        let leads := has_passing_sample t o i64_MIN (sat_i64 (start_ts - 1)) in
        let trails := has_passing_sample t o (sat_i64 (end_ts + 1)) i64_MAX in
        let overlaps := leads && trails || has_passing_sample t o start_ts end_ts in
        let start := if overlaps && leads then Some start_ts else None in
        let carry_seed :=
          if bool_decide (is_Some start) && bool_decide (is_Some (last_carry_mask aggregation)) then
            let aligned := get_aligned_timestamp (alignment aggregation) start_ts end_ts in
            let first_bucket := bucket_start_for start_ts aligned (bucket_duration aggregation) in
            match last_passing_sample_before t o (sat_i64 (first_bucket - 1)) with
            | Some s => value s
            | None => f64_NAN
            end
          else f64_NAN in
        mkEmptyFillBounds start (if overlaps && trails then Some end_ts else None) carry_seed
  | None => no_fill
  end.

(** [fuel] is more than the rows the aggregation gives. *)
Definition create_aggregate_iterator (fuel : nat) (items : list Sample) (o : RangeOptions) (aggregation : AggregationOptions)
    (fill : EmptyFillBounds) (clock : Reading) : list Sample :=
  let '(start_ts, end_ts) := get_timestamp_range o clock in
  let aligned_timestamp := get_aligned_timestamp (alignment aggregation) start_ts end_ts in
  map single_value (agg_collect fuel (with_empty_fill items aggregation aligned_timestamp fill)).

Definition create_sample_iterator_adapter (fuel : nat) (base_iter : list Sample) (o : RangeOptions)
    (grouping : option RangeGroupingOptions) (is_reverse : bool) (fill : EmptyFillBounds) (clock : Reading) : list Sample :=
  let filtered := List.filter (passes (timestamp_filter o) (ro_value_filter o)) base_iter in
  let count := ro_count o in
  match ro_aggregation o, grouping with
  | Some agg, Some grp =>
      let aggr_iter := create_aggregate_iterator fuel filtered o agg fill clock in
      finalize (reduce_iterator aggr_iter (create_aggregator (grp_aggregation grp))) is_reverse count None f64_NAN
  | None, Some grp =>
      finalize (reduce_iterator filtered (create_aggregator (grp_aggregation grp))) is_reverse count None f64_NAN
  | Some agg, None =>
      let carry := last_carry_mask agg in
      let aggr_iter := create_aggregate_iterator fuel filtered o agg fill clock in
      finalize aggr_iter is_reverse count carry (carry_seed fill)
  | None, None => finalize filtered is_reverse count None f64_NAN
  end.

(** The helper of [create_range_iterator]: the partial sample of a compaction is
    the newest one. *)
Definition chain_latest (fuel : nat) (base : list Sample) (latest : option Sample) (o : RangeOptions)
    (grouping : option RangeGroupingOptions) (reverse_aggr should_reverse_iter : bool) (fill : EmptyFillBounds) (clock : Reading)
    : list Sample :=
  match latest with
  | Some sample =>
      if should_reverse_iter && negb (bool_decide (is_Some (ro_aggregation o)))
      then create_sample_iterator_adapter fuel (sample :: base) o grouping reverse_aggr fill clock
      else create_sample_iterator_adapter fuel (base ++ [sample]) o grouping reverse_aggr fill clock
  | None => create_sample_iterator_adapter fuel base o grouping reverse_aggr fill clock
  end.

Definition create_range_iterator (fuel : nat) (t : TimeSeries) (o : RangeOptions) (grouping : option RangeGroupingOptions)
    (latest_sample : option Sample) (is_reverse : bool) (clock : Readings) : list Sample :=
  let has_aggregation := bool_decide (is_Some (ro_aggregation o)) in
  let should_reverse_iter := negb has_aggregation && is_reverse in
  let should_reverse_aggr := has_aggregation && is_reverse in
  let empty_fill := empty_fill_bounds t o (at_fill clock) in
  match timestamp_filter o with
  | Some ts_filter =>
      let base_iter := timestamp_filter_samples t ts_filter should_reverse_iter in
      let opts := mkRangeOptions (date_range o) (ro_count o) false (ro_aggregation o) None (ro_value_filter o) in
      chain_latest fuel base_iter latest_sample opts grouping should_reverse_aggr is_reverse empty_fill (at_align clock)
  | None =>
      let base_iter := from_range_options t o should_reverse_iter (at_read clock) in
      chain_latest fuel base_iter latest_sample o grouping should_reverse_aggr is_reverse empty_fill (at_align clock)
  end.

Definition create_filtered_sample_iterator (t : TimeSeries) (o : RangeOptions) (latest_sample : option Sample) (clock : Reading)
    : list Sample :=
  let base_iter := match timestamp_filter o with
                   | Some ts_filter => timestamp_filter_samples t ts_filter false
                   | None => from_range_options t o false clock
                   end in
  let base_iter := match latest_sample with Some sample => base_iter ++ [sample] | None => base_iter end in
  match ro_value_filter o with
  | Some f => List.filter (fun s => vf_is_match f (value s)) base_iter
  | None => base_iter
  end.

(** Called with aggregation options. *)
Definition create_row_iterator (fuel : nat) (t : TimeSeries) (o : RangeOptions) (aggregation : AggregationOptions)
    (latest_sample : option Sample) (is_reverse : bool) (clock : Readings) : list MultiSample :=
  let filtered := create_filtered_sample_iterator t o latest_sample (at_read clock) in
  let '(start_ts, end_ts) := get_timestamp_range o (at_align clock) in
  let aligned_timestamp := get_aligned_timestamp (alignment aggregation) start_ts end_ts in
  let carry := last_carry_mask aggregation in
  let empty_fill := empty_fill_bounds t o (at_fill clock) in
  let aggr_iter := agg_collect fuel (with_empty_fill filtered aggregation aligned_timestamp empty_fill) in
  finalize aggr_iter is_reverse (ro_count o) carry (carry_seed empty_fill).

(** [get_range_latest_sample]: [is_compaction] and [latest_compaction] are what
    the rules of the series give. *)
Definition get_range_latest_sample (t : TimeSeries) (o : RangeOptions) (is_compaction : bool) (latest_compaction : option Sample)
    (clock : Reading) : option Sample :=
  if negb (ro_latest o && is_compaction) then None
  else
    let '(start_ts, end_ts) := get_timestamp_range o clock in
    let '(start_ts, end_ts) :=
      if negb (retention_is_zero t) then
        let start_ts := Z.max start_ts (get_min_timestamp t) in (start_ts, Z.max start_ts end_ts)
      else (start_ts, end_ts) in
    if series_last_timestamp t <? end_ts then
      match latest_compaction with
      | Some s =>
          if (start_ts <=? timestamp s) && (timestamp s <=? end_ts) &&
             match timestamp_filter o with Some f => bool_decide (timestamp s ∈ f) | None => true end
          then Some s else None
      | None => None
      end
    else None.

(** [TimeSeriesRangeIterator::new] with the items it gives, and its size hint. *)
Definition range_samples (fuel : nat) (t : TimeSeries) (o : RangeOptions) (is_compaction : bool) (latest_compaction : option Sample)
    (is_reverse : bool) (clock : Readings) : list Sample :=
  let latest := get_range_latest_sample t o is_compaction latest_compaction (at_latest clock) in
  create_range_iterator fuel t o None latest is_reverse clock.

Definition calculate_size_hint (o : RangeOptions) (has_latest : bool) : nat * option nat :=
  match timestamp_filter o with
  | Some ts_filter =>
      let max_elems := (length ts_filter + if has_latest then 1 else 0)%nat in
      match ro_count o with
      | Some count => (O, Some (count `min` max_elems)%nat)
      | None => (O, Some max_elems)
      end
  | None => (O, ro_count o)
  end.

End Query.
