(* ===== verification/RangeLaws.v ===== *)
(** * RangeLaws: what a range query returns

    The iterators of a query are equal to functions of the list of the visible
    samples: the window, the filters, the extent of the empty fill, the carry of
    the last value, the direction and COUNT. *)

From stdpp Require Import gmap strings.
From S2P Require Import Prelude Float64 Types Content ChunkOps Elf64 Log10Ref TimeSeriesChunk ChunkSearch SeriesIterator Rounding.
From S2P Require Import TimeSeries SeriesLaws SeriesReads TimestampRange TimestampFilter Aggregators AggregateIterator RangeQuery.

(** ** Adapters *)

Definition directed {A} (is_reverse : bool) (l : list A) : list A := if is_reverse then reverse l else l.

Lemma timestamp_matches ts_list ts : timestamp_filter_matches (timestamp_filter_new ts_list) ts = bool_decide (ts ∈ ts_list).
Proof.
  unfold timestamp_filter_new. destruct (_ <? _)%nat; [|done]. cbn. apply bool_decide_ext. apply elem_of_list_to_set.
Qed.

Lemma tail_push_spec {A} n (l : list A) : (0 < n)%nat -> fold_left (tail_push n) l [] = drop (length l - n) l.
Proof.
  intros Hn. induction l as [|x l IH] using rev_ind; [done|]. rewrite fold_left_app, IH. cbn [fold_left]. unfold tail_push.
  rewrite length_drop, length_app. cbn [length].
  destruct (Nat.eqb_spec (length l - (length l - n)) n) as [He|He].
  - rewrite drop_app_le by lia. f_equal. replace (length l + 1 - n)%nat with (S (length l - n)) by lia.
    rewrite <- Nat.add_1_r, <- drop_drop. by destruct (drop (length l - n) l).
  - replace (length l - n)%nat with 0%nat by lia. by replace (length l + 1 - n)%nat with 0%nat by lia.
Qed.

Lemma tail_iter_spec {A} (l : list A) n : tail_iter l n = drop (length l - n) l.
Proof.
  unfold tail_iter. destruct (Nat.eqb_spec n 0) as [->|Hn]; [by rewrite Nat.sub_0_r, drop_all|apply tail_push_spec; lia].
Qed.

(** Buffering only what COUNT can reach loses nothing. *)
Lemma reverse_limited_spec {A} (l : list A) count :
  apply_iter_limit (reverse_limited l count) count = apply_iter_limit (reverse l) count.
Proof.
  destruct count as [n|]; [|done]. unfold apply_iter_limit, reverse_limited, reverse_iter. rewrite tail_iter_spec.
  destruct (Nat.le_gt_cases n (length l)); [|by replace (length l - n)%nat with 0%nat by lia].
  rewrite <- (take_drop (length l - n) l) at 3. rewrite reverse_app, take_app_le; [done|].
  rewrite length_reverse, length_drop. lia.
Qed.

Definition carried {T} `{BucketValues T} (carry : option (list bool)) (seed : f64) (items : list T) : list T :=
  match carry with Some mask => carry_last_empty items mask seed | None => items end.

(** The carry runs in time order, whatever the direction of the query. *)
Lemma finalize_spec {T} `{BucketValues T} (items : list T) rev count carry seed :
  finalize items rev count carry seed = apply_iter_limit (directed rev (carried carry seed items)) count.
Proof. unfold finalize, directed, carried. destruct rev, carry; try done; apply reverse_limited_spec. Qed.

(** ** Reading *)

Section Reads.

Context `{Log10} `{ServerConfig}.

Lemma series_samples_spec {P} t ls s e rev : series_rep P t ls ->
  series_samples t s e rev = directed rev (select s e (concat ls)).
Proof.
  intros Hr. unfold series_samples.
  destruct (si_new_spec (chunks t) ls (series_is_empty t) s e rev (sr_layout _ _ Hr) (rep_empty _ _ Hr)) as [Hok El].
  rewrite (si_collect_spec _ _ ls Hok); [exact El|]. rewrite El. unfold series_len. rewrite (sr_total _ _ Hr), Nat2Z.id.
  assert (length (select s e (concat ls)) <= length (concat ls))%nat by apply filter_length_le.
  destruct rev; rewrite ?length_reverse; done.
Qed.

Lemma from_range_options_spec {P} t ls o rev clock : series_rep P t ls ->
  from_range_options t o rev clock =
  directed rev (select (get_timestamp_range o clock).1 (get_timestamp_range o clock).2 (visible t (concat ls))).
Proof.
  intros Hr. unfold from_range_options. destruct (get_timestamp_range o clock) as [s e]. cbn [fst snd].
  by rewrite (series_samples_spec t ls _ _ _ Hr), select_visible.
Qed.

(** ** Outside the window *)

(** The filters of a query. *)
Definition passing (o : RangeOptions) : Sample -> bool := passes (timestamp_filter o) (ro_value_filter o).

Definition unfiltered (o : RangeOptions) : bool :=
  negb (bool_decide (is_Some (ro_value_filter o))) && negb (bool_decide (is_Some (timestamp_filter o))).

Lemma passing_unfiltered o s : unfiltered o = true -> passing o s = true.
Proof.
  unfold unfiltered, passing, passes. intros [Hv Ht]%andb_true_iff.
  destruct (ro_value_filter o); [by rewrite bool_decide_true in Hv|]. destruct (timestamp_filter o); [by rewrite bool_decide_true in Ht|done].
Qed.

Lemma visible_sorted {P} t ls : series_rep P t ls -> content_ok (visible t (concat ls)).
Proof.
  intros Hr. destruct (sr_layout _ _ Hr) as (_ & _ & Hs & Hv). split; [by apply ts_sorted_filter|by apply Forall_list_filter].
Qed.

Lemma visible_nonempty {P} t ls : series_rep P t ls -> chunks t <> [] -> visible t (concat ls) <> [].
Proof.
  intros Hr Hc. pose proof (min_timestamp_bounds _ _ Hr) as Hm. pose proof (sr_layout _ _ Hr) as HL. rewrite (sr_last _ _ Hr) in Hm.
  destruct (list.last (concat ls)) as [x|] eqn:El.
  - intros Hn. assert (x ∈ visible t (concat ls)) as Hx; [|by rewrite Hn in Hx; apply elem_of_nil in Hx].
    apply list_elem_of_In, filter_In. split; [by apply list_elem_of_In, last_Some_elem_of|]. apply Z.leb_le. lia.
  - apply last_None in El. destruct HL as (HF & Hne & _). apply (concat_empty _ Hne) in El. subst. by inversion HF.
Qed.

Lemma first_of_least l x : content_ok l -> x ∈ l -> first_of l <= timestamp x.
Proof.
  intros [Hs _] Hx. destruct Hs as [|y l Hs Hy]; [by apply elem_of_nil in Hx|]. cbn. apply elem_of_cons in Hx as [->|Hx]; [lia|].
  rewrite Forall_forall in Hy. specialize (Hy x Hx). unfold ts_lt in Hy. lia.
Qed.

Lemma last_greatest l x y : content_ok l -> list.last l = Some y -> x ∈ l -> timestamp x <= timestamp y.
Proof.
  intros [Hs _] El Hx. apply last_Some in El as [l' ->]. apply elem_of_app in Hx as [Hx|Hx]; [|by apply list_elem_of_singleton in Hx as ->].
  apply ts_sorted_app in Hs as (_ & _ & Hxy). rewrite Forall_forall in Hxy. specialize (Hxy x Hx). apply Forall_cons in Hxy as [Hxy _].
  unfold ts_lt in Hxy. lia.
Qed.

(** Reading from the first visible sample on is reading what is visible. *)
Lemma select_from_first {P} t ls s e : series_rep P t ls -> chunks t <> [] ->
  select (Z.max s (visible_first_timestamp t)) e (concat ls) = select s e (visible t (concat ls)).
Proof.
  intros Hr Hc. rewrite select_visible, (visible_first_spec _ _ Hr). pose proof (visible_nonempty _ _ Hr Hc) as Hne.
  pose proof (visible_sorted _ _ Hr) as Hv. unfold select. apply filter_ext_in. intros x Hx.
  destruct (Z.leb_spec (get_min_timestamp t) (timestamp x)) as [Hle|Hgt].
  - assert (first_of (visible t (concat ls)) <= timestamp x).
    { apply first_of_least; [done|]. apply list_elem_of_In, filter_In. split; [done|by apply Z.leb_le]. }
    unfold in_range. lia.
  - assert (get_min_timestamp t <= first_of (visible t (concat ls))).
    { destruct (visible t (concat ls)) as [|y v] eqn:E; [done|]. cbn. assert (y ∈ visible t (concat ls)) as Hy by (rewrite E; by left).
      apply list_elem_of_In, filter_In in Hy as [_ Hy%Z.leb_le]. done. }
    unfold in_range. lia.
Qed.

Lemma visible_last {P} t ls : series_rep P t ls -> list.last (visible t (concat ls)) = last_sample t.
Proof.
  intros Hr. pose proof (min_timestamp_bounds _ _ Hr) as Hm. rewrite (sr_last _ _ Hr) in *.
  destruct (list.last (concat ls)) as [x|] eqn:El.
  - apply last_Some in El as [l' ->]. rewrite visible_app. unfold visible at 2. cbn [List.filter].
    destruct (Z.leb_spec (get_min_timestamp t) (timestamp x)); [by rewrite last_snoc|lia].
  - apply last_None in El. by rewrite El.
Qed.

(** The scan outside the window; an unfiltered query answers from the extent of
    the series, which is the same where the range reaches over one end of it. *)
Lemma has_passing_spec {P} t ls o from to : series_rep P t ls ->
  (unfiltered o = true -> from <= first_of (visible t (concat ls)) \/ Forall (fun x => timestamp x <= to) (visible t (concat ls))) ->
  has_passing_sample t o from to = existsb (passing o) (select from to (visible t (concat ls))).
Proof.
  intros Hr Hone. unfold has_passing_sample. set (v := visible t (concat ls)) in *.
  assert (forall l : list Sample, l = [] -> false = existsb (passing o) l) as Hnil by (by intros l ->).
  destruct (Z.ltb_spec to from) as [Hlt|Hle]; cbn [orb]; [apply Hnil, select_none, Forall_true; intros; lia|].
  rewrite (rep_empty _ _ Hr). destruct (chunks t) as [|c cs] eqn:Ec.
  { unfold v. pose proof (sr_layout _ _ Hr) as HL. rewrite Ec in HL. by rewrite (layout_nil_inv _ HL). }
  assert (chunks t <> []) as Hc by (by rewrite Ec). pose proof (visible_sorted _ _ Hr) as Hv. pose proof (visible_nonempty _ _ Hr Hc) as Hne.
  pose proof (select_from_first t ls from to Hr Hc) as Hsel. pose proof (visible_first_spec _ _ Hr) as Hfirst. pose proof (visible_last _ _ Hr) as Hlast.
  fold v in Hv, Hne, Hfirst, Hsel, Hlast. destruct (list.last v) as [y|] eqn:Ey; [|by apply last_None in Ey].
  unfold series_last_timestamp. rewrite <- Hlast.
  pose proof (fun x => first_of_least v x Hv) as Hlo. pose proof (fun x => last_greatest v x y Hv Ey) as Hhi.
  destruct (Z.ltb_spec to (visible_first_timestamp t)) as [H1|H1]; [|destruct (Z.ltb_spec (timestamp y) from) as [H2|H2]]; cbn [orb].
  - apply Hnil, select_none, Forall_forall. intros x Hx. specialize (Hlo x Hx). lia.
  - apply Hnil, select_none, Forall_forall. intros x Hx. specialize (Hhi x Hx). lia.
  - fold (unfiltered o). destruct (unfiltered o) eqn:Hu.
    + symmetry. apply existsb_exists. destruct v as [|x v'] eqn:Ev; [done|]. cbn [first_of] in *.
      destruct (Hone eq_refl) as [Hf|Hall].
      * exists x. split; [|by apply passing_unfiltered]. apply filter_In. split; [by left|unfold in_range; lia].
      * exists y. split; [|by apply passing_unfiltered]. apply last_Some_elem_of in Ey.
        rewrite Forall_forall in Hall. specialize (Hall y Ey). apply filter_In. split; [by apply list_elem_of_In|unfold in_range; lia].
    + rewrite (series_samples_spec t ls _ _ _ Hr). cbn [directed]. by rewrite Hsel.
Qed.

Definition data_before (o : RangeOptions) (ts : Timestamp) (v : list Sample) : bool :=
  existsb (passing o) (List.filter (fun x => timestamp x <? ts) v).
Definition data_after (o : RangeOptions) (ts : Timestamp) (v : list Sample) : bool :=
  existsb (passing o) (List.filter (fun x => ts <? timestamp x) v).

(** The last sample before [ts] that passes. *)
Definition last_before (o : RangeOptions) (ts : Timestamp) (v : list Sample) : option Sample :=
  list.last (List.filter (fun x => passing o x && (timestamp x <? ts)) v).

(** How far the empty fill reaches, from the visible samples alone: to an end of
    the window that has passing data beyond it, unless the window has no passing
    sample and is not between two. *)
Definition fill_extent (o : RangeOptions) (agg : AggregationOptions) (window : Timestamp * Timestamp) (v : list Sample) : EmptyFillBounds :=
  if negb (report_empty agg) then no_fill
  else
    let '(s, e) := window in
    let leads := data_before o s v in
    let trails := data_after o e v in
    let overlaps := leads && trails || existsb (passing o) (select s e v) in
    mkEmptyFillBounds (if overlaps && leads then Some s else None) (if overlaps && trails then Some e else None)
      (if overlaps && leads && bool_decide (is_Some (last_carry_mask agg)) then
         match last_before o (bucket_start_for s (get_aligned_timestamp (alignment agg) s e) (bucket_duration agg)) v with
         | Some x => value x
         | None => f64_NAN
         end
       else f64_NAN).

Lemma find_last {A} (f : A -> bool) l : List.find f (reverse l) = list.last (List.filter f l).
Proof.
  induction l as [|x l IH] using rev_ind; [done|]. rewrite reverse_app, List.filter_app. cbn.
  destruct (f x); [by rewrite last_snoc|]. by rewrite app_nil_r.
Qed.

Lemma filter_filter_and {A} (f g : A -> bool) l : List.filter f (List.filter g l) = List.filter (fun x => f x && g x) l.
Proof.
  induction l as [|x l IH]; [done|]. cbn. destruct (g x); cbn; [|by rewrite andb_false_r]. destruct (f x); cbn; by rewrite IH.
Qed.

(** Timestamps that leave room above. *)
Definition below_max (l : list Sample) : Prop := Forall (fun x => timestamp x < i64_MAX) l.

Lemma select_before s v : content_ok v -> is_i64 s -> select i64_MIN (sat_i64 (s - 1)) v = List.filter (fun x => timestamp x <? s) v.
Proof.
  intros [_ Hv] Hs. apply filter_ext_in. intros x Hx%list_elem_of_In. rewrite Forall_forall in Hv. destruct (Hv x Hx) as [_ Hpos].
  unfold in_range, sat_i64, i64_MIN, i64_MAX, is_i64 in *. lia.
Qed.

Lemma select_after e v : below_max v -> is_i64 e -> select (sat_i64 (e + 1)) i64_MAX v = List.filter (fun x => e <? timestamp x) v.
Proof.
  intros Hv He. apply filter_ext_in. intros x Hx%list_elem_of_In. unfold below_max in Hv. rewrite Forall_forall in Hv. specialize (Hv x Hx).
  unfold in_range, sat_i64, i64_MIN, i64_MAX, is_i64 in *. cbn in Hv. lia.
Qed.

Lemma select_upto b v : content_ok v -> is_i64 b -> select 0 (sat_i64 (b - 1)) v = List.filter (fun x => timestamp x <? b) v.
Proof.
  intros [_ Hv] Hs. apply filter_ext_in. intros x Hx%list_elem_of_In. rewrite Forall_forall in Hv. destruct (Hv x Hx) as [_ Hpos].
  unfold in_range, sat_i64, i64_MIN, i64_MAX, is_i64 in *. lia.
Qed.

Lemma first_of_nonneg v : content_ok v -> 0 <= first_of v.
Proof. intros [_ Hv]. destruct v as [|x v]; [done|]. apply Forall_cons in Hv as [[_ Hx] _]. done. Qed.

Lemma last_passing_spec {P} t ls o b : series_rep P t ls -> is_i64 b ->
  last_passing_sample_before t o (sat_i64 (b - 1)) = last_before o b (visible t (concat ls)).
Proof.
  intros Hr Hb. unfold last_passing_sample_before, last_before. set (v := visible t (concat ls)).
  pose proof (visible_sorted _ _ Hr) as Hv. fold v in Hv. rewrite <- filter_filter_and, <- (select_upto b v Hv Hb).
  assert (forall l : list Sample, l = [] -> None = list.last (List.filter (passing o) l)) as Hnil by (by intros l ->).
  rewrite (rep_empty _ _ Hr). destruct (chunks t) as [|c cs] eqn:Ec; cbn [orb].
  { unfold v. pose proof (sr_layout _ _ Hr) as HL. rewrite Ec in HL. by rewrite (layout_nil_inv _ HL). }
  assert (chunks t <> []) as Hc by (by rewrite Ec). pose proof (visible_first_spec _ _ Hr) as Hfirst. fold v in Hfirst.
  destruct (Z.ltb_spec (sat_i64 (b - 1)) (visible_first_timestamp t)) as [Hlt|Hle].
  - apply Hnil, select_none, Forall_forall. intros x Hx. pose proof (first_of_least v x Hv Hx). lia.
  - rewrite (series_samples_spec t ls _ _ _ Hr). cbn [directed]. rewrite find_last.
    rewrite <- (select_from_first t ls 0 _ Hr Hc). rewrite Z.max_r; [done|]. rewrite Hfirst. by apply first_of_nonneg.
Qed.

Lemma no_data_before o s v : content_ok v -> unfiltered o = true -> data_before o s v = false ->
  s <= first_of v \/ v = [].
Proof.
  intros Hv Hu Hd. destruct v as [|x v]; [by right|]. left. cbn. destruct (Z.lt_ge_cases (timestamp x) s) as [Hlt|]; [|done].
  exfalso. unfold data_before in Hd. cbn [List.filter] in Hd. apply Z.ltb_lt in Hlt. rewrite Hlt in Hd. cbn in Hd.
  by rewrite (passing_unfiltered _ _ Hu) in Hd.
Qed.

Lemma no_data_after o e v : unfiltered o = true -> data_after o e v = false -> Forall (fun x => timestamp x <= e) v.
Proof.
  intros Hu Hd. apply Forall_forall. intros x Hx. destruct (Z.lt_ge_cases e (timestamp x)) as [Hlt|]; [|done]. exfalso.
  assert (existsb (passing o) (List.filter (fun x => e <? timestamp x) v) = true) as Ht.
  { apply existsb_exists. exists x. split; [|by apply passing_unfiltered]. apply filter_In. split; [by apply list_elem_of_In|lia]. }
  unfold data_after in Hd. by rewrite Hd in Ht.
Qed.

(** The fill found by scanning the series is the one the visible samples give. *)
Lemma empty_fill_spec {P} t ls o agg clock : series_rep P t ls -> ro_aggregation o = Some agg ->
  is_i64 (get_timestamp_range o clock).1 -> is_i64 (get_timestamp_range o clock).2 -> below_max (visible t (concat ls)) ->
  empty_fill_bounds t o clock = fill_extent o agg (get_timestamp_range o clock) (visible t (concat ls)).
Proof.
  intros Hr Ha Hs He Hm. unfold empty_fill_bounds, fill_extent. rewrite Ha. destruct (report_empty agg); [|done]. cbn [negb].
  destruct (get_timestamp_range o clock) as [s e]. cbn [fst snd] in *. set (v := visible t (concat ls)) in *.
  pose proof (visible_sorted _ _ Hr) as Hv. fold v in Hv. pose proof (first_of_nonneg v Hv) as Hpos.
  assert (has_passing_sample t o i64_MIN (sat_i64 (s - 1)) = data_before o s v) as Hlead.
  { rewrite (has_passing_spec _ _ _ _ _ Hr) by (intros _; left; fold v; unfold i64_MIN; lia). fold v. by rewrite select_before. }
  assert (has_passing_sample t o (sat_i64 (e + 1)) i64_MAX = data_after o e v) as Htrail.
  { rewrite (has_passing_spec _ _ _ _ _ Hr); fold v; [by rewrite select_after|]. intros _. right.
    eapply Forall_impl; [exact Hm|]. cbn. lia. }
  rewrite Hlead, Htrail.
  assert (data_before o s v && data_after o e v || has_passing_sample t o s e =
    data_before o s v && data_after o e v || existsb (passing o) (select s e v)) as ->.
  { destruct (data_before o s v) eqn:Eb; destruct (data_after o e v) eqn:Ea; cbn [andb orb]; try done;
      (rewrite (has_passing_spec _ _ _ _ _ Hr); [done|]; intros Hu; fold v).
    - right. by apply (no_data_after o).
    - destruct (no_data_before o s v Hv Hu Eb) as [?| ->]; [by left|by right].
    - right. by apply (no_data_after o). }
  destruct ((data_before o s v && data_after o e v || existsb (passing o) (select s e v)) && data_before o s v); cbn [andb]; [|done].
  destruct (bool_decide (is_Some (Some s))) eqn:Eb; [cbn [andb]|by apply bool_decide_eq_false in Eb; destruct Eb].
  f_equal. destruct (bool_decide (is_Some (last_carry_mask agg))); [|done].
  rewrite (last_passing_spec t ls _ _ Hr); [done|]. unfold bucket_start_for. apply wrap_i64_range.
Qed.

(** ** The whole query *)

(** FILTER_BY_TS lists no timestamp outside the window: the parser drops them. *)
Definition clipped (o : RangeOptions) (window : Timestamp * Timestamp) : Prop :=
  forall f, timestamp_filter o = Some f -> Forall (fun ts => window.1 <= ts <= window.2) f.

Definition value_passes (o : RangeOptions) (s : Sample) : bool :=
  match ro_value_filter o with Some f => vf_is_match f (value s) | None => true end.

(** The samples of a query in time order, the partial one of LATEST last. *)
Definition query_samples (o : RangeOptions) (window : Timestamp * Timestamp) (latest : option Sample) (v : list Sample) : list Sample :=
  List.filter (passing o) (select window.1 window.2 v) ++ List.filter (value_passes o) (option_list latest).

Lemma passing_listed o f s : timestamp_filter o = Some f -> passing o s = value_passes o s && bool_decide (timestamp s ∈ f).
Proof. intros E. unfold passing, passes, value_passes. rewrite E, timestamp_matches. apply andb_comm. Qed.

Lemma passing_unlisted o s : timestamp_filter o = None -> passing o s = value_passes o s.
Proof. intros E. unfold passing, passes. by rewrite E. Qed.

Lemma filter_directed {A} (f : A -> bool) rev l : List.filter f (directed rev l) = directed rev (List.filter f l).
Proof.
  destruct rev; [|done]. cbn [directed]. induction l as [|x l IH]; [done|]. rewrite reverse_cons, List.filter_app, IH. cbn [List.filter].
  destruct (f x); [by rewrite reverse_cons|by rewrite app_nil_r].
Qed.

Lemma base_spec {P} t ls o rev clock : series_rep P t ls -> clipped o (get_timestamp_range o clock) ->
  let w := get_timestamp_range o clock in
  List.filter (value_passes o)
    (match timestamp_filter o with Some f => timestamp_filter_samples t f rev | None => from_range_options t o rev clock end) =
  directed rev (List.filter (passing o) (select w.1 w.2 (visible t (concat ls)))).
Proof.
  intros Hr Hc w. destruct (timestamp_filter o) as [f|] eqn:Ef.
  - rewrite (timestamp_filter_spec t ls f rev Hr). cbn zeta. fold (directed rev (List.filter (fun x => bool_decide (timestamp x ∈ f)) (visible t (concat ls)))).
    rewrite filter_directed. f_equal. rewrite filter_filter_and. unfold select. rewrite filter_filter_and. apply filter_ext_in. intros x _.
    rewrite (passing_listed o f) by done. destruct (bool_decide (timestamp x ∈ f)) eqn:Hin; [|by rewrite andb_false_r].
    apply bool_decide_eq_true in Hin. specialize (Hc f Ef). rewrite Forall_forall in Hc. specialize (Hc _ Hin). fold w in Hc. cbn beta in Hc.
    replace (in_range w.1 w.2 x) with true by (unfold in_range; lia). by rewrite !andb_true_r.
  - rewrite (from_range_options_spec t ls o rev clock Hr), filter_directed. f_equal. apply filter_ext. intros x.
    by rewrite passing_unlisted.
Qed.

(** The options the adapter sees: the timestamps were already looked up. *)
Definition looked_up (o : RangeOptions) : RangeOptions :=
  mkRangeOptions (date_range o) (ro_count o) false (ro_aggregation o) None (ro_value_filter o).

(** What the adapter makes of the samples in time order. *)
Definition query_items (fuel : nat) (o : RangeOptions) (fill : EmptyFillBounds) (align_window : Timestamp * Timestamp) (ss : list Sample)
    : list Sample :=
  match ro_aggregation o with
  | Some agg =>
      let align := get_aligned_timestamp (alignment agg) align_window.1 align_window.2 in
      carried (last_carry_mask agg) (carry_seed fill) (map single_value (agg_collect fuel (with_empty_fill ss agg align fill)))
  | None => ss
  end.

Lemma adapter_spec fuel base o rev fill clock : timestamp_filter o = None ->
  create_sample_iterator_adapter fuel base o None rev fill clock =
  apply_iter_limit (directed rev (query_items fuel o fill (get_timestamp_range o clock) (List.filter (value_passes o) base))) (ro_count o).
Proof.
  intros Ef. unfold create_sample_iterator_adapter, query_items, create_aggregate_iterator.
  assert (List.filter (passes (timestamp_filter o) (ro_value_filter o)) base = List.filter (value_passes o) base) as ->.
  { apply filter_ext. intros x. by apply passing_unlisted. }
  destruct (ro_aggregation o) as [agg|]; [|by rewrite finalize_spec]. destruct (get_timestamp_range o clock) as [s e].
  by rewrite finalize_spec.
Qed.

(** The aggregation runs forwards, so only a raw query reads backwards. *)
Lemma chain_spec fuel base latest o rev fill clock : timestamp_filter o = None ->
  let aggregated := bool_decide (is_Some (ro_aggregation o)) in
  chain_latest fuel (directed (negb aggregated && rev) base) latest o None (aggregated && rev) rev fill clock =
  apply_iter_limit (directed rev (query_items fuel o fill (get_timestamp_range o clock)
    (List.filter (value_passes o) (base ++ option_list latest)))) (ro_count o).
Proof.
  intros Ef aggregated. unfold chain_latest.
  assert (forall base', base' = directed (negb aggregated && rev) (base ++ option_list latest) ->
    create_sample_iterator_adapter fuel base' o None (aggregated && rev) fill clock =
    apply_iter_limit (directed rev (query_items fuel o fill (get_timestamp_range o clock)
      (List.filter (value_passes o) (base ++ option_list latest)))) (ro_count o)) as Hgen.
  { intros base' ->. rewrite adapter_spec by done. rewrite filter_directed. unfold aggregated, query_items.
    destruct (ro_aggregation o) as [agg|]; [by rewrite bool_decide_true|]. rewrite bool_decide_false by (by intros []).
    cbn [negb andb directed]. done. }
  destruct latest as [s|]; [|apply Hgen; by rewrite app_nil_r].
  fold aggregated. destruct aggregated, rev; cbn [negb andb]; apply Hgen; cbn [negb andb directed option_list]; try done.
  by rewrite reverse_app.
Qed.

Lemma directed_twice {A} rev (l : list A) : directed rev (directed rev l) = l.
Proof. destruct rev; [apply reverse_involutive|done]. Qed.

Lemma range_iterator_spec {P} fuel t ls o latest rev clock : series_rep P t ls -> clipped o (get_timestamp_range o (at_read clock)) ->
  create_range_iterator fuel t o None latest rev clock =
  apply_iter_limit (directed rev (query_items fuel o (empty_fill_bounds t o (at_fill clock)) (get_timestamp_range o (at_align clock))
    (query_samples o (get_timestamp_range o (at_read clock)) latest (visible t (concat ls))))) (ro_count o).
Proof.
  intros Hr Hc. unfold create_range_iterator. set (agg := bool_decide (is_Some (ro_aggregation o))).
  set (w := get_timestamp_range o (at_read clock)) in *. set (fill := empty_fill_bounds t o (at_fill clock)).
  pose proof (base_spec t ls o (negb agg && rev) (at_read clock) Hr Hc) as Hb. cbn zeta in Hb. fold w in Hb.
  set (found := List.filter (passing o) (select w.1 w.2 (visible t (concat ls)))) in *.
  assert (forall o' base, timestamp_filter o' = None -> ro_aggregation o' = ro_aggregation o -> ro_value_filter o' = ro_value_filter o ->
    ro_count o' = ro_count o -> date_range o' = date_range o -> List.filter (value_passes o) base = directed (negb agg && rev) found ->
    chain_latest fuel base latest o' None (agg && rev) rev fill (at_align clock) =
    apply_iter_limit (directed rev (query_items fuel o fill (get_timestamp_range o (at_align clock))
      (query_samples o w latest (visible t (concat ls))))) (ro_count o)) as Hgen.
  { intros o' base Et Ea Ev Ec Ed Hbase. rewrite <- (directed_twice (negb agg && rev) base). unfold agg. rewrite <- Ea, chain_spec by done.
    assert (value_passes o' = value_passes o) as -> by (unfold value_passes; by rewrite Ev).
    rewrite List.filter_app, filter_directed, Ea. fold agg. rewrite Hbase, directed_twice, Ec. unfold query_items, get_timestamp_range.
    by rewrite Ea, Ed. }
  destruct (timestamp_filter o) as [f|] eqn:Ef; by apply Hgen.
Qed.

(** The rows of several aggregators come from the same samples. *)
Lemma row_iterator_spec {P} fuel t ls o agg latest rev clock : series_rep P t ls -> clipped o (get_timestamp_range o (at_read clock)) ->
  let w := get_timestamp_range o (at_align clock) in
  let fill := empty_fill_bounds t o (at_fill clock) in
  create_row_iterator fuel t o agg latest rev clock =
  apply_iter_limit (directed rev (carried (last_carry_mask agg) (carry_seed fill)
    (agg_collect fuel (with_empty_fill (query_samples o (get_timestamp_range o (at_read clock)) latest (visible t (concat ls)))
      agg (get_aligned_timestamp (alignment agg) w.1 w.2) fill)))) (ro_count o).
Proof.
  intros Hr Hc w fill. unfold create_row_iterator. fold w fill. destruct w as [s e]. rewrite finalize_spec. cbn [fst snd]. repeat f_equal.
  unfold create_filtered_sample_iterator. pose proof (base_spec t ls o false (at_read clock) Hr Hc) as Hb. cbn zeta in Hb. cbn [directed] in Hb.
  unfold query_samples. rewrite <- Hb, <- List.filter_app. set (base := match timestamp_filter o with Some _ => _ | None => _ end).
  assert (match latest with Some x => base ++ [x] | None => base end = base ++ option_list latest) as ->.
  { destruct latest; [done|]. by rewrite app_nil_r. }
  unfold value_passes. destruct (ro_value_filter o); [done|]. symmetry. apply filter_all. by apply Forall_true.
Qed.

End Reads.
