(* ===== verification/FilteredReads.v ===== *)
(** * FilteredReads: reading a series by a list of timestamps and a value filter

    [samples_by_timestamps] groups the timestamps by the chunk that owns them, reads the
    groups in the order a hash map gives them and sorts what they return: the stored
    samples with one of the timestamps.  [get_range_filtered] adds the window, the
    retention and the filter on values. *)

From stdpp Require Import list sorting.
From S2P Require Import Prelude Float64 Types Slice Content Merge ChunkOps ChunkMethods Elf64 TimeSeriesChunk ChunkSearch SeriesIterator.
From S2P Require Import Rounding TimeSeries SeriesLaws SeriesReads SeriesWrites RangeLaws.

Local Open Scope Z_scope.

(** ** The groups *)

(** Each index once, with its timestamps in order. *)
Definition meta_ok (owner : nat -> Timestamp -> bool) (m : list ChunkMeta) (tss : list Timestamp) : Prop :=
  NoDup (map fst m) /\ (forall i g, (i, g) ∈ m -> g = List.filter (owner i) tss) /\ (forall i u, u ∈ tss -> owner i u = true -> exists g, (i, g) ∈ m).

Lemma meta_push_keys m i u : NoDup (map fst m) -> NoDup (map fst (meta_push m i u)) /\ forall j, j ∈ map fst (meta_push m i u) <-> j = i \/ j ∈ map fst m.
Proof.
  induction m as [|[k g] m IH]; cbn [meta_push map]; intros Hn; [split; [repeat constructor; apply not_elem_of_nil|intros j; rewrite !elem_of_cons; tauto]|].
  destruct (Nat.eqb_spec k i) as [->|Hne]; cbn [map fst] in *; [split; [done|intros j; rewrite elem_of_cons; tauto]|].
  inversion Hn as [|? ? Hk Hn']; subst. destruct (IH Hn') as [H1 H2]. split.
  - constructor; [|done]. rewrite H2. intros [->|]; done.
  - intros j. rewrite !elem_of_cons, H2. tauto.
Qed.

Lemma meta_push_groups m i u j g : NoDup (map fst m) -> (j, g) ∈ meta_push m i u <->
  j <> i /\ (j, g) ∈ m \/ j = i /\ (i ∉ map fst m /\ g = [u] \/ exists g0, (i, g0) ∈ m /\ g = g0 ++ [u]).
Proof.
  induction m as [|[k h] m IH]; cbn [meta_push map fst]; intros Hn.
  { rewrite list_elem_of_singleton. split; [intros [= -> ->]; right; split; [done|]; left; split; [apply not_elem_of_nil|done]|].
    intros [[_ Hin]|[-> [[_ ->]|(g0 & Hin & _)]]]; [by apply elem_of_nil in Hin|done|by apply elem_of_nil in Hin]. }
  inversion Hn as [|? ? Hk Hn']; subst. specialize (IH Hn'). destruct (Nat.eqb_spec k i) as [->|Hne].
  - assert (forall g', (i, g') ∈ m -> False) as Hno by (intros g' Hin; apply Hk, list_elem_of_In, in_map_iff; exists (i, g'); by rewrite <- list_elem_of_In).
    rewrite !elem_of_cons. split.
    + intros [[= -> ->]|Hin]; [right; split; [done|]; right; exists h; split; [by left|done]|]. destruct (decide (j = i)) as [->|]; [by destruct (Hno g)|]. left. split; [done|by right].
    + intros [[Hj [[= -> _]|Hin]]|[-> [[Hni _]|(g0 & [[= ->]|Hin]%elem_of_cons & ->)]]]; [done|by right|by destruct Hni; left|by left|by destruct (Hno g0)].
  - rewrite !elem_of_cons. split.
    + intros [[= -> ->]|[[Hj Hin]|[-> [[Hni ->]|(g0 & Hin & ->)]]]%IH]; [left; split; [done|by left]|left; split; [done|by right]|right; split; [done|]; left; split; [|done]; intros [?|?]; [congruence|done]|].
      right. split; [done|]. right. exists g0. split; [by right|done].
    + intros [[Hj [[= -> ->]|Hin]]|[-> [[Hni ->]|(g0 & [[= <- ->]|Hin]%elem_of_cons & ->)]]]; [by left|right; apply IH; by left| |done|].
      * right. apply IH. right. split; [done|]. left. split; [|done]. intros Hin. apply Hni. by right.
      * right. apply IH. right. split; [done|]. right. by exists g0.
Qed.

Lemma meta_push_ok owner m tss i u : (forall j, owner j u = true <-> j = i) -> meta_ok owner m tss -> meta_ok owner (meta_push m i u) (tss ++ [u]).
Proof.
  intros Ho (Hn & Hg & Hin). split_and!; [by apply meta_push_keys|..].
  - intros j g [[Hj Hjg]|[-> Hjg]]%meta_push_groups; [..|done]; rewrite List.filter_app; cbn [List.filter].
    + destruct (owner j u) eqn:E; [by apply Ho in E|]. rewrite app_nil_r. by apply Hg.
    + rewrite (proj2 (Ho i) eq_refl). destruct Hjg as [[Hni ->]|(g0 & Hg0 & ->)]; [|by rewrite (Hg i g0)].
      rewrite (filter_none (owner i) tss); [done|]. apply Forall_forall. intros v Hv. destruct (owner i v) eqn:E; [|done]. destruct (Hin i v Hv E) as [g Hig].
      destruct Hni. apply list_elem_of_In, in_map_iff. exists (i, g). by rewrite <- list_elem_of_In.
  - intros j v [Hv| ->%list_elem_of_singleton]%elem_of_app Hjv.
    + destruct (Hin j v Hv Hjv) as [g Hjg]. destruct (decide (j = i)) as [->|].
      * exists (g ++ [u]). apply meta_push_groups; [done|]. right. split; [done|]. right. by exists g.
      * exists g. apply meta_push_groups; [done|]. by left.
    + apply Ho in Hjv as ->. assert (i ∈ map fst (meta_push m i u)) as Hi by (apply meta_push_keys; [done|by left]).
      apply list_elem_of_In, in_map_iff in Hi as ([? g] & <- & Hi). exists g. by apply list_elem_of_In.
Qed.

Lemma meta_skip_ok owner m tss u : (forall j, owner j u = false) -> meta_ok owner m tss -> meta_ok owner m (tss ++ [u]).
Proof.
  intros Ho (Hn & Hg & Hin). split_and!; [done|..].
  - intros j g Hjg. rewrite List.filter_app. cbn [List.filter]. rewrite Ho, app_nil_r. by apply Hg.
  - intros j v [Hv| ->%list_elem_of_singleton]%elem_of_app Hjv; [by apply (Hin j v)|by rewrite Ho in Hjv].
Qed.

Section Reads.

Context `{Elf64.Log10} `{ServerConfig}.

Definition owner (t : TimeSeries) (i : nat) (u : Timestamp) : bool :=
  let '(k, found) := get_chunk_index (chunks t) u in found && (k <? length (chunks t))%nat && (k =? i)%nat.

Lemma meta_map_ok t tss : meta_ok (owner t) (meta_map t tss) tss.
Proof.
  assert (forall tss m done, meta_ok (owner t) m done -> meta_ok (owner t) (fold_left (fun m ts =>
    let '(index, found) := get_chunk_index (chunks t) ts in
    if found && (index <? length (chunks t))%nat then meta_push m index ts else m) tss m) (done ++ tss)) as Hgen.
  { clear tss. intros tss. induction tss as [|u tss IH]; intros m done Hm; [by rewrite app_nil_r|]. cbn [fold_left]. rewrite cons_middle, app_assoc. apply IH.
    destruct (get_chunk_index (chunks t) u) as [k found] eqn:E. destruct (found && (k <? length (chunks t))%nat) eqn:Ef.
    - apply meta_push_ok; [|exact Hm]. intros j. unfold owner. rewrite E, Ef. cbn. rewrite Nat.eqb_eq. split; congruence.
    - apply meta_skip_ok; [|exact Hm]. intros j. unfold owner. by rewrite E, Ef. }
  apply (Hgen tss [] []). split_and!; [constructor|..]; [intros ? ? Hin|intros ? ? Hin]; by apply elem_of_nil in Hin.
Qed.

(** A timestamp between the ends of a chunk is owned by that chunk. *)
Lemma owner_inside {P} t ls i c u : series_rep P t ls -> chunks t !! i = Some c -> first_timestamp c <= u <= last_timestamp c -> owner t i u = true.
Proof.
  intros Hr Hc Hu. pose proof (sr_layout _ _ Hr) as HL. unfold owner. pose proof (get_chunk_index_spec _ _ u HL) as Hg. destruct (get_chunk_index (chunks t) u) as [k []].
  - destruct Hg as (d & Hd & Hin). pose proof (lookup_lt_Some _ _ _ Hd). destruct (Nat.ltb_spec k (length (chunks t))); [|lia]. cbn. apply Nat.eqb_eq.
    destruct (Nat.lt_trichotomy k i) as [Hlt|[|Hlt]]; [|done|].
    + pose proof (layout_ordered _ _ _ _ _ _ HL Hlt Hd Hc). lia.
    + pose proof (layout_ordered _ _ _ _ _ _ HL Hlt Hc Hd). lia.
  - apply list_elem_of_lookup_2 in Hc. destruct (Hg c Hc); lia.
Qed.

(** ** The groups read *)

Definition group_samples (ls : list (list Sample)) (m : ChunkMeta) : list Sample := match ls !! m.1 with Some l => List.filter (ts_member m.2) l | None => [] end.

Lemma meta_fetch_spec {P} t ls m : series_rep P t ls -> ts_increasing m.2 -> meta_fetch t m = Ok (group_samples ls m).
Proof.
  intros Hr Hm. destruct (sr_layout _ _ Hr) as (HF & _ & _). unfold meta_fetch, group_samples. destruct (chunks t !! m.1) as [c|] eqn:Ec.
  - destruct (Forall2_lookup_l _ _ _ _ _ HF Ec) as (l & -> & Hcl). by apply holds_samples_by_timestamps.
  - apply lookup_ge_None in Ec. rewrite (proj2 (lookup_ge_None ls m.1)); [done|]. by rewrite <- (Forall2_length _ _ _ HF).
Qed.

Lemma fetch_all {P} t ls m acc : series_rep P t ls -> Forall (fun g => ts_increasing g.2) m ->
  try_fold (fun acc meta => let? l := meta_fetch t meta in Ok (acc ++ l)) acc m = Ok (acc ++ concat (map (group_samples ls) m)).
Proof.
  intros Hr Hm. revert acc. induction Hm as [|g m Hg Hm IH]; intros acc; cbn [try_fold map concat]; [by rewrite app_nil_r|].
  rewrite (meta_fetch_spec t ls g Hr Hg). rewrite IH. by rewrite app_assoc.
Qed.

(** Groups in the order of their chunks are a part of the stored list. *)
Lemma groups_sublist ls m k : StronglySorted lt (map fst m) -> Forall (fun g => k <= fst g)%nat m -> concat (map (group_samples ls) m) `sublist_of` concat (drop k ls).
Proof.
  revert k. induction m as [|[i g] m IH]; intros k Hs Hk; [apply sublist_nil_l|]. cbn [map concat fst] in *. apply Forall_cons in Hk as [Hik Hk]. inversion Hs as [|? ? Hs' Hi]; subst.
  assert (Forall (fun g => S i <= fst g)%nat m) as Hm by (by rewrite Forall_map in Hi).
  specialize (IH (S i) Hs' Hm). unfold group_samples at 1. cbn [fst] in *. destruct (ls !! i) as [l|] eqn:El.
  - transitivity (concat (drop i ls)).
    + rewrite (drop_S _ _ _ El). cbn [concat]. apply sublist_app; [|done]. clear. induction l as [|x l IHl]; [done|]. cbn. destruct (_ : bool); [by apply sublist_skip|by apply sublist_cons].
    + replace i with (k + (i - k))%nat by lia. rewrite <- drop_drop. rewrite <- (take_drop (i - k) (drop k ls)) at 2. rewrite concat_app. by apply sublist_inserts_l.
  - rewrite (drop_ge ls (S i)) in IH by (apply lookup_ge_None in El; lia). cbn. etrans; [exact IH|apply sublist_nil_l].
Qed.

Lemma increasing_nth tss : StronglySorted Z.lt tss -> ts_increasing tss.
Proof.
  intros Hs i j [Hij Hj]. destruct (lookup_lt_is_Some_2 tss i) as [u Hu]; [lia|]. destruct (lookup_lt_is_Some_2 tss j Hj) as [v Hv].
  rewrite !nth_lookup, Hu, Hv. cbn. exact (StronglySorted_lookup Z.lt tss i j u v Hs Hij Hu Hv).
Qed.

Lemma sublist_ts_sorted l l' : l `sublist_of` l' -> ts_sorted l' -> ts_sorted l.
Proof.
  induction 1 as [|x l l' Hl IH|x l l' Hl IH]; [done|..]; inversion 1 as [|? ? Hs Hx]; subst; [|by apply IH]. constructor; [by apply IH|].
  apply Forall_forall. intros y Hy. rewrite Forall_forall in Hx. apply Hx. by eapply elem_of_sublist.
Qed.

(** The groups by their chunk. *)
Definition by_chunk (m : list ChunkMeta) : list ChunkMeta := sort_by_key (fun g => Z.of_nat g.1) m.

Lemma distinct_keys_increase {A} (f : A -> nat) l : StronglySorted (fun a b => Z.of_nat (f a) <= Z.of_nat (f b)) l -> NoDup (map f l) -> StronglySorted lt (map f l).
Proof.
  induction 1 as [|g l Hs IH Hg]; cbn [map]; intros Hn; [constructor|]. inversion Hn as [|? ? Hni Hn']; subst. constructor; [by apply IH|].
  apply Forall_forall. intros j Hj. pose proof Hj as (h & Eh & Hh)%list_elem_of_In%in_map_iff. apply list_elem_of_In in Hh. rewrite Forall_forall in Hg. specialize (Hg h Hh).
  cbn beta in Hg. assert (f g <> j) by congruence. lia.
Qed.

Lemma by_chunk_increasing m : NoDup (map fst m) -> StronglySorted lt (map fst (by_chunk m)).
Proof.
  intros Hn. apply distinct_keys_increase; [apply (sort_by_key_sorted (fun g : ChunkMeta => Z.of_nat g.1) m)|].
  unfold by_chunk. by rewrite (sort_by_key_perm (fun g : ChunkMeta => Z.of_nat g.1) m).
Qed.

Lemma groups_exact {P} t ls tss : series_rep P t ls -> concat (map (group_samples ls) (by_chunk (meta_map t tss))) = List.filter (ts_member tss) (concat ls).
Proof.
  intros Hr. destruct (sr_layout _ _ Hr) as (HF & _ & [Hc _]). destruct (meta_map_ok t tss) as (Hn & Hg & Hin). pose proof (sort_by_key_perm (fun g : ChunkMeta => Z.of_nat g.1) (meta_map t tss)) as Hp.
  apply ts_sorted_ext.
  - eapply sublist_ts_sorted; [|exact Hc]. apply (groups_sublist ls _ 0); [by apply by_chunk_increasing|by apply Forall_true; lia].
  - by apply ts_sorted_filter.
  - intros x. rewrite elem_of_concat. split.
    + intros (l & (g & <- & Hgm)%list_elem_of_In%in_map_iff & Hx). apply list_elem_of_In in Hgm. unfold by_chunk in Hgm. rewrite Hp in Hgm. destruct g as [i g].
      unfold group_samples in Hx. cbn [fst snd] in Hx. destruct (ls !! i) as [l|] eqn:El; [|by apply elem_of_nil in Hx]. apply list_elem_of_In, filter_In in Hx as [Hxl Hm].
      apply list_elem_of_In, filter_In. split; [apply list_elem_of_In, elem_of_concat; exists l; split; [by eapply list_elem_of_lookup_2|by apply list_elem_of_In]|].
      unfold ts_member in *. rewrite (Hg i g Hgm) in Hm. apply existsb_exists in Hm as (u & Hu & Eu). apply existsb_exists. exists u. split; [|done]. by apply filter_In in Hu as [? _].
    + intros [Hx Hm]%list_elem_of_In%filter_In. apply list_elem_of_In, elem_of_concat in Hx as (l & [i Hi]%list_elem_of_lookup & Hx).
      destruct (Forall2_lookup_r _ _ _ _ _ HF Hi) as (c & Hci & Hcl). pose proof (holds_bounds _ _ Hcl) as Hb. rewrite Forall_forall in Hb. specialize (Hb x Hx). cbn beta in Hb.
      pose proof (owner_inside t ls i c (timestamp x) Hr Hci Hb) as Ho. unfold ts_member in Hm. apply existsb_exists in Hm as (u & Hu%list_elem_of_In & <-%Z.eqb_eq).
      destruct (Hin i _ Hu Ho) as [g Hig]. exists (group_samples ls (i, g)). split.
      * apply list_elem_of_In, in_map. apply list_elem_of_In. unfold by_chunk. by rewrite Hp.
      * unfold group_samples. cbn [fst snd]. rewrite Hi. apply list_elem_of_In, filter_In. split; [by apply list_elem_of_In|]. apply existsb_exists. exists (timestamp x).
        split; [|by apply Z.eqb_refl]. rewrite (Hg i g Hig). apply filter_In. split; [by apply list_elem_of_In|done].
Qed.

(** ** Reads *)

Lemma samples_by_timestamps_spec {P} into_values t ls tss : series_rep P t ls -> (forall m, into_values m ≡ₚ m) -> StronglySorted Z.lt tss ->
  samples_by_timestamps into_values t tss = Ok (List.filter (ts_member tss) (concat ls)).
Proof.
  intros Hr Hv Hs. unfold samples_by_timestamps. destruct (series_is_empty t) eqn:Ee; cbn [orb].
  { unfold series_is_empty, series_len in Ee. rewrite (sr_total _ _ Hr) in Ee. apply Z.eqb_eq in Ee. destruct (concat ls); [done|cbn [length] in Ee; lia]. }
  destruct tss as [|u tss'] eqn:Et; [by rewrite (filter_none (ts_member [])) by (by apply Forall_true)|]. rewrite <- Et in Hs |- *. rewrite <- (groups_exact t ls tss Hr).
  set (m := meta_map t tss). destruct (Nat.eqb_spec (length m) 0) as [Hz|Hz]; [by rewrite (nil_length_inv m Hz)|].
  assert (by_chunk m ≡ₚ m) as Hp by apply sort_by_key_perm. destruct (meta_map_ok t tss) as (_ & Hg & _). fold m in Hg.
  rewrite (fetch_all t ls (into_values m) [] Hr); cbn [app].
  2: { apply Forall_forall. intros [i g] Hin. rewrite Hv in Hin. cbn [snd]. rewrite (Hg i g Hin). by apply increasing_nth, StronglySorted_filter. }
  destruct (Nat.ltb_spec 1 (length m)) as [Hl|Hl]; cbn; f_equal.
  - apply sort_by_key_unique; [|by rewrite Hv, Hp]. unfold m. rewrite (groups_exact t ls tss Hr). destruct (sr_layout _ _ Hr) as (_ & _ & [Hc _]). by apply ts_sorted_filter.
  - destruct m as [|g [|g' m']]; [cbn in Hz; lia| |cbn in Hl; lia]. cbn in Hp. specialize (Hv [g]). apply Permutation_singleton_r in Hv as ->. done.
Qed.

(** A query by window, listed timestamps and value. *)
Definition filtered (tf : option (list Timestamp)) (vf : option ValueFilter) (l : list Sample) : list Sample :=
  let l := match tf with Some f => List.filter (fun x => bool_decide (timestamp x ∈ f)) l | None => l end in
  match vf with Some f => filter_samples_by_value l f | None => l end.

Lemma get_range_filtered_spec {P} into_values t ls s e tf vf : series_rep P t ls -> fits_memory (concat ls) -> (forall m, into_values m ≡ₚ m) ->
  get_range_filtered into_values t s e tf vf = filtered tf vf (select s e (visible t (concat ls))).
Proof.
  intros Hr Hm Hv. unfold get_range_filtered, filtered. rewrite select_visible. set (s' := Z.max s _). destruct (Z.ltb_spec e s') as [Hlt|Hle].
  { rewrite select_none by (apply Forall_true; intros; lia). by destruct tf, vf. }
  assert (match tf with Some f => List.filter (fun x => bool_decide (timestamp x ∈ f)) (select s' e (concat ls)) | None => select s' e (concat ls) end =
    match tf with Some f => match samples_by_timestamps into_values t (filter_timestamp_slice f s' e) with Ok l => l | Err _ => [] end | None => get_range t s' e end) as ->.
  { destruct tf as [f|].
    - unfold filter_timestamp_slice. destruct (distinct_spec (List.filter (fun ts => (s' <=? ts) && (ts <=? e)) f)) as [Hs Hin].
      rewrite (samples_by_timestamps_spec into_values t ls _ Hr Hv Hs). unfold select. rewrite filter_filter_and. apply filter_ext. intros x.
      apply eq_true_iff_eq. unfold ts_member, in_range. rewrite !andb_true_iff, bool_decide_eq_true, existsb_exists. split.
      + intros [Hx Hf]. exists (timestamp x). split; [|apply Z.eqb_refl]. apply list_elem_of_In, Hin, list_elem_of_In, filter_In. split; [by apply list_elem_of_In|lia].
      + intros (u & Hu & <-%Z.eqb_eq). apply list_elem_of_In, Hin, list_elem_of_In, filter_In in Hu as [Hu Hr']. split; [by apply list_elem_of_In|lia].
    - rewrite (get_range_spec t ls s' e Hr Hm), select_visible. unfold s'. f_equal. lia. }
  done.
Qed.

End Reads.
