(* ===== verification/RangeProps.v ===== *)
(** * RangeProps: the properties of range queries

    A range query over a series is a function of its visible samples: exact
    without and with aggregation, the same in both directions, with the last
    value carried over empty buckets in time order.  The inputs on which the
    code departs from that are stated as well. *)

From stdpp Require Import gmap sorting strings.
From S2P Require Import Prelude Float64 Types Content ChunkOps Elf64 Log10Ref TimeSeriesChunk ChunkSearch SeriesIterator Rounding.
From S2P Require Import TimeSeries SeriesLaws SeriesReads SeriesProps SeriesWrites TimestampRange TimestampFilter Aggregators AggregateIterator AggregateLaws.
From S2P Require Import AggregateColumns AggregateProps RangeQuery RangeLaws.

(** ** Aggregated queries *)

(** The window is the same at every reading of the clock. *)
Definition steady (o : RangeOptions) (clock : Readings) (w : Timestamp * Timestamp) : Prop :=
  get_timestamp_range o (at_fill clock) = w /\ get_timestamp_range o (at_read clock) = w /\ get_timestamp_range o (at_align clock) = w.

Definition query_align (agg : AggregationOptions) (w : Timestamp * Timestamp) : Timestamp := get_aligned_timestamp (alignment agg) w.1 w.2.

(** Bounds, alignment and timestamps far from the end of the 64-bit range, buckets
    of at least 2 ms where empty ones are reported, and a LATEST sample that is
    the newest one. *)
Record range_ok (agg : AggregationOptions) (w : Timestamp * Timestamp) (latest : option Sample) (v : list Sample) : Prop := {
  g_grid : grid_ok (bucket_duration agg) (query_align agg w);
  g_wide : report_empty agg = true -> 2 <= bucket_duration agg;
  g_window : near w.1 /\ near w.2;
  g_near : Forall (fun s => near (timestamp s)) v;
  g_latest : forall x, latest = Some x -> near (timestamp x) /\ Forall (fun s => timestamp s <= timestamp x) v;
}.

Lemma near_i64 ts : near ts -> is_i64 ts.
Proof. unfold near, TIME_BOUND, is_i64. lia. Qed.

Lemma near_below v : Forall (fun s => near (timestamp s)) v -> below_max v.
Proof. intros Hn. eapply Forall_impl; [exact Hn|]. unfold near, TIME_BOUND, i64_MAX. cbn. lia. Qed.

Lemma sorted_ordered l : ts_sorted l -> time_ordered l.
Proof. intros Hs. eapply StronglySorted_weaken; [|exact Hs]. unfold ts_lt. cbn. lia. Qed.

Lemma range_query_ok o agg w latest v : content_ok v -> range_ok agg w latest v ->
  query_ok agg (query_align agg w) (fill_extent o agg w v) (query_samples o w latest v).
Proof.
  intros [Hs _] [Hg Hw [H1 H2] Hn Hl]. unfold query_samples. set (found := List.filter (passing o) (select w.1 w.2 v)).
  assert (forall P, Forall P v -> Forall P found) as Hsub by (intros P HP; by apply Forall_list_filter, Forall_list_filter).
  assert (forall x, x ∈ List.filter (value_passes o) (option_list latest) -> latest = Some x) as Hlast.
  { intros x [Hx _]%list_elem_of_In%filter_In. destruct latest; cbn in Hx; [destruct Hx as [->|[]]; done|done]. }
  split; [done|done| | |].
  - unfold fill_extent. destruct w as [s e]. destruct (report_empty agg); [|done]. cbn [negb fill_start fill_end].
    split; intros q Hq; case_match; by simplify_eq.
  - apply StronglySorted_app_2.
    + intros x y Hx Hy%Hlast. destruct (Hl y Hy) as [_ Hle]. apply Hsub in Hle. rewrite Forall_forall in Hle. by apply Hle.
    + apply sorted_ordered. by apply ts_sorted_filter, ts_sorted_filter.
    + destruct latest as [x|]; cbn; [destruct (value_passes o x)|]; repeat constructor.
  - apply Forall_app. split; [by apply Hsub|]. apply Forall_forall. intros x Hx%Hlast. by apply (Hl x).
Qed.

(** ** The last value carried over empty buckets *)

Section Carry.

Context (d align : Z) (bt : BucketTimestamp) (seed : f64).
Hypothesis Hgrid : grid_ok d align.

Definition through_bucket (k : Z) (ss : list Sample) : list Sample := List.filter (fun s => bucket_of d align (timestamp s) <=? k) ss.

(** The last number of a list, or [v] if it has none. *)
Definition last_number (v : f64) (ss : list Sample) : f64 := default v (list.last (numbers ss)).

Lemma numbers_app a b : numbers (a ++ b) = numbers a ++ numbers b.
Proof. unfold numbers. by rewrite map_app, List.filter_app. Qed.

Lemma last_number_app v a b : last_number v (a ++ b) = last_number (last_number v a) b.
Proof. unfold last_number. rewrite numbers_app, last_app. by destruct (list.last (numbers b)). Qed.

Lemma last_number_none v ss : f64_is_nan (last_number f64_NAN ss) = true -> last_number v ss = v.
Proof.
  unfold last_number. destruct (list.last (numbers ss)) as [x|] eqn:E; [|done]. apply last_Some_elem_of, list_elem_of_In, filter_In in E as [_ E].
  cbn. by destruct (f64_is_nan x).
Qed.

Lemma last_number_default u v ss : f64_is_nan (last_number u ss) = false -> f64_is_nan u = true -> last_number v ss = last_number u ss.
Proof. unfold last_number. destruct (list.last (numbers ss)); [done|]. cbn. congruence. Qed.

Lemma through_split k ss : time_ordered ss -> through_bucket k ss = through_bucket (k - 1) ss ++ in_bucket d align k ss.
Proof.
  induction ss as [|s ss IH]; [done|]. intros [Ho Hs]%time_ordered_cons. unfold through_bucket, in_bucket in *. cbn [List.filter].
  destruct (Z.leb_spec (bucket_of d align (timestamp s)) k), (Z.leb_spec (bucket_of d align (timestamp s)) (k - 1)),
    (Z.eqb_spec (bucket_of d align (timestamp s)) k); try lia.
  - cbn [app]. by rewrite IH.
  - rewrite IH by done. assert (List.filter (fun x => bucket_of d align (timestamp x) <=? k - 1) ss = []) as E; [|by rewrite E].
    apply filter_none. eapply Forall_impl; [exact Hs|]. intros x Hx. cbn beta in *. pose proof (bucket_of_mono d align Hgrid _ _ Hx).
    apply Z.leb_gt. lia.
  - by apply IH.
Qed.

(** Carrying over the buckets one by one is looking back over all of them. *)
Lemma carry_through ss : time_ordered ss -> forall n lo,
  carry_items [true] [last_number seed (through_bucket (lo - 1) ss)]
    (map (fun k => mkSample (render d align bt k) (last_number f64_NAN (in_bucket d align k ss))) (seqZ lo (Z.of_nat n))) =
  map (fun k => mkSample (render d align bt k) (last_number seed (through_bucket k ss))) (seqZ lo (Z.of_nat n)).
Proof.
  intros Ho. induction n as [|n IH]; intros lo; [done|]. rewrite seqZ_cons by lia. replace (Z.pred (Z.of_nat (S n))) with (Z.of_nat n) by lia.
  cbn [map carry_items carry_values bv_values Sample_bucket_values bv_with value timestamp negb].
  specialize (IH (Z.succ lo)). replace (Z.succ lo - 1) with lo in IH by lia.
  assert (last_number seed (through_bucket lo ss) = last_number (last_number seed (through_bucket (lo - 1) ss)) (in_bucket d align lo ss)) as E.
  { by rewrite through_split, last_number_app. }
  set (prev := last_number seed (through_bucket (lo - 1) ss)) in *.
  destruct (f64_is_nan (last_number f64_NAN (in_bucket d align lo ss))) eqn:En; cbn [carry_items].
  - rewrite (last_number_none prev _ En) in E. rewrite E in *. f_equal. exact IH.
  - rewrite <- (last_number_default f64_NAN prev) by done. rewrite <- E in *. f_equal. exact IH.
Qed.

End Carry.

(** The rows of a query for the last value with EMPTY, before the carry. *)
Lemma last_rows o align fill ss f lo hi : aggregations o = [mkAggregatorConfig TyLast f] -> report_empty o = true ->
  row_span o align fill ss = Some (lo, hi) -> Forall sample_valid ss -> Z.of_nat (length ss) < 2 ^ 64 ->
  map single_value (query_rows o align fill ss) =
  map (fun k => mkSample (render (bucket_duration o) align (timestamp_output o) k)
                  (last_number f64_NAN (in_bucket (bucket_duration o) align k ss))) (seqZ lo (hi - lo + 1)).
Proof.
  intros Ha Hre Hs Hv Hl. unfold query_rows, rows_between. rewrite Hs, Hre. induction (seqZ lo (hi - lo + 1)) as [|k ks IH]; [done|].
  cbn [omap list_omap map]. unfold bucket_row at 1. rewrite orb_true_r. cbn [map]. f_equal; [|exact IH].
  assert (Forall2 (column_ok (in_bucket (bucket_duration o) align k ss)) (aggregations o)
    (row_values (query_aggregators o) (in_bucket (bucket_duration o) align k ss))) as Hc.
  { apply query_columns; [rewrite Ha; by repeat constructor|by apply Forall_list_filter|].
    pose proof (filter_length_le (fun s => bucket_of (bucket_duration o) align (timestamp s) =? k) ss). unfold in_bucket. lia. }
  rewrite Ha in Hc. apply Forall2_cons_inv_l in Hc as (v & vs & (r & Hr & Hd) & _ & Ev). unfold single_value. cbn [ms_timestamp ms_values].
  rewrite Ev. f_equal. rewrite Hd. unfold reports in Hr. cbn in Hr. rewrite Hr. unfold last_number. by destruct f.
Qed.

Section Props.

Context `{Log10} `{ServerConfig}.

Lemma aggregated_spec {P} fuel t ls o agg latest rev clock w : series_rep P t ls -> ro_aggregation o = Some agg -> steady o clock w ->
  clipped o w -> range_ok agg w latest (visible t (concat ls)) ->
  let fill := fill_extent o agg w (visible t (concat ls)) in
  let rows := query_rows agg (query_align agg w) fill (query_samples o w latest (visible t (concat ls))) in
  (length rows < fuel)%nat ->
  create_range_iterator fuel t o None latest rev clock =
  apply_iter_limit (directed rev (carried (last_carry_mask agg) (carry_seed fill) (map single_value rows))) (ro_count o).
Proof.
  intros Hr Ha (Hf & Hrd & Hal) Hc Hok fill rows Hlen.
  rewrite (range_iterator_spec fuel t ls o latest rev clock Hr) by (by rewrite Hrd). unfold query_items. rewrite Ha, Hrd, Hal.
  pose proof Hok as [_ _ [H1 H2] Hn _]. rewrite (empty_fill_spec t ls o agg _ Hr Ha), Hf by (rewrite ?Hf; auto using near_i64, near_below).
  fold (query_align agg w) fill. rewrite collect_query; [done| |done]. apply range_query_ok; [by apply (visible_sorted t ls Hr)|done].
Qed.

(** C10. A range query without aggregation returns exactly the samples of the
    window that are inside the retention window and pass the filters, in the
    direction asked for and up to COUNT, whether they are read by a scan or by
    looking up the listed timestamps; the partial sample of LATEST is the
    newest of them. *)
Theorem range_query_exact (P : TimeSeriesChunk -> Prop) (t : TimeSeries) (l : list Sample) (o : RangeOptions) (latest : option Sample)
    (rev : bool) (clock : Readings) (fuel : nat) :
  stores P t l -> ro_aggregation o = None -> clipped o (get_timestamp_range o (at_read clock)) ->
  create_range_iterator fuel t o None latest rev clock =
  apply_iter_limit (directed rev (query_samples o (get_timestamp_range o (at_read clock)) latest (visible t l))) (ro_count o).
Proof.
  intros (ls & Hr & <-) Ha Hc. rewrite (range_iterator_spec fuel t ls o latest rev clock Hr Hc). unfold query_items. by rewrite Ha.
Qed.

(** A reverse query is the mirror of the forward one: raw or aggregated, with
    filters, EMPTY, LATEST or without; COUNT then takes the newest items. *)
Theorem range_reverse_mirror (P : TimeSeriesChunk -> Prop) (t : TimeSeries) (l : list Sample) (o : RangeOptions) (latest : option Sample)
    (clock : Readings) (fuel : nat) :
  stores P t l -> clipped o (get_timestamp_range o (at_read clock)) ->
  let unlimited := mkRangeOptions (date_range o) None (ro_latest o) (ro_aggregation o) (timestamp_filter o) (ro_value_filter o) in
  create_range_iterator fuel t o None latest true clock =
  apply_iter_limit (reverse (create_range_iterator fuel t unlimited None latest false clock)) (ro_count o).
Proof.
  intros (ls & Hr & <-) Hc unlimited. rewrite (range_iterator_spec fuel t ls o latest true clock Hr Hc).
  by rewrite (range_iterator_spec fuel t ls unlimited latest false clock Hr Hc).
Qed.

(** C11. If the window is the same at each of the three readings of the clock (with
    a relative bound a tick can make them differ, [alignment_drifts]), an aggregated
    query returns the rows of the uniform grid over the samples a raw query would
    see, filled as far as the visible data on either side of the window justifies,
    the last value carried in time order.  Where empty buckets are reported a bucket
    lasts at least 2 ms ([empty_gap_lost]).  A window whose end is before its start
    is included as the code treats it: it can report a filled row
    ([inverted_window_filled]), against the documentation of [TimestampRange::new].
    A LATEST sample is the newest one, FILTER_BY_TS lists no timestamp outside the
    window, and numbers are at most 2^60 in magnitude. *)
Theorem range_aggregate_exact (P : TimeSeriesChunk -> Prop) (t : TimeSeries) (l : list Sample) (o : RangeOptions) (agg : AggregationOptions)
    (latest : option Sample) (rev : bool) (clock : Readings) (w : Timestamp * Timestamp) (fuel : nat) :
  stores P t l -> ro_aggregation o = Some agg -> steady o clock w -> clipped o w -> range_ok agg w latest (visible t l) ->
  let fill := fill_extent o agg w (visible t l) in
  let rows := query_rows agg (query_align agg w) fill (query_samples o w latest (visible t l)) in
  (length rows < fuel)%nat ->
  create_range_iterator fuel t o None latest rev clock =
  apply_iter_limit (directed rev (carried (last_carry_mask agg) (carry_seed fill) (map single_value rows))) (ro_count o).
Proof. intros (ls & Hr & <-). exact (aggregated_spec fuel t ls o agg latest rev clock w Hr). Qed.

(** With EMPTY and the aggregator last, the value of every bucket is the last
    number at or before it: in the window, or the seed from before the first
    bucket where the query has none yet. *)
Theorem range_last_carried (P : TimeSeriesChunk -> Prop) (t : TimeSeries) (l : list Sample) (o : RangeOptions) (agg : AggregationOptions)
    (f : option ValueComparisonFilter) (clock : Readings) (w : Timestamp * Timestamp) (fuel : nat) (lo hi : Z) :
  stores P t l -> ro_aggregation o = Some agg -> steady o clock w -> clipped o w -> range_ok agg w None (visible t l) ->
  aggregations agg = [mkAggregatorConfig TyLast f] -> report_empty agg = true -> ro_count o = None -> Z.of_nat (length l) < 2 ^ 64 ->
  let fill := fill_extent o agg w (visible t l) in
  let ss := query_samples o w None (visible t l) in
  let align := query_align agg w in
  row_span agg align fill ss = Some (lo, hi) -> (Z.to_nat (hi - lo + 1) < fuel)%nat ->
  create_range_iterator fuel t o None None false clock =
  map (fun k => mkSample (render (bucket_duration agg) align (timestamp_output agg) k)
                  (last_number (carry_seed fill) (through_bucket (bucket_duration agg) align k ss))) (seqZ lo (hi - lo + 1)).
Proof.
  intros (ls & Hr & <-) Ha Hst Hc Hok Hagg Hre Hcnt Hlen fill ss align Hspan Hfuel.
  pose proof (visible_sorted t ls Hr) as Hv. pose proof (range_query_ok o agg w None _ Hv Hok) as Hq. fold fill ss align in Hq.
  assert (Forall sample_valid ss) as Hvs.
  { apply Forall_app. split; [by apply Forall_list_filter, Forall_list_filter, (proj2 Hv)|constructor]. }
  assert (length ss <= length (concat ls))%nat as Hls.
  { unfold ss, query_samples. rewrite app_nil_r. unfold select, visible. by rewrite !filter_filter_and, filter_length_le. }
  pose proof (last_rows agg align fill ss f lo hi Hagg Hre Hspan Hvs ltac:(lia)) as Hrows.
  rewrite (aggregated_spec fuel t ls o agg None false clock w Hr Ha Hst Hc Hok); fold fill ss align.
  2: { rewrite <- (length_map single_value), Hrows, length_map, length_seqZ. lia. }
  rewrite Hcnt, Hrows. cbn [apply_iter_limit directed]. unfold carried, last_carry_mask. rewrite Hre, Hagg. cbn [negb map existsb aggregation id].
  rewrite bool_decide_true by done. cbn [orb]. unfold carry_last_empty. cbn [length replicate].
  destruct (Z.le_gt_cases (hi - lo + 1) 0) as [Hz|Hz]; [by rewrite seqZ_nil|].
  rewrite <- (Z2Nat.id (hi - lo + 1)) by lia. destruct (Hq) as [Hg _ _ Ho _].
  rewrite <- (carry_through (bucket_duration agg) align (timestamp_output agg) (carry_seed fill) Hg ss Ho).
  f_equal. f_equal. symmetry. assert (through_bucket (bucket_duration agg) align (lo - 1) ss = []) as E; [|by rewrite E].
  apply filter_none. destruct (decide (ss = [])) as [En|En]; [rewrite En; constructor|].
  eapply Forall_impl; [exact (span_covers _ _ _ _ _ _ Hq En Hspan)|]. intros x Hx. cbn beta in *. apply Z.leb_gt. lia.
Qed.

End Props.

(** ** Instances *)

#[local] Instance range_config : ServerConfig := {| config_duplicate_policy := Block; config_retention_period := 0 |}.

Definition window_query (s e : Timestamp) (agg : option AggregationOptions) : RangeOptions :=
  mkRangeOptions (from_timestamps s e) None false agg None None.
Definition any_clock : Readings := mkReadings (0, 0) (0, 0) (0, 0) (0, 0).

Definition last_query (empty : bool) : AggregationOptions := mkAggregationOptions [config TyLast] 10 BucketStart AlignDefault empty.

Lemma demo_visible : visible demo_series demo_list = [mkSample 30 one; mkSample 40 two; mkSample 130 one].
Proof. vm_compute. reflexivity. Qed.

Lemma demo_range_ok : range_ok (last_query true) (55, 140) None (visible demo_series demo_list).
Proof.
  split; [|done| | |by intros].
  - split; unfold near, TIME_BOUND; cbn; lia.
  - split; unfold near, TIME_BOUND; cbn; lia.
  - rewrite demo_visible. repeat constructor; unfold near, TIME_BOUND; cbn; lia.
Qed.

Lemma range_query_exact_witness :
  create_range_iterator 0 demo_series (window_query 35 200 None) None None true any_clock = [mkSample 130 one; mkSample 40 two].
Proof.
  rewrite (range_query_exact chunk_fit demo_series demo_list (window_query 35 200 None) None true any_clock 0 demo_stores eq_refl);
    [vm_compute; reflexivity|by intros].
Defined.

Lemma range_reverse_mirror_witness :
  create_range_iterator 20 demo_series (window_query 55 140 (Some (last_query true))) None None true any_clock =
  reverse (create_range_iterator 20 demo_series (window_query 55 140 (Some (last_query true))) None None false any_clock).
Proof.
  rewrite (range_reverse_mirror chunk_fit demo_series demo_list (window_query 55 140 (Some (last_query true))) None any_clock 20 demo_stores);
    [vm_compute; reflexivity|by intros].
Defined.

Lemma range_aggregate_exact_witness :
  create_range_iterator 20 demo_series (window_query 55 140 (Some (last_query true))) None None true any_clock =
  mkSample 130 one :: map (fun ts => mkSample ts two) [120; 110; 100; 90; 80; 70; 60; 50].
Proof.
  rewrite (range_aggregate_exact chunk_fit demo_series demo_list (window_query 55 140 (Some (last_query true))) (last_query true) None true
    any_clock (55, 140) 20 demo_stores eq_refl); [vm_compute; reflexivity|done|by intros|apply demo_range_ok|vm_compute; lia].
Defined.

Lemma range_last_carried_witness :
  create_range_iterator 20 demo_series (window_query 55 140 (Some (last_query true))) None None false any_clock =
  map (fun ts => mkSample ts two) [50; 60; 70; 80; 90; 100; 110; 120] ++ [mkSample 130 one].
Proof.
  rewrite (range_last_carried chunk_fit demo_series demo_list (window_query 55 140 (Some (last_query true))) (last_query true) None
    any_clock (55, 140) 20 5 13 demo_stores eq_refl);
    [vm_compute; reflexivity|done|by intros|apply demo_range_ok|done|done|done|vm_compute; reflexivity|vm_compute; reflexivity|vm_compute; lia].
Defined.

(** ** Where the code departs *)

(** A window whose end is before its start has no sample and no row, except
    with EMPTY between two samples: the test for data on both sides then takes
    it for a gap, and a bucket is reported when both ends fall into it. *)
Theorem inverted_window_filled :
  create_range_iterator 20 demo_series (window_query 75 72 None) None None false any_clock = [] /\
  create_range_iterator 20 demo_series (window_query 75 72 (Some (last_query false))) None None false any_clock = [] /\
  create_range_iterator 20 demo_series (window_query 75 72 (Some (last_query true))) None None false any_clock = [mkSample 70 two].
Proof. vm_compute. auto. Qed.

(** The window of a query with a bound relative to the clock is resolved again
    for the alignment: when the clock moves between the two readings, ALIGN
    start puts the first sample into a bucket that starts before the window. *)
Theorem alignment_drifts :
  let agg := mkAggregationOptions [config TyCount] 100 BucketStart AlignStart false in
  let o := mkRangeOptions (mkTimestampRange (Relative (-100)) Now) None false (Some agg) None None in
  let at_ t1 t2 := mkReadings (t1, t1) (t1, t1) (t1, t1) (t2, t2) in
  map timestamp (create_range_iterator 20 demo_series o None None false (at_ 130 130)) = [30; 130] /\
  map timestamp (create_range_iterator 20 demo_series o None None false (at_ 130 131)) = [0; 31].
Proof. vm_compute. auto. Qed.
