(* ===== verification/MultiSeries.v ===== *)
(** * MultiSeries: iterators over several series

    Models [src/iterators/multi_series_sample_iter.rs], [multi_series_row_iter.rs],
    [pivot_iter.rs], [sample_reducer.rs] and [row_reducer.rs]: the k-way merge of
    several streams by timestamp, the outer join of rows, and the reduction of
    what shares a timestamp.  A stream is the list of its items.  The heap of the
    [min_max_heap] crate is the class [MinMaxHeap]. *)

From stdpp Require Import list.
From S2P Require Import Prelude Float64 Types Aggregators AggregateIterator.

(** ** Rows *)

Class Timed (R : Type) := row_timestamp : R -> Timestamp.
#[export] Instance Sample_timed : Timed Sample := timestamp.
#[export] Instance MultiSample_timed : Timed MultiSample := ms_timestamp.

(** A pending row and the stream it came from. *)
Record Entry (R : Type) := mkEntry { row : R; source : nat }.
Arguments mkEntry {_} _ _.
Arguments row {_} _.
Arguments source {_} _.

(** [Entry::cmp]: the timestamp first, then the stream. *)
Definition entry_cmp {R} `{Timed R} (a b : Entry R) : comparison :=
  match row_timestamp (row a) ?= row_timestamp (row b) with
  | Eq => (source a ?= source b)%nat
  | c => c
  end.

(** ** The heap *)

(** What the code uses of [MinMaxHeap], over the order of its entries. *)
Class MinMaxHeap (E : Type) := {
  heap : Type;
  heap_new : heap;
  heap_push : heap -> E -> heap;
  pop_min : heap -> option (E * heap);
  peek_min : heap -> option E;
}.
Arguments heap E {_}.

(** Its documented behaviour: [pop_min] takes a least element out. *)
Class MinMaxHeapLaws (E : Type) `{MinMaxHeap E} (cmp : E -> E -> comparison) := {
  heap_elements : heap E -> list E;
  heap_new_elements : heap_elements heap_new = [];
  heap_push_elements h x : heap_elements (heap_push h x) ≡ₚ x :: heap_elements h;
  pop_min_none h : pop_min h = None <-> heap_elements h = [];
  pop_min_some h x h' : pop_min h = Some (x, h') ->
    heap_elements h ≡ₚ x :: heap_elements h' /\ Forall (fun y => cmp x y <> Gt) (heap_elements h);
  peek_min_pop h : peek_min h = fst <$> pop_min h;
}.

Section Merge.

Context {R : Type} `{Timed R} `{MinMaxHeap (Entry R)}.

(** ** The k-way merge *)

Record MergeIter := mkMergeIter { mi_heap : heap (Entry R); inner : list (list R); primed : bool }.

Definition merge_new (streams : list (list R)) : MergeIter := mkMergeIter heap_new streams false.

(** [self.inner[source].next()] *)
Definition next_of (streams : list (list R)) (source : nat) : option R * list (list R) :=
  match streams !! source with
  | Some (x :: rest) => (Some x, <[source := rest]> streams)
  | _ => (None, streams)
  end.

(** Pushes the next row of a stream, if it has one. *)
Definition refill (m : MergeIter) (source : nat) : MergeIter :=
  let '(next, streams) := next_of (inner m) source in
  mkMergeIter (match next with Some r => heap_push (mi_heap m) (mkEntry r source) | None => mi_heap m end) streams (primed m).

Definition prime (m : MergeIter) : MergeIter :=
  let m := fold_left refill (seq 0 (length (inner m))) m in
  mkMergeIter (mi_heap m) (inner m) true.

Definition ensure_primed (m : MergeIter) : MergeIter := if negb (primed m) then prime m else m.

Definition merge_iter_next (m : MergeIter) : option (R * MergeIter) :=
  let m := ensure_primed m in
  match pop_min (mi_heap m) with
  | None => None
  | Some (entry, h) => Some (row entry, refill (mkMergeIter h (inner m) (primed m)) (source entry))
  end.

(** At most [fuel] items. *)
Fixpoint merge_collect (fuel : nat) (m : MergeIter) : list R :=
  match fuel with
  | O => []
  | S fuel => match merge_iter_next m with Some (r, m) => r :: merge_collect fuel m | None => [] end
  end.

Definition multi_series_iter (streams : list (list R)) : list R :=
  merge_collect (length (concat streams)) (merge_new streams).

End Merge.

Arguments MergeIter R {_}.

(** ** The pivot *)

Section Pivot.

Context `{MinMaxHeap (Entry MultiSample)}.

(** The first column of each stream. *)
Fixpoint offsets_from (total : nat) (widths : list nat) : list nat :=
  match widths with
  | [] => []
  | w :: widths => total :: offsets_from (total + w) widths
  end.

Record PivotIter := mkPivotIter { pv_merge : MergeIter MultiSample; offsets : list nat; pv_widths : list nat; total_columns : nat }.

Definition pivot_new (streams : list (list MultiSample)) (widths : list nat) : PivotIter :=
  mkPivotIter (merge_new streams) (offsets_from 0 widths) widths (sum_list widths).

(** [values[start..start + len].copy_from_slice(block)] *)
Definition write_block (start : nat) (block values : list f64) : list f64 :=
  take start values ++ block ++ drop (start + length block) values.

Definition absorb (p : PivotIter) (entry : Entry MultiSample) (values : list f64) : PivotIter * list f64 :=
  let start := default 0%nat (offsets p !! source entry) in
  let width := default 0%nat (pv_widths p !! source entry) in
  let values := write_block start (take width (ms_values (row entry))) values in
  (mkPivotIter (refill (pv_merge p) (source entry)) (offsets p) (pv_widths p) (total_columns p), values).

Definition with_heap (p : PivotIter) (h : heap (Entry MultiSample)) : PivotIter :=
  mkPivotIter (mkMergeIter h (inner (pv_merge p)) (primed (pv_merge p))) (offsets p) (pv_widths p) (total_columns p).

(** The loop that takes every other row at the timestamp. *)
Fixpoint absorb_all (fuel : nat) (ts : Timestamp) (p : PivotIter) (values : list f64) : PivotIter * list f64 :=
  match fuel with
  | O => (p, values)
  | S fuel =>
      if match peek_min (mi_heap (pv_merge p)) with Some e => ms_timestamp (row e) =? ts | None => false end then
        match pop_min (mi_heap (pv_merge p)) with
        | Some (entry, h) => let '(p, values) := absorb (with_heap p h) entry values in absorb_all fuel ts p values
        | None => (p, values)
        end
      else (p, values)
  end.

Definition pivot_next (fuel : nat) (p : PivotIter) : option (MultiSample * PivotIter) :=
  let p := mkPivotIter (ensure_primed (pv_merge p)) (offsets p) (pv_widths p) (total_columns p) in
  match pop_min (mi_heap (pv_merge p)) with
  | None => None
  | Some (entry, h) =>
      let ts := ms_timestamp (row entry) in
      let '(p, values) := absorb (with_heap p h) entry (replicate (total_columns p) f64_NAN) in
      let '(p, values) := absorb_all fuel ts p values in
      Some (mkMultiSample ts values, p)
  end.

Fixpoint pivot_collect (rows fuel : nat) (p : PivotIter) : list MultiSample :=
  match rows with
  | O => []
  | S rows => match pivot_next fuel p with Some (r, p) => r :: pivot_collect rows fuel p | None => [] end
  end.

(** Each turn takes at least one row of a stream. *)
Definition pivot_iter (streams : list (list MultiSample)) (widths : list nat) : list MultiSample :=
  let n := length (concat streams) in pivot_collect n n (pivot_new streams widths).

End Pivot.

(** ** Reducing what shares a timestamp *)

(** [SampleReducer::finalize_group] *)
Definition finalize_group (a : Aggregator) (has_samples : bool) (ts : Timestamp) : Sample * Aggregator :=
  let '(value, a) := if has_samples then agg_finalize a else (empty_group_value a, a) in
  (mkSample ts value, a).

(** [SampleReducer::next] from the start of a group at [ts] on, and the groups
    after it; a group starts from a reset aggregator. *)
Fixpoint sample_reduce (a : Aggregator) (has_samples : bool) (ts : Timestamp) (items : list Sample) : list Sample :=
  match items with
  | [] => [(finalize_group a has_samples ts).1]
  | s :: items =>
      if timestamp s =? ts then
        let '(ok, a) := agg_update a (timestamp s) (value s) in sample_reduce a (has_samples || ok) ts items
      else
        let '(result, a) := finalize_group a has_samples ts in
        let '(ok, a) := agg_update (agg_reset a) (timestamp s) (value s) in
        result :: sample_reduce a ok (timestamp s) items
  end.

Definition sample_reducer (items : list Sample) (a : Aggregator) : list Sample :=
  match items with
  | [] => []
  | s :: items => let '(ok, a) := agg_update (agg_reset a) (timestamp s) (value s) in sample_reduce a ok (timestamp s) items
  end.

(** One column of a [RowReducer]. *)
Definition Column : Type := Aggregator * bool.

(** [RowReducer::update]: the zip of the columns and the values of a row. *)
Fixpoint update_row (ts : Timestamp) (columns : list Column) (values : list f64) : list Column :=
  match columns, values with
  | (a, has_samples) :: columns, v :: values =>
      let '(ok, a) := agg_update a ts v in (a, if ok then true else has_samples) :: update_row ts columns values
  | columns, _ => columns
  end.

Definition finalize_column (c : Column) : f64 * Column :=
  let '(a, has_samples) := c in
  let '(value, a) := if has_samples then agg_finalize a else (empty_group_value a, a) in
  (value, (agg_reset a, false)).

Definition finalize_rows (columns : list Column) (ts : Timestamp) : MultiSample * list Column :=
  (mkMultiSample ts (map (fun c => (finalize_column c).1) columns), map (fun c => (finalize_column c).2) columns).

Fixpoint row_reduce (columns : list Column) (ts : Timestamp) (rows : list MultiSample) : list MultiSample :=
  match rows with
  | [] => [(finalize_rows columns ts).1]
  | r :: rows =>
      if ms_timestamp r =? ts then row_reduce (update_row (ms_timestamp r) columns (ms_values r)) ts rows
      else
        let '(result, columns) := finalize_rows columns ts in
        result :: row_reduce (update_row (ms_timestamp r) columns (ms_values r)) (ms_timestamp r) rows
  end.

Definition row_reducer (rows : list MultiSample) (a : Aggregator) (columns : nat) : list MultiSample :=
  match rows with
  | [] => []
  | r :: rows => row_reduce (update_row (ms_timestamp r) (replicate columns (a, false)) (ms_values r)) (ms_timestamp r) rows
  end.

(** ** A heap *)

(** A bag of entries whose least one is found by a scan. *)
Section ListHeap.

Context {E : Type} (cmp : E -> E -> comparison).

Fixpoint pop_least (l : list E) : option (E * list E) :=
  match l with
  | [] => None
  | x :: l =>
      match pop_least l with
      | None => Some (x, [])
      | Some (y, l') => match cmp x y with Gt => Some (y, x :: l') | _ => Some (x, l) end
      end
  end.

Definition list_heap : MinMaxHeap E := {|
  heap := list E;
  heap_new := [];
  heap_push h x := x :: h;
  pop_min := pop_least;
  peek_min h := fst <$> pop_least h;
|}.

End ListHeap.
