(* ===== verification/MultiLaws.v ===== *)
(** * MultiLaws: what the iterators over several series give

    The merge of sorted streams is the stable sort of their concatenation; the
    reducers give one value per timestamp; the pivot gives one row per timestamp
    with the values of each stream in its own columns. *)

From stdpp Require Import list sorting sets.
From S2P Require Import Prelude Float64 Types Slice Content TimeSeries SeriesLaws SeriesReads SeriesWrites Aggregators AggregateIterator AggregateLaws AggregateColumns RangeQuery MultiSeries.

(** ** The heap made of a list *)

Section ListHeapLaws.

Context {R : Type} `{Timed R}.

Lemma entry_cmp_le (a b : Entry R) : entry_cmp a b <> Gt <->
  row_timestamp (row a) < row_timestamp (row b) \/ row_timestamp (row a) = row_timestamp (row b) /\ (source a <= source b)%nat.
Proof.
  unfold entry_cmp. destruct (Z.compare_spec (row_timestamp (row a)) (row_timestamp (row b))) as [E|E|E].
  - rewrite Nat.compare_le_iff. split; [by right|]. intros [?|[_ ?]]; [lia|done].
  - split; [by left|done].
  - split; [done|]. intros [?|[? _]]; lia.
Qed.

Lemma pop_least_spec (l : list (Entry R)) : match pop_least entry_cmp l with
  | None => l = []
  | Some (x, l') => l ≡ₚ x :: l' /\ Forall (fun y => entry_cmp x y <> Gt) l
  end.
Proof.
  induction l as [|x l IH]; [done|]. cbn [pop_least].
  assert (Hrefl : forall z : Entry R, entry_cmp z z <> Gt) by (intros z; apply entry_cmp_le; right; lia).
  destruct (pop_least entry_cmp l) as [[y l']|]; [|subst l; repeat constructor; apply Hrefl].
  destruct IH as [Hp Hl]. destruct (entry_cmp x y) eqn:E.
  3:{ split; [rewrite Hp; apply Permutation_swap|]. constructor; [|done]. apply entry_cmp_le.
      assert (~ entry_cmp x y <> Gt) as Hn by (rewrite E; intros Hn; by apply Hn). rewrite entry_cmp_le in Hn. lia. }
  all: assert (entry_cmp x y <> Gt) as Hxy%entry_cmp_le by (by rewrite E);
       (split; [done|]; constructor; [apply Hrefl|]; eapply Forall_impl; [exact Hl|]; cbn; intros z Hz%entry_cmp_le; apply entry_cmp_le; lia).
Qed.

#[export] Instance list_heap_laws : @MinMaxHeapLaws (Entry R) (list_heap entry_cmp) entry_cmp.
Proof.
  refine {| heap_elements := id : @heap _ (list_heap entry_cmp) -> list (Entry R) |}; try done.
  - intros h. cbn. pose proof (pop_least_spec h) as Hs. destruct (pop_least entry_cmp h) as [[x h']|]; [|done].
    destruct Hs as [Hp _]. split; [done|]. unfold id. intros ->. by apply Permutation_nil_l in Hp.
  - intros h x h' E. pose proof (pop_least_spec h) as Hs. cbn in E. by rewrite E in Hs.
Qed.

End ListHeapLaws.

(** ** The stable sort of a concatenation *)

Section Stable.

Context {A : Type} (key : A -> Z).

(** The first least element comes out first. *)
Lemma sort_first a x b : Forall (fun y => key x < key y) a -> Forall (fun y => key x <= key y) b ->
  sort_by_key key (a ++ x :: b) = x :: sort_by_key key (a ++ b).
Proof.
  intros Ha Hb. induction Ha as [|y a Hy Ha IH]; cbn [app sort_by_key foldr].
  - apply insert_by_key_head. fold (sort_by_key key b). rewrite sort_by_key_perm. done.
  - fold (sort_by_key key (a ++ x :: b)). fold (sort_by_key key (a ++ b)). rewrite IH. cbn [insert_by_key].
    destruct (Z.leb_spec (key y) (key x)); [lia|done].
Qed.

(** Taking the head off the stream with the least one. *)
Lemma concat_split (ls : list (list A)) i x l : ls !! i = Some (x :: l) ->
  exists a b, concat ls = a ++ x :: l ++ b /\ concat (<[i := l]> ls) = a ++ l ++ b /\
    a = concat (take i ls) /\ b = concat (drop (S i) ls).
Proof.
  intros Hi. exists (concat (take i ls)), (concat (drop (S i) ls)).
  rewrite <- (take_drop_middle _ _ _ Hi) at 1. rewrite concat_app. cbn [concat]. split; [done|].
  pose proof (lookup_lt_Some _ _ _ Hi). rewrite insert_take_drop by done. rewrite concat_app. cbn [concat]. done.
Qed.

End Stable.

Section MergeLaws.

Context {R : Type} `{Timed R} `{MinMaxHeap (Entry R)} `{!MinMaxHeapLaws (Entry R) entry_cmp}.

(** The merge holds the streams [ls]: the head of each stream that is [loaded]
    is in the heap. *)
Record merge_rep (m : MergeIter R) (ls : list (list R)) (loaded : nat -> bool) : Prop := {
  mr_inner : forall i, inner m !! i = (fun l => if loaded i then tail l else l) <$> ls !! i;
  mr_heads : forall e, e ∈ heap_elements (mi_heap m) <-> loaded (source e) = true /\ exists l, ls !! source e = Some (row e :: l);
  mr_once : NoDup (heap_elements (mi_heap m));
}.

Lemma merge_rep_ext m ls p q : (forall i, p i = q i) -> merge_rep m ls p -> merge_rep m ls q.
Proof. intros He [H1 H2 H3]. split; [intros i|intros e|done]; rewrite <- He; auto. Qed.

Lemma heap_refill_rep m ls p i : merge_rep m ls p -> p i = false -> (i < length ls)%nat ->
  merge_rep (refill m i) ls (fun j => (j =? i)%nat || p j) /\ primed (refill m i) = primed m.
Proof.
  intros [Hin Hh Hnd] Hp Hi. apply lookup_lt_is_Some_2 in Hi as [l Hl].
  pose proof (Hin i) as Hini. rewrite Hl, Hp in Hini. cbn in Hini. unfold refill, next_of. rewrite Hini.
  assert (Hother : forall j, j <> i -> inner m !! j = (fun l => if (j =? i)%nat || p j then tail l else l) <$> ls !! j).
  { intros j Hj. rewrite Hin. by destruct (Nat.eqb_spec j i). }
  destruct l as [|x rest]; (split; [|done]); split; cbn [inner mi_heap].
  - intros j. destruct (decide (j = i)) as [->|Hj]; [|by apply Hother]. by rewrite Hini, Hl, Nat.eqb_refl.
  - intros e. rewrite Hh. destruct (Nat.eqb_spec (source e) i) as [E|]; [|done]. rewrite E, Hp, Hl. split; [by intros [? _]|]. by intros [_ [? ?]].
  - done.
  - intros j. destruct (decide (j = i)) as [->|Hj].
    + rewrite list_lookup_insert_eq by (by eapply lookup_lt_Some). by rewrite Hl, Nat.eqb_refl.
    + rewrite list_lookup_insert_ne by done. by apply Hother.
  - intros e. rewrite heap_push_elements, elem_of_cons, Hh. destruct (Nat.eqb_spec (source e) i) as [E|Hne]; cbn [orb].
    + rewrite E, Hp, Hl. split.
      * intros [->|[? _]]; [|done]. cbn. eauto.
      * intros [_ [l' [= -> _]]]. left. destruct e. cbn in *. by subst.
    + split; [|by right]. intros [->|?]; [done|done].
  - rewrite heap_push_elements. apply NoDup_cons. split; [|done]. rewrite Hh. cbn. rewrite Hp. by intros [? _].
Qed.

Lemma merge_new_rep ls : merge_rep (merge_new ls) ls (fun _ => false).
Proof.
  split; cbn.
  - intros i. by destruct (ls !! i).
  - intros e. rewrite heap_new_elements. split; [by intros ?%elem_of_nil|by intros [? _]].
  - rewrite heap_new_elements. constructor.
Qed.

Lemma prime_rep ls : let m := prime (merge_new ls) in merge_rep m ls (fun _ => true) /\ primed m = true.
Proof.
  cbn zeta. split; [|done]. unfold prime. cbn [inner merge_new].
  assert (Hfold : forall n k m, merge_rep m ls (fun j => j <? k)%nat -> (k + n = length ls)%nat ->
    merge_rep (fold_left refill (seq k n) m) ls (fun j => j <? length ls)%nat).
  { induction n as [|n IH]; intros k m Hm Hk; cbn [seq fold_left]; [by replace (length ls) with k by lia|].
    apply IH; [|lia]. destruct (heap_refill_rep m ls _ k Hm) as [Hm' _]; [by apply Nat.ltb_irrefl|lia|].
    eapply merge_rep_ext; [|exact Hm']. intros j. cbv beta. destruct (Nat.eqb_spec j k), (Nat.ltb_spec j k), (Nat.ltb_spec j (S k)); try done; lia. }
  specialize (Hfold (length ls) 0%nat (merge_new ls)).
  assert (Hm : merge_rep (fold_left refill (seq 0 (length ls)) (merge_new ls)) ls (fun j => j <? length ls)%nat).
  { apply Hfold; [|done]. eapply merge_rep_ext; [|apply merge_new_rep]. done. }
  destruct Hm as [H1 H2 H3]. split; cbn [inner mi_heap]; [| |done].
  - intros i. rewrite H1. destruct (ls !! i) eqn:E; [|done]. apply lookup_lt_Some in E. by destruct (Nat.ltb_spec i (length ls)); [|lia].
  - intros e. rewrite H2. split; [by intros [_ ?]|]. intros [_ [l Hl]]. split; [|eauto]. apply lookup_lt_Some in Hl. by apply Nat.ltb_lt.
Qed.

(** Popping gives the head of a stream that no head precedes. *)
Lemma pop_rep m ls e h : merge_rep m ls (fun _ => true) -> pop_min (mi_heap m) = Some (e, h) ->
  exists l, ls !! source e = Some (row e :: l) /\
    merge_rep (mkMergeIter h (inner m) (primed m)) (<[source e := l]> ls) (fun j => negb (j =? source e)%nat) /\
    (forall j x l', ls !! j = Some (x :: l') -> row_timestamp (row e) < row_timestamp x \/
                                               row_timestamp (row e) = row_timestamp x /\ (source e <= j)%nat).
Proof.
  intros [Hin Hh Hnd] Hpop. destruct (pop_min_some _ _ _ Hpop) as [Hp Hmin].
  assert (e ∈ heap_elements (mi_heap m)) as He by (rewrite Hp; by left). pose proof He as [_ [l Hl]]%Hh.
  rewrite Hp in Hnd. apply NoDup_cons in Hnd as [Hne Hnd].
  assert (Hi : (source e < length ls)%nat) by (by eapply lookup_lt_Some).
  exists l. split; [done|]. split.
  - split; cbn [inner mi_heap]; [| |done].
    + intros j. rewrite Hin. destruct (Nat.eqb_spec j (source e)) as [->|Hj]; cbn [negb].
      * by rewrite list_lookup_insert_eq, Hl.
      * by rewrite list_lookup_insert_ne.
    + intros e'. assert (e' ∈ heap_elements h <-> e' <> e /\ e' ∈ heap_elements (mi_heap m)) as ->.
      { rewrite Hp, elem_of_cons. split; [intros Hx; split; [by intros ->|by right]|by intros [? [?|?]]]. }
      rewrite Hh. destruct (Nat.eqb_spec (source e') (source e)) as [E|Hj]; cbn [negb].
      * split; [|by intros [? _]]. intros [Hne' [_ [l' Hl']]]. exfalso. apply Hne'. rewrite E, Hl in Hl'. injection Hl' as Hr _.
        destruct e, e'. cbn in *. by subst.
      * rewrite list_lookup_insert_ne by done. split; [by intros [_ [_ ?]]|]. intros [_ ?]. split; [|done]. by intros ->.
  - intros j x l' Hj. rewrite Forall_forall in Hmin. specialize (Hmin (mkEntry x j)). rewrite entry_cmp_le in Hmin. apply Hmin.
    apply Hh. cbn. eauto.
Qed.

Lemma pop_step m ls e h : merge_rep m ls (fun _ => true) -> pop_min (mi_heap m) = Some (e, h) ->
  exists l, ls !! source e = Some (row e :: l) /\
    merge_rep (refill (mkMergeIter h (inner m) (primed m)) (source e)) (<[source e := l]> ls) (fun _ => true) /\
    primed (refill (mkMergeIter h (inner m) (primed m)) (source e)) = primed m /\
    (forall j x l', ls !! j = Some (x :: l') -> row_timestamp (row e) < row_timestamp x \/
                                               row_timestamp (row e) = row_timestamp x /\ (source e <= j)%nat).
Proof.
  intros Hm Hpop. destruct (pop_rep m ls e h Hm Hpop) as (l & Hl & Hr & Hmin). exists l. split; [done|].
  destruct (heap_refill_rep _ _ _ (source e) Hr) as [Hm' Hp']; [by rewrite Nat.eqb_refl|rewrite length_insert; by eapply lookup_lt_Some|].
  split; [|done]. eapply merge_rep_ext; [|exact Hm']. intros j. cbn. by destruct (j =? source e)%nat.
Qed.

Definition rows_sorted (l : list R) : Prop := key_sorted row_timestamp l.

Lemma rows_sorted_cons x l : rows_sorted (x :: l) <-> Forall (fun y => row_timestamp x <= row_timestamp y) l /\ rows_sorted l.
Proof. unfold rows_sorted, key_sorted. split; [by inversion 1|]. intros [? ?]. by constructor. Qed.

(** The least head comes first in the stable sort. *)
Lemma least_head ls i x l : Forall rows_sorted ls -> ls !! i = Some (x :: l) ->
  (forall j y l', ls !! j = Some (y :: l') -> row_timestamp x < row_timestamp y \/ row_timestamp x = row_timestamp y /\ (i <= j)%nat) ->
  sort_by_key row_timestamp (concat ls) = x :: sort_by_key row_timestamp (concat (<[i := l]> ls)).
Proof.
  intros Hs Hi Hmin. destruct (concat_split ls i x l Hi) as (a & b & -> & -> & -> & ->).
  rewrite Forall_forall in Hs.
  assert (Hle : forall j l', ls !! j = Some l' -> Forall (fun y => row_timestamp x < row_timestamp y \/ row_timestamp x = row_timestamp y /\ (i <= j)%nat) l').
  { intros j [|y l'] Hj; [constructor|]. pose proof (Hmin j y l' Hj) as Hy. assert (rows_sorted (y :: l')) as [Hyl _]%rows_sorted_cons by (by apply Hs, list_elem_of_lookup; eauto).
    constructor; [done|]. eapply Forall_impl; [exact Hyl|]. cbn. intros z Hz. lia. }
  apply sort_first.
  - apply Forall_concat, Forall_forall. intros l' (j & Hj)%list_elem_of_lookup. apply lookup_take_Some in Hj as [Hj Hlt].
    eapply Forall_impl; [exact (Hle j l' Hj)|]. cbn. intros y Hy. lia.
  - apply Forall_app. split; [assert (rows_sorted (x :: l)) as [? _]%rows_sorted_cons by (by apply Hs, list_elem_of_lookup; eauto); done|].
    apply Forall_concat, Forall_forall. intros l' (j & Hj)%list_elem_of_lookup. rewrite lookup_drop in Hj.
    eapply Forall_impl; [exact (Hle _ l' Hj)|]. cbn. intros y Hy. lia.
Qed.

Lemma merge_collect_spec fuel : forall m ls, merge_rep m ls (fun _ => true) -> primed m = true -> Forall rows_sorted ls ->
  length (concat ls) = fuel -> merge_collect fuel m = sort_by_key row_timestamp (concat ls).
Proof.
  induction fuel as [|fuel IH]; intros m ls Hm Hp Hs Hlen; cbn [merge_collect].
  { by apply nil_length_inv in Hlen as ->. }
  unfold merge_iter_next, ensure_primed. rewrite Hp. cbn [negb]. destruct (pop_min (mi_heap m)) as [[e h]|] eqn:Epop.
  - destruct (pop_step m ls e h Hm Epop) as (l & Hl & Hm' & Hp' & Hmin). rewrite (least_head ls (source e) (row e) l Hs Hl Hmin). f_equal.
    apply IH; [done|congruence| |].
    + apply Forall_insert; [done|]. rewrite Forall_forall in Hs. assert (rows_sorted (row e :: l)) as [_ ?]%rows_sorted_cons by (by apply Hs, list_elem_of_lookup; eauto). done.
    + destruct (concat_split ls _ _ _ Hl) as (a & b & E1 & -> & _). rewrite E1 in Hlen. rewrite !length_app in *. cbn in Hlen. rewrite length_app in Hlen. lia.
  - exfalso. apply pop_min_none in Epop. destruct (concat ls) as [|x xs] eqn:Ec; [done|].
    assert (exists i y l, ls !! i = Some (y :: l)) as (i & y & l & Hi).
    { assert (x ∈ concat ls) as (l & Hx & Hl)%list_elem_of_In%in_concat by (rewrite Ec; by left).
      apply list_elem_of_In, list_elem_of_lookup in Hx as [i Hi]. destruct l as [|y l]; [done|]. eauto. }
    assert (mkEntry y i ∈ heap_elements (mi_heap m)) as Hin by (apply (mr_heads _ _ _ Hm); cbn; eauto). rewrite Epop in Hin. by apply elem_of_nil in Hin.
Qed.

Lemma multi_series_iter_spec ls : Forall rows_sorted ls -> multi_series_iter ls = sort_by_key row_timestamp (concat ls).
Proof.
  intros Hs. destruct (prime_rep ls) as [Hm Hp]. unfold multi_series_iter.
  rewrite <- (merge_collect_spec (length (concat ls)) (prime (merge_new ls)) ls Hm Hp Hs eq_refl). by destruct (length (concat ls)).
Qed.

End MergeLaws.

(** ** Runs of rows with one timestamp *)

Section Runs.

Context {R : Type} `{Timed R}.

Fixpoint runs_from (ts : Timestamp) (group : list R) (l : list R) : list (Timestamp * list R) :=
  match l with
  | [] => [(ts, group)]
  | r :: l => if row_timestamp r =? ts then runs_from ts (group ++ [r]) l else (ts, group) :: runs_from (row_timestamp r) [r] l
  end.

Definition runs (l : list R) : list (Timestamp * list R) :=
  match l with [] => [] | r :: l => runs_from (row_timestamp r) [r] l end.

Definition at_ts (t : Timestamp) (l : list R) : list R := List.filter (fun r => row_timestamp r =? t) l.

Lemma runs_from_sorted l : forall ts g, StronglySorted Z.le (ts :: map row_timestamp l) -> Forall (fun r => row_timestamp r = ts) g ->
  runs_from ts g l = map (fun t => (t, at_ts t (g ++ l))) (ts :: dedup_from ts (map row_timestamp l)).
Proof.
  unfold at_ts. induction l as [|r l IH]; intros ts g Hs Hg; cbn [runs_from map dedup_from].
  { rewrite app_nil_r, filter_all; [done|]. eapply Forall_impl; [exact Hg|]. cbn. intros; lia. }
  inversion Hs as [|? ? Hl Hts]; subst. cbn [map] in *. apply Forall_cons in Hts as [Hr Hts].
  destruct (Z.eqb_spec (row_timestamp r) ts) as [E|Hne].
  - rewrite IH; [cbn [map]; by rewrite <- app_assoc| |apply Forall_app; by repeat constructor].
    constructor; [by inversion Hl|done].
  - rewrite IH; [|done|by repeat constructor]. cbn [map]. f_equal; [|f_equal].
    + f_equal. rewrite List.filter_app, (filter_all _ g) by (eapply Forall_impl; [exact Hg|]; cbn; intros; lia).
      rewrite filter_none; [by rewrite app_nil_r|]. inversion Hl as [|? ? _ Hrl]; subst. rewrite Forall_map in Hrl.
      constructor; [cbn; lia|]. eapply Forall_impl; [exact Hrl|]. cbn. intros; lia.
    + f_equal. rewrite (List.filter_app _ g), (filter_none _ g); [done|]. eapply Forall_impl; [exact Hg|]. cbn. intros; lia.
    + apply map_ext_in. intros t Ht. f_equal. rewrite (List.filter_app _ g). rewrite (filter_none _ g); [done|].
      eapply Forall_impl; [exact Hg|]. cbn. intros y Hy.
      assert (row_timestamp r < t) by (destruct (dedup_from_spec _ _ Hl) as [Hd _]; inversion Hd as [|? ? _ Hlt]; subst; rewrite Forall_forall in Hlt; by apply Hlt, list_elem_of_In).
      lia.
Qed.

Lemma runs_sorted l : rows_sorted l -> runs l = map (fun t => (t, at_ts t l)) (dedup (map row_timestamp l)).
Proof.
  destruct l as [|r l]; [done|]. intros Hs. cbn [runs]. rewrite runs_from_sorted; [done| |by repeat constructor].
  unfold rows_sorted, key_sorted in Hs. change (row_timestamp r :: map row_timestamp l) with (map row_timestamp (r :: l)).
  clear -Hs. revert Hs. generalize (r :: l) as k. intros k. induction 1 as [|x k Hk IH Hx]; cbn; [constructor|]. constructor; [done|]. by apply Forall_map.
Qed.

Lemma at_ts_insert t x l : at_ts t (insert_by_key row_timestamp x l) = at_ts t (x :: l).
Proof.
  unfold at_ts. induction l as [|y l IH]; [done|]. cbn [insert_by_key]. destruct (Z.leb_spec (row_timestamp x) (row_timestamp y)); [done|].
  cbn [List.filter]. rewrite IH. cbn [List.filter]. destruct (Z.eqb_spec (row_timestamp x) t), (Z.eqb_spec (row_timestamp y) t); try done. lia.
Qed.

(** Sorting is stable. *)
Lemma at_ts_sort t l : at_ts t (sort_by_key row_timestamp l) = at_ts t l.
Proof.
  induction l as [|x l IH]; [done|]. cbn [sort_by_key foldr]. rewrite at_ts_insert. unfold at_ts in *. cbn [List.filter].
  unfold sort_by_key in IH. by rewrite IH.
Qed.

(** The timestamps of several lists, each once. *)
Definition times (ls : list (list R)) : list Timestamp := dedup (sort_by_key id (map row_timestamp (concat ls))).

Lemma sort_by_key_map l : map row_timestamp (sort_by_key row_timestamp l) = sort_by_key id (map row_timestamp l).
Proof.
  induction l as [|x l IH]; [done|]. cbn [sort_by_key foldr map]. unfold sort_by_key in IH. rewrite <- IH. generalize (foldr (insert_by_key row_timestamp) [] l).
  intros k. induction k as [|y k IHk]; [done|]. cbn. unfold id. destruct (_ <=? _); [done|]. cbn. by rewrite IHk.
Qed.

End Runs.

(** The merge groups the items of all the streams by timestamp. *)
Lemma merged_runs {R} `{Timed R} `{MinMaxHeap (Entry R)} `{!MinMaxHeapLaws (Entry R) entry_cmp} (ls : list (list R)) : Forall rows_sorted ls ->
  runs (multi_series_iter ls) = map (fun t => (t, at_ts t (concat ls))) (times ls).
Proof.
  intros Hs. rewrite multi_series_iter_spec by done. rewrite runs_sorted by apply sort_by_key_sorted. unfold times. rewrite sort_by_key_map.
  apply map_ext. intros t. by rewrite at_ts_sort.
Qed.

(** ** The reducers *)

(** What a reducer gives for the samples of a group. *)
Definition group_value (fresh : Aggregator) (ss : list Sample) : f64 :=
  if took fresh ss then (agg_finalize (feed_all fresh ss)).1 else empty_group_value fresh.

Lemma aggregation_type_update (a : Aggregator) ts v : aggregation_type (agg_update a ts v).2 = aggregation_type a.
Proof. destruct a; cbn; repeat case_match; simplify_eq; done. Qed.

Lemma empty_group_feed (a : Aggregator) ss : empty_group_value (feed_all a ss) = empty_group_value a.
Proof.
  unfold empty_group_value. f_equal. revert a. induction ss as [|s ss IH]; intros a; [done|]. rewrite feed_all_cons, IH.
  unfold feed_one. by rewrite aggregation_type_update.
Qed.

Lemma reset_group (a : Aggregator) b ts ss : agg_reset (finalize_group (feed_all (agg_reset a) ss) b ts).2 = agg_reset a.
Proof.
  unfold finalize_group. destruct b; cbn [agg_finalize snd].
  - by rewrite reset_reset, reset_feed, reset_reset.
  - by rewrite reset_feed, reset_reset.
Qed.

Lemma finalize_group_value a ts ss : (finalize_group (feed_all a ss) (took a ss) ts).1 = mkSample ts (group_value a ss).
Proof. unfold finalize_group, group_value. destruct (took a ss); cbn; [done|]. by rewrite empty_group_feed. Qed.

Lemma feed_snoc (a : Aggregator) g s ok a' : agg_update (feed_all a g) (timestamp s) (value s) = (ok, a') ->
  a' = feed_all a (g ++ [s]) /\ took a g || ok = took a (g ++ [s]).
Proof.
  intros E. rewrite took_snoc, E. split; [|done]. unfold feed_all at 1. rewrite fold_left_app. cbn [fold_left]. fold (feed_all a g). unfold feed_one. by rewrite E.
Qed.

Definition reduce_runs (a : Aggregator) (rs : list (Timestamp * list Sample)) : list Sample :=
  map (fun p => mkSample p.1 (group_value a p.2)) rs.

Lemma reduce_runs_cons a ts g rs : reduce_runs a ((ts, g) :: rs) = mkSample ts (group_value a g) :: reduce_runs a rs.
Proof. done. Qed.

Lemma sample_reduce_spec a l : agg_reset a = a -> forall g ts,
  sample_reduce (feed_all a g) (took a g) ts l = reduce_runs a (runs_from ts g l).
Proof.
  intros Ha. induction l as [|s l IH]; intros g ts; cbn [sample_reduce runs_from]; [unfold reduce_runs; cbn; by rewrite finalize_group_value|].
  change (row_timestamp s) with (timestamp s). destruct (timestamp s =? ts).
  - destruct (agg_update _ _ _) as [ok a'] eqn:E. apply feed_snoc in E as [-> ->]. apply IH.
  - pose proof (finalize_group_value a ts g) as Hv. pose proof (reset_group a (took a g) ts g) as Hr. rewrite Ha in Hr.
    destruct (finalize_group _ _ ts) as [res a1]. cbn [fst snd] in Hv, Hr. subst res. rewrite Hr. destruct (agg_update a _ _) as [ok a'] eqn:E.
    change a with (feed_all a []) in E. apply feed_snoc in E as [-> Hok]. change (ok = took a [s]) in Hok.
    rewrite reduce_runs_cons. f_equal. rewrite <- (IH [s] (timestamp s)). f_equal. exact Hok.
Qed.

Lemma sample_reducer_spec a l : agg_reset a = a -> sample_reducer l a = reduce_runs a (runs l).
Proof.
  intros Ha. destruct l as [|s l]; [done|]. cbn [sample_reducer runs]. rewrite Ha. destruct (agg_update a _ _) as [ok a'] eqn:E.
  change a with (feed_all a []) in E. apply feed_snoc in E as [-> Hok]. rewrite <- (sample_reduce_spec a l Ha [s]). f_equal. exact Hok.
Qed.

(** The reducer of a range query groups the same way. *)
Lemma reduce_group_spec a l : agg_reset a = a -> forall g cur,
  reduce_group (feed_all a g) cur (took a g) l = reduce_runs a (runs_from (timestamp cur) g l).
Proof.
  intros Ha. assert (Hval : forall g, (if took a g then (agg_finalize (feed_all a g)).1 else empty_group_value (feed_all a g)) = group_value a g)
    by (intros g; unfold group_value; by rewrite empty_group_feed).
  induction l as [|s l IH]; intros g cur; cbn [reduce_group runs_from]; [unfold reduce_runs; cbn; by rewrite Hval|].
  change (row_timestamp s) with (timestamp s). destruct (timestamp s =? timestamp cur).
  - destruct (agg_update _ _ _) as [ok a'] eqn:E. apply feed_snoc in E as [-> ->]. apply IH.
  - rewrite Hval. assert (agg_reset (if took a g then (agg_finalize (feed_all a g)).2 else feed_all a g) = a) as ->.
    { destruct (took a g); cbn [agg_finalize snd]; rewrite ?reset_reset, reset_feed; exact Ha. }
    destruct (agg_update a _ _) as [ok a'] eqn:E. change a with (feed_all a []) in E. apply feed_snoc in E as [-> Hok]. change (ok = took a [s]) in Hok.
    rewrite reduce_runs_cons. f_equal. rewrite <- (IH [s] s). f_equal. exact Hok.
Qed.

Lemma reduce_iterator_spec a l : agg_reset a = a -> reduce_iterator l a = reduce_runs a (runs l).
Proof.
  intros Ha. destruct l as [|s l]; [done|]. cbn [reduce_iterator runs]. destruct (agg_update a _ _) as [ok a'] eqn:E.
  change a with (feed_all a []) in E. apply feed_snoc in E as [-> Hok]. change (row_timestamp s) with (timestamp s). rewrite <- (reduce_group_spec a l Ha [s] s). f_equal. exact Hok.
Qed.

(** *** Rows *)

(** The values of a column at its timestamp. *)
Definition column_samples (j : nat) (rows : list MultiSample) : list Sample :=
  map (fun r => mkSample (ms_timestamp r) (default f64_NAN (ms_values r !! j))) rows.

Definition column_states (a : Aggregator) (n : nat) (rows : list MultiSample) : list Column :=
  map (fun j => (feed_all a (column_samples j rows), took a (column_samples j rows))) (seq 0 n).

Lemma update_row_spec ts n : forall (f : nat -> Column) k values, length values = n ->
  update_row ts (map f (seq k n)) values =
  map (fun j => let '(a, has) := f j in
                let '(ok, a) := agg_update a ts (default f64_NAN (values !! (j - k)%nat)) in (a, if ok then true else has)) (seq k n).
Proof.
  induction n as [|n IH]; intros f k [|v values] Hlen; try done. cbn [seq map update_row]. destruct (f k) as [a has] eqn:E.
  rewrite Nat.sub_diag. change (default f64_NAN ((v :: values) !! 0%nat)) with v. destruct (agg_update a ts v) as [ok a']. f_equal.
  rewrite IH by (by injection Hlen). apply map_ext_in. intros j Hj%in_seq. replace (j - k)%nat with (S (j - S k)) by lia. done.
Qed.

Lemma update_states a n g r : length (ms_values r) = n ->
  update_row (ms_timestamp r) (column_states a n g) (ms_values r) = column_states a n (g ++ [r]).
Proof.
  intros Hn. unfold column_states. rewrite update_row_spec by done. apply map_ext. intros j. rewrite Nat.sub_0_r. cbn beta iota.
  destruct (agg_update _ _ _) as [ok a'] eqn:E. unfold column_samples in *. rewrite map_app. cbn [map].
  apply (feed_snoc a _ (mkSample (ms_timestamp r) (default f64_NAN (ms_values r !! j)))) in E as [-> Hok].
  f_equal. rewrite <- Hok. destruct ok; by destruct (took _ _).
Qed.

(** The reduced row of a group. *)
Definition group_row (a : Aggregator) (n : nat) (p : Timestamp * list MultiSample) : MultiSample :=
  mkMultiSample p.1 (map (fun j => group_value a (column_samples j p.2)) (seq 0 n)).

Lemma finalize_states a n g ts : agg_reset a = a ->
  finalize_rows (column_states a n g) ts = (group_row a n (ts, g), column_states a n []).
Proof.
  intros Ha. unfold finalize_rows, group_row, column_states. rewrite !map_map. f_equal; [f_equal|]; apply map_ext; intros j; unfold finalize_column.
  - unfold group_value. destruct (took _ _); cbn; [done|]. by rewrite empty_group_feed.
  - cbn [column_samples map]. change (feed_all a []) with a. change (took a []) with false. destruct (took _ _); cbn [snd agg_finalize]; rewrite ?reset_reset, reset_feed, Ha; done.
Qed.

Lemma row_reduce_spec a n l : agg_reset a = a -> Forall (fun r => length (ms_values r) = n) l -> forall g ts,
  row_reduce (column_states a n g) ts l = map (group_row a n) (runs_from ts g l).
Proof.
  intros Ha. induction 1 as [|r l Hr _ IH]; intros g ts; cbn [row_reduce runs_from]; rewrite finalize_states by done; cbn [fst snd]; [done|].
  change (row_timestamp r) with (ms_timestamp r). destruct (ms_timestamp r =? ts).
  - rewrite update_states by done. apply IH.
  - rewrite update_states by done. cbn [map]. f_equal. apply IH.
Qed.

Lemma row_reducer_spec a n l : agg_reset a = a -> Forall (fun r => length (ms_values r) = n) l ->
  row_reducer l a n = map (group_row a n) (runs l).
Proof.
  intros Ha Hl. destruct Hl as [|r l Hr Hl]; [done|]. cbn [row_reducer runs]. rewrite <- row_reduce_spec by done. f_equal.
  change [r] with ([] ++ [r]). rewrite <- (update_states a n [] r Hr). f_equal. unfold column_states. generalize 0%nat. clear. induction n; intros k; cbn; [done|]. f_equal. apply IHn.
Qed.
