(* ===== verification/PartialReducer.v ===== *)
(** * PartialReducer: mergeable reducer states

    Models [src/aggregators/partial_reducer.rs]: what a shard of a cluster
    accumulates for the samples of a group with one timestamp, how the
    coordinator merges the states of the shards and what it reports. *)

From stdpp Require Import list.
From S2P Require Import Prelude Float64 Types Rounding Aggregators AggregateIterator.

Inductive PartialReducerKind :=
| PkSum | PkSumIf | PkCount | PkCountIf | PkMin | PkMax | PkRange | PkAvg | PkStdP | PkStdS | PkVarP | PkVarS | PkFirst | PkLast.

(** [PartialState]; the count is far below its 64 bits. *)
Record PartialState := mkPartialState { ps_count : Z; acc1 : f64; acc2 : f64; acc1_c : f64; ps_ts : Timestamp }.

Definition ps_default : PartialState := mkPartialState 0 f64_zero f64_zero f64_zero 0.

Inductive NanAcceptance := NanReject | NanAll | NanOnly.

Record PartialReducer := mkPartialReducer {
  pr_kind : PartialReducerKind;
  pr_filter : option ValueComparisonFilter;
  pr_acceptance : NanAcceptance;
  pr_state : PartialState;
}.

Definition for_config (c : AggregatorConfig) : option PartialReducer :=
  let has_filter := bool_decide (is_Some (value_filter c)) in
  let made kind acceptance := Some (mkPartialReducer kind (value_filter c) acceptance ps_default) in
  match aggregation c with
  | TySum => made (if has_filter then PkSumIf else PkSum) NanReject
  | TyCount => made (if has_filter then PkCountIf else PkCount) NanReject
  | TySumIf => made PkSumIf NanReject
  | TyCountIf => made PkCountIf NanReject
  | TyCountAll => made PkCount NanAll
  | TyCountNan => made PkCount NanOnly
  | TyMin => made PkMin NanReject
  | TyMax => made PkMax NanReject
  | TyRange => made PkRange NanReject
  | TyAvg => made PkAvg NanReject
  | TyStdP => made PkStdP NanReject
  | TyStdS => made PkStdS NanReject
  | TyVarP => made PkVarP NanReject
  | TyVarS => made PkVarS NanReject
  | TyFirst => made PkFirst NanReject
  | TyLast => made PkLast NanReject
  | TyIncrease | TyIRate => None
  | TyAll | TyAny | TyNone | TyShare | TyRate => None
  end.

Definition accepts (r : PartialReducer) (v : f64) : bool :=
  match pr_acceptance r with
  | NanReject => if f64_is_nan v then false else match pr_filter r with Some f => vc_compare f v | None => true end
  | NanAll => true
  | NanOnly => f64_is_nan v
  end.

(** The accumulators for an accepted value; [s] has it counted already. *)
Definition accumulate (kind : PartialReducerKind) (first_value : bool) (s : PartialState) (ts : Timestamp) (v : f64) : PartialState :=
  let with_acc1 a := mkPartialState (ps_count s) a (acc2 s) (acc1_c s) (ps_ts s) in
  match kind with
  | PkSum | PkSumIf | PkAvg =>
      let sum := kahan_add (mkKahanSum (acc1 s) (acc1_c s)) v in
      mkPartialState (ps_count s) (ks_sum sum) (acc2 s) (ks_compensation sum) (ps_ts s)
  | PkCount | PkCountIf => s
  | PkMin => with_acc1 (if first_value then v else f64_min_num (acc1 s) v)
  | PkMax => with_acc1 (if first_value then v else f64_max_num (acc1 s) v)
  | PkRange =>
      if first_value then mkPartialState (ps_count s) v v (acc1_c s) (ps_ts s)
      else mkPartialState (ps_count s) (f64_min_num (acc1 s) v) (f64_max_num (acc2 s) v) (acc1_c s) (ps_ts s)
  | PkStdP | PkStdS | PkVarP | PkVarS =>
      let delta := f64_sub v (acc1 s) in
      let mean := f64_add (acc1 s) (f64_div delta (f64_of_usize (ps_count s))) in
      mkPartialState (ps_count s) mean (f64_add (acc2 s) (f64_mul delta (f64_sub v mean))) (acc1_c s) (ps_ts s)
  | PkFirst => if first_value || (ts <? ps_ts s) then mkPartialState (ps_count s) v (acc2 s) (acc1_c s) ts else s
  | PkLast => if first_value || (ps_ts s <=? ts) then mkPartialState (ps_count s) v (acc2 s) (acc1_c s) ts else s
  end.

Definition pr_with_state (r : PartialReducer) (s : PartialState) : PartialReducer :=
  mkPartialReducer (pr_kind r) (pr_filter r) (pr_acceptance r) s.

Definition partial_update (r : PartialReducer) (ts : Timestamp) (v : f64) : PartialReducer :=
  if negb (accepts r v) then r
  else
    let s := pr_state r in
    let first_value := ps_count s =? 0 in
    let s := mkPartialState (ps_count s + 1) (acc1 s) (acc2 s) (acc1_c s) (ps_ts s) in
    pr_with_state r (accumulate (pr_kind r) first_value s ts v).

Definition take_state (r : PartialReducer) : PartialState * PartialReducer := (pr_state r, pr_with_state r ps_default).

Definition partial_merge (kind : PartialReducerKind) (into other : PartialState) : PartialState :=
  if ps_count other =? 0 then into
  else if ps_count into =? 0 then other
  else
    let n_a := f64_of_usize (ps_count into) in
    let n_b := f64_of_usize (ps_count other) in
    let s := mkPartialState (ps_count into + ps_count other) (acc1 into) (acc2 into) (acc1_c into) (ps_ts into) in
    match kind with
    | PkSum | PkSumIf | PkAvg =>
        let sum := kahan_merge (mkKahanSum (acc1 s) (acc1_c s)) (mkKahanSum (acc1 other) (acc1_c other)) in
        mkPartialState (ps_count s) (ks_sum sum) (acc2 s) (ks_compensation sum) (ps_ts s)
    | PkCount | PkCountIf => s
    | PkMin => mkPartialState (ps_count s) (f64_min_num (acc1 s) (acc1 other)) (acc2 s) (acc1_c s) (ps_ts s)
    | PkMax => mkPartialState (ps_count s) (f64_max_num (acc1 s) (acc1 other)) (acc2 s) (acc1_c s) (ps_ts s)
    | PkRange => mkPartialState (ps_count s) (f64_min_num (acc1 s) (acc1 other)) (f64_max_num (acc2 s) (acc2 other)) (acc1_c s) (ps_ts s)
    | PkStdP | PkStdS | PkVarP | PkVarS =>
        let n := f64_add n_a n_b in
        let delta := f64_sub (acc1 other) (acc1 s) in
        mkPartialState (ps_count s) (f64_add (acc1 s) (f64_mul delta (f64_div n_b n)))
          (f64_add (acc2 s) (f64_add (acc2 other) (f64_mul (f64_mul delta delta) (f64_div (f64_mul n_a n_b) n)))) (acc1_c s) (ps_ts s)
    | PkFirst => if ps_ts other <? ps_ts s then mkPartialState (ps_count s) (acc1 other) (acc2 s) (acc1_c s) (ps_ts other) else s
    | PkLast => if ps_ts s <=? ps_ts other then mkPartialState (ps_count s) (acc1 other) (acc2 s) (acc1_c s) (ps_ts other) else s
    end.

Definition partial_finalize (kind : PartialReducerKind) (s : PartialState) : f64 :=
  if ps_count s =? 0 then
    match kind with PkCount | PkCountIf | PkSumIf => f64_zero | _ => f64_NAN end
  else
    let n := f64_of_usize (ps_count s) in
    match kind with
    | PkSum | PkSumIf => f64_add (acc1 s) (acc1_c s)
    | PkMin | PkMax | PkFirst | PkLast => acc1 s
    | PkCount | PkCountIf => n
    | PkRange => f64_sub (acc2 s) (acc1 s)
    | PkAvg => f64_div (f64_add (acc1 s) (acc1_c s)) n
    | PkVarP => f64_div (acc2 s) n
    | PkVarS => if ps_count s =? 1 then f64_zero else f64_div (acc2 s) (f64_sub n f64_one_value)
    | PkStdP => f64_sqrt (f64_div (acc2 s) n)
    | PkStdS => if ps_count s =? 1 then f64_zero else f64_sqrt (f64_div (acc2 s) (f64_sub n f64_one_value))
    end.

(** [PartialSampleReducer::next] inside the group at [ts], and the groups after. *)
Fixpoint partial_samples_from (r : PartialReducer) (ts : Timestamp) (items : list Sample) : list (Timestamp * PartialState) :=
  match items with
  | [] => [(ts, (take_state r).1)]
  | s :: items =>
      if timestamp s =? ts then partial_samples_from (partial_update r (timestamp s) (value s)) ts items
      else
        let '(state, r) := take_state r in
        (ts, state) :: partial_samples_from (partial_update r (timestamp s) (value s)) (timestamp s) items
  end.

Definition partial_sample_reducer (items : list Sample) (r : PartialReducer) : list (Timestamp * PartialState) :=
  match items with
  | [] => []
  | s :: items => partial_samples_from (partial_update r (timestamp s) (value s)) (timestamp s) items
  end.

Fixpoint update_columns (reducers : list PartialReducer) (ts : Timestamp) (values : list f64) : list PartialReducer :=
  match reducers, values with
  | r :: reducers, v :: values => partial_update r ts v :: update_columns reducers ts values
  | reducers, _ => reducers
  end.

Fixpoint partial_rows_from (rs : list PartialReducer) (ts : Timestamp) (rows : list MultiSample) : list (Timestamp * list PartialState) :=
  match rows with
  | [] => [(ts, map (fun r => (take_state r).1) rs)]
  | row :: rows =>
      if ms_timestamp row =? ts then partial_rows_from (update_columns rs (ms_timestamp row) (ms_values row)) ts rows
      else
        (ts, map (fun r => (take_state r).1) rs) ::
        partial_rows_from (update_columns (map (fun r => (take_state r).2) rs) (ms_timestamp row) (ms_values row)) (ms_timestamp row) rows
  end.

Definition partial_row_reducer (rows : list MultiSample) (r : PartialReducer) (columns : nat) : list (Timestamp * list PartialState) :=
  match rows with
  | [] => []
  | row :: rows => partial_rows_from (update_columns (replicate columns r) (ms_timestamp row) (ms_values row)) (ms_timestamp row) rows
  end.
