(* ===== verification/PartialLaws.v ===== *)
(** * PartialLaws: partial states and the values they stand for

    A state summarises the values it accepted; merging summarises both sides;
    what is reported is what a single node reports for all the values, for the
    reducers whose value does not depend on the order of a sum. *)

From stdpp Require Import list sets.
From S2P Require Import Prelude Float64 FloatBounds Types Slice Content TimeSeries SeriesLaws SeriesReads SeriesWrites Rounding Aggregators AggregateIterator.
From S2P Require Import AggregateLaws AggregateColumns RangeQuery MultiSeries MultiLaws PartialReducer.

(** ** Extremes *)

Definition lowest (vs : list f64) (m : f64) : Prop := m ∈ vs /\ Forall (fun v => fkey m <= fkey v) vs.
Definition highest (vs : list f64) (m : f64) : Prop := m ∈ vs /\ Forall (fun v => fkey v <= fkey m) vs.

Lemma lowest_app a b x y : Forall number (a ++ b) -> lowest a x -> lowest b y -> lowest (a ++ b) (f64_min_num x y).
Proof.
  intros [Ha Hb]%Forall_app [Hx Hxa] [Hy Hyb]. rewrite Forall_forall in Ha, Hb.
  destruct (min_num_spec x y (Ha x Hx) (Hb y Hy)) as [Hc Hk]. split; [rewrite elem_of_app; destruct Hc as [-> | ->]; auto|].
  apply Forall_app. split; (eapply Forall_impl; [eassumption|]); cbn; intros; lia.
Qed.

Lemma highest_app a b x y : Forall number (a ++ b) -> highest a x -> highest b y -> highest (a ++ b) (f64_max_num x y).
Proof.
  intros [Ha Hb]%Forall_app [Hx Hxa] [Hy Hyb]. rewrite Forall_forall in Ha, Hb.
  destruct (max_num_spec x y (Ha x Hx) (Hb y Hy)) as [Hc Hk]. split; [rewrite elem_of_app; destruct Hc as [-> | ->]; auto|].
  apply Forall_app. split; (eapply Forall_impl; [eassumption|]); cbn; intros; lia.
Qed.

Lemma lowest_one v : lowest [v] v.
Proof. split; [by left|by repeat constructor]. Qed.

Lemma highest_one v : highest [v] v.
Proof. split; [by left|by repeat constructor]. Qed.

(** ** States *)

(** What the accumulators hold of the values [vs], taken at the timestamp [t]. *)
Definition holds_values (kind : PartialReducerKind) (t : Timestamp) (vs : list f64) (s : PartialState) : Prop :=
  match kind with
  | PkMin => lowest vs (acc1 s)
  | PkMax => highest vs (acc1 s)
  | PkRange => lowest vs (acc1 s) /\ highest vs (acc2 s)
  | PkFirst => head vs = Some (acc1 s) /\ ps_ts s = t
  | PkLast => list.last vs = Some (acc1 s) /\ ps_ts s = t
  | _ => True
  end.

Record summarises (kind : PartialReducerKind) (t : Timestamp) (vs : list f64) (s : PartialState) : Prop := {
  sm_count : ps_count s = Z.of_nat (length vs);
  sm_values : vs <> [] -> holds_values kind t vs s;
}.

(** The kinds whose accumulators compare floats. *)
Definition compares (kind : PartialReducerKind) : bool := match kind with PkMin | PkMax | PkRange => true | _ => false end.

Lemma summarises_empty kind t : summarises kind t [] ps_default.
Proof. by split. Qed.

Lemma summarises_update kind t vs s v : (compares kind = true -> Forall number (vs ++ [v])) -> summarises kind t vs s ->
  summarises kind t (vs ++ [v])
    (accumulate kind (ps_count s =? 0) (mkPartialState (ps_count s + 1) (acc1 s) (acc2 s) (acc1_c s) (ps_ts s)) t v).
Proof.
  intros Hn [Hc Hv]. assert (Hcnt : (ps_count s =? 0) = bool_decide (vs = [])).
  { rewrite Hc. destruct vs; [done|]. rewrite bool_decide_false by done. apply Z.eqb_neq. cbn. lia. }
  split.
  - rewrite length_app. cbn [length]. destruct kind; cbn [accumulate ps_count]; repeat case_match; cbn [ps_count]; lia.
  - intros _. rewrite Hcnt. destruct (decide (vs = [])) as [->|Hne].
    + rewrite bool_decide_true by done. destruct kind; cbn; try done; auto using lowest_one, highest_one.
    + rewrite bool_decide_false by done. specialize (Hv Hne). destruct kind; cbn [holds_values accumulate acc1 acc2 ps_ts orb] in *; try done.
      * apply lowest_app; [by apply Hn|done|apply lowest_one].
      * apply highest_app; [by apply Hn|done|apply highest_one].
      * destruct Hv. split; [apply lowest_app; [by apply Hn|done|apply lowest_one]|apply highest_app; [by apply Hn|done|apply highest_one]].
      * destruct Hv as [Hh Ht]. rewrite Ht, Z.ltb_irrefl. cbn [acc1 ps_ts]. split; [|done]. by destruct vs.
      * destruct Hv as [Hh Ht]. rewrite Ht, Z.leb_refl. cbn [acc1 ps_ts]. by rewrite last_snoc.
Qed.

Lemma summarises_merge kind t a b x y : (compares kind = true -> Forall number (a ++ b)) ->
  summarises kind t a x -> summarises kind t b y -> summarises kind t (a ++ b) (partial_merge kind x y).
Proof.
  intros Hn [Ca Va] [Cb Vb]. unfold partial_merge. rewrite Ca, Cb.
  destruct (decide (b = [])) as [->|Hb]; [rewrite app_nil_r; by split|].
  destruct (Z.eqb_spec (Z.of_nat (length b)) 0) as [E|_]; [destruct b; [done|cbn in E; lia]|].
  destruct (decide (a = [])) as [->|Ha]; [by split|].
  destruct (Z.eqb_spec (Z.of_nat (length a)) 0) as [E|_]; [destruct a; [done|cbn in E; lia]|].
  specialize (Va Ha). specialize (Vb Hb). split.
  - rewrite length_app. destruct kind; cbn [ps_count]; repeat case_match; cbn [ps_count]; lia.
  - intros _. destruct kind; cbn [holds_values acc1 acc2 ps_ts] in *; try done.
    + by apply lowest_app; [apply Hn|..].
    + by apply highest_app; [apply Hn|..].
    + destruct Va, Vb. split; [by apply lowest_app; [apply Hn|..]|by apply highest_app; [apply Hn|..]].
    + destruct Va as [Hh Ht], Vb as [_ ->]. rewrite Ht, Z.ltb_irrefl. cbn [acc1 ps_ts]. split; [|done]. by destruct a.
    + destruct Va as [_ Ht], Vb as [Hl ->]. rewrite Ht, Z.leb_refl. cbn [acc1 ps_ts]. split; [|done]. rewrite last_app. by rewrite Hl.
Qed.

(** ** The samples of a group *)

Definition partial_feed (r : PartialReducer) (ss : list Sample) : PartialReducer :=
  fold_left (fun r s => partial_update r (timestamp s) (value s)) ss r.

Definition accepted_values (r : PartialReducer) (ss : list Sample) : list f64 := List.filter (accepts r) (map value ss).

Lemma partial_update_shape r ts v : pr_kind (partial_update r ts v) = pr_kind r /\ (forall w, accepts (partial_update r ts v) w = accepts r w).
Proof. unfold partial_update. by destruct (accepts r v). Qed.

Lemma partial_feed_shape r ss : pr_kind (partial_feed r ss) = pr_kind r /\ (forall w, accepts (partial_feed r ss) w = accepts r w).
Proof.
  unfold partial_feed. revert r. induction ss as [|s ss IH]; intros r; [done|]. cbn [fold_left].
  destruct (IH (partial_update r (timestamp s) (value s))) as [-> Ha]. destruct (partial_update_shape r (timestamp s) (value s)) as [-> Hb].
  split; [done|]. intros w. by rewrite Ha.
Qed.

Lemma partial_feed_summarises r t ss : pr_state r = ps_default -> Forall (fun s => timestamp s = t) ss ->
  (compares (pr_kind r) = true -> Forall number (accepted_values r ss)) ->
  summarises (pr_kind r) t (accepted_values r ss) (pr_state (partial_feed r ss)).
Proof.
  intros Hr. induction ss as [|s ss IH] using rev_ind; intros Ht Hn; [cbn; rewrite Hr; apply summarises_empty|].
  apply Forall_app in Ht as [Ht [Hs _]%Forall_cons].
  unfold partial_feed, accepted_values in *. rewrite map_app, List.filter_app in *. rewrite fold_left_app. cbn [map fold_left List.filter] in *.
  fold (partial_feed r ss). destruct (partial_feed_shape r ss) as [Hk Ha]. unfold partial_update. rewrite Ha.
  destruct (accepts r (value s)); cbn [negb]; [|rewrite app_nil_r in *; by apply IH].
  cbn [pr_state pr_with_state]. rewrite Hk, Hs. apply summarises_update; [done|]. apply IH; [done|]. intros Hc. by apply Hn, Forall_app in Hc as [? _].
Qed.

(** ** What is reported *)

(** The reducers whose value does not depend on the order of a sum. *)
Definition exact_reducer (c : AggregatorConfig) : bool :=
  match aggregation c, value_filter c with
  | (TyCount | TyCountAll | TyCountNan | TyMin | TyMax | TyRange | TyFirst | TyLast), None => true
  | _, _ => false
  end.

(** The value of a group. *)
Definition reduces (c : AggregatorConfig) (ss : list Sample) (v : f64) : Prop :=
  let nums := numbers ss in
  match aggregation c with
  | TyCount => v = f64_of_usize (Z.of_nat (length nums))
  | TyCountAll => v = f64_of_usize (Z.of_nat (length ss))
  | TyCountNan => v = f64_of_usize (Z.of_nat (length ss - length nums))
  | TyMin => if decide (nums = []) then v = f64_NAN else least nums v
  | TyMax => if decide (nums = []) then v = f64_NAN else greatest nums v
  | TyRange => if decide (nums = []) then v = f64_NAN else exists lo hi, least nums lo /\ greatest nums hi /\ v = f64_sub hi lo
  | TyFirst => v = default f64_NAN (head nums)
  | TyLast => v = default f64_NAN (list.last nums)
  | _ => True
  end.

Lemma zero_usize : f64_of_usize 0 = f64_zero.
Proof. vm_compute. reflexivity. Qed.

Lemma count_value_zero n : match count_value n with Some v => v | None => f64_zero end = f64_of_usize n.
Proof. unfold count_value. destruct (Z.eqb_spec n 0) as [->|]; [by rewrite zero_usize|done]. Qed.

(** A single node reports the value. *)
Lemma group_value_reduces c ss : exact_reducer c = true -> Forall sample_valid ss -> reduces c ss (group_value (create_aggregator c) ss).
Proof.
  intros He Hv. assert (Hw : with_window 0 (create_aggregator c) = create_aggregator c) by (destruct c as [[] [|]]; done).
  pose proof (create_reports c 0 ss ltac:(destruct c as [[] [|]]; done) Hv ltac:(intros E; unfold exact_reducer in He; by rewrite E in He)) as Hr.
  pose proof (create_quiet c 0 ss) as Hq. rewrite Hw in *. unfold group_value, agg_finalize.
  assert (Hval : (if took (create_aggregator c) ss then match agg_current (feed_all (create_aggregator c) ss) with Some v => v | None => agg_empty_value (feed_all (create_aggregator c) ss) end
                  else empty_group_value (create_aggregator c)) =
                 match agg_current (feed_all (create_aggregator c) ss) with Some v => v | None => empty_group_value (create_aggregator c) end).
  { destruct (took _ _); [|by rewrite Hq]. destruct (agg_current _); [done|].
    destruct c as [t [f|]]; [by destruct t|]. destruct t; try done; cbn [create_aggregator aggregation value_filter aggregator_from]; rewrite feed_wrap by done; done. }
  cbn [fst]. rewrite Hval. destruct c as [t [f|]]; [by destruct t|]. unfold reduces, reports in *. cbn [aggregation value_filter] in *.
  destruct t; try done; clear Hq Hval Hw; destruct (agg_current _) as [v|]; try (rewrite decide_True by done; done).
  all: try by (destruct (decide _) as [E|]; [|done]; destruct Hr as [Hm _]; rewrite E in Hm; by apply elem_of_nil in Hm).
  all: try by (rewrite <- (count_value_zero _), <- Hr).
  - by rewrite <- Hr.
  - by rewrite <- Hr.
  - by rewrite <- Hr.
  - by rewrite <- Hr.
  - destruct Hr as (lo & hi & Hlo & Hr). destruct (decide _) as [E|]; [|eauto]. destruct Hlo as [Hm _]. rewrite E in Hm. by apply elem_of_nil in Hm.
Qed.

Lemma accepted_numbers c r ss : for_config c = Some r -> exact_reducer c = true ->
  match aggregation c with
  | TyCountAll => length (accepted_values r ss) = length ss
  | TyCountNan => length (accepted_values r ss) = (length ss - length (numbers ss))%nat
  | _ => accepted_values r ss = numbers ss
  end.
Proof.
  intros Hr He. unfold accepted_values. destruct c as [t [f|]]; [by destruct t|]. unfold for_config in Hr. cbn [aggregation value_filter] in *.
  assert (Hnum : List.filter (fun v => if f64_is_nan v then false else true) (map value ss) = numbers ss).
  { unfold numbers. induction ss as [|s ss IH]; [done|]. cbn. by destruct (f64_is_nan (value s)); cbn; rewrite IH. }
  destruct t; try done; injection Hr as <-; unfold accepts; cbn [pr_acceptance pr_filter]; try exact Hnum.
  - clear. induction ss as [|s ss IH]; [done|]. cbn. by rewrite IH.
  - clear. induction ss as [|s ss IH]; [done|]. cbn [map List.filter]. rewrite numbers_cons. pose proof (numbers_length ss).
    destruct (f64_is_nan (value s)); cbn [length]; lia.
Qed.

(** A state reports the value of what it summarises. *)
Lemma finalize_reduces c r t ss s : for_config c = Some r -> exact_reducer c = true -> Forall sample_valid ss ->
  summarises (pr_kind r) t (accepted_values r ss) s -> reduces c ss (partial_finalize (pr_kind r) s).
Proof.
  intros Hr He Hv [Hc Hh]. pose proof (accepted_numbers c r ss Hr He) as Ha. pose proof (numbers_ok ss Hv) as Hn.
  unfold partial_finalize, reduces. destruct c as [t' [f|]]; [by destruct t'|]. unfold for_config in Hr. cbn [aggregation value_filter] in *.
  assert (Hzero : (ps_count s =? 0) = bool_decide (accepted_values r ss = [])).
  { rewrite Hc. destruct (accepted_values r ss); [done|]. rewrite bool_decide_false by done. apply Z.eqb_neq. cbn. lia. }
  rewrite Hzero. destruct t'; try done; injection Hr as <-; cbn [pr_kind] in *.
  all: try (rewrite Ha in *; destruct (decide (numbers ss = [])) as [E|E]; [rewrite E in *; by rewrite bool_decide_true|]; rewrite bool_decide_false by done;
            specialize (Hh E); cbn [holds_values] in Hh).
  - by rewrite Hc.
  - rewrite <- Ha. case_bool_decide as E; [rewrite E; by rewrite <- zero_usize|by rewrite Hc].
  - rewrite <- Ha. case_bool_decide as E; [rewrite E; by rewrite <- zero_usize|by rewrite Hc].
  - destruct Hh as [-> _]. done.
  - destruct Hh as [-> _]. done.
  - destruct Hh. by apply greatest_key.
  - destruct Hh. by apply least_key.
  - destruct Hh as [[H1 H2] [H3 H4]]. exists (acc1 s), (acc2 s). split; [by apply least_key|]. split; [by apply greatest_key|done].
Qed.

(** ** Shards *)

(** The states of the shards, merged in order. *)
Definition merge_states (kind : PartialReducerKind) (states : list PartialState) : PartialState := fold_left (partial_merge kind) states ps_default.

Lemma accepted_app r a b : accepted_values r (a ++ b) = accepted_values r a ++ accepted_values r b.
Proof. unfold accepted_values. by rewrite map_app, List.filter_app. Qed.

Lemma for_config_state c r : for_config c = Some r -> pr_state r = ps_default.
Proof. unfold for_config. intros Hr. destruct (aggregation c); try done; by injection Hr as <-. Qed.

Lemma compares_numbers c r ss : for_config c = Some r -> exact_reducer c = true -> Forall sample_valid ss ->
  compares (pr_kind r) = true -> Forall number (accepted_values r ss).
Proof.
  intros Hr He Hv Hc. pose proof (accepted_numbers c r ss Hr He) as Ha. destruct c as [t [f|]]; [by destruct t|]. unfold for_config in Hr. cbn [aggregation value_filter] in *.
  destruct t; try done; injection Hr as <-; try done; rewrite Ha; by apply numbers_ok.
Qed.

Lemma merge_states_summarises c r t shards : for_config c = Some r -> exact_reducer c = true -> Forall (Forall sample_valid) shards ->
  Forall (Forall (fun s => timestamp s = t)) shards ->
  summarises (pr_kind r) t (accepted_values r (concat shards)) (merge_states (pr_kind r) (map (fun ss => pr_state (partial_feed r ss)) shards)).
Proof.
  intros Hr He Hv Ht. induction shards as [|ss shards IH] using rev_ind; [apply summarises_empty|].
  apply Forall_app in Hv as [Hv [Hs _]%Forall_cons]. apply Forall_app in Ht as [Ht [Hts _]%Forall_cons].
  unfold merge_states. rewrite map_app, fold_left_app, concat_app. cbn [map fold_left concat]. rewrite app_nil_r, accepted_app.
  apply summarises_merge; [|by apply IH|].
  - intros Hc. rewrite <- accepted_app. apply (compares_numbers c r _ Hr He); [|done]. apply Forall_app. split; [by apply Forall_concat|done].
  - apply partial_feed_summarises; [by eapply for_config_state|done|]. by apply (compares_numbers c r ss Hr He).
Qed.

(** *** The stream of a shard *)

Lemma take_state_feed r ss : pr_state r = ps_default -> take_state (partial_feed r ss) = (pr_state (partial_feed r ss), r).
Proof.
  intros Hr. unfold take_state. f_equal. revert r Hr. unfold partial_feed.
  assert (Hshape : forall ss r, pr_with_state (fold_left (fun r s => partial_update r (timestamp s) (value s)) ss r) ps_default = pr_with_state r ps_default).
  { induction ss0 as [|s ss0 IH]; intros r; [done|]. cbn [fold_left]. rewrite IH. unfold partial_update. by destruct (accepts r (value s)). }
  intros r Hr. rewrite Hshape. destruct r. unfold pr_with_state. cbn in *. by subst.
Qed.

Lemma partial_samples_spec r l : pr_state r = ps_default -> forall ts g,
  partial_samples_from (partial_feed r g) ts l = map (fun p => (p.1, pr_state (partial_feed r p.2))) (runs_from ts g l).
Proof.
  intros Hr. induction l as [|s l IH]; intros ts g; cbn [partial_samples_from runs_from]; [by rewrite take_state_feed|].
  assert (Hsnoc : forall k, partial_update (partial_feed r k) (timestamp s) (value s) = partial_feed r (k ++ [s])) by (intros k; unfold partial_feed; by rewrite fold_left_app).
  change (row_timestamp s) with (timestamp s). destruct (timestamp s =? ts); [by rewrite Hsnoc|].
  rewrite take_state_feed by done. change r with (partial_feed r []) at 2. rewrite Hsnoc. cbn [map]. f_equal. apply IH.
Qed.

Lemma partial_sample_reducer_spec r l : pr_state r = ps_default ->
  partial_sample_reducer l r = map (fun p => (p.1, pr_state (partial_feed r p.2))) (runs l).
Proof.
  intros Hr. destruct l as [|s l]; [done|]. cbn [partial_sample_reducer runs]. by rewrite <- partial_samples_spec.
Qed.
