(* ===== verification/MRange.v ===== *)
(** * MRange: queries over several series

    Models [src/series/mrange.rs] and [nrange.rs] from the series a query selects
    on.  A chunk in a result is the list of its samples; keys and labels are UTF-8
    strings, compared by bytes; work items that run in parallel run in order. *)

From stdpp Require Import strings.
From S2P Require Import Prelude Float64 Types Content Elf64 Log10Ref TimeSeriesChunk SeriesIterator Rounding TimeSeries.
From S2P Require Import TimestampRange TimestampFilter Aggregators AggregateIterator RangeQuery MultiSeries PartialReducer.

(** ** Options and results *)

Definition Label : Type := string * string.

Record MRangeOptions := mkMRangeOptions {
  mo_range : RangeOptions;
  with_labels : bool;
  selected_labels : list string;
  mo_grouping : option RangeGroupingOptions;
  mo_is_reverse : bool;
  exclude_empty : bool;
}.

Inductive SeriesResultData :=
| DataChunk (samples : list Sample)
| DataRows (rows : list MultiSample).

Definition data_is_empty (d : SeriesResultData) : bool :=
  match d with
  | DataChunk samples => bool_decide (samples = [])
  | DataRows rows => match rows with [] => true | _ => false end
  end.

(** Not called on rows. *)
Definition sample_iter (d : SeriesResultData) : list Sample :=
  match d with DataChunk samples => samples | DataRows _ => [] end.

Record MRangeSeriesResult := mkMRangeSeriesResult {
  mr_key : string;
  mr_group_label_value : option string;
  mr_labels : list Label;
  mr_sources : list string;
  mr_data : SeriesResultData;
}.

(** What [series_by_selectors] returns for a series: the series and its key, with
    its labels, whether it is a compaction and the open bucket of the rule that
    feeds it, and the readings of the clock that its iterators make. *)
Record SelectedSeries := mkSelectedSeries {
  se_series : TimeSeries;
  se_labels : list Label;
  se_key : string;
  se_is_compaction : bool;
  se_latest_compaction : option Sample;
  se_clock : Readings;
}.

Record MRangeSeriesMeta := mkMRangeSeriesMeta {
  mm_series : TimeSeries;
  series_labels : list Label;
  source_key : string;
  mm_latest : option Sample;
  group_label_value : option string;
  mm_clock : Readings;
}.

Inductive SampleLimit := LimitHead (n : nat) | LimitTail (n : nat).

Definition limit_apply {A} (l : SampleLimit) (items : list A) : list A :=
  match l with
  | LimitHead n => take n items
  | LimitTail n => tail_iter items n
  end.

Definition apply_limit {A} (l : option SampleLimit) (items : list A) : list A :=
  match l with Some l => limit_apply l items | None => items end.

(** The range of a query without COUNT. *)
Definition without_count (o : RangeOptions) : RangeOptions :=
  mkRangeOptions (date_range o) None (ro_latest o) (ro_aggregation o) (timestamp_filter o) (ro_value_filter o).

Definition is_multi (a : AggregationOptions) : bool := (1 <? length (aggregations a))%nat.

(** The aggregation of a query with several aggregators. *)
Definition multi_aggregation (o : MRangeOptions) : option AggregationOptions :=
  match ro_aggregation (mo_range o) with
  | Some a => if is_multi a then Some a else None
  | None => None
  end.

(** An error, with what its message reports; [Malformed] has the whole message. *)
Inductive MRangeError :=
| Malformed (message : string)
| GroupReduceWithoutGrouping
| NoPartialReduce (reducer : string)
| MismatchedLengths (column buckets expected columns : nat)
| MismatchedTimestamps (column : nat) (found : Timestamp) (bucket : nat) (expected : Timestamp) (columns buckets : nat)
| MismatchedRefs (series : string) (name_refs value_refs : nat)
| NameRefOutOfRange (series : string) (ref names : nat)
| ValueRefOutOfRange (series : string) (ref values : nat)
| InvalidPartials (group : string) (found expected states buckets : nat)
| InSeries (error : MRangeError) (series : string).

(** ** Sorting *)

(** A stable sort by a comparison. *)
Fixpoint insert_sorted {A} (leb : A -> A -> bool) (x : A) (l : list A) : list A :=
  match l with
  | [] => [x]
  | y :: l => if leb x y then x :: y :: l else y :: insert_sorted leb x l
  end.

Definition sort_with {A} (leb : A -> A -> bool) (l : list A) : list A := foldr (insert_sorted leb) [] l.

Definition option_leb (a b : option string) : bool :=
  match a, b with
  | None, _ => true
  | Some _, None => false
  | Some a, Some b => String.leb a b
  end.

Definition sort_mrange_results (results : list MRangeSeriesResult) (is_grouped : bool) : list MRangeSeriesResult :=
  if is_grouped then sort_with (fun a b => option_leb (mr_group_label_value a) (mr_group_label_value b)) results
  else sort_with (fun a b => String.leb (mr_key a) (mr_key b)) results.

(** ** Labels *)

Definition label_value (labels : list Label) (name : string) : option string :=
  snd <$> List.find (fun l => bool_decide (l.1 = name)) labels.

Definition convert_labels (labels : list Label) (with_labels : bool) (selected : list string) : list Label :=
  if negb with_labels && bool_decide (selected = []) then []
  else if bool_decide (selected = []) then labels
  else map (fun name => (name, default ""%string (label_value labels name))) selected.

Definition REDUCER_KEY : string := "__reducer__".
Definition SOURCE_KEY : string := "__source__".

Definition build_mrange_grouped_labels (group_label group_value reducer : string) (sources : list string) : list Label :=
  [(group_label, group_value); (REDUCER_KEY, reducer); (SOURCE_KEY, String.concat "," sources)].

(** ** Direction and COUNT *)

(** [collect_samples] and [collect_rows] *)
Definition collect_items {A} (items : list A) (is_reverse : bool) (count : option nat) : list A :=
  if negb is_reverse then match count with Some count => take count items | None => items end
  else reverse (match count with Some count => tail_iter items count | None => items end).

(** ** Groups *)

Record GroupedSeriesData := mkGroupedSeriesData { gd_series : list MRangeSeriesMeta; gd_labels : list Label; source_keys : list string }.

Definition collect_group_label_values (metas : list MRangeSeriesMeta) (grouping : RangeGroupingOptions) : list MRangeSeriesMeta :=
  map (fun m => mkMRangeSeriesMeta (mm_series m) (series_labels m) (source_key m) (mm_latest m)
                  (label_value (series_labels m) (group_label grouping)) (mm_clock m)) metas.

(** Adds an item to the group of a label.  The source uses a hash map; its
    groups are listed here by their first member. *)
Fixpoint group_add {A} (label : string) (x : A) (groups : list (string * list A)) : list (string * list A) :=
  match groups with
  | [] => [(label, [x])]
  | (l, xs) :: groups => if bool_decide (l = label) then (l, xs ++ [x]) :: groups else (l, xs) :: group_add label x groups
  end.

Definition group_by_label {A} (label_of : A -> option string) (xs : list A) : list (string * list A) :=
  fold_left (fun groups x => match label_of x with Some label => group_add label x groups | None => groups end) xs [].

Definition group_series_by_label (metas : list MRangeSeriesMeta) (grouping : RangeGroupingOptions) (with_labels : bool)
    : list (string * GroupedSeriesData) :=
  map (fun g =>
    let keys := sort_with String.leb (map source_key g.2) in
    (g.1, mkGroupedSeriesData g.2
            (if with_labels then build_mrange_grouped_labels (group_label grouping) g.1 (aggregation_name (aggregation (grp_aggregation grouping))) keys else [])
            keys)) (group_by_label group_label_value metas).

Definition passes_value (o : RangeOptions) (s : Sample) : bool :=
  match ro_value_filter o with Some f => vf_is_match f (value s) | None => true end.

Definition get_latest (o : RangeOptions) (s : SelectedSeries) : option Sample :=
  match get_range_latest_sample (se_series s) o (se_is_compaction s) (se_latest_compaction s) (at_latest (se_clock s)) with
  | Some x => if passes_value o x then Some x else None
  | None => None
  end.

Definition series_meta (o : RangeOptions) (s : SelectedSeries) : MRangeSeriesMeta :=
  mkMRangeSeriesMeta (se_series s) (se_labels s) (se_key s) (get_latest o s) None (se_clock s).

Section Query.

Context `{Log10} `{MinMaxHeap (Entry Sample)} `{MinMaxHeap (Entry MultiSample)}.

(** Enough turns for every aggregation of the query. *)
Variable fuel : nat.

(** ** One node *)

Definition get_grouped_samples (metas : list MRangeSeriesMeta) (o : MRangeOptions) (grouping : RangeGroupingOptions) (count : option nat)
    : list Sample :=
  let iterators := map (fun m => create_range_iterator fuel (mm_series m) (mo_range o) None (mm_latest m) false (mm_clock m)) metas in
  collect_items (sample_reducer (multi_series_iter iterators) (create_aggregator (grp_aggregation grouping))) (mo_is_reverse o) count.

Definition get_grouped_rows (metas : list MRangeSeriesMeta) (o : MRangeOptions) (a : AggregationOptions) (grouping : RangeGroupingOptions)
    (count : option nat) : list MultiSample :=
  let iterators := map (fun m => create_row_iterator fuel (mm_series m) (mo_range o) a (mm_latest m) false (mm_clock m)) metas in
  collect_items (row_reducer (multi_series_iter iterators) (create_aggregator (grp_aggregation grouping)) (length (aggregations a)))
    (mo_is_reverse o) count.

(** The options with another range. *)
Definition with_range (o : MRangeOptions) (r : RangeOptions) : MRangeOptions :=
  mkMRangeOptions r (with_labels o) (selected_labels o) (mo_grouping o) (mo_is_reverse o) (exclude_empty o).

Definition group_key (grouping : RangeGroupingOptions) (label : string) : string := group_label grouping +:+ "=" +:+ label.

Definition handle_grouping (metas : list MRangeSeriesMeta) (o : MRangeOptions) (grouping : RangeGroupingOptions) : list MRangeSeriesResult :=
  let groups := group_series_by_label metas grouping (with_labels o) in
  let count := ro_count (mo_range o) in
  let o := with_range o (without_count (mo_range o)) in
  map (fun g =>
    let data := match multi_aggregation o with
                | Some a => DataRows (get_grouped_rows (gd_series g.2) o a grouping count)
                | None => DataChunk (get_grouped_samples (gd_series g.2) o grouping count)
                end in
    mkMRangeSeriesResult (group_key grouping g.1) (Some g.1) (gd_labels g.2) (source_keys g.2) data) groups.

Definition handle_non_grouped (metas : list MRangeSeriesMeta) (o : MRangeOptions) (limit : option SampleLimit) : list MRangeSeriesResult :=
  map (fun m =>
    let data := match multi_aggregation o with
                | Some a => DataRows (apply_limit limit (create_row_iterator fuel (mm_series m) (mo_range o) a (mm_latest m) (mo_is_reverse o) (mm_clock m)))
                | None => DataChunk (apply_limit limit (create_range_iterator fuel (mm_series m) (mo_range o) (mo_grouping o) (mm_latest m) (mo_is_reverse o) (mm_clock m)))
                end in
    mkMRangeSeriesResult (source_key m) (group_label_value m) (convert_labels (series_labels m) (with_labels o) (selected_labels o)) [] data) metas.

Definition retain_nonempty (exclude : bool) (items : list MRangeSeriesResult) : list MRangeSeriesResult :=
  if exclude then List.filter (fun r => negb (data_is_empty (mr_data r))) items else items.

Definition process_mrange (metas : list MRangeSeriesMeta) (o : MRangeOptions) (is_clustered : bool) (limit : option SampleLimit)
    : list MRangeSeriesResult :=
  let metas := match mo_grouping o with Some grouping => collect_group_label_values metas grouping | None => metas end in
  if is_clustered then
    let o := mkMRangeOptions (mo_range o) (with_labels o) (selected_labels o) None (mo_is_reverse o) (exclude_empty o) in
    retain_nonempty (exclude_empty o) (handle_non_grouped metas o limit)
  else
    let items := match mo_grouping o with
                 | Some grouping => handle_grouping metas o grouping
                 | None => handle_non_grouped metas o None
                 end in
    sort_mrange_results (retain_nonempty (exclude_empty o) items) (bool_decide (is_Some (mo_grouping o))).

Definition process_mrange_query (selected : list SelectedSeries) (o : MRangeOptions) (clustered : bool) (limit : option SampleLimit)
    : list MRangeSeriesResult :=
  process_mrange (map (series_meta (mo_range o)) selected) o clustered limit.

(** ** Partial states of a shard *)

Record GroupPartialsResult := mkGroupPartialsResult {
  gp_label : string;
  gp_sources : list string;
  bucket_timestamps : list Timestamp;
  gp_states : list PartialState;
  column_count : nat;
}.

Definition process_mrange_group_partials (selected : list SelectedSeries) (o : MRangeOptions) (limit : option SampleLimit)
    : result MRangeError (list GroupPartialsResult) :=
  match mo_grouping o with
  | None => Err GroupReduceWithoutGrouping
  | Some grouping =>
      match for_config (grp_aggregation grouping) with
      | None => Err (NoPartialReduce (aggregation_name (aggregation (grp_aggregation grouping))))
      | Some reducer =>
          let metas := collect_group_label_values (map (series_meta (mo_range o)) selected) grouping in
          Ok (map (fun g =>
            let metas := gd_series g.2 in
            let '(timestamps, states, columns) :=
              match multi_aggregation o with
              | Some a =>
                  let iterators := map (fun m => create_row_iterator fuel (mm_series m) (mo_range o) a (mm_latest m) false (mm_clock m)) metas in
                  let rows := apply_limit limit (partial_row_reducer (multi_series_iter iterators) reducer (length (aggregations a))) in
                  (map fst rows, concat (map snd rows), length (aggregations a))
              | None =>
                  let iterators := map (fun m => create_range_iterator fuel (mm_series m) (mo_range o) None (mm_latest m) false (mm_clock m)) metas in
                  let rows := apply_limit limit (partial_sample_reducer (multi_series_iter iterators) reducer) in
                  (map fst rows, map snd rows, 1%nat)
              end in
            mkGroupPartialsResult g.1 (source_keys g.2) timestamps states columns) (group_series_by_label metas grouping false))
      end
  end.

End Query.

(** ** NRANGE *)

Record NRangeOptions := mkNRangeOptions { nr_range : RangeOptions; nr_aggregations : list AggregationOptions; nr_is_reverse : bool }.

Definition aggregation_for (o : NRangeOptions) (index : nat) : option AggregationOptions := nr_aggregations o !! index.

Definition nr_column_count (o : NRangeOptions) (index : nat) : nat :=
  match aggregation_for o index with Some agg => length (aggregations agg) | None => 1%nat end.

Definition per_key_range_options (o : NRangeOptions) (index : nat) : RangeOptions :=
  mkRangeOptions (date_range (nr_range o)) None (ro_latest (nr_range o)) (aggregation_for o index)
    (timestamp_filter (nr_range o)) (ro_value_filter (nr_range o)).

Definition collect_pivot_rows (rows : list MultiSample) (is_reverse : bool) (count : option nat) : list MultiSample :=
  if negb is_reverse then match count with Some count => take count rows | None => rows end
  else match count with Some count => take count (reverse rows) | None => reverse rows end.

Section Pivot.

Context `{Log10} `{MinMaxHeap (Entry MultiSample)}.

Variable fuel : nat.

Definition create_key_iterator (m : MRangeSeriesMeta) (o : NRangeOptions) (index : nat) : list MultiSample :=
  let range := per_key_range_options o index in
  match ro_aggregation range with
  | Some a => create_row_iterator fuel (mm_series m) range a (mm_latest m) false (mm_clock m)
  | None => map (fun s => mkMultiSample (timestamp s) [value s])
              (create_range_iterator fuel (mm_series m) range None (mm_latest m) false (mm_clock m))
  end.

Definition process_nrange (metas : list MRangeSeriesMeta) (o : NRangeOptions) : list MultiSample :=
  let sources := imap (fun index m => create_key_iterator m o index) metas in
  let widths := map (nr_column_count o) (seq 0 (length metas)) in
  collect_pivot_rows (pivot_iter sources widths) (nr_is_reverse o) (ro_count (nr_range o)).

Definition process_nrange_query (opened : list SelectedSeries) (o : NRangeOptions) : list MultiSample :=
  process_nrange (imap (fun index s => series_meta (per_key_range_options o index) s) opened) o.

End Pivot.
