(* ===== verification/PivotLaws.v ===== *)
(** * PivotLaws: the rows of a pivot

    The pivot of strictly increasing streams has one row for each timestamp, in
    order; each stream fills its own columns, with NaN where it has no row. *)

From stdpp Require Import list sorting sets.
From S2P Require Import Prelude Float64 Types Slice Content TimeSeries SeriesLaws SeriesReads SeriesWrites Aggregators AggregateIterator RangeQuery.
From S2P Require Import RangeLaws MultiSeries MultiLaws MRange.

(** ** Blocks of columns *)

Lemma offsets_lookup ws : forall total i w, ws !! i = Some w -> offsets_from total ws !! i = Some (total + sum_list (take i ws))%nat.
Proof.
  induction ws as [|w ws IH]; intros total [|i] w' Hi; try done; cbn.
  - f_equal. lia.
  - rewrite (IH _ _ _ Hi). f_equal. lia.
Qed.

Lemma concat_length (bs : list (list f64)) : length (concat bs) = sum_list (map length bs).
Proof. induction bs; [done|]. cbn. by rewrite length_app, IHbs. Qed.

Lemma write_block_concat bs i b (blk : list f64) : bs !! i = Some b -> (length blk <= length b)%nat ->
  write_block (sum_list (take i (map length bs))) blk (concat bs) = concat (<[i := blk ++ drop (length blk) b]> bs).
Proof.
  intros Hi Hlen. pose proof (lookup_lt_Some _ _ _ Hi) as Hlt.
  assert (sum_list (take i (map length bs)) = length (concat (take i bs))) as -> by (rewrite concat_length; f_equal; symmetry; apply fmap_take).
  assert (concat bs = concat (take i bs) ++ b ++ concat (drop (S i) bs)) as Eb.
  { rewrite <- (take_drop_middle _ _ _ Hi) at 1. by rewrite concat_app. }
  rewrite insert_take_drop by done. rewrite concat_app. cbn [concat]. unfold write_block. rewrite Eb, take_app_length, <- !app_assoc.
  do 2 f_equal. rewrite drop_app_add, drop_app_le by done. done.
Qed.

(** ** The columns of one row *)

Definition fill_block (t : Timestamp) (l : list MultiSample) (b : list f64) : list f64 :=
  match l with
  | r :: _ => if ms_timestamp r =? t
              then take (length b) (ms_values r) ++ drop (length (take (length b) (ms_values r))) b
              else b
  | [] => b
  end.

Definition fill (t : Timestamp) (ls : list (list MultiSample)) (bs : list (list f64)) : list (list f64) := zip_with (fill_block t) ls bs.

Definition drop_head (t : Timestamp) (l : list MultiSample) : list MultiSample :=
  match l with
  | r :: l' => if ms_timestamp r =? t then l' else l
  | [] => []
  end.

Lemma fill_block_length t l b : length (fill_block t l b) = length b.
Proof.
  destruct l as [|r l]; [done|]. cbn. destruct (_ =? _); [|done]. rewrite length_app, length_drop, length_take. lia.
Qed.

Definition increasing (l : list MultiSample) : Prop := key_increasing ms_timestamp l.

Lemma increasing_cons r l : increasing (r :: l) <-> Forall (fun x => ms_timestamp r < ms_timestamp x) l /\ increasing l.
Proof. unfold increasing, key_increasing. split; [by inversion 1|]. intros [? ?]. by constructor. Qed.

Section Laws.

Context `{MinMaxHeap (Entry MultiSample)} `{!MinMaxHeapLaws (Entry MultiSample) entry_cmp}.

(** The pivot holds the streams [ls], with [ws] columns each. *)
Record pivot_rep (p : PivotIter) (ls : list (list MultiSample)) (ws : list nat) : Prop := {
  pr_merge : merge_rep (pv_merge p) ls (fun _ => true);
  pr_primed : primed (pv_merge p) = true;
  pr_offsets : offsets p = offsets_from 0 ws;
  pr_widths : pv_widths p = ws;
  pr_total : total_columns p = sum_list ws;
  pr_length : length ws = length ls;
}.

(** Absorbing the least head. *)
Lemma absorb_step p ls ws bs e h : pivot_rep p ls ws -> map length bs = ws -> pop_min (mi_heap (pv_merge p)) = Some (e, h) ->
  exists l b p', ls !! source e = Some (row e :: l) /\ bs !! source e = Some b /\
    absorb (with_heap p h) e (concat bs) =
      (p', concat (<[source e := fill_block (ms_timestamp (row e)) (row e :: l) b]> bs)) /\
    pivot_rep p' (<[source e := l]> ls) ws /\
    (forall j x l', ls !! j = Some (x :: l') -> ms_timestamp (row e) <= ms_timestamp x).
Proof.
  intros [Hm Hp Ho Hw Ht Hlen] Hbs Hpop. destruct (pop_step _ _ _ _ Hm Hpop) as (l & Hl & Hm' & Hp' & Hmin).
  assert (source e < length bs)%nat as Hlt by (rewrite <- (length_map length bs), Hbs, Hlen; by eapply lookup_lt_Some).
  apply lookup_lt_is_Some_2 in Hlt as [b Hb].
  assert (ws !! source e = Some (length b)) as Hwi by (rewrite <- Hbs; change (map length bs) with (length <$> bs); by rewrite list_lookup_fmap, Hb).
  eexists l, b, _. split; [done|]. split; [done|]. split; [|split].
  - unfold absorb, with_heap. cbn [offsets pv_widths pv_merge total_columns]. rewrite Ho, Hw, (offsets_lookup _ _ _ _ Hwi), Hwi. cbn [from_option id].
    f_equal. cbn [fill_block]. rewrite Z.eqb_refl. cbn [Nat.add]. rewrite <- Hbs at 1. apply write_block_concat; [done|]. rewrite length_take. lia.
  - split; cbn [pv_merge offsets pv_widths total_columns]; try done; [congruence|by rewrite length_insert].
  - intros j x l' Hj. specialize (Hmin j x l' Hj). unfold row_timestamp, MultiSample_timed in Hmin. lia.
Qed.

Lemma no_heads p ls ws : pivot_rep p ls ws -> pop_min (mi_heap (pv_merge p)) = None -> forall l, l ∈ ls -> l = [].
Proof.
  intros [Hm _ _ _ _ _] Hpop [|x l] (i & Hi)%list_elem_of_lookup; [done|]. apply pop_min_none in Hpop.
  assert (mkEntry x i ∈ heap_elements (mi_heap (pv_merge p))) as Hin by (apply (mr_heads _ _ _ Hm); cbn; eauto). rewrite Hpop in Hin. by apply elem_of_nil in Hin.
Qed.

(** Inserting the filled block and dropping the head commute with [fill]. *)
Lemma fill_insert t ls bs i r l b : ls !! i = Some (r :: l) -> bs !! i = Some b -> ms_timestamp r = t -> increasing (r :: l) ->
  fill t (<[i := l]> ls) (<[i := fill_block t (r :: l) b]> bs) = fill t ls bs /\
  map (drop_head t) (<[i := l]> ls) = map (drop_head t) ls.
Proof.
  intros Hl Hb Ht [Hinc _]%increasing_cons.
  assert (Hnext : forall b', fill_block t l b' = b' /\ drop_head t l = l).
  { intros b'. destruct l as [|x l]; [done|]. apply Forall_cons in Hinc as [Hx _]. cbn. by destruct (Z.eqb_spec (ms_timestamp x) t); [lia|]. }
  split.
  - unfold fill. rewrite <- insert_zip_with. destruct (Hnext (fill_block t (r :: l) b)) as [-> _]. apply list_insert_id.
    by rewrite lookup_zip_with, Hl, Hb.
  - change (map (drop_head t)) with (fmap (drop_head t) : list _ -> list _). rewrite list_fmap_insert. apply list_insert_id.
    rewrite list_lookup_fmap, Hl. cbn. destruct (Hnext b) as [_ ->]. by rewrite Ht, Z.eqb_refl.
Qed.

Definition all_from (t : Timestamp) (ls : list (list MultiSample)) : Prop := Forall (Forall (fun r => t <= ms_timestamp r)) ls.

(** The number of streams with a row. *)
Definition live_streams (ls : list (list MultiSample)) : nat := length (concat ls).

Lemma length_drop_stream ls i r (l : list MultiSample) : ls !! i = Some (r :: l) -> live_streams ls = S (live_streams (<[i := l]> ls)).
Proof.
  intros Hi. unfold live_streams. destruct (concat_split ls i r l Hi) as (a & b & -> & -> & _). rewrite !length_app. cbn. rewrite length_app. lia.
Qed.

Lemma Forall_stream (P : list MultiSample -> Prop) ls i r l : Forall P ls -> ls !! i = Some (r :: l) -> (P (r :: l) -> P l) -> Forall P (<[i := l]> ls).
Proof. intros Hls Hi HP. apply Forall_insert; [done|]. apply HP. rewrite Forall_forall in Hls. apply Hls, list_elem_of_lookup. eauto. Qed.

Lemma quiet_heads t ls bs : length bs = length ls -> (forall l r l', l ∈ ls -> l = r :: l' -> ms_timestamp r <> t) ->
  fill t ls bs = bs /\ map (drop_head t) ls = ls.
Proof.
  unfold fill. revert bs. induction ls as [|l ls IH]; intros [|b bs] Hlen Hq; try done. cbn [zip_with map].
  destruct (IH bs) as [-> ->]; [by injection Hlen|set_solver|]. split; f_equal; destruct l as [|r l]; try done; cbn;
    (destruct (Z.eqb_spec (ms_timestamp r) t); [|done]); by destruct (Hq (r :: l) r l ltac:(set_solver) eq_refl).
Qed.

Lemma absorb_all_spec t ws fuel : forall p ls bs, pivot_rep p ls ws -> map length bs = ws -> Forall increasing ls -> all_from t ls ->
  (live_streams ls <= fuel)%nat ->
  exists p', absorb_all fuel t p (concat bs) = (p', concat (fill t ls bs)) /\ pivot_rep p' (map (drop_head t) ls) ws.
Proof.
  induction fuel as [|fuel IH]; intros p ls bs Hp Hbs Hinc Hall Hf; cbn [absorb_all].
  - assert (Hnil : forall l, l ∈ ls -> l = []).
    { unfold live_streams in Hf. assert (concat ls = []) as Hc by (destruct (concat ls); [done|cbn in Hf; lia]).
      intros [|x l] (a & b & ->)%list_elem_of_split; [done|]. rewrite concat_app in Hc. cbn in Hc. by apply app_nil in Hc as [_ ?]. }
    destruct (quiet_heads t ls bs) as [-> ->]; [rewrite <- (length_map length), Hbs; apply Hp|intros l r l' Hl ->; by apply Hnil in Hl|].
    by exists p.
  - rewrite peek_min_pop. destruct (pop_min (mi_heap (pv_merge p))) as [[e h]|] eqn:Epop; cbn [fmap option_fmap option_map fst].
    + destruct (absorb_step p ls ws bs e h Hp Hbs Epop) as (l & b & p1 & Hl & Hb & Ea & Hp1 & Hmin).
      assert (Hin : increasing (row e :: l)) by (rewrite Forall_forall in Hinc; apply Hinc, list_elem_of_lookup; eauto).
      destruct (Z.eqb_spec (ms_timestamp (row e)) t) as [Et|Hne].
      * rewrite Ea, Et. destruct (fill_insert t ls bs (source e) (row e) l b Hl Hb Et Hin) as [E1 E2].
        destruct (IH p1 (<[source e := l]> ls) (<[source e := fill_block t (row e :: l) b]> bs) Hp1) as (p' & E' & Hp').
        -- rewrite <- Hbs. change (map length) with (fmap length : list (list f64) -> list nat). rewrite list_fmap_insert, fill_block_length.
           apply list_insert_id. by rewrite list_lookup_fmap, Hb.
        -- eapply Forall_stream; [done|exact Hl|]. by intros [_ ?]%increasing_cons.
        -- eapply Forall_stream; [done|exact Hl|]. by intros [_ ?]%Forall_cons.
        -- rewrite (length_drop_stream _ _ _ _ Hl) in Hf. lia.
        -- rewrite E1 in E'. rewrite E2 in Hp'. exists p'. done.
      * destruct (quiet_heads t ls bs) as [-> ->]; [rewrite <- (length_map length), Hbs; apply Hp| |by exists p].
        intros l0 r l' (j & Hj)%list_elem_of_lookup ->. specialize (Hmin j r l' Hj).
        assert (t <= ms_timestamp (row e)).
        { unfold all_from in Hall. rewrite Forall_forall in Hall. specialize (Hall (row e :: l) ltac:(apply list_elem_of_lookup; eauto)). by apply Forall_cons in Hall as [? _]. }
        lia.
    + pose proof (no_heads p ls ws Hp Epop) as Hnil.
      destruct (quiet_heads t ls bs) as [-> ->]; [rewrite <- (length_map length), Hbs; apply Hp|intros l r l' Hl ->; by apply Hnil in Hl|].
      by exists p.
Qed.

(** ** The rows *)

(** The columns of a stream at a timestamp. *)
Definition column_block (t : Timestamp) (l : list MultiSample) (w : nat) : list f64 :=
  match at_ts t l with
  | r :: _ => take w (ms_values r) ++ replicate (w - length (ms_values r)) f64_NAN
  | [] => replicate w f64_NAN
  end.

Definition pivot_row (ls : list (list MultiSample)) (ws : list nat) (t : Timestamp) : MultiSample :=
  mkMultiSample t (concat (zip_with (column_block t) ls ws)).

Definition blank (ws : list nat) : list (list f64) := map (fun w => replicate w f64_NAN) ws.

Lemma concat_blank ws : concat (blank ws) = replicate (sum_list ws) f64_NAN.
Proof. induction ws as [|w ws IH]; [done|]. cbn. by rewrite replicate_add, <- IH. Qed.

Lemma fill_blank t ls ws : Forall increasing ls -> all_from t ls -> fill t ls (blank ws) = zip_with (column_block t) ls ws.
Proof.
  unfold fill, blank, all_from. intros Hi. revert ws. induction Hi as [|l ls Hl _ IH]; intros [|w ws] Ha; try done. apply Forall_cons in Ha as [Ha Has].
  cbn [zip_with map]. rewrite IH by done. f_equal. unfold column_block, at_ts, fill_block. destruct l as [|r l]; [done|]. cbn [List.filter].
  apply increasing_cons in Hl as [Hr _]. apply Forall_cons in Ha as [Hra _]. change (row_timestamp r) with (ms_timestamp r).
  destruct (Z.eqb_spec (ms_timestamp r) t) as [E|Hne].
  - rewrite length_replicate, length_take, drop_replicate. do 2 f_equal. lia.
  - rewrite filter_none; [done|]. eapply Forall_impl; [exact Hr|]. cbn. intros x Hx. change (row_timestamp x) with (ms_timestamp x). lia.
Qed.

Lemma pivot_next_spec p ls ws fuel : pivot_rep p ls ws -> Forall increasing ls -> (live_streams ls <= fuel)%nat -> concat ls <> [] ->
  exists t p', pivot_next fuel p = Some (pivot_row ls ws t, p') /\ pivot_rep p' (map (drop_head t) ls) ws /\ all_from t ls /\
    (exists l r, r :: l ∈ ls /\ ms_timestamp r = t).
Proof.
  intros Hp Hinc Hf Hne. unfold pivot_next, ensure_primed. rewrite (pr_primed _ _ _ Hp). cbn [negb].
  replace (mkPivotIter (pv_merge p) (offsets p) (pv_widths p) (total_columns p)) with p by (by destruct p).
  destruct (pop_min (mi_heap (pv_merge p))) as [[e h]|] eqn:Epop.
  2:{ exfalso. apply Hne. pose proof (no_heads p ls ws Hp Epop) as Hn. clear -Hn. induction ls as [|l ls IH]; [done|]. cbn. rewrite (Hn l) by set_solver. apply IH. set_solver. }
  assert (Hbl : map length (blank ws) = ws) by (unfold blank; rewrite map_map; rewrite <- (map_id ws) at 2; apply map_ext; intros; apply length_replicate).
  change (total_columns (with_heap p h)) with (total_columns p).
  rewrite (pr_total _ _ _ Hp), <- concat_blank.
  destruct (absorb_step p ls ws (blank ws) e h Hp Hbl Epop) as (l & b & p1 & Hl & Hb & -> & Hp1 & Hmin).
  set (t := ms_timestamp (row e)) in *.
  assert (Hin : increasing (row e :: l)) by (rewrite Forall_forall in Hinc; apply Hinc, list_elem_of_lookup; eauto).
  assert (Hall : all_from t ls).
  { apply Forall_forall. intros [|x l'] Hl'; [constructor|]. pose proof Hl' as (j & Hj)%list_elem_of_lookup. specialize (Hmin j x l' Hj).
    rewrite Forall_forall in Hinc. apply Hinc, increasing_cons in Hl' as [Hx _]. constructor; [done|]. eapply Forall_impl; [exact Hx|]. cbn. intros; lia. }
  destruct (fill_insert t ls (blank ws) (source e) (row e) l b Hl Hb eq_refl Hin) as [E1 E2].
  destruct (absorb_all_spec t ws fuel p1 (<[source e := l]> ls) (<[source e := fill_block t (row e :: l) b]> (blank ws)) Hp1) as (p' & E' & Hp').
  - rewrite <- Hbl at 2. change (map length) with (fmap length : list (list f64) -> list nat). rewrite list_fmap_insert, fill_block_length.
    apply list_insert_id. by rewrite list_lookup_fmap, Hb.
  - eapply Forall_stream; [done|exact Hl|]. by intros [_ ?]%increasing_cons.
  - eapply Forall_stream; [done|exact Hl|]. by intros [_ ?]%Forall_cons.
  - rewrite (length_drop_stream _ _ _ _ Hl) in Hf. lia.
  - rewrite E1 in E'. rewrite E2 in Hp'. exists t, p'. rewrite E'. split; [|split; [done|split; [done|exists l, (row e); split; [apply list_elem_of_lookup; eauto|done]]]].
    unfold pivot_row. by rewrite fill_blank.
Qed.

Lemma sorted_NoDup (l : list Z) : StronglySorted Z.lt l -> NoDup l.
Proof.
  induction 1 as [|x l _ IH Hx]; constructor; [|done]. intros Hin. rewrite Forall_forall in Hx. specialize (Hx x Hin). lia.
Qed.

Lemma sorted_ext (l1 l2 : list Z) : StronglySorted Z.lt l1 -> StronglySorted Z.lt l2 -> (forall x, x ∈ l1 <-> x ∈ l2) -> l1 = l2.
Proof.
  intros H1 H2 He. apply (StronglySorted_unique_strong Z.lt); [intros; lia|done|done|]. apply NoDup_Permutation; [by apply sorted_NoDup..|done].
Qed.

Lemma times_elem ls t : t ∈ times ls <-> exists l r, l ∈ ls /\ r ∈ l /\ ms_timestamp r = t.
Proof.
  unfold times. destruct (distinct_spec (map ms_timestamp (concat ls))) as [_ ->]. rewrite list_elem_of_In, in_map_iff.
  setoid_rewrite in_concat. setoid_rewrite list_elem_of_In. naive_solver.
Qed.

Lemma drop_head_elem t l r : increasing l -> Forall (fun x => t <= ms_timestamp x) l -> r ∈ drop_head t l <-> r ∈ l /\ ms_timestamp r <> t.
Proof.
  destruct l as [|x l]; [set_solver|]. intros [Hx _]%increasing_cons [Hxt Hlt]%Forall_cons. rewrite Forall_forall in Hx, Hlt. cbn.
  destruct (Z.eqb_spec (ms_timestamp x) t) as [E|Hne].
  - split; [intros Hr; specialize (Hx r Hr); split; [by right|lia]|]. intros [[->|Hr]%elem_of_cons Hn]; done.
  - split; [|by intros [? _]]. intros Hr. split; [done|]. apply elem_of_cons in Hr as [->|Hr]; [done|]. specialize (Hx r Hr). lia.
Qed.

(** Taking a row off takes its timestamp off. *)
Lemma times_step ls t : Forall increasing ls -> all_from t ls -> (exists l r, r :: l ∈ ls /\ ms_timestamp r = t) ->
  times ls = t :: times (map (drop_head t) ls).
Proof.
  intros Hinc Hall (l0 & r0 & Hl0 & Hr0).
  assert (Hel : forall x, x ∈ times (map (drop_head t) ls) <-> x ∈ times ls /\ x <> t).
  { intros x. rewrite !times_elem. setoid_rewrite list_elem_of_fmap. unfold all_from in Hall. rewrite Forall_forall in Hinc, Hall. split.
    - intros (l & r & (l' & -> & Hl') & Hr & <-). apply drop_head_elem in Hr as [Hr Hn]; auto. split; [eauto|done].
    - intros [(l & r & Hl & Hr & <-) Hn]. exists (drop_head t l), r. split; [eauto|]. split; [|done]. apply drop_head_elem; auto. }
  apply sorted_ext.
  - apply distinct_spec.
  - constructor; [apply distinct_spec|]. apply Forall_forall. intros x [Hx Hn]%Hel. apply times_elem in Hx as (l & r & Hl & Hr & <-).
    unfold all_from in Hall. rewrite Forall_forall in Hall. specialize (Hall l Hl). rewrite Forall_forall in Hall. specialize (Hall r Hr). lia.
  - intros x. rewrite elem_of_cons, Hel. destruct (decide (x = t)) as [->|]; [|tauto]. split; [by left|]. intros _. apply times_elem.
    exists (r0 :: l0), r0. split; [done|]. split; [by left|done].
Qed.

Lemma drop_head_at t t' l : t <> t' -> at_ts t' (drop_head t l) = at_ts t' l.
Proof.
  intros Hne. destruct l as [|r l]; [done|]. cbn [drop_head]. destruct (Z.eqb_spec (ms_timestamp r) t); [|done]. unfold at_ts. cbn [List.filter].
  change (row_timestamp r) with (ms_timestamp r). by destruct (Z.eqb_spec (ms_timestamp r) t'); [lia|].
Qed.

Lemma drop_head_increasing t ls : Forall increasing ls -> Forall increasing (map (drop_head t) ls).
Proof.
  intros Hi. apply Forall_map. eapply Forall_impl; [exact Hi|]. intros [|r l] Hl; [done|]. cbn. destruct (_ =? _); [|done]. by apply increasing_cons in Hl as [_ ?].
Qed.

Lemma pivot_row_drop ls ws t t' : t <> t' -> pivot_row (map (drop_head t) ls) ws t' = pivot_row ls ws t'.
Proof.
  intros Hne. unfold pivot_row. do 2 f_equal. revert ws. induction ls as [|l ls IH]; intros [|w ws]; try done. cbn [map zip_with]. rewrite IH. f_equal.
  unfold column_block. by rewrite drop_head_at.
Qed.

Lemma drop_head_shrinks t ls : (exists l r, r :: l ∈ ls /\ ms_timestamp r = t) -> (live_streams (map (drop_head t) ls) < live_streams ls)%nat.
Proof.
  unfold live_streams. intros (l & r & Hin & Hr). assert (Hle : forall k, (length (drop_head t k) <= length k)%nat) by (intros [|x k]; cbn; [done|]; destruct (_ =? _); cbn; lia).
  assert (Hles : forall ks, (length (concat (map (drop_head t) ks)) <= length (concat ks))%nat).
  { induction ks as [|k ks IH]; cbn; [done|]. rewrite !length_app. specialize (Hle k). lia. }
  apply list_elem_of_split in Hin as (a & b & ->). rewrite map_app, !concat_app, !length_app. cbn [map concat drop_head]. rewrite Hr, Z.eqb_refl, !length_app.
  cbn [length]. specialize (Hles a) as Ha. specialize (Hles b) as Hb. lia.
Qed.

Lemma pivot_collect_spec fuel ws n : forall p ls, pivot_rep p ls ws -> Forall increasing ls -> (live_streams ls <= fuel)%nat -> (live_streams ls <= n)%nat ->
  pivot_collect n fuel p = map (pivot_row ls ws) (times ls).
Proof.
  induction n as [|n IH]; intros p ls Hp Hinc Hf Hn; cbn [pivot_collect].
  { unfold live_streams in Hn. assert (concat ls = []) as Hc by (destruct (concat ls); [done|cbn in Hn; lia]). unfold times. by rewrite Hc. }
  destruct (decide (concat ls = [])) as [Hc|Hne].
  - unfold times. rewrite Hc. cbn. unfold pivot_next, ensure_primed. rewrite (pr_primed _ _ _ Hp). cbn [negb pv_merge].
    destruct (pop_min (mi_heap (pv_merge p))) as [[e h]|] eqn:Epop; [|done]. exfalso.
    destruct (pop_step _ _ _ _ (pr_merge _ _ _ Hp) Epop) as (l & Hl & _). destruct (concat_split ls _ _ _ Hl) as (a & b & E & _). rewrite Hc in E. by destruct a.
  - destruct (pivot_next_spec p ls ws fuel Hp Hinc Hf Hne) as (t & p' & -> & Hp' & Hall & Hex).
    pose proof (drop_head_shrinks t ls Hex) as Hs. rewrite (times_step ls t Hinc Hall Hex). cbn [map]. f_equal.
    rewrite (IH p' (map (drop_head t) ls) Hp' (drop_head_increasing t ls Hinc)) by lia. apply map_ext_in. intros t' Ht'. apply pivot_row_drop.
    apply list_elem_of_In, times_elem in Ht' as (l & r & Hl & Hr & <-). apply list_elem_of_In, in_map_iff in Hl as (k & <- & Hk%list_elem_of_In).
    unfold all_from in Hall. rewrite Forall_forall in Hinc, Hall. apply drop_head_elem in Hr as [_ Hn']; auto.
Qed.

Lemma pivot_iter_spec ls ws : length ws = length ls -> Forall increasing ls -> pivot_iter ls ws = map (pivot_row ls ws) (times ls).
Proof.
  intros Hlen Hinc. unfold pivot_iter. cbv zeta.
  assert (Hprime : pivot_rep (mkPivotIter (prime (merge_new ls)) (offsets_from 0 ws) ws (sum_list ws)) ls ws).
  { destruct (prime_rep ls) as [Hm Hp]. split; done. }
  rewrite <- (pivot_collect_spec (length (concat ls)) ws (length (concat ls)) _ ls Hprime Hinc) by (unfold live_streams; lia).
  by destruct (length (concat ls)).
Qed.

End Laws.

(** ** COUNT before and after a merge

    A query with COUNT sees only the first timestamps of its answers in the order
    asked for.  Cutting each stream to COUNT items before they are merged changes
    none of them. *)

(** ** Sorted lists *)

Section Cut.

Context (R : Z -> Z -> Prop) (R_asym : forall x y, R x y -> R y x -> False).

Lemma take_common (T : list Z) : StronglySorted R T -> forall T' n, StronglySorted R T' -> (forall t, t ∈ T' -> t ∈ T) ->
  (forall t, t ∈ take n T -> t ∈ T') -> take n T' = take n T.
Proof.
  induction 1 as [|x T Hs IH Hx]; intros T' n Hs' Hsub Htake.
  { destruct T' as [|y T']; [done|]. exfalso. by apply (not_elem_of_nil y), Hsub; left. }
  destruct n as [|n]; [done|]. cbn [take] in *. assert (x ∈ T') as Hin by (apply Htake; by left).
  destruct Hs' as [|y T' Hs' Hy]; [by apply elem_of_nil in Hin|]. rewrite Forall_forall in Hx, Hy.
  assert (y = x) as ->.
  { destruct (decide (y = x)) as [|Hne]; [done|]. exfalso. apply elem_of_cons in Hin as [->|Hin]; [done|].
    assert (y ∈ T) as HyT by (specialize (Hsub y ltac:(by left)); by apply elem_of_cons in Hsub as [?|?]). eapply R_asym; [by apply Hx|by apply Hy]. }
  cbn [take]. f_equal. apply IH; [done| |].
  - intros t Ht. specialize (Hsub t ltac:(by right)). apply elem_of_cons in Hsub as [->|?]; [|done]. exfalso. eapply (R_asym x x); by apply Hy.
  - intros t Ht. specialize (Htake t ltac:(by right)). apply elem_of_cons in Htake as [->|?]; [|done]. exfalso.
    assert (x ∈ T) by (eapply elem_of_take in Ht as (i & ? & _); by eapply list_elem_of_lookup_2). eapply (R_asym x x); by apply Hx.
Qed.

Context {A : Type} (key : A -> Z).

Lemma filter_take_mono (p : A -> bool) n k : List.filter p (take n k) = List.filter p k -> List.filter p (take (S n) k) = List.filter p k.
Proof.
  intros E. assert (List.filter p (drop n k) = []) as Hd.
  { apply (app_inv_head (List.filter p (take n k))). by rewrite <- List.filter_app, take_drop, app_nil_r. }
  rewrite <- (take_drop (S n) k) at 2. rewrite List.filter_app. assert (List.filter p (drop (S n) k) = []) as ->; [|by rewrite app_nil_r].
  rewrite <- Nat.add_1_r, <- drop_drop. destruct (drop n k) as [|x k']; [done|]. cbn in *. by destruct (p x).
Qed.

Lemma take_group (T : list Z) : StronglySorted R T -> forall k n t, StronglySorted (fun a b => R (key a) (key b)) k -> (forall x, x ∈ k -> key x ∈ T) ->
  t ∈ take n T -> List.filter (fun x => key x =? t) (take n k) = List.filter (fun x => key x =? t) k.
Proof.
  induction 1 as [|x T Hs IH Hx]; intros k n t Hk Hsub Ht; [by rewrite take_nil in Ht; apply elem_of_nil in Ht|].
  destruct n as [|n]; [by apply elem_of_nil in Ht|]. cbn [take] in Ht. rewrite Forall_forall in Hx.
  destruct Hk as [|y k Hk Hy]; [done|]. rewrite Forall_forall in Hy.
  assert (Hout : forall z, z ∈ k -> key z <> x).
  { intros z Hz E. specialize (Hy z Hz). rewrite E in Hy. specialize (Hsub y ltac:(by left)). apply elem_of_cons in Hsub as [E'|Hin]; [rewrite E' in Hy; by eapply R_asym|].
    eapply R_asym; [exact Hy|by apply Hx]. }
  assert (Hin : forall z, z ∈ k -> key z ∈ T) by (intros z Hz; specialize (Hsub z ltac:(by right)); apply elem_of_cons in Hsub as [E|?]; [by apply Hout in E|done]).
  assert (Hnone : forall l, (forall z, z ∈ l -> z ∈ k) -> List.filter (fun z => key z =? x) l = []).
  { intros l Hl. apply filter_none, Forall_forall. intros z Hz. apply Z.eqb_neq. by apply Hout, Hl. }
  assert (Htk : forall z, z ∈ take n k -> z ∈ k) by (intros z (i & Hi & _)%elem_of_take; by eapply list_elem_of_lookup_2).
  cbn [take List.filter]. apply elem_of_cons in Ht as [->|Ht].
  - rewrite !Hnone by done. done.
  - destruct (decide (key y = x)) as [E|Hne].
    + rewrite (IH k n t) by done. done.
    + assert (Hyin : key y ∈ T) by (specialize (Hsub y ltac:(by left)); by apply elem_of_cons in Hsub as [?|?]).
      change (List.filter (fun z => key z =? t) (take (S n) (y :: k)) = List.filter (fun z => key z =? t) (y :: k)).
      apply filter_take_mono. apply IH; [|by intros z [->|Hz]%elem_of_cons; auto|done]. constructor; [done|]. by apply Forall_forall.
Qed.

End Cut.

(** ** Streams *)

Definition limit_for (rev : bool) (n : nat) : SampleLimit := if rev then LimitTail n else LimitHead n.

Section Streams.

Context {R : Type} `{Timed R}.

(** The items of all the streams by timestamp. *)
Definition by_time {B} (F : Timestamp -> list R -> B) (ls : list (list R)) : list B := map (fun t => F t (at_ts t (concat ls))) (times ls).

Lemma times_sorted (ls : list (list R)) : StronglySorted Z.lt (times ls).
Proof. apply distinct_spec. Qed.

Lemma times_in (ls : list (list R)) t : t ∈ times ls <-> exists l r, l ∈ ls /\ r ∈ l /\ row_timestamp r = t.
Proof.
  unfold times. destruct (distinct_spec (map row_timestamp (concat ls))) as [_ ->]. rewrite list_elem_of_In, in_map_iff. setoid_rewrite in_concat. setoid_rewrite <- list_elem_of_In. naive_solver.
Qed.

Lemma at_ts_concat t (ls : list (list R)) : at_ts t (concat ls) = concat (map (at_ts t) ls).
Proof. unfold at_ts. induction ls as [|l ls IH]; [done|]. cbn. by rewrite List.filter_app, IH. Qed.

Lemma at_ts_reverse t (l : list R) : at_ts t (reverse l) = reverse (at_ts t l).
Proof. unfold at_ts. apply (filter_directed _ true). Qed.

Lemma directed_map {A B} (f : A -> B) rev l : directed rev (map f l) = map f (directed rev l).
Proof. destruct rev; [|done]. cbn. unfold reverse. by rewrite <- !rev_alt, map_rev. Qed.

Lemma apply_iter_limit_map {A B} (f : A -> B) l count : apply_iter_limit (map f l) count = map f (apply_iter_limit l count).
Proof. destruct count; [|done]. cbn. by rewrite firstn_map. Qed.

Lemma limited_directed rev n {A} (l : list A) : directed rev (limit_apply (limit_for rev n) l) = take n (directed rev l).
Proof.
  destruct rev; cbn [limit_for limit_apply directed]; [|done]. rewrite tail_iter_spec. destruct (Nat.le_gt_cases n (length l)).
  - rewrite <- (take_drop (length l - n) l) at 3. rewrite reverse_app, take_app_length'; [done|]. rewrite length_reverse, length_drop. lia.
  - replace (length l - n)%nat with 0%nat by lia. rewrite take_ge; [done|]. rewrite length_reverse. lia.
Qed.

(** COUNT before the merge loses nothing that COUNT after it keeps. *)
Lemma count_pushed {B} (F : Timestamp -> list R -> B) rev n (ls : list (list R)) : Forall (key_increasing row_timestamp) ls ->
  take n (directed rev (by_time F (map (limit_apply (limit_for rev n)) ls))) = take n (directed rev (by_time F ls)).
Proof.
  intros Hinc. set (ls' := map (limit_apply (limit_for rev n)) ls).
  set (ord := fun x y : Z => if rev then y < x else x < y).
  assert (Hasym : forall x y, ord x y -> ord y x -> False) by (unfold ord; destruct rev; intros; lia).
  assert (Hts : forall k : list (list R), StronglySorted ord (directed rev (times k))).
  { intros k. pose proof (times_sorted k) as Hs. unfold ord. destruct rev; [|exact Hs]. by apply StronglySorted_reverse in Hs. }
  assert (Hdir : forall (l : list R), key_increasing row_timestamp l -> StronglySorted (fun a b => ord (row_timestamp a) (row_timestamp b)) (directed rev l)).
  { intros l Hl. unfold ord. destruct rev; [|exact Hl]. by apply StronglySorted_reverse in Hl. }
  assert (Hel : forall {X} (x : X) l, x ∈ directed rev l <-> x ∈ l) by (intros X x l; destruct rev; cbn; [apply elem_of_reverse|done]).
  assert (Hcut : forall t l, l ∈ ls -> t ∈ take n (directed rev (times ls)) -> at_ts t (limit_apply (limit_for rev n) l) = at_ts t l).
  { intros t l Hl Ht. rewrite Forall_forall in Hinc.
    assert (E : at_ts t (take n (directed rev l)) = at_ts t (directed rev l)).
    { apply (take_group ord Hasym row_timestamp _ (Hts ls) (directed rev l) n t (Hdir l (Hinc l Hl))); [|done]. intros x Hx. apply Hel, times_in. exists l, x. split_and!; [done|by apply (Hel _ x l)|done]. }
    rewrite <- limited_directed in E. unfold at_ts in *. rewrite !filter_directed in E. apply (f_equal (directed rev)) in E. by rewrite !directed_twice in E. }
  assert (Hsub : forall t, t ∈ times ls' -> t ∈ times ls).
  { intros t (l' & r & Hl' & Hr & <-)%times_in. apply list_elem_of_fmap in Hl' as (l & -> & Hl). apply times_in. exists l, r. split_and!; [done| |done].
    apply (proj2 (Hel _ r _)) in Hr. apply (Hel _ r l). rewrite limited_directed in Hr. apply elem_of_take in Hr as (i & Hi & _). by eapply list_elem_of_lookup_2. }
  assert (Htake : take n (directed rev (times ls')) = take n (directed rev (times ls))).
  { apply (take_common ord Hasym); [apply Hts..| |].
    - intros t Ht. apply (Hel _ t), Hsub. by apply (Hel _ t).
    - intros t Ht. apply Hel. assert (t ∈ times ls) as (l & r & Hl & Hr & <-)%times_in by (apply Hel; apply elem_of_take in Ht as (i & Hi & _); by eapply list_elem_of_lookup_2).
      apply times_in. exists (limit_apply (limit_for rev n) l), r. split_and!; [by apply list_elem_of_fmap_2| |done].
      assert (r ∈ at_ts (row_timestamp r) (limit_apply (limit_for rev n) l)) as [? _]%list_elem_of_In%filter_In; [|by apply list_elem_of_In].
      rewrite Hcut by done. apply list_elem_of_In, filter_In. split; [by apply list_elem_of_In|apply Z.eqb_refl]. }
  unfold by_time. rewrite !directed_map, !firstn_map, Htake. apply map_ext_in. intros t Ht%list_elem_of_In. f_equal. rewrite !at_ts_concat. f_equal. unfold ls'. rewrite map_map.
  apply map_ext_in. intros l Hl%list_elem_of_In. by apply Hcut.
Qed.

End Streams.
