(* ===== verification/FanoutCodec.v ===== *)
(** * FanoutCodec: the messages of a query over a cluster

    Models the parts of [src/commands/fanout_codec] a query over several series
    uses: the request ([conversions.rs]), the series of a response ([chunks.rs])
    and the table of their labels ([symbol_table.rs]).  A message is the structure
    [prost] encodes; the samples of a [SampleData] stand for its bytes. *)

From stdpp Require Import strings.
From S2P Require Import Prelude Float64 Types Content Aggregators AggregateIterator TimestampRange RangeQuery MRange.

Local Open Scope result_scope.

(** [iter().map(f).collect::<Result<_, _>>()] *)
Fixpoint try_map {E A B} (f : A -> result E B) (l : list A) : result E (list B) :=
  match l with
  | [] => Ok []
  | x :: l => let? y := f x in let? ys := try_map f l in Ok (y :: ys)
  end.

(** ** Enums *)

Definition UNKNOWN_AGGREGATION_TYPE : string := "TSDB: Unknown aggregation type".
Definition INVALID_COMPARISON_OPERATOR : string := "TSDB: invalid comparison operator".
Definition INVALID_BUCKET_TIMESTAMP_TYPE : string := "TSDB: unknown BUCKETTIMESTAMP parameter".
Definition INVALID_BUCKET_ALIGNMENT : string := "TSDB: invalid bucket alignment".

(** The discriminants of the generated enums; 0 is [Unspecified]. *)
Definition aggregation_to_wire (a : AggregationType) : Z :=
  match a with
  | TyAll => 1 | TyAny => 2 | TyAvg => 3 | TyCount => 4 | TyCountAll => 5 | TyCountIf => 6 | TyCountNan => 7 | TyFirst => 8
  | TyIncrease => 9 | TyIRate => 10 | TyLast => 11 | TyMax => 12 | TyMin => 13 | TyNone => 14 | TyShare => 15 | TySum => 16
  | TySumIf => 17 | TyRange => 18 | TyRate => 19 | TyStdS => 20 | TyStdP => 21 | TyVarS => 22 | TyVarP => 23
  end.

Definition aggregation_of_wire (z : Z) : result MRangeError AggregationType :=
  match z with
  | 1 => Ok TyAll | 2 => Ok TyAny | 3 => Ok TyAvg | 4 => Ok TyCount | 5 => Ok TyCountAll | 6 => Ok TyCountIf | 7 => Ok TyCountNan
  | 8 => Ok TyFirst | 9 => Ok TyIncrease | 10 => Ok TyIRate | 11 => Ok TyLast | 12 => Ok TyMax | 13 => Ok TyMin | 14 => Ok TyNone
  | 15 => Ok TyShare | 16 => Ok TySum | 17 => Ok TySumIf | 18 => Ok TyRange | 19 => Ok TyRate | 20 => Ok TyStdS | 21 => Ok TyStdP
  | 22 => Ok TyVarS | 23 => Ok TyVarP
  | _ => Err (Malformed UNKNOWN_AGGREGATION_TYPE)
  end.

Definition operator_to_wire (op : ComparisonOperator) : Z :=
  match op with GreaterThan => 1 | GreaterThanOrEqual => 2 | LessThan => 3 | LessThanOrEqual => 4 | Equal => 5 | NotEqual => 6 end.

Definition operator_of_wire (z : Z) : result MRangeError ComparisonOperator :=
  match z with
  | 1 => Ok GreaterThan | 2 => Ok GreaterThanOrEqual | 3 => Ok LessThan | 4 => Ok LessThanOrEqual | 5 => Ok Equal | 6 => Ok NotEqual
  | _ => Err (Malformed INVALID_COMPARISON_OPERATOR)
  end.

Definition bucket_timestamp_to_wire (b : BucketTimestamp) : Z := match b with BucketStart => 1 | BucketEnd => 2 | BucketMid => 3 end.

Definition bucket_timestamp_of_wire (z : Z) : result MRangeError BucketTimestamp :=
  match z with
  | 1 => Ok BucketStart | 2 => Ok BucketEnd | 3 => Ok BucketMid
  | _ => Err (Malformed INVALID_BUCKET_TIMESTAMP_TYPE)
  end.

Definition alignment_to_wire (a : BucketAlignment) : Z * Timestamp :=
  match a with
  | AlignDefault => (1, 0)
  | AlignStart => (2, 0)
  | AlignEnd => (3, 0)
  | AlignTimestamp ts => (4, ts)
  end.

Definition alignment_of_wire (z : Z) : result MRangeError BucketAlignment :=
  match z with
  | 1 => Ok AlignDefault | 2 => Ok AlignStart | 3 => Ok AlignEnd | 4 => Ok (AlignTimestamp 0)
  | _ => Err (Malformed INVALID_BUCKET_ALIGNMENT)
  end.

(** ** The request *)

Record FanoutValueComparisonFilter := mkFanoutValueComparisonFilter { fv_operator : Z; fv_value : f64 }.

Record FanoutAggregatorConfig := mkFanoutAggregatorConfig { aggregator_type : Z; fc_value_filter : option FanoutValueComparisonFilter }.

Record FanoutGroupingOptions := mkFanoutGroupingOptions { fg_group_label : string; fg_aggregation : option FanoutAggregatorConfig }.

(** [bucket_duration] is a [uint32]. *)
Record FanoutAggregationOptions := mkFanoutAggregationOptions {
  fa_aggregators : list FanoutAggregatorConfig;
  fa_bucket_duration : Z;
  fa_alignment_timestamp : Timestamp;
  fa_bucket_timestamp_type : Z;
  fa_bucket_alignment : Z;
  fa_report_empty : bool;
}.

(** [count] is a [uint32], 0 for none. *)
Record RangeRequest := mkRangeRequest {
  rr_range : option DateRange;
  rr_count : Z;
  rr_timestamp_filter : list Timestamp;
  rr_value_filter : option ValueFilter;
  rr_aggregation : option FanoutAggregationOptions;
  rr_latest : bool;
}.

Record MultiRangeRequest := mkMultiRangeRequest {
  rq_range : option RangeRequest;
  rq_with_labels : bool;
  rq_selected_labels : list string;
  rq_grouping : option FanoutGroupingOptions;
  rq_is_reverse : bool;
  apply_aggregation : bool;
  apply_group_reduce : bool;
  apply_count : bool;
  rq_exclude_empty : bool;
}.

Definition filter_to_wire (f : ValueComparisonFilter) : FanoutValueComparisonFilter :=
  mkFanoutValueComparisonFilter (operator_to_wire (vc_operator f)) (vc_value f).

Definition filter_of_wire (f : FanoutValueComparisonFilter) : result MRangeError ValueComparisonFilter :=
  let? op := operator_of_wire (fv_operator f) in Ok (mkValueComparisonFilter op (fv_value f)).

Definition config_to_wire (c : AggregatorConfig) : FanoutAggregatorConfig :=
  mkFanoutAggregatorConfig (aggregation_to_wire (aggregation c)) (filter_to_wire <$> value_filter c).

Definition config_of_wire (c : FanoutAggregatorConfig) : result MRangeError AggregatorConfig :=
  let? aggregation := aggregation_of_wire (aggregator_type c) in
  let? filter := match fc_value_filter c with Some f => let? f := filter_of_wire f in Ok (Some f) | None => Ok None end in
  match aggregator_config_new aggregation filter with Ok c => Ok c | Err e => Err (Malformed e) end.

Definition grouping_to_wire (g : RangeGroupingOptions) : FanoutGroupingOptions :=
  mkFanoutGroupingOptions (group_label g) (Some (config_to_wire (grp_aggregation g))).

Definition grouping_of_wire (g : FanoutGroupingOptions) : result MRangeError RangeGroupingOptions :=
  let? aggregation := config_of_wire (default (mkFanoutAggregatorConfig 0 None) (fg_aggregation g)) in
  Ok (mkRangeGroupingOptions aggregation (fg_group_label g)).

Definition MAX_AGGREGATIONS : nat := 16.
Definition AGGREGATION_REQUIRED : string := "TSDB: aggregation config is required".
Definition TOO_MANY_AGGREGATIONS : string := "TSDB: too many aggregations (max 16)".
Definition DUPLICATE_AGGREGATION : string := "TSDB: duplicate aggregation".
Definition DURATION_MUST_BE_POSITIVE : string := "TSDB: bucket duration must be positive".

(** [value as u32] *)
Definition as_u32 (z : Z) : Z := z mod 2 ^ 32.

Definition aggregation_options_to_wire (a : AggregationOptions) : FanoutAggregationOptions :=
  let '(bucket_alignment, alignment_timestamp) := alignment_to_wire (alignment a) in
  mkFanoutAggregationOptions (map config_to_wire (aggregations a)) (as_u32 (bucket_duration a)) alignment_timestamp
    (bucket_timestamp_to_wire (timestamp_output a)) bucket_alignment (report_empty a).

Fixpoint has_duplicates (seen : list AggregationType) (l : list AggregatorConfig) : bool :=
  match l with
  | [] => false
  | c :: l => if bool_decide (aggregation c ∈ seen) then true else has_duplicates (seen ++ [aggregation c]) l
  end.

Definition aggregation_options_of_wire (a : FanoutAggregationOptions) : result MRangeError AggregationOptions :=
  if bool_decide (length (fa_aggregators a) = 0%nat) then Err (Malformed AGGREGATION_REQUIRED)
  else if (MAX_AGGREGATIONS <? length (fa_aggregators a))%nat then Err (Malformed TOO_MANY_AGGREGATIONS)
  else
    let? aggregations := try_map config_of_wire (fa_aggregators a) in
    if has_duplicates [] aggregations then Err (Malformed DUPLICATE_AGGREGATION)
    else if fa_bucket_duration a =? 0 then Err (Malformed DURATION_MUST_BE_POSITIVE)
    else if negb ((0 <=? fa_bucket_timestamp_type a) && (fa_bucket_timestamp_type a <=? 3)) then Err (Malformed INVALID_BUCKET_TIMESTAMP_TYPE)
    else
      let? alignment := alignment_of_wire (fa_bucket_alignment a) in
      let alignment := match alignment with AlignTimestamp _ => AlignTimestamp (fa_alignment_timestamp a) | a => a end in
      let? timestamp_output := bucket_timestamp_of_wire (fa_bucket_timestamp_type a) in
      Ok (mkAggregationOptions aggregations (fa_bucket_duration a) timestamp_output alignment (fa_report_empty a)).

Definition DATE_RANGE_REQUIRED : string := "TSDB: date range is required".
Definition RANGE_REQUIRED : string := "TSDB: range is required".

Definition range_options_to_wire (o : RangeOptions) (clock : Reading) : RangeRequest :=
  let '(start, end_) := get_timestamps (date_range o) None clock in
  mkRangeRequest (Some (mkDateRange start end_)) (match ro_count o with Some c => as_u32 (Z.of_nat c) | None => 0 end)
    (default [] (timestamp_filter o)) (ro_value_filter o) (aggregation_options_to_wire <$> ro_aggregation o) (ro_latest o).

Definition range_options_of_wire (r : RangeRequest) : result MRangeError RangeOptions :=
  match rr_range r with
  | None => Err (Malformed DATE_RANGE_REQUIRED)
  | Some d =>
      let count := if rr_count r =? 0 then None else Some (Z.to_nat (rr_count r)) in
      let? aggregation := match rr_aggregation r with
                          | Some a => let? a := aggregation_options_of_wire a in Ok (Some a)
                          | None => Ok None
                          end in
      let timestamp_filter := if bool_decide (rr_timestamp_filter r = []) then None else Some (rr_timestamp_filter r) in
      Ok (mkRangeOptions (from_timestamps (dr_start d) (dr_end d)) count (rr_latest r) aggregation timestamp_filter (rr_value_filter r))
  end.

Definition mrange_options_to_wire (o : MRangeOptions) (clock : Reading) : MultiRangeRequest :=
  mkMultiRangeRequest (Some (range_options_to_wire (mo_range o) clock)) (with_labels o) (selected_labels o)
    (grouping_to_wire <$> mo_grouping o) (mo_is_reverse o) false false false (exclude_empty o).

Definition mrange_options_of_wire (r : MultiRangeRequest) : result MRangeError MRangeOptions :=
  match rq_range r with
  | None => Err (Malformed RANGE_REQUIRED)
  | Some range =>
      let? range := range_options_of_wire range in
      let? grouping := match rq_grouping r with Some g => let? g := grouping_of_wire g in Ok (Some g) | None => Ok None end in
      Ok (mkMRangeOptions range (rq_with_labels r) (rq_selected_labels r) grouping (rq_is_reverse r) (rq_exclude_empty r))
  end.

(** ** The series of a response *)

Record SeriesRangeResponse := mkSeriesRangeResponse {
  sr_key : string;
  sr_group_label_value : string;
  sr_labels : list Label;
  columns : list (list Sample);
  label_name_refs : list nat;
  label_value_refs : list nat;
}.

(** The inner loop of [serialize_rows]: each value goes to its column. *)
Fixpoint push_row (columns : list (list Sample)) (ts : Timestamp) (values : list f64) : list (list Sample) :=
  match columns, values with
  | column :: columns, v :: values => (column ++ [mkSample ts v]) :: push_row columns ts values
  | columns, _ => columns
  end.

Definition serialize_rows (rows : list MultiSample) : list (list Sample) :=
  match rows with
  | [] => []
  | first :: _ =>
      let columns := replicate (length (ms_values first)) [] in
      fold_left (fun columns row => push_row columns (ms_timestamp row) (ms_values row)) rows columns
  end.

Fixpoint find_mismatched (len idx : nat) (cols : list (list Sample)) : option (nat * list Sample) :=
  match cols with
  | [] => None
  | col :: cols => if bool_decide (length col <> len) then Some (idx, col) else find_mismatched len (S idx) cols
  end.

(** The values of row [i], the columns from [idx] on. *)
Fixpoint row_values_at (i idx n len : nat) (ts : Timestamp) (cols : list (list Sample)) : result MRangeError (list f64) :=
  match cols with
  | [] => Ok []
  | col :: cols =>
      match col !! i with
      | None => Ok []
      | Some s =>
          if negb (timestamp s =? ts) then Err (MismatchedTimestamps idx (timestamp s) i ts n len)
          else let? values := row_values_at i (S idx) n len ts cols in Ok (value s :: values)
      end
  end.

(** Called with at least two columns; all have the length of the first when rows
    are read, so no index is out of range. *)
Definition deserialize_rows (cols : list (list Sample)) : result MRangeError (list MultiSample) :=
  let n := length cols in
  let first := default [] (head cols) in
  let len := length first in
  match find_mismatched len 0 cols with
  | Some (idx, col) => Err (MismatchedLengths idx (length col) len n)
  | None =>
      try_map (fun '(i, s) =>
        let? values := row_values_at i 0 n len (timestamp s) cols in Ok (mkMultiSample (timestamp s) values))
        (zip (seq 0 len) first)
  end.

(** A column travels as a serialized chunk of its samples, which
    [TimeSeriesChunk] shows to round-trip; here the samples stand for it. *)
Definition result_to_wire (r : MRangeSeriesResult) : SeriesRangeResponse :=
  mkSeriesRangeResponse (mr_key r) (default ""%string (mr_group_label_value r)) (mr_labels r)
    (match mr_data r with DataChunk samples => [samples] | DataRows rows => serialize_rows rows end) [] [].

Definition result_of_wire (s : SeriesRangeResponse) : result MRangeError MRangeSeriesResult :=
  let? data := match columns s with
               | [] => Ok (DataRows [])
               | [samples] => Ok (DataChunk samples)
               | cols => match deserialize_rows cols with Ok rows => Ok (DataRows rows) | Err e => Err (InSeries e (sr_key s)) end
               end in
  Ok (mkMRangeSeriesResult (sr_key s) (Some (sr_group_label_value s)) (sr_labels s) [] data).

(** ** The label table *)

(** The index of a string in a dictionary, which grows when it is new.  The map
    [name_ids] has exactly the indices of the list [names]. *)
Definition intern (dictionary : list string) (x : string) : nat * list string :=
  match list_find (eq x) dictionary with
  | Some (idx, _) => (idx, dictionary)
  | None => (length dictionary, dictionary ++ [x])
  end.

Fixpoint intern_refs (names values : list string) (labels : list Label) : list nat * list nat * (list string * list string) :=
  match labels with
  | [] => ([], [], (names, values))
  | (name, value) :: labels =>
      let '(name_idx, names) := intern names name in
      let '(value_idx, values) := intern values value in
      let '(name_refs, value_refs, tables) := intern_refs names values labels in
      (name_idx :: name_refs, value_idx :: value_refs, tables)
  end.

Definition with_refs (s : SeriesRangeResponse) (labels : list Label) (name_refs value_refs : list nat) : SeriesRangeResponse :=
  mkSeriesRangeResponse (sr_key s) (sr_group_label_value s) labels (columns s) name_refs value_refs.

Fixpoint intern_from (names values : list string) (series : list SeriesRangeResponse) : list SeriesRangeResponse * (list string * list string) :=
  match series with
  | [] => ([], (names, values))
  | s :: series =>
      let '(name_refs, value_refs, (names, values)) := intern_refs names values (sr_labels s) in
      let '(series, tables) := intern_from names values series in
      (with_refs s [] name_refs value_refs :: series, tables)
  end.

Definition intern_labels (series : list SeriesRangeResponse) : list SeriesRangeResponse * (list string * list string) := intern_from [] [] series.

Fixpoint resolve_refs (key : string) (names values : list string) (name_refs value_refs : list nat) : result MRangeError (list Label) :=
  match name_refs, value_refs with
  | name_idx :: name_refs, value_idx :: value_refs =>
      match names !! name_idx with
      | None => Err (NameRefOutOfRange key name_idx (length names))
      | Some name =>
          match values !! value_idx with
          | None => Err (ValueRefOutOfRange key value_idx (length values))
          | Some value => let? labels := resolve_refs key names values name_refs value_refs in Ok ((name, value) :: labels)
          end
      end
  | _, _ => Ok []
  end.

Definition resolve_series (names values : list string) (s : SeriesRangeResponse) : result MRangeError SeriesRangeResponse :=
  if bool_decide (label_name_refs s = []) && bool_decide (label_value_refs s = []) then Ok (with_refs s (sr_labels s) [] [])
  else if bool_decide (length (label_name_refs s) <> length (label_value_refs s))
  then Err (MismatchedRefs (sr_key s) (length (label_name_refs s)) (length (label_value_refs s)))
  else
    let? labels := resolve_refs (sr_key s) names values (label_name_refs s) (label_value_refs s) in
    Ok (with_refs s labels [] []).

Definition resolve_labels (series : list SeriesRangeResponse) (names values : list string) : result MRangeError (list SeriesRangeResponse) :=
  try_map (resolve_series names values) series.
