(* ===== verification/MRangeFanout.v ===== *)
(** * MRangeFanout: a query over a cluster

    Models [src/commands/ts_mrange_fanout_command.rs]: which work the coordinator
    pushes down, what a shard answers, and how the answers become the reply.  A
    [BTreeMap] is the list of its entries in the order of the keys.  The readings
    of the coordinator's clock are a function of the series or group they are for. *)

From stdpp Require Import strings.
From S2P Require Import Prelude Float64 Types Content Elf64 Log10Ref TimeSeriesChunk SeriesIterator Rounding TimeSeries.
From S2P Require Import TimestampRange TimestampFilter Aggregators AggregateIterator RangeQuery MultiSeries PartialReducer MRange FanoutCodec.

Local Open Scope result_scope.

(** ** Maps *)

(** [entry(key).or_insert_with(fresh)], changed by [f]. *)
Fixpoint btree_update {K V} (compare : K -> K -> comparison) (key : K) (fresh : V) (f : V -> V) (m : list (K * V)) : list (K * V) :=
  match m with
  | [] => [(key, f fresh)]
  | (k, v) :: m =>
      match compare key k with
      | Lt => (key, f fresh) :: (k, v) :: m
      | Eq => (k, f v) :: m
      | Gt => (k, v) :: btree_update compare key fresh f m
      end
  end.

(** [BTreeSet::insert] *)
Definition btree_insert (key : string) (s : list string) : list string :=
  map fst (btree_update String.compare key tt (fun v => v) (map (fun k => (k, tt)) s)).

(** ** The command *)

Record MultiRangeResponse := mkMultiRangeResponse {
  rs_series : list SeriesRangeResponse;
  rs_group_partials : list GroupPartialsResult;
  applied_aggregation : bool;
  applied_group_reduce : bool;
  applied_count : bool;
  symbol_table_names : list string;
  symbol_table_values : list string;
}.

Record MRangeFanoutCommand := mkMRangeFanoutCommand {
  fo_options : MRangeOptions;
  fo_series : list (SeriesRangeResponse * bool);
  fo_group_partials : list GroupPartialsResult;
  pushdown : bool;
  pushdown_group : bool;
  pushdown_count : bool;
}.

Definition fanout_new (config_enabled : bool) (o : MRangeOptions) : MRangeFanoutCommand :=
  let has_aggregation := bool_decide (is_Some (ro_aggregation (mo_range o))) in
  let pushdown := config_enabled && has_aggregation in
  let pushdown_group :=
    config_enabled && match mo_grouping o with Some g => bool_decide (is_Some (for_config (grp_aggregation g))) | None => false end in
  let pushdown_count := config_enabled && bool_decide (is_Some (ro_count (mo_range o))) && (negb has_aggregation || pushdown) in
  mkMRangeFanoutCommand o [] [] pushdown pushdown_group pushdown_count.

Definition generate_request (c : MRangeFanoutCommand) (clock : Reading) : MultiRangeRequest :=
  let r := mrange_options_to_wire (fo_options c) clock in
  mkMultiRangeRequest (rq_range r) (rq_with_labels r) (rq_selected_labels r) (rq_grouping r) (rq_is_reverse r)
    (pushdown c) (pushdown_group c) (pushdown_count c) (rq_exclude_empty r).

Definition ingest_response (c : MRangeFanoutCommand) (resp : MultiRangeResponse) : result MRangeError MRangeFanoutCommand :=
  let? series := resolve_labels (rs_series resp) (symbol_table_names resp) (symbol_table_values resp) in
  Ok (mkMRangeFanoutCommand (fo_options c) (fo_series c ++ map (fun s => (s, applied_aggregation resp)) series)
        (fo_group_partials c ++ rs_group_partials resp) (pushdown c) (pushdown_group c) (pushdown_count c)).

(** The states of a group by bucket, and its sources. *)
Abbreviation MergedGroup := (list (Timestamp * list PartialState) * list string)%type.

Section Fanout.

Context `{Log10} `{MinMaxHeap (Entry Sample)} `{MinMaxHeap (Entry MultiSample)}.

(** Enough turns for every aggregation of the query. *)
Variable fuel : nat.

(** ** A shard *)

Definition get_local_response (selected : list SelectedSeries) (req : MultiRangeRequest) : result MRangeError MultiRangeResponse :=
  let? o := mrange_options_of_wire req in
  let limit := if apply_count req
               then (fun n => if mo_is_reverse o then LimitTail n else LimitHead n) <$> ro_count (mo_range o)
               else None in
  let stripped range := mkMRangeOptions range (with_labels o) (selected_labels o) (mo_grouping o) false (exclude_empty o) in
  let range := without_count (mo_range o) in
  if apply_group_reduce req && bool_decide (is_Some (mo_grouping o)) then
    let? partials := process_mrange_group_partials fuel selected (stripped range) limit in
    Ok (mkMultiRangeResponse [] partials true true (apply_count req) [] [])
  else
    let range := if negb (apply_aggregation req)
                 then mkRangeOptions (date_range range) (ro_count range) (ro_latest range) None (timestamp_filter range) (ro_value_filter range)
                 else range in
    let series := process_mrange_query fuel selected (stripped range) true limit in
    let '(serialized, (names, values)) := intern_labels (map result_to_wire series) in
    Ok (mkMultiRangeResponse serialized [] (apply_aggregation req) false (apply_count req) names values).

(** ** The coordinator *)

Variable clock : string -> Reading.

Definition is_multi_aggregation (o : MRangeOptions) : bool := bool_decide (is_Some (multi_aggregation o)).

Definition normalize_response_series (series : list (SeriesRangeResponse * bool)) (o : MRangeOptions) (pushdown : bool)
    : result MRangeError (list SeriesRangeResponse) :=
  if negb (pushdown && negb (is_multi_aggregation o)) then Ok (map fst series)
  else
    let shard_range := without_count (mo_range o) in
    try_map (fun '(response, bucketed) =>
      if bucketed : bool then Ok response
      else
        let? r := result_of_wire response in
        let samples := create_sample_iterator_adapter fuel (sample_iter (mr_data r)) shard_range None false no_fill (clock (mr_key r)) in
        Ok (result_to_wire (mkMRangeSeriesResult (mr_key r) (mr_group_label_value r) (mr_labels r) (mr_sources r) (DataChunk samples)))) series.

(** [construct_group_map]: a [BTreeMap] of the series by label, each with its
    keys sorted. *)
Definition construct_group_map (series : list MRangeSeriesResult) : list (string * (list string * list MRangeSeriesResult)) :=
  sort_with (fun a b => String.leb a.1 b.1)
    (map (fun g => (g.1, (sort_with String.leb (map mr_key g.2), g.2))) (group_by_label mr_group_label_value series)).

Definition validate_reverse (o : MRangeOptions) : bool * bool :=
  let has_aggregation := bool_decide (is_Some (ro_aggregation (mo_range o))) in
  (negb has_aggregation && mo_is_reverse o, has_aggregation && mo_is_reverse o).

(** [sort_by_key] with [Reverse] of the timestamp. *)
Definition sort_descending (samples : list Sample) : list Sample := sort_with (fun a b => timestamp b <=? timestamp a) samples.

(** [key]: the series or the group, for the clock. *)
Definition process_series_list (key : string) (series : list MRangeSeriesResult) (o : MRangeOptions) : list Sample :=
  let '(reverse_iter, reverse_aggr) := validate_reverse o in
  let samples :=
    if reverse_iter then sort_descending (concat (map (fun s => sample_iter (mr_data s)) series))
    else match series with
         | [s] => sample_iter (mr_data s)
         | _ => multi_series_iter (map (fun s => sample_iter (mr_data s)) series)
         end in
  create_sample_iterator_adapter fuel samples (mo_range o) (mo_grouping o) reverse_aggr no_fill (clock key).

Definition aggregate_rows_ascending (key : string) (samples : list Sample) (o : MRangeOptions) (a : AggregationOptions) : list MultiSample :=
  let '(start_ts, end_ts) := get_timestamp_range (mo_range o) (clock key) in
  agg_collect fuel (multi_aggregate_new samples a (get_aligned_timestamp (alignment a) start_ts end_ts)).

Definition series_rows_ascending (s : MRangeSeriesResult) (o : MRangeOptions) (a : AggregationOptions) : list MultiSample :=
  match mr_data s with
  | DataRows rows => rows
  | DataChunk samples => aggregate_rows_ascending (mr_key s) samples o a
  end.

Definition mr_with_data (s : MRangeSeriesResult) (d : SeriesResultData) : MRangeSeriesResult :=
  mkMRangeSeriesResult (mr_key s) (mr_group_label_value s) (mr_labels s) (mr_sources s) d.

Definition process_series_samples (s : MRangeSeriesResult) (o : MRangeOptions) : MRangeSeriesResult :=
  match multi_aggregation o with
  | Some a => mr_with_data s (DataRows (collect_items (series_rows_ascending s o a) (mo_is_reverse o) (ro_count (mo_range o))))
  | None => mr_with_data s (DataChunk (process_series_list (mr_key s) [s] o))
  end.

Definition reduce_aggregated_group (series : list MRangeSeriesResult) (o : MRangeOptions) (grouping : RangeGroupingOptions) : list Sample :=
  let range := without_count (mo_range o) in
  let per_series := map (fun s => create_sample_iterator_adapter fuel (sample_iter (mr_data s)) range None false no_fill (clock (mr_key s))) series in
  collect_items (sample_reducer (multi_series_iter per_series) (create_aggregator (grp_aggregation grouping))) (mo_is_reverse o) (ro_count (mo_range o)).

Definition process_group (label : string) (keys : list string) (series : list MRangeSeriesResult) (o : MRangeOptions)
    (grouping : RangeGroupingOptions) : MRangeSeriesResult :=
  let data :=
    match multi_aggregation o, ro_aggregation (mo_range o) with
    | Some a, _ =>
        let rows := map (fun s => series_rows_ascending s o a) series in
        DataRows (collect_items (row_reducer (multi_series_iter rows) (create_aggregator (grp_aggregation grouping)) (length (aggregations a)))
                    (mo_is_reverse o) (ro_count (mo_range o)))
    | None, Some _ => DataChunk (reduce_aggregated_group series o grouping)
    | None, None => DataChunk (process_series_list (group_key grouping label) series o)
    end in
  let labels := if with_labels o
                then build_mrange_grouped_labels (group_label grouping) label (aggregation_name (aggregation (grp_aggregation grouping))) keys
                else [] in
  mkMRangeSeriesResult (group_key grouping label) (Some label) labels keys data.

Definition handle_basic (series : list SeriesRangeResponse) (o : MRangeOptions) : result MRangeError (list MRangeSeriesResult) :=
  let? results := try_map result_of_wire series in Ok (map (fun s => process_series_samples s o) results).

Definition handle_response_grouping (series : list SeriesRangeResponse) (o : MRangeOptions) (grouping : RangeGroupingOptions)
    : result MRangeError (list MRangeSeriesResult) :=
  let? results := try_map result_of_wire series in
  Ok (map (fun g => process_group g.1 g.2.1 g.2.2 o grouping) (construct_group_map results)).

Definition partial_columns (o : MRangeOptions) : nat := match multi_aggregation o with Some a => length (aggregations a) | None => 1%nat end.

Definition compensate_group_partials (series : list SeriesRangeResponse) (o : MRangeOptions) (grouping : RangeGroupingOptions)
    : result MRangeError (list GroupPartialsResult) :=
  if bool_decide (length series = 0%nat) then Ok []
  else
    match for_config (grp_aggregation grouping) with
    | None => Err (NoPartialReduce (aggregation_name (aggregation (grp_aggregation grouping))))
    | Some reducer =>
        let? results := try_map result_of_wire series in
        Ok (map (fun g =>
          let '(timestamps, states) :=
            match multi_aggregation o with
            | Some a =>
                let rows := partial_row_reducer (multi_series_iter (map (fun s => series_rows_ascending s o a) g.2.2)) reducer (length (aggregations a)) in
                (map fst rows, concat (map snd rows))
            | None =>
                let rows := partial_sample_reducer (multi_series_iter (map (fun s => sample_iter (mr_data s)) g.2.2)) reducer in
                (map fst rows, map snd rows)
            end in
          mkGroupPartialsResult g.1 g.2.1 timestamps states (partial_columns o)) (construct_group_map results))
    end.

Definition merge_row (kind : PartialReducerKind) (columns : nat) (buckets : list (Timestamp * list PartialState)) (row : Timestamp * list PartialState)
    : list (Timestamp * list PartialState) :=
  btree_update Z.compare row.1 (replicate columns ps_default) (fun merged => zip_with (partial_merge kind) merged row.2) buckets.

(** [chunks_exact] of the states, [columns] at a time. *)
Fixpoint chunks_exact {A} (count columns : nat) (l : list A) : list (list A) :=
  match count with
  | O => []
  | S count => take columns l :: chunks_exact count columns (drop columns l)
  end.

Definition merge_partial (kind : PartialReducerKind) (columns : nat) (p : GroupPartialsResult) (g : MergedGroup) : MergedGroup :=
  let rows := zip (bucket_timestamps p) (chunks_exact (length (gp_states p) / columns) columns (gp_states p)) in
  (fold_left (merge_row kind columns) rows g.1, fold_left (fun s key => btree_insert key s) (gp_sources p) g.2).

Fixpoint merge_partials (kind : PartialReducerKind) (columns : nat) (partials : list GroupPartialsResult) (groups : list (string * MergedGroup))
    : result MRangeError (list (string * MergedGroup)) :=
  match partials with
  | [] => Ok groups
  | p :: partials =>
      if bool_decide (column_count p <> columns) || bool_decide (length (gp_states p) <> length (bucket_timestamps p) * columns)%nat
      then Err (InvalidPartials (gp_label p) (column_count p) columns (length (gp_states p)) (length (bucket_timestamps p)))
      else merge_partials kind columns partials (btree_update String.compare (gp_label p) ([], []) (merge_partial kind columns p) groups)
  end.

Definition finish_group (kind : PartialReducerKind) (o : MRangeOptions) (grouping : RangeGroupingOptions) (label : string) (g : MergedGroup)
    : MRangeSeriesResult :=
  let data :=
    match multi_aggregation o with
    | Some _ =>
        let rows := map (fun '(ts, states) => mkMultiSample ts (map (partial_finalize kind) states)) g.1 in
        DataRows (collect_items rows (mo_is_reverse o) (ro_count (mo_range o)))
    | None =>
        let samples := map (fun '(ts, states) => mkSample ts (partial_finalize kind (default ps_default (head states)))) g.1 in
        let samples := if mo_is_reverse o then reverse samples else samples in
        DataChunk (match ro_count (mo_range o) with Some count => take count samples | None => samples end)
    end in
  let labels := if with_labels o
                then build_mrange_grouped_labels (group_label grouping) label (aggregation_name (aggregation (grp_aggregation grouping))) g.2
                else [] in
  mkMRangeSeriesResult (group_key grouping label) (Some label) labels g.2 data.

Definition handle_group_partials (partials : list GroupPartialsResult) (o : MRangeOptions) (grouping : RangeGroupingOptions)
    : result MRangeError (list MRangeSeriesResult) :=
  match for_config (grp_aggregation grouping) with
  | None => Err (NoPartialReduce (aggregation_name (aggregation (grp_aggregation grouping))))
  | Some reducer =>
      let? groups := merge_partials (pr_kind reducer) (partial_columns o) partials [] in
      Ok (map (fun g => finish_group (pr_kind reducer) o grouping g.1 g.2) groups)
  end.

Definition process_responses (c : MRangeFanoutCommand) (o : MRangeOptions) : result MRangeError (list MRangeSeriesResult) :=
  let? series := normalize_response_series (fo_series c) o (pushdown c) in
  let r := mo_range o in
  let o := if pushdown c && negb (is_multi_aggregation o)
           then with_range o (mkRangeOptions (date_range r) (ro_count r) (ro_latest r) None (timestamp_filter r) (ro_value_filter r))
           else o in
  match mo_grouping o with
  | Some grouping =>
      if pushdown_group c then
        let? compensated := compensate_group_partials series o grouping in
        handle_group_partials (fo_group_partials c ++ compensated) o grouping
      else handle_response_grouping series o grouping
  | None =>
      let? results := handle_basic series o in
      Ok (retain_nonempty (exclude_empty o) results)
  end.

(** [reply]: what is sent to the client. *)
Definition fanout_reply (c : MRangeFanoutCommand) : result MRangeError (list MRangeSeriesResult) :=
  let r := mo_range (fo_options c) in
  let o := with_range (fo_options c) (mkRangeOptions (date_range r) (ro_count r) false (ro_aggregation r) None None) in
  let? series := process_responses c o in
  Ok (sort_mrange_results series (bool_decide (is_Some (mo_grouping o)))).

(** The command as a whole: the request goes to every shard, the responses are
    taken in the order given. *)
Fixpoint ingest_all (c : MRangeFanoutCommand) (req : MultiRangeRequest) (shards : list (list SelectedSeries)) : result MRangeError MRangeFanoutCommand :=
  match shards with
  | [] => Ok c
  | shard :: shards =>
      let? resp := get_local_response shard req in
      let? c := ingest_response c resp in
      ingest_all c req shards
  end.

Definition fanout_execute (config_enabled : bool) (o : MRangeOptions) (sent_at : Reading) (shards : list (list SelectedSeries))
    : result MRangeError (list MRangeSeriesResult) :=
  let c := fanout_new config_enabled o in
  let? c := ingest_all c (generate_request c sent_at) shards in
  fanout_reply c.

End Fanout.
