(* ===== verification/AnswerLaws.v ===== *)
(** * AnswerLaws: the answer of one series

    What the queries over several series rely on of each series: its answer in
    time order, one item for a timestamp, one value for each aggregator; direction
    and COUNT act on that answer only. *)

From stdpp Require Import list sets.
From S2P Require Import Prelude Float64 Types Content Slice Elf64 Log10Ref ChunkOps TimeSeriesChunk SeriesIterator Rounding TimeSeries SeriesLaws SeriesReads SeriesWrites.
From S2P Require Import TimestampRange TimestampFilter Aggregators AggregateIterator AggregateLaws AggregateColumns AggregateProps RangeQuery RangeLaws RangeProps MRange.

(** ** Rows of a grid *)

Section Grid.

Context (o : AggregationOptions) (align : Timestamp) (fill : EmptyFillBounds) (ss : list Sample).
Hypothesis Hq : query_ok o align fill ss.
Hypothesis Hpos : Forall (fun s => 0 <= timestamp s) ss.
Hypothesis Hfill : forall qs, fill_start fill = Some qs -> 0 <= qs.

Abbreviation d := (bucket_duration o).

(** The first bucket reaches beyond the epoch and the last one is far from the
    end of the 64-bit range. *)
Lemma span_bounds lo hi : row_span o align fill ss = Some (lo, hi) -> 0 < start_of d align (lo + 1) /\ start_of d align (hi + 1) < 2 ^ 62.
Proof.
  destruct Hq as [Hg _ [Hfs Hfe] Ho Hn]. intros Hs.
  assert (Hlow : forall x, 0 <= x -> 0 < start_of d align (bucket_of d align x + 1)) by (intros x Hx; pose proof (start_of_bucket d align Hg x); lia).
  assert (Hhigh : forall x, near x -> start_of d align (bucket_of d align x + 1) < 2 ^ 62) by (intros x Hx; by eapply (start_bounds d align Hg x)).
  unfold row_span in Hs. destruct ss as [|s inner].
  - destruct (report_empty o), (fill_start fill) as [qs|], (fill_end fill) as [qe|]; simplify_eq. auto.
  - apply Forall_cons in Hpos as [Hp _]. apply Forall_cons in Hn as [Hns Hni]. injection Hs as <- <-.
    assert (Hl : start_of d align (last_bucket d align (bucket_of d align (timestamp s)) inner + 1) < 2 ^ 62).
    { unfold last_bucket. destruct (list.last inner) as [x|] eqn:E; [|by apply Hhigh]. apply Hhigh. rewrite Forall_forall in Hni. by apply Hni, last_Some_elem_of. }
    unfold first_row_bucket, last_row_bucket. split.
    + destruct (fill_start fill) as [qs|], (report_empty o); auto. destruct (Z.min_spec (bucket_of d align qs) (bucket_of d align (timestamp s))) as [[_ ->]|[_ ->]]; auto.
    + destruct (fill_end fill) as [qe|], (report_empty o); auto.
      destruct (Z.max_spec (bucket_of d align qe) (last_bucket d align (bucket_of d align (timestamp s)) inner)) as [[_ ->]|[_ ->]]; auto.
Qed.

Lemma render_lt lo hi j k : row_span o align fill ss = Some (lo, hi) -> lo <= j -> j < k -> k <= hi ->
  render d align (timestamp_output o) j < render d align (timestamp_output o) k.
Proof.
  intros Hs Hj Hjk Hk. destruct (span_bounds lo hi Hs) as [Hlo Hhi]. destruct Hq as [[Hd Ha] _ _ _ _]. unfold TIME_BOUND in *.
  assert (start_of d align (k + 1) <= start_of d align (hi + 1)) by (unfold start_of; nia).
  assert (start_of d align (lo + 1) <= start_of d align k) by (unfold start_of; nia).
  assert (start_of d align j + d <= start_of d align k) by (unfold start_of; nia).
  assert (start_of d align k < 2 ^ 62) by (unfold start_of in *; nia).
  assert (0 <= d / 2 <= d) by (split; [apply Z.div_pos; lia|apply Z.div_le_upper_bound; lia]).
  unfold render, bt_calculate. destruct (timestamp_output o); unfold sat_add_unsigned, sat_i64, i64_MIN, i64_MAX; lia.
Qed.

Lemma query_rows_increasing : key_increasing ms_timestamp (query_rows o align fill ss).
Proof.
  unfold query_rows. destruct (row_span o align fill ss) as [[lo hi]|] eqn:Hs; [|constructor]. unfold rows_between, key_increasing.
  assert (Hsub : forall n j, lo <= j -> j + Z.of_nat n <= hi + 1 ->
    StronglySorted (fun a b => ms_timestamp a < ms_timestamp b)
      (omap (bucket_row d align (timestamp_output o) (report_empty o) (query_aggregators o) ss) (seqZ j (Z.of_nat n))) /\
    Forall (fun r => exists k, j <= k <= hi /\ ms_timestamp r = render d align (timestamp_output o) k)
      (omap (bucket_row d align (timestamp_output o) (report_empty o) (query_aggregators o) ss) (seqZ j (Z.of_nat n)))).
  { induction n as [|n IH]; intros j Hj Hn; [split; constructor|]. rewrite seqZ_cons by lia. replace (Z.pred (Z.of_nat (S n))) with (Z.of_nat n) by lia.
    destruct (IH (Z.succ j)) as [IHs IHf]; [lia..|].
    assert (Hweak : Forall (fun r => exists k, j <= k <= hi /\ ms_timestamp r = render d align (timestamp_output o) k)
      (omap (bucket_row d align (timestamp_output o) (report_empty o) (query_aggregators o) ss) (seqZ (Z.succ j) (Z.of_nat n)))).
    { eapply Forall_impl; [exact IHf|]. intros r (k & Hk & E). exists k. split; [lia|done]. }
    cbn [omap list_omap]. destruct (bucket_row _ _ _ _ _ ss j) as [r|] eqn:E; [|done].
    assert (ms_timestamp r = render d align (timestamp_output o) j) as Er by (unfold bucket_row in E; case_match; by simplify_eq).
    split; [constructor; [done|]|constructor; [exists j; split; [lia|done]|done]].
    eapply Forall_impl; [exact IHf|]. intros r' (k & Hk & E'). rewrite Er, E'. by apply (render_lt lo hi); [done|lia..]. }
  destruct (Z.le_gt_cases (hi - lo + 1) 0) as [Hz|Hz]; [rewrite seqZ_nil by lia; constructor|].
  rewrite <- (Z2Nat.id (hi - lo + 1)) by lia. apply Hsub; lia.
Qed.

Lemma query_rows_width : Forall (fun r => length (ms_values r) = length (aggregations o)) (query_rows o align fill ss).
Proof.
  unfold query_rows. destruct (row_span o align fill ss) as [[lo hi]|]; [|constructor]. unfold rows_between.
  induction (seqZ lo (hi - lo + 1)) as [|k ks IH]; [constructor|]. cbn [omap list_omap]. destruct (bucket_row _ _ _ _ _ ss k) as [r|] eqn:E; [|done].
  constructor; [|done]. unfold bucket_row in E. case_match; simplify_eq. cbn [ms_values]. unfold row_values.
  destruct (accepted _ _); rewrite length_map; [rewrite (proj1 (bucket_state_lengths _ _))|]; unfold query_aggregators, create_aggregators; by rewrite !length_map.
Qed.

End Grid.

(** ** The carry *)

Lemma carry_values_length values : forall carry prev, length (carry_values carry prev values).2 = length values.
Proof.
  induction values as [|v values IH]; intros [|c carry] [|p prev]; try done. cbn [carry_values]. specialize (IH carry prev).
  destruct (carry_values carry prev values) as [prev' values']. destruct c; cbn [negb]; [destruct (f64_is_nan v)|]; cbn in *; by rewrite IH.
Qed.

Lemma carried_timestamps mask seed (items : list Sample) : map timestamp (carried mask seed items) = map timestamp items.
Proof.
  unfold carried, carry_last_empty. destruct mask as [mask|]; [|done]. generalize (replicate (length mask) seed). induction items as [|x items IH]; intros prev; [done|].
  cbn [carry_items bv_values Sample_bucket_values]. pose proof (carry_values_length [value x] mask prev) as Hl.
  destruct (carry_values mask prev [value x]) as [prev' [|v vs]]; [done|]. cbn [map bv_with timestamp]. by rewrite IH.
Qed.

Lemma carried_rows mask seed (rows : list MultiSample) : map ms_timestamp (carried mask seed rows) = map ms_timestamp rows /\
  map (fun r => length (ms_values r)) (carried mask seed rows) = map (fun r => length (ms_values r)) rows.
Proof.
  unfold carried, carry_last_empty. destruct mask as [mask|]; [|done]. generalize (replicate (length mask) seed). induction rows as [|x rows IH]; intros prev; [done|].
  cbn [carry_items bv_values MultiSample_bucket_values]. pose proof (carry_values_length (ms_values x) mask prev) as Hl.
  destruct (carry_values mask prev (ms_values x)) as [prev' vs]. destruct (IH prev') as [E1 E2]. cbn [map bv_with]. rewrite E1, E2.
  split; [done|]. f_equal. exact Hl.
Qed.

Lemma increasing_map {A} (key : A -> Z) l : key_increasing key l <-> StronglySorted Z.lt (map key l).
Proof.
  unfold key_increasing. induction l as [|x l IH]; cbn; [split; constructor|]. split; inversion 1; subst; constructor.
  - by apply IH.
  - by apply Forall_map.
  - by apply IH.
  - rewrite Forall_map in *. done.
Qed.

(** ** Queries *)

Section Answers.

Context `{Log10} `{ServerConfig}.

(** A series with a query over it: the series represents a list, the window is
    the same at every reading of the clock, an open bucket is newer than every
    sample, and an aggregation has fuel for its rows. *)
Record answerable (fuel : nat) (t : TimeSeries) (o : RangeOptions) (latest : option Sample) (clock : Readings)
    (P : TimeSeriesChunk -> Prop) (l : list Sample) (w : Timestamp * Timestamp) : Prop := {
  an_stores : stores P t l;
  an_steady : steady o clock w;
  an_clipped : clipped o w;
  an_latest : forall x, latest = Some x -> 0 <= timestamp x /\ Forall (fun s => timestamp s < timestamp x) (visible t l);
  an_rows : forall agg, ro_aggregation o = Some agg -> range_ok agg w latest (visible t l) /\
    (length (query_rows agg (query_align agg w) (fill_extent o agg w (visible t l)) (query_samples o w latest (visible t l))) < fuel)%nat;
}.

Context (fuel : nat) (t : TimeSeries) (o : RangeOptions) (latest : option Sample) (clock : Readings).
Context (P : TimeSeriesChunk -> Prop) (l : list Sample) (w : Timestamp * Timestamp).
Hypothesis Ha : answerable fuel t o latest clock P l w.

(** The answer in time order, without COUNT. *)
Definition answer : list Sample := create_range_iterator fuel t (without_count o) None latest false clock.
Definition answer_rows (agg : AggregationOptions) : list MultiSample := create_row_iterator fuel t (without_count o) agg latest false clock.

Lemma answer_directed rev : create_range_iterator fuel t o None latest rev clock = apply_iter_limit (directed rev answer) (ro_count o).
Proof.
  destruct Ha as [(ls & Hr & _) (_ & Hrd & _) Hc _ _]. rewrite <- Hrd in Hc. unfold answer.
  rewrite (range_iterator_spec fuel t ls o latest rev clock Hr Hc). by rewrite (range_iterator_spec fuel t ls (without_count o) latest false clock Hr Hc).
Qed.

Lemma answer_rows_directed agg rev :
  create_row_iterator fuel t o agg latest rev clock = apply_iter_limit (directed rev (answer_rows agg)) (ro_count o).
Proof.
  destruct Ha as [(ls & Hr & _) (_ & Hrd & _) Hc _ _]. rewrite <- Hrd in Hc. unfold answer_rows.
  rewrite (row_iterator_spec fuel t ls o agg latest rev clock Hr Hc). by rewrite (row_iterator_spec fuel t ls (without_count o) agg latest false clock Hr Hc).
Qed.

Lemma query_samples_increasing : key_increasing timestamp (query_samples o w latest (visible t l)).
Proof.
  destruct Ha as [(ls & Hr & <-) _ _ Hl _]. destruct (visible_sorted t ls Hr) as [Hs _]. unfold query_samples. apply key_increasing_app. split_and!.
  - by apply ts_sorted_filter, ts_sorted_filter.
  - destruct latest as [x|]; cbn; [destruct (value_passes o x)|]; repeat constructor.
  - apply Forall_list_filter, Forall_list_filter, Forall_forall. intros s Hs'. apply Forall_list_filter, Forall_forall. intros x Hx.
    destruct latest as [y|]; [|by apply elem_of_nil in Hx]. apply list_elem_of_singleton in Hx as ->. destruct (Hl y eq_refl) as [_ Hlt]. rewrite Forall_forall in Hlt. by apply Hlt.
Qed.

Lemma query_samples_nonneg : Forall (fun s => 0 <= timestamp s) (query_samples o w latest (visible t l)).
Proof.
  destruct Ha as [(ls & Hr & <-) _ _ Hl _]. destruct (visible_sorted t ls Hr) as [_ Hv]. apply Forall_app. split.
  - apply Forall_list_filter, Forall_list_filter. eapply Forall_impl; [exact Hv|]. by intros s [_ ?].
  - apply Forall_list_filter. destruct latest as [x|]; [|constructor]. repeat constructor. by apply Hl.
Qed.

Lemma fill_nonneg agg qs : fill_start (fill_extent o agg w (visible t l)) = Some qs -> 0 <= qs.
Proof.
  destruct Ha as [(ls & Hr & <-) _ _ _ _]. destruct (visible_sorted t ls Hr) as [_ Hv]. unfold fill_extent. destruct (report_empty agg); [|done]. cbn [negb].
  destruct w as [s e]. cbn [fill_start]. destruct (data_before o s _) eqn:E; [|by rewrite andb_false_r].
  case_match; [|done]. intros [= <-]. unfold data_before in E. apply existsb_exists in E as (x & Hx & _). apply filter_In in Hx as [Hx Hlt].
  rewrite Forall_forall in Hv. destruct (Hv x) as [_ Hp]; [by apply list_elem_of_In|]. lia.
Qed.

Lemma answer_rows_spec agg : ro_aggregation o = Some agg ->
  let fill := fill_extent o agg w (visible t l) in
  answer_rows agg = carried (last_carry_mask agg) (carry_seed fill) (query_rows agg (query_align agg w) fill (query_samples o w latest (visible t l))).
Proof.
  intros Hagg fill. destruct Ha as [(ls & Hr & <-) (Hf & Hrd & Hal) Hc _ Hrows]. destruct (Hrows agg Hagg) as [Hok Hlen]. unfold answer_rows.
  pose proof Hc as Hc'. rewrite <- Hrd in Hc'. rewrite (row_iterator_spec fuel t ls (without_count o) agg latest false clock Hr Hc').
  pose proof Hok as [_ _ [H1 H2] Hn _].
  rewrite (empty_fill_spec t ls (without_count o) agg _ Hr Hagg) by (change (get_timestamp_range (without_count o)) with (get_timestamp_range o); rewrite ?Hf; auto using near_i64, near_below).
  change (get_timestamp_range (without_count o)) with (get_timestamp_range o). rewrite Hf, Hrd, Hal. cbn [apply_iter_limit directed ro_count without_count].
  fold (query_align agg w). change (fill_extent (without_count o)) with (fill_extent o). fold fill. change (query_samples (without_count o)) with (query_samples o).
  rewrite collect_query; [done| |done]. apply range_query_ok; [by apply (visible_sorted t ls Hr)|done].
Qed.

Lemma answer_spec : answer =
  match ro_aggregation o with
  | Some agg => let fill := fill_extent o agg w (visible t l) in
                carried (last_carry_mask agg) (carry_seed fill)
                  (map single_value (query_rows agg (query_align agg w) fill (query_samples o w latest (visible t l))))
  | None => query_samples o w latest (visible t l)
  end.
Proof.
  destruct Ha as [(ls & Hr & <-) Hst Hc _ Hrows]. unfold answer. destruct (ro_aggregation o) as [agg|] eqn:Hagg.
  - destruct (Hrows agg eq_refl) as [Hok Hlen]. by rewrite (aggregated_spec fuel t ls (without_count o) agg latest false clock w Hr Hagg Hst Hc Hok Hlen).
  - destruct Hst as (_ & Hrd & _). rewrite <- Hrd in Hc. rewrite (range_iterator_spec fuel t ls (without_count o) latest false clock Hr Hc). unfold query_items, without_count. cbn [ro_aggregation ro_count directed apply_iter_limit].
    rewrite Hagg. change (get_timestamp_range (mkRangeOptions _ _ _ _ _ _)) with (get_timestamp_range o). by rewrite Hrd.
Qed.

Lemma aggregated_rows_increasing agg : ro_aggregation o = Some agg ->
  key_increasing ms_timestamp (query_rows agg (query_align agg w) (fill_extent o agg w (visible t l)) (query_samples o w latest (visible t l))).
Proof.
  intros Hagg. apply query_rows_increasing; [|apply query_samples_nonneg|apply fill_nonneg]. destruct Ha as [(ls & Hr & <-) _ _ _ Hrows].
  apply range_query_ok; [by apply (visible_sorted t ls Hr)|]. by apply Hrows.
Qed.

Lemma answer_increasing : key_increasing timestamp answer.
Proof.
  rewrite answer_spec. destruct (ro_aggregation o) as [agg|] eqn:Hagg; [|apply query_samples_increasing].
  cbn zeta. apply increasing_map. rewrite carried_timestamps, map_map. by apply (proj1 (increasing_map ms_timestamp _)), aggregated_rows_increasing.
Qed.

Lemma answer_rows_increasing agg : ro_aggregation o = Some agg -> key_increasing ms_timestamp (answer_rows agg).
Proof.
  intros Hagg. rewrite answer_rows_spec by done. cbn zeta. apply increasing_map. rewrite (proj1 (carried_rows _ _ _)). by apply (proj1 (increasing_map ms_timestamp _)), aggregated_rows_increasing.
Qed.

Lemma answer_rows_width agg : ro_aggregation o = Some agg -> Forall (fun r => length (ms_values r) = length (aggregations agg)) (answer_rows agg).
Proof.
  intros Hagg. rewrite answer_rows_spec by done. cbn zeta.
  pose proof (query_rows_width agg (query_align agg w) (fill_extent o agg w (visible t l)) (query_samples o w latest (visible t l))) as Hw.
  set (rows := query_rows _ _ _ _) in *. pose proof (proj2 (carried_rows (last_carry_mask agg) (carry_seed (fill_extent o agg w (visible t l))) rows)) as E.
  assert (Hm : forall k, Forall (fun r => length (ms_values r) = length (aggregations agg)) k <-> Forall (fun n => n = length (aggregations agg)) (map (fun r => length (ms_values r)) k))
    by (intros k; by rewrite Forall_map).
  rewrite Hm, E. by apply Hm.
Qed.

End Answers.
