(* ===== verification/MRangeLaws.v ===== *)
(** * MRangeLaws: queries over several series on one node

    Groups are the series that share a label value, in order; the value of a group
    at a timestamp is its reducer over the answers of its series; NRANGE is the
    outer join of the answers. *)

From stdpp Require Import strings list sets.
From S2P Require Import Prelude Float64 Types Content Slice Elf64 Log10Ref ChunkOps TimeSeriesChunk SeriesIterator Rounding TimeSeries SeriesLaws SeriesReads SeriesWrites.
From S2P Require Import TimestampRange TimestampFilter Aggregators AggregateIterator AggregateLaws AggregateColumns AggregateProps RangeQuery RangeLaws RangeProps.
From S2P Require Import MultiSeries MultiLaws PivotLaws PartialReducer MRange AnswerLaws.

(** ** Sorting *)

Section Sort.

Context {A : Type} (leb : A -> A -> bool).

Lemma insert_sorted_perm x l : insert_sorted leb x l ≡ₚ x :: l.
Proof. induction l as [|y l IH]; [done|]. cbn. destruct (leb x y); [done|]. rewrite IH. apply Permutation_swap. Qed.

Lemma sort_with_perm l : sort_with leb l ≡ₚ l.
Proof. induction l as [|x l IH]; [done|]. cbn [sort_with foldr]. rewrite insert_sorted_perm. by constructor. Qed.

Hypothesis leb_total : forall x y, leb x y = false -> leb y x = true.
Hypothesis leb_trans : forall x y z, leb x y = true -> leb y z = true -> leb x z = true.

Lemma insert_sorted_sorted x l : StronglySorted (fun a b => leb a b = true) l -> StronglySorted (fun a b => leb a b = true) (insert_sorted leb x l).
Proof.
  induction 1 as [|y l Hs IH Hy]; cbn [insert_sorted]; [by repeat constructor|]. destruct (leb x y) eqn:E.
  - constructor; [by constructor|]. constructor; [done|]. eapply Forall_impl; [exact Hy|]. intros z. by apply leb_trans.
  - constructor; [done|]. rewrite insert_sorted_perm. constructor; [by apply leb_total|done].
Qed.

Lemma sort_with_sorted l : StronglySorted (fun a b => leb a b = true) (sort_with leb l).
Proof. induction l as [|x l IH]; [constructor|]. by apply insert_sorted_sorted. Qed.

Lemma sort_with_id l : StronglySorted (fun a b => leb a b = true) l -> sort_with leb l = l.
Proof.
  induction 1 as [|x l Hs IH Hx]; [done|]. cbn [sort_with foldr]. unfold sort_with in IH. rewrite IH. destruct l as [|y l]; [done|]. cbn. by apply Forall_cons in Hx as [-> _].
Qed.

End Sort.

Lemma sort_with_map {A B} (f : A -> B) (leb : B -> B -> bool) (leb' : A -> A -> bool) l :
  (forall x y, leb (f x) (f y) = leb' x y) -> sort_with leb (map f l) = map f (sort_with leb' l).
Proof.
  intros Hf. induction l as [|x l IH]; [done|]. cbn [sort_with foldr map]. unfold sort_with in IH. rewrite IH. generalize (foldr (insert_sorted leb') [] l).
  intros k. induction k as [|y k IHk]; [done|]. cbn. rewrite Hf. destruct (leb' x y); [done|]. cbn. by rewrite IHk.
Qed.

Lemma string_leb_total (a b : string) : String.leb a b = false -> String.leb b a = true.
Proof. intros E. destruct (String.leb_total a b); congruence. Qed.

Lemma string_leb_trans (a b c : string) : String.leb a b = true -> String.leb b c = true -> String.leb a c = true.
Proof. intros H1 H2. assert (String.le a c) as H3 by (etrans; by apply Is_true_true_2). by apply Is_true_true. Qed.

Definition string_lt (a b : string) : Prop := String.leb a b = true /\ a <> b.

Lemma sort_labels_lt (l : list string) : NoDup l -> StronglySorted string_lt (sort_with String.leb l).
Proof.
  intros Hn. rewrite <- (sort_with_perm String.leb l) in Hn. pose proof (sort_with_sorted String.leb string_leb_total string_leb_trans l) as Hs.
  induction Hs as [|x k Hs IH Hx]; [constructor|]. apply NoDup_cons in Hn as [Hin Hn]. constructor; [by apply IH|].
  apply Forall_forall. intros y Hy. rewrite Forall_forall in Hx. split; [by apply Hx|]. by intros ->.
Qed.

(** ** Groups *)

Section Group.

Context {A : Type} (label_of : A -> option string).

Definition with_label (xs : list A) (label : string) : list A := List.filter (fun x => bool_decide (label_of x = Some label)) xs.

Lemma group_add_fst label (x : A) groups : map fst (group_add label x groups) = if bool_decide (label ∈ map fst groups) then map fst groups else map fst groups ++ [label].
Proof.
  induction groups as [|[l xs] groups IH]; [done|]. cbn [group_add]. destruct (decide (l = label)) as [->|Hne].
  - rewrite bool_decide_true by done. cbn [map fst]. by rewrite bool_decide_true by (by left).
  - rewrite bool_decide_false by done. cbn [map fst]. rewrite IH.
    rewrite (bool_decide_ext (label ∈ l :: map fst groups) (label ∈ map fst groups)); [by case_bool_decide|].
    rewrite elem_of_cons. split; [by intros [->|?]|by right].
Qed.

Definition grouped_from (xs : list A) (groups : list (string * list A)) : Prop :=
  NoDup (map fst groups) /\ Forall (fun g => g.2 = with_label xs g.1) groups /\ (forall l, l ∈ map fst groups <-> exists x, x ∈ xs /\ label_of x = Some l).

Lemma with_label_snoc xs x l : with_label (xs ++ [x]) l = with_label xs l ++ (if bool_decide (label_of x = Some l) then [x] else []).
Proof. unfold with_label. by rewrite List.filter_app. Qed.

Lemma with_label_none xs l : (forall x, x ∈ xs -> label_of x <> Some l) -> with_label xs l = [].
Proof. intros Hn. apply filter_none, Forall_forall. intros x Hx. apply bool_decide_eq_false. by apply Hn. Qed.

Lemma group_add_members label x xs groups : label_of x = Some label -> NoDup (map fst groups) -> Forall (fun g => g.2 = with_label xs g.1) groups ->
  (label ∉ map fst groups -> with_label xs label = []) ->
  Forall (fun g => g.2 = with_label (xs ++ [x]) g.1) (group_add label x groups).
Proof.
  intros Hx Hnd Hf Hnew. induction Hf as [|[l ys] groups Hg Hf IH]; cbn [group_add].
  - repeat constructor. cbn. rewrite with_label_snoc, Hnew by apply not_elem_of_nil. by rewrite bool_decide_true.
  - cbn [map fst snd] in *. apply NoDup_cons in Hnd as [Hl Hnd]. destruct (decide (l = label)) as [->|Hne].
    + rewrite bool_decide_true by done. constructor; [cbn; by rewrite with_label_snoc, bool_decide_true, Hg|].
      apply Forall_forall. intros g Hin. rewrite Forall_forall in Hf. rewrite with_label_snoc, bool_decide_false; [by rewrite app_nil_r; apply Hf|].
      rewrite Hx. intros [= E]. apply Hl. rewrite E. by apply list_elem_of_fmap_2.
    + rewrite bool_decide_false by done. constructor.
      * cbn. rewrite with_label_snoc, bool_decide_false by (rewrite Hx; congruence). by rewrite app_nil_r.
      * apply IH; [done|]. intros Hn. apply Hnew. intros [->|?]%elem_of_cons; done.
Qed.

Lemma group_by_label_spec xs : grouped_from xs (group_by_label label_of xs).
Proof.
  unfold group_by_label. induction xs as [|x xs IH] using rev_ind.
  { split_and!; [constructor|constructor|]. intros l. cbn. split; [by intros ?%elem_of_nil|]. by intros (y & ?%elem_of_nil & _). }
  rewrite fold_left_app. cbn [fold_left]. destruct IH as (Hnd & Hf & He). set (groups := fold_left _ xs []) in *.
  destruct (label_of x) as [label|] eqn:Hx.
  - assert (Hfst := group_add_fst label x groups). split_and!.
    + rewrite Hfst. case_bool_decide; [done|]. apply NoDup_app. split_and!; [done| |apply NoDup_singleton]. intros y Hy ->%list_elem_of_singleton. done.
    + apply group_add_members; [done..|]. intros Hn. apply with_label_none. intros y Hy E. apply Hn, He. eauto.
    + intros l. rewrite Hfst. setoid_rewrite elem_of_app. setoid_rewrite list_elem_of_singleton. case_bool_decide as Hin.
      * rewrite He. split; [by intros (y & ? & ?); eauto|]. intros (y & [Hy| ->] & E); [eauto|]. rewrite Hx in E. injection E as <-. by apply He.
      * rewrite elem_of_app, list_elem_of_singleton, He. split; [intros [(y & ? & ?)| ->]; eauto|]. intros (y & [Hy| ->] & E); [left; eauto|]. right. congruence.
  - split_and!; [done| |].
    + eapply Forall_impl; [exact Hf|]. intros g Hg. rewrite with_label_snoc, bool_decide_false by congruence. by rewrite app_nil_r.
    + intros l. rewrite He. setoid_rewrite elem_of_app. setoid_rewrite list_elem_of_singleton. split; [by intros (y & ? & ?); eauto|].
      intros (y & [Hy| ->] & E); [eauto|congruence].
Qed.

(** The labels in order. *)
Definition labels_of (xs : list A) : list string := map fst (group_by_label label_of xs).

Lemma group_by_label_eq xs : group_by_label label_of xs = map (fun l => (l, with_label xs l)) (labels_of xs).
Proof.
  destruct (group_by_label_spec xs) as (_ & Hf & _). unfold labels_of. rewrite map_map. induction Hf as [|[l ys] groups Hg _ IH]; [done|].
  cbn [map fst]. cbn in Hg. by rewrite <- Hg, <- IH.
Qed.

Definition sorted_labels (xs : list A) : list string := sort_with String.leb (labels_of xs).

Lemma sorted_labels_spec xs : StronglySorted string_lt (sorted_labels xs) /\ forall l, l ∈ sorted_labels xs <-> exists x, x ∈ xs /\ label_of x = Some l.
Proof.
  destruct (group_by_label_spec xs) as (Hnd & _ & He). split; [by apply sort_labels_lt|]. intros l. unfold sorted_labels. by rewrite (sort_with_perm String.leb), He.
Qed.

End Group.

(** ** COUNT and direction *)

Lemma collect_items_spec {A} (l : list A) rev count : collect_items l rev count = apply_iter_limit (directed rev l) count.
Proof.
  unfold collect_items. destruct rev; cbn [negb directed]; [|done]. destruct count as [n|]; [|done].
  pose proof (reverse_limited_spec l (Some n)) as E. unfold apply_iter_limit, reverse_limited, reverse_iter in E. cbn [apply_iter_limit].
  rewrite <- E. symmetry. apply take_ge. rewrite length_reverse, tail_iter_spec, length_drop. lia.
Qed.

Lemma collect_pivot_spec (l : list MultiSample) rev count : collect_pivot_rows l rev count = apply_iter_limit (directed rev l) count.
Proof. unfold collect_pivot_rows. by destruct rev, count. Qed.

(** ** Reduced streams *)

Lemma reducer_reset c : agg_reset (create_aggregator c) = create_aggregator c.
Proof. destruct c as [[] [f|]]; done. Qed.

(** The value of the reducer at each timestamp of the streams. *)
Definition grouped_samples (a : Aggregator) (ls : list (list Sample)) : list Sample :=
  map (fun t => mkSample t (group_value a (at_ts t (concat ls)))) (times ls).

Definition grouped_rows (a : Aggregator) (n : nat) (ls : list (list MultiSample)) : list MultiSample :=
  map (fun t => group_row a n (t, at_ts t (concat ls))) (times ls).

Lemma increasing_sorted {R} `{Timed R} (l : list R) : key_increasing row_timestamp l -> rows_sorted l.
Proof. intros Hl. eapply StronglySorted_weaken; [|exact Hl]. cbn. intros; lia. Qed.

Section Node.

Context `{Log10} `{ServerConfig}.
Context `{MinMaxHeap (Entry Sample)} `{!MinMaxHeapLaws (Entry Sample) entry_cmp} `{MinMaxHeap (Entry MultiSample)} `{!MinMaxHeapLaws (Entry MultiSample) entry_cmp}.

Lemma grouped_samples_spec c ls : Forall (key_increasing timestamp) ls ->
  sample_reducer (multi_series_iter ls) (create_aggregator c) = grouped_samples (create_aggregator c) ls.
Proof.
  intros Hl. rewrite sample_reducer_spec by apply reducer_reset. rewrite merged_runs; [|eapply Forall_impl; [exact Hl|]; intros l; apply increasing_sorted].
  unfold reduce_runs, grouped_samples. by rewrite map_map.
Qed.

Lemma grouped_rows_spec c n ls : Forall (key_increasing ms_timestamp) ls -> Forall (Forall (fun r => length (ms_values r) = n)) ls ->
  row_reducer (multi_series_iter ls) (create_aggregator c) n = grouped_rows (create_aggregator c) n ls.
Proof.
  intros Hl Hw. assert (Forall rows_sorted ls) as Hs by (eapply Forall_impl; [exact Hl|]; intros l; apply increasing_sorted).
  rewrite row_reducer_spec; [|apply reducer_reset|].
  - rewrite merged_runs by done. unfold grouped_rows. by rewrite map_map.
  - rewrite multi_series_iter_spec by done. rewrite sort_by_key_perm. by apply Forall_concat.
Qed.

(** ** The answers of the selected series *)

Variable fuel : nat.

Definition series_answer (o : RangeOptions) (s : SelectedSeries) : list Sample := answer fuel (se_series s) o (get_latest o s) (se_clock s).
Definition series_answer_rows (o : RangeOptions) (a : AggregationOptions) (s : SelectedSeries) : list MultiSample :=
  answer_rows fuel (se_series s) o (get_latest o s) (se_clock s) a.

Definition series_answerable (o : RangeOptions) (s : SelectedSeries) : Prop :=
  exists P l w, answerable fuel (se_series s) o (get_latest o s) (se_clock s) P l w.

Lemma series_answer_increasing o s : series_answerable o s -> key_increasing timestamp (series_answer o s).
Proof. intros (P & l & w & Ha). by eapply answer_increasing. Qed.

Lemma series_rows_increasing o a s : ro_aggregation o = Some a -> series_answerable o s -> key_increasing ms_timestamp (series_answer_rows o a s).
Proof. intros Hagg (P & l & w & Ha). by eapply answer_rows_increasing. Qed.

Lemma series_rows_width o a s : ro_aggregation o = Some a -> series_answerable o s ->
  Forall (fun r => length (ms_values r) = length (aggregations a)) (series_answer_rows o a s).
Proof. intros Hagg (P & l & w & Ha). by eapply answer_rows_width. Qed.

Lemma multi_aggregation_some o a : multi_aggregation o = Some a -> ro_aggregation (mo_range o) = Some a /\ is_multi a = true.
Proof. unfold multi_aggregation. destruct (ro_aggregation (mo_range o)) as [b|]; [|done]. destruct (is_multi b) eqn:E; [|done]. by intros [= ->]. Qed.

(** What the group of [members] reports. *)
Definition group_data (o : MRangeOptions) (g : RangeGroupingOptions) (members : list SelectedSeries) : SeriesResultData :=
  let reducer := create_aggregator (grp_aggregation g) in
  match multi_aggregation o with
  | Some a => DataRows (apply_iter_limit (directed (mo_is_reverse o) (grouped_rows reducer (length (aggregations a)) (map (series_answer_rows (mo_range o) a) members))) (ro_count (mo_range o)))
  | None => DataChunk (apply_iter_limit (directed (mo_is_reverse o) (grouped_samples reducer (map (series_answer (mo_range o)) members))) (ro_count (mo_range o)))
  end.

Definition group_result (o : MRangeOptions) (g : RangeGroupingOptions) (members : list SelectedSeries) (label : string) : MRangeSeriesResult :=
  let keys := sort_with String.leb (map se_key members) in
  mkMRangeSeriesResult (group_key g label) (Some label)
    (if with_labels o then build_mrange_grouped_labels (group_label g) label (aggregation_name (aggregation (grp_aggregation g))) keys else [])
    keys (group_data o g members).

(** The label that groups a series. *)
Definition grouping_label (g : RangeGroupingOptions) (s : SelectedSeries) : option string := label_value (se_labels s) (group_label g).

Lemma group_by_label_map {A B} (f : A -> B) (label_of : B -> option string) xs :
  group_by_label label_of (map f xs) = map (fun p => (p.1, map f p.2)) (group_by_label (fun x => label_of (f x)) xs).
Proof.
  unfold group_by_label. change (@nil (string * list B)) with (map (fun p : string * list A => (p.1, map f p.2)) []). generalize (@nil (string * list A)).
  induction xs as [|x xs IH]; intros groups; [done|]. cbn [map fold_left]. rewrite <- IH. f_equal. destruct (label_of (f x)) as [l|]; [|done].
  clear IH. induction groups as [|[k ys] groups IH]; [done|]. cbn [group_add map fst snd]. case_bool_decide; cbn [map fst snd]; [by rewrite map_app|]. by rewrite IH.
Qed.

Definition grouped_meta (o : RangeOptions) (g : RangeGroupingOptions) (s : SelectedSeries) : MRangeSeriesMeta :=
  mkMRangeSeriesMeta (se_series s) (se_labels s) (se_key s) (get_latest o s) (grouping_label g s) (se_clock s).

Lemma collect_meta o g selected : collect_group_label_values (map (series_meta o) selected) g = map (grouped_meta o g) selected.
Proof. unfold collect_group_label_values. by rewrite map_map. Qed.

Lemma group_series_spec o g selected b :
  group_series_by_label (map (grouped_meta o g) selected) g b =
  map (fun l => let members := with_label (grouping_label g) selected l in
                let keys := sort_with String.leb (map se_key members) in
                (l, mkGroupedSeriesData (map (grouped_meta o g) members)
                      (if b then build_mrange_grouped_labels (group_label g) l (aggregation_name (aggregation (grp_aggregation g))) keys else []) keys))
    (labels_of (grouping_label g) selected).
Proof.
  unfold group_series_by_label. rewrite group_by_label_map.
  change (fun x => group_label_value (grouped_meta o g x)) with (grouping_label g). rewrite (group_by_label_eq (grouping_label g) selected), !map_map. apply map_ext. intros l. cbn. by rewrite !map_map.
Qed.

Lemma handle_grouping_spec selected o g : Forall (series_answerable (mo_range o)) selected ->
  handle_grouping fuel (map (grouped_meta (mo_range o) g) selected) o g =
  map (fun l => group_result o g (with_label (grouping_label g) selected l) l) (labels_of (grouping_label g) selected).
Proof.
  intros Ha. unfold handle_grouping. rewrite group_series_spec, map_map. apply map_ext. intros l. cbn [fst snd gd_series gd_labels source_keys]. unfold group_result. f_equal.
  set (members := with_label (grouping_label g) selected l).
  assert (Hm : Forall (series_answerable (mo_range o)) members) by (by apply Forall_list_filter).
  unfold group_data. change (multi_aggregation (with_range o (without_count (mo_range o)))) with (multi_aggregation o).
  destruct (multi_aggregation o) as [a|] eqn:Em; f_equal; unfold get_grouped_rows, get_grouped_samples; rewrite map_map, collect_items_spec; do 2 f_equal.
  - apply multi_aggregation_some in Em as [Hagg _]. apply (grouped_rows_spec (grp_aggregation g)); apply Forall_map; (eapply Forall_impl; [exact Hm|]); intros s Hs.
    + by apply series_rows_increasing.
    + by apply series_rows_width.
  - apply (grouped_samples_spec (grp_aggregation g)). apply Forall_map. eapply Forall_impl; [exact Hm|]. intros s Hs. by apply series_answer_increasing.
Qed.

Lemma grouped_query_spec selected o g : mo_grouping o = Some g -> exclude_empty o = false -> Forall (series_answerable (mo_range o)) selected ->
  process_mrange_query fuel selected o false None =
  map (fun l => group_result o g (with_label (grouping_label g) selected l) l) (sorted_labels (grouping_label g) selected).
Proof.
  intros Hg He Ha. unfold process_mrange_query, process_mrange. rewrite Hg, collect_meta. cbn [bool_decide]. rewrite He. unfold retain_nonempty, sort_mrange_results.
  rewrite handle_grouping_spec by done. apply sort_with_map. done.
Qed.

(** Without GROUPBY. *)
Definition series_data (o : MRangeOptions) (s : SelectedSeries) : SeriesResultData :=
  match multi_aggregation o with
  | Some a => DataRows (apply_iter_limit (directed (mo_is_reverse o) (series_answer_rows (mo_range o) a s)) (ro_count (mo_range o)))
  | None => DataChunk (apply_iter_limit (directed (mo_is_reverse o) (series_answer (mo_range o) s)) (ro_count (mo_range o)))
  end.

Definition series_result (o : MRangeOptions) (s : SelectedSeries) : MRangeSeriesResult :=
  mkMRangeSeriesResult (se_key s) None (convert_labels (se_labels s) (with_labels o) (selected_labels o)) [] (series_data o s).

Lemma ungrouped_query_spec selected o : mo_grouping o = None -> Forall (series_answerable (mo_range o)) selected ->
  process_mrange_query fuel selected o false None =
  sort_mrange_results (retain_nonempty (exclude_empty o) (map (series_result o) selected)) false.
Proof.
  intros Hg Ha. unfold process_mrange_query, process_mrange. rewrite Hg. cbn [is_Some]. rewrite bool_decide_false by (by intros [? ?]). do 2 f_equal.
  unfold handle_non_grouped. rewrite map_map. induction Ha as [|s selected (P & l & w & Hs) Ha IH]; [done|]. cbn [map]. f_equal; [|exact IH].
  unfold series_result, series_data. cbn [mm_series series_labels source_key mm_latest group_label_value mm_clock series_meta]. f_equal.
  destruct (multi_aggregation o) as [a|]; cbn [apply_limit]; f_equal.
  - exact (answer_rows_directed fuel _ _ _ _ P l w Hs a _).
  - rewrite Hg. exact (answer_directed fuel _ _ _ _ P l w Hs _).
Qed.

(** ** NRANGE *)

(** The columns of the key at [index]. *)
Definition key_stream (o : NRangeOptions) (index : nat) (s : SelectedSeries) : list MultiSample :=
  let range := per_key_range_options o index in
  match aggregation_for o index with
  | Some a => series_answer_rows range a s
  | None => map (fun x => mkMultiSample (timestamp x) [value x]) (series_answer range s)
  end.

Lemma key_stream_increasing o index s : series_answerable (per_key_range_options o index) s -> key_increasing ms_timestamp (key_stream o index s).
Proof.
  intros Hs. unfold key_stream. destruct (aggregation_for o index) as [a|] eqn:Ea; [by apply series_rows_increasing|].
  apply increasing_map. rewrite map_map. by apply (proj1 (increasing_map timestamp _)), series_answer_increasing.
Qed.

Lemma imap_imap {A B C} (g : nat -> B -> C) (f : nat -> A -> B) l : imap g (imap f l) = imap (fun i x => g i (f i x)) l.
Proof. revert f g. induction l as [|x l IH]; intros f g; [done|]. cbn. f_equal. apply IH. Qed.

Lemma nrange_query_spec opened o : (forall i s, opened !! i = Some s -> series_answerable (per_key_range_options o i) s) ->
  process_nrange_query fuel opened o =
  let ls := imap (key_stream o) opened in
  let ws := map (nr_column_count o) (seq 0 (length opened)) in
  apply_iter_limit (directed (nr_is_reverse o) (map (pivot_row ls ws) (times ls))) (ro_count (nr_range o)).
Proof.
  intros Ha. unfold process_nrange_query, process_nrange. rewrite collect_pivot_spec, length_imap. cbn zeta. do 2 f_equal.
  rewrite imap_imap. change (imap _ opened) with (imap (key_stream o) opened). apply pivot_iter_spec; [by rewrite length_map, length_seq, length_imap|].
  apply Forall_lookup. intros i l Hl. rewrite list_lookup_imap in Hl. destruct (opened !! i) as [s|] eqn:Es; [|done]. injection Hl as <-. apply key_stream_increasing. by apply Ha.
Qed.

End Node.
