(* ===== verification/CodecLaws.v ===== *)
(** * CodecLaws: what crosses the cluster arrives

    A request whose numbers fit their fields arrives with its window resolved, rows
    arrive column by column, and the labels of a response survive the table. *)

From stdpp Require Import strings list.
From S2P Require Import Prelude Float64 Types Content Aggregators AggregateIterator TimestampRange RangeQuery MultiSeries MultiLaws MRange FanoutCodec.

Lemma try_map_ok {E A B} (f : A -> result E B) (g : A -> B) l : Forall (fun x => f x = Ok (g x)) l -> try_map f l = Ok (map g l).
Proof. induction 1 as [|x l Hx _ IH]; [done|]. cbn. by rewrite Hx, IH. Qed.

(** ** The request *)

Lemma aggregation_wire a : aggregation_of_wire (aggregation_to_wire a) = Ok a.
Proof. by destruct a. Qed.

Lemma operator_wire op : operator_of_wire (operator_to_wire op) = Ok op.
Proof. by destruct op. Qed.

(** A configuration [AggregatorConfig::new] makes. *)
Definition config_ok (c : AggregatorConfig) : Prop := aggregator_config_new (aggregation c) (value_filter c) = Ok c.

Lemma config_wire c : config_ok c -> config_of_wire (config_to_wire c) = Ok c.
Proof.
  unfold config_ok, config_of_wire, config_to_wire. intros Hc. cbn [aggregator_type fc_value_filter]. rewrite aggregation_wire.
  destruct (value_filter c) as [[op v]|] eqn:E; cbn [fmap option_fmap option_map filter_to_wire vc_operator vc_value].
  - unfold filter_of_wire, filter_to_wire. cbn [fv_operator fv_value vc_operator vc_value]. rewrite operator_wire. by rewrite Hc.
  - by rewrite Hc.
Qed.

(** An aggregation whose duration fits 32 bits, as a list of distinct aggregators. *)
Record aggregation_fits (a : AggregationOptions) : Prop := {
  af_some : aggregations a <> [];
  af_many : (length (aggregations a) <= MAX_AGGREGATIONS)%nat;
  af_ok : Forall config_ok (aggregations a);
  af_distinct : NoDup (map aggregation (aggregations a));
  af_duration : 0 < bucket_duration a < 2 ^ 32;
}.

Lemma no_duplicates l : forall seen, NoDup (seen ++ map aggregation l) -> has_duplicates seen l = false.
Proof.
  induction l as [|c l IH]; intros seen Hn; [done|]. cbn [has_duplicates map] in *. rewrite bool_decide_false.
  - apply IH. by rewrite <- app_assoc.
  - intros Hin. apply NoDup_app in Hn as (_ & Hd & _). apply (Hd _ Hin). by left.
Qed.

Lemma aggregation_options_wire a : aggregation_fits a -> aggregation_options_of_wire (aggregation_options_to_wire a) = Ok a.
Proof.
  intros [Hs Hm Hok Hd Hdur]. unfold aggregation_options_of_wire, aggregation_options_to_wire.
  destruct (alignment_to_wire (alignment a)) as [al ts] eqn:Eal.
  cbn [fa_aggregators fa_bucket_duration fa_alignment_timestamp fa_bucket_timestamp_type fa_bucket_alignment fa_report_empty]. rewrite length_map.
  rewrite bool_decide_false by (by intros ?%nil_length_inv). destruct (Nat.ltb_spec MAX_AGGREGATIONS (length (aggregations a))) as [|_]; [lia|].
  rewrite (try_map_ok _ (fun c => default (mkAggregatorConfig TyAvg None) (match config_of_wire c with Ok c => Some c | Err _ => None end))).
  2: { apply Forall_map. eapply Forall_impl; [exact Hok|]. intros c Hc. by rewrite config_wire. }
  rewrite map_map. rewrite (map_ext_in _ id) by (intros c Hc%list_elem_of_In; rewrite Forall_forall in Hok; by rewrite config_wire by (by apply Hok)).
  rewrite map_id. rewrite no_duplicates by done. unfold as_u32. rewrite Z.mod_small by lia. destruct (Z.eqb_spec (bucket_duration a) 0) as [|_]; [lia|].
  assert (bucket_timestamp_of_wire (bucket_timestamp_to_wire (timestamp_output a)) = Ok (timestamp_output a)) as Et by (by destruct (timestamp_output a)).
  assert (((0 <=? bucket_timestamp_to_wire (timestamp_output a)) && (bucket_timestamp_to_wire (timestamp_output a) <=? 3)) = true) as -> by (by destruct (timestamp_output a)).
  cbn [negb]. rewrite Et. destruct a as [aggs d bt algn re]. cbn in *. destruct algn; injection Eal as <- <-; done.
Qed.

(** What the fields of a request can hold. *)
Record request_fits (o : MRangeOptions) : Prop := {
  rf_count : forall n, ro_count (mo_range o) = Some n -> (0 < n)%nat /\ Z.of_nat n < 2 ^ 32;
  rf_filter : timestamp_filter (mo_range o) <> Some [];
  rf_aggregation : forall a, ro_aggregation (mo_range o) = Some a -> aggregation_fits a;
  rf_grouping : forall g, mo_grouping o = Some g -> config_ok (grp_aggregation g);
}.

(** The query with its window as the coordinator read it. *)
Definition resolved_range (o : RangeOptions) (clock : Reading) : RangeOptions :=
  let w := get_timestamps (date_range o) None clock in
  mkRangeOptions (from_timestamps w.1 w.2) (ro_count o) (ro_latest o) (ro_aggregation o) (timestamp_filter o) (ro_value_filter o).

Definition resolved (o : MRangeOptions) (clock : Reading) : MRangeOptions := with_range o (resolved_range (mo_range o) clock).

Lemma range_options_wire o clock : request_fits o -> range_options_of_wire (range_options_to_wire (mo_range o) clock) = Ok (resolved_range (mo_range o) clock).
Proof.
  intros [Hc Hf Ha _]. unfold range_options_of_wire, range_options_to_wire, resolved_range. destruct (get_timestamps _ None clock) as [s e].
  cbn [rr_range rr_count rr_timestamp_filter rr_value_filter rr_aggregation rr_latest dr_start dr_end fst snd].
  assert ((match aggregation_options_to_wire <$> ro_aggregation (mo_range o) with
           | Some a => match aggregation_options_of_wire a with Ok a => Ok (Some a) | Err e => Err e end
           | None => Ok None
           end) = Ok (E := MRangeError) (ro_aggregation (mo_range o))) as ->.
  { destruct (ro_aggregation (mo_range o)) as [a|]; [|done]. cbn. by rewrite (aggregation_options_wire a (Ha a eq_refl)). }
  f_equal. f_equal.
  - destruct (ro_count (mo_range o)) as [n|]; [|done]. destruct (Hc n eq_refl) as [Hn Hlt]. unfold as_u32. rewrite Z.mod_small by lia.
    destruct (Z.eqb_spec (Z.of_nat n) 0); [lia|]. by rewrite Nat2Z.id.
  - destruct (timestamp_filter (mo_range o)) as [l|]; [|done]. cbn. rewrite bool_decide_false; [done|]. by intros ->.
Qed.

Lemma request_wire o clock : request_fits o -> mrange_options_of_wire (mrange_options_to_wire o clock) = Ok (resolved o clock).
Proof.
  intros Ho. unfold mrange_options_of_wire, mrange_options_to_wire.
  cbn [rq_range rq_with_labels rq_selected_labels rq_grouping rq_is_reverse rq_exclude_empty]. rewrite range_options_wire by done. destruct Ho as [_ _ _ Hg].
  destruct o as [r wl sl g rev ex]. cbn in *. destruct g as [g|]; [|done]. cbn. unfold grouping_of_wire, grouping_to_wire. cbn [fg_aggregation fg_group_label].
  change (default (mkFanoutAggregatorConfig 0 None) (Some (config_to_wire (grp_aggregation g)))) with (config_to_wire (grp_aggregation g)).
  rewrite (config_wire _ (Hg g eq_refl)). by destruct g.
Qed.

(** ** Rows *)

Lemma push_row_spec ts n : forall (f : nat -> list Sample) k values, length values = n ->
  push_row (map f (seq k n)) ts values = map (fun j => f j ++ [mkSample ts (default f64_NAN (values !! (j - k)%nat))]) (seq k n).
Proof.
  induction n as [|n IH]; intros f k [|v values] Hlen; try done. cbn [seq map push_row]. rewrite Nat.sub_diag. f_equal.
  rewrite IH by (by injection Hlen). apply map_ext_in. intros j Hj%in_seq. replace (j - k)%nat with (S (j - S k)) by lia. done.
Qed.

Definition wide (n : nat) (rows : list MultiSample) : Prop := Forall (fun r => length (ms_values r) = n) rows.

Lemma serialize_rows_spec n rows : rows <> [] -> wide n rows -> serialize_rows rows = map (fun j => column_samples j rows) (seq 0 n).
Proof.
  intros Hne Hw. destruct rows as [|first rows]; [done|]. unfold serialize_rows. assert (length (ms_values first) = n) as -> by (by inversion Hw).
  assert (Hfold : forall k g, wide n k -> fold_left (fun cs row => push_row cs (ms_timestamp row) (ms_values row)) k (map (fun j => column_samples j g) (seq 0 n)) =
    map (fun j => column_samples j (g ++ k)) (seq 0 n)).
  { induction k as [|r k IH]; intros g Hk; cbn [fold_left]; [by rewrite app_nil_r|]. apply Forall_cons in Hk as [Hr Hk]. rewrite push_row_spec by done.
    rewrite (cons_middle r g k), app_assoc, <- IH by done. f_equal. apply map_ext. intros j. rewrite Nat.sub_0_r. unfold column_samples. by rewrite map_app. }
  etrans; [|exact (Hfold (first :: rows) [] Hw)]. f_equal. clear. generalize 0%nat. induction n as [|n IH]; intros k; [done|]. cbn. by rewrite <- IH.
Qed.

Lemma map_lookup_seq {A} (d : A) l : map (fun i => default d (l !! i)) (seq 0 (length l)) = l.
Proof.
  induction l as [|x l IH]; [done|]. cbn [length seq map]. f_equal. rewrite <- seq_shift, map_map. exact IH.
Qed.

Lemma find_mismatched_none len cols : Forall (fun c => length c = len) cols -> forall idx, find_mismatched len idx cols = None.
Proof. induction 1 as [|c cols Hc _ IH]; intros idx; [done|]. cbn. rewrite bool_decide_false by (by intros ?). apply IH. Qed.

Lemma row_values_spec rows row i n len : rows !! i = Some row -> forall m idx,
  row_values_at i idx n len (ms_timestamp row) (map (fun j => column_samples j rows) (seq idx m)) = Ok (map (fun j => default f64_NAN (ms_values row !! j)) (seq idx m)).
Proof.
  intros Hi. induction m as [|m IH]; intros idx; [done|]. cbn [seq map row_values_at]. unfold column_samples at 1. change (map ?f rows) with (f <$> rows).
  rewrite list_lookup_fmap, Hi. cbn [fmap option_fmap option_map timestamp value]. rewrite Z.eqb_refl. cbn [negb]. by rewrite IH.
Qed.

Lemma deserialize_rows_spec n rows : (0 < n)%nat -> wide n rows -> deserialize_rows (map (fun j => column_samples j rows) (seq 0 n)) = Ok rows.
Proof.
  intros Hn Hw. unfold deserialize_rows. rewrite length_map, length_seq. assert (default [] (head (map (fun j => column_samples j rows) (seq 0 n))) = column_samples 0 rows) as -> by (by destruct n; [lia|]).
  assert (Hlen : forall j, length (column_samples j rows) = length rows) by (intros j; apply length_map). rewrite Hlen, find_mismatched_none by (apply Forall_map, Forall_true; apply Hlen).
  rewrite (try_map_ok _ (fun p => default (mkMultiSample 0 []) (rows !! p.1))).
  - f_equal. transitivity (map (fun i => default (mkMultiSample 0 []) (rows !! i)) (map fst (zip (seq 0 (length rows)) (column_samples 0 rows)))); [by rewrite map_map|].
    change (map fst ?l) with (l.*1). rewrite fst_zip by (rewrite length_seq, Hlen; lia). by rewrite map_lookup_seq.
  - apply Forall_lookup. intros k [i s] Hk. apply lookup_zip_Some in Hk as [Hi Hs]. apply lookup_seq in Hi as [-> Hlt]. rewrite Nat.add_0_l in *.
    apply lookup_lt_is_Some_2 in Hlt as [row Hrow]. unfold column_samples in Hs. change (map ?f rows) with (f <$> rows) in Hs. rewrite list_lookup_fmap, Hrow in Hs. injection Hs as <-.
    cbn [timestamp fst]. rewrite (row_values_spec rows row k n (length rows) Hrow). rewrite Hrow. cbn [default]. f_equal. destruct row as [ts vs]. cbn [ms_timestamp ms_values] in *. f_equal.
    assert (length vs = n) as <- by (unfold wide in Hw; rewrite Forall_forall in Hw; by apply (Hw (mkMultiSample ts vs)), list_elem_of_lookup; eauto).
    unfold id. f_equal. apply map_lookup_seq.
Qed.

(** The data that can be sent: rows have a column for each of several aggregators. *)
Definition sendable (d : SeriesResultData) : Prop := match d with DataChunk _ => True | DataRows rows => exists n, (2 <= n)%nat /\ wide n rows end.

Lemma result_wire r : sendable (mr_data r) ->
  result_of_wire (result_to_wire r) = Ok (mkMRangeSeriesResult (mr_key r) (Some (default ""%string (mr_group_label_value r))) (mr_labels r) [] (mr_data r)).
Proof.
  intros Hs. unfold result_of_wire, result_to_wire. cbn [columns sr_key sr_group_label_value sr_labels]. destruct (mr_data r) as [samples|rows]; [done|].
  destruct Hs as (n & Hn & Hw). destruct rows as [|row rows]; [done|]. rewrite (serialize_rows_spec n) by done. pose proof (deserialize_rows_spec n (row :: rows) ltac:(lia) Hw) as Hd.
  destruct n as [|[|n]]; [lia..|]. cbn [seq map] in *. by rewrite Hd.
Qed.

(** ** Labels *)

Lemma intern_spec dict x idx dict' : intern dict x = (idx, dict') -> dict' !! idx = Some x /\ dict `prefix_of` dict'.
Proof.
  unfold intern. destruct (list_find (eq x) dict) as [[i y]|] eqn:E.
  - apply list_find_Some in E as (Hi & <- & _). by intros [= <- <-].
  - intros [= <- <-]. split; [by rewrite lookup_app_r, Nat.sub_diag|by eexists].
Qed.

Lemma intern_refs_spec labels : forall names values nr vr names' values', intern_refs names values labels = (nr, vr, (names', values')) ->
  names `prefix_of` names' /\ values `prefix_of` values' /\ length nr = length labels /\ length vr = length labels /\
  forall key N V, names' `prefix_of` N -> values' `prefix_of` V -> resolve_refs key N V nr vr = Ok labels.
Proof.
  induction labels as [|[n v] labels IH]; intros names values nr vr names' values'; cbn [intern_refs].
  { intros [= <- <- <- <-]. done. }
  destruct (intern names n) as [ni names1] eqn:En. destruct (intern values v) as [vi values1] eqn:Ev.
  apply intern_spec in En as [Hn Hpn]. apply intern_spec in Ev as [Hv Hpv].
  destruct (intern_refs names1 values1 labels) as [[nr1 vr1] [names2 values2]] eqn:Er. intros [= <- <- <- <-].
  apply IH in Er as (H1 & H2 & H3 & H4 & Hr). split_and!; [by etrans|by etrans|by cbn; rewrite H3|by cbn; rewrite H4|].
  intros key N V HN HV. cbn [resolve_refs].
  rewrite (prefix_lookup_Some names1 N ni n Hn) by (by etrans). rewrite (prefix_lookup_Some values1 V vi v Hv) by (by etrans). by rewrite Hr.
Qed.

Definition without_refs (s : SeriesRangeResponse) : Prop := label_name_refs s = [] /\ label_value_refs s = [].

Lemma intern_from_spec series : Forall without_refs series -> forall names values series' names' values', intern_from names values series = (series', (names', values')) ->
  names `prefix_of` names' /\ values `prefix_of` values' /\
  forall N V, names' `prefix_of` N -> values' `prefix_of` V -> resolve_labels series' N V = Ok series.
Proof.
  induction 1 as [|s series [Hs1 Hs2] _ IH]; intros names values series' names' values'; cbn [intern_from].
  { by intros [= <- <- <-]. }
  destruct (intern_refs names values (sr_labels s)) as [[nr vr] [names1 values1]] eqn:Er. destruct (intern_from names1 values1 series) as [series1 [names2 values2]] eqn:Ef.
  intros [= <- <- <-]. apply intern_refs_spec in Er as (H1 & H2 & H3 & H4 & Hr). apply IH in Ef as (H5 & H6 & Hf). split_and!; [by etrans|by etrans|].
  intros N V HN HV. unfold resolve_labels in *. cbn [try_map]. rewrite Hf by done.
  assert (resolve_series N V (with_refs s [] nr vr) = Ok s) as ->; [|done]. unfold resolve_series, with_refs. cbn [label_name_refs label_value_refs sr_key sr_group_label_value sr_labels columns].
  destruct s as [key gl labels cols nrs vrs]. cbn in *. subst nrs vrs. destruct labels as [|lb labels].
  - apply nil_length_inv in H3, H4. by subst.
  - destruct nr; [done|]. rewrite (bool_decide_false (_ :: _ = [])) by done. cbn [andb]. rewrite bool_decide_false by (rewrite H3, H4; by intros ?). by rewrite Hr by (by etrans).
Qed.

Lemma labels_wire series series' names values : Forall without_refs series -> intern_labels series = (series', (names, values)) -> resolve_labels series' names values = Ok series.
Proof. intros Hs Hi. destruct (intern_from_spec series Hs [] [] series' names values Hi) as (_ & _ & Hr). by apply Hr. Qed.
