(* ===== verification/FanoutLaws.v ===== *)
(** * FanoutLaws: the cluster answers as one node

    What a shard sends for each of its series, and that the coordinator makes of
    it what a single node with all the series reports. *)

From stdpp Require Import strings list sets.
From S2P Require Import Prelude Float64 Types Slice Content ChunkOps Elf64 Log10Ref TimeSeriesChunk SeriesIterator Rounding TimeSeries.
From S2P Require Import SeriesLaws SeriesReads SeriesWrites Aggregators AggregateIterator AggregateLaws AggregateColumns AggregateProps TimestampRange TimestampFilter RangeQuery RangeLaws.
From S2P Require Import RangeProps MultiSeries MultiLaws PivotLaws PartialReducer MRange FanoutCodec MRangeFanout AnswerLaws MRangeLaws CodecLaws.

(** ** Descending order *)

Lemma sort_descending_key l : sort_descending l = sort_by_key (fun s => - timestamp s) l.
Proof.
  unfold sort_descending, sort_with, sort_by_key. induction l as [|x l IH]; [done|]. cbn [foldr]. rewrite IH. generalize (foldr (insert_by_key (fun s => - timestamp s)) [] l).
  intros k. induction k as [|y k IHk]; [done|]. cbn. destruct (Z.leb_spec (timestamp y) (timestamp x)), (Z.leb_spec (- timestamp x) (- timestamp y)); try lia; [done|]. by rewrite IHk.
Qed.

Lemma sort_descending_increasing l : key_increasing timestamp l -> sort_descending l = reverse l.
Proof.
  intros Hl. rewrite sort_descending_key. apply sort_by_key_unique; [|by rewrite reverse_Permutation]. unfold key_increasing in *.
  apply StronglySorted_reverse in Hl. eapply StronglySorted_weaken; [|exact Hl]. cbn. intros; lia.
Qed.

(** Descending time is ascending negative time. *)
Definition neg_timed : Timed Sample := fun s => - timestamp s.

Lemma at_ts_neg t l : @at_ts Sample neg_timed (- t) l = at_ts t l.
Proof.
  apply filter_ext. intros s. unfold row_timestamp, neg_timed, Sample_timed. destruct (Z.eqb_spec (- timestamp s) (- t)), (Z.eqb_spec (timestamp s) t); lia.
Qed.

Lemma runs_from_neg l : forall ts g, @runs_from Sample neg_timed (- ts) g l = map (fun p => (- p.1, p.2)) (runs_from ts g l).
Proof.
  induction l as [|r l IH]; intros ts g; cbn [runs_from]; [done|]. change (@row_timestamp Sample neg_timed r) with (- timestamp r). change (row_timestamp r) with (timestamp r).
  destruct (Z.eqb_spec (- timestamp r) (- ts)), (Z.eqb_spec (timestamp r) ts); try lia; [by rewrite IH|]. cbn [map fst snd]. by rewrite IH.
Qed.

Lemma runs_descending l : @rows_sorted Sample neg_timed l ->
  runs l = map (fun t => (t, at_ts t l)) (reverse (dedup (sort_by_key id (map timestamp l)))).
Proof.
  intros Hs. assert (E : runs l = map (fun p => (- p.1, p.2)) (@runs Sample neg_timed l)).
  { destruct l as [|r l]; [done|]. cbn [runs]. change (@row_timestamp Sample neg_timed r) with (- timestamp r). rewrite runs_from_neg, map_map. cbn [fst snd].
    rewrite <- (map_id (runs_from _ _ _)) at 1. apply map_ext. intros [t g]. cbn. by rewrite Z.opp_involutive. }
  rewrite E, (@runs_sorted Sample neg_timed l Hs), map_map. cbn [fst snd].
  rewrite (map_ext _ (fun t => (fun u => (u, at_ts u l)) (- t))) by (intros t; by rewrite <- (at_ts_neg (- t)), Z.opp_involutive).
  rewrite <- (map_map Z.opp (fun u => (u, at_ts u l))). f_equal.
  change (map (@row_timestamp Sample neg_timed) l) with (map (fun s => - timestamp s) l).
  assert (StronglySorted Z.le (map (fun s => - timestamp s) l)) as Hsl by (clear -Hs; induction Hs as [|x k Hk IH Hx]; cbn; constructor; [done|]; by apply Forall_map).
  assert (Hd : StronglySorted Z.lt (dedup (map (fun s => - timestamp s) l)) /\ forall t, t ∈ dedup (map (fun s => - timestamp s) l) <-> t ∈ map (fun s => - timestamp s) l).
  { destruct (map (fun s => - timestamp s) l) as [|x k]; [split; [constructor|done]|]. by apply dedup_from_spec. }
  destruct Hd as [Hd1 Hd2]. destruct (distinct_spec (map timestamp l)) as [Ht1 Ht2].
  apply (inj reverse). rewrite reverse_involutive. apply sorted_ext; [|done|].
  - apply StronglySorted_reverse with (R := fun x y => y < x). clear -Hd1. induction Hd1 as [|x k Hk IH Hx]; cbn; constructor; [done|]. rewrite Forall_map. eapply Forall_impl; [exact Hx|]. cbn. intros; lia.
  - intros t. rewrite elem_of_reverse, Ht2. change (map Z.opp ?k) with (Z.opp <$> k). rewrite list_elem_of_fmap. setoid_rewrite Hd2.
    change (map ?f l) with (f <$> l). setoid_rewrite list_elem_of_fmap. split.
    + intros (y & -> & s & -> & Hin). exists s. split; [lia|done].
    + intros (s & -> & Hin). exists (- timestamp s). split; [lia|eauto].
Qed.

Lemma grouped_descending c (ls : list (list Sample)) :
  reduce_iterator (sort_descending (concat ls)) (create_aggregator c) = reverse (grouped_samples (create_aggregator c) ls).
Proof.
  rewrite reduce_iterator_spec by apply reducer_reset. rewrite sort_descending_key. set (d := sort_by_key _ (concat ls)).
  rewrite runs_descending by (exact (sort_by_key_sorted (fun s => - timestamp s) (concat ls))).
  assert (dedup (sort_by_key id (map timestamp d)) = times ls) as ->.
  { destruct (distinct_spec (map timestamp d)) as [H1 H2]. destruct (distinct_spec (map timestamp (concat ls))) as [H3 H4]. apply sorted_ext; [done|exact H3|].
    intros t. unfold times. rewrite H2. etrans; [|symmetry; apply H4]. change (map timestamp ?k) with (timestamp <$> k). unfold d. by rewrite (sort_by_key_perm _ (concat ls)). }
  unfold reduce_runs, grouped_samples. rewrite map_map. change (reverse (map ?f (times ls))) with (directed true (map f (times ls))). rewrite directed_map. apply map_ext. intros t. cbn. do 2 f_equal.
  rewrite <- !(at_ts_neg t). apply (@at_ts_sort Sample neg_timed (- t) (concat ls)).
Qed.

Lemma limit_forall {A} (P : A -> Prop) lim l : Forall P l -> Forall P (apply_limit lim l).
Proof. destruct lim as [[n|n]|]; cbn; intros Hl; [by apply Forall_take|rewrite tail_iter_spec; by apply Forall_drop|done]. Qed.

Lemma limit_increasing {A} (key : A -> Z) lim l : key_increasing key l -> key_increasing key (apply_limit lim l).
Proof.
  destruct lim as [[n|n]|]; cbn; [|rewrite tail_iter_spec|done]; intros Hl.
  - rewrite <- (take_drop n l) in Hl. by apply key_increasing_app in Hl as [? _].
  - rewrite <- (take_drop (length l - n) l) in Hl. by apply key_increasing_app in Hl as (_ & ? & _).
Qed.

(** What a client sees of a result. *)
Definition reported (r : MRangeSeriesResult) : string * list Label * list string * SeriesResultData := (mr_key r, mr_labels r, mr_sources r, mr_data r).

Lemma reported_sorted b l1 l2 : map reported l1 = map reported l2 ->
  map reported (sort_mrange_results (retain_nonempty b l1) false) = map reported (sort_mrange_results (retain_nonempty b l2) false).
Proof.
  intros E. assert (Hs : forall l, map reported (sort_mrange_results l false) = sort_with (fun a b => String.leb a.1.1.1 b.1.1.1) (map reported l)).
  { intros l. symmetry. by apply sort_with_map. }
  rewrite !Hs. f_equal. destruct b; [|done]. cbn.
  assert (Hf : forall l, map reported (List.filter (fun r => negb (data_is_empty (mr_data r))) l) = List.filter (fun p => negb (data_is_empty p.2)) (map reported l)).
  { intros l. induction l as [|x l IH]; [done|]. cbn. destruct (data_is_empty (mr_data x)); cbn; by rewrite IH. }
  by rewrite !Hf, E.
Qed.

(** A second EXCLUDEEMPTY after a step that keeps empty results empty. *)
Lemma retain_twice b (f : MRangeSeriesResult -> MRangeSeriesResult) l :
  Forall (fun r => data_is_empty (mr_data r) = true -> data_is_empty (mr_data (f r)) = true) l ->
  retain_nonempty b (map f (retain_nonempty b l)) = retain_nonempty b (map f l).
Proof.
  intros Hl. destruct b; [|done]. unfold retain_nonempty. induction Hl as [|r l Hr _ IH]; [done|]. cbn [List.filter map].
  destruct (data_is_empty (mr_data r)) eqn:E; cbn [negb].
  - rewrite IH. by rewrite (Hr eq_refl).
  - cbn [map List.filter]. destruct (data_is_empty (mr_data (f r))); cbn; by rewrite IH.
Qed.

Section Fanout.

Context `{Log10} `{ServerConfig}.
Context `{MinMaxHeap (Entry Sample)} `{!MinMaxHeapLaws (Entry Sample) entry_cmp} `{MinMaxHeap (Entry MultiSample)} `{!MinMaxHeapLaws (Entry MultiSample) entry_cmp}.

Context (fuel : nat) (clock : string -> Reading) (enabled : bool) (o : MRangeOptions) (sent_at : Reading).

Hypothesis Hfit : request_fits o.
(** Either there is nothing to aggregate or the shards do it. *)
Hypothesis Hpush : ro_aggregation (mo_range o) = None \/ enabled = true.

Abbreviation ro := (resolved o sent_at).
Abbreviation cmd := (fanout_new enabled o).
Abbreviation req := (generate_request cmd sent_at).

Lemma request_arrives : mrange_options_of_wire req = Ok ro.
Proof. exact (request_wire o sent_at Hfit). Qed.

(** The limit a shard applies. *)
Definition shard_limit : option SampleLimit := if enabled then limit_for (mo_is_reverse o) <$> ro_count (mo_range o) else None.

Lemma limit_sent :
  (if apply_count req then (fun n => if mo_is_reverse ro then LimitTail n else LimitHead n) <$> ro_count (mo_range ro) else None) = shard_limit.
Proof.
  unfold shard_limit, limit_for. cbn [apply_count generate_request pushdown_count fanout_new]. destruct enabled; [|done]. cbn [andb].
  change (ro_count (mo_range ro)) with (ro_count (mo_range o)). change (mo_is_reverse ro) with (mo_is_reverse o).
  destruct (ro_count (mo_range o)) as [n|]; [|done]. rewrite bool_decide_true by eauto. cbn [andb].
  destruct (bool_decide (is_Some (ro_aggregation (mo_range o)))); done.
Qed.

(** The aggregation is either pushed down or absent. *)
Lemma range_sent : let range := without_count (mo_range ro) in
  (if negb (apply_aggregation req)
   then mkRangeOptions (date_range range) (ro_count range) (ro_latest range) None (timestamp_filter range) (ro_value_filter range)
   else range) = range.
Proof.
  cbn [apply_aggregation generate_request pushdown fanout_new]. destruct Hpush as [Hn|He].
  - unfold without_count, resolved, resolved_range. cbn [mo_range with_range ro_aggregation date_range ro_count ro_latest timestamp_filter ro_value_filter]. rewrite Hn. by destruct (negb _).
  - rewrite He. cbn [andb]. case_bool_decide as Hs; [done|]. cbn [negb].
    unfold without_count, resolved, resolved_range. cbn [mo_range with_range ro_aggregation date_range ro_count ro_latest timestamp_filter ro_value_filter].
    destruct (ro_aggregation (mo_range o)); [|done]. exfalso. eauto.
Qed.

(** ** A shard *)

Definition result_label (s : SelectedSeries) : option string := match mo_grouping o with Some g => grouping_label g s | None => None end.

Definition shard_data (s : SelectedSeries) : SeriesResultData :=
  match multi_aggregation ro with
  | Some a => DataRows (apply_limit shard_limit (series_answer_rows fuel (mo_range ro) a s))
  | None => DataChunk (apply_limit shard_limit (series_answer fuel (mo_range ro) s))
  end.

Definition shard_result (s : SelectedSeries) : MRangeSeriesResult :=
  mkMRangeSeriesResult (se_key s) (result_label s) (convert_labels (se_labels s) (with_labels o) (selected_labels o)) [] (shard_data s).

Definition shard_results (shard : list SelectedSeries) : list MRangeSeriesResult := retain_nonempty (exclude_empty o) (map shard_result shard).

Lemma shard_query shard :
  process_mrange_query fuel shard (mkMRangeOptions (without_count (mo_range ro)) (with_labels ro) (selected_labels ro) (mo_grouping ro) false (exclude_empty ro)) true shard_limit =
  shard_results shard.
Proof.
  unfold process_mrange_query, process_mrange. cbn [mo_grouping mo_range with_labels selected_labels mo_is_reverse exclude_empty].
  change (mo_grouping ro) with (mo_grouping o). change (exclude_empty ro) with (exclude_empty o). unfold shard_results. f_equal.
  unfold shard_result, result_label. destruct (mo_grouping o) as [g|].
  - rewrite collect_meta. unfold handle_non_grouped. rewrite map_map. apply map_ext. intros s. reflexivity.
  - unfold handle_non_grouped. rewrite map_map. apply map_ext. intros s. reflexivity.
Qed.

Hypothesis Hgroup : pushdown_group cmd = false.

Lemma shard_response shard : exists resp, get_local_response fuel shard req = Ok resp /\ rs_group_partials resp = [] /\
  applied_aggregation resp = pushdown cmd /\
  resolve_labels (rs_series resp) (symbol_table_names resp) (symbol_table_values resp) = Ok (map result_to_wire (shard_results shard)).
Proof.
  unfold get_local_response. rewrite request_arrives, limit_sent. cbn zeta.
  assert (apply_group_reduce req = false) as -> by exact Hgroup. cbn [andb]. rewrite range_sent, shard_query.
  destruct (intern_labels (map result_to_wire (shard_results shard))) as [serialized [names values]] eqn:Ei.
  eexists. split; [done|]. cbn [rs_group_partials applied_aggregation rs_series symbol_table_names symbol_table_values]. split; [done|]. split; [done|].
  eapply labels_wire; [|exact Ei]. apply Forall_map, Forall_true. done.
Qed.

(** ** The responses *)

Definition collected (shards : list (list SelectedSeries)) : list (SeriesRangeResponse * bool) :=
  map (fun r => (result_to_wire r, pushdown cmd)) (concat (map shard_results shards)).

Lemma ingest_spec shards : forall series,
  ingest_all fuel (mkMRangeFanoutCommand o series [] (pushdown cmd) (pushdown_group cmd) (pushdown_count cmd)) req shards =
  Ok (mkMRangeFanoutCommand o (series ++ collected shards) [] (pushdown cmd) (pushdown_group cmd) (pushdown_count cmd)).
Proof.
  induction shards as [|shard shards IH]; intros series; cbn [ingest_all]; [by rewrite app_nil_r|].
  destruct (shard_response shard) as (resp & -> & Hp & Ha & Hr). unfold ingest_response. rewrite Hr, Ha, Hp.
  cbn [fo_options fo_series fo_group_partials pushdown pushdown_group pushdown_count app]. rewrite IH. do 2 f_equal. rewrite <- app_assoc. f_equal.
  unfold collected. cbn [map concat]. by rewrite map_app, !map_map.
Qed.

Lemma retain_concat b (ls : list (list MRangeSeriesResult)) : concat (map (retain_nonempty b) ls) = retain_nonempty b (concat ls).
Proof. unfold retain_nonempty. destruct b; [|by rewrite map_id]. induction ls as [|l ls IH]; [done|]. cbn. by rewrite List.filter_app, IH. Qed.

Lemma collected_spec shards : map fst (collected shards) = map result_to_wire (shard_results (concat shards)).
Proof.
  unfold collected. rewrite map_map. cbn [fst]. change (fun r => result_to_wire r) with result_to_wire. f_equal. unfold shard_results.
  rewrite <- (map_map (map shard_result) (retain_nonempty (exclude_empty o))), retain_concat. f_equal. by rewrite concat_map.
Qed.

(** The options the coordinator replies with. *)
Definition reply_options : MRangeOptions :=
  let r := mo_range o in with_range o (mkRangeOptions (date_range r) (ro_count r) false (ro_aggregation r) None None).

Definition final_options : MRangeOptions :=
  let r := mo_range reply_options in
  if pushdown cmd && negb (is_multi_aggregation reply_options)
  then with_range reply_options (mkRangeOptions (date_range r) (ro_count r) (ro_latest r) None (timestamp_filter r) (ro_value_filter r))
  else reply_options.

Lemma normalize_spec shards : normalize_response_series fuel clock (collected shards) reply_options (pushdown cmd) = Ok (map fst (collected shards)).
Proof.
  unfold normalize_response_series. destruct (pushdown cmd) eqn:Ep; [|done]. cbn [andb]. destruct (is_multi_aggregation reply_options); [done|]. cbn [negb].
  apply try_map_ok. unfold collected. rewrite Ep. apply Forall_map, Forall_true. done.
Qed.

(** *** Decoding *)

Definition decoded (r : MRangeSeriesResult) : MRangeSeriesResult :=
  mkMRangeSeriesResult (mr_key r) (Some (default ""%string (mr_group_label_value r))) (mr_labels r) [] (mr_data r).

Lemma shard_sendable s : series_answerable fuel (mo_range ro) s -> sendable (shard_data s).
Proof.
  intros Hs. unfold shard_data. destruct (multi_aggregation ro) as [a|] eqn:Em; [|done]. apply multi_aggregation_some in Em as [Hagg Hm]. cbn.
  exists (length (aggregations a)). split; [by apply Nat.ltb_lt in Hm|]. apply limit_forall. exact (series_rows_width fuel (mo_range ro) a s Hagg Hs).
Qed.

Lemma retain_forall (P : MRangeSeriesResult -> Prop) b l : Forall P l -> Forall P (retain_nonempty b l).
Proof. destruct b; [|done]. apply Forall_list_filter. Qed.

Lemma decode_results selected : Forall (series_answerable fuel (mo_range ro)) selected ->
  try_map result_of_wire (map result_to_wire (shard_results selected)) = Ok (map decoded (shard_results selected)).
Proof.
  intros Ha. rewrite (try_map_ok _ (fun w => match result_of_wire w with Ok r => r | Err _ => mkMRangeSeriesResult ""%string None [] [] (DataChunk []) end)).
  - f_equal. rewrite map_map. apply map_ext_in. intros r Hr%list_elem_of_In.
    assert (Forall (fun r => sendable (mr_data r)) (shard_results selected)) as Hs.
    { apply retain_forall, Forall_map. eapply Forall_impl; [exact Ha|]. apply shard_sendable. }
    rewrite Forall_forall in Hs. by rewrite (result_wire r (Hs r Hr)).
  - apply Forall_map, retain_forall, Forall_map. eapply Forall_impl; [exact Ha|]. intros s Hs. by rewrite (result_wire (shard_result s) (shard_sendable s Hs)).
Qed.

(** *** One series *)

Lemma limit_invisible {A} (l : list A) :
  apply_iter_limit (directed (mo_is_reverse o) (apply_limit shard_limit l)) (ro_count (mo_range o)) =
  apply_iter_limit (directed (mo_is_reverse o) l) (ro_count (mo_range o)).
Proof.
  unfold shard_limit. destruct enabled; [|done]. destruct (ro_count (mo_range o)) as [n|]; [|done]. cbn [fmap option_fmap option_map apply_limit apply_iter_limit].
  rewrite limited_directed. by rewrite take_take, Nat.min_id.
Qed.

Lemma final_multi a : multi_aggregation o = Some a -> multi_aggregation final_options = Some a.
Proof.
  intros Hm. unfold final_options, is_multi_aggregation. change (multi_aggregation reply_options) with (multi_aggregation o). rewrite Hm.
  rewrite bool_decide_true by eauto. cbn [negb]. rewrite andb_false_r. exact Hm.
Qed.

Lemma final_single : multi_aggregation o = None -> ro_aggregation (mo_range final_options) = None /\ multi_aggregation final_options = None.
Proof.
  intros Hm. unfold final_options, is_multi_aggregation. change (multi_aggregation reply_options) with (multi_aggregation o). rewrite Hm.
  rewrite bool_decide_false by (by intros [? ?]). cbn [negb]. rewrite andb_true_r. cbn [pushdown fanout_new].
  destruct Hpush as [Hn|He].
  - rewrite Hn. rewrite bool_decide_false by (by intros [? ?]). rewrite andb_false_r. split; [exact Hn|exact Hm].
  - rewrite He. cbn [andb]. case_bool_decide as Hs; [done|]. destruct (ro_aggregation (mo_range o)) eqn:E; [exfalso; eauto|]. split; [exact E|exact Hm].
Qed.

Lemma final_shape : mo_is_reverse final_options = mo_is_reverse o /\ ro_count (mo_range final_options) = ro_count (mo_range o) /\ mo_grouping final_options = mo_grouping o /\
  with_labels final_options = with_labels o /\ exclude_empty final_options = exclude_empty o /\
  timestamp_filter (mo_range final_options) = None /\ ro_value_filter (mo_range final_options) = None.
Proof. unfold final_options. by destruct (_ && _). Qed.

(** With nothing to aggregate or filter the adapter reduces and counts. *)
Lemma adapter_plain base rev clk : multi_aggregation o = None ->
  create_sample_iterator_adapter fuel base (mo_range final_options) (mo_grouping o) rev no_fill clk =
  apply_iter_limit (directed rev (match mo_grouping o with Some g => reduce_iterator base (create_aggregator (grp_aggregation g)) | None => base end)) (ro_count (mo_range o)).
Proof.
  intros Hm. destruct (final_single Hm) as [Ha _]. destruct final_shape as (_ & Hc & _ & _ & _ & Ht & Hv). unfold create_sample_iterator_adapter. rewrite Ha, Ht, Hv, Hc.
  rewrite filter_all by (by apply Forall_true). destruct (mo_grouping o); rewrite finalize_spec; done.
Qed.

Lemma process_plain key results : multi_aggregation o = None ->
  process_series_list fuel clock key results final_options =
  let samples := if mo_is_reverse o then sort_descending (concat (map (fun r => sample_iter (mr_data r)) results))
                 else match results with [r] => sample_iter (mr_data r) | _ => multi_series_iter (map (fun r => sample_iter (mr_data r)) results) end in
  apply_iter_limit (match mo_grouping o with Some g => reduce_iterator samples (create_aggregator (grp_aggregation g)) | None => samples end) (ro_count (mo_range o)).
Proof.
  intros Hm. destruct (final_single Hm) as [Ha _]. destruct final_shape as (Hrev & _ & Hg & _). unfold process_series_list, validate_reverse. rewrite Ha, Hrev, Hg.
  rewrite bool_decide_false by (by intros [? ?]). cbn [negb andb]. by rewrite adapter_plain.
Qed.

Lemma process_series_spec s : mo_grouping o = None -> series_answerable fuel (mo_range ro) s ->
  process_series_samples fuel clock (decoded (shard_result s)) final_options =
  mkMRangeSeriesResult (se_key s) (Some ""%string) (convert_labels (se_labels s) (with_labels o) (selected_labels o)) [] (series_data fuel ro s).
Proof.
  intros Hg Hs. destruct final_shape as (Hrev & Hc & _). unfold process_series_samples, mr_with_data, decoded, shard_result, result_label.
  cbn [mr_key mr_group_label_value mr_labels mr_sources mr_data]. rewrite Hg. cbn [default]. unfold series_data. change (multi_aggregation ro) with (multi_aggregation o).
  destruct (multi_aggregation o) as [a|] eqn:Em.
  - rewrite (final_multi a Em). f_equal. f_equal. unfold series_rows_ascending. cbn [mr_data]. unfold shard_data. change (multi_aggregation ro) with (multi_aggregation o).
    rewrite Em, collect_items_spec, Hrev, Hc. apply limit_invisible.
  - destruct (final_single Em) as [_ ->]. f_equal. f_equal. rewrite process_plain by done. rewrite Hg. cbn zeta. unfold shard_data.
    change (multi_aggregation ro) with (multi_aggregation o). rewrite Em. cbn [map concat mr_data sample_iter]. rewrite app_nil_r.
    rewrite sort_descending_increasing by (apply limit_increasing; exact (series_answer_increasing fuel (mo_range ro) s Hs)). exact (limit_invisible (series_answer fuel (mo_range ro) s)).
Qed.

Lemma limit_empty {A} (l : list A) : apply_limit shard_limit l = [] -> apply_iter_limit (directed (mo_is_reverse o) l) (ro_count (mo_range o)) = [].
Proof. intros E. rewrite <- limit_invisible, E. destruct (mo_is_reverse o), (ro_count (mo_range o)) as [[|n]|]; done. Qed.

Lemma empty_stays s : data_is_empty (shard_data s) = true -> data_is_empty (series_data fuel ro s) = true.
Proof.
  unfold shard_data, series_data. destruct (multi_aggregation ro) as [a|]; cbn [data_is_empty]; intros E.
  - destruct (apply_limit shard_limit (series_answer_rows fuel (mo_range ro) a s)) eqn:El; [|done]. apply limit_empty in El.
    change (mo_is_reverse ro) with (mo_is_reverse o). change (ro_count (mo_range ro)) with (ro_count (mo_range o)). by rewrite El.
  - apply bool_decide_eq_true in E. apply limit_empty in E. apply bool_decide_eq_true. exact E.
Qed.

Lemma fanout_ungrouped shards : mo_grouping o = None -> Forall (series_answerable fuel (mo_range ro)) (concat shards) ->
  exists results, fanout_execute fuel clock enabled o sent_at shards = Ok results /\ map reported results = map reported (process_mrange_query fuel (concat shards) ro false None).
Proof.
  intros Hg Ha. unfold fanout_execute. change cmd with (mkMRangeFanoutCommand o [] [] (pushdown cmd) (pushdown_group cmd) (pushdown_count cmd)) at 1. rewrite ingest_spec.
  cbn [app]. unfold fanout_reply, process_responses. cbn [fo_options fo_series fo_group_partials pushdown pushdown_group pushdown_count]. fold reply_options. rewrite normalize_spec. cbn zeta.
  fold final_options. destruct final_shape as (_ & _ & -> & _ & -> & _). rewrite Hg. unfold handle_basic. rewrite collected_spec, decode_results by done.
  change (mo_grouping reply_options) with (mo_grouping o). rewrite Hg, bool_decide_false by (by intros [? ?]). eexists. split; [done|]. rewrite ungrouped_query_spec by done. unfold shard_results. rewrite !map_map.
  rewrite retain_twice; [|apply Forall_map; eapply Forall_impl; [exact Ha|]; intros s Hs; rewrite process_series_spec by done; apply empty_stays].
  apply reported_sorted. rewrite !map_map. apply map_ext_in. intros s Hs%list_elem_of_In. rewrite Forall_forall in Ha. rewrite process_series_spec by auto. done.
Qed.

(** *** One group *)

Lemma group_by_label_ext {A} (f g : A -> option string) xs : Forall (fun x => f x = g x) xs -> group_by_label f xs = group_by_label g xs.
Proof. unfold group_by_label. generalize (@nil (string * list A)). intros k Hx. revert k. induction Hx as [|x xs Hx _ IH]; intros k; [done|]. cbn [fold_left]. by rewrite Hx, IH. Qed.

Lemma count_invisible {R B} `{Timed R} (F : Timestamp -> list R -> B) (ls : list (list R)) : Forall (key_increasing row_timestamp) ls ->
  apply_iter_limit (directed (mo_is_reverse o) (by_time F (map (apply_limit shard_limit) ls))) (ro_count (mo_range o)) =
  apply_iter_limit (directed (mo_is_reverse o) (by_time F ls)) (ro_count (mo_range o)).
Proof.
  clear Hgroup Hpush. intros Hl. unfold shard_limit. destruct enabled; [|cbn [apply_limit]; by rewrite map_id]. destruct (ro_count (mo_range o)) as [n|]; cbn [fmap option_fmap option_map apply_limit]; [|by rewrite map_id].
  cbn [apply_iter_limit]. by apply count_pushed.
Qed.

Definition sent (s : SelectedSeries) : MRangeSeriesResult := decoded (shard_result s).

Lemma sent_samples s : multi_aggregation o = None -> sample_iter (mr_data (sent s)) = apply_limit shard_limit (series_answer fuel (mo_range ro) s).
Proof. intros Hm. unfold sent, decoded, shard_result, shard_data. change (multi_aggregation ro) with (multi_aggregation o). by rewrite Hm. Qed.

Lemma sent_rows s a : multi_aggregation o = Some a ->
  series_rows_ascending fuel clock (sent s) final_options a = apply_limit shard_limit (series_answer_rows fuel (mo_range ro) a s).
Proof. intros Hm. unfold series_rows_ascending, sent, decoded, shard_result, shard_data. change (multi_aggregation ro) with (multi_aggregation o). by rewrite Hm. Qed.

Lemma merged_one (results : list MRangeSeriesResult) : Forall (key_increasing timestamp) (map (fun r => sample_iter (mr_data r)) results) ->
  match results with [r] => sample_iter (mr_data r) | _ => multi_series_iter (map (fun r => sample_iter (mr_data r)) results) end =
  multi_series_iter (map (fun r => sample_iter (mr_data r)) results).
Proof.
  intros Hr. destruct results as [|r [|r' results]]; [done| |done]. cbn [map] in *. apply Forall_cons in Hr as [Hr _].
  rewrite multi_series_iter_spec by (repeat constructor; by apply increasing_sorted). cbn [concat]. rewrite app_nil_r. symmetry. by apply sort_by_key_unique.
Qed.

Lemma process_group_spec g members label : mo_grouping o = Some g -> Forall (series_answerable fuel (mo_range ro)) members ->
  process_group fuel clock label (sort_with String.leb (map se_key members)) (map sent members) final_options g = group_result fuel ro g members label.
Proof.
  intros Hg Ha. destruct final_shape as (Hrev & Hc & _ & Hwl & _). unfold process_group, group_result. rewrite Hwl. change (with_labels ro) with (with_labels o). f_equal.
  unfold group_data. change (multi_aggregation ro) with (multi_aggregation o). destruct (multi_aggregation o) as [a|] eqn:Em.
  - rewrite (final_multi a Em). f_equal. rewrite map_map. rewrite (map_ext _ _ (fun s => sent_rows s a Em)).
    apply multi_aggregation_some in Em as [Hagg _].
    assert (Hi : Forall (key_increasing ms_timestamp) (map (series_answer_rows fuel (mo_range ro) a) members)).
    { apply Forall_map. eapply Forall_impl; [exact Ha|]. intros s Hs. exact (series_rows_increasing fuel (mo_range ro) a s Hagg Hs). }
    rewrite <- (map_map (series_answer_rows fuel (mo_range ro) a) (apply_limit shard_limit)).
    rewrite grouped_rows_spec.
    + rewrite collect_items_spec, Hrev, Hc. 
      exact (count_invisible (fun t rows => group_row (create_aggregator (grp_aggregation g)) (length (aggregations a)) (t, rows)) _ Hi).
    + rewrite Forall_map. eapply Forall_impl; [exact Hi|]. intros l. apply limit_increasing.
    + rewrite !Forall_map. eapply Forall_impl; [exact Ha|]. intros s Hs. apply limit_forall. exact (series_rows_width fuel (mo_range ro) a s Hagg Hs).
  - destruct (final_single Em) as [Hna Hnm]. rewrite Hnm, Hna. f_equal. rewrite process_plain by done. rewrite Hg. cbn zeta.
    assert (Hi : Forall (key_increasing timestamp) (map (series_answer fuel (mo_range ro)) members)).
    { apply Forall_map. eapply Forall_impl; [exact Ha|]. intros s Hs. exact (series_answer_increasing fuel (mo_range ro) s Hs). }
    assert (Hs : map (fun r => sample_iter (mr_data r)) (map sent members) = map (apply_limit shard_limit) (map (series_answer fuel (mo_range ro)) members)).
    { rewrite !map_map. apply map_ext. intros s. by apply sent_samples. }
    assert (Hl : Forall (key_increasing timestamp) (map (apply_limit shard_limit) (map (series_answer fuel (mo_range ro)) members))).
    { rewrite Forall_map. eapply Forall_impl; [exact Hi|]. intros l. apply limit_increasing. }
    rewrite merged_one by (by rewrite Hs). rewrite Hs.
    etrans; [|exact (count_invisible (fun t ss => mkSample t (group_value (create_aggregator (grp_aggregation g)) ss)) _ Hi)]. f_equal.
    destruct (mo_is_reverse o); cbn [directed].
    + rewrite grouped_descending. done.
    + rewrite reduce_iterator_spec, <- sample_reducer_spec by apply reducer_reset. by apply grouped_samples_spec.
Qed.

Lemma fanout_grouped g shards : mo_grouping o = Some g -> exclude_empty o = false -> Forall (series_answerable fuel (mo_range ro)) (concat shards) ->
  Forall (fun s => is_Some (grouping_label g s)) (concat shards) ->
  fanout_execute fuel clock enabled o sent_at shards = Ok (process_mrange_query fuel (concat shards) ro false None).
Proof.
  intros Hg He Ha Hl. unfold fanout_execute. change cmd with (mkMRangeFanoutCommand o [] [] (pushdown cmd) (pushdown_group cmd) (pushdown_count cmd)) at 1. rewrite ingest_spec.
  cbn [app]. unfold fanout_reply, process_responses. cbn [fo_options fo_series fo_group_partials pushdown pushdown_group pushdown_count]. fold reply_options. rewrite normalize_spec. cbn zeta.
  fold final_options. destruct final_shape as (_ & _ & -> & _). rewrite Hg. rewrite Hgroup.
  unfold handle_response_grouping. rewrite collected_spec, decode_results by done. change (mo_grouping reply_options) with (mo_grouping o). rewrite Hg, bool_decide_true by eauto.
  rewrite (grouped_query_spec fuel (concat shards) ro g Hg He Ha). f_equal. unfold shard_results. rewrite He. cbn [retain_nonempty]. rewrite map_map. change (fun s => decoded (shard_result s)) with sent.
  set (S := concat shards) in *. unfold construct_group_map. rewrite group_by_label_map.
  rewrite (group_by_label_ext _ (grouping_label g)).
  2: { eapply Forall_impl; [exact Hl|]. intros s [l E]. unfold sent, decoded, shard_result, result_label. cbn. rewrite Hg, E. done. }
  rewrite group_by_label_eq, !map_map. cbn [fst snd].
  rewrite (sort_with_map _ _ String.leb) by done. rewrite map_map. cbn [fst snd]. fold (sorted_labels (grouping_label g) S).
  rewrite (map_ext_in _ (fun l => group_result fuel ro g (with_label (grouping_label g) S l) l)).
  - unfold sort_mrange_results. rewrite (sort_with_map _ _ String.leb) by done. f_equal. apply sort_with_id.
    destruct (sorted_labels_spec (grouping_label g) S) as [Hs _]. eapply StronglySorted_weaken; [|exact Hs]. by intros x y [? _].
  - intros l _. rewrite map_map. cbn [mr_key sent decoded shard_result]. change (fun s => se_key s) with se_key. apply process_group_spec; [done|]. by apply Forall_list_filter.
Qed.

End Fanout.

(** ** Ordered maps as sorted lists

    Changing entries one by one leaves the keys in order, each once, and with every
    key what its changes make of a fresh value. *)

Section BTree.

Context {K V : Type} (compare : K -> K -> comparison).
Hypothesis compare_eq : forall x y, compare x y = Eq <-> x = y.
Hypothesis compare_opp : forall x y, compare y x = CompOpp (compare x y).
Hypothesis compare_trans : forall x y z, compare x y = Lt -> compare y z = Lt -> compare x z = Lt.

Definition key_lt (x y : K) : Prop := compare x y = Lt.

Lemma key_lt_irrefl x : ~ key_lt x x.
Proof. unfold key_lt. rewrite (proj2 (compare_eq x x) eq_refl). done. Qed.

(** One change. *)
Lemma btree_update_spec k (fresh : V) f m : StronglySorted key_lt (map fst m) ->
  let m' := btree_update compare k fresh f m in
  StronglySorted key_lt (map fst m') /\ (forall x, x ∈ map fst m' <-> x = k \/ x ∈ map fst m) /\
  (forall x v, (x, v) ∈ m' -> x <> k /\ (x, v) ∈ m \/ x = k /\ (k ∉ map fst m /\ v = f fresh \/ exists v0, (k, v0) ∈ m /\ v = f v0)).
Proof.
  induction m as [|[y w] m IH]; intros Hs; cbn [btree_update]; cbn zeta.
  { cbn. split_and!; [repeat constructor|intros x; rewrite list_elem_of_singleton; set_solver|]. intros x v [= -> ->]%list_elem_of_singleton. right. split; [done|]. left. split; [set_solver|done]. }
  cbn [map fst] in Hs. inversion Hs as [|? ? Hs' Hy]; subst. destruct (compare k y) eqn:E.
  - apply compare_eq in E as ->. cbn [map fst]. split_and!; [done|intros x; rewrite elem_of_cons; naive_solver|].
    intros x v [[= -> ->]|Hin]%elem_of_cons.
    + right. split; [done|]. right. exists w. split; [by left|done].
    + left. split; [|by right]. intros ->. rewrite Forall_forall in Hy. apply (key_lt_irrefl y), Hy. by apply (list_elem_of_fmap_2 fst _ (y, v)).
  - cbn [map fst]. split_and!.
    + constructor; [done|]. constructor; [done|]. eapply Forall_impl; [exact Hy|]. intros z. by apply compare_trans.
    + intros x. rewrite !elem_of_cons. naive_solver.
    + assert (k ∉ y :: map fst m) as Hk.
      { intros [->|Hin]%elem_of_cons; [by apply (key_lt_irrefl y)|]. rewrite Forall_forall in Hy. apply (key_lt_irrefl k). unfold key_lt in *. eapply compare_trans; [exact E|by apply Hy]. }
      intros x v [[= -> ->]|Hin]%elem_of_cons; [right; split; [done|]; by left|].
      left. split; [|done]. intros ->. apply Hk. by apply (list_elem_of_fmap_2 fst ((y, w) :: m) (k, v)).
  - destruct (IH Hs') as (H1 & H2 & H3). cbn [map fst]. split_and!.
    + constructor; [done|]. apply Forall_forall. intros z [->|Hz]%H2; [|rewrite Forall_forall in Hy; by apply Hy]. unfold key_lt. by rewrite compare_opp, E.
    + intros x. rewrite !elem_of_cons, H2. naive_solver.
    + assert (k <> y) as Hky by (intros ->; by rewrite (proj2 (compare_eq y y) eq_refl) in E).
      intros x v [[= -> ->]|Hin]%elem_of_cons; [left; split; [done|by left]|]. destruct (H3 x v Hin) as [[Hx Hm]|[-> [[Hn ->]|(v0 & Hv0 & ->)]]].
      * left. split; [done|by right].
      * right. split; [done|]. left. split; [|done]. intros [->|?]%elem_of_cons; done.
      * right. split; [done|]. right. exists v0. split; [by right|done].
Qed.

Context {P : Type} `{EqDecision K} (key : P -> K) (fresh : V) (f : P -> V -> V).

Definition changes (k : K) (ps : list P) : V := fold_left (fun v p => f p v) (List.filter (fun p => bool_decide (key p = k)) ps) fresh.

Lemma fold_btree ps : let m := fold_left (fun m p => btree_update compare (key p) fresh (f p) m) ps [] in
  StronglySorted key_lt (map fst m) /\ (forall k, k ∈ map fst m <-> exists p, p ∈ ps /\ key p = k) /\ Forall (fun e => e.2 = changes e.1 ps) m.
Proof.
  cbn zeta. induction ps as [|p ps (IH1 & IH2 & IH3)] using rev_ind.
  { cbn. split_and!; [constructor| |constructor]. intros k. split; [by intros ?%elem_of_nil|by intros (? & ?%elem_of_nil & _)]. }
  rewrite fold_left_app. cbn [fold_left]. set (m := fold_left _ ps []) in *. destruct (btree_update_spec (key p) fresh (f p) m IH1) as (H1 & H2 & H3).
  split_and!; [done| |].
  - intros k. rewrite H2, IH2. setoid_rewrite elem_of_app. setoid_rewrite list_elem_of_singleton. naive_solver.
  - apply Forall_forall. intros [x v] Hin. cbn [fst snd]. unfold changes. rewrite List.filter_app, fold_left_app. cbn [List.filter].
    rewrite Forall_forall in IH3. destruct (H3 x v Hin) as [[Hx Hm]|[-> [[Hn ->]|(v0 & Hv0 & ->)]]].
    + rewrite bool_decide_false by congruence. exact (IH3 _ Hm).
    + rewrite bool_decide_true by done. cbn [fold_left]. f_equal. rewrite filter_none; [done|]. apply Forall_forall. intros q Hq. apply bool_decide_eq_false.
      intros E. apply Hn, IH2. eauto.
    + rewrite bool_decide_true by done. cbn [fold_left]. f_equal. exact (IH3 _ Hv0).
Qed.

Lemma fold_btree_map ps : let m := fold_left (fun m p => btree_update compare (key p) fresh (f p) m) ps [] in m = map (fun k => (k, changes k ps)) (map fst m).
Proof.
  cbn zeta. destruct (fold_btree ps) as (_ & _ & Hf). set (m := fold_left _ ps []) in *. rewrite map_map. induction Hf as [|[k v] m' Hk _ IH]; [done|].
  cbn [map fst]. cbn in Hk. by rewrite <- Hk, <- IH.
Qed.

Lemma sorted_keys_unique (l1 l2 : list K) : StronglySorted key_lt l1 -> StronglySorted key_lt l2 -> (forall x, x ∈ l1 <-> x ∈ l2) -> l1 = l2.
Proof.
  intros Hs. revert l2. induction Hs as [|x l1 Hs IH Hx]; intros l2 Hs2 He.
  { destruct l2 as [|y l2]; [done|]. pose proof (proj2 (He y) ltac:(by left)) as Hy. by apply elem_of_nil in Hy. }
  destruct Hs2 as [|y l2 Hs2 Hy]; [pose proof (proj1 (He x) ltac:(by left)) as Hx'; by apply elem_of_nil in Hx'|].
  rewrite Forall_forall in Hx, Hy. assert (x = y) as ->.
  { pose proof (proj1 (He x) ltac:(by left)) as H1. pose proof (proj2 (He y) ltac:(by left)) as H2.
    apply elem_of_cons in H1 as [|H1]; [done|]. apply elem_of_cons in H2 as [|H2]; [done|]. exfalso. apply (key_lt_irrefl x). unfold key_lt in *. eapply compare_trans; [by apply Hx|by apply Hy]. }
  f_equal. apply IH; [done|]. intros z. specialize (He z). rewrite !elem_of_cons in He. split; intros Hz.
  - destruct (proj1 He (or_intror Hz)) as [->|]; [|done]. exfalso. by apply (key_lt_irrefl y), Hx.
  - destruct (proj2 He (or_intror Hz)) as [->|]; [|done]. exfalso. by apply (key_lt_irrefl y), Hy.
Qed.

End BTree.

(** ** Strings *)

Lemma string_compare_opp x y : String.compare y x = CompOpp (String.compare x y).
Proof. rewrite String.compare_antisym. done. Qed.

Lemma string_compare_eq x y : String.compare x y = Eq <-> x = y.
Proof. split; [apply String.compare_eq_iff|]. intros ->. pose proof (string_compare_opp y y) as E. by destruct (String.compare y y). Qed.

Lemma string_compare_lt x y : String.compare x y = Lt <-> string_lt x y.
Proof.
  unfold string_lt, String.leb. split.
  - intros E. rewrite E. split; [done|]. intros ->. by rewrite (proj2 (string_compare_eq y y) eq_refl) in E.
  - intros [H1 H2]. destruct (String.compare x y) eqn:E; [|done|done]. by apply string_compare_eq in E.
Qed.

Lemma string_compare_trans x y z : String.compare x y = Lt -> String.compare y z = Lt -> String.compare x z = Lt.
Proof.
  rewrite !string_compare_lt. intros [H1 H2] [H3 H4]. split; [by eapply string_leb_trans|]. intros ->. apply H4. by apply String.leb_antisym.
Qed.

Lemma string_sorted (l : list string) : StronglySorted string_lt l <-> StronglySorted (key_lt String.compare) l.
Proof. split; apply StronglySorted_weaken; intros x y; apply string_compare_lt. Qed.

(** Inserting into a set. *)
Lemma insert_all_spec keys : forall s, StronglySorted (key_lt String.compare) s ->
  let s' := fold_left (fun s key => btree_insert key s) keys s in
  StronglySorted (key_lt String.compare) s' /\ (forall x, x ∈ s' <-> x ∈ s \/ x ∈ keys).
Proof.
  induction keys as [|k keys IH]; intros s Hs; cbn [fold_left]; [split; [done|set_solver]|].
  assert (Hfst : map fst (map (fun k => (k, tt)) s) = s) by (rewrite map_map; apply map_id).
  destruct (btree_update_spec String.compare string_compare_eq string_compare_opp string_compare_trans k tt (fun v => v) (map (fun k => (k, tt)) s)) as (H1 & H2 & _); [by rewrite Hfst|].
  rewrite Hfst in H2. destruct (IH (btree_insert k s) H1) as [H3 H4]. split; [done|]. intros x. rewrite H4. unfold btree_insert. rewrite H2, elem_of_cons. naive_solver.
Qed.

(** ** Timestamps *)

Lemma z_compare_opp x y : Z.compare y x = CompOpp (Z.compare x y).
Proof. apply Z.compare_antisym. Qed.

Lemma z_compare_trans x y z : Z.compare x y = Lt -> Z.compare y z = Lt -> Z.compare x z = Lt.
Proof. rewrite !Z.compare_lt_iff. lia. Qed.
