(* ===== verification/FanoutPartials.v ===== *)
(** * FanoutPartials: groups reduced on the shards

    Each shard reduces its part of a group to states; the coordinator merges them by
    timestamp.  The merged state of a timestamp stands for the samples of the whole
    group, whatever COUNT cut off before the merge. *)

From stdpp Require Import strings list sets.
From S2P Require Import Prelude Float64 Types Content Slice Elf64 Log10Ref ChunkOps TimeSeriesChunk SeriesIterator Rounding TimeSeries SeriesLaws SeriesReads SeriesWrites.
From S2P Require Import TimestampRange TimestampFilter Aggregators AggregateIterator AggregateLaws AggregateColumns AggregateProps RangeQuery RangeLaws RangeProps.
From S2P Require Import MultiSeries MultiLaws PivotLaws PartialReducer PartialLaws MRange AnswerLaws MRangeLaws FanoutCodec CodecLaws MRangeFanout FanoutLaws.

(** ** Merging states *)

#[export] Instance state_timed : Timed (Timestamp * PartialState) := fst.

Lemma merge_default kind s : partial_merge kind s ps_default = s.
Proof. done. Qed.

Lemma merge_states_skip kind (sss : list (list PartialState)) :
  Forall (fun ss => length ss <= 1)%nat sss ->
  merge_states kind (concat sss) = merge_states kind (map (fun ss => default ps_default (head ss)) sss).
Proof.
  unfold merge_states. generalize ps_default at 1 3. intros acc Hs. revert acc. induction Hs as [|ss sss Hlen _ IH]; intros acc; [done|].
  destruct ss as [|s [|s' ss]]; [exact (IH acc)|exact (IH (partial_merge kind acc s))|cbn in Hlen; lia].
Qed.

(** The buckets of one column, from the rows of the shards in order. *)
Definition one_column (p : Timestamp * PartialState) : Timestamp * list PartialState := (p.1, [p.2]).

Lemma merge_rows_spec kind (streams : list (list (Timestamp * PartialState))) :
  fold_left (merge_row kind 1) (map one_column (concat streams)) [] =
  by_time (fun t rows => (t, [merge_states kind (map snd rows)])) streams.
Proof.
  set (rows := concat streams).
  set (f := fun (p : Timestamp * list PartialState) merged => zip_with (partial_merge kind) merged p.2).
  assert (Hfold : forall X m, fold_left (merge_row kind 1) X m = fold_left (fun m p => btree_update Z.compare p.1 [ps_default] (f p) m) X m) by done.
  rewrite Hfold. destruct (fold_btree Z.compare Z.compare_eq_iff z_compare_opp z_compare_trans fst [ps_default] f (map one_column rows)) as (H1 & H2 & _).
  pose proof (fold_btree_map Z.compare Z.compare_eq_iff z_compare_opp z_compare_trans fst [ps_default] f (map one_column rows)) as Hmap. cbn zeta in *.
  set (m := fold_left _ (map one_column rows) []) in *. rewrite Hmap. unfold by_time. fold rows.
  assert (map fst m = times streams) as ->.
  { apply sorted_ext; [|apply times_sorted|].
    - eapply StronglySorted_weaken; [|exact H1]. intros x y. unfold key_lt. apply Z.compare_lt_iff.
    - intros t. rewrite H2. destruct (distinct_spec (map row_timestamp (concat streams))) as [_ Hd]. unfold times. rewrite Hd. fold rows.
      change (map ?h rows) with (h <$> rows). setoid_rewrite list_elem_of_fmap. split.
      + intros (p & (q & -> & Hq) & <-). by exists q.
      + intros (q & -> & Hq). exists (one_column q). split; [by exists q|done]. }
  apply map_ext. intros t. f_equal. unfold changes, at_ts, merge_states. generalize ps_default at 1 2. clear. induction rows as [|[u s] rows IH]; intros acc; [done|].
  cbn [map List.filter fst]. unfold row_timestamp, state_timed. cbn [fst one_column]. destruct (Z.eqb_spec u t) as [->|Hne].
  - rewrite bool_decide_true by done. cbn [fold_left map snd]. unfold f at 2. cbn [snd one_column zip_with]. apply IH.
  - rewrite bool_decide_false by done. apply IH.
Qed.

Lemma chunks_one {A} (l : list A) : chunks_exact (length l / 1) 1 l = map (fun x => [x]) l.
Proof. rewrite Nat.div_1_r. induction l as [|x l IH]; [done|]. cbn. by rewrite drop_0, IH. Qed.

Lemma zip_rows (rows : list (Timestamp * PartialState)) : zip (map fst rows) (chunks_exact (length (map snd rows) / 1) 1 (map snd rows)) = map one_column rows.
Proof. rewrite chunks_one. induction rows as [|[t s] rows IH]; [done|]. cbn. by rewrite IH. Qed.

(** At most one row of a reduced stream has a timestamp. *)
Lemma at_ts_by_time {R} `{Timed R} (G : list R -> PartialState) t (ls : list (list R)) :
  at_ts t (by_time (fun t ss => (t, G ss)) ls) = if bool_decide (t ∈ times ls) then [(t, G (at_ts t (concat ls)))] else [].
Proof.
  unfold by_time. pose proof (times_sorted ls) as Hs. generalize (times ls) as T, Hs. clear. intros T Hs. induction Hs as [|x T Hs IH Hx]; [done|].
  unfold at_ts in *. cbn [map List.filter]. change (row_timestamp (x, ?s)) with x. destruct (Z.eqb_spec x t) as [->|Hne].
  - rewrite bool_decide_true by (by left). rewrite IH, bool_decide_false; [done|]. intros Hin. rewrite Forall_forall in Hx. specialize (Hx t Hin). lia.
  - rewrite IH. rewrite (bool_decide_ext (t ∈ x :: T) (t ∈ T)); [done|]. rewrite elem_of_cons. split; [by intros [->|?]|by right].
Qed.

Lemma by_time_increasing {R} `{Timed R} (G : list R -> PartialState) (ls : list (list R)) : key_increasing row_timestamp (by_time (fun t ss => (t, G ss)) ls).
Proof.
  unfold by_time, key_increasing. induction (times_sorted ls) as [|x T Hs IH Hx]; cbn; constructor; [done|]. apply Forall_map. done.
Qed.

Lemma at_ts_absent {R} `{Timed R} t (ls : list (list R)) : t ∉ times ls -> at_ts t (concat ls) = [].
Proof.
  intros Hn. apply filter_none, Forall_forall. intros r Hr. apply Z.eqb_neq. intros <-. apply Hn, times_in.
  apply list_elem_of_In, in_concat in Hr as (l & Hl & Hr). exists l, r. rewrite <- !list_elem_of_In in *. done.
Qed.

Section Partials.

Context `{Log10} `{ServerConfig}.
Context `{MinMaxHeap (Entry Sample)} `{!MinMaxHeapLaws (Entry Sample) entry_cmp} `{MinMaxHeap (Entry MultiSample)} `{!MinMaxHeapLaws (Entry MultiSample) entry_cmp}.

Context (fuel : nat) (clock : string -> Reading) (o : MRangeOptions) (sent_at : Reading) (g : RangeGroupingOptions) (r : PartialReducer).

Hypothesis Hfit : request_fits o.
Hypothesis Hg : mo_grouping o = Some g.
Hypothesis Hr : for_config (grp_aggregation g) = Some r.
Hypothesis Hm : multi_aggregation o = None.

Abbreviation ro := (resolved o sent_at).
Abbreviation cmd := (fanout_new true o).
Abbreviation req := (generate_request cmd sent_at).
Abbreviation lim := (shard_limit true o).

(** ** A shard *)

Definition shard_members (shard : list SelectedSeries) (l : string) : list SelectedSeries := with_label (grouping_label g) shard l.
Definition shard_answers (shard : list SelectedSeries) (l : string) : list (list Sample) := map (series_answer fuel (mo_range ro)) (shard_members shard l).

Definition shard_rows (shard : list SelectedSeries) (l : string) : list (Timestamp * PartialState) :=
  by_time (fun t ss => (t, pr_state (partial_feed r ss))) (shard_answers shard l).

Definition shard_partial (shard : list SelectedSeries) (l : string) : GroupPartialsResult :=
  let rows := apply_limit lim (shard_rows shard l) in
  mkGroupPartialsResult l (sort_with String.leb (map se_key (shard_members shard l))) (map fst rows) (map snd rows) 1.

Definition shard_partials (shard : list SelectedSeries) : list GroupPartialsResult := map (shard_partial shard) (labels_of (grouping_label g) shard).

Lemma group_pushed : pushdown_group cmd = true.
Proof. cbn. rewrite Hg, Hr. by rewrite bool_decide_true by eauto. Qed.

Lemma shard_partials_spec shard : Forall (series_answerable fuel (mo_range ro)) shard ->
  get_local_response fuel shard req = Ok (mkMultiRangeResponse [] (shard_partials shard) true true (apply_count req) [] []).
Proof.
  intros Ha. unfold get_local_response. rewrite (request_arrives true o sent_at Hfit), (limit_sent true o sent_at (or_intror eq_refl)). cbn zeta.
  assert (apply_group_reduce req = true) as -> by exact group_pushed. change (mo_grouping ro) with (mo_grouping o). rewrite Hg, bool_decide_true by eauto. cbn [andb].
  unfold process_mrange_group_partials. cbn [mo_grouping mo_range]. rewrite Hr. f_equal. f_equal. rewrite collect_meta, group_series_spec, map_map. apply map_ext. intros l.
  cbn [fst snd gd_series gd_labels source_keys]. change (multi_aggregation (mkMRangeOptions _ _ _ _ _ _)) with (multi_aggregation o). rewrite Hm. rewrite map_map.
  unfold shard_partial. change (map (fun s => create_range_iterator _ _ _ _ _ _ _) ?x) with (map (series_answer fuel (mo_range ro)) x).
  assert (Hi : Forall (key_increasing timestamp) (shard_answers shard l)).
  { apply Forall_map, Forall_list_filter. eapply Forall_impl; [exact Ha|]. intros s Hs. exact (series_answer_increasing fuel (mo_range ro) s Hs). }
  rewrite partial_sample_reducer_spec by (by eapply for_config_state). fold (shard_members shard l). fold (shard_answers shard l).
  rewrite merged_runs by (eapply Forall_impl; [exact Hi|]; intros k; apply increasing_sorted). rewrite map_map. reflexivity.
Qed.

Definition all_partials (shards : list (list SelectedSeries)) : list GroupPartialsResult := concat (map shard_partials shards).

Lemma ingest_partials shards : Forall (series_answerable fuel (mo_range ro)) (concat shards) -> forall ps,
  ingest_all fuel (mkMRangeFanoutCommand o [] ps (pushdown cmd) (pushdown_group cmd) (pushdown_count cmd)) req shards =
  Ok (mkMRangeFanoutCommand o [] (ps ++ all_partials shards) (pushdown cmd) (pushdown_group cmd) (pushdown_count cmd)).
Proof.
  induction shards as [|shard shards IH]; intros Ha ps; cbn [ingest_all]; [by rewrite app_nil_r|]. cbn [concat] in Ha. apply Forall_app in Ha as [Hs Ha].
  rewrite shard_partials_spec by done. unfold ingest_response. cbn [rs_series rs_group_partials resolve_labels try_map symbol_table_names symbol_table_values applied_aggregation].
  cbn [fo_options fo_series fo_group_partials pushdown pushdown_group pushdown_count map app]. rewrite IH by done. do 2 f_equal. unfold all_partials. cbn [map concat]. by rewrite app_assoc.
Qed.

(** ** The merge *)

Lemma merge_partials_fold kind ps : Forall (fun p => column_count p = 1%nat /\ length (gp_states p) = length (bucket_timestamps p)) ps -> forall m,
  merge_partials kind 1 ps m = Ok (fold_left (fun m p => btree_update String.compare (gp_label p) ([], []) (merge_partial kind 1 p) m) ps m).
Proof.
  induction 1 as [|p ps [Hc Hlen] _ IH]; intros m; [done|]. cbn [merge_partials fold_left].
  rewrite bool_decide_false by (by intros ?). rewrite bool_decide_false by (rewrite Nat.mul_1_r; by intros ?). cbn [orb]. apply IH.
Qed.

Lemma partials_valid shards : Forall (fun p => column_count p = 1%nat /\ length (gp_states p) = length (bucket_timestamps p)) (all_partials shards).
Proof. apply Forall_concat, Forall_map, Forall_true. intros shard. apply Forall_map, Forall_true. intros l. cbn. by rewrite !length_map. Qed.

Lemma labelled_partials shards l : List.filter (fun p => bool_decide (gp_label p = l)) (all_partials shards) =
  concat (map (fun shard => if bool_decide (l ∈ labels_of (grouping_label g) shard) then [shard_partial shard l] else []) shards).
Proof.
  unfold all_partials. induction shards as [|shard shards IH]; [done|]. cbn [map concat]. rewrite List.filter_app, IH. f_equal. unfold shard_partials.
  destruct (group_by_label_spec (grouping_label g) shard) as (Hnd & _ & _). fold (labels_of (grouping_label g) shard) in Hnd.
  induction Hnd as [|x ls Hx Hnd IHn]; [done|]. cbn [map List.filter]. change (gp_label (shard_partial shard x)) with x. destruct (decide (x = l)) as [->|Hne].
  - rewrite bool_decide_true by done. rewrite IHn, bool_decide_false by done. by rewrite bool_decide_true by (by left).
  - rewrite (bool_decide_false (x = l)) by done. rewrite IHn. rewrite (bool_decide_ext (l ∈ x :: ls) (l ∈ ls)); [done|]. rewrite elem_of_cons. naive_solver.
Qed.

Lemma absent_label shard l : l ∉ labels_of (grouping_label g) shard -> shard_members shard l = [].
Proof.
  intros Hn. apply with_label_none. intros s Hs E. apply Hn. destruct (group_by_label_spec (grouping_label g) shard) as (_ & _ & He). apply He. eauto.
Qed.

Definition streams (shards : list (list SelectedSeries)) (l : string) : list (list (Timestamp * PartialState)) := map (fun shard => shard_rows shard l) shards.

(** What the coordinator holds of a group. *)
Definition merged_group (shards : list (list SelectedSeries)) (l : string) : MergedGroup :=
  (by_time (fun t rows => (t, [merge_states (pr_kind r) (map snd rows)])) (map (apply_limit lim) (streams shards l)),
   fold_left (fun s key => btree_insert key s) (concat (map (fun shard => sort_with String.leb (map se_key (shard_members shard l))) shards)) []).

Lemma merge_partial_limited v shard l : merge_partial (pr_kind r) 1 (shard_partial shard l) v =
  (fold_left (merge_row (pr_kind r) 1) (map one_column (apply_limit lim (shard_rows shard l))) v.1,
   fold_left (fun s key => btree_insert key s) (sort_with String.leb (map se_key (shard_members shard l))) v.2).
Proof. unfold merge_partial, shard_partial. cbn [bucket_timestamps gp_states gp_sources]. by rewrite zip_rows. Qed.

Lemma merge_absent v shard l : l ∉ labels_of (grouping_label g) shard -> merge_partial (pr_kind r) 1 (shard_partial shard l) v = v.
Proof.
  intros Hn. rewrite merge_partial_limited. unfold shard_rows, shard_answers. rewrite (absent_label shard l Hn).
  change (by_time _ (map _ [])) with (@nil (Timestamp * PartialState)).
  assert (apply_limit lim (@nil (Timestamp * PartialState)) = []) as ->; [|by destruct v].
  destruct lim as [[n|n]|]; cbn [apply_limit limit_apply]; [apply take_nil|rewrite tail_iter_spec; apply drop_nil|done].
Qed.

Lemma group_changes shards l : changes gp_label ([], []) (merge_partial (pr_kind r) 1) l (all_partials shards) = merged_group shards l.
Proof.
  unfold changes. rewrite labelled_partials.
  assert (Hskip : forall v, fold_left (fun v p => merge_partial (pr_kind r) 1 p v)
      (concat (map (fun shard => if bool_decide (l ∈ labels_of (grouping_label g) shard) then [shard_partial shard l] else []) shards)) v =
    fold_left (fun v shard => merge_partial (pr_kind r) 1 (shard_partial shard l) v) shards v).
  { induction shards as [|shard shards IH]; intros v; [done|]. cbn [map concat fold_left]. rewrite fold_left_app. case_bool_decide as Hin; cbn [fold_left]; rewrite IH; [done|]. by rewrite merge_absent. }
  rewrite Hskip. unfold merged_group. rewrite <- merge_rows_spec.
  assert (Hfold : forall b s, fold_left (fun v shard => merge_partial (pr_kind r) 1 (shard_partial shard l) v) shards (b, s) =
    (fold_left (merge_row (pr_kind r) 1) (map one_column (concat (map (apply_limit lim) (streams shards l)))) b,
     fold_left (fun s key => btree_insert key s) (concat (map (fun shard => sort_with String.leb (map se_key (shard_members shard l))) shards)) s)).
  { clear Hskip. induction shards as [|shard shards IH]; intros b s; [done|]. cbn [fold_left streams map concat]. rewrite merge_partial_limited, IH. cbn [fst snd].
    rewrite map_app, !fold_left_app. done. }
  apply Hfold.
Qed.

Lemma group_labels shards : map fst (fold_left (fun m p => btree_update String.compare (gp_label p) ([], []) (merge_partial (pr_kind r) 1 p) m) (all_partials shards) []) =
  sorted_labels (grouping_label g) (concat shards).
Proof.
  destruct (fold_btree String.compare string_compare_eq string_compare_opp string_compare_trans gp_label ([], []) (merge_partial (pr_kind r) 1) (all_partials shards)) as (Hk1 & Hk2 & _).
  destruct (sorted_labels_spec (grouping_label g) (concat shards)) as [Hk3 Hk4]. apply string_sorted in Hk3.
  apply (sorted_keys_unique String.compare string_compare_eq string_compare_trans); [done|done|]. intros l. rewrite Hk2, Hk4. unfold all_partials. setoid_rewrite list_elem_of_In. setoid_rewrite in_concat. split.
  - intros (p & (ps & Hps & Hp) & <-). apply in_map_iff in Hps as (shard & <- & Hs). apply in_map_iff in Hp as (l & <- & Hl). cbn [gp_label shard_partial].
    destruct (group_by_label_spec (grouping_label g) shard) as (_ & _ & He). apply list_elem_of_In, He in Hl as (s & Hin & E). exists s. split; [|done]. exists shard. split; [done|by apply list_elem_of_In].
  - intros (s & (shard & Hs & Hin) & E). exists (shard_partial shard l). split; [|done]. exists (shard_partials shard). split; [by apply in_map|]. apply in_map.
    destruct (group_by_label_spec (grouping_label g) shard) as (_ & _ & He). apply list_elem_of_In, He. exists s. by rewrite list_elem_of_In.
Qed.

(** ** The reply *)

Definition finished (shards : list (list SelectedSeries)) (l : string) : MRangeSeriesResult := finish_group (pr_kind r) (final_options true o) g l (merged_group shards l).

Lemma fanout_partials_spec shards : Forall (series_answerable fuel (mo_range ro)) (concat shards) ->
  fanout_execute fuel clock true o sent_at shards = Ok (map (finished shards) (sorted_labels (grouping_label g) (concat shards))).
Proof.
  intros Ha. unfold fanout_execute. change cmd with (mkMRangeFanoutCommand o [] [] (pushdown cmd) (pushdown_group cmd) (pushdown_count cmd)) at 1. rewrite ingest_partials by done.
  cbn [app]. unfold fanout_reply, process_responses. cbn [fo_options fo_series fo_group_partials pushdown pushdown_group pushdown_count]. fold (reply_options o).
  assert (normalize_response_series fuel clock [] (reply_options o) (pushdown cmd) = Ok []) as -> by (unfold normalize_response_series; by destruct (negb _)). cbn zeta.
  fold (final_options true o). destruct (final_shape true o) as (_ & _ & -> & _). rewrite Hg, group_pushed. unfold compensate_group_partials. rewrite bool_decide_true by done. rewrite app_nil_r.
  unfold handle_group_partials. rewrite Hr. assert (partial_columns (final_options true o) = 1%nat) as -> by (unfold partial_columns; by rewrite (proj2 (final_single true o (or_intror eq_refl) Hm))).
  rewrite merge_partials_fold by apply partials_valid.
  rewrite (fold_btree_map String.compare string_compare_eq string_compare_opp string_compare_trans gp_label ([], []) (merge_partial (pr_kind r) 1) (all_partials shards)), group_labels.
  rewrite map_map. cbn [fst snd]. change (mo_grouping (reply_options o)) with (mo_grouping o). rewrite Hg, bool_decide_true by eauto. f_equal.
  rewrite (map_ext _ (finished shards)) by (intros l; unfold finished; by rewrite group_changes).
  unfold sort_mrange_results. rewrite (sort_with_map _ _ String.leb) by done. f_equal. apply sort_with_id.
  destruct (sorted_labels_spec (grouping_label g) (concat shards)) as [Hs _]. eapply StronglySorted_weaken; [|exact Hs]. by intros x y [? _].
Qed.

(** *** One group *)

Definition members (shards : list (list SelectedSeries)) (l : string) : list SelectedSeries := with_label (grouping_label g) (concat shards) l.

Lemma members_concat shards l : concat (map (fun shard => shard_members shard l) shards) = members shards l.
Proof. unfold members, shard_members, with_label. induction shards as [|shard shards IH]; [done|]. cbn. by rewrite List.filter_app, IH. Qed.

Lemma answers_concat shards l : concat (map (fun shard => shard_answers shard l) shards) = map (series_answer fuel (mo_range ro)) (members shards l).
Proof. rewrite <- members_concat. induction shards as [|shard shards IH]; [done|]. cbn. by rewrite IH, map_app. Qed.

(** The samples of the group at a timestamp, shard by shard. *)
Lemma group_samples_at t shards l : concat (map (fun shard => at_ts t (concat (shard_answers shard l))) shards) =
  at_ts t (concat (map (series_answer fuel (mo_range ro)) (members shards l))).
Proof.
  rewrite <- answers_concat. induction shards as [|shard shards IH]; [done|]. cbn [map concat]. rewrite IH, concat_app. unfold at_ts. by rewrite List.filter_app.
Qed.

Lemma merged_state t shards l : merge_states (pr_kind r) (map snd (at_ts t (concat (streams shards l)))) =
  merge_states (pr_kind r) (map (fun ss => pr_state (partial_feed r ss)) (map (fun shard => at_ts t (concat (shard_answers shard l))) shards)).
Proof.
  assert (Hst : pr_state r = ps_default) by (by eapply for_config_state).
  rewrite at_ts_concat. unfold streams. rewrite concat_map, !map_map. rewrite merge_states_skip.
  - rewrite map_map. f_equal. apply map_ext. intros shard. unfold shard_rows. rewrite (at_ts_by_time (fun ss => pr_state (partial_feed r ss))). case_bool_decide as Hin; [done|].
    rewrite at_ts_absent by done. cbn. by rewrite Hst.
  - apply Forall_map, Forall_true. intros shard. unfold shard_rows. rewrite (at_ts_by_time (fun ss => pr_state (partial_feed r ss))). case_bool_decide; cbn; lia.
Qed.

Lemma stream_times shards l : times (streams shards l) = times (map (series_answer fuel (mo_range ro)) (members shards l)).
Proof.
  apply sorted_ext; [apply times_sorted..|]. intros t. rewrite <- answers_concat, !times_in. split.
  - intros (k & p & Hk & Hp & <-). apply list_elem_of_fmap in Hk as (shard & -> & Hs). apply list_elem_of_fmap in Hp as (u & -> & Hu). cbn [row_timestamp state_timed fst].
    change (row_timestamp (u, ?x)) with u. apply times_in in Hu as (a & s & Ha & Hs' & <-). exists a, s. split_and!; [|done|done]. apply list_elem_of_In, in_concat. exists (shard_answers shard l).
    split; [apply in_map_iff; exists shard; split; [done|by apply list_elem_of_In]|by apply list_elem_of_In].
  - intros (a & s & Ha & Hs & <-). apply list_elem_of_In, in_concat in Ha as (as_ & Has & Ha). apply in_map_iff in Has as (shard & <- & Hsh).
    exists (shard_rows shard l), (row_timestamp s, pr_state (partial_feed r (at_ts (row_timestamp s) (concat (shard_answers shard l))))). split_and!; [|..|done].
    + apply list_elem_of_fmap. exists shard. split; [done|by apply list_elem_of_In].
    + apply list_elem_of_fmap. exists (row_timestamp s). split; [done|]. apply times_in. exists a, s. split_and!; [by apply list_elem_of_In|done|done].
Qed.

(** Two samples at one timestamp that both reduce the same samples. *)
Definition agree (c : AggregatorConfig) (samples_at : Timestamp -> list Sample) (x y : Sample) : Prop :=
  timestamp x = timestamp y /\ reduces c (samples_at (timestamp x)) (value x) /\ reduces c (samples_at (timestamp x)) (value y).

Lemma finished_data shards l : mr_data (finished shards l) = DataChunk (apply_iter_limit (directed (mo_is_reverse o)
  (map (fun t => mkSample t (partial_finalize (pr_kind r) (merge_states (pr_kind r) (map snd (at_ts t (concat (streams shards l)))))))
     (times (map (series_answer fuel (mo_range ro)) (members shards l))))) (ro_count (mo_range o))).
Proof.
  unfold finished, finish_group. destruct (final_shape true o) as (Hrev & Hc & _). rewrite (proj2 (final_single true o (or_intror eq_refl) Hm)). cbn [mr_data]. rewrite Hrev, Hc. f_equal.
  unfold merged_group. cbn [fst]. rewrite <- stream_times.
  assert (Hi : Forall (key_increasing row_timestamp) (streams shards l)) by (apply Forall_map, Forall_true; intros shard; apply by_time_increasing).
  etrans; [|exact (count_invisible true o (fun t rows => mkSample t (partial_finalize (pr_kind r) (merge_states (pr_kind r) (map snd rows)))) _ Hi)].
  unfold by_time. rewrite map_map. cbn [head default]. destruct (mo_is_reverse o), (ro_count (mo_range o)); done.
Qed.

Lemma sources_sorted shards l : NoDup (map se_key (concat shards)) -> (merged_group shards l).2 = sort_with String.leb (map se_key (members shards l)).
Proof.
  intros Hnd. unfold merged_group. cbn [snd]. destruct (insert_all_spec (concat (map (fun shard => sort_with String.leb (map se_key (shard_members shard l))) shards)) []) as [Hs He]; [constructor|].
  apply (sorted_keys_unique String.compare string_compare_eq string_compare_trans); [done| |].
  - apply string_sorted, sort_labels_lt. unfold members. revert Hnd. generalize (concat shards) as S. intros S. induction S as [|s S IH]; [done|]. cbn [map with_label List.filter]. intros [Hn Hnd]%NoDup_cons.
    unfold with_label. cbn [List.filter]. case_bool_decide; [|by apply IH]. cbn [map]. apply NoDup_cons. split; [|by apply IH]. intros (x & E & [Hx _]%list_elem_of_In%filter_In)%list_elem_of_fmap.
    apply Hn. rewrite E. apply list_elem_of_fmap_2. by apply list_elem_of_In.
  - intros k. rewrite He, (sort_with_perm String.leb), <- members_concat. split.
    + intros [?%elem_of_nil|(ks & Hk & Hks)%list_elem_of_In%in_concat]; [done|]. apply in_map_iff in Hk as (shard & <- & Hsh). apply list_elem_of_In in Hks. rewrite (sort_with_perm String.leb) in Hks.
      rewrite concat_map, map_map. apply list_elem_of_In, in_concat. exists (map se_key (shard_members shard l)). split; [apply in_map_iff; by exists shard|by apply list_elem_of_In].
    + rewrite concat_map, map_map. intros (ks & Hk & Hks)%list_elem_of_In%in_concat. apply in_map_iff in Hk as (shard & <- & Hsh). right. apply list_elem_of_In, in_concat.
      exists (sort_with String.leb (map se_key (shard_members shard l))). split; [apply in_map_iff; by exists shard|]. apply list_elem_of_In. rewrite (sort_with_perm String.leb). by apply list_elem_of_In.
Qed.

Lemma finished_agrees shards l : exact_reducer (grp_aggregation g) = true -> Forall (fun s => Forall sample_valid (series_answer fuel (mo_range ro) s)) (concat shards) ->
  NoDup (map se_key (concat shards)) ->
  let single := group_result fuel ro g (members shards l) l in
  (mr_key (finished shards l), mr_group_label_value (finished shards l), mr_labels (finished shards l), mr_sources (finished shards l)) =
  (mr_key single, mr_group_label_value single, mr_labels single, mr_sources single) /\
  exists xs ys, mr_data (finished shards l) = DataChunk xs /\ mr_data single = DataChunk ys /\
    Forall2 (agree (grp_aggregation g) (fun t => at_ts t (concat (map (series_answer fuel (mo_range ro)) (members shards l))))) xs ys.
Proof.
  intros Hex Hv Hnd single. split.
  { unfold single, group_result, finished, finish_group. cbn [mr_key mr_group_label_value mr_labels mr_sources]. rewrite (sources_sorted shards l Hnd).
    destruct (final_shape true o) as (_ & _ & _ & -> & _). done. }
  rewrite finished_data. unfold single, group_result, group_data. cbn [mr_data]. change (multi_aggregation ro) with (multi_aggregation o). rewrite Hm. do 2 eexists. split; [done|]. split; [done|].
  unfold grouped_samples. change (mo_is_reverse ro) with (mo_is_reverse o). change (ro_count (mo_range ro)) with (ro_count (mo_range o)). rewrite !directed_map, !apply_iter_limit_map.
  apply Forall2_fmap, Forall_Forall2_diag, Forall_forall. intros t _. split; [done|]. cbn [timestamp value].
  assert (Hvm : Forall (Forall sample_valid) (map (series_answer fuel (mo_range ro)) (members shards l))) by (apply Forall_map; by apply Forall_list_filter).
  assert (Hva : Forall sample_valid (at_ts t (concat (map (series_answer fuel (mo_range ro)) (members shards l))))) by (by apply Forall_list_filter, Forall_concat).
  split; [|by apply group_value_reduces]. eapply (finalize_reduces _ r t); [done|done|done|]. rewrite merged_state. rewrite <- group_samples_at. apply (merge_states_summarises (grp_aggregation g)); [done|done| |].
  - apply Forall_map. rewrite <- answers_concat in Hvm. apply (proj1 (Forall_concat (Forall sample_valid) _)) in Hvm. rewrite Forall_map in Hvm. eapply Forall_impl; [exact Hvm|]. intros shard Hs. by apply Forall_list_filter, Forall_concat.
  - apply Forall_map, Forall_true. intros shard. apply Forall_forall. intros s [_ Hs]%list_elem_of_In%filter_In. by apply Z.eqb_eq in Hs.
Qed.

End Partials.
