(* ===== verification/MRangeProps.v ===== *)
(** * MRangeProps: the properties of queries over several series

    A query over several series is a function of the answers of each: groups,
    pivots and merges on one node, and the same results from a cluster, except
    where the messages lose part of the request. *)

From stdpp Require Import strings list sets.
From S2P Require Import Prelude Float64 Types Content Slice Elf64 Log10Ref ChunkOps TimeSeriesChunk SeriesIterator Rounding TimeSeries SeriesLaws SeriesReads SeriesProps SeriesWrites.
From S2P Require Import TimestampRange TimestampFilter Aggregators AggregateIterator AggregateLaws AggregateColumns AggregateProps RangeQuery RangeLaws RangeProps.
From S2P Require Import MultiSeries MultiLaws PivotLaws PartialReducer PartialLaws MRange AnswerLaws MRangeLaws FanoutCodec CodecLaws MRangeFanout FanoutLaws FanoutPartials.

Section Props.

Context `{Log10} `{ServerConfig}.
Context `{MinMaxHeap (Entry Sample)} `{!MinMaxHeapLaws (Entry Sample) entry_cmp} `{MinMaxHeap (Entry MultiSample)} `{!MinMaxHeapLaws (Entry MultiSample) entry_cmp}.

(** C17. The k-way merge of streams in time order, over any min-max heap, is the
    stable sort of their items: at one timestamp the streams keep their order. *)
Theorem merge_stable (ls : list (list Sample)) :
  Forall rows_sorted ls -> multi_series_iter ls = sort_by_key timestamp (concat ls).
Proof. apply multi_series_iter_spec. Qed.

(** C15. A query with GROUPBY has one result for each value of the label, in order;
    at each timestamp of a group's answers it reports the reducer over the items of
    all its series there, column by column with several aggregators; direction and
    COUNT act on the reduced stream; series without the label are left out. *)
Theorem grouped_query_exact (fuel : nat) (selected : list SelectedSeries) (o : MRangeOptions) (g : RangeGroupingOptions) :
  mo_grouping o = Some g -> exclude_empty o = false -> Forall (series_answerable fuel (mo_range o)) selected ->
  let labels := sorted_labels (grouping_label g) selected in
  process_mrange_query fuel selected o false None =
    map (fun l => group_result fuel o g (with_label (grouping_label g) selected l) l) labels /\
  StronglySorted string_lt labels /\ (forall l, l ∈ labels <-> exists s, s ∈ selected /\ grouping_label g s = Some l).
Proof. intros Hg He Ha labels. split; [by apply grouped_query_spec|]. apply sorted_labels_spec. Qed.

(** C16. NRANGE is the outer join of the answers of its keys: one row for each
    timestamp of any of them, in order, with the values of each key in its columns
    and NaN where it has none; direction and COUNT act on the joined rows. *)
Theorem nrange_pivot_exact (fuel : nat) (opened : list SelectedSeries) (o : NRangeOptions) :
  (forall i s, opened !! i = Some s -> series_answerable fuel (per_key_range_options o i) s) ->
  process_nrange_query fuel opened o =
  let ls := imap (key_stream fuel o) opened in
  let ws := map (nr_column_count o) (seq 0 (length opened)) in
  apply_iter_limit (directed (nr_is_reverse o) (map (pivot_row ls ws) (times ls))) (ro_count (nr_range o)).
Proof. apply nrange_query_spec. Qed.

(** C12. Without GROUPBY a cluster replies with what one node that has all the
    series replies for the window the coordinator read, whatever the shards hold:
    with filters, LATEST, direction, EXCLUDEEMPTY and COUNT, which the shards apply
    to what they send, and with aggregations if the push-down is enabled (with it
    disabled the last value is not carried, [coordinator_last_not_carried]).  The
    request fits its message: COUNT and bucket length below 2^32, no empty
    FILTER_BY_TS list and aggregators as the parser makes them ([request_loses]
    shows what is lost otherwise); each series is one that a
    single node answers exactly. *)
Theorem fanout_matches_single_node (fuel : nat) (clock : string -> Reading) (enabled : bool) (o : MRangeOptions) (sent_at : Reading)
    (shards : list (list SelectedSeries)) :
  request_fits o -> ro_aggregation (mo_range o) = None \/ enabled = true -> mo_grouping o = None ->
  Forall (series_answerable fuel (mo_range (resolved o sent_at))) (concat shards) ->
  exists results, fanout_execute fuel clock enabled o sent_at shards = Ok results /\
    map reported results = map reported (process_mrange_query fuel (concat shards) (resolved o sent_at) false None).
Proof.
  intros Hfit Hpush Hg. apply fanout_ungrouped; [done|done| |done]. cbn. rewrite Hg. apply andb_false_r.
Qed.

(** C14. With GROUPBY the cluster replies exactly as one node in two cases: the
    push-down is enabled and the reducer is one the shards cannot split, or the
    push-down is disabled and there is no AGGREGATION.  Every series has the label,
    EXCLUDEEMPTY is not asked for, and the request fits its message as above. *)
Theorem fanout_groups_match (fuel : nat) (clock : string -> Reading) (enabled : bool) (o : MRangeOptions) (sent_at : Reading)
    (g : RangeGroupingOptions) (shards : list (list SelectedSeries)) :
  request_fits o -> ro_aggregation (mo_range o) = None \/ enabled = true -> mo_grouping o = Some g ->
  enabled = false \/ for_config (grp_aggregation g) = None -> exclude_empty o = false ->
  Forall (series_answerable fuel (mo_range (resolved o sent_at))) (concat shards) ->
  Forall (fun s => is_Some (grouping_label g s)) (concat shards) ->
  fanout_execute fuel clock enabled o sent_at shards = Ok (process_mrange_query fuel (concat shards) (resolved o sent_at) false None).
Proof.
  intros Hfit Hpush Hg Hno. apply fanout_grouped; [done|done| |done]. cbn. rewrite Hg. destruct Hno as [->| ->]; [done|]. by rewrite bool_decide_false, andb_false_r by (by intros [? ?]).
Qed.

(** C13. Push-down of groups reduced by count, countall, countnan, min, max, range,
    first or last without a condition.  When the shards reduce their part of each
    group and COUNT what they send, the groups, their sources and their timestamps
    are those of one node, and at each timestamp both values reduce the samples of
    all the shards: the count, the least, the greatest, their difference, the first
    or the last.  The query has at most one aggregation and no EXCLUDEEMPTY, the
    request fits its message, and no key is on two shards.  Sums, averages,
    deviations and reducers with a condition, which are split as well, are not
    covered. *)
Theorem fanout_partials_agree (fuel : nat) (clock : string -> Reading) (o : MRangeOptions) (sent_at : Reading) (g : RangeGroupingOptions)
    (r : PartialReducer) (shards : list (list SelectedSeries)) :
  request_fits o -> mo_grouping o = Some g -> for_config (grp_aggregation g) = Some r -> exact_reducer (grp_aggregation g) = true ->
  multi_aggregation o = None -> exclude_empty o = false ->
  Forall (series_answerable fuel (mo_range (resolved o sent_at))) (concat shards) ->
  Forall (fun s => Forall sample_valid (series_answer fuel (mo_range (resolved o sent_at)) s)) (concat shards) ->
  NoDup (map se_key (concat shards)) ->
  exists results, fanout_execute fuel clock true o sent_at shards = Ok results /\
    Forall2 (fun x y =>
      (mr_key x, mr_group_label_value x, mr_labels x, mr_sources x) = (mr_key y, mr_group_label_value y, mr_labels y, mr_sources y) /\
      exists xs ys l, mr_group_label_value x = Some l /\ mr_data x = DataChunk xs /\ mr_data y = DataChunk ys /\
        Forall2 (agree (grp_aggregation g)
                   (fun t => at_ts t (concat (map (series_answer fuel (mo_range (resolved o sent_at))) (with_label (grouping_label g) (concat shards) l))))) xs ys)
      results (process_mrange_query fuel (concat shards) (resolved o sent_at) false None).
Proof.
  intros Hfit Hg Hr Hex Hm He Ha Hv Hnd. eexists. split; [exact (fanout_partials_spec fuel clock o sent_at g r Hfit Hg Hr Hm shards Ha)|].
  rewrite (grouped_query_spec fuel (concat shards) (resolved o sent_at) g Hg He Ha). apply Forall2_fmap, Forall_Forall2_diag, Forall_true. intros l.
  destruct (finished_agrees fuel o sent_at g r Hr Hm shards l Hex Hv Hnd) as (E & xs & ys & Hx & Hy & Hf). split; [exact E|]. exists xs, ys, l. split_and!; [done|exact Hx|exact Hy|exact Hf].
Qed.


(** C19. The series of a response arrive with their keys, labels, samples and rows:
    rows are sent column by column, labels through a table shared by the response.
    A missing group label arrives as an empty one. *)
Theorem response_roundtrip (results : list MRangeSeriesResult) (sent : list SeriesRangeResponse) (names values : list string) :
  Forall (fun r => sendable (mr_data r)) results -> intern_labels (map result_to_wire results) = (sent, (names, values)) ->
  exists received, resolve_labels sent names values = Ok received /\ try_map result_of_wire received = Ok (map decoded results).
Proof.
  intros Hs Hi. exists (map result_to_wire results). split; [eapply labels_wire; [|exact Hi]; apply Forall_map, Forall_true; done|].
  clear Hi. induction Hs as [|r rs Hr _ IH]; [done|]. cbn [map try_map]. by rewrite (result_wire r Hr), IH.
Qed.

End Props.

(** ** Instances *)

#[local] Instance mrange_config : ServerConfig := {| config_duplicate_policy := Block; config_retention_period := 0 |}.
#[local] Instance sample_heap : MinMaxHeap (Entry Sample) := list_heap entry_cmp.
#[local] Instance row_heap : MinMaxHeap (Entry MultiSample) := list_heap entry_cmp.

Definition demo_selected (key : string) (labels : list Label) : SelectedSeries := mkSelectedSeries demo_series labels key false None any_clock.
Definition demo_query (range : RangeOptions) (count : option nat) (g : option RangeGroupingOptions) (rev : bool) : MRangeOptions :=
  mkMRangeOptions (mkRangeOptions (date_range range) count (ro_latest range) (ro_aggregation range) (timestamp_filter range) (ro_value_filter range)) true [] g rev false.
Definition no_clock (key : string) : Reading := (0, 0).
Definition by_region (reducer : AggregationType) : RangeGroupingOptions := mkRangeGroupingOptions (config reducer) "region".
Definition series_a : SelectedSeries := demo_selected "a" [("region", "eu")].
Definition series_b : SelectedSeries := demo_selected "b" [("region", "us")].
Definition series_c : SelectedSeries := demo_selected "c" [("region", "eu")].
Definition series_d : SelectedSeries := demo_selected "d" [].

Lemma raw_answerable o key labels : ro_aggregation o = None -> ro_latest o = false -> date_range o = from_timestamps 35 200 -> timestamp_filter o = None ->
  series_answerable 20 o (demo_selected key labels).
Proof.
  intros Ha Hl Hd Hf. exists chunk_fit, demo_list, (35, 200). split.
  - exact demo_stores.
  - unfold steady, get_timestamp_range. rewrite Hd. vm_compute. auto.
  - intros f E. by rewrite Hf in E.
  - unfold get_latest, get_range_latest_sample. rewrite Hl. done.
  - intros agg E. by rewrite Ha in E.
Qed.

Lemma last_answerable o key labels : ro_aggregation o = Some (last_query true) -> ro_latest o = false -> date_range o = from_timestamps 55 140 ->
  timestamp_filter o = None -> ro_value_filter o = None -> series_answerable 20 o (demo_selected key labels).
Proof.
  intros Ha Hl Hd Hf Hv. exists chunk_fit, demo_list, (55, 140). split.
  - exact demo_stores.
  - unfold steady, get_timestamp_range. rewrite Hd. vm_compute. auto.
  - intros f E. by rewrite Hf in E.
  - unfold get_latest, get_range_latest_sample. rewrite Hl. done.
  - assert (get_latest o (demo_selected key labels) = None) as -> by (unfold get_latest, get_range_latest_sample; by rewrite Hl).
    intros agg E. rewrite Ha in E. injection E as <-. split; [apply demo_range_ok|]. destruct o as [d c lt ag tf vf]. cbn in *. subst. vm_compute. lia.
Qed.

Lemma raw_all o (l : list SelectedSeries) : ro_aggregation o = None -> ro_latest o = false -> date_range o = from_timestamps 35 200 -> timestamp_filter o = None ->
  Forall (fun s => exists key labels, s = demo_selected key labels) l -> Forall (series_answerable 20 o) l.
Proof. intros Ha Hl Hd Hf Hs. eapply Forall_impl; [exact Hs|]. intros s (key & labels & ->). by apply raw_answerable. Qed.

(** Discharges that the selected series are the demonstration series. *)
Ltac all_demo := repeat (apply Forall_cons; split; [by eexists _, _|]); apply Forall_nil; exact I.

Lemma demo_fits range count g rev :
  (forall n, count = Some n -> (0 < n)%nat /\ Z.of_nat n < 2 ^ 32) -> timestamp_filter range = None ->
  (forall a, ro_aggregation range = Some a -> aggregation_fits a) -> (forall c, g = Some c -> config_ok (grp_aggregation c)) ->
  request_fits (demo_query range count g rev).
Proof. intros Hc Hf Ha Hg. split; [done| |done|done]. cbn. by rewrite Hf. Qed.

Lemma last_fits : aggregation_fits (last_query true).
Proof. split; [done|cbn; unfold MAX_AGGREGATIONS; lia|by repeat constructor|cbn; apply NoDup_singleton|cbn; lia]. Qed.

Lemma merge_stable_witness :
  multi_series_iter [[mkSample 10 one; mkSample 30 one]; [mkSample 10 two; mkSample 20 two]] = [mkSample 10 one; mkSample 10 two; mkSample 20 two; mkSample 30 one].
Proof.
  rewrite (merge_stable [[mkSample 10 one; mkSample 30 one]; [mkSample 10 two; mkSample 20 two]]); [vm_compute; reflexivity|].
  repeat constructor; cbn; lia.
Defined.

Lemma grouped_query_exact_witness :
  let o := demo_query (window_query 35 200 None) (Some 1%nat) (Some (by_region TySum)) true in
  process_mrange_query 20 [series_b; series_a; series_d; series_c] o false None =
    map (fun l => group_result 20 o (by_region TySum) (with_label (grouping_label (by_region TySum)) [series_b; series_a; series_d; series_c] l) l) ["eu"; "us"]%string.
Proof.
  intros o. refine (eq_trans (proj1 (grouped_query_exact 20 [series_b; series_a; series_d; series_c] o (by_region TySum) eq_refl eq_refl _)) _).
  - apply raw_all; [reflexivity..|]. all_demo.
  - vm_compute. reflexivity.
Defined.

Lemma nrange_pivot_exact_witness :
  process_nrange_query 20 [series_a; series_b] (mkNRangeOptions (window_query 35 200 None) [] false) =
  [mkMultiSample 40 [two; two]; mkMultiSample 130 [one; one]].
Proof.
  rewrite (nrange_pivot_exact 20 [series_a; series_b] (mkNRangeOptions (window_query 35 200 None) [] false)).
  - vm_compute. reflexivity.
  - intros [|[|i]] s E; [injection E as <-|injection E as <-|by destruct i]; by apply raw_answerable.
Defined.

Lemma fanout_matches_single_node_witness :
  let o := demo_query (window_query 55 140 (Some (last_query true))) (Some 3%nat) None true in
  exists results, fanout_execute 20 no_clock true o (0, 0) [[series_b]; []; [series_a; series_d]] = Ok results /\
    map reported results = map reported (process_mrange_query 20 [series_b; series_a; series_d] (resolved o (0, 0)) false None).
Proof.
  intros o. refine (fanout_matches_single_node 20 no_clock true o (0, 0) [[series_b]; []; [series_a; series_d]] _ _ eq_refl _).
  - apply demo_fits; [intros n [= <-]; lia|done|intros a [= <-]; apply last_fits|done].
  - by right.
  - repeat (apply Forall_cons; split; [by apply last_answerable|]). apply Forall_nil; exact I.
Defined.

Lemma fanout_groups_match_witness :
  let o := demo_query (window_query 35 200 None) (Some 1%nat) (Some (by_region TyIncrease)) true in
  fanout_execute 20 no_clock true o (0, 0) [[series_b]; [series_a; series_c]] =
    Ok (process_mrange_query 20 [series_b; series_a; series_c] (resolved o (0, 0)) false None).
Proof.
  intros o. refine (fanout_groups_match 20 no_clock true o (0, 0) (by_region TyIncrease) [[series_b]; [series_a; series_c]] _ _ eq_refl _ eq_refl _ _).
  - apply demo_fits; [intros n [= <-]; lia|done|done|by intros c [= <-]].
  - by left.
  - by right.
  - apply raw_all; [reflexivity..|]. all_demo.
  - repeat (apply Forall_cons; split; [by eexists|]). apply Forall_nil; exact I.
Defined.


Lemma response_roundtrip_witness :
  let r := mkMRangeSeriesResult "a" (Some "eu"%string) [("region", "eu")]%string [] (DataRows [mkMultiSample 40 [one; two]; mkMultiSample 50 [two; one]]) in
  let w := intern_labels (map result_to_wire [r; r]) in
  exists received, resolve_labels w.1 w.2.1 w.2.2 = Ok received /\ try_map result_of_wire received = Ok [r; r].
Proof.
  intros r w. refine (response_roundtrip [r; r] w.1 w.2.1 w.2.2 _ _).
  - repeat (apply Forall_cons; split; [exists 2%nat; split; [lia|by repeat constructor]|]). apply Forall_nil; exact I.
  - vm_compute. reflexivity.
Defined.

Lemma raw_valid key labels : Forall sample_valid (series_answer 20 (window_query 35 200 None) (demo_selected key labels)).
Proof.
  assert (series_answer 20 (window_query 35 200 None) (demo_selected key labels) = [mkSample 40 two; mkSample 130 one]) as -> by (vm_compute; reflexivity).
  repeat (constructor; [by apply sample_validb_sound|]). constructor.
Qed.

Lemma fanout_partials_agree_witness :
  let o := demo_query (window_query 35 200 None) (Some 1%nat) (Some (by_region TyMax)) true in
  exists results, fanout_execute 20 no_clock true o (0, 0) [[series_b]; [series_a; series_c]] = Ok results /\ length results = 2%nat.
Proof.
  intros o.
  destruct (fanout_partials_agree 20 no_clock o (0, 0) (by_region TyMax) (default (mkPartialReducer PkSum None NanAll ps_default) (for_config (config TyMax)))
    [[series_b]; [series_a; series_c]]) as (results & E & Hf).
  - apply demo_fits; [intros n [= <-]; lia|done|done|by intros c [= <-]].
  - reflexivity.
  - reflexivity.
  - reflexivity.
  - reflexivity.
  - reflexivity.
  - apply raw_all; [reflexivity..|]. all_demo.
  - repeat (apply Forall_cons; split; [apply raw_valid|]). apply Forall_nil; exact I.
  - apply (bool_decide_unpack _). vm_compute. exact I.
  - exists results. split; [exact E|]. apply Forall2_length in Hf. rewrite Hf. vm_compute. reflexivity.
Defined.

(** ** Where the cluster and a node differ *)

(** GROUPBY in a cluster, when the groups are not reduced on the shards: a series
    without the label forms a group of its own, under an empty value, which one node
    leaves out. *)
Theorem unlabelled_series_grouped :
  let o := demo_query (window_query 35 200 None) None (Some (by_region TyIncrease)) false in
  map mr_key (process_mrange_query 20 [series_a; series_d] o false None) = ["region=eu"]%string /\
  exists results, fanout_execute 20 no_clock true o (0, 0) [[series_a]; [series_d]] = Ok results /\ map mr_key results = ["region="; "region=eu"]%string.
Proof. split; [vm_compute; reflexivity|]. eexists. split; vm_compute; reflexivity. Qed.

(** What a request loses on the way to the shards: an empty timestamp filter,
    which selects nothing, arrives as none, which selects everything, and a bucket
    length of 2^32 ms or more arrives modulo 2^32. *)
Theorem request_loses :
  let empty := mkMRangeOptions (mkRangeOptions (from_timestamps 35 200) None false None (Some []) None) false [] None false false in
  let long := demo_query (window_query 35 200 (Some (mkAggregationOptions [config TyCount] (2 ^ 32 + 10) BucketStart AlignDefault false))) None None false in
  let sizes rs := map (fun r => length (sample_iter (mr_data r))) rs in
  sizes (process_mrange_query 20 [series_a] empty false None) = [0%nat] /\
  (exists rs, fanout_execute 20 no_clock true empty (0, 0) [[series_a]] = Ok rs /\ sizes rs = [2%nat]) /\
  sizes (process_mrange_query 20 [series_a] long false None) = [1%nat] /\
  (exists rs, fanout_execute 20 no_clock true long (0, 0) [[series_a]] = Ok rs /\ sizes rs = [2%nat]).
Proof. split_and!; [vm_compute; reflexivity|eexists; split; vm_compute; reflexivity|vm_compute; reflexivity|eexists; split; vm_compute; reflexivity]. Qed.

(** With the push-down disabled, a coordinator that aggregates with several
    aggregators and EMPTY does not carry the last value into an empty bucket, where a
    node does. *)
Theorem coordinator_last_not_carried :
  let agg := mkAggregationOptions [config TyLast; config TyMax] 30 BucketStart AlignDefault true in
  let o := demo_query (window_query 35 200 (Some agg)) None None false in
  let lasts rs := map (fun r => match mr_data r with DataRows rows => map (fun x => (ms_timestamp x, head (ms_values x))) rows | DataChunk _ => [] end) rs in
  lasts (process_mrange_query 20 [series_a] o false None) = [[(30, Some two); (60, Some two); (90, Some two); (120, Some one)]] /\
  exists rs, fanout_execute 20 no_clock false o (0, 0) [[series_a]] = Ok rs /\
    lasts rs = [[(30, Some two); (60, Some f64_NAN); (90, Some f64_NAN); (120, Some one)]].
Proof. split; [vm_compute; reflexivity|]. eexists. split; vm_compute; reflexivity. Qed.
