(* ===== verification/LabelFilters.v ===== *)
(** * LabelFilters: predicates on labels

    Models [src/labels/filters.rs]: the values and matchers of a label filter, when
    they match a value, their cost, and the selectors made of them.  The regular
    expression engine is a parameter. *)

From stdpp Require Import strings list.
From S2P Require Import Prelude MRange.

Local Open Scope string_scope.
Local Open Scope list_scope.
Local Open Scope Z_scope.

(** ** Methods of [str] *)

Definition starts_with (s p : string) : bool := String.prefix p s.

Definition strip_prefix (s p : string) : option string :=
  if starts_with s p then Some (String.substring (String.length p) (String.length s - String.length p) s) else None.

Definition ends_with (s suffix : string) : bool :=
  (String.length suffix <=? String.length s)%nat &&
  bool_decide (String.substring (String.length s - String.length suffix) (String.length suffix) s = suffix).

(** The position of the first occurrence. *)
Definition str_find (s needle : string) : option nat := String.index 0 needle s.

Definition contains (s needle : string) : bool := bool_decide (is_Some (str_find s needle)).

Definition str_from (s : string) (start : nat) : string := String.substring start (String.length s - start) s.

Definition is_empty_string (s : string) : bool := bool_decide (s = "").

(** ** Values *)

Inductive MatchOp :=
  | OpEqual | OpNotEqual | OpRegexEqual | OpRegexNotEqual | OpStartsWith | OpNotStartsWith | OpContains | OpNotContains | OpMatchAll | OpMatchNone.

Definition is_regex (op : MatchOp) : bool := match op with OpRegexEqual | OpRegexNotEqual => true | _ => false end.

Inductive PredicateValue :=
  | PvEmpty
  | PvList (values : list string)
  | PvString (value : string).

Definition pv_matches (p : PredicateValue) (value : string) : bool :=
  match p with
  | PvEmpty => is_empty_string value
  | PvString s => bool_decide (s = value)
  | PvList l => if is_empty_string value then bool_decide (l = []) else existsb (fun x => bool_decide (x = value)) l
  end.

Definition pv_text (p : PredicateValue) : option string :=
  match p with
  | PvEmpty => None
  | PvString s => Some s
  | PvList [x] => Some x
  | PvList _ => None
  end.

Definition pv_is_empty (p : PredicateValue) : bool :=
  match p with
  | PvList l => bool_decide (l = [])
  | PvString s => is_empty_string s
  | PvEmpty => true
  end.

(** The checks of [validate_contains_value] and [validate_starts_with_value]. *)
Definition pv_all_nonempty (p : PredicateValue) : bool :=
  match p with
  | PvEmpty => false
  | PvString s => negb (is_empty_string s)
  | PvList l => negb (bool_decide (l = [])) && forallb (fun x => negb (is_empty_string x)) l
  end.

Definition matches_contains_any (p : PredicateValue) (value : string) : bool :=
  match p with
  | PvEmpty => false
  | PvString s => negb (is_empty_string s) && contains value s
  | PvList l => negb (bool_decide (l = [])) && forallb (fun x => negb (is_empty_string x)) l && existsb (fun x => contains value x) l
  end.

Definition matches_not_contains_all (p : PredicateValue) (value : string) : bool :=
  match p with
  | PvEmpty => false
  | PvString s => negb (is_empty_string s) && negb (contains value s)
  | PvList l => negb (bool_decide (l = [])) && forallb (fun x => negb (is_empty_string x)) l && forallb (fun x => negb (contains value x)) l
  end.

Definition matches_starts_with_any (p : PredicateValue) (value : string) : bool :=
  match p with
  | PvEmpty => false
  | PvString s => negb (is_empty_string s) && starts_with value s
  | PvList l => negb (bool_decide (l = [])) && forallb (fun x => negb (is_empty_string x)) l && existsb (fun x => starts_with value x) l
  end.

Definition matches_not_starts_with_all (p : PredicateValue) (value : string) : bool :=
  match p with
  | PvEmpty => false
  | PvString s => negb (is_empty_string s) && negb (starts_with value s)
  | PvList l => negb (bool_decide (l = [])) && forallb (fun x => negb (is_empty_string x)) l && forallb (fun x => negb (starts_with value x)) l
  end.

Definition pv_cost (p : PredicateValue) : nat := match p with PvEmpty => 0 | PvString _ => 1 | PvList l => length l end.

Inductive ParseError :=
  | InvalidRegex (expr : string)
  | ParseGeneral (message : string).

Definition validate_contains_value (p : PredicateValue) : result ParseError unit :=
  if pv_all_nonempty p then Ok tt else Err (ParseGeneral "contains matcher does not allow empty values").

Definition validate_starts_with_value (p : PredicateValue) : result ParseError unit :=
  if pv_all_nonempty p then Ok tt else Err (ParseGeneral "starts with matcher does not allow empty values").

(** ** Matchers *)

(** What the code uses of the [regex] crate. *)
Class RegexEngine := {
  Regex : Type;
  regex_as_str : Regex -> string;
  regex_is_match : Regex -> string -> bool;
}.

Section Matchers.

Context `{RegexEngine}.

Record RegexMatcher := mkRegexMatcher {
  rx_regex : Regex;
  rx_prefix : option string;
  rx_suffix : option string;
  required_literals : list string;
  rx_value : string;
}.

Definition is_empty_regex_matcher (re : Regex) : bool :=
  let value := regex_as_str re in
  let matches_empty :=
    match String.length value with
    | 0%nat => true
    | 1%nat => bool_decide (value = "^") || bool_decide (value = "$")
    | 2%nat => bool_decide (value = ".*") || bool_decide (value = "^$") || bool_decide (value = "?:")
    | 3%nat => bool_decide (value = "^.*") || bool_decide (value = ".*$")
    | 4%nat => bool_decide (value = "^.*$") || bool_decide (value = "^?:$")
    | _ => false
    end in
  matches_empty || regex_is_match re "".

Fixpoint matches_required_literals (literals : list string) (haystack : string) : bool :=
  match literals with
  | [] => true
  | l :: literals =>
      if is_empty_string l then matches_required_literals literals haystack
      else match str_find haystack l with
           | None => false
           | Some idx => matches_required_literals literals (str_from haystack (idx + String.length l))
           end
  end.

Definition rx_is_match (re : RegexMatcher) (other : string) : bool :=
  if is_empty_string other then
    match rx_prefix re with
    | Some p => if negb (is_empty_string p) then false else is_empty_regex_matcher (rx_regex re)
    | None => is_empty_regex_matcher (rx_regex re)
    end
  else
    let prefixed := match rx_prefix re with Some p => starts_with other p | None => true end in
    if negb prefixed then false
    else
      let remainder := match rx_prefix re with Some p => default other (strip_prefix other p) | None => other end in
      let suffixed := match rx_suffix re with Some s => ends_with remainder s | None => true end in
      if negb suffixed then false
      else if negb (matches_required_literals (required_literals re) remainder) then false
      else regex_is_match (rx_regex re) other.

Definition rx_cost (re : RegexMatcher) : nat :=
  match bool_decide (is_Some (rx_prefix re)), bool_decide (is_Some (rx_suffix re)), bool_decide (required_literals re = []) with
  | true, true, false => 12
  | true, true, true => 14
  | true, false, false | false, true, false => 16
  | true, false, true | false, true, true => 18
  | false, false, false => 30
  | false, false, true => 50
  end%nat.

Inductive PredicateMatch :=
  | PmEqual (value : PredicateValue)
  | PmNotEqual (value : PredicateValue)
  | PmMatchAll
  | PmMatchNone
  | PmRegexEqual (re : RegexMatcher)
  | PmRegexNotEqual (re : RegexMatcher)
  | PmStartsWith (value : PredicateValue)
  | PmNotStartsWith (value : PredicateValue)
  | PmContains (value : PredicateValue)
  | PmNotContains (value : PredicateValue).

Definition pm_op (m : PredicateMatch) : MatchOp :=
  match m with
  | PmEqual _ => OpEqual
  | PmNotEqual _ => OpNotEqual
  | PmMatchAll => OpRegexEqual
  | PmMatchNone => OpMatchNone
  | PmRegexEqual _ => OpRegexEqual
  | PmRegexNotEqual _ => OpRegexNotEqual
  | PmStartsWith _ => OpStartsWith
  | PmNotStartsWith _ => OpNotStartsWith
  | PmContains _ => OpContains
  | PmNotContains _ => OpNotContains
  end.

Definition pm_is_empty (m : PredicateMatch) : bool :=
  match m with
  | PmEqual v | PmNotEqual v => pv_is_empty v
  | PmMatchAll | PmMatchNone => false
  | PmRegexEqual re | PmRegexNotEqual re => is_empty_string (regex_as_str (rx_regex re))
  | PmStartsWith v | PmNotStartsWith v | PmContains v | PmNotContains v => pv_is_empty v
  end.

Definition pm_matches (m : PredicateMatch) (other : string) : bool :=
  match m with
  | PmEqual v => pv_matches v other
  | PmNotEqual v => negb (pv_matches v other)
  | PmMatchAll => true
  | PmMatchNone => false
  | PmRegexEqual re => rx_is_match re other
  | PmRegexNotEqual re => negb (rx_is_match re other)
  | PmStartsWith v => matches_starts_with_any v other
  | PmNotStartsWith v => matches_not_starts_with_all v other
  | PmContains v => matches_contains_any v other
  | PmNotContains v => matches_not_contains_all v other
  end.

Definition pm_inverse (m : PredicateMatch) : PredicateMatch :=
  match m with
  | PmEqual v => PmNotEqual v
  | PmNotEqual v => PmEqual v
  | PmMatchAll => PmMatchNone
  | PmMatchNone => PmMatchAll
  | PmRegexEqual re => PmRegexNotEqual re
  | PmRegexNotEqual re => PmRegexEqual re
  | PmStartsWith p => PmNotStartsWith p
  | PmNotStartsWith p => PmStartsWith p
  | PmContains p => PmNotContains p
  | PmNotContains p => PmContains p
  end.

Definition pm_cost (m : PredicateMatch) : nat :=
  match m with
  | PmEqual v | PmNotEqual v => pv_cost v
  | PmMatchAll | PmMatchNone => 0
  | PmRegexEqual re => rx_cost re
  | PmRegexNotEqual re => rx_cost re + 5
  | PmStartsWith v | PmNotStartsWith v => 10 + pv_cost v
  | PmContains v => 20 + pv_cost v
  | PmNotContains v => 25 + pv_cost v
  end.

Definition MATCH_ALL_REGEX_TEXT : string := ".*".

Definition pm_text (m : PredicateMatch) : option string :=
  match m with
  | PmEqual v | PmNotEqual v => pv_text v
  | PmMatchAll | PmMatchNone => Some MATCH_ALL_REGEX_TEXT
  | PmRegexEqual re | PmRegexNotEqual re => Some (rx_value re)
  | PmStartsWith v | PmNotStartsWith v | PmContains v | PmNotContains v => pv_text v
  end.

(** ** Filters *)

Record LabelFilter := mkLabelFilter { lf_label : string; matcher : PredicateMatch }.

Definition REGEX_SINGLE_VALUE : string := "regex matcher requires a single value".

(** [parse_regex] is [parse_regex_matcher]. *)
Definition create_with_value (parse_regex : string -> bool -> result ParseError PredicateMatch) (op : MatchOp) (label : string) (value : PredicateValue)
    : result ParseError LabelFilter :=
  (match op with
   | OpEqual => Ok (mkLabelFilter label (PmEqual value))
   | OpNotEqual => Ok (mkLabelFilter label (PmNotEqual value))
   | OpRegexEqual =>
       match pv_text value with
       | None => Err (ParseGeneral REGEX_SINGLE_VALUE)
       | Some v => let? m := parse_regex v true in Ok (mkLabelFilter label m)
       end
   | OpRegexNotEqual =>
       match pv_text value with
       | None => Err (ParseGeneral REGEX_SINGLE_VALUE)
       | Some v => let? m := parse_regex v false in Ok (mkLabelFilter label m)
       end
   | OpStartsWith => let? _ := validate_starts_with_value value in Ok (mkLabelFilter label (PmStartsWith value))
   | OpNotStartsWith => let? _ := validate_starts_with_value value in Ok (mkLabelFilter label (PmNotStartsWith value))
   | OpContains => let? _ := validate_contains_value value in Ok (mkLabelFilter label (PmContains value))
   | OpNotContains => let? _ := validate_contains_value value in Ok (mkLabelFilter label (PmNotContains value))
   | OpMatchAll => Ok (mkLabelFilter label PmMatchAll)
   | OpMatchNone => Ok (mkLabelFilter label PmMatchNone)
   end)%result.

Definition lf_op (f : LabelFilter) : MatchOp := pm_op (matcher f).

Definition lf_inverse (f : LabelFilter) : LabelFilter := mkLabelFilter (lf_label f) (pm_inverse (matcher f)).

Definition regex_text (f : LabelFilter) : option string :=
  match matcher f with
  | PmRegexEqual re | PmRegexNotEqual re => Some (rx_value re)
  | PmMatchAll | PmMatchNone => Some MATCH_ALL_REGEX_TEXT
  | _ => None
  end.

Definition lf_matches (f : LabelFilter) (value : string) : bool := pm_matches (matcher f) value.

Definition lf_matches_empty (f : LabelFilter) : bool := lf_matches f "".

Definition is_negative_matcher (f : LabelFilter) : bool :=
  match lf_op f with OpNotEqual | OpRegexNotEqual | OpNotStartsWith | OpNotContains => true | _ => false end.

Definition METRIC_NAME_LABEL : string := "__name__".

Definition is_metric_name_filter (f : LabelFilter) : bool :=
  bool_decide (lf_label f = METRIC_NAME_LABEL) && match lf_op f with OpEqual => true | _ => false end.

Definition lf_cost (f : LabelFilter) : nat := pm_cost (matcher f).

(** [get_metric_name] of a list of filters. *)
Definition filters_metric_name (filters : list LabelFilter) : option string :=
  match List.find is_metric_name_filter filters with Some f => pm_text (matcher f) | None => None end.

(** ** Selectors *)

Inductive SeriesSelector :=
  | SelOr (groups : list (list LabelFilter))
  | SelAnd (filters : list LabelFilter).

Definition filter_group_is_bounded (filters : list LabelFilter) : bool :=
  existsb (fun f => negb (is_negative_matcher f) && negb (lf_matches_empty f)) filters.

Definition is_bounded (s : SeriesSelector) : bool :=
  match s with
  | SelAnd filters => filter_group_is_bounded filters
  | SelOr groups => negb (bool_decide (length groups = 0%nat)) && forallb filter_group_is_bounded groups
  end.

(** The loop of [get_metric_name] over the branches of an [Or]. *)
Fixpoint or_metric_name (name : option string) (groups : list (list LabelFilter)) : option string :=
  match groups with
  | [] => name
  | g :: groups =>
      match filters_metric_name g with
      | Some current =>
          if bool_decide (is_Some name) && negb (bool_decide (name = Some current)) then None else or_metric_name (Some current) groups
      | None => or_metric_name name groups
      end
  end.

Definition selector_metric_name (s : SeriesSelector) : option string :=
  match s with SelOr groups => or_metric_name None groups | SelAnd filters => filters_metric_name filters end.

Definition merge_with (a b : SeriesSelector) : SeriesSelector :=
  match a, b with
  | SelAnd l, SelAnd r => SelOr [l; r]
  | SelAnd l, SelOr r => SelOr (l :: r)
  | SelOr l, SelAnd r => SelOr (l ++ [r])
  | SelOr l, SelOr r => SelOr (l ++ r)
  end.

End Matchers.
