(* ===== verification/Postings.v ===== *)
(** * Postings: the inverted index of labels

    Models [src/series/index/postings]: its state ([mod.rs]), indexing and removal
    ([mutation.rs]), the directory of keys ([directory.rs]), stale ids and the pass
    that drains them ([stale.rs]), compaction ([maintenance.rs]); and the keys of
    [index_key.rs] and [key_buffer.rs].  A [Bitmap64] is a set of ids, the radix
    tree a map from keys to sets, walked in the order of the bytes. *)

From stdpp Require Import strings list gmap sorting.
From S2P Require Import Prelude MRange LabelFilters.

Local Open Scope string_scope.
Local Open Scope list_scope.
Local Open Scope Z_scope.
Local Open Scope result_scope.

Abbreviation SeriesRef := Z (only parsing).
Abbreviation PostingsBitmap := (gset Z) (only parsing).
Abbreviation IndexKey := string (only parsing).
Abbreviation PostingsIndex := (gmap string (gset Z)) (only parsing).

(** ** Keys *)

Definition SENTINEL : string := String Ascii.zero EmptyString.

(** [IndexKey::for_label_value]: [name=value] and the sentinel. *)
Definition for_label_value (name value : string) : IndexKey := (name +:+ "=" +:+ value) +:+ SENTINEL.

(** The bytes without the sentinel. *)
Definition key_as_str (k : IndexKey) : string := String.substring 0 (String.length k - 1) k.

Definition key_split (k : IndexKey) : option (string * string) :=
  let key := key_as_str k in
  match str_find key "=" with
  | Some i => Some (String.substring 0 i key, str_from key (i + 1))
  | None => None
  end.

Definition sub_string (k : IndexKey) (start : nat) : string := String.substring start (String.length k - 1 - start) k.

Definition STACK_SIZE : nat := 64.

(** A search key, in a buffer of 64 bytes if it fits. *)
Inductive KeyBuffer :=
  | KbStack (buf : string) (len : nat)
  | KbHeap (bytes : string).

Fixpoint zeros (n : nat) : string := match n with O => "" | S n => String Ascii.zero (zeros n) end.

(** The buffer with [bytes] copied to its start. *)
Definition stack_buffer (bytes : string) : string := bytes +:+ zeros (STACK_SIZE - String.length bytes).

Definition kb_for_prefix (data : string) : KeyBuffer :=
  let len := String.length data in
  if (len + 1 <? STACK_SIZE)%nat then KbStack (stack_buffer (data +:+ "=")) (len + 1) else KbHeap (data +:+ "=").

Definition kb_for_label_value_prefix (label value_prefix : string) : KeyBuffer :=
  let len := (String.length label + String.length value_prefix)%nat in
  if (len + 1 <? STACK_SIZE)%nat then KbStack (stack_buffer (label +:+ "=" +:+ value_prefix)) (len + 1)
  else KbHeap (label +:+ "=" +:+ value_prefix).

Definition kb_for_label_value (label value : string) : KeyBuffer :=
  let total_len := (String.length label + 1 + String.length value)%nat in
  if (total_len <? STACK_SIZE)%nat then KbStack (stack_buffer (label +:+ "=" +:+ value +:+ SENTINEL)) (total_len + 1)
  else KbHeap (label +:+ "=" +:+ value +:+ SENTINEL).

Definition kb_len (k : KeyBuffer) : nat := match k with KbStack _ len => len | KbHeap b => String.length b end.

Definition kb_as_bytes (k : KeyBuffer) : string := match k with KbStack buf len => String.substring 0 len buf | KbHeap b => b end.

(** ** State *)

Record StaleSet := mkStaleSet { st_ids : PostingsBitmap; st_pass : option PostingsBitmap }.

Record Postings := mkPostings {
  label_index : PostingsIndex;
  id_to_key : gmap Z string;
  stale_ids : StaleSet;
  all_postings : PostingsBitmap;
}.

Definition postings_default : Postings := mkPostings ∅ ∅ (mkStaleSet ∅ None) ∅.

Definition with_index (p : Postings) (i : PostingsIndex) : Postings := mkPostings i (id_to_key p) (stale_ids p) (all_postings p).
Definition with_stale (p : Postings) (s : StaleSet) : Postings := mkPostings (label_index p) (id_to_key p) s (all_postings p).

(** What the index reads of a series. *)
Record IndexedSeries := mkIndexedSeries { ix_id : SeriesRef; ix_labels : list Label }.

(** ** Stale ids *)

Definition stale_is_empty (s : StaleSet) : bool := bool_decide (st_ids s = ∅).

Definition mask (s : StaleSet) (postings : PostingsBitmap) : PostingsBitmap :=
  if negb (stale_is_empty s) then postings ∖ st_ids s else postings.

Definition mark_many (s : StaleSet) (ids : list SeriesRef) : StaleSet :=
  mkStaleSet (st_ids s ∪ list_to_set ids) ((fun pass => pass ∖ list_to_set ids) <$> st_pass s).

Definition begin_pass (s : StaleSet) : StaleSet := mkStaleSet (st_ids s) (Some (st_ids s)).

Definition finish_pass (s : StaleSet) : StaleSet :=
  match st_pass s with
  | Some pass => mkStaleSet (st_ids s ∖ pass) None
  | None => s
  end.

Definition revoke (s : StaleSet) (id : SeriesRef) : StaleSet := mkStaleSet (st_ids s ∖ {[id]}) (st_pass s).

(** ** The directory *)

Definition set_timeseries_key (p : Postings) (id : SeriesRef) (new_key : string) : Postings :=
  if bool_decide (id_to_key p !! id = Some new_key) then p
  else mkPostings (label_index p) (<[id := new_key]> (id_to_key p)) (stale_ids p) (all_postings p).

Definition get_key_by_id (p : Postings) (id : SeriesRef) : option string := id_to_key p !! id.

Definition has_id (p : Postings) (id : SeriesRef) : bool := bool_decide (is_Some (id_to_key p !! id)).

Definition postings_count (p : Postings) : nat := size (id_to_key p).

(** ** Mutation *)

Definition remove_posting_for_label_value (p : Postings) (label value : string) (id : SeriesRef) : bool * Postings :=
  let key := for_label_value label value in
  match label_index p !! key with
  | Some bmp =>
      let removed := bool_decide (id ∈ bmp) in
      let bmp := bmp ∖ {[id]} in
      (removed, with_index p (if removed && bool_decide (bmp = ∅) then delete key (label_index p) else <[key := bmp]> (label_index p)))
  | None => (false, p)
  end.

(** [entry(key)]: [ids] are added to its set, a new one if there was none. *)
Definition add_many_for_key (i : PostingsIndex) (key : IndexKey) (ids : list SeriesRef) : PostingsIndex :=
  match i !! key with
  | Some bmp => <[key := bmp ∪ list_to_set ids]> i
  | None => <[key := list_to_set ids]> i
  end.

Definition add_posting_for_label_value_internal (p : Postings) (id : SeriesRef) (label value : string) : bool * Postings :=
  let key := for_label_value label value in
  match label_index p !! key with
  | Some bmp => (false, with_index p (<[key := bmp ∪ {[id]}]> (label_index p)))
  | None => (true, with_index p (<[key := {[id]}]> (label_index p)))
  end.

Definition index_timeseries (p : Postings) (ts : IndexedSeries) (key : string) : Postings :=
  let id := ix_id ts in
  let p := if negb (stale_is_empty (stale_ids p)) then with_stale p (revoke (stale_ids p) id) else p in
  let p := fold_left (fun p l => (add_posting_for_label_value_internal p id l.1 l.2).2) (ix_labels ts) p in
  let p := mkPostings (label_index p) (id_to_key p) (stale_ids p) (all_postings p ∪ {[id]}) in
  set_timeseries_key p id key.

Definition remove_timeseries (p : Postings) (series : IndexedSeries) : bool * Postings :=
  let id := ix_id series in
  let removed := bool_decide (id ∈ all_postings p) in
  let p := mkPostings (label_index p) (delete id (id_to_key p)) (stale_ids p) (all_postings p ∖ {[id]}) in
  (removed, fold_left (fun p l => (remove_posting_for_label_value p l.1 l.2 id).2) (ix_labels series) p).

Definition remove_timeseries_for_key (p : Postings) (series : IndexedSeries) (key : string) : bool * Postings :=
  if negb (bool_decide (id_to_key p !! ix_id series = Some key)) then (false, p) else remove_timeseries p series.

Record BulkIndexEntry := mkBulkIndexEntry { be_id : SeriesRef; be_key : string; label_keys : list IndexKey }.

(** The order of [(IndexKey, SeriesRef)] pairs. *)
Definition pair_leb (a b : IndexKey * SeriesRef) : bool :=
  match String.compare a.1 b.1 with Lt => true | Gt => false | Eq => (a.2 <=? b.2)%Z end.

Definition flush_run (i : PostingsIndex) (current_key : option IndexKey) (run_ids : list SeriesRef) : PostingsIndex :=
  match current_key with Some cur => add_many_for_key i cur run_ids | None => i end.

(** One turn of the walk over the sorted pairs. *)
Definition run_step (st : PostingsIndex * option IndexKey * list SeriesRef) (pair : IndexKey * SeriesRef) : PostingsIndex * option IndexKey * list SeriesRef :=
  let '(i, current_key, run_ids) := st in
  if bool_decide (current_key = Some pair.1) then (i, current_key, run_ids ++ [pair.2])
  else (flush_run i current_key run_ids, Some pair.1, [pair.2]).

Definition bulk_index (p : Postings) (entries : list BulkIndexEntry) : Postings :=
  if bool_decide (length entries = 0%nat) then p
  else
    let stale := if negb (stale_is_empty (stale_ids p)) then fold_left (fun s e => revoke s (be_id e)) entries (stale_ids p) else stale_ids p in
    let all := all_postings p ∪ list_to_set (sort_with Z.leb (map be_id entries)) in
    let pairs := concat (map (fun e => map (fun k => (k, be_id e)) (label_keys e)) entries) in
    let keys := fold_left (fun m e => <[be_id e := be_key e]> m) entries (id_to_key p) in
    let '(i, current_key, run_ids) := fold_left run_step (sort_with pair_leb pairs) (label_index p, None, []) in
    mkPostings (flush_run i current_key run_ids) keys stale all.

(** ** Marking and draining *)

Definition mark_ids_as_stale (p : Postings) (ids : list SeriesRef) : Postings :=
  mkPostings (label_index p) (fold_left (fun m id => delete id m) ids (id_to_key p)) (mark_many (stale_ids p) ids)
    (all_postings p ∖ list_to_set ids).

Definition key_leb (a b : IndexKey) : bool := match String.compare a b with Gt => false | _ => true end.

(** [range_mut]: the keys from [start] on, in order. *)
Definition keys_from (start : option IndexKey) (i : PostingsIndex) : list IndexKey :=
  List.filter (fun k => match start with Some s => key_leb s k | None => true end) (sort_with key_leb (map fst (map_to_list i))).

(** The loop of [remove_stale_ids]: the index, the keys to remove, how many keys
    were processed and the first one that was not. *)
Fixpoint drain_loop (s : StaleSet) (count processed : nat) (keys : list IndexKey) (i : PostingsIndex) : PostingsIndex * list IndexKey * nat * option IndexKey :=
  match keys with
  | [] => (i, [], processed, None)
  | key :: keys =>
      if (processed =? count)%nat then (i, [], processed, Some key)
      else
        let bitmap := default ∅ (i !! key) in
        let '(i, should_remove) :=
          if negb (bool_decide (bitmap = ∅)) then (<[key := mask s bitmap]> i, bool_decide (mask s bitmap = ∅)) else (i, true) in
        let '(i, removed, processed, next_key) := drain_loop s count (S processed) keys i in
        (i, if should_remove then key :: removed else removed, processed, next_key)
  end.

Definition delete_keys (keys : list IndexKey) (i : PostingsIndex) : PostingsIndex := fold_left (fun i k => delete k i) keys i.

Definition remove_stale_ids (p : Postings) (start_prefix : option IndexKey) (count : nat) : option IndexKey * Postings :=
  if stale_is_empty (stale_ids p) then (None, p)
  else
    let p := if bool_decide (start_prefix = None) || bool_decide (st_pass (stale_ids p) = None) then with_stale p (begin_pass (stale_ids p)) else p in
    let '(i, keys_to_remove, keys_processed, next_key) := drain_loop (stale_ids p) count 0 (keys_from start_prefix (label_index p)) (label_index p) in
    let p := with_index p (delete_keys keys_to_remove i) in
    let p := if (0 <? keys_processed)%nat && bool_decide (next_key = None) then with_stale p (finish_pass (stale_ids p)) else p in
    (next_key, p).

(** The loop of [optimize_postings]; the representation of a set is not modelled. *)
Fixpoint optimize_loop (count processed : nat) (keys : list IndexKey) (i : PostingsIndex) : list IndexKey * option IndexKey :=
  match keys with
  | [] => ([], None)
  | key :: keys =>
      if bool_decide (default ∅ (i !! key) = ∅) then let '(removed, next_key) := optimize_loop count processed keys i in (key :: removed, next_key)
      else if (processed =? count)%nat then ([], Some key)
      else optimize_loop count (S processed) keys i
  end.

Definition optimize_postings (p : Postings) (start_prefix : option IndexKey) (count : nat) : option IndexKey * Postings :=
  let '(keys_to_delete, next_key) := optimize_loop count 0 (keys_from start_prefix (label_index p)) (label_index p) in
  (next_key, with_index p (delete_keys keys_to_delete (label_index p))).

(** ** From filters to sets of series

    Models the read side of [src/series/index/postings]: lookups of keys and
    prefixes ([terms.rs]), one filter ([predicate.rs]), lists of filters and
    selectors ([planner.rs]). *)

Inductive QueryError :=
  | MissingFilter
  | InternalError.

(** [slice::sort_by]: whatever the comparator, a permutation of the slice. *)
Class SortBy := sort_by : forall {A : Type}, (A -> A -> comparison) -> list A -> list A.
Class SortByLaws `{SortBy} := sort_by_perm : forall A (cmp : A -> A -> comparison) (l : list A), sort_by cmp l ≡ₚ l.

(** ** Terms *)

Record Terms := mkTerms { tm_index : PostingsIndex; tm_stale : StaleSet; tm_all : PostingsBitmap }.

Definition terms (p : Postings) : Terms := mkTerms (label_index p) (stale_ids p) (all_postings p).

Definition postings_for_key (t : Terms) (key : string) : PostingsBitmap :=
  match tm_index t !! key with Some bmp => mask (tm_stale t) bmp | None => ∅ end.

Definition postings_for_label_value (t : Terms) (name value : string) : PostingsBitmap :=
  postings_for_key t (kb_as_bytes (kb_for_label_value name value)).

(** [index.prefix]: the entries whose key starts with [p]. *)
Definition prefix_entries (i : PostingsIndex) (p : string) : list (IndexKey * PostingsBitmap) :=
  List.filter (fun e => String.prefix p e.1) (map_to_list i).

Definition union_entries (entries : list (IndexKey * PostingsBitmap)) : PostingsBitmap :=
  fold_left (fun result e => result ∪ e.2) entries ∅.

Definition postings_for_all_label_values (t : Terms) (label_name : string) : PostingsBitmap :=
  mask (tm_stale t) (union_entries (prefix_entries (tm_index t) (kb_as_bytes (kb_for_prefix label_name)))).

Definition postings_for_label_values (t : Terms) (name : string) (values : list string) : PostingsBitmap :=
  match values with
  | [value] => postings_for_key t (kb_as_bytes (kb_for_label_value name value))
  | _ =>
      mask (tm_stale t) (fold_left (fun result value =>
        match tm_index t !! kb_as_bytes (kb_for_label_value name value) with Some bmp => result ∪ bmp | None => result end) values ∅)
  end.

Definition postings_for_label_matching (t : Terms) (name : string) (match_fn : string -> bool) : PostingsBitmap :=
  let prefix := kb_for_prefix name in
  let start_pos := kb_len prefix in
  mask (tm_stale t)
    (union_entries (List.filter (fun e => match_fn (sub_string e.1 start_pos)) (prefix_entries (tm_index t) (kb_as_bytes prefix)))).

Definition postings_by_prefix (t : Terms) (label prefix : string) : PostingsBitmap :=
  mask (tm_stale t) (union_entries (prefix_entries (tm_index t) (kb_as_bytes (kb_for_label_value_prefix label prefix)))).

Definition postings_by_prefix_and_predicate (t : Terms) (label prefix : string) (predicate : string -> bool) : PostingsBitmap :=
  let start_pos := (String.length label + 1)%nat in
  mask (tm_stale t)
    (union_entries (List.filter (fun e => predicate (sub_string e.1 start_pos))
       (prefix_entries (tm_index t) (kb_as_bytes (kb_for_label_value_prefix label prefix))))).

Definition postings_without_label (t : Terms) (label : string) : PostingsBitmap :=
  let to_remove := postings_for_all_label_values t label in
  if bool_decide (to_remove = ∅) then tm_all t else tm_all t ∖ to_remove.

(** The loop of [postings_by_labels]. *)
Fixpoint by_labels_loop (t : Terms) (first : bool) (acc : PostingsBitmap) (labels : list Label) : PostingsBitmap :=
  match labels with
  | [] => acc
  | l :: labels =>
      match tm_index t !! kb_as_bytes (kb_for_label_value l.1 l.2) with
      | None => ∅
      | Some bmp =>
          if bool_decide (bmp = ∅) then ∅
          else if first then by_labels_loop t false (acc ∪ bmp) labels
          else let acc := acc ∩ bmp in
               if bool_decide (acc = ∅) then acc else by_labels_loop t false acc labels
      end
  end.

Definition postings_by_labels (t : Terms) (labels : list Label) : PostingsBitmap := mask (tm_stale t) (by_labels_loop t true ∅ labels).

(** The loop of [posting_id_by_labels] over the labels after the first. *)
Fixpoint id_by_labels_loop (t : Terms) (acc : PostingsBitmap) (labels : list Label) : option PostingsBitmap :=
  match labels with
  | [] => Some acc
  | l :: labels =>
      match tm_index t !! kb_as_bytes (kb_for_label_value l.1 l.2) with
      | None => None
      | Some bmp => let acc := acc ∩ bmp in if bool_decide (acc = ∅) then None else id_by_labels_loop t acc labels
      end
  end.

Definition posting_id_by_labels (t : Terms) (labels : list Label) : option SeriesRef :=
  match labels with
  | [] => None
  | first :: labels =>
      match tm_index t !! kb_as_bytes (kb_for_label_value first.1 first.2) with
      | None => None
      | Some bmp =>
          match id_by_labels_loop t bmp labels with
          | None => None
          | Some acc => let acc := mask (tm_stale t) acc in if (size acc =? 1)%nat then head (elements acc) else None
          end
      end
  end.

(** The names of the labels of the index, and the values of one. *)
Definition get_label_names (t : Terms) : gset string :=
  fold_left (fun (names : gset string) (e : IndexKey * PostingsBitmap) => if bool_decide (e.2 = ∅) then names else match key_split e.1 with Some (name, _) => names ∪ {[name]} | None => names end)
    (map_to_list (tm_index t)) ∅.

Definition get_label_values (t : Terms) (label_name : string) : list string :=
  omap (fun e : IndexKey * PostingsBitmap =>
    if negb (bool_decide (e.2 = ∅)) then
      match key_split e.1 with Some (_, value) => if negb (is_empty_string value) then Some value else None | None => None end
    else None) (sort_with (fun a b => key_leb a.1 b.1) (prefix_entries (tm_index t) (kb_as_bytes (kb_for_prefix label_name)))).

Section Query.

Context `{RegexEngine} `{SortBy}.

(** ** One filter *)

Definition handle_equal_match (t : Terms) (label : string) (value : PredicateValue) : PostingsBitmap :=
  match value with
  | PvString s => if is_empty_string s then postings_without_label t label else postings_for_label_value t label s
  | PvList [] => postings_without_label t label
  | PvList [v] => if is_empty_string v then postings_without_label t label else postings_for_label_value t label v
  | PvList val =>
      let contains_empty := existsb is_empty_string val in
      let non_empty_values := List.filter (fun s => negb (is_empty_string s)) val in
      match non_empty_values with
      | [] => postings_without_label t label
      | _ =>
          let result := postings_for_label_values t label non_empty_values in
          if contains_empty then result ∪ postings_without_label t label else result
      end
  | PvEmpty => postings_without_label t label
  end.

(** [with_label] *)
Definition postings_with_label (t : Terms) (label : string) : PostingsBitmap := postings_for_label_matching t label (fun _ => true).

Definition handle_not_equal_match (t : Terms) (label : string) (value : PredicateValue) : PostingsBitmap :=
  match value with
  | PvString s =>
      if is_empty_string s then postings_with_label t label
      else let postings := postings_for_label_value t label s in
           if bool_decide (postings = ∅) then tm_all t else tm_all t ∖ postings
  | PvList [] => postings_with_label t label
  | PvList values =>
      let to_remove := postings_for_label_values t label values in
      if bool_decide (to_remove = ∅) then tm_all t else tm_all t ∖ to_remove
  | PvEmpty => postings_with_label t label
  end.

Definition postings_by_prefix_value (t : Terms) (label : string) (value : PredicateValue) : PostingsBitmap :=
  match value with
  | PvEmpty => ∅
  | PvString prefix => postings_by_prefix t label prefix
  | PvList prefixes => fold_left (fun result prefix => result ∪ postings_by_prefix t label prefix) prefixes ∅
  end.

Definition handle_contains (t : Terms) (label : string) (value : PredicateValue) : PostingsBitmap :=
  postings_for_label_matching t label (matches_contains_any value).

Definition handle_regex_equal_match (t : Terms) (f : LabelFilter) : result QueryError PostingsBitmap :=
  if lf_matches_empty f then Ok (postings_without_label t (lf_label f))
  else match matcher f with
       | PmRegexEqual re =>
           Ok (match rx_prefix re with
               | Some prefix => postings_by_prefix_and_predicate t (lf_label f) prefix (rx_is_match re)
               | None => postings_for_label_matching t (lf_label f) (rx_is_match re)
               end)
       | _ => Err InternalError
       end.

Definition handle_regex_not_equal_match (t : Terms) (f : LabelFilter) : result QueryError PostingsBitmap :=
  if lf_matches_empty f then Ok (postings_with_label t (lf_label f))
  else match matcher f with
       | PmRegexNotEqual re => Ok (postings_for_label_matching t (lf_label f) (fun value => negb (rx_is_match re value)))
       | _ => Err InternalError
       end.

Definition handle_not_contains (t : Terms) (f : LabelFilter) : result QueryError PostingsBitmap :=
  match matcher f with
  | PmNotContains value => Ok (tm_all t ∖ postings_for_label_matching t (lf_label f) (matches_contains_any value))
  | _ => Err InternalError
  end.

Definition postings_for_filter (t : Terms) (f : LabelFilter) : result QueryError PostingsBitmap :=
  match matcher f with
  | PmEqual value => Ok (handle_equal_match t (lf_label f) value)
  | PmNotEqual value => Ok (handle_not_equal_match t (lf_label f) value)
  | PmMatchAll => Ok (tm_all t)
  | PmMatchNone => Ok ∅
  | PmRegexEqual _ => handle_regex_equal_match t f
  | PmRegexNotEqual _ => handle_regex_not_equal_match t f
  | PmStartsWith prefix => Ok (postings_by_prefix_value t (lf_label f) prefix)
  | PmNotStartsWith prefix => Ok (tm_all t ∖ postings_by_prefix_value t (lf_label f) prefix)
  | PmContains needle => Ok (handle_contains t (lf_label f) needle)
  | PmNotContains _ => handle_not_contains t f
  end.

Definition inverse_postings_for_filter (t : Terms) (f : LabelFilter) : PostingsBitmap :=
  let label := lf_label f in
  let scan := postings_for_label_matching t label (fun s => negb (lf_matches f s)) in
  match matcher f with
  | PmNotEqual pv => handle_equal_match t label pv
  | PmEqual (PvString s) => if is_empty_string s then postings_for_all_label_values t label else scan
  | PmMatchAll => ∅
  | PmMatchNone => tm_all t
  | PmRegexEqual re =>
      let text := regex_as_str (rx_regex re) in
      if bool_decide (text = "") || bool_decide (text = ".*") then postings_for_all_label_values t label else scan
  | PmStartsWith prefix => postings_for_all_label_values t label ∖ postings_by_prefix_value t label prefix
  | PmNotStartsWith prefix => postings_by_prefix_value t label prefix
  | PmContains needle => postings_for_all_label_values t label ∖ handle_contains t label needle
  | PmNotContains needle => handle_contains t label needle
  | PmEqual _ | PmRegexNotEqual _ => scan
  end.

(** ** Lists of filters *)

(** The order of the matchers: filter, matches the empty string, subtracts. *)
Definition matcher_order (i j : LabelFilter * bool * bool) : comparison :=
  if negb i.2 && j.2 then Lt else (lf_cost i.1.1 ?= lf_cost j.1.1)%nat.

(** What the loop over the matchers ends with: a result, or the sets to intersect
    and those to subtract. *)
Inductive Planned :=
  | PlannedResult (r : PostingsBitmap)
  | PlannedSets (its not_its : list PostingsBitmap).

Fixpoint plan_loop (t : Terms) (matchers : list (LabelFilter * bool * bool)) (its not_its : list PostingsBitmap) : result QueryError Planned :=
  match matchers with
  | [] => Ok (PlannedSets its not_its)
  | (f, matches_empty, _) :: matchers =>
      let name := lf_label f in
      let regex_value := default "" (regex_text f) in
      if is_empty_string name && matches_empty then Err MissingFilter
      else match matcher f with
      | PmMatchAll => plan_loop t matchers its not_its
      | PmMatchNone => Ok (PlannedResult ∅)
      | m =>
          match lf_op f, bool_decide (regex_value = ".*"), bool_decide (regex_value = ".+") with
          | OpRegexEqual, true, _ => plan_loop t matchers its not_its
          | OpRegexNotEqual, true, _ => Ok (PlannedResult ∅)
          | OpRegexEqual, _, true => plan_loop t matchers (its ++ [postings_for_all_label_values t name]) not_its
          | OpRegexNotEqual, _, true => plan_loop t matchers its (not_its ++ [postings_for_all_label_values t name])
          | _, _, _ =>
              if match m with PmNotEqual v => pv_is_empty v | _ => false end then
                let it := postings_for_all_label_values t name in
                if bool_decide (it = ∅) then Ok (PlannedResult ∅) else plan_loop t matchers (its ++ [it]) not_its
              else if negb matches_empty then
                let? it := (if is_negative_matcher f then Ok (inverse_postings_for_filter t (lf_inverse f)) else postings_for_filter t f) in
                if bool_decide (it = ∅) then Ok (PlannedResult ∅) else plan_loop t matchers (its ++ [it]) not_its
              else plan_loop t matchers its (not_its ++ [inverse_postings_for_filter t f])
          end
      end
  end.

Fixpoint intersect_rest (result : PostingsBitmap) (its : list PostingsBitmap) : PostingsBitmap :=
  match its with
  | [] => result
  | it :: its => if bool_decide (it = ∅) then ∅ else intersect_rest (result ∩ it) its
  end.

Definition intersection_of (its : list PostingsBitmap) : PostingsBitmap :=
  match its with it :: its => intersect_rest it its | [] => ∅ end.

Definition plan_filters (t : Terms) (filters : list LabelFilter) : result QueryError PostingsBitmap :=
  let matchers := map (fun m => (m, lf_matches m "", lf_matches m "" || is_negative_matcher m)) filters in
  let has_subtracting_matchers := existsb (fun m : LabelFilter * bool * bool => m.2) matchers in
  let has_intersecting_matchers := existsb (fun m : LabelFilter * bool * bool => negb m.2) matchers in
  let its := if has_subtracting_matchers && negb has_intersecting_matchers then [tm_all t] else [] in
  let? plan := plan_loop t (sort_by matcher_order matchers) its [] in
  match plan with
  | PlannedResult r => Ok r
  | PlannedSets [single] [] => Ok single
  | PlannedSets its not_its =>
      let result := match its with
                    | [] => tm_all t
                    | _ => intersection_of (sort_by (fun a b => (size a ?= size b)%nat) its)
                    end in
      Ok (fold_left (fun result not => result ∖ not) not_its result)
  end.

Definition postings_for_label_filters (t : Terms) (filters : list LabelFilter) : result QueryError PostingsBitmap :=
  match filters with
  | [] => Ok (tm_all t)
  | [f] =>
      if is_empty_string (lf_label f) && pm_is_empty (matcher f) then Ok (tm_all t)
      else if negb (is_negative_matcher f) && negb (lf_matches_empty f) then
        let? it := postings_for_filter t f in
        if bool_decide (it = ∅) then Ok ∅ else Ok it
      else plan_filters t filters
  | _ => plan_filters t filters
  end.

(** ** Selectors *)

(** The loop of [process_or_matchers]. *)
Fixpoint or_loop (t : Terms) (acc : PostingsBitmap) (groups : list (list LabelFilter)) : result QueryError PostingsBitmap :=
  match groups with
  | [] => Ok acc
  | filters :: groups => let? postings := postings_for_label_filters t filters in or_loop t (acc ∪ postings) groups
  end.

Definition process_or_matchers (t : Terms) (groups : list (list LabelFilter)) : result QueryError PostingsBitmap :=
  match groups with
  | [] => Ok (tm_all t)
  | [filters] => postings_for_label_filters t filters
  | _ => or_loop t ∅ groups
  end.

Definition postings_for_selector (t : Terms) (s : SeriesSelector) : result QueryError PostingsBitmap :=
  match s with
  | SelAnd filters => postings_for_label_filters t filters
  | SelOr groups => process_or_matchers t groups
  end.

Fixpoint and_loop (t : Terms) (acc : PostingsBitmap) (selectors : list SeriesSelector) : result QueryError PostingsBitmap :=
  match selectors with
  | [] => Ok acc
  | s :: selectors => let? bitmap := postings_for_selector t s in and_loop t (acc ∩ bitmap) selectors
  end.

Definition postings_for_selectors (p : Postings) (selectors : list SeriesSelector) : result QueryError PostingsBitmap :=
  let t := terms p in
  match selectors with
  | [] => Ok ∅
  | [s] => let? result := postings_for_selector t s in Ok (mask (tm_stale t) result)
  | s :: rest =>
      let? first := postings_for_selector t s in
      let? result := and_loop t first rest in
      Ok (mask (tm_stale t) result)
  end.

End Query.
