(* ===== verification/PostingsLaws.v ===== *)
(** * PostingsLaws: what the index answers

    Keys determine their label; an index that represents a set of series answers
    every filter, list of filters and selector with the series it selects. *)

From stdpp Require Import strings list gmap sets.
From S2P Require Import Prelude MRange LabelFilters Postings.

Local Open Scope string_scope.
Local Open Scope list_scope.
Local Open Scope Z_scope.

(** ** Strings *)

Local Arguments String.append : simpl nomatch.
Local Arguments String.prefix : simpl nomatch.
Local Arguments String.substring : simpl nomatch.

Fixpoint free_of (c : Ascii.ascii) (s : string) : Prop := match s with "" => True | String a s => a <> c /\ free_of c s end.

Abbreviation equals_sign := (Ascii.Ascii true false true true true true false false).

Lemma append_nil (s : string) : s +:+ "" = s.
Proof. induction s as [|a s IH]; cbn; [done|by rewrite IH]. Qed.

Lemma append_assoc (a b c : string) : (a +:+ b) +:+ c = a +:+ b +:+ c.
Proof. induction a as [|x a IH]; cbn; [done|by rewrite IH]. Qed.

Lemma append_length (a b : string) : String.length (a +:+ b) = (String.length a + String.length b)%nat.
Proof. induction a as [|x a IH]; cbn; [done|by rewrite IH]. Qed.

Lemma substring_all n s : (String.length s <= n)%nat -> String.substring 0 n s = s.
Proof. revert n. induction s as [|a s IH]; intros [|n] Hn; cbn in *; [done..|lia|]. rewrite IH by lia. done. Qed.

Lemma substring_app n a b : n = String.length a -> String.substring 0 n (a +:+ b) = a.
Proof. intros ->. induction a as [|x a IH]; cbn; [by destruct b|by rewrite IH]. Qed.

Lemma substring_skip i a b n : i = String.length a -> String.substring i n (a +:+ b) = String.substring 0 n b.
Proof. intros ->. induction a as [|x a IH]; cbn; [done|exact IH]. Qed.

Lemma prefix_cons a p b s : String.prefix (String a p) (String b s) = bool_decide (a = b) && String.prefix p s.
Proof. unfold String.prefix at 1. fold String.prefix. destruct (Ascii.ascii_dec a b) as [->|Hn]; [by rewrite bool_decide_true|by rewrite bool_decide_false]. Qed.

Lemma prefix_spec p s : String.prefix p s = true <-> exists r, s = p +:+ r.
Proof.
  revert s. induction p as [|a p IH]; intros s; [split; [by exists s|by destruct s]|].
  destruct s as [|b s]; [split; [done|by intros [? ?]]|]. rewrite prefix_cons, andb_true_iff, bool_decide_eq_true, IH. cbn. split.
  - intros [-> [r ->]]. by exists r.
  - intros [r E]. injection E as -> ->. split; [done|by exists r].
Qed.

Lemma split_unique a b x y : free_of equals_sign a -> free_of equals_sign b -> a +:+ "=" +:+ x = b +:+ "=" +:+ y -> a = b /\ x = y.
Proof.
  revert b. induction a as [|c a IH]; intros [|d b] Ha Hb E; cbn in *.
  - by injection E.
  - injection E as <- _. by destruct Hb.
  - injection E as -> _. by destruct Ha.
  - injection E as -> E. destruct Ha as [_ Ha], Hb as [_ Hb]. destruct (IH b Ha Hb E) as [-> ->]. done.
Qed.

Lemma sentinel_prefix p v : free_of Ascii.zero p -> String.prefix p (v +:+ SENTINEL) = String.prefix p v.
Proof.
  revert v. induction p as [|a p IH]; intros v Hp; [by destruct v|]. destruct Hp as [Ha Hp]. destruct v as [|b v]; cbn [String.append].
  - unfold SENTINEL. rewrite prefix_cons, bool_decide_false by done. done.
  - rewrite !prefix_cons. by rewrite IH.
Qed.

(** ** Keys *)

Lemma key_shape n v : for_label_value n v = n +:+ "=" +:+ (v +:+ SENTINEL).
Proof. unfold for_label_value. by rewrite !append_assoc. Qed.

Lemma append_sentinel_inj v w : v +:+ SENTINEL = w +:+ SENTINEL -> v = w.
Proof.
  revert w. induction v as [|a v IH]; intros [|b w] E; cbn in *; [done|unfold SENTINEL in E; injection E as _ E; by destruct w|unfold SENTINEL in E; injection E as _ E; by destruct v|].
  injection E as -> E. by rewrite (IH w E).
Qed.

Lemma key_inj n v n' v' : free_of equals_sign n -> free_of equals_sign n' -> for_label_value n v = for_label_value n' v' -> n = n' /\ v = v'.
Proof. intros Hn Hn'. rewrite !key_shape. intros [-> E]%split_unique; [|done..]. by apply append_sentinel_inj in E. Qed.

Lemma key_prefix n p n' v : free_of equals_sign n -> free_of equals_sign n' ->
  String.prefix (n +:+ "=" +:+ p) (for_label_value n' v) = true <-> n = n' /\ String.prefix p (v +:+ SENTINEL) = true.
Proof.
  intros Hn Hn'. rewrite !prefix_spec, key_shape. split.
  - intros [r E]. rewrite !append_assoc in E. apply split_unique in E as [-> E]; [|done..]. split; [done|]. by exists r.
  - intros [-> [r E]]. exists r. rewrite E. by rewrite !append_assoc.
Qed.

Lemma key_value n v start : start = (String.length n + 1)%nat -> sub_string (for_label_value n v) start = v.
Proof.
  intros ->. unfold sub_string. rewrite key_shape. replace (n +:+ "=" +:+ (v +:+ SENTINEL)) with ((n +:+ "=") +:+ (v +:+ SENTINEL)) by (by rewrite append_assoc).
  rewrite substring_skip by (by rewrite append_length). apply substring_app. rewrite !append_length. cbn. lia.
Qed.

(** The search keys are those of the index, whichever buffer they are built in. *)
Lemma stack_bytes s n : n = String.length s -> String.substring 0 n (stack_buffer s) = s.
Proof. intros ->. by apply substring_app. Qed.

Lemma kb_label_value n v : kb_as_bytes (kb_for_label_value n v) = for_label_value n v.
Proof.
  rewrite key_shape. unfold kb_for_label_value. case_match; cbn [kb_as_bytes]; [|done]. apply stack_bytes. rewrite !append_length. cbn. lia.
Qed.

Lemma kb_prefix n : kb_as_bytes (kb_for_prefix n) = n +:+ "=" +:+ "".
Proof. unfold kb_for_prefix. case_match; cbn [kb_as_bytes]; [|done]. apply stack_bytes. by rewrite append_length. Qed.

Lemma kb_prefix_len n : kb_len (kb_for_prefix n) = (String.length n + 1)%nat.
Proof. unfold kb_for_prefix. case_match; cbn [kb_len]; [done|]. by rewrite append_length. Qed.

Lemma kb_value_prefix n p : kb_as_bytes (kb_for_label_value_prefix n p) = n +:+ "=" +:+ p.
Proof. unfold kb_for_label_value_prefix. case_match; cbn [kb_as_bytes]; [|done]. apply stack_bytes. rewrite !append_length. cbn. lia. Qed.

(** ** What an index represents *)

Definition in_index (i : PostingsIndex) (key : string) (id : Z) : Prop := exists bmp, i !! key = Some bmp /\ id ∈ bmp.

(** A series by its id: its key and labels. *)
Abbreviation Database := (gmap Z (string * list Label)).

Record labels_wf (ls : list Label) : Prop := {
  lw_unique : NoDup (map fst ls);
  lw_names : Forall (fun l => free_of equals_sign l.1) ls;
  lw_values : Forall (fun l => l.2 <> "") ls;
}.

Record index_rep (p : Postings) (db : Database) : Prop := {
  ir_all : all_postings p = dom db;
  ir_keys : id_to_key p = fst <$> db;
  ir_stale : forall id, id ∈ st_ids (stale_ids p) -> db !! id = None;
  ir_labels : forall id k ls, db !! id = Some (k, ls) -> labels_wf ls;
  ir_posted : forall n v id, free_of equals_sign n -> id ∉ st_ids (stale_ids p) ->
    in_index (label_index p) (for_label_value n v) id <-> exists k ls, db !! id = Some (k, ls) /\ (n, v) ∈ ls;
  ir_shape : forall key bmp, label_index p !! key = Some bmp -> exists n v, key = for_label_value n v /\ free_of equals_sign n /\ v <> "";
}.

(** The value of a label, empty if the series does not have it. *)
Definition value_of (ls : list Label) (n : string) : string := default "" (label_value ls n).

Lemma label_value_spec ls n v : labels_wf ls -> label_value ls n = Some v <-> (n, v) ∈ ls.
Proof.
  intros [Hu _ _]. unfold label_value. induction ls as [|[m w] ls IH]; cbn [List.find map fst snd] in *; [set_solver|].
  apply NoDup_cons in Hu as [Hm Hu]. rewrite elem_of_cons. case_bool_decide as E.
  - cbn. subst m. split; [intros [= ->]; by left|]. intros [[= ->]|Hin]; [done|]. exfalso. apply Hm, list_elem_of_fmap. by exists (n, v).
  - rewrite (IH Hu). split; [by right|]. intros [[= -> ->]|Hin]; [done|exact Hin].
Qed.

Lemma value_of_spec ls n v : labels_wf ls -> v <> "" -> value_of ls n = v <-> (n, v) ∈ ls.
Proof.
  intros Hw Hv. rewrite <- (label_value_spec ls n v Hw). unfold value_of. destruct (label_value ls n) as [w|]; cbn; split; congruence.
Qed.

(** Some value of the label, and it has the property, exactly if the value of the
    label is not empty and has it. *)
Lemma some_value ls n (P : string -> Prop) : labels_wf ls -> (exists v, (n, v) ∈ ls /\ P v) <-> value_of ls n <> "" /\ P (value_of ls n).
Proof.
  intros Hw. split.
  - intros (v & Hin & Hp). assert (v <> "") as Hv by (pose proof (lw_values ls Hw) as H; rewrite Forall_forall in H; by apply (H (n, v))).
    apply (value_of_spec ls n v Hw Hv) in Hin as ->. done.
  - intros [Hv Hp]. exists (value_of ls n). split; [|done]. by apply value_of_spec.
Qed.

Lemma mask_spec s x : mask s x = x ∖ st_ids s.
Proof. unfold mask, stale_is_empty. case_bool_decide as E; cbn; [rewrite E; set_solver|done]. Qed.

Section Answers.

Context (p : Postings) (db : Database) (Hrep : index_rep p db).

Abbreviation t := (terms p).

(** The live series whose labels satisfy [P]. *)
Definition answers (P : list Label -> Prop) (s : PostingsBitmap) : Prop := forall id, id ∈ s <-> exists k ls, db !! id = Some (k, ls) /\ P ls.

Lemma answers_ext P Q s : answers P s -> (forall ls, labels_wf ls -> P ls <-> Q ls) -> answers Q s.
Proof.
  intros Hs He id. rewrite (Hs id). split; intros (k & ls & Hd & Hp); exists k, ls; (split; [done|]); apply (He ls); auto; by eapply ir_labels.
Qed.

Lemma answers_all : answers (fun _ => True) (tm_all t).
Proof.
  intros id. cbn. rewrite (ir_all p db Hrep), elem_of_dom. split; [intros [[k ls] E]; by exists k, ls|intros (k & ls & E & _); by exists (k, ls)].
Qed.

Lemma answers_minus P Q s u : answers P s -> answers Q u -> answers (fun ls => P ls /\ ~ Q ls) (s ∖ u).
Proof.
  intros Hs Hu id. rewrite elem_of_difference, (Hs id), (Hu id). split.
  - intros [(k & ls & Hd & Hp) Hn]. exists k, ls. split; [done|]. split; [done|]. intros Hq. apply Hn. eauto.
  - intros (k & ls & Hd & Hp & Hq). split; [eauto|]. intros (k' & ls' & Hd' & Hq'). by simplify_eq.
Qed.

Lemma answers_union P Q s u : answers P s -> answers Q u -> answers (fun ls => P ls \/ Q ls) (s ∪ u).
Proof. intros Hs Hu id. rewrite elem_of_union, (Hs id), (Hu id). split; [intros [(k & ls & ? & ?)|(k & ls & ? & ?)]; eauto|intros (k & ls & ? & [?|?]); eauto]. Qed.

Lemma answers_inter P Q s u : answers P s -> answers Q u -> answers (fun ls => P ls /\ Q ls) (s ∩ u).
Proof.
  intros Hs Hu id. rewrite elem_of_intersection, (Hs id), (Hu id). split.
  - intros [(k & ls & Hd & Hp) (k' & ls' & Hd' & Hq)]. simplify_eq. eauto.
  - intros (k & ls & Hd & Hp & Hq). split; eauto.
Qed.

Lemma answers_empty P : answers P ∅ <-> forall id k ls, db !! id = Some (k, ls) -> ~ P ls.
Proof. unfold answers. split; [intros H id k ls Hd Hp; assert (id ∈ (∅ : gset Z)) by (apply H; eauto); set_solver|intros H id; split; [set_solver|intros (k & ls & Hd & Hp); by destruct (H id k ls Hd)]]. Qed.

(** ** Terms *)

Lemma elem_union_entries es : forall acc id, id ∈ fold_left (fun (result : gset Z) (e : string * gset Z) => result ∪ e.2) es acc <-> id ∈ acc \/ exists e, e ∈ es /\ id ∈ e.2.
Proof.
  induction es as [|e es IH]; intros acc id; cbn [fold_left]; [set_solver|]. rewrite IH. set_solver.
Qed.

Lemma elem_filtered_union f es id : id ∈ union_entries (List.filter f es) <-> exists e, e ∈ es /\ f e = true /\ id ∈ e.2.
Proof.
  unfold union_entries. rewrite elem_union_entries. setoid_rewrite list_elem_of_In. setoid_rewrite filter_In. split; [intros [H|(e & [? ?] & ?)]; [set_solver|by exists e]|intros (e & ? & ? & ?); right; by exists e].
Qed.

(** A scan of the keys that start with a label and a prefix of its value. *)
Lemma scan_spec n q (f : string -> bool) : free_of equals_sign n ->
  answers (fun ls => value_of ls n <> "" /\ String.prefix q (value_of ls n +:+ SENTINEL) = true /\ f (value_of ls n) = true)
    (mask (tm_stale t) (union_entries (List.filter (fun e => f (sub_string e.1 (String.length n + 1))) (prefix_entries (tm_index t) (n +:+ "=" +:+ q))))).
Proof.
  intros Hn id. rewrite mask_spec, elem_of_difference, elem_filtered_union. cbn [terms tm_index tm_stale]. split.
  - intros [(e & He & Hf & Hid) Hst]. unfold prefix_entries in He. apply list_elem_of_In, filter_In in He as [He Hpre]. apply list_elem_of_In in He.
    destruct e as [key bmp]. cbn [fst snd] in *. apply elem_of_map_to_list in He. destruct (ir_shape p db Hrep key bmp He) as (m & v & -> & Hm & Hv).
    apply key_prefix in Hpre as [-> Hpre]; [|done..]. rewrite key_value in Hf by done.
    assert (in_index (label_index p) (for_label_value m v) id) as Hin by (by exists bmp).
    apply (ir_posted p db Hrep m v id Hm Hst) in Hin as (k & ls & Hd & Hin). exists k, ls. split; [done|].
    pose proof (ir_labels p db Hrep id k ls Hd) as Hw. apply (value_of_spec ls m v Hw Hv) in Hin as ->. done.
  - intros (k & ls & Hd & Hv & Hpre & Hf). pose proof (ir_labels p db Hrep id k ls Hd) as Hw.
    assert (id ∉ st_ids (stale_ids p)) as Hst by (intros Hs; apply (ir_stale p db Hrep) in Hs; congruence). split; [|done].
    assert (in_index (label_index p) (for_label_value n (value_of ls n)) id) as (bmp & Hb & Hid).
    { apply (ir_posted p db Hrep); [done..|]. exists k, ls. split; [done|]. by apply value_of_spec. }
    exists (for_label_value n (value_of ls n), bmp). cbn [fst snd]. split; [|split; [by rewrite key_value|done]].
    unfold prefix_entries. apply list_elem_of_In, filter_In. split; [by apply list_elem_of_In, elem_of_map_to_list|]. cbn [fst]. by apply key_prefix.
Qed.

Lemma scan_all n q : free_of equals_sign n ->
  answers (fun ls => value_of ls n <> "" /\ String.prefix q (value_of ls n +:+ SENTINEL) = true) (mask (tm_stale t) (union_entries (prefix_entries (tm_index t) (n +:+ "=" +:+ q)))).
Proof.
  intros Hn. assert (forall l : list (string * gset Z), List.filter (fun e => (fun _ => true) (sub_string e.1 (String.length n + 1))) l = l) as E.
  { induction l as [|x l IH]; [done|]. cbn [List.filter]. by rewrite IH. }
  pose proof (scan_spec n q (fun _ => true) Hn) as Hs. rewrite E in Hs. eapply answers_ext; [exact Hs|]. intros ls _. cbn beta. tauto.
Qed.

Lemma prefix_nil s : String.prefix "" s = true.
Proof. by destruct s. Qed.

Lemma all_values_spec n : free_of equals_sign n -> answers (fun ls => value_of ls n <> "") (postings_for_all_label_values t n).
Proof.
  intros Hn. unfold postings_for_all_label_values. rewrite kb_prefix. eapply answers_ext; [apply scan_all; exact Hn|]. intros ls _. cbn beta. rewrite prefix_nil. tauto.
Qed.

Lemma matching_spec n f : free_of equals_sign n -> answers (fun ls => value_of ls n <> "" /\ f (value_of ls n) = true) (postings_for_label_matching t n f).
Proof.
  intros Hn. unfold postings_for_label_matching. rewrite kb_prefix, kb_prefix_len. eapply answers_ext; [apply scan_spec; exact Hn|]. intros ls _. cbn beta. rewrite prefix_nil. tauto.
Qed.

Lemma by_prefix_spec n q : free_of equals_sign n -> free_of Ascii.zero q -> q <> "" -> answers (fun ls => String.prefix q (value_of ls n) = true) (postings_by_prefix t n q).
Proof.
  intros Hn Hq Hne. unfold postings_by_prefix. rewrite kb_value_prefix. eapply answers_ext; [apply scan_all; exact Hn|]. intros ls _. cbn beta. rewrite sentinel_prefix by done.
  split; [tauto|]. intros Hp. split; [|done]. intros E. rewrite E in Hp. by destruct q.
Qed.

Lemma prefix_predicate_spec n q f : free_of equals_sign n -> (forall v, v <> "" -> f v = true -> String.prefix q v = true) ->
  answers (fun ls => value_of ls n <> "" /\ f (value_of ls n) = true) (postings_by_prefix_and_predicate t n q f).
Proof.
  intros Hn Hf. unfold postings_by_prefix_and_predicate. rewrite kb_value_prefix. eapply answers_ext; [apply scan_spec; exact Hn|]. intros ls _. cbn beta.
  split; [tauto|]. intros [Hv Hm]. split; [done|]. split; [|done]. specialize (Hf _ Hv Hm). apply prefix_spec in Hf as [r ->]. apply prefix_spec. exists (r +:+ SENTINEL). by rewrite append_assoc.
Qed.

Lemma without_label_spec n : free_of equals_sign n -> answers (fun ls => value_of ls n = "") (postings_without_label t n).
Proof.
  intros Hn. unfold postings_without_label. pose proof (all_values_spec n Hn) as Ha.
  assert ((if bool_decide (postings_for_all_label_values t n = ∅) then tm_all t else tm_all t ∖ postings_for_all_label_values t n) = tm_all t ∖ postings_for_all_label_values t n) as ->.
  { case_bool_decide as E; [rewrite E; set_solver|done]. }
  eapply answers_ext; [exact (answers_minus _ _ _ _ answers_all Ha)|]. intros ls _. cbn beta. destruct (decide (value_of ls n = "")); tauto.
Qed.

Lemma key_spec n v : free_of equals_sign n -> v <> "" -> answers (fun ls => value_of ls n = v) (postings_for_key t (for_label_value n v)).
Proof.
  intros Hn Hv id. unfold postings_for_key. cbn [terms tm_index tm_stale]. transitivity (id ∉ st_ids (stale_ids p) /\ in_index (label_index p) (for_label_value n v) id).
  - unfold in_index. destruct (label_index p !! _) as [bmp|] eqn:E; [rewrite mask_spec|]; set_solver.
  - split.
    + intros [Hst Hin]. apply (ir_posted p db Hrep n v id Hn Hst) in Hin as (k & ls & Hd & Hin). exists k, ls. split; [done|]. apply value_of_spec; [by eapply ir_labels|done..].
    + intros (k & ls & Hd & Hin). assert (id ∉ st_ids (stale_ids p)) as Hst by (intros Hs; apply (ir_stale p db Hrep) in Hs; congruence). split; [done|].
      apply (ir_posted p db Hrep n v id Hn Hst). exists k, ls. split; [done|]. by apply value_of_spec in Hin; [|by eapply ir_labels|].
Qed.

Lemma label_value_posting n v : free_of equals_sign n -> v <> "" -> answers (fun ls => value_of ls n = v) (postings_for_label_value t n v).
Proof. intros Hn Hv. unfold postings_for_label_value. rewrite kb_label_value. by apply key_spec. Qed.

Lemma label_values_posting n vs : free_of equals_sign n -> Forall (fun v => v <> "") vs -> answers (fun ls => value_of ls n ∈ vs) (postings_for_label_values t n vs).
Proof.
  intros Hn Hvs.
  assert (forall acc : gset Z, mask (tm_stale t) (fold_left (fun result value =>
      match tm_index t !! kb_as_bytes (kb_for_label_value n value) with Some bmp => result ∪ bmp | None => result end) vs acc) =
      mask (tm_stale t) acc ∪ ⋃ map (fun v => postings_for_label_value t n v) vs) as E.
  { clear Hvs. induction vs as [|v vs IH]; intros acc; cbn [fold_left map union_list]; [set_solver|]. rewrite IH. unfold postings_for_label_value, postings_for_key.
    destruct (tm_index t !! _); rewrite ?mask_spec; set_solver. }
  assert (answers (fun ls => value_of ls n ∈ vs) (⋃ map (fun v => postings_for_label_value t n v) vs)) as Hu.
  { clear E. induction Hvs as [|v vs Hv Hvs IH]; cbn [map union_list].
    - apply answers_empty. intros id k ls _ H. by apply not_elem_of_nil in H.
    - eapply answers_ext; [exact (answers_union _ _ _ _ (label_value_posting n v Hn Hv) IH)|]. intros ls _. cbn beta. by rewrite elem_of_cons. }
  assert (answers (fun ls => value_of ls n ∈ vs) (mask (tm_stale t) (∅ : gset Z) ∪ ⋃ map (fun v => postings_for_label_value t n v) vs)) as Hm.
  { rewrite mask_spec. replace (∅ ∖ st_ids (tm_stale t)) with (∅ : gset Z) by set_solver. by rewrite union_empty_l_L. }
  unfold postings_for_label_values. destruct vs as [|v [|w vs]]; [rewrite E; exact Hm| |rewrite E; exact Hm].
  eapply answers_ext; [exact (label_value_posting n v Hn ltac:(by inversion Hvs))|]. intros ls _. cbn beta. by rewrite list_elem_of_singleton.
Qed.

(** ** One filter *)

(** Which value of a label a value of a filter stands for: one of a list, the empty
    one among them; no list, no label. *)
Definition pv_selects (pv : PredicateValue) (v : string) : bool :=
  match pv with
  | PvEmpty => is_empty_string v
  | PvString s => bool_decide (s = v)
  | PvList [] => is_empty_string v
  | PvList l => bool_decide (v ∈ l)
  end.

Lemma is_empty_true v : is_empty_string v = true <-> v = "".
Proof. unfold is_empty_string. apply bool_decide_eq_true. Qed.

Lemma is_empty_false v : is_empty_string v = false <-> v <> "".
Proof. unfold is_empty_string. apply bool_decide_eq_false. Qed.

Lemma elem_filter_nonempty v l : v ∈ List.filter (fun s => negb (is_empty_string s)) l <-> v ∈ l /\ v <> "".
Proof. rewrite !list_elem_of_In, filter_In, negb_true_iff, is_empty_false. done. Qed.

Lemma exists_empty l : existsb is_empty_string l = true <-> "" ∈ l.
Proof.
  rewrite existsb_exists, list_elem_of_In. split; [intros (x & Hin & ->%is_empty_true); done|]. intros Hin. exists "". done.
Qed.

Lemma equal_spec n pv : free_of equals_sign n -> answers (fun ls => pv_selects pv (value_of ls n) = true) (handle_equal_match t n pv).
Proof.
  intros Hn. pose proof (without_label_spec n Hn) as Hw.
  assert (forall v, answers (fun ls => v = value_of ls n) (if is_empty_string v then postings_without_label t n else postings_for_label_value t n v)) as Hone.
  { intros v. destruct (is_empty_string v) eqn:E.
    - apply is_empty_true in E as ->. eapply answers_ext; [exact Hw|]. intros ls _. cbn beta. split; congruence.
    - apply is_empty_false in E. eapply answers_ext; [exact (label_value_posting n v Hn E)|]. intros ls _. cbn beta. split; congruence. }
  destruct pv as [|l|s]; cbn [handle_equal_match pv_selects].
  - eapply answers_ext; [exact Hw|]. intros ls _. cbn beta. by rewrite is_empty_true.
  - destruct l as [|v [|w l]].
    + eapply answers_ext; [exact Hw|]. intros ls _. cbn beta. by rewrite is_empty_true.
    + eapply answers_ext; [apply Hone|]. intros ls _. cbn beta. rewrite bool_decide_eq_true, list_elem_of_singleton. split; congruence.
    + set (vs := v :: w :: l). cbn zeta. pose proof (label_values_posting n (List.filter (fun s => negb (is_empty_string s)) vs) Hn) as Hl.
      assert (answers (fun ls => value_of ls n ∈ vs /\ value_of ls n <> "") (postings_for_label_values t n (List.filter (fun s => negb (is_empty_string s)) vs))) as Hl'.
      { eapply answers_ext; [apply Hl|].
        - apply Forall_forall. intros x Hx. by apply elem_filter_nonempty in Hx as [_ Hx].
        - intros ls _. cbn beta. by rewrite elem_filter_nonempty. }
      destruct (List.filter (fun s => negb (is_empty_string s)) vs) as [|x rest] eqn:Ef.
      * eapply answers_ext; [exact Hw|]. intros ls _. cbn beta. rewrite bool_decide_eq_true. split.
        -- intros ->. destruct (decide (v = "")) as [->|Hv]; [by left|]. assert (v ∈ ([] : list string)) as H by (rewrite <- Ef; apply elem_filter_nonempty; split; [by left|done]).
           by apply not_elem_of_nil in H.
        -- intros Hin. destruct (decide (value_of ls n = "")) as [->|Hv]; [done|]. assert (value_of ls n ∈ ([] : list string)) as H by (rewrite <- Ef; by apply elem_filter_nonempty).
           by apply not_elem_of_nil in H.
      * destruct (existsb is_empty_string vs) eqn:Ee.
        -- apply exists_empty in Ee. eapply answers_ext; [exact (answers_union _ _ _ _ Hl' Hw)|]. intros ls _. cbn beta. rewrite bool_decide_eq_true.
           split; [intros [[H _]|H]; [done|by rewrite H]|]. intros H. destruct (decide (value_of ls n = "")); tauto.
        -- eapply answers_ext; [exact Hl'|]. intros ls _. cbn beta. rewrite bool_decide_eq_true. split; [tauto|]. intros H. split; [done|]. intros E. rewrite E in H.
           apply exists_empty in H. congruence.
  - eapply answers_ext; [apply Hone|]. intros ls _. cbn beta. by rewrite bool_decide_eq_true.
Qed.

(** A prefix, or one of several, that no key ends within. *)
Definition prefix_ok (pv : PredicateValue) : Prop :=
  pv_all_nonempty pv = true /\ match pv with PvEmpty => True | PvString s => free_of Ascii.zero s | PvList l => Forall (free_of Ascii.zero) l end.

Lemma by_prefix_value_spec n pv : free_of equals_sign n -> prefix_ok pv ->
  answers (fun ls => matches_starts_with_any pv (value_of ls n) = true) (postings_by_prefix_value t n pv).
Proof.
  intros Hn [Hne Hz]. destruct pv as [|l|s]; cbn [postings_by_prefix_value matches_starts_with_any pv_all_nonempty] in *; [done| |].
  - rewrite Hne. cbn [andb]. apply andb_true_iff in Hne as [_ Hne]. rewrite forallb_forall in Hne.
    assert (forall acc P, answers P acc -> Forall (fun x => x <> "") l -> answers (fun ls => P ls \/ existsb (fun x => starts_with (value_of ls n) x) l = true)
      (fold_left (fun result prefix => result ∪ postings_by_prefix t n prefix) l acc)) as Hf.
    { clear Hne. induction Hz as [|x l Hx Hz IH]; intros acc P Hacc Hl; cbn [fold_left existsb].
      - eapply answers_ext; [exact Hacc|]. intros ls _. cbn beta. split; [by left|]. by intros [|].
      - apply Forall_cons in Hl as [Hx' Hl]. eapply answers_ext; [apply (IH _ _ (answers_union _ _ _ _ Hacc (by_prefix_spec n x Hn Hx Hx')) Hl)|].
        intros ls _. cbn beta. rewrite orb_true_iff. unfold starts_with. tauto. }
    eapply answers_ext; [apply (Hf ∅ (fun _ => False))|].
    + apply (proj2 (answers_empty _)). intros id k ls _ [].
    + apply Forall_forall. intros x Hx. apply is_empty_false, negb_true_iff, Hne. by apply list_elem_of_In.
    + intros ls _. cbn beta. tauto.
  - apply negb_true_iff in Hne as Hne'. rewrite Hne'. cbn [negb andb]. apply is_empty_false in Hne'. eapply answers_ext; [exact (by_prefix_spec n s Hn Hz Hne')|]. done.
Qed.

Context `{RegexEngine}.

(** When a filter selects a value: as [matches], with the lists as above. *)
Definition pm_selects (m : PredicateMatch) (v : string) : bool :=
  match m with
  | PmEqual pv => pv_selects pv v
  | PmNotEqual pv => negb (pv_selects pv v)
  | _ => pm_matches m v
  end.

Definition selects (f : LabelFilter) (ls : list Label) : Prop := pm_selects (matcher f) (value_of ls (lf_label f)) = true.

(** A regular expression anchored by [parse_regex_anchored] or [compile_regex], with
    the documented meaning of the two patterns the planner knows. *)
Record regex_ok (re : RegexMatcher) : Prop := {
  ro_anchored : regex_as_str (rx_regex re) <> "" /\ regex_as_str (rx_regex re) <> ".*";
  ro_dot_star : rx_value re = ".*" -> forall v, rx_is_match re v = true;
  ro_dot_plus : rx_value re = ".+" -> forall v, rx_is_match re v = negb (is_empty_string v);
}.

Definition matcher_ok (m : PredicateMatch) : Prop :=
  match m with
  | PmRegexEqual re | PmRegexNotEqual re => regex_ok re
  | PmStartsWith pv | PmNotStartsWith pv => prefix_ok pv
  | PmContains pv | PmNotContains pv => pv_all_nonempty pv = true
  | PmEqual _ | PmNotEqual _ | PmMatchAll | PmMatchNone => True
  end.

(** A filter as [create_with_value] makes it, on a label that can be a name. *)
Record filter_ok (f : LabelFilter) : Prop := {
  fo_label : lf_label f <> "";
  fo_name : free_of equals_sign (lf_label f);
  fo_matcher : matcher_ok (matcher f);
}.

Lemma contains_nil x : x <> "" -> contains "" x = false.
Proof. intros Hx. unfold contains, str_find. apply bool_decide_eq_false. destruct x; [done|]. by intros [? ?]. Qed.

Lemma starts_with_nil x : x <> "" -> starts_with "" x = false.
Proof. by destruct x. Qed.

Lemma nonempty_list l : forallb (fun x => negb (is_empty_string x)) l = true -> Forall (fun x => x <> "") l.
Proof. rewrite forallb_forall. intros Hl. apply Forall_forall. intros x Hx. apply is_empty_false, negb_true_iff, Hl. by apply list_elem_of_In. Qed.

Lemma none_of_nil (g : string -> string -> bool) l : (forall x, x <> "" -> g "" x = false) -> Forall (fun x => x <> "") l -> existsb (fun x => g "" x) l = false.
Proof. intros Hg Hl. induction Hl as [|x l Hx _ IH]; cbn; [done|]. by rewrite (Hg x Hx), IH. Qed.

Lemma none_all (g : string -> bool) l : forallb (fun x => negb (g x)) l = negb (existsb g l).
Proof. induction l as [|x l IH]; cbn; [done|]. by rewrite IH, negb_orb. Qed.

Lemma contains_any_nil pv : pv_all_nonempty pv = true -> matches_contains_any pv "" = false.
Proof.
  destruct pv as [|l|s]; cbn; [done| |].
  - intros Hl. rewrite Hl. apply andb_true_iff in Hl as [_ Hl]. apply none_of_nil; [apply contains_nil|by apply nonempty_list].
  - intros Hs. rewrite Hs. by apply negb_true_iff, is_empty_false, contains_nil in Hs.
Qed.

Lemma starts_any_nil pv : pv_all_nonempty pv = true -> matches_starts_with_any pv "" = false.
Proof.
  destruct pv as [|l|s]; cbn; [done| |].
  - intros Hl. rewrite Hl. apply andb_true_iff in Hl as [_ Hl]. apply none_of_nil; [apply starts_with_nil|by apply nonempty_list].
  - intros Hs. rewrite Hs. by apply negb_true_iff, is_empty_false, starts_with_nil in Hs.
Qed.

Lemma not_contains_neg pv v : pv_all_nonempty pv = true -> matches_not_contains_all pv v = negb (matches_contains_any pv v).
Proof. destruct pv as [|l|s]; cbn; [done|intros ->; apply none_all|by intros ->]. Qed.

Lemma not_starts_neg pv v : pv_all_nonempty pv = true -> matches_not_starts_with_all pv v = negb (matches_starts_with_any pv v).
Proof. destruct pv as [|l|s]; cbn; [done|intros ->; apply none_all|by intros ->]. Qed.

Lemma rx_match_prefix re q v : rx_prefix re = Some q -> v <> "" -> rx_is_match re v = true -> String.prefix q v = true.
Proof.
  intros Hq Hv. unfold rx_is_match. rewrite Hq, (proj2 (is_empty_false v) Hv). unfold starts_with. by destruct (String.prefix q v).
Qed.

(** A positive filter that no missing label satisfies. *)
Lemma positive_spec f : filter_ok f -> is_negative_matcher f = false -> lf_matches_empty f = false ->
  exists it, postings_for_filter t f = Ok it /\ answers (selects f) it.
Proof.
  intros [_ Hn Hm] Hneg He. unfold postings_for_filter. unfold selects, lf_matches_empty, lf_matches in *. unfold is_negative_matcher, lf_op in Hneg.
  destruct (matcher f) as [pv|pv| | |re|re|pv|pv|pv|pv] eqn:Em; try discriminate Hneg; cbn [pm_selects pm_matches matcher_ok] in *; try discriminate He.
  - eexists. split; [done|]. by apply equal_spec.
  - exists ∅. split; [done|]. by apply (proj2 (answers_empty _)).
  - unfold handle_regex_equal_match, lf_matches_empty, lf_matches. rewrite Em. cbn [pm_matches]. rewrite He. eexists. split; [done|].
    assert (forall ls, value_of ls (lf_label f) <> "" /\ rx_is_match re (value_of ls (lf_label f)) = true <-> rx_is_match re (value_of ls (lf_label f)) = true) as Hx.
    { intros ls. split; [tauto|]. intros Hr. split; [|done]. intros E. rewrite E in Hr. congruence. }
    destruct (rx_prefix re) as [q|] eqn:Eq; (eapply answers_ext; [|intros ls _; apply Hx]).
    + apply prefix_predicate_spec; [done|]. intros v. by apply rx_match_prefix.
    + by apply matching_spec.
  - eexists. split; [done|]. by apply by_prefix_value_spec.
  - eexists. split; [done|]. eapply answers_ext; [by apply matching_spec|]. intros ls _. cbn beta. split; [tauto|]. intros Hc. split; [|done]. intros E. rewrite E in Hc. congruence.
Qed.

(** The series to subtract for a filter that a missing label satisfies. *)
Lemma inverse_spec f : filter_ok f -> lf_matches f "" = true -> answers (fun ls => ~ selects f ls) (inverse_postings_for_filter t f).
Proof.
  intros [_ Hn Hm] He. unfold inverse_postings_for_filter. cbn zeta. unfold selects, lf_matches in *.
  destruct (matcher f) as [pv|pv| | |re|re|pv|pv|pv|pv] eqn:Em; cbn [pm_selects pm_matches matcher_ok] in *; try discriminate He.
  - assert (answers (fun ls => value_of ls (lf_label f) <> "" /\ negb (pv_matches pv (value_of ls (lf_label f))) = true)
              (postings_for_label_matching t (lf_label f) (fun s => negb (pv_matches pv s)))) as Hs by (by apply matching_spec).
    destruct pv as [|[|x l]|s]; cbn [pv_matches pv_selects] in *; [| |discriminate He|].
    + eapply answers_ext; [exact Hs|]. intros ls _. cbn beta. rewrite negb_true_iff, is_empty_false, is_empty_true. tauto.
    + eapply answers_ext; [exact Hs|]. intros ls _. cbn beta. rewrite is_empty_true. split; [tauto|]. intros Hv. split; [done|]. by rewrite (proj2 (is_empty_false _) Hv).
    + apply bool_decide_eq_true in He as ->. cbn. eapply answers_ext; [by apply all_values_spec|]. intros ls _. cbn beta. rewrite bool_decide_eq_true. split; congruence.
  - eapply answers_ext; [by apply equal_spec|]. intros ls _. cbn beta. by destruct (pv_selects _ _).
  - apply (proj2 (answers_empty _)). intros id k ls _ Hc. by apply Hc.
  - rewrite (bool_decide_false _ (proj1 (ro_anchored re Hm))), (bool_decide_false _ (proj2 (ro_anchored re Hm))). cbn [orb].
    eapply answers_ext; [by apply matching_spec|]. intros ls _. cbn beta. rewrite negb_true_iff, not_true_iff_false. split; [tauto|]. intros Hr. split; [|done]. intros E. rewrite E in Hr. congruence.
  - eapply answers_ext; [by apply matching_spec|]. intros ls _. cbn beta. rewrite negb_involutive, negb_true_iff, not_false_iff_true. split; [tauto|]. intros Hr. split; [|done].
    intros E. rewrite E in Hr. by rewrite Hr in He.
  - exfalso. rewrite starts_any_nil in He by apply Hm. done.
  - eapply answers_ext; [by apply by_prefix_value_spec|]. intros ls _. cbn beta. rewrite not_starts_neg by apply Hm. by destruct (matches_starts_with_any _ _).
  - exfalso. by rewrite contains_any_nil in He.
  - eapply answers_ext; [by apply matching_spec|]. intros ls _. cbn beta. rewrite not_contains_neg by done. split.
    + intros [_ ->]. done.
    + intros Hc. apply not_true_iff_false, negb_false_iff in Hc. split; [|done]. intros E. rewrite E, contains_any_nil in Hc by done. done.
Qed.

(** A negative filter that a missing label does not satisfy, on a value. *)
Lemma negative_spec f : filter_ok f -> is_negative_matcher f = true -> lf_matches f "" = false -> (forall pv, matcher f = PmNotEqual pv -> pv_is_empty pv = false) ->
  answers (selects f) (inverse_postings_for_filter t (lf_inverse f)).
Proof.
  intros [_ Hn Hm] Hneg He Hne. unfold inverse_postings_for_filter. cbn zeta. unfold selects, lf_matches in *. cbn [lf_inverse matcher lf_label]. unfold is_negative_matcher, lf_op in Hneg.
  destruct (matcher f) as [pv|pv| | |re|re|pv|pv|pv|pv] eqn:Em; try discriminate Hneg; cbn [pm_selects pm_matches matcher_ok pm_inverse] in *.
  - exfalso. specialize (Hne pv eq_refl). apply negb_false_iff in He. destruct pv as [|[|x l]|s]; cbn in *; [done..|]. apply bool_decide_eq_true in He as ->. done.
  - rewrite (bool_decide_false _ (proj1 (ro_anchored re Hm))), (bool_decide_false _ (proj2 (ro_anchored re Hm))). cbn [orb].
    eapply answers_ext; [by apply matching_spec|]. intros ls _. cbn beta. split; [tauto|]. intros Hr. split; [|done]. intros E. rewrite E in Hr. congruence.
  - exfalso. rewrite not_starts_neg, starts_any_nil in He by apply Hm. done.
  - exfalso. rewrite not_contains_neg, contains_any_nil in He by done. done.
Qed.

(** ** Lists of filters *)

Lemma answers_live P s id k ls : answers P s -> db !! id = Some (k, ls) -> id ∈ s <-> P ls.
Proof. intros Hs Hd. rewrite (Hs id). split; [intros (k' & ls' & Hd' & Hp); by simplify_eq|eauto]. Qed.

Lemma answers_dom P s : answers P s -> s ⊆ dom db.
Proof. intros Hs id Hid. apply Hs in Hid as (k & ls & Hd & _). apply elem_of_dom. eauto. Qed.

(** The sets [A] to intersect and [B] to subtract select what the filters do. *)
Definition planned (A B : list PostingsBitmap) (fs : list LabelFilter) : Prop :=
  Forall (fun s => s ⊆ dom db) A /\
  forall id k ls, db !! id = Some (k, ls) -> Forall (fun s => id ∈ s) A /\ Forall (fun s => id ∉ s) B <-> Forall (fun f => selects f ls) fs.

Lemma planned_nil : planned [] [] [].
Proof. split; [done|]. intros id k ls _. done. Qed.

Lemma planned_it A B f fs s : answers (selects f) s -> planned A B fs -> planned (s :: A) B (f :: fs).
Proof.
  intros Hs [Ha Hp]. split; [constructor; [by eapply answers_dom|done]|]. intros id k ls Hd. rewrite !Forall_cons, <- (Hp id k ls Hd), (answers_live _ s id k ls Hs Hd). tauto.
Qed.

Lemma planned_not A B f fs s : answers (fun ls => ~ selects f ls) s -> planned A B fs -> planned A (s :: B) (f :: fs).
Proof.
  intros Hs [Ha Hp]. split; [done|]. intros id k ls Hd. rewrite !Forall_cons, <- (Hp id k ls Hd), (answers_live _ s id k ls Hs Hd).
  assert (selects f ls \/ ~ selects f ls) by (unfold selects; destruct (pm_selects _ _); [by left|by right]). tauto.
Qed.

Lemma planned_skip A B f fs : (forall ls, selects f ls) -> planned A B fs -> planned A B (f :: fs).
Proof. intros Hf [Ha Hp]. split; [done|]. intros id k ls Hd. rewrite Forall_cons, <- (Hp id k ls Hd). specialize (Hf ls). tauto. Qed.

(** No series satisfies the filters. *)
Definition unsatisfied (fs : list LabelFilter) : Prop := forall id k ls, db !! id = Some (k, ls) -> ~ Forall (fun f => selects f ls) fs.

Lemma unsatisfied_head f fs : answers (selects f) ∅ -> unsatisfied (f :: fs).
Proof. intros Hf id k ls Hd Hs. apply Forall_cons in Hs as [Hs _]. by apply (proj1 (answers_empty _) Hf id k ls Hd). Qed.

Lemma unsatisfied_tail f fs : unsatisfied fs -> unsatisfied (f :: fs).
Proof. intros Hf id k ls Hd Hs. apply Forall_cons in Hs as [_ Hs]. by apply (Hf id k ls Hd). Qed.

(** What the loop ends with, for the filters it has still to see. *)
Definition plan_ok (fs : list LabelFilter) (its not_its : list PostingsBitmap) (plan : Planned) : Prop :=
  match plan with
  | PlannedResult r => r = ∅ /\ unsatisfied fs
  | PlannedSets its' not_its' => exists A B, its' = its ++ A /\ not_its' = not_its ++ B /\ planned A B fs
  end.

Lemma plan_ok_it f fs its not_its s plan : answers (selects f) s -> plan_ok fs (its ++ [s]) not_its plan -> plan_ok (f :: fs) its not_its plan.
Proof.
  intros Hs. destruct plan as [r|its' not_its']; cbn.
  - intros [-> Hu]. split; [done|]. by apply unsatisfied_tail.
  - intros (A & B & -> & -> & Hp). exists (s :: A), B. rewrite <- app_assoc. split_and!; [done..|]. by apply planned_it.
Qed.

Lemma plan_ok_not f fs its not_its s plan : answers (fun ls => ~ selects f ls) s -> plan_ok fs its (not_its ++ [s]) plan -> plan_ok (f :: fs) its not_its plan.
Proof.
  intros Hs. destruct plan as [r|its' not_its']; cbn.
  - intros [-> Hu]. split; [done|]. by apply unsatisfied_tail.
  - intros (A & B & -> & -> & Hp). exists A, (s :: B). rewrite <- app_assoc. split_and!; [done..|]. by apply planned_not.
Qed.

Lemma plan_ok_skip f fs its not_its plan : (forall ls, selects f ls) -> plan_ok fs its not_its plan -> plan_ok (f :: fs) its not_its plan.
Proof.
  intros Hs. destruct plan as [r|its' not_its']; cbn.
  - intros [-> Hu]. split; [done|]. by apply unsatisfied_tail.
  - intros (A & B & -> & -> & Hp). exists A, B. split_and!; [done..|]. by apply planned_skip.
Qed.

(** The step that adds a set to intersect, unless it is empty. *)
Lemma plan_nonempty f fs its not_its s (rest : result QueryError Planned) : answers (selects f) s ->
  (exists plan, rest = Ok plan /\ plan_ok fs (its ++ [s]) not_its plan) ->
  exists plan, (if bool_decide (s = ∅) then Ok (PlannedResult ∅) else rest) = Ok plan /\ plan_ok (f :: fs) its not_its plan.
Proof.
  intros Hs (plan & E & Hp). case_bool_decide as Es.
  - subst s. exists (PlannedResult ∅). split; [done|]. split; [done|]. by apply unsatisfied_head.
  - exists plan. split; [done|]. by eapply plan_ok_it.
Qed.

(** The two patterns of regular expressions the loop knows. *)
Lemma dot_star_all f re : matcher f = PmRegexEqual re -> regex_ok re -> rx_value re = ".*" -> forall ls, selects f ls.
Proof. intros E Hr Hv ls. unfold selects. rewrite E. by apply ro_dot_star. Qed.

Lemma dot_star_none f re : matcher f = PmRegexNotEqual re -> regex_ok re -> rx_value re = ".*" -> answers (selects f) ∅.
Proof. intros E Hr Hv. apply (proj2 (answers_empty _)). intros id k ls _. unfold selects. rewrite E. cbn. by rewrite (ro_dot_star re Hr Hv). Qed.

Lemma dot_plus_spec f re : filter_ok f -> matcher f = PmRegexEqual re -> rx_value re = ".+" -> answers (selects f) (postings_for_all_label_values t (lf_label f)).
Proof.
  intros [_ Hn Hm] E Hv. rewrite E in Hm. eapply answers_ext; [by apply all_values_spec|]. intros ls _. cbn beta. unfold selects. rewrite E. cbn.
  by rewrite (ro_dot_plus re Hm Hv), negb_true_iff, is_empty_false.
Qed.

Lemma dot_plus_not_spec f re : filter_ok f -> matcher f = PmRegexNotEqual re -> rx_value re = ".+" ->
  answers (fun ls => ~ selects f ls) (postings_for_all_label_values t (lf_label f)).
Proof.
  intros [_ Hn Hm] E Hv. rewrite E in Hm. eapply answers_ext; [by apply all_values_spec|]. intros ls _. cbn beta. unfold selects. rewrite E. cbn.
  rewrite (ro_dot_plus re Hm Hv), negb_involutive, is_empty_true. done.
Qed.

Lemma not_empty_spec f pv : filter_ok f -> matcher f = PmNotEqual pv -> pv_is_empty pv = true -> answers (selects f) (postings_for_all_label_values t (lf_label f)).
Proof.
  intros [_ Hn Hm] E Hv. eapply answers_ext; [by apply all_values_spec|]. intros ls _. cbn beta. unfold selects. rewrite E. cbn.
  rewrite negb_true_iff. destruct pv as [|[|x l]|s]; cbn in *; [by rewrite is_empty_false..|discriminate Hv|]. apply is_empty_true in Hv as ->. rewrite bool_decide_eq_false. split; congruence.
Qed.

Abbreviation annotated := (LabelFilter * bool * bool)%type.
Definition annotated_ok (m : annotated) : Prop := filter_ok m.1.1 /\ m.1.2 = lf_matches m.1.1 "".
Definition filter_of (m : annotated) : LabelFilter := m.1.1.

Lemma plan_otherwise f fs (rest : list PostingsBitmap -> list PostingsBitmap -> result QueryError Planned) its not_its : filter_ok f ->
  (forall its not_its, exists plan, rest its not_its = Ok plan /\ plan_ok fs its not_its plan) ->
  exists plan,
    (if match matcher f with PmNotEqual v => pv_is_empty v | _ => false end then
       let it := postings_for_all_label_values t (lf_label f) in
       if bool_decide (it = ∅) then Ok (PlannedResult ∅) else rest (its ++ [it]) not_its
     else if negb (lf_matches f "") then
       (let? it := (if is_negative_matcher f then Ok (inverse_postings_for_filter t (lf_inverse f)) else postings_for_filter t f) in
        if bool_decide (it = ∅) then Ok (PlannedResult ∅) else rest (its ++ [it]) not_its)%result
     else rest its (not_its ++ [inverse_postings_for_filter t f])) = Ok plan /\ plan_ok (f :: fs) its not_its plan.
Proof.
  intros Hf Hrest. destruct (match matcher f with PmNotEqual v => pv_is_empty v | _ => false end) eqn:Eempty.
  - cbn zeta. apply plan_nonempty; [|apply Hrest]. destruct (matcher f) eqn:Em; try discriminate Eempty. by eapply not_empty_spec.
  - destruct (lf_matches f "") eqn:Em; cbn [negb].
    + destruct (Hrest its (not_its ++ [inverse_postings_for_filter t f])) as (plan & -> & Hp). exists plan. split; [done|]. eapply plan_ok_not; [|exact Hp]. by apply inverse_spec.
    + destruct (is_negative_matcher f) eqn:En.
      * apply plan_nonempty; [|apply Hrest]. apply negative_spec; [done..|]. intros pv E. rewrite E in Eempty. done.
      * destruct (positive_spec f Hf En Em) as (it & -> & Hit). apply plan_nonempty; [exact Hit|apply Hrest].
Qed.

Lemma plan_loop_spec ms : Forall annotated_ok ms -> forall its not_its, exists plan, plan_loop t ms its not_its = Ok plan /\ plan_ok (map filter_of ms) its not_its plan.
Proof.
  induction 1 as [|[[f me] sub] ms [Hf Hme] Hms IH]; intros its not_its; cbn [plan_loop map filter_of fst].
  { exists (PlannedSets its not_its). split; [done|]. exists [], []. rewrite !app_nil_r. split_and!; [done..|]. apply planned_nil. }
  cbn [fst snd] in Hme. subst me. rewrite (proj2 (is_empty_false _) (fo_label f Hf)). cbn [andb].
  pose proof (plan_otherwise f (map filter_of ms) (plan_loop t ms) its not_its Hf IH) as Hother. pose proof (fo_matcher f Hf) as Hm.
  unfold lf_op, regex_text. change (map filter_of ((f, lf_matches f "", sub) :: ms)) with (f :: map filter_of ms).
  destruct (matcher f) as [pv|pv| | |re|re|pv|pv|pv|pv] eqn:Em; cbn [pm_op default]; try exact Hother.
  - destruct (IH its not_its) as (plan & -> & Hp). exists plan. split; [done|]. apply plan_ok_skip; [|exact Hp]. intros ls. unfold selects. by rewrite Em.
  - exists (PlannedResult ∅). split; [done|]. split; [done|]. apply unsatisfied_head, (proj2 (answers_empty _)). intros id k ls _. unfold selects. by rewrite Em.
  - case_bool_decide as E1; [|case_bool_decide as E2; [|exact Hother]].
    + destruct (IH its not_its) as (plan & -> & Hp). exists plan. split; [done|]. apply plan_ok_skip; [|exact Hp]. by eapply dot_star_all.
    + destruct (IH (its ++ [postings_for_all_label_values t (lf_label f)]) not_its) as (plan & -> & Hp). exists plan. split; [done|]. eapply plan_ok_it; [|exact Hp]. by eapply dot_plus_spec.
  - case_bool_decide as E1; [|case_bool_decide as E2; [|exact Hother]].
    + exists (PlannedResult ∅). split; [done|]. split; [done|]. apply unsatisfied_head. by eapply dot_star_none.
    + destruct (IH its (not_its ++ [postings_for_all_label_values t (lf_label f)])) as (plan & -> & Hp). exists plan. split; [done|]. eapply plan_ok_not; [|exact Hp]. by eapply dot_plus_not_spec.
Qed.

Lemma intersect_rest_spec its : forall acc id, id ∈ intersect_rest acc its <-> id ∈ acc /\ Forall (fun s => id ∈ s) its.
Proof.
  induction its as [|s its IH]; intros acc id; cbn [intersect_rest]; [split; [done|tauto]|]. rewrite Forall_cons. case_bool_decide as E; [subst s; set_solver|]. rewrite IH. set_solver.
Qed.

Lemma intersection_spec its id : its <> [] -> id ∈ intersection_of its <-> Forall (fun s => id ∈ s) its.
Proof. destruct its as [|s its]; [done|]. intros _. cbn [intersection_of]. by rewrite intersect_rest_spec, Forall_cons. Qed.

Lemma subtract_spec nots : forall (acc : gset Z) id, id ∈ fold_left (fun result not => result ∖ not) nots acc <-> id ∈ acc /\ Forall (fun s => id ∉ s) nots.
Proof. induction nots as [|s nots IH]; intros acc id; cbn [fold_left]; [split; [done|tauto]|]. rewrite IH, Forall_cons. set_solver. Qed.

Context `{SortBy} `{!SortByLaws}.

(** What the planner makes of the sets it found. *)
Lemma combine_spec (all_its : list PostingsBitmap) A B fs : planned A B fs -> Forall (fun s => s = tm_all t) all_its ->
  answers (fun ls => Forall (fun f => selects f ls) fs)
    (fold_left (fun result not => result ∖ not) B
       (match all_its ++ A with [] => tm_all t | _ => intersection_of (sort_by (fun a b => (size a ?= size b)%nat) (all_its ++ A)) end)).
Proof.
  intros [Ha Hp] Hall id. rewrite subtract_spec.
  assert (id ∈ match all_its ++ A with [] => tm_all t | _ => intersection_of (sort_by (fun a b => (size a ?= size b)%nat) (all_its ++ A)) end <->
          id ∈ tm_all t /\ Forall (fun s => id ∈ s) A) as ->.
  { destruct (all_its ++ A) as [|x l] eqn:E.
    - apply app_eq_nil in E as [_ ->]. split; [done|tauto].
    - rewrite intersection_spec by (intros Hn; pose proof (sort_by_perm _ (fun a b : gset Z => (size a ?= size b)%nat) (x :: l)) as Hs; rewrite Hn in Hs; by apply Permutation_nil_cons in Hs).
      rewrite sort_by_perm, <- E, Forall_app. split.
      + intros [Hone Htwo]. split; [|done]. destruct all_its as [|y all_its]; [|apply Forall_cons in Hall as [-> _]; by apply Forall_cons in Hone as [Hone _]].
        cbn in E. subst A. apply Forall_cons in Ha as [Hx _]. apply Forall_cons in Htwo as [Htwo _]. cbn. rewrite (ir_all p db Hrep). by apply Hx.
      + intros [Hone Htwo]. split; [|done]. eapply Forall_impl; [exact Hall|]. by intros s ->. }
  split.
  - intros [[Hid HA] HB]. apply answers_all in Hid as (k & ls & Hd & _). exists k, ls. split; [done|]. by apply (Hp id k ls Hd).
  - intros (k & ls & Hd & Hs). apply (Hp id k ls Hd) in Hs as [HA HB]. split; [|done]. split; [|done]. apply answers_all. eauto.
Qed.

Lemma plan_filters_spec fs : Forall filter_ok fs -> exists r, plan_filters t fs = Ok r /\ answers (fun ls => Forall (fun f => selects f ls) fs) r.
Proof.
  intros Hfs. unfold plan_filters. set (ms := map (fun m => (m, lf_matches m "", lf_matches m "" || is_negative_matcher m)) fs). cbn zeta.
  assert (Forall annotated_ok (sort_by matcher_order ms)) as Hms.
  { rewrite sort_by_perm. apply Forall_map. eapply Forall_impl; [exact Hfs|]. intros f Hf. by split. }
  assert (map filter_of (sort_by matcher_order ms) ≡ₚ fs) as Hperm.
  { rewrite sort_by_perm. unfold ms. rewrite map_map. cbn. by rewrite map_id. }
  match goal with |- context [plan_loop t _ ?its []] => set (its0 := its) end.
  assert (Forall (fun s => s = tm_all t) its0) as Hits by (unfold its0; case_match; by repeat constructor).
  destruct (plan_loop_spec _ Hms its0 []) as (plan & -> & Hp).
  assert (forall Q R s, answers Q s -> (forall ls, Q ls <-> R ls) -> answers R s) as Hext by (intros Q R s Hq He; eapply answers_ext; [exact Hq|]; intros ls _; apply He).
  destruct plan as [r|its not_its]; cbn in Hp.
  - destruct Hp as [-> Hu]. exists ∅. split; [done|]. apply (proj2 (answers_empty _)). intros id k ls Hd. rewrite <- Hperm. by apply (Hu id k ls).
  - destruct Hp as (A & B & -> & -> & Hp). pose proof (combine_spec its0 A B _ Hp Hits) as Hc. cbn [app].
    assert (answers (fun ls => Forall (fun f => selects f ls) fs) (fold_left (fun result not => result ∖ not) B
       (match its0 ++ A with [] => tm_all t | _ => intersection_of (sort_by (fun a b => (size a ?= size b)%nat) (its0 ++ A)) end))) as Hc'.
    { eapply Hext; [exact Hc|]. intros ls. cbn beta. by rewrite Hperm. }
    clear Hc. destruct (its0 ++ A) as [|x [|y l]] eqn:E; [by eexists| |by eexists]. destruct B as [|b B]; [|by eexists]. exists x. split; [done|].
    cbn [fold_left] in Hc'. assert (sort_by (fun a b : gset Z => (size a ?= size b)%nat) [x] = [x]) as Hx by (apply Permutation_singleton_r, sort_by_perm). by rewrite Hx in Hc'.
Qed.

Lemma filters_spec fs : Forall filter_ok fs -> exists r, postings_for_label_filters t fs = Ok r /\ answers (fun ls => Forall (fun f => selects f ls) fs) r.
Proof.
  intros Hfs. pose proof (plan_filters_spec fs Hfs) as Hplan. unfold postings_for_label_filters. destruct fs as [|f [|g fs]]; [|apply Forall_cons in Hfs as [Hf _]|exact Hplan].
  - exists (tm_all t). split; [done|]. eapply answers_ext; [apply answers_all|]. intros ls _. done.
  - rewrite (proj2 (is_empty_false _) (fo_label f Hf)). cbn [andb]. destruct (is_negative_matcher f) eqn:En; [exact Hplan|]. destruct (lf_matches_empty f) eqn:Em; [exact Hplan|]. cbn [negb andb].
    destruct (positive_spec f Hf En Em) as (it & -> & Hit). exists it. split; [case_bool_decide as E; [by rewrite E|done]|].
    eapply answers_ext; [exact Hit|]. intros ls _. cbn beta. rewrite Forall_singleton. done.
Qed.

(** ** Selectors *)

Definition selector_ok (s : SeriesSelector) : Prop := match s with SelAnd fs => Forall filter_ok fs | SelOr groups => Forall (Forall filter_ok) groups end.

(** Every filter of a list; one of several lists, none of no lists. *)
Definition selector_selects (s : SeriesSelector) (ls : list Label) : Prop :=
  match s with
  | SelAnd fs => Forall (fun f => selects f ls) fs
  | SelOr [] => True
  | SelOr groups => Exists (fun fs => Forall (fun f => selects f ls) fs) groups
  end.

Lemma or_loop_spec groups : Forall (Forall filter_ok) groups -> forall P acc, answers P acc ->
  exists r, or_loop t acc groups = Ok r /\ answers (fun ls => P ls \/ Exists (fun fs => Forall (fun f => selects f ls) fs) groups) r.
Proof.
  induction 1 as [|fs groups Hfs Hgs IH]; intros P acc Hacc; cbn [or_loop].
  - exists acc. split; [done|]. eapply answers_ext; [exact Hacc|]. intros ls _. cbn beta. rewrite Exists_nil. tauto.
  - destruct (filters_spec fs Hfs) as (r & -> & Hr). destruct (IH _ _ (answers_union _ _ _ _ Hacc Hr)) as (r' & -> & Hr'). exists r'. split; [done|].
    eapply answers_ext; [exact Hr'|]. intros ls _. cbn beta. rewrite Exists_cons. tauto.
Qed.

Lemma selector_spec s : selector_ok s -> exists r, postings_for_selector t s = Ok r /\ answers (selector_selects s) r.
Proof.
  destruct s as [groups|fs]; cbn [selector_ok postings_for_selector selector_selects]; [|apply filters_spec]. intros Hg. unfold process_or_matchers.
  destruct groups as [|fs [|gs groups]].
  - exists (tm_all t). split; [done|]. apply answers_all.
  - apply Forall_cons in Hg as [Hfs _]. destruct (filters_spec fs Hfs) as (r & -> & Hr). exists r. split; [done|]. eapply answers_ext; [exact Hr|]. intros ls _. cbn beta. cbn [selector_selects].
    rewrite Exists_cons, Exists_nil. tauto.
  - destruct (or_loop_spec _ Hg (fun _ => False) ∅) as (r & -> & Hr); [apply (proj2 (answers_empty _)); intros ? ? ? _ []|]. exists r. split; [done|].
    eapply answers_ext; [exact Hr|]. intros ls _. cbn beta. cbn [selector_selects]. tauto.
Qed.

Lemma and_loop_spec ss : Forall selector_ok ss -> forall P acc, answers P acc ->
  exists r, and_loop t acc ss = Ok r /\ answers (fun ls => P ls /\ Forall (fun s => selector_selects s ls) ss) r.
Proof.
  induction 1 as [|s ss Hs Hss IH]; intros P acc Hacc; cbn [and_loop].
  - exists acc. split; [done|]. eapply answers_ext; [exact Hacc|]. intros ls _. cbn beta. split; [done|tauto].
  - destruct (selector_spec s Hs) as (r & -> & Hr). destruct (IH _ _ (answers_inter _ _ _ _ Hacc Hr)) as (r' & -> & Hr'). exists r'. split; [done|].
    eapply answers_ext; [exact Hr'|]. intros ls _. cbn beta. rewrite Forall_cons. tauto.
Qed.

Lemma mask_answers P s : answers P s -> mask (tm_stale t) s = s.
Proof.
  intros Hs. rewrite mask_spec. apply set_eq. intros id. rewrite elem_of_difference. split; [tauto|]. intros Hid. split; [done|]. intros Hst. cbn in Hst.
  apply (ir_stale p db Hrep) in Hst. apply Hs in Hid as (k & ls & Hd & _). congruence.
Qed.

Lemma selectors_spec ss : ss <> [] -> Forall selector_ok ss ->
  exists r, postings_for_selectors p ss = Ok r /\ answers (fun ls => Forall (fun s => selector_selects s ls) ss) r.
Proof.
  intros Hne Hss. unfold postings_for_selectors. destruct ss as [|s [|s' ss]]; [done| |].
  - apply Forall_cons in Hss as [Hs _]. destruct (selector_spec s Hs) as (r & -> & Hr). exists r. rewrite (mask_answers _ _ Hr). split; [done|].
    eapply answers_ext; [exact Hr|]. intros ls _. cbn beta. by rewrite Forall_singleton.
  - apply Forall_cons in Hss as [Hs Hss]. destruct (selector_spec s Hs) as (r & -> & Hr). destruct (and_loop_spec _ Hss _ _ Hr) as (r' & -> & Hr'). exists r'.
    rewrite (mask_answers _ _ Hr'). split; [done|]. eapply answers_ext; [exact Hr'|]. intros ls _. cbn beta. by rewrite (Forall_cons _ s).
Qed.

End Answers.
