(* ===== verification/PostingsRun.v ===== *)
(** * PostingsRun: the index as a state machine

    What each mutation does to the postings of a key, that loading series in bulk
    is indexing them one by one, and the invariant of every sequence of indexing,
    removal, marking, draining and optimising: the index represents the series it
    should, and a pass that drains stale ids has left none behind its cursor. *)

From stdpp Require Import strings list gmap sets sorting.
From S2P Require Import Prelude MRange MRangeLaws LabelFilters Postings PostingsLaws.

Local Open Scope string_scope.
Local Open Scope list_scope.
Local Open Scope Z_scope.

(** ** Sets behind keys *)

Lemma in_index_insert i key bmp key' id : in_index (<[key := bmp]> i) key' id <-> (key' = key /\ id ∈ bmp) \/ (key' <> key /\ in_index i key' id).
Proof.
  unfold in_index. destruct (decide (key' = key)) as [->|Hne].
  - rewrite lookup_insert_eq. naive_solver.
  - rewrite (lookup_insert_ne i key key' bmp) by congruence. naive_solver.
Qed.

Lemma in_index_delete i key key' id : in_index (delete key i) key' id <-> key' <> key /\ in_index i key' id.
Proof.
  unfold in_index. destruct (decide (key' = key)) as [->|Hne].
  - rewrite lookup_delete_eq. naive_solver.
  - rewrite (lookup_delete_ne i key key') by congruence. naive_solver.
Qed.

Lemma in_index_default i key id : in_index i key id <-> id ∈ default ∅ (i !! key).
Proof. unfold in_index. destruct (i !! key) as [b|]; cbn; naive_solver set_solver. Qed.

Lemma add_many_in i key ids key' id : in_index (add_many_for_key i key ids) key' id <-> in_index i key' id \/ (key' = key /\ id ∈ ids).
Proof.
  unfold add_many_for_key. destruct (i !! key) as [b|] eqn:E; rewrite in_index_insert; destruct (decide (key' = key)) as [->|Hne];
    rewrite ?in_index_default, ?E; cbn; set_solver.
Qed.

Lemma add_posting_many p id n v : (add_posting_for_label_value_internal p id n v).2 = with_index p (add_many_for_key (label_index p) (for_label_value n v) [id]).
Proof.
  unfold add_posting_for_label_value_internal, add_many_for_key. case_match; cbn [snd]; do 2 f_equal; apply leibniz_equiv; set_solver.
Qed.

(** The keys of a list of labels. *)
Definition keys_of (ls : list Label) : list IndexKey := map (fun l => for_label_value l.1 l.2) ls.

Lemma in_keys_of key ls : key ∈ keys_of ls <-> exists n v, key = for_label_value n v /\ (n, v) ∈ ls.
Proof. unfold keys_of. rewrite list_elem_of_fmap. split; [intros ([n v] & -> & H); eauto|]. intros (n & v & -> & H). by exists (n, v). Qed.

(** The postings of [id] under every one of [keys]. *)
Definition add_keys (i : PostingsIndex) (id : SeriesRef) (keys : list IndexKey) : PostingsIndex := fold_left (fun i k => add_many_for_key i k [id]) keys i.

Lemma add_keys_in keys : forall i id key x, in_index (add_keys i id keys) key x <-> in_index i key x \/ (x = id /\ key ∈ keys).
Proof.
  induction keys as [|k keys IH]; intros i id key x; cbn [add_keys fold_left]; [set_solver|].
  unfold add_keys in IH. rewrite IH, add_many_in. set_solver.
Qed.

Lemma add_keys_dom keys : forall i id, dom (add_keys i id keys) = dom i ∪ list_to_set keys.
Proof.
  induction keys as [|k keys IH]; intros i id; cbn [add_keys fold_left list_to_set]; [set_solver|].
  unfold add_keys in IH. rewrite IH. unfold add_many_for_key. case_match; rewrite dom_insert_L; set_solver.
Qed.

Lemma index_fold ls : forall p id, fold_left (fun p (l : Label) => (add_posting_for_label_value_internal p id l.1 l.2).2) ls p = with_index p (add_keys (label_index p) id (keys_of ls)).
Proof.
  induction ls as [|[n v] ls IH]; intros p id; cbn [fold_left keys_of map add_keys]; [by destruct p|].
  rewrite IH, add_posting_many. by destruct p.
Qed.

Lemma stale_ext s s' : st_ids s = st_ids s' -> st_pass s = st_pass s' -> s = s'.
Proof. destruct s, s'. cbn. by intros -> ->. Qed.

(** Revoking an id of an empty set changes nothing, so the test before it does not matter. *)
Lemma revoke_guard s id : (if negb (stale_is_empty s) then revoke s id else s) = revoke s id.
Proof. unfold stale_is_empty. case_bool_decide as E; [|done]. apply stale_ext; [|done]. cbn. set_solver. Qed.

(** [index_timeseries], field by field. *)
Lemma index_timeseries_eq p ts key : index_timeseries p ts key =
  mkPostings (add_keys (label_index p) (ix_id ts) (keys_of (ix_labels ts))) (<[ix_id ts := key]> (id_to_key p)) (revoke (stale_ids p) (ix_id ts)) (all_postings p ∪ {[ix_id ts]}).
Proof.
  unfold index_timeseries. assert (Hs : (if negb (stale_is_empty (stale_ids p)) then with_stale p (revoke (stale_ids p) (ix_id ts)) else p) = with_stale p (revoke (stale_ids p) (ix_id ts))).
  { rewrite <- (revoke_guard (stale_ids p)). by case_match; [|destruct p]. }
  rewrite Hs, index_fold. unfold set_timeseries_key. cbn. case_bool_decide as E; [|done]. by rewrite insert_id.
Qed.

(** ** Bulk loading *)

Definition pairs_added (i : PostingsIndex) (pairs : list (IndexKey * SeriesRef)) (j : PostingsIndex) : Prop :=
  dom j = dom i ∪ list_to_set (map fst pairs) /\ forall key id, in_index j key id <-> in_index i key id \/ (key, id) ∈ pairs.

Lemma index_ext (i j : PostingsIndex) : dom i = dom j -> (forall key id, in_index i key id <-> in_index j key id) -> i = j.
Proof.
  intros Hd Hi. apply map_eq. intros key. pose proof (Hi key) as Hk. setoid_rewrite in_index_default in Hk.
  assert (Hs : is_Some (i !! key) <-> is_Some (j !! key)) by (rewrite <- !elem_of_dom, Hd; done).
  destruct (i !! key) as [b|], (j !! key) as [c|]; cbn in Hk; [|destruct (proj1 Hs); [by eexists|done]|destruct (proj2 Hs); [by eexists|done]|done].
  f_equal. apply leibniz_equiv. intros x. apply Hk.
Qed.

(** The run being gathered stands for its pairs. *)
Definition run_pairs (current : option IndexKey) (run : list SeriesRef) : list (IndexKey * SeriesRef) :=
  match current with Some k => map (fun id => (k, id)) run | None => [] end.

Lemma flush_added i current run : run <> [] \/ current = None -> pairs_added i (run_pairs current run) (flush_run i current run).
Proof.
  intros Hr. destruct current as [k|]; cbn; [|split; [set_solver|cbn; set_solver]]. split.
  - assert (Hd : dom (add_many_for_key i k run) = dom i ∪ {[k]}) by (unfold add_many_for_key; case_match; rewrite dom_insert_L; set_solver).
    rewrite Hd, map_map. cbn. f_equal. apply leibniz_equiv. intros x. rewrite elem_of_list_to_set, elem_of_singleton. destruct run as [|r run]; [by destruct Hr|].
    split; [intros ->; cbn; apply elem_of_cons; by left|]. intros (? & -> & _)%list_elem_of_fmap. done.
  - intros key id. rewrite add_many_in. rewrite list_elem_of_fmap. naive_solver.
Qed.

Lemma run_walk pairs : forall i0 i current run done, pairs_added i0 done i -> (run <> [] \/ current = None) ->
  let '(j, c, r) := fold_left run_step pairs (i, current, run) in pairs_added i0 (done ++ run_pairs current run ++ pairs) (flush_run j c r).
Proof.
  induction pairs as [|[k id] pairs IH]; intros i0 i current run done [Hd Hi] Hr; cbn [fold_left].
  - destruct (flush_added i current run Hr) as [Hd' Hi']. rewrite app_nil_r. split.
    + rewrite Hd', Hd, map_app, list_to_set_app_L. set_solver.
    + intros key x. rewrite Hi', Hi, elem_of_app. tauto.
  - unfold run_step at 2. cbn [fst snd]. case_bool_decide as E.
    + subst current. specialize (IH i0 i (Some k) (run ++ [id]) done (conj Hd Hi)). case_match. case_match.
      cbn [run_pairs] in *. rewrite map_app, <- app_assoc in IH. apply IH. left. by destruct run.
    + destruct (flush_added i current run Hr) as [Hd' Hi']. specialize (IH i0 (flush_run i current run) (Some k) [id] (done ++ run_pairs current run)).
      case_match. case_match. cbn [run_pairs map] in IH. rewrite <- app_assoc in IH. apply IH; [|by left]. split.
      * rewrite Hd', Hd, map_app, list_to_set_app_L. set_solver.
      * intros key x. rewrite Hi', Hi, elem_of_app. tauto.
Qed.

Lemma pairs_added_perm i l l' j : l ≡ₚ l' -> pairs_added i l j -> pairs_added i l' j.
Proof. intros Hp [Hd Hi]. split; [by rewrite Hd, Hp|]. intros key id. by rewrite Hi, Hp. Qed.

(** What a bulk loader hands over of a series. *)
Definition entry_of (x : IndexedSeries * string) : BulkIndexEntry := mkBulkIndexEntry (ix_id x.1) x.2 (keys_of (ix_labels x.1)).

Lemma bulk_fold l : forall p, fold_left (fun p x => index_timeseries p x.1 x.2) l p =
  mkPostings (fold_left (fun i x => add_keys i (ix_id x.1) (keys_of (ix_labels x.1))) l (label_index p))
    (fold_left (fun m x => <[ix_id x.1 := x.2]> m) l (id_to_key p)) (fold_left (fun s x => revoke s (ix_id x.1)) l (stale_ids p))
    (all_postings p ∪ list_to_set (map (fun x => ix_id x.1) l)).
Proof.
  induction l as [|[ts key] l IH]; intros p; cbn [fold_left map list_to_set]; [destruct p; cbn; f_equal; apply leibniz_equiv; set_solver|].
  rewrite IH, index_timeseries_eq. cbn. f_equal. apply leibniz_equiv. set_solver.
Qed.

Definition pairs_of (l : list (IndexedSeries * string)) : list (IndexKey * SeriesRef) :=
  concat (map (fun e => map (fun k => (k, be_id e)) (label_keys e)) (map entry_of l)).

Lemma fold_added l : forall i, pairs_added i (pairs_of l) (fold_left (fun i x => add_keys i (ix_id x.1) (keys_of (ix_labels x.1))) l i).
Proof.
  induction l as [|[ts key] l IH]; intros i; cbn [fold_left]; [split; cbn; set_solver|].
  destruct (IH (add_keys i (ix_id ts) (keys_of (ix_labels ts)))) as [Hd Hi]. unfold pairs_of. cbn [map concat entry_of label_keys be_id fst snd]. fold (pairs_of l). split.
  - rewrite Hd, add_keys_dom, map_app, list_to_set_app_L, map_map. cbn. by rewrite map_id, (assoc_L (∪)).
  - intros k id. rewrite Hi, add_keys_in, elem_of_app.
    assert (Hp : (k, id) ∈ map (fun k => (k, ix_id ts)) (keys_of (ix_labels ts)) <-> id = ix_id ts /\ k ∈ keys_of (ix_labels ts)).
    { rewrite list_elem_of_fmap. split; [by intros (y & [= -> ->] & H)|]. intros [-> H]. by exists k. }
    rewrite Hp. tauto.
Qed.

Lemma revoke_guards l s : (if negb (stale_is_empty s) then fold_left (fun s e => revoke s (be_id e)) (map entry_of l) s else s) = fold_left (fun s x => revoke s (ix_id x.1)) l s.
Proof.
  assert (Hf : forall s, fold_left (fun s e => revoke s (be_id e)) (map entry_of l) s = fold_left (fun s x => revoke s (ix_id x.1)) l s).
  { induction l as [|x l IH]; intros s'; [done|]. cbn. apply IH. }
  rewrite Hf. unfold stale_is_empty. case_bool_decide as E; [|done]. cbn. revert s E. clear Hf. induction l as [|x l IH]; intros s E; [done|]. cbn.
  rewrite <- IH; [|cbn; set_solver]. apply stale_ext; [|done]. cbn. set_solver.
Qed.

Lemma keys_fold l : forall m : gmap Z string, fold_left (fun m e => <[be_id e := be_key e]> m) (map entry_of l) m = fold_left (fun m x => <[ix_id x.1 := x.2]> m) l m.
Proof. induction l as [|x l IH]; intros m; [done|]. cbn. apply IH. Qed.

(** A bulk load is the same as indexing the series one after the other. *)
Lemma bulk_is_fold l p : bulk_index p (map entry_of l) = fold_left (fun p x => index_timeseries p x.1 x.2) l p.
Proof.
  unfold bulk_index. case_bool_decide as E; [by destruct l|]. rewrite bulk_fold, revoke_guards, keys_fold. fold (pairs_of l).
  pose proof (run_walk (sort_with pair_leb (pairs_of l)) (label_index p) (label_index p) None [] []) as Hw.
  destruct (fold_left run_step _ _) as [[j c] r]. cbn [run_pairs app] in Hw.
  assert (Hj : pairs_added (label_index p) (pairs_of l) (flush_run j c r)).
  { eapply pairs_added_perm; [apply (sort_with_perm pair_leb)|]. apply Hw; [|by right]. split; cbn; set_solver. }
  f_equal.
  - destruct Hj as [Hd Hi], (fold_added l (label_index p)) as [Hd' Hi']. apply index_ext; [by rewrite Hd, Hd'|]. intros key id. by rewrite Hi, Hi'.
  - f_equal. rewrite (list_to_set_perm_L _ _ (sort_with_perm Z.leb (map be_id (map entry_of l)))). by rewrite map_map.
Qed.

(** ** Removal *)

Lemma remove_posting_eq p n v id : exists i, (remove_posting_for_label_value p n v id).2 = with_index p i /\ dom i ⊆ dom (label_index p) /\
  forall key x, in_index i key x <-> in_index (label_index p) key x /\ ~ (key = for_label_value n v /\ x = id).
Proof.
  unfold remove_posting_for_label_value. destruct (label_index p !! for_label_value n v) as [b|] eqn:E; cbn [snd].
  - eexists. split; [done|]. assert (Hb : for_label_value n v ∈ dom (label_index p)) by (apply elem_of_dom; by eexists). case_match eqn:Er.
    + apply andb_true_iff in Er as [_ Er%bool_decide_eq_true]. split; [rewrite dom_delete_L; set_solver|]. intros key x. rewrite in_index_delete.
      destruct (decide (key = for_label_value n v)) as [->|]; [|tauto]. rewrite in_index_default, E. cbn. set_solver.
    + split; [rewrite dom_insert_L; set_solver|]. intros key x. rewrite in_index_insert.
      destruct (decide (key = for_label_value n v)) as [->|]; [|tauto]. rewrite in_index_default, E. cbn. set_solver.
  - exists (label_index p). split; [by destruct p|]. split; [done|]. intros key x. split; [|tauto]. intros H. split; [done|]. intros [-> ->]. destruct H as (b & Hb & _). congruence.
Qed.

Lemma remove_fold ls : forall p id, exists i, fold_left (fun p (l : string * string) => (remove_posting_for_label_value p l.1 l.2 id).2) ls p = with_index p i /\ dom i ⊆ dom (label_index p) /\
  forall key x, in_index i key x <-> in_index (label_index p) key x /\ ~ (key ∈ keys_of ls /\ x = id).
Proof.
  induction ls as [|[n v] ls IH]; intros p id; cbn [fold_left keys_of map fst snd].
  - exists (label_index p). split; [by destruct p|]. split; [done|]. set_solver.
  - destruct (remove_posting_eq p n v id) as (i & -> & Hd & Hi). destruct (IH (with_index p i) id) as (j & -> & Hd' & Hj). exists j.
    split; [done|]. split; [by transitivity (dom i)|]. intros key x. rewrite Hj. cbn. rewrite Hi, elem_of_cons. fold (keys_of ls). tauto.
Qed.

(** ** Draining *)

Lemma key_leb_string a b : key_leb a b = String.leb a b.
Proof. done. Qed.

Lemma keys_sorted i : StronglySorted (fun a b => key_leb a b = true) (sort_with key_leb (map fst (map_to_list i : list (string * gset Z)))).
Proof. apply (sort_with_sorted key_leb string_leb_total string_leb_trans). Qed.

Lemma filter_sorted {A} (R : A -> A -> Prop) f l : StronglySorted R l -> StronglySorted R (List.filter f l).
Proof.
  induction 1 as [|x l Hs IH Hx]; cbn; [constructor|]. case_match; [|done]. constructor; [done|].
  apply Forall_forall. intros y Hy%list_elem_of_In%filter_In. apply (Forall_forall _ l); [done|]. apply list_elem_of_In, Hy.
Qed.

Definition from (start : option IndexKey) (key : IndexKey) : bool := match start with Some s => key_leb s key | None => true end.

Lemma keys_from_in start i key : key ∈ keys_from start i <-> key ∈ dom i /\ from start key = true.
Proof.
  unfold keys_from. rewrite list_elem_of_In, filter_In, <- list_elem_of_In, sort_with_perm, list_elem_of_fmap, elem_of_dom. fold (from start key).
  split; [intros [([k b] & -> & Hk%elem_of_map_to_list) H]; by eauto|]. intros [[b Hb] H]. split; [|done]. exists (key, b). by rewrite elem_of_map_to_list.
Qed.

Lemma keys_from_sorted start i : StronglySorted (fun a b => key_leb a b = true) (keys_from start i).
Proof. apply filter_sorted, keys_sorted. Qed.

(** The loop cleans a prefix of the keys, up to the key it returns. *)
Record drained (s : StaleSet) (count processed : nat) (keys : list IndexKey) (i j : PostingsIndex) (removed : list IndexKey) (n : nat) (next : option IndexKey) : Prop := {
  dr_split : exists rest, match next with Some k => exists ks, keys = rest ++ k :: ks /\ n = count | None => keys = rest end /\ n = (processed + length rest)%nat /\
    removed ⊆ rest /\ forall key id, in_index j key id <-> in_index i key id /\ (key ∈ rest -> id ∉ st_ids s);
  dr_kept : dom i ⊆ dom j;
  dr_dom : dom j ⊆ dom i ∪ list_to_set keys;
  dr_removed : forall key id, key ∈ removed -> ~ in_index j key id;
}.

Lemma drain_loop_spec s count keys : forall processed i, let '(j, removed, n, next) := drain_loop s count processed keys i in drained s count processed keys i j removed n next.
Proof.
  induction keys as [|key keys IH]; intros processed i; cbn [drain_loop].
  - split; [|done|set_solver|set_solver]. exists []. cbn. split; [done|]. split; [lia|]. set_solver.
  - destruct (Nat.eqb_spec processed count) as [->|Hc]; [split; [|done|set_solver|set_solver]; exists []; cbn; split; [by eexists|]; split; [lia|]; set_solver|].
    set (b := default ∅ (i !! key)).
    set (step := if negb (bool_decide (b = ∅)) then (<[key := mask s b]> i, bool_decide (mask s b = ∅)) else (i, true)).
    assert (Hstep : (forall k id, in_index step.1 k id <-> in_index i k id /\ (k = key -> id ∉ st_ids s)) /\ dom i ⊆ dom step.1 ⊆ dom i ∪ {[key]} /\ (step.2 = true -> forall id, ~ in_index step.1 key id)).
    { assert (Hb : forall id, in_index i key id <-> id ∈ b) by (intros; apply in_index_default). unfold step. case_bool_decide as E; cbn.
      - split; [|split; [clear; set_solver|]]; [|intros _ id; rewrite Hb; set_solver]. intros k id. split; [|tauto]. intros H. split; [done|]. intros ->. apply Hb in H. set_solver.
      - split; [|split; [rewrite dom_insert_L; clear; set_solver|]].
        + intros k id. rewrite in_index_insert, mask_spec. destruct (decide (k = key)) as [->|]; [rewrite Hb; set_solver|tauto].
        + intros Em%bool_decide_eq_true id. rewrite in_index_insert, Em. set_solver. }
    destruct step as [i' rm]. cbn in Hstep. destruct Hstep as (Hin & [Hkept Hdom] & Hrm). specialize (IH (S processed) i').
    destruct (drain_loop s count (S processed) keys i') as [[[j removed] n] next]. destruct IH as [(rest & Hs & Hn & Hsub & Hj) Hmore Hd Hr]. split.
    + exists (key :: rest). split; [destruct next; [destruct Hs as (ks & -> & ->); by eexists|by subst]|]. cbn. split; [lia|]. split; [destruct rm; set_solver|].
      intros k id. rewrite Hj, Hin, elem_of_cons. tauto.
    + by transitivity (dom i').
    + cbn. clear - Hd Hdom. set_solver.
    + intros k id Hk. destruct rm; [|by apply Hr]. apply elem_of_cons in Hk as [->|Hk]; [|by apply Hr]. rewrite Hj. intros [H _]. by apply (Hrm eq_refl id).
Qed.

Lemma delete_keys_spec keys : forall i, (forall key id, in_index (delete_keys keys i) key id <-> in_index i key id /\ key ∉ keys) /\ dom (delete_keys keys i) = dom i ∖ list_to_set keys.
Proof.
  induction keys as [|k keys IH]; intros i; cbn [delete_keys fold_left list_to_set]; [set_solver|].
  destruct (IH (delete k i)) as [Hi Hd]. unfold delete_keys in Hi, Hd. split; [|rewrite Hd, dom_delete_L; clear; set_solver].
  intros key id. rewrite Hi, in_index_delete, elem_of_cons. naive_solver.
Qed.

Lemma drain_deleted s count processed keys i j removed n next : drained s count processed keys i j removed n next -> list_to_set keys ⊆ dom i ->
  (forall key id, in_index (delete_keys removed j) key id <-> in_index j key id) /\ dom (delete_keys removed j) ⊆ dom i.
Proof.
  intros [_ _ Hd Hr] Hk. destruct (delete_keys_spec removed j) as [Hi Hd']. split; [|set_solver]. intros key id. rewrite Hi. split; [tauto|]. intros H. split; [done|]. intros Hin. by apply (Hr key id).
Qed.

(** ** What holds of the index after any sequence of operations

    The operations on one index as a step relation on the postings, the series they
    should represent and the cursor of the task that drains stale ids; its
    invariant, and that draining ends with no stale id left. *)

(** ** States and steps *)

(** The postings, the live series, the labels a stale id had when it was marked, and
    the key from which the drain resumes. *)
Record IndexState := mkIndexState {
  xs_postings : Postings;
  xs_db : Database;
  xs_former : gmap Z (list Label);
  xs_cursor : option IndexKey;
}.

(** The database without the series [key] holds, if it holds [id]. *)
Definition forget (db : Database) (id : SeriesRef) (key : string) : Database :=
  match db !! id with Some (k, _) => if bool_decide (k = key) then delete id db else db | None => db end.

(** The labels of the series among [ids] that are live, and those remembered. *)
Definition remember (s : IndexState) (ids : list SeriesRef) : gmap Z (list Label) :=
  (snd <$> filter (fun x => x.1 ∈ ids) (xs_db s)) ∪ xs_former s.

(** What a series may be indexed with: well-formed labels, which include those the
    index may still hold for its id. *)
Record indexable (s : IndexState) (ts : IndexedSeries) : Prop := {
  ia_wf : labels_wf (ix_labels ts);
  ia_live : forall k ls, xs_db s !! ix_id ts = Some (k, ls) -> ls ⊆ ix_labels ts;
  ia_stale : forall ls, ix_id ts ∈ st_ids (stale_ids (xs_postings s)) -> xs_former s !! ix_id ts = Some ls -> ls ⊆ ix_labels ts;
}.

Definition index_one (s : IndexState) (ts : IndexedSeries) (key : string) : IndexState :=
  mkIndexState (index_timeseries (xs_postings s) ts key) (<[ix_id ts := (key, ix_labels ts)]> (xs_db s)) (xs_former s) (xs_cursor s).

Inductive index_step : IndexState -> IndexState -> Prop :=
  | step_index s ts key : indexable s ts -> index_step s (index_one s ts key)
  | step_remove s ts key : (forall ls, xs_db s !! ix_id ts = Some (key, ls) -> ls = ix_labels ts) ->
      index_step s (mkIndexState (remove_timeseries_for_key (xs_postings s) ts key).2 (forget (xs_db s) (ix_id ts) key) (xs_former s) (xs_cursor s))
  | step_mark s ids : index_step s (mkIndexState (mark_ids_as_stale (xs_postings s) ids) (filter (fun x => x.1 ∉ ids) (xs_db s)) (remember s ids) (xs_cursor s))
  | step_drain s count : let r := remove_stale_ids (xs_postings s) (xs_cursor s) count in
      index_step s (mkIndexState r.2 (xs_db s) (xs_former s) r.1)
  | step_optimize s start count : index_step s (mkIndexState (optimize_postings (xs_postings s) start count).2 (xs_db s) (xs_former s) (xs_cursor s)).

Inductive index_run (s : IndexState) : IndexState -> Prop :=
  | run_here : index_run s s
  | run_more t u : index_run s t -> index_step t u -> index_run s u.

Definition fresh_index : IndexState := mkIndexState postings_default ∅ ∅ None.

(** ** The invariant *)

Record index_inv (s : IndexState) : Prop := {
  ii_rep : index_rep (xs_postings s) (xs_db s);
  ii_former : forall n v id, free_of equals_sign n -> id ∈ st_ids (stale_ids (xs_postings s)) -> in_index (label_index (xs_postings s)) (for_label_value n v) id ->
    exists ls, xs_former s !! id = Some ls /\ (n, v) ∈ ls;
  ii_pass : forall c, xs_cursor s = Some c -> exists pass, st_pass (stale_ids (xs_postings s)) = Some pass /\
    forall key id, id ∈ pass -> id ∈ st_ids (stale_ids (xs_postings s)) -> in_index (label_index (xs_postings s)) key id -> key_leb c key = true;
}.

Lemma shape_dom p db key : index_rep p db -> key ∈ dom (label_index p) -> exists n v, key = for_label_value n v /\ free_of equals_sign n /\ v <> "".
Proof. intros Hr [bmp Hb]%elem_of_dom. by eapply ir_shape. Qed.

Lemma fresh_inv : index_inv fresh_index.
Proof.
  split; [split|..]; cbn; try set_solver.
  - intros n v id _ _. split; [intros (b & Hb & _); by rewrite lookup_empty in Hb|]. intros (k & ls & Hk & _). by rewrite lookup_empty in Hk.
Qed.

Lemma wf_shape ls key : labels_wf ls -> key ∈ keys_of ls -> exists n v, key = for_label_value n v /\ free_of equals_sign n /\ v <> "".
Proof.
  intros [_ Hn Hv] (n & v & -> & Hin)%in_keys_of. exists n, v. split; [done|]. rewrite Forall_forall in Hn, Hv. split; [apply (Hn _ Hin)|apply (Hv _ Hin)].
Qed.

Lemma in_keys_of_label n v ls : free_of equals_sign n -> labels_wf ls -> for_label_value n v ∈ keys_of ls <-> (n, v) ∈ ls.
Proof.
  intros Hn Hw. rewrite in_keys_of. split; [|intros H; eauto]. intros (n' & v' & E & Hin). destruct Hw as [_ Hf _]. rewrite Forall_forall in Hf.
  destruct (key_inj n v n' v' Hn (Hf _ Hin) E) as [-> ->]. done.
Qed.

(** A series that is stale again after it was indexed has no other postings. *)
Lemma index_inv_index s ts key : index_inv s -> indexable s ts -> index_inv (index_one s ts key).
Proof.
  intros [Hrep Hformer Hpass] [Hwf Hlive Hstale]. unfold index_one. rewrite index_timeseries_eq. destruct Hrep as [Ha Hk Hs Hl Hp Hsh].
  split; [split|..]; cbn [xs_postings xs_db xs_former xs_cursor label_index id_to_key stale_ids all_postings revoke st_ids st_pass].
  - rewrite Ha, dom_insert_L. apply leibniz_equiv. set_solver.
  - by rewrite Hk, fmap_insert.
  - intros id [Hid Hne]%elem_of_difference. rewrite lookup_insert_ne by set_solver. by apply Hs.
  - intros id k ls. destruct (decide (id = ix_id ts)) as [->|Hne]; [rewrite lookup_insert_eq; by intros [= <- <-]|]. rewrite lookup_insert_ne by done. apply Hl.
  - intros n v id Hn Hid. rewrite add_keys_in. destruct (decide (id = ix_id ts)) as [->|Hne].
    + rewrite lookup_insert_eq, in_keys_of_label by done. split; [|naive_solver]. intros [Hin|[_ Hin]]; [|naive_solver]. exists key, (ix_labels ts). split; [done|].
      destruct (decide (ix_id ts ∈ st_ids (stale_ids (xs_postings s)))) as [Hst|Hst].
      * destruct (Hformer n v _ Hn Hst Hin) as (ls & Hls & Hnv). by apply (Hstale ls).
      * apply Hp in Hin as (k & ls & Hls & Hnv); [|done|done]. by apply (Hlive k ls).
    + rewrite lookup_insert_ne by done. rewrite <- Hp by set_solver. naive_solver.
  - intros k b Hb. assert (Hd : k ∈ dom (add_keys (label_index (xs_postings s)) (ix_id ts) (keys_of (ix_labels ts)))) by (apply elem_of_dom; by eexists).
    rewrite add_keys_dom in Hd. apply elem_of_union in Hd as [[b' Hb']%elem_of_dom|Hd%elem_of_list_to_set]; [by eapply Hsh|by eapply wf_shape].
  - intros n v id Hn [Hid Hne]%elem_of_difference. rewrite add_keys_in. intros [Hin|[-> _]]; [by apply Hformer|set_solver].
  - intros c Hc. destruct (Hpass c Hc) as (pass & Hps & Hall). exists pass. split; [done|]. intros k id Hid [Hst Hne]%elem_of_difference. rewrite add_keys_in.
    intros [Hin|[-> _]]; [by eapply Hall|set_solver].
Qed.

Lemma index_inv_remove s ts key : index_inv s -> (forall ls, xs_db s !! ix_id ts = Some (key, ls) -> ls = ix_labels ts) ->
  index_inv (mkIndexState (remove_timeseries_for_key (xs_postings s) ts key).2 (forget (xs_db s) (ix_id ts) key) (xs_former s) (xs_cursor s)).
Proof.
  intros [Hrep Hformer Hpass] Hls. unfold remove_timeseries_for_key, forget. pose proof (ir_keys _ _ Hrep) as Hk.
  rewrite Hk, lookup_fmap. destruct (xs_db s !! ix_id ts) as [[k ls]|] eqn:E; cbn [option_map fmap option_fmap fst]; [|by split].
  destruct (decide (k = key)) as [->|Hne]; [|rewrite !bool_decide_eq_false_2 by congruence; by split].
  rewrite !bool_decide_eq_true_2 by done. cbn [negb]. specialize (Hls _ eq_refl). subst ls. unfold remove_timeseries. cbn [snd].
  destruct (remove_fold (ix_labels ts) (mkPostings (label_index (xs_postings s)) (delete (ix_id ts) (id_to_key (xs_postings s))) (stale_ids (xs_postings s)) (all_postings (xs_postings s) ∖ {[ix_id ts]})) (ix_id ts)) as (i & -> & Hd & Hi).
  destruct Hrep as [Ha _ Hs Hl Hp Hsh]. split; [split|..]; cbn [xs_postings xs_db xs_former xs_cursor label_index id_to_key stale_ids all_postings with_index] in *.
  - by rewrite Ha, dom_delete_L.
  - by rewrite Hk, fmap_delete.
  - intros id Hid. apply lookup_delete_None. right. by apply Hs.
  - intros id k ls [_ H]%lookup_delete_Some. by eapply Hl.
  - intros n v id Hn Hid. rewrite Hi, (in_keys_of_label n v _ Hn (Hl _ _ _ E)), Hp by done. split.
    + intros [(k & ls & H & Hin) Hno]. exists k, ls. split; [|done]. apply lookup_delete_Some. split; [|done]. intros <-. rewrite E in H. injection H as <- <-. tauto.
    + intros (k & ls & [Hne H]%lookup_delete_Some & Hin). split; [eauto|]. naive_solver.
  - intros k b Hb. assert (Hd' : k ∈ dom (label_index (xs_postings s))) by (apply Hd, elem_of_dom; by eexists). apply elem_of_dom in Hd' as [b' Hb']. by eapply Hsh.
  - intros n v id Hn Hid [Hin _]%Hi. by apply Hformer.
  - intros c Hc. destruct (Hpass c Hc) as (pass & Hps & Hall). exists pass. split; [done|]. intros k id Hid Hst [Hin _]%Hi. by eapply Hall.
Qed.

Lemma forget_ids ids : forall m : gmap Z string, fold_left (fun m id => delete id m) ids m = filter (fun x => x.1 ∉ ids) m.
Proof.
  induction ids as [|id ids IH]; intros m; cbn [fold_left]; [symmetry; apply map_filter_id; set_solver|]. rewrite IH. apply map_eq. intros j. apply option_eq. intros k.
  rewrite !map_lookup_filter_Some, lookup_delete_Some. cbn. set_solver.
Qed.

Lemma index_inv_mark s ids : index_inv s -> index_inv (mkIndexState (mark_ids_as_stale (xs_postings s) ids) (filter (fun x => x.1 ∉ ids) (xs_db s)) (remember s ids) (xs_cursor s)).
Proof.
  intros [[Ha Hk Hs Hl Hp Hsh] Hformer Hpass]. unfold mark_ids_as_stale. rewrite forget_ids.
  split; [split|..]; cbn [xs_postings xs_db xs_former xs_cursor label_index id_to_key stale_ids all_postings mark_many st_ids st_pass].
  - rewrite Ha. apply leibniz_equiv. intros id. rewrite elem_of_difference, elem_of_list_to_set, !elem_of_dom. unfold is_Some. setoid_rewrite map_lookup_filter_Some. naive_solver.
  - rewrite Hk. apply map_eq. intros id. apply option_eq. intros k. rewrite map_lookup_filter_Some, !lookup_fmap_Some. setoid_rewrite map_lookup_filter_Some. naive_solver.
  - intros id Hid. apply map_lookup_filter_None. apply elem_of_union in Hid as [Hid|Hid%elem_of_list_to_set]; [left; by apply Hs|]. right. intros x _. cbn. tauto.
  - intros id k ls [H _]%map_lookup_filter_Some. by eapply Hl.
  - intros n v id Hn Hid. rewrite elem_of_union, elem_of_list_to_set in Hid. rewrite Hp by tauto. setoid_rewrite map_lookup_filter_Some. cbn. naive_solver.
  - done.
  - intros n v id Hn Hid Hin. unfold remember. destruct (decide (id ∈ st_ids (stale_ids (xs_postings s)))) as [Hst|Hst].
    + destruct (Hformer n v id Hn Hst Hin) as (ls & Hls & Hnv). exists ls. split; [|done]. rewrite lookup_union_r; [done|]. rewrite lookup_fmap. apply fmap_None, map_lookup_filter_None. left. by apply Hs.
    + apply Hp in Hin as (k & ls & H & Hnv); [|done|done]. exists ls. split; [|done]. apply lookup_union_Some_l. rewrite lookup_fmap. apply fmap_Some. exists (k, ls). split; [|done].
      apply map_lookup_filter_Some. cbn. set_solver.
  - intros c Hc. destruct (Hpass c Hc) as (pass & Hps & Hall). rewrite Hps. cbn. exists (pass ∖ list_to_set ids). split; [done|].
    intros key id [Hid Hno]%elem_of_difference Hst Hin. apply (Hall key id); [done| |done]. set_solver.
Qed.

(** The state in which a batch of a pass runs. *)
Definition in_pass (p : Postings) (start : option IndexKey) : Postings :=
  if bool_decide (start = None) || bool_decide (st_pass (stale_ids p) = None) then with_stale p (begin_pass (stale_ids p)) else p.

Lemma in_pass_same p start : label_index (in_pass p start) = label_index p /\ id_to_key (in_pass p start) = id_to_key p /\ all_postings (in_pass p start) = all_postings p /\ st_ids (stale_ids (in_pass p start)) = st_ids (stale_ids p).
Proof. unfold in_pass. by case_match. Qed.

(** What a pass may retire has no postings before the key it resumes from. *)
Definition pass_from (p : Postings) (start : option IndexKey) (pass : PostingsBitmap) : Prop :=
  st_pass (stale_ids p) = Some pass /\ forall key id, id ∈ pass -> id ∈ st_ids (stale_ids p) -> in_index (label_index p) key id -> from start key = true.

Lemma pass_begins s : index_inv s -> exists pass, pass_from (in_pass (xs_postings s) (xs_cursor s)) (xs_cursor s) pass.
Proof.
  intros Hinv. unfold in_pass, pass_from. destruct (xs_cursor s) as [c|] eqn:E; [|by eexists].
  destruct (ii_pass s Hinv c E) as (pass & Hp & Hall). exists pass. rewrite Hp. cbn. done.
Qed.

Lemma key_leb_refl c : key_leb c c = true.
Proof. rewrite key_leb_string. destruct (String.leb c c) eqn:E; [done|]. by apply string_leb_total in E as E'; rewrite E in E'. Qed.

(** The effect of one batch: the postings it cleaned, and what the key it returns says. *)
Lemma batch_spec p start count (b : option IndexKey * Postings) : remove_stale_ids p start count = b -> stale_is_empty (stale_ids p) = false ->
  exists (cleaned : list IndexKey) (i : PostingsIndex) (finished : bool),
    (forall key id, in_index i key id <-> in_index (label_index p) key id /\ (key ∈ cleaned -> id ∉ st_ids (stale_ids p))) /\
    dom i ⊆ dom (label_index p) /\ (forall key, key ∈ dom (label_index p) -> key ∉ cleaned -> key ∈ dom i) /\
    b.2 = with_index (with_stale p (let s := stale_ids (in_pass p start) in if finished then finish_pass s else s)) i /\
    (forall key, key ∈ dom (label_index p) -> from start key = true -> key ∈ cleaned \/ exists c, b.1 = Some c /\ key_leb c key = true) /\
    (finished = true -> b.1 = None) /\
    (b.1 = None -> finished = false -> keys_from start (label_index p) = []) /\
    (forall c, b.1 = Some c -> exists rest, keys_from start (label_index p) = cleaned ++ c :: rest /\ length cleaned = count) /\
    (b.1 = None -> cleaned = keys_from start (label_index p)).
Proof.
  intros <- Hne. unfold remove_stale_ids. rewrite Hne. fold (in_pass p start). destruct (in_pass_same p start) as (Hi & Hk & Ha & Hs).
  pose proof (drain_loop_spec (stale_ids (in_pass p start)) count (keys_from start (label_index p)) 0 (label_index p)) as Hl. rewrite Hi.
  destruct (drain_loop _ _ _ _ _) as [[[j removed] n] next].
  destruct (drain_deleted _ _ _ _ _ _ _ _ _ Hl) as [Hdel Hdom]; [intros k Hk'%elem_of_list_to_set; apply keys_from_in in Hk'; tauto|].
  destruct Hl as [(cleaned & Hsplit & Hn & Hsub & Hj) Hkept _ _]. exists cleaned, (delete_keys removed j), ((0 <? n)%nat && bool_decide (next = None)).
  split; [intros key id; rewrite Hdel, Hj, Hs; done|]. split; [done|]. split.
  { intros key Hd Hno. rewrite (proj2 (delete_keys_spec removed j)), elem_of_difference, elem_of_list_to_set. split; [by apply Hkept|]. intros Hr. by apply Hno, Hsub. }
  split.
  { cbn [snd]. destruct (in_pass p start) as [i0 k0 s0 a0]. destruct p. cbn in Hi, Hk, Ha |- *. subst. by destruct (_ && _). }
  split.
  { intros key Hd Hf. assert (Hin : key ∈ keys_from start (label_index p)) by (by apply keys_from_in). cbn [fst]. destruct next as [c|]; [|left; by subst].
    destruct Hsplit as (ks & E & _). pose proof (keys_from_sorted start (label_index p)) as Hsort. rewrite E in Hin, Hsort.
    apply elem_of_app in Hin as [Hin|Hin]; [by left|]. right. exists c. split; [done|]. apply StronglySorted_app_1_r, StronglySorted_inv in Hsort as [_ Hc].
    apply elem_of_cons in Hin as [->|Hin]; [|exact (proj1 (Forall_forall _ ks) Hc key Hin)]. apply key_leb_refl. }
  cbn [fst]. split; [by intros [_ H%bool_decide_eq_true]%andb_true_iff|]. split.
  { intros -> Hf. rewrite bool_decide_eq_true_2, andb_true_r in Hf by done. apply Nat.ltb_ge in Hf. rewrite Hsplit. apply length_zero_iff_nil. lia. }
  split; [intros c ->; destruct Hsplit as (ks & E & Hc); exists ks; split; [done|lia]|]. by intros ->.
Qed.

Lemma finish_ids s pass : st_pass s = Some pass -> finish_pass s = mkStaleSet (st_ids s ∖ pass) None.
Proof. intros H. unfold finish_pass. by rewrite H. Qed.

Lemma index_inv_drain s count : index_inv s -> let r := remove_stale_ids (xs_postings s) (xs_cursor s) count in index_inv (mkIndexState r.2 (xs_db s) (xs_former s) r.1).
Proof.
  intros Hinv r. destruct (pass_begins s Hinv) as (pass & Hpass & Hfrom). destruct Hinv as [Hrep Hformer _]. destruct (stale_is_empty (stale_ids (xs_postings s))) eqn:Hne.
  { subst r. unfold remove_stale_ids. rewrite Hne. by split. }
  destruct (in_pass_same (xs_postings s) (xs_cursor s)) as (Hi & Hk & Ha & Hs). rewrite Hi, Hs in Hfrom.
  destruct (batch_spec (xs_postings s) (xs_cursor s) count r eq_refl Hne) as (cleaned & i & finished & Hin & Hdom & _ & Hr & Hcov & Hfin & _ & _ & Hall).
  assert (Hsub : forall key id, in_index i key id -> in_index (label_index (xs_postings s)) key id) by (intros key id H%Hin; tauto).
  assert (Hclean : forall key id, id ∈ pass -> id ∈ st_ids (stale_ids (xs_postings s)) -> in_index i key id -> exists c, r.1 = Some c /\ key_leb c key = true).
  { intros key id Hp Hst H. apply Hin in H as [H Hno]. destruct (Hcov key) as [Hc|Hc]; [|by eapply Hfrom| |done]; [destruct H as (b & Hb & _); apply elem_of_dom; by eexists|]. exfalso. by apply Hno. }
  assert (Hstale : forall id, id ∉ st_ids (stale_ids r.2) -> id ∉ st_ids (stale_ids (xs_postings s)) \/ (finished = true /\ id ∈ pass /\ id ∈ st_ids (stale_ids (xs_postings s)))).
  { intros id. rewrite Hr. cbn. destruct finished; [rewrite (finish_ids _ _ Hpass); cbn|]; rewrite Hs; [|tauto]. rewrite elem_of_difference. destruct (decide (id ∈ st_ids (stale_ids (xs_postings s)))), (decide (id ∈ pass)); tauto. }
  assert (Hkeep : st_ids (stale_ids r.2) ⊆ st_ids (stale_ids (xs_postings s))).
  { intros id. rewrite Hr. cbn. destruct finished; [rewrite (finish_ids _ _ Hpass); cbn|]; rewrite Hs; [|done]. rewrite elem_of_difference. tauto. }
  destruct Hrep as [Ra Rk Rs Rl Rp Rsh]. split; [split|..]; cbn [xs_postings xs_db xs_former xs_cursor].
  - rewrite Hr. cbn. done.
  - rewrite Hr. cbn. done.
  - intros id Hid. by apply Rs, Hkeep.
  - done.
  - intros n v id Hn Hid. rewrite Hr. cbn [with_index label_index]. destruct (Hstale id Hid) as [Hno|(-> & Hp & Hst)].
    + rewrite Hin, <- Rp by done. tauto.
    + split; [intros H; destruct (Hclean _ _ Hp Hst H) as (c & Hc & _); by rewrite Hfin in Hc|]. intros (k & ls & H & _). by rewrite Rs in H.
  - intros key b Hb. rewrite Hr in Hb. cbn in Hb. assert (Hd : key ∈ dom (label_index (xs_postings s))) by (apply Hdom, elem_of_dom; by eexists). apply elem_of_dom in Hd as [b' Hb']. by eapply Rsh.
  - intros n v id Hn Hid H. rewrite Hr in H. apply Hformer; [done|by apply Hkeep|by apply Hsub].
  - intros c Hc. assert (Hf : finished = false) by (destruct finished; [by rewrite Hfin in Hc|done]). exists pass. rewrite Hr, Hf. cbn. split; [done|]. rewrite Hs.
    intros key id Hp Hst H. destruct (Hclean key id Hp Hst H) as (c' & Hc' & Hle). congruence.
Qed.

Lemma optimize_loop_empty count keys i : forall processed key, key ∈ (optimize_loop count processed keys i).1 -> default ∅ (i !! key) = ∅.
Proof.
  induction keys as [|k keys IH]; intros processed key; cbn [optimize_loop]; [set_solver|]. case_bool_decide as E.
  - specialize (IH processed key). destruct (optimize_loop count processed keys i) as [removed next]. cbn in *. intros [->|H]%elem_of_cons; [done|by apply IH].
  - destruct (processed =? count)%nat; [set_solver|]. apply IH.
Qed.

(** Optimising removes only keys without postings. *)
Lemma optimize_spec p start count : exists i, (optimize_postings p start count).2 = with_index p i /\ dom i ⊆ dom (label_index p) /\ forall key id, in_index i key id <-> in_index (label_index p) key id.
Proof.
  unfold optimize_postings. pose proof (optimize_loop_empty count (keys_from start (label_index p)) (label_index p) 0) as He. destruct (optimize_loop _ _ _ _) as [removed next]. cbn [snd fst] in *.
  exists (delete_keys removed (label_index p)). destruct (delete_keys_spec removed (label_index p)) as [Hi Hd]. split; [done|]. split; [rewrite Hd; clear; set_solver|].
  intros key id. rewrite Hi. split; [tauto|]. intros H. split; [done|]. intros Hr. apply in_index_default in H. rewrite (He key Hr) in H. set_solver.
Qed.

Lemma index_inv_optimize s start count : index_inv s -> index_inv (mkIndexState (optimize_postings (xs_postings s) start count).2 (xs_db s) (xs_former s) (xs_cursor s)).
Proof.
  intros [[Ra Rk Rs Rl Rp Rsh] Hformer Hpass]. destruct (optimize_spec (xs_postings s) start count) as (i & -> & Hd & Hi).
  split; [split|..]; cbn [xs_postings xs_db xs_former xs_cursor with_index label_index stale_ids id_to_key all_postings]; try done.
  - intros n v id Hn Hid. rewrite Hi. by apply Rp.
  - intros key b Hb. assert (Hk : key ∈ dom (label_index (xs_postings s))) by (apply Hd, elem_of_dom; by eexists). apply elem_of_dom in Hk as [b' Hb']. by eapply Rsh.
  - intros n v id Hn Hid H%Hi. by apply Hformer.
  - intros c Hc. destruct (Hpass c Hc) as (pass & Hps & Hall). exists pass. split; [done|]. intros key id Hid Hst H%Hi. by eapply Hall.
Qed.

Lemma index_step_inv s t : index_inv s -> index_step s t -> index_inv t.
Proof.
  intros Hinv Hstep. destruct Hstep; [by apply index_inv_index|by apply index_inv_remove|by apply index_inv_mark|by apply index_inv_drain|by apply index_inv_optimize].
Qed.

Lemma index_run_inv s t : index_inv s -> index_run s t -> index_inv t.
Proof. intros Hinv. induction 1 as [|t u _ IH Hstep]; [done|]. by eapply index_step_inv. Qed.
