(* ===== verification/TimeSeriesIndex.v ===== *)
(** * TimeSeriesIndex: the index object of a database

    Models [src/series/index/timeseries_index.rs] and [posting_stats.rs]: renaming,
    lookups by labels and selectors, the sweeps over stale ids and posting lists, the
    batched walk over the label index and the statistics gathered by it; and
    [create_series] of [src/series/utils.rs], which registers a new series.  The lock
    around the postings is taken for the whole of each operation modelled here, except
    that a batched walk releases it between batches. *)

From stdpp Require Import strings list gmap sorting.
From S2P Require Import Prelude MRange LabelFilters Postings.

Local Open Scope string_scope.
Local Open Scope list_scope.
Local Open Scope Z_scope.
Local Open Scope result_scope.

Inductive IndexError :=
  | QueryFailed (e : QueryError)
  | DuplicateSeries
  | AllKeysReadPermission
  | AllKeysWritePermission.

Definition of_query {A} (r : result QueryError A) : result IndexError A := match r with Ok a => Ok a | Err e => Err (QueryFailed e) end.

Definition cardinality (s : PostingsBitmap) : Z := Z.of_nat (size s).

(** The ids of a bitmap, in order. *)
Definition bitmap_iter (s : PostingsBitmap) : list SeriesRef := sort_with Z.leb (elements s).

Definition U64_MAX : Z := 2 ^ 64 - 1.
Definition saturating_add (a b : Z) : Z := Z.min U64_MAX (a + b).
Definition saturating_sub (a b : Z) : Z := Z.max 0 (a - b).

(** ** Renames and registration *)

Definition postings_clear (p : Postings) : Postings := mkPostings ∅ ∅ (mkStaleSet ∅ None) ∅.

Definition postings_swap (p other : Postings) : Postings * Postings :=
  (mkPostings (label_index other) (id_to_key other) (stale_ids other) (all_postings other),
   mkPostings (label_index p) (id_to_key p) (stale_ids p) (all_postings p)).

Definition reindex_timeseries (p : Postings) (series : IndexedSeries) (old_key new_key : string) : Postings :=
  let p := (remove_timeseries_for_key p series old_key).2 in
  index_timeseries p series new_key.

Definition posting_by_labels (p : Postings) (labels : list Label) : result IndexError (option SeriesRef) :=
  let acc := postings_by_labels (terms p) labels in
  match size acc with
  | 0%nat => Ok None
  | 1%nat => Ok (head (bitmap_iter acc))
  | _ => Err DuplicateSeries
  end.

(** [create_series]: a series with a metric name is refused if the index finds one. *)
Definition create_series (p : Postings) (ts : IndexedSeries) (key : string) : result IndexError Postings :=
  match label_value (ix_labels ts) METRIC_NAME_LABEL with
  | Some _ =>
      match posting_id_by_labels (terms p) (ix_labels ts) with
      | Some _ => Err DuplicateSeries
      | None => Ok (index_timeseries p ts key)
      end
  | None => Ok (index_timeseries p ts key)
  end.

(** ** Sweeps *)

Definition SWEEP_BATCH_SIZE : nat := 100.

Fixpoint sweep_loop (fuel : nat) (p : Postings) (cursor : option IndexKey) : option Postings :=
  match fuel with
  | O => None
  | S fuel =>
      let '(next, p) := Postings.remove_stale_ids p cursor SWEEP_BATCH_SIZE in
      match next with Some c => sweep_loop fuel p (Some c) | None => Some p end
  end.

(** [TimeSeriesIndex::remove_stale_ids]: the number of ids removed. *)
Definition sweep_stale_ids (fuel : nat) (p : Postings) : option (Z * Postings) :=
  let old_count := cardinality (st_ids (stale_ids p)) in
  if old_count =? 0 then Some (0, p)
  else match sweep_loop fuel p None with Some p => Some (old_count - cardinality (st_ids (stale_ids p)), p) | None => None end.

(** [optimize_all]: what [should_stop] answers is given for each turn. *)
Fixpoint optimize_all_loop (should_stop : list bool) (batch_size : nat) (cursor : option IndexKey) (p : Postings) : option (bool * Postings) :=
  match should_stop with
  | [] => None
  | stop :: should_stop =>
      if stop then Some (false, p)
      else
        let '(cursor, p) := optimize_postings p cursor batch_size in
        match cursor with None => Some (true, p) | Some c => optimize_all_loop should_stop batch_size (Some c) p end
  end.

Definition optimize_all (should_stop : list bool) (batch_size : nat) (p : Postings) : option (bool * Postings) := optimize_all_loop should_stop batch_size None p.

(** ** Statistics *)

Record PostingStat := mkPostingStat { stat_name : string; stat_count : Z }.

Record StatsMaxHeap := mkStatsMaxHeap { max_length : nat; min_value : Z; min_index : nat; heap_items : list PostingStat }.

Definition heap_new (length : nat) : StatsMaxHeap := mkStatsMaxHeap length U64_MAX 0 [].

(** The scan for the least item: its count and position. *)
Fixpoint min_scan (items : list PostingStat) (i : nat) (least : Z * nat) : Z * nat :=
  match items with
  | [] => least
  | stat :: items => min_scan items (S i) (if stat_count stat <? least.1 then (stat_count stat, i) else least)
  end.

(** [None] where the assignment to [items[min_index]] would be out of range. *)
Definition heap_push (h : StatsMaxHeap) (item : PostingStat) : option StatsMaxHeap :=
  if (length (heap_items h) <? max_length h)%nat then
    let '(value, index) := if stat_count item <? min_value h then (stat_count item, length (heap_items h)) else (min_value h, min_index h) in
    Some (mkStatsMaxHeap (max_length h) value index (heap_items h ++ [item]))
  else if stat_count item <? min_value h then Some h
  else
    match heap_items h !! min_index h with
    | None => None
    | Some _ =>
        let items := <[min_index h := item]> (heap_items h) in
        let '(value, index) := min_scan items 0 (stat_count item, min_index h) in
        Some (mkStatsMaxHeap (max_length h) value index items)
    end.

Fixpoint heap_push_all (h : StatsMaxHeap) (items : list PostingStat) : option StatsMaxHeap :=
  match items with [] => Some h | item :: items => match heap_push h item with Some h => heap_push_all h items | None => None end end.

Record PostingsStats := mkPostingsStats {
  series_count_by_metric_name : list PostingStat;
  series_count_by_label_name : list PostingStat;
  series_count_by_label_value_pairs : list PostingStat;
  series_count_by_focus_label_value : option (list PostingStat);
  total_label_value_pairs : Z;
  label_count : Z;
  series_count : Z;
}.

(** *** The batched walk *)

Record BatchIterator := mkBatchIterator { bi_cursor : option IndexKey; batch_size : nat; is_finished : bool }.

Definition batch_restricted (size : nat) : BatchIterator := mkBatchIterator None size false.

Definition adjusted_cardinality (p : Postings) (bitmap : PostingsBitmap) (has_stale_ids : bool) : Z :=
  let count := cardinality bitmap in
  if has_stale_ids then
    let stale_count := cardinality (st_ids (stale_ids p) ∩ bitmap) in
    if 0 <? stale_count then saturating_sub count stale_count else count
  else count.

(** The series counted for a posting list. *)
Definition counted (p : Postings) (matching : option PostingsBitmap) (bitmap : PostingsBitmap) : Z :=
  match matching with
  | Some matching => cardinality (bitmap ∩ matching)
  | None => adjusted_cardinality p bitmap (negb (stale_is_empty (stale_ids p)))
  end.

Section Batches.

(** What the walk calls for each list: it returns whether to stop. *)
Context {St : Type} (processor : St -> IndexKey -> PostingsBitmap -> Z -> St * bool).
Context (p : Postings) (matching : option PostingsBitmap).

(** The loop of [next_batch]: the lists processed, the last key and whether it was stopped. *)
Fixpoint batch_loop (it : BatchIterator) (processed_in_batch : nat) (cursor : option IndexKey) (keys : list IndexKey) (st : St) : St * nat * option IndexKey * bool :=
  match keys with
  | [] => (st, processed_in_batch, cursor, false)
  | key :: keys =>
      if bool_decide (bi_cursor it = Some key) then batch_loop it processed_in_batch cursor keys st
      else
        let processed_in_batch := S processed_in_batch in
        let bitmap := default ∅ (label_index p !! key) in
        let count := counted p matching bitmap in
        let '(st, stopped) := if 0 <? count then processor st key bitmap count else (st, false) in
        if stopped then (st, processed_in_batch, cursor, true)
        else if (batch_size it <=? processed_in_batch)%nat then (st, processed_in_batch, Some key, false)
        else batch_loop it processed_in_batch (Some key) keys st
  end.

Definition next_batch (it : BatchIterator) (st : St) : BatchIterator * St :=
  if is_finished it then (it, st)
  else
    let '(st, processed, cursor, stopped) := batch_loop it 0 None (keys_from (bi_cursor it) (label_index p)) st in
    if stopped then (mkBatchIterator (bi_cursor it) (batch_size it) true, st)
    else match cursor with
         | None => (mkBatchIterator None (batch_size it) true, st)
         | Some cursor =>
             if (processed =? 0)%nat then (mkBatchIterator None (batch_size it) true, st)
             else (mkBatchIterator (Some cursor) (batch_size it) (is_finished it), st)
         end.

Fixpoint run_batches (fuel : nat) (it : BatchIterator) (st : St) : option St :=
  match fuel with
  | O => None
  | S fuel => if is_finished it then Some st else let '(it, st) := next_batch it st in run_batches fuel it st
  end.

End Batches.

(** *** What a walk gathers *)

Record Gathered := mkGathered {
  per_label_counts : gmap string Z;
  metric_name_counts : StatsMaxHeap;
  label_value_pair_counts : StatsMaxHeap;
  focus_label_value_counts : StatsMaxHeap;
  pairs_total : Z;
}.

(** The closure of [collect_stats]; [None] after an assignment out of range. *)
Definition gather (focus_label : string) (g : option Gathered) (key : IndexKey) (_ : PostingsBitmap) (count : Z) : option Gathered * bool :=
  (match g, key_split key with
   | Some g, Some (name, value) =>
       let labels := match per_label_counts g !! name with
                     | Some existing_count => <[name := saturating_add existing_count count]> (per_label_counts g)
                     | None => <[name := count]> (per_label_counts g)
                     end in
       let total := pairs_total g + 1 in
       let stat := mkPostingStat value count in
       match heap_push (label_value_pair_counts g) (mkPostingStat (name +:+ "=" +:+ value) count),
             (if bool_decide (name = METRIC_NAME_LABEL) then heap_push (metric_name_counts g) stat else Some (metric_name_counts g)),
             (if bool_decide (name = focus_label) then heap_push (focus_label_value_counts g) stat else Some (focus_label_value_counts g)) with
       | Some pairs, Some metrics, Some focus => Some (mkGathered labels metrics pairs focus total)
       | _, _, _ => None
       end
   | g, _ => g
   end, false).

Definition STATS_BATCH_SIZE : nat := 512.

(** A hash map is read in an order of its own. *)
Class HashOrder := hash_order : list (string * Z) -> list (string * Z).
Class HashOrderLaws `{HashOrder} := hash_order_perm : forall l, hash_order l ≡ₚ l.

Section Stats.

Context `{RegexEngine} `{SortBy} `{HashOrder}.

Definition collect_stats (fuel : nat) (p : Postings) (matching : option PostingsBitmap) (label : string) (limit : nat) : option PostingsStats :=
  let series_count := match matching with Some matching => cardinality matching | None => Z.of_nat (postings_count p) end in
  let focus_label := if is_empty_string label then METRIC_NAME_LABEL else label in
  let start := mkGathered ∅ (heap_new limit) (heap_new limit) (heap_new limit) 0 in
  match run_batches (gather focus_label) p matching fuel (batch_restricted STATS_BATCH_SIZE) (Some start) with
  | Some (Some g) =>
      match heap_push_all (heap_new limit) (map (fun e => mkPostingStat e.1 e.2) (hash_order (map_to_list (per_label_counts g)))) with
      | Some label_name_counts =>
          Some (mkPostingsStats (heap_items (metric_name_counts g)) (heap_items label_name_counts) (heap_items (label_value_pair_counts g))
                  (Some (heap_items (focus_label_value_counts g))) (pairs_total g) (Z.of_nat (size (per_label_counts g))) series_count)
      | None => None
      end
  | _ => None
  end.

Definition stats (fuel : nat) (p : Postings) (label : string) (limit : nat) : option PostingsStats := collect_stats fuel p None label limit.

Definition stats_restricted (fuel : nat) (p : Postings) (matching : option PostingsBitmap) (label : string) (limit : nat) : option PostingsStats :=
  if match matching with Some m => bool_decide (m = ∅) | None => false end then Some (mkPostingsStats [] [] [] (Some []) 0 0 0)
  else collect_stats fuel p matching label limit.

Definition matching_postings (p : Postings) (selectors : list SeriesSelector) : result IndexError (option PostingsBitmap) :=
  match selectors with
  | [] => Ok None
  | _ => let? matching := of_query (postings_for_selectors p selectors) in Ok (Some matching)
  end.

Definition stats_filtered (fuel : nat) (p : Postings) (filters : list LabelFilter) (label : string) (limit : nat) : result IndexError (option PostingsStats) :=
  match filters with
  | [] => Ok (stats fuel p label limit)
  | _ => let? matching := of_query (postings_for_label_filters (terms p) filters) in Ok (stats_restricted fuel p (Some matching) label limit)
  end.

Definition stats_by_selectors (fuel : nat) (p : Postings) (selectors : list SeriesSelector) (label : string) (limit : nat) : result IndexError (option PostingsStats) :=
  let? matching := matching_postings p selectors in Ok (stats_restricted fuel p matching label limit).

(** ** Keys and counts *)

Fixpoint and_cardinality_loop (t : Terms) (acc : PostingsBitmap) (selectors : list SeriesSelector) : result IndexError Z :=
  match selectors with
  | [] => Ok (cardinality acc)
  | s :: selectors => let? postings := of_query (postings_for_selector t s) in and_cardinality_loop t (acc ∩ postings) selectors
  end.

Definition get_cardinality_by_selectors (p : Postings) (selectors : list SeriesSelector) : result IndexError Z :=
  match selectors with
  | [] => Ok 0
  | filter :: selectors => let? first := of_query (postings_for_selector (terms p) filter) in and_cardinality_loop (terms p) first selectors
  end.

(** What [keys_for_selectors] checks keys with: [allows], and whether the permission
    asked for writes. *)
Record KeyCheck := mkKeyCheck { check_allows : string -> bool; check_writes : bool }.

(** The keys found, the ids without one, and whether a key was refused. *)
Fixpoint keys_loop (p : Postings) (allows : string -> bool) (ids : list SeriesRef) : list string * list SeriesRef * bool :=
  match ids with
  | [] => ([], [], false)
  | id :: ids =>
      match get_key_by_id p id with
      | None => let '(keys, dangling, denied) := keys_loop p allows ids in (keys, id :: dangling, denied)
      | Some key =>
          if negb (allows key) then ([], [], true)
          else let '(keys, dangling, denied) := keys_loop p allows ids in (key :: keys, dangling, denied)
      end
  end.

Definition keys_for_selectors (p : Postings) (filters : list SeriesSelector) (acl_permissions : option KeyCheck) : result IndexError (list string) * Postings :=
  let allows := match acl_permissions with Some c => check_allows c | None => fun _ => true end in
  match postings_for_selectors p filters with
  | Err e => (Err (QueryFailed e), p)
  | Ok ids =>
      if bool_decide (ids = ∅) then (Ok [], p)
      else
        let '(keys, dangling_ids, acl_denied) := keys_loop p allows (bitmap_iter ids) in
        let p := match dangling_ids with [] => p | _ => mark_ids_as_stale p dangling_ids end in
        if acl_denied then
          (Err (match acl_permissions with Some c => if check_writes c then AllKeysWritePermission else AllKeysReadPermission | None => AllKeysReadPermission end), p)
        else (Ok keys, p)
  end.

End Stats.
