(* ===== verification/IndexLaws.v ===== *)
(** * IndexLaws: sweeping stale ids, walking the label index and its statistics

    A sweep ends with no stale id left; a batched walk visits every key once whatever
    the size of the batches; a heap of statistics keeps the largest counts. *)

From stdpp Require Import strings list gmap sets sorting.
From S2P Require Import Prelude MRange MRangeLaws LabelFilters Postings PostingsLaws PostingsRun TimeSeriesIndex.

Local Open Scope string_scope.
Local Open Scope list_scope.
Local Open Scope Z_scope.

(** ** Keys in order *)

Lemma keys_from_nodup start i : NoDup (keys_from start i).
Proof. unfold keys_from. apply NoDup_ListNoDup, List.NoDup_filter, NoDup_ListNoDup. rewrite sort_with_perm. apply NoDup_fst_map_to_list. Qed.

Lemma key_leb_antisym a b : key_leb a b = true -> key_leb b a = true -> a = b.
Proof. rewrite !key_leb_string. intros H1 H2. by apply String.leb_antisym. Qed.

Lemma key_leb_trans a b c : key_leb a b = true -> key_leb b c = true -> key_leb a c = true.
Proof. rewrite !key_leb_string. apply string_leb_trans. Qed.

Lemma from_trans start c key : from start c = true -> key_leb c key = true -> from start key = true.
Proof. destruct start as [s|]; [|done]. cbn. apply key_leb_trans. Qed.

(** ** Sweeping *)

(** The keys a pass has still to visit. *)
Definition later (start : option IndexKey) (p : Postings) : gset string := filter (fun k => from start k = true) (dom (label_index p)).

Lemma later_keys start p key : key ∈ later start p <-> key ∈ keys_from start (label_index p).
Proof. unfold later. rewrite elem_of_filter, keys_from_in. tauto. Qed.

Lemma batch_progress p start count c p' : remove_stale_ids p start count = (Some c, p') -> stale_is_empty (stale_ids p) = false -> (0 < count)%nat ->
  c ∈ later (Some c) p' /\ (size (later (Some c) p') < size (later start p))%nat.
Proof.
  intros Hb Hne Hc. destruct (batch_spec p start count _ Hb Hne) as (cleaned & i & finished & _ & Hdom & Hkept & Hp & _ & _ & _ & Hsome & _). cbn [fst snd] in *.
  destruct (Hsome c eq_refl) as (rest & E & Hlen). pose proof (keys_from_nodup start (label_index p)) as Hnd. pose proof (keys_from_sorted start (label_index p)) as Hs. rewrite E in Hnd, Hs.
  assert (Hin : c ∈ keys_from start (label_index p)) by (rewrite E; set_solver). apply keys_from_in in Hin as [Hcd Hcf].
  assert (Hli : label_index p' = i) by (by rewrite Hp). apply NoDup_app in Hnd as (_ & Hnd & _). split.
  - unfold later. rewrite elem_of_filter, Hli. split; [apply key_leb_refl|]. apply Hkept; [done|]. intros Hcl. apply (Hnd c Hcl). set_solver.
  - destruct cleaned as [|k0 cleaned]; [cbn in Hlen; lia|]. apply subset_size. split.
    + intros key. unfold later. rewrite !elem_of_filter, Hli. intros [Hf Hd]. split; [by eapply from_trans|by apply Hdom].
    + intros Hback. assert (Hk : k0 ∈ later (Some c) p') by (apply Hback; rewrite later_keys, E; set_solver). unfold later in Hk. rewrite elem_of_filter in Hk. destruct Hk as [Hf _]. cbn in Hf.
      apply StronglySorted_inv in Hs as [_ Hs]. rewrite Forall_forall in Hs. specialize (Hs c ltac:(set_solver)). pose proof (key_leb_antisym _ _ Hf Hs) as ->. apply (Hnd k0); set_solver.
Qed.

(** A pass that was begun with every stale id retires them all. *)
Definition covers (p : Postings) (start : option IndexKey) : Prop := start = None \/ exists pass, st_pass (stale_ids p) = Some pass /\ st_ids (stale_ids p) ⊆ pass.

Lemma covers_in_pass p start : covers p start -> exists pass, st_pass (stale_ids (in_pass p start)) = Some pass /\ st_ids (stale_ids p) ⊆ pass.
Proof.
  unfold in_pass. intros [->|(pass & E & Hs)]; [by eexists|]. rewrite E. destruct start; [by exists pass|]. cbn. by eexists.
Qed.

Lemma sweep_loop_spec fuel : forall p start db former, index_inv (mkIndexState p db former start) -> covers p start -> later start p <> ∅ -> stale_is_empty (stale_ids p) = false ->
  (size (later start p) < fuel)%nat -> exists p', sweep_loop fuel p start = Some p' /\ st_ids (stale_ids p') = ∅ /\ index_inv (mkIndexState p' db former None).
Proof.
  induction fuel as [|fuel IH]; intros p start db former Hinv Hcov Hlater Hne Hfuel; [lia|]. cbn [sweep_loop].
  pose proof (index_inv_drain _ SWEEP_BATCH_SIZE Hinv) as Hnext. cbn [xs_postings xs_cursor xs_db xs_former] in Hnext.
  destruct (remove_stale_ids p start SWEEP_BATCH_SIZE) as [next p1] eqn:Hb. destruct (covers_in_pass _ _ Hcov) as (pass & Hpass & Hsub). cbn [fst snd] in Hnext.
  destruct (in_pass_same p start) as (_ & _ & _ & Hs). destruct (batch_spec p start _ _ Hb Hne) as (cleaned & i & finished & _ & _ & _ & Hp1 & _ & Hfin & Hlast & _ & _).
  cbn [fst snd] in *. destruct next as [c|].
  - assert (finished = false) as -> by (destruct finished; [by specialize (Hfin eq_refl)|done]).
    destruct (batch_progress p start _ c p1 Hb Hne) as [Hc Hlt]; [unfold SWEEP_BATCH_SIZE; lia|]. apply IH; [done| |set_solver| |lia].
    + right. exists pass. rewrite Hp1. cbn. by rewrite Hs.
    + unfold stale_is_empty in *. rewrite Hp1. cbn. by rewrite Hs.
  - exists p1. split; [done|]. split; [|done]. destruct finished.
    + rewrite Hp1. cbn. rewrite (finish_ids _ _ Hpass). cbn. rewrite Hs. set_solver.
    + exfalso. apply Hlater. apply set_eq. intros key. rewrite later_keys, (Hlast eq_refl eq_refl). set_solver.
Qed.

Lemma sweep_spec fuel p db former : index_inv (mkIndexState p db former None) -> label_index p <> ∅ -> (size (dom (label_index p)) < fuel)%nat ->
  exists p', sweep_stale_ids fuel p = Some (cardinality (st_ids (stale_ids p)), p') /\ st_ids (stale_ids p') = ∅ /\ index_inv (mkIndexState p' db former None).
Proof.
  intros Hinv Hi Hfuel. unfold sweep_stale_ids. destruct (Z.eqb_spec (cardinality (st_ids (stale_ids p))) 0) as [E|E].
  - assert (Hst : st_ids (stale_ids p) = ∅). { unfold cardinality in E. apply leibniz_equiv, size_empty_iff. lia. } exists p. by rewrite E.
  - assert (Hl : later None p = dom (label_index p)) by (apply set_eq; intros k; unfold later; rewrite elem_of_filter; naive_solver).
    destruct (sweep_loop_spec fuel p None db former Hinv) as (p' & -> & Hst & Hinv'); [by left| | |by rewrite Hl|].
    + rewrite Hl. intros Hd. by apply Hi, dom_empty_inv_L.
    + unfold stale_is_empty. apply bool_decide_eq_false. intros Hst. by rewrite Hst in E.
    + exists p'. rewrite Hst. unfold cardinality at 2. rewrite size_empty. replace (_ - Z.of_nat 0) with (cardinality (st_ids (stale_ids p))) by lia. done.
Qed.

(** Without a key there is nothing to process, and no pass is finished. *)
Lemma batch_empty p count : label_index p = ∅ -> stale_is_empty (stale_ids p) = false -> remove_stale_ids p None count = (None, in_pass p None).
Proof. destruct p as [i k s a]. cbn. intros -> Hs. unfold remove_stale_ids. cbn [stale_ids]. by rewrite Hs. Qed.

Lemma sweep_empty fuel p db former : index_inv (mkIndexState p db former None) -> label_index p = ∅ -> (0 < fuel)%nat ->
  exists p', sweep_stale_ids fuel p = Some (0, p') /\ label_index p' = ∅ /\ st_ids (stale_ids p') = st_ids (stale_ids p) /\
    index_inv (mkIndexState p' db former None).
Proof.
  intros Hinv Hi Hf. unfold sweep_stale_ids. destruct (Z.eqb_spec (cardinality (st_ids (stale_ids p))) 0) as [E|E]; [by exists p|].
  assert (Hne : stale_is_empty (stale_ids p) = false) by (unfold stale_is_empty; apply bool_decide_eq_false; intros Hst; by rewrite Hst in E).
  destruct fuel as [|fuel]; [lia|]. cbn [sweep_loop]. pose proof (index_inv_drain _ SWEEP_BATCH_SIZE Hinv) as Hnext.
  cbn [xs_postings xs_cursor xs_db xs_former] in Hnext. rewrite (batch_empty p _ Hi Hne) in Hnext |- *. cbn [fst snd] in Hnext.
  destruct (in_pass_same p None) as (Hl & _ & _ & Hs). exists (in_pass p None). rewrite Hl, Hs, Z.sub_diag. done.
Qed.

(** ** The batched walk *)

Section Walk.

Context {St : Type} (processor : St -> IndexKey -> PostingsBitmap -> Z -> St * bool) (p : Postings) (matching : option PostingsBitmap).
Hypothesis never_stops : forall st key b n, (processor st key b n).2 = false.

Definition visit_key (st : St) (key : IndexKey) : St :=
  let b := default ∅ (label_index p !! key) in if 0 <? counted p matching b then (processor st key b (counted p matching b)).1 else st.

(** The keys after the cursor. *)
Definition after (cursor : option IndexKey) : list IndexKey := List.filter (fun k => negb (bool_decide (cursor = Some k))) (keys_from cursor (label_index p)).

Lemma batch_loop_filter it keys : forall n cur st, batch_loop processor p matching it n cur keys st =
  batch_loop processor p matching it n cur (List.filter (fun k => negb (bool_decide (bi_cursor it = Some k))) keys) st.
Proof.
  induction keys as [|key keys IH]; intros n cur st; cbn [batch_loop List.filter]; [done|]. case_bool_decide as E; cbn [negb]; [apply IH|]. cbn [batch_loop].
  rewrite (bool_decide_eq_false_2 _ E). case_match. by rewrite IH.
Qed.

Lemma batch_loop_spec it keys : Forall (fun k => bi_cursor it <> Some k) keys -> forall n cur st, (n < batch_size it)%nat ->
  batch_loop processor p matching it n cur keys st =
    (fold_left visit_key (take (batch_size it - n) keys) st, (n + length (take (batch_size it - n) keys))%nat,
     match last (take (batch_size it - n) keys) with Some k => Some k | None => cur end, false).
Proof.
  induction 1 as [|key keys Hk Hks IH]; intros n cur st Hn; cbn [batch_loop]; [by rewrite take_nil; cbn; rewrite Nat.add_0_r|].
  rewrite bool_decide_eq_false_2 by done. replace (batch_size it - n)%nat with (S (batch_size it - S n)) by lia. cbn [take fold_left length].
  set (b := default ∅ (label_index p !! key)). fold b.
  assert (Hv : (if 0 <? counted p matching b then processor st key b (counted p matching b) else (st, false)) = (visit_key st key, false)).
  { unfold visit_key. fold b. destruct (0 <? counted p matching b); [|done]. rewrite <- (never_stops st key b (counted p matching b)). by destruct (processor _ _ _ _). }
  rewrite Hv. destruct (Nat.leb_spec (batch_size it) (S n)) as [Hle|Hlt].
  - replace (batch_size it - S n)%nat with 0%nat by lia. cbn. by rewrite Nat.add_1_r.
  - rewrite IH by lia. rewrite <- Nat.add_succ_comm. rewrite last_cons. by destruct (last (take (batch_size it - S n) keys)).
Qed.

Lemma after_split X k Y : keys_from None (label_index p) = X ++ k :: Y -> after (Some k) = Y.
Proof.
  intros E. pose proof (keys_from_nodup None (label_index p)) as Hnd. pose proof (keys_from_sorted None (label_index p)) as Hs.
  assert (Hf : after (Some k) = List.filter (fun x => key_leb k x && negb (bool_decide (Some k = Some x))) (keys_from None (label_index p))).
  { unfold after, keys_from. generalize (sort_with key_leb (map fst (map_to_list (label_index p)))). intros l. induction l as [|x l IH]; [done|]. cbn. destruct (key_leb k x); cbn; [|done]. case_match; by rewrite IH. }
  rewrite Hf, E. rewrite E in Hnd, Hs. clear E Hf. apply NoDup_app in Hnd as (_ & HX & HY). rewrite List.filter_app. cbn [List.filter]. rewrite bool_decide_eq_true_2, andb_false_r by done.
  assert (HY' : List.filter (fun x => key_leb k x && negb (bool_decide (Some k = Some x))) Y = Y).
  { apply StronglySorted_app_1_r, StronglySorted_inv in Hs as [_ Hs]. apply NoDup_cons in HY as [HY _]. induction Y as [|y Y IH]; [done|]. cbn.
    apply Forall_cons in Hs as [-> Hs]. rewrite bool_decide_eq_false_2 by set_solver. cbn. by rewrite IH by set_solver. }
  rewrite HY'. assert (HX' : List.filter (fun x => key_leb k x && negb (bool_decide (Some k = Some x))) X = []); [|by rewrite HX'].
  induction X as [|x X IH]; [done|]. cbn in *. apply StronglySorted_inv in Hs as [Hs Hx]. rewrite IH by (try done; set_solver).
  destruct (key_leb k x) eqn:E; [|done]. exfalso. rewrite Forall_forall in Hx. specialize (Hx k ltac:(set_solver)). pose proof (key_leb_antisym _ _ E Hx) as ->. apply (HX x); set_solver.
Qed.

Lemma run_batches_spec fuel : forall it st X Y, keys_from None (label_index p) = X ++ Y -> after (bi_cursor it) = Y -> is_finished it = false -> (0 < batch_size it)%nat -> (length Y + 1 < fuel)%nat ->
  run_batches processor p matching fuel it st = Some (fold_left visit_key Y st).
Proof.
  induction fuel as [|fuel IH]; intros it st X Y E HY Hf Hb Hfuel; [lia|]. cbn [run_batches]. rewrite Hf. unfold next_batch. rewrite Hf, batch_loop_filter. fold (after (bi_cursor it)). rewrite HY.
  rewrite batch_loop_spec; [|rewrite <- HY; unfold after; apply Forall_forall; intros k [_ Hk%negb_true_iff%bool_decide_eq_false]%list_elem_of_In%filter_In; done|done].
  rewrite Nat.sub_0_r. destruct Y as [|y Y]; [rewrite take_nil; cbn; cbn [length] in Hfuel; destruct fuel; [lia|by cbn [run_batches is_finished]]|].
  destruct (last (take (batch_size it) (y :: Y))) as [k|] eqn:Hl; [|apply last_None in Hl; destruct (batch_size it); [lia|done]].
  destruct (Nat.eqb_spec (0 + length (take (batch_size it) (y :: Y)))%nat 0) as [Hz|_]; [destruct (batch_size it); [lia|done]|].
  apply last_Some in Hl as [B HB]. pose proof (take_drop (batch_size it) (y :: Y)) as Hsplit. rewrite HB in Hsplit.
  rewrite (IH _ _ (X ++ B ++ [k]) (drop (batch_size it) (y :: Y))).
  - rewrite <- fold_left_app. f_equal. by rewrite take_drop.
  - rewrite E, <- app_assoc, Hsplit. done.
  - cbn [bi_cursor]. apply (after_split (X ++ B)). rewrite E. rewrite <- Hsplit at 1. by rewrite <- !app_assoc.
  - done.
  - done.
  - rewrite length_drop. cbn [length] in *. lia.
Qed.

Lemma walk_spec fuel st size : (0 < size)%nat -> (length (keys_from None (label_index p)) + 1 < fuel)%nat ->
  run_batches processor p matching fuel (batch_restricted size) st = Some (fold_left visit_key (keys_from None (label_index p)) st).
Proof.
  intros Hs Hf. apply (run_batches_spec fuel _ st []); [done| |done|done|done]. unfold after. cbn [bi_cursor batch_restricted].
  induction (keys_from None (label_index p)) as [|k l IH] in |- *; [done|]. cbn. by rewrite IH.
Qed.

End Walk.

(** ** The heap of statistics *)

(** The [n] statistics of [l] with the largest counts. *)
Definition top_of (n : nat) (l items : list PostingStat) : Prop :=
  length items = min n (length l) /\ exists dropped, items ++ dropped ≡ₚ l /\ forall x y, x ∈ items -> y ∈ dropped -> stat_count y <= stat_count x.

Record heap_ok (h : StatsMaxHeap) : Prop := {
  ho_empty : heap_items h = [] -> min_value h = U64_MAX;
  ho_least : heap_items h <> [] -> exists m, heap_items h !! min_index h = Some m /\ stat_count m = min_value h /\ forall x, x ∈ heap_items h -> min_value h <= stat_count x;
}.

Lemma heap_new_ok n : heap_ok (heap_new n).
Proof. by split. Qed.

Lemma min_scan_spec items : forall pre v j (all := pre ++ items), (exists m, all !! j = Some m /\ stat_count m = v) -> (forall x, x ∈ pre -> v <= stat_count x) ->
  let '(v', j') := min_scan items (length pre) (v, j) in (exists m, all !! j' = Some m /\ stat_count m = v') /\ forall x, x ∈ all -> v' <= stat_count x.
Proof.
  induction items as [|s items IH]; intros pre v j all Hj Hpre; cbn [min_scan]; [subst all; by rewrite app_nil_r in *|].
  assert (Eall : all = (pre ++ [s]) ++ items) by (subst all; by rewrite <- app_assoc).
  assert (Elen : S (length pre) = length (pre ++ [s])) by (rewrite length_app; cbn; lia). rewrite Elen, Eall in *. cbn [fst].
  destruct (Z.ltb_spec (stat_count s) v) as [Hlt|Hge].
  - apply IH; [exists s; split; [|done]; rewrite <- app_assoc; cbn; by apply list_lookup_middle|]. intros x [Hx|Hx]%elem_of_app; [specialize (Hpre x Hx); lia|]. apply list_elem_of_singleton in Hx as ->. lia.
  - apply IH; [done|]. intros x [Hx|Hx]%elem_of_app; [by apply Hpre|]. apply list_elem_of_singleton in Hx as ->. lia.
Qed.

Lemma heap_push_spec h l x : heap_ok h -> top_of (max_length h) l (heap_items h) -> stat_count x < U64_MAX ->
  exists h', heap_push h x = Some h' /\ heap_ok h' /\ max_length h' = max_length h /\ top_of (max_length h) (l ++ [x]) (heap_items h').
Proof.
  intros [He Hl] (Hlen & dropped & Hp & Htop) Hx. unfold heap_push. destruct (Nat.ltb_spec (length (heap_items h)) (max_length h)) as [Hlt|Hfull].
  - assert (Hd : dropped = []). { apply Permutation_length in Hp. rewrite length_app in Hp. destruct dropped; [done|]. cbn in Hp. lia. } subst dropped. rewrite app_nil_r in Hp.
    exists (mkStatsMaxHeap (max_length h) (if stat_count x <? min_value h then stat_count x else min_value h) (if stat_count x <? min_value h then length (heap_items h) else min_index h) (heap_items h ++ [x])).
    split; [by destruct (stat_count x <? min_value h)|]. split; [split; cbn|split; [done|split; cbn]].
    + by destruct (heap_items h).
    + intros _. destruct (Z.ltb_spec (stat_count x) (min_value h)) as [Hm|Hm].
      * exists x. split; [by apply list_lookup_middle|]. split; [done|]. intros y [Hy|Hy%list_elem_of_singleton]%elem_of_app; [|subst y; lia]. destruct Hl as (m & _ & _ & Hall); [by destruct (heap_items h); [apply not_elem_of_nil in Hy|]|]. specialize (Hall y Hy). lia.
      * destruct (heap_items h) as [|i items] eqn:Ei; [specialize (He eq_refl); lia|]. destruct Hl as (m & Hm1 & Hm2 & Hall); [done|]. exists m. split; [by apply lookup_app_l_Some|]. split; [done|].
        intros y [Hy|Hy%list_elem_of_singleton]%elem_of_app; [by apply Hall|subst y; lia].
    + rewrite !length_app. cbn. lia.
    + exists []. rewrite app_nil_r. split; [by rewrite Hp|]. set_solver.
  - destruct (Z.ltb_spec (stat_count x) (min_value h)) as [Hm|Hm].
    + exists h. split; [done|]. split; [by split|]. split; [done|]. split; [rewrite length_app; cbn; lia|]. exists (dropped ++ [x]). rewrite app_assoc, Hp. split; [done|].
      intros y z Hy [Hz|Hz%list_elem_of_singleton]%elem_of_app; [by apply Htop|]. subst z. destruct Hl as (m & _ & _ & Hall); [by destruct (heap_items h); [apply not_elem_of_nil in Hy|]|]. specialize (Hall y Hy). lia.
    + destruct (heap_items h) as [|i items] eqn:Ei; [specialize (He eq_refl); lia|]. destruct Hl as (m & Hm1 & Hm2 & Hall); [done|]. rewrite Hm1. rewrite <- Ei in *. clear Ei i items.
      pose proof (list_elem_of_split_length _ _ _ Hm1) as (a & b & Eh & Ea).
      assert (Eins : <[min_index h := x]> (heap_items h) = a ++ x :: b) by (rewrite Eh, Ea; by rewrite <- (Nat.add_0_r (length a)), insert_app_r). rewrite Eins.
      pose proof (min_scan_spec (a ++ x :: b) [] (stat_count x) (min_index h)) as Hscan. cbn [app length] in Hscan. destruct (min_scan (a ++ x :: b) 0 (stat_count x, min_index h)) as [v j].
      destruct Hscan as [(m' & Hm' & Hv) Hleast]; [exists x; split; [|done]; rewrite Ea; by apply list_lookup_middle|set_solver|].
      eexists. split; [done|]. split; [split; cbn|split; [done|split; cbn]].
      * by destruct a.
      * intros _. by exists m'.
      * rewrite Eh in Hlen, Hfull. rewrite !length_app in *. cbn in *. lia.
      * exists (m :: dropped). rewrite Eh in Hp. split; [rewrite <- Hp; solve_Permutation|]. rewrite Eh in Htop, Hall. intros y z Hy Hz.
        assert (Hmy : stat_count m <= stat_count y). { apply elem_of_app in Hy as [Hy|[->|Hy]%elem_of_cons]; [| |]; rewrite Hm2; [|lia|]; apply Hall; set_solver. }
        apply elem_of_cons in Hz as [->|Hz]; [done|]. transitivity (stat_count m); [|done]. apply Htop; [set_solver|done].
Qed.

Lemma heap_push_all_spec xs : forall h l, heap_ok h -> top_of (max_length h) l (heap_items h) -> Forall (fun x => stat_count x < U64_MAX) xs ->
  exists h', heap_push_all h xs = Some h' /\ heap_ok h' /\ max_length h' = max_length h /\ top_of (max_length h) (l ++ xs) (heap_items h').
Proof.
  induction xs as [|x xs IH]; intros h l Hh Ht Hxs; cbn [heap_push_all]; [exists h; by rewrite app_nil_r|]. apply Forall_cons in Hxs as [Hx Hxs].
  destruct (heap_push_spec h l x Hh Ht Hx) as (h1 & -> & Hh1 & E1 & Ht1). rewrite <- E1 in Ht1. destruct (IH h1 _ Hh1 Ht1 Hxs) as (h2 & -> & Hh2 & E2 & Ht2).
  exists h2. rewrite E1 in *. rewrite <- app_assoc in Ht2. done.
Qed.

Lemma top_nil n : top_of n [] [].
Proof. split; [by rewrite Nat.min_0_r|]. exists []. split; [done|]. set_solver. Qed.

(** ** Lookups by labels *)

Section Lookup.

Context (p : Postings) (db : Database) (Hrep : index_rep p db).

(** The live series that have all of [labels]. *)
Definition has_labels (labels : list Label) (id : Z) : Prop := exists k ls, db !! id = Some (k, ls) /\ labels ⊆ ls.

Lemma id_loop_spec labels : forall acc r, id_by_labels_loop (terms p) acc labels = r ->
  match r with
  | Some s => forall id, id ∈ s <-> id ∈ acc /\ Forall (fun l => in_index (label_index p) (for_label_value l.1 l.2) id) labels
  | None => forall id, id ∈ acc -> ~ Forall (fun l => in_index (label_index p) (for_label_value l.1 l.2) id) labels
  end.
Proof.
  induction labels as [|[n v] labels IH]; intros acc r <-; cbn [id_by_labels_loop fst snd]; [intros id; rewrite Forall_nil; tauto|]. rewrite kb_label_value. cbn [terms tm_index].
  destruct (label_index p !! for_label_value n v) as [b|] eqn:E.
  - assert (Hb : forall id, in_index (label_index p) (for_label_value n v) id <-> id ∈ b) by (intros id; rewrite in_index_default, E; done).
    case_bool_decide as Ee.
    + intros id Hid [Hn _]%Forall_cons. apply Hb in Hn. set_solver.
    + specialize (IH (acc ∩ b) _ eq_refl). destruct (id_by_labels_loop (terms p) (acc ∩ b) labels).
      * intros id. rewrite IH, Forall_cons, elem_of_intersection, Hb. tauto.
      * intros id Hid [Hn Hf]%Forall_cons. apply Hb in Hn. apply (IH id); [set_solver|done].
  - intros id _ [(b & Hb & _) _]%Forall_cons. cbn in Hb. congruence.
Qed.

Lemma all_labels_spec labels id : labels <> [] -> Forall (fun l => free_of equals_sign l.1) labels -> id ∉ st_ids (stale_ids p) ->
  Forall (fun l => in_index (label_index p) (for_label_value l.1 l.2) id) labels <-> has_labels labels id.
Proof.
  intros Hne Hf Hst. unfold has_labels. split.
  - intros Hall. destruct labels as [|[n v] labels]; [done|]. pose proof (Forall_inv Hall) as H1. apply (ir_posted _ _ Hrep) in H1 as (k & ls & Hd & _); [|exact (Forall_inv Hf)|done].
    exists k, ls. split; [done|]. intros [n' v'] Hin. rewrite Forall_forall in Hall, Hf. specialize (Hall _ Hin). apply (ir_posted _ _ Hrep) in Hall as (k' & ls' & Hd' & Hl); [|exact (Hf _ Hin)|done]. rewrite Hd in Hd'. by injection Hd' as <- <-.
  - intros (k & ls & Hd & Hsub). apply Forall_forall. intros [n v] Hin. rewrite Forall_forall in Hf. apply (ir_posted _ _ Hrep); [exact (Hf _ Hin)|done|]. eauto.
Qed.

Lemma size_one (s : gset Z) id : (size s =? 1)%nat = true /\ head (elements s) = Some id <-> forall x, x ∈ s <-> x = id.
Proof.
  rewrite Nat.eqb_eq. split.
  - intros [Hs Hh]. apply size_1_elem_of in Hs as [y Hy]. apply leibniz_equiv in Hy. subst s. rewrite elements_singleton in Hh. injection Hh as ->. set_solver.
  - intros Hx. assert (s = {[id]}) as -> by (apply set_eq; set_solver). by rewrite size_singleton, elements_singleton.
Qed.

(** An id is found exactly when it is the only live series with all the labels. *)
Lemma id_by_labels_spec labels id : labels <> [] -> Forall (fun l => free_of equals_sign l.1) labels ->
  posting_id_by_labels (terms p) labels = Some id <-> forall x, has_labels labels x <-> x = id.
Proof.
  intros Hne Hf. destruct labels as [|[n v] labels]; [done|]. cbn [posting_id_by_labels fst snd]. rewrite kb_label_value. cbn [terms tm_index tm_stale].
  assert (Hlive : forall x, has_labels ((n, v) :: labels) x <-> x ∉ st_ids (stale_ids p) /\ Forall (fun l => in_index (label_index p) (for_label_value l.1 l.2) x) ((n, v) :: labels)).
  { intros x. split.
    - intros Hx. assert (Hst : x ∉ st_ids (stale_ids p)) by (destruct Hx as (k & ls & Hd & _); intros Hst; apply (ir_stale _ _ Hrep) in Hst; congruence). split; [done|]. by apply all_labels_spec.
    - intros [Hst Hall]. by apply all_labels_spec in Hall. }
  setoid_rewrite Hlive. setoid_rewrite Forall_cons. cbn [fst snd]. destruct (label_index p !! for_label_value n v) as [b|] eqn:E.
  - pose proof (id_loop_spec labels b _ eq_refl) as Hl. setoid_rewrite in_index_default at 1. setoid_rewrite E. cbn [default]. change (id_by_labels_loop (terms p) b labels) with (id_by_labels_loop (mkTerms (label_index p) (stale_ids p) (all_postings p)) b labels) in Hl.
    destruct (id_by_labels_loop _ b labels) as [s|].
    + rewrite mask_spec. transitivity ((size (s ∖ st_ids (stale_ids p)) =? 1)%nat = true /\ head (elements (s ∖ st_ids (stale_ids p))) = Some id).
      * destruct (size (s ∖ st_ids (stale_ids p)) =? 1)%nat; naive_solver.
      * rewrite size_one. split; intros Hx x; rewrite <- Hx, elem_of_difference, Hl; tauto.
    + split; [done|]. intros Hx. destruct (proj2 (Hx id) eq_refl) as (_ & Hb & Hall). exfalso. by apply (Hl id).
  - split; [done|]. intros Hx. destruct (proj2 (Hx id) eq_refl) as (_ & Hb & _). exfalso. apply in_index_default in Hb. rewrite E in Hb. set_solver.
Qed.

End Lookup.

(** ** The statistics of an index are those of the series it represents

    Every list of statistics has the largest counts of series over the pairs, names
    and values of the labels of the series in scope, and the totals count each once. *)

Local Arguments String.append : simpl nomatch.
Local Arguments String.prefix : simpl nomatch.
Local Arguments String.substring : simpl nomatch.

(** ** Splitting a key *)

Lemma index_cons a s needle b t : needle = String b t -> a <> b -> String.index 0 needle (String a s) = S <$> String.index 0 needle s.
Proof.
  intros -> Hne. cbn [String.index]. rewrite prefix_cons, bool_decide_eq_false_2 by congruence. cbn [andb]. by destruct (String.index 0 (String b t) s).
Qed.

Lemma index_equals n v : free_of equals_sign n -> String.index 0 "=" (n +:+ "=" +:+ v) = Some (String.length n).
Proof.
  induction n as [|a n IH]; intros Hn; [cbn; by destruct v|]. destruct Hn as [Ha Hn]. change (String a n +:+ "=" +:+ v) with (String a (n +:+ "=" +:+ v)). rewrite (index_cons a _ "=" equals_sign "") by done. by rewrite IH.
Qed.

Lemma key_split_label n v : free_of equals_sign n -> key_split (for_label_value n v) = Some (n, v).
Proof.
  intros Hn. unfold key_split, key_as_str, for_label_value. rewrite (substring_app _ (n +:+ "=" +:+ v) SENTINEL) by (rewrite append_length; cbn; lia).
  unfold str_find. rewrite index_equals by done. f_equal. f_equal; [by rewrite substring_app|]. unfold str_from. rewrite append_length.
  change (n +:+ "=" +:+ v) with (n +:+ ("=" +:+ v)). rewrite <- append_assoc. rewrite (substring_skip _ (n +:+ "=") v) by (rewrite append_length; cbn; lia).
  apply substring_all. cbn. lia.
Qed.

(** ** The series with a label *)

Lemma adjusted_spec p b : adjusted_cardinality p b (negb (stale_is_empty (stale_ids p))) = cardinality (b ∖ st_ids (stale_ids p)).
Proof.
  unfold adjusted_cardinality, stale_is_empty, cardinality, saturating_sub. case_bool_decide as E; cbn [negb]; [by rewrite E, difference_empty_L|].
  assert (Hs : (size b = size (b ∖ st_ids (stale_ids p)) + size (st_ids (stale_ids p) ∩ b))%nat).
  { rewrite <- size_union by set_solver. f_equal. apply set_eq. intros x. destruct (decide (x ∈ st_ids (stale_ids p))); set_solver. }
  destruct (Z.ltb_spec 0 (Z.of_nat (size (st_ids (stale_ids p) ∩ b)))); lia.
Qed.

Section Scope.

Context (p : Postings) (db : Database) (Hrep : index_rep p db) (matching : option PostingsBitmap).
Hypothesis Hlive : forall m, matching = Some m -> m ⊆ dom db.
Hypothesis Hsmall : Z.of_nat (size (dom db)) < U64_MAX.

(** The series counted. *)
Definition scope : gset Z := match matching with Some m => m | None => dom db end.

Definition labels_by_id (id : Z) : list Label := match db !! id with Some (_, ls) => ls | None => [] end.

(** Those with the label [n] of value [v], and those with the label [n]. *)
Definition carriers (l : Label) : gset Z := filter (fun id => l ∈ labels_by_id id) scope.
Definition bearers (n : string) : gset Z := filter (fun id => n ∈ map fst (labels_by_id id)) scope.

Lemma scope_live : scope ⊆ dom db.
Proof. unfold scope. destruct matching as [m|]; [by apply Hlive|done]. Qed.

Lemma carriers_index n v : free_of equals_sign n -> forall id, id ∈ carriers (n, v) <-> id ∈ scope /\ in_index (label_index p) (for_label_value n v) id.
Proof.
  intros Hn id. unfold carriers, labels_by_id. rewrite elem_of_filter. split.
  - intros [Hl Hs]. split; [done|]. pose proof (scope_live id Hs) as [[k ls] Hd]%elem_of_dom. rewrite Hd in Hl. apply (ir_posted _ _ Hrep); [done| |eauto].
    intros Hst. apply (ir_stale _ _ Hrep) in Hst. congruence.
  - intros [Hs Hi]. split; [|done]. pose proof (scope_live id Hs) as [[k ls] Hd]%elem_of_dom. apply (ir_posted _ _ Hrep) in Hi as (k' & ls' & Hd' & Hin); [|done|intros Hst; apply (ir_stale _ _ Hrep) in Hst; congruence].
    rewrite Hd in Hd'. injection Hd' as <- <-. by rewrite Hd.
Qed.

Lemma counted_spec n v : free_of equals_sign n -> counted p matching (default ∅ (label_index p !! for_label_value n v)) = cardinality (carriers (n, v)).
Proof.
  intros Hn. pose proof (carriers_index n v Hn) as Hc. unfold counted, scope in *. destruct matching as [m|].
  - unfold cardinality. do 2 f_equal. apply set_eq. intros id. rewrite Hc, elem_of_intersection, in_index_default. tauto.
  - rewrite adjusted_spec. unfold cardinality. do 2 f_equal. apply set_eq. intros id. rewrite Hc, elem_of_difference, in_index_default, elem_of_dom. split.
    + intros [Hi Hst]. split; [|done]. apply in_index_default in Hi. apply (ir_posted _ _ Hrep) in Hi as (k & ls & Hd & _); [by eexists|done|done].
    + intros [[x Hd] Hi]. split; [done|]. intros Hst. apply (ir_stale _ _ Hrep) in Hst. congruence.
Qed.

(** The pairs of the index, and those a series in scope has. *)
Definition index_pairs : list Label := omap key_split (keys_from None (label_index p)).
Definition pairs : list Label := filter (fun l => carriers l <> ∅) index_pairs.

Lemma keys_shape : Forall (fun key => exists n v, key = for_label_value n v /\ free_of equals_sign n) (keys_from None (label_index p)).
Proof.
  apply Forall_forall. intros key [Hd _]%keys_from_in. destruct (shape_dom p db key Hrep Hd) as (n & v & -> & Hn & _). eauto.
Qed.

Lemma pairs_free : Forall (fun l => free_of equals_sign l.1) index_pairs.
Proof.
  unfold index_pairs. induction keys_shape as [|key keys (n & v & -> & Hn) _ IH]; [done|]. cbn. rewrite key_split_label by done. by constructor.
Qed.

Lemma pairs_nodup : NoDup pairs.
Proof.
  apply NoDup_filter. unfold index_pairs. pose proof (keys_from_nodup None (label_index p)) as Hnd. induction keys_shape as [|key keys (n & v & -> & Hn) Hks IH]; [constructor|].
  apply NoDup_cons in Hnd as [Hk Hnd]. cbn. rewrite key_split_label by done. constructor; [|by apply IH]. intros (key' & Hin & Hs)%list_elem_of_omap.
  rewrite Forall_forall in Hks. destruct (Hks _ Hin) as (n' & v' & -> & Hn'). rewrite key_split_label in Hs by done. injection Hs as -> ->. done.
Qed.

Lemma pairs_in n v : (n, v) ∈ pairs <-> carriers (n, v) <> ∅.
Proof.
  unfold pairs. rewrite list_elem_of_filter. split; [tauto|]. intros Hne. split; [done|]. apply set_choose_L in Hne as [id Hid].
  assert (Hn : free_of equals_sign n). { unfold carriers, labels_by_id in Hid. apply elem_of_filter in Hid as [Hid Hs]. destruct (db !! id) as [[k ls]|] eqn:E; [|by apply not_elem_of_nil in Hid].
    pose proof (lw_names _ (ir_labels _ _ Hrep _ _ _ E)) as Hf. rewrite Forall_forall in Hf. exact (Hf _ Hid). }
  apply (carriers_index n v Hn) in Hid as [_ (b & Hb & _)]. apply list_elem_of_omap. exists (for_label_value n v). split; [|by apply key_split_label].
  apply keys_from_in. split; [|done]. apply elem_of_dom. by eexists.
Qed.

Definition pair_stat (l : Label) : PostingStat := mkPostingStat (l.1 +:+ "=" +:+ l.2) (cardinality (carriers l)).
Definition value_stat (l : Label) : PostingStat := mkPostingStat l.2 (cardinality (carriers l)).
Definition name_stat (n : string) : PostingStat := mkPostingStat n (cardinality (bearers n)).
Definition with_name (n : string) (ls : list Label) : list Label := filter (fun l => l.1 = n) ls.

(** The series with one of the pairs [ls] of the name [n]. *)
Definition shared (n : string) (ls : list Label) : gset Z := ⋃ (map carriers (with_name n ls)).

(** What the walk has gathered after the pairs [ls]. *)
Record gathered (focus : string) (limit : nat) (ls : list Label) (g : Gathered) : Prop := {
  ga_ok : heap_ok (label_value_pair_counts g) /\ heap_ok (metric_name_counts g) /\ heap_ok (focus_label_value_counts g);
  ga_length : max_length (label_value_pair_counts g) = limit /\ max_length (metric_name_counts g) = limit /\ max_length (focus_label_value_counts g) = limit;
  ga_pairs : top_of limit (map pair_stat ls) (heap_items (label_value_pair_counts g));
  ga_metrics : top_of limit (map value_stat (with_name METRIC_NAME_LABEL ls)) (heap_items (metric_name_counts g));
  ga_focus : top_of limit (map value_stat (with_name focus ls)) (heap_items (focus_label_value_counts g));
  ga_total : pairs_total g = Z.of_nat (length ls);
  ga_labels : forall n, per_label_counts g !! n = if bool_decide (n ∈ map fst ls) then Some (cardinality (shared n ls)) else None;
}.

Lemma carriers_small l : cardinality (carriers l) < U64_MAX.
Proof.
  unfold cardinality. assert (size (carriers l) <= size (dom db))%nat; [|lia]. apply subseteq_size. intros id [_ Hs]%elem_of_filter. by apply scope_live.
Qed.

Lemma shared_snoc n ls l : shared n (ls ++ [l]) = if bool_decide (l.1 = n) then shared n ls ∪ carriers l else shared n ls.
Proof.
  unfold shared, with_name. rewrite filter_app, map_app, union_list_app_L. rewrite filter_cons, filter_nil. case_bool_decide as E; destruct (decide (l.1 = n)); try done; cbn.
  - by rewrite union_empty_r_L.
  - by rewrite union_empty_r_L.
Qed.

Lemma shared_in n ls id : id ∈ shared n ls <-> exists v, (n, v) ∈ ls /\ id ∈ carriers (n, v).
Proof.
  unfold shared, with_name. rewrite elem_of_union_list. setoid_rewrite list_elem_of_fmap. setoid_rewrite list_elem_of_filter. split.
  - intros (X & ([n' v] & -> & En & Hin) & Hid). cbn in En. subst n'. eauto.
  - intros (v & Hin & Hid). exists (carriers (n, v)). split; [|done]. by exists (n, v).
Qed.

Lemma shared_disjoint n v ls : (n, v) ∉ ls -> shared n ls ## carriers (n, v).
Proof.
  intros Hno id (v' & Hin & H1)%shared_in H2. apply Hno. unfold carriers in H1, H2. apply elem_of_filter in H1 as [H1 _], H2 as [H2 _]. unfold labels_by_id in *.
  destruct (db !! id) as [[k ls']|] eqn:E; [|by apply not_elem_of_nil in H1]. pose proof (ir_labels _ _ Hrep _ _ _ E) as Hw.
  apply (label_value_spec _ _ _ Hw) in H1, H2. rewrite H1 in H2. by injection H2 as <-.
Qed.

Lemma shared_small n ls : cardinality (shared n ls) < U64_MAX.
Proof.
  unfold cardinality. assert (size (shared n ls) <= size (dom db))%nat; [|lia]. apply subseteq_size. intros id (v & _ & [_ Hs]%elem_of_filter)%shared_in. by apply scope_live.
Qed.

Lemma gather_step focus limit ls g n v : gathered focus limit ls g -> free_of equals_sign n -> (n, v) ∉ ls ->
  exists g', (gather focus (Some g) (for_label_value n v) ∅ (cardinality (carriers (n, v)))).1 = Some g' /\ gathered focus limit (ls ++ [(n, v)]) g'.
Proof.
  intros [(H1 & H2 & H3) (L1 & L2 & L3) Hp Hm Hf Ht Hl] Hn Hno. unfold gather. cbn [fst]. rewrite key_split_label by done. pose proof (carriers_small (n, v)) as Hc.
  rewrite <- L1 in Hp. rewrite <- L2 in Hm. rewrite <- L3 in Hf.
  destruct (heap_push_spec _ _ (pair_stat (n, v)) H1 Hp Hc) as (h1 & E1 & K1 & M1 & T1). unfold pair_stat in E1. cbn [fst snd] in E1. rewrite E1.
  assert (Hopt : forall (h : StatsMaxHeap) name, heap_ok h -> top_of (max_length h) (map value_stat (with_name name ls)) (heap_items h) ->
    exists h', (if bool_decide (n = name) then heap_push h (mkPostingStat v (cardinality (carriers (n, v)))) else Some h) = Some h' /\ heap_ok h' /\ max_length h' = max_length h /\
      top_of (max_length h) (map value_stat (with_name name (ls ++ [(n, v)]))) (heap_items h')).
  { intros h name Hh Htop. unfold with_name. rewrite filter_app, filter_cons, filter_nil. cbn [fst]. case_bool_decide as E; destruct (decide (n = name)); try done.
    - rewrite map_app. exact (heap_push_spec h _ (value_stat (n, v)) Hh Htop Hc).
    - exists h. rewrite app_nil_r. done. }
  destruct (Hopt _ METRIC_NAME_LABEL H2 Hm) as (h2 & -> & K2 & M2 & T2). destruct (Hopt _ focus H3 Hf) as (h3 & -> & K3 & M3 & T3).
  eexists. split; [done|]. rewrite L1 in T1, M1. rewrite L2 in T2, M2. rewrite L3 in T3, M3. split; cbn [label_value_pair_counts metric_name_counts focus_label_value_counts pairs_total per_label_counts]; try done.
  - by rewrite map_app.
  - rewrite Ht, length_app. cbn. lia.
  - intros n'. rewrite shared_snoc, map_app. cbn [map fst]. destruct (decide (n = n')) as [<-|Hne].
    + rewrite (bool_decide_eq_true_2 (n ∈ _)) by set_solver. rewrite (bool_decide_eq_true_2 (n = n)) by done. rewrite Hl. case_bool_decide as E; rewrite lookup_insert_eq; f_equal.
      * pose proof (shared_small n (ls ++ [(n, v)])) as Hs. rewrite shared_snoc, bool_decide_eq_true_2 in Hs by done. unfold saturating_add, cardinality in *.
        rewrite size_union in * by (by apply shared_disjoint). lia.
      * assert (shared n ls = ∅) as ->; [|by rewrite union_empty_l_L]. apply set_eq. intros id. rewrite shared_in. split; [|set_solver]. intros (v' & Hin & _). exfalso. apply E, list_elem_of_fmap. by exists (n, v').
    + rewrite (bool_decide_eq_false_2 (n = n')) by done. transitivity (per_label_counts g !! n'); [case_match; by rewrite lookup_insert_ne|].
      rewrite Hl. case_bool_decide as F1; case_bool_decide as F2; [done|exfalso; set_solver..|done].
Qed.

Lemma gather_pairs focus limit todo : forall done g, gathered focus limit done g -> Forall (fun l => free_of equals_sign l.1) todo -> NoDup (done ++ todo) ->
  exists g', fold_left (fun g l => (gather focus g (for_label_value l.1 l.2) ∅ (cardinality (carriers l))).1) todo (Some g) = Some g' /\ gathered focus limit (done ++ todo) g'.
Proof.
  induction todo as [|[n v] todo IH]; intros done g Hg Hf Hnd; cbn [fold_left]; [exists g; by rewrite app_nil_r|]. apply Forall_cons in Hf as [Hn Hf].
  destruct (gather_step focus limit done g n v Hg Hn) as (g1 & E1 & Hg1); [apply NoDup_app in Hnd as (_ & Hnd & _); intros Hin; apply (Hnd _ Hin); set_solver|].
  cbn [fst snd] in *. rewrite E1. destruct (IH (done ++ [(n, v)]) g1 Hg1 Hf) as (g2 & -> & Hg2); [by rewrite <- app_assoc|]. exists g2. by rewrite <- app_assoc in Hg2.
Qed.

(** The walk over the keys is a walk over the pairs a series in scope has. *)
Lemma walk_pairs focus : forall g, fold_left (visit_key (gather focus) p matching) (keys_from None (label_index p)) g =
  fold_left (fun g l => (gather focus g (for_label_value l.1 l.2) ∅ (cardinality (carriers l))).1) pairs g.
Proof.
  unfold pairs, index_pairs. induction keys_shape as [|key keys (n & v & -> & Hn) _ IH]; intros g; [done|]. cbn [fold_left omap list_omap]. rewrite key_split_label, filter_cons by done.
  unfold visit_key at 2. rewrite counted_spec by done. unfold cardinality at 1. destruct (decide (carriers (n, v) <> ∅)) as [Hne|He].
  - assert (Hpos : 0 <? Z.of_nat (size (carriers (n, v))) = true). { apply Z.ltb_lt. assert (size (carriers (n, v)) <> 0%nat) by (intros Hz; by apply Hne, leibniz_equiv, size_empty_iff). lia. } rewrite Hpos. cbn [fold_left fst snd]. apply IH.
  - assert (Hz : carriers (n, v) = ∅) by (by apply dec_stable). rewrite Hz, size_empty. cbn. apply IH.
Qed.

Lemma shared_pairs n : shared n pairs = bearers n.
Proof.
  apply set_eq. intros id. rewrite shared_in. unfold bearers. rewrite elem_of_filter, list_elem_of_fmap. split.
  - intros (v & _ & [Hl Hs]%elem_of_filter). split; [by exists (n, v)|done].
  - intros [([n' v] & -> & Hl) Hs]. exists v. assert (Hc : id ∈ carriers (n', v)) by (by apply elem_of_filter). split; [|done]. apply pairs_in. set_solver.
Qed.

(** The statistics [st] are those of the series in scope. *)
Record stats_exact (focus : string) (limit : nat) (st : PostingsStats) : Prop := {
  sx_series : series_count st = cardinality scope;
  sx_pairs : exists ls, NoDup ls /\ (forall n v, (n, v) ∈ ls <-> carriers (n, v) <> ∅) /\ total_label_value_pairs st = Z.of_nat (length ls) /\
    top_of limit (map pair_stat ls) (series_count_by_label_value_pairs st) /\
    top_of limit (map value_stat (with_name METRIC_NAME_LABEL ls)) (series_count_by_metric_name st) /\
    exists items, series_count_by_focus_label_value st = Some items /\ top_of limit (map value_stat (with_name focus ls)) items;
  sx_names : exists ns, NoDup ns /\ (forall n, n ∈ ns <-> bearers n <> ∅) /\ label_count st = Z.of_nat (length ns) /\ top_of limit (map name_stat ns) (series_count_by_label_name st);
}.

Lemma bearers_pairs n : n ∈ map fst pairs <-> bearers n <> ∅.
Proof.
  rewrite <- shared_pairs, list_elem_of_fmap. split.
  - intros ([n' v] & -> & Hin). pose proof Hin as Hc. apply pairs_in, set_choose_L in Hc as [id Hid]. intros He. assert (Hs : id ∈ shared n' pairs) by (apply shared_in; eauto). cbn in He. rewrite He in Hs. set_solver.
  - intros [id (v & Hin & _)%shared_in]%set_choose_L. by exists (n, v).
Qed.

Context `{HashOrder} (Horder : HashOrderLaws).

Lemma collect_stats_spec fuel label limit : (length (keys_from None (label_index p)) + 1 < fuel)%nat ->
  exists st, collect_stats fuel p matching label limit = Some st /\ stats_exact (if is_empty_string label then METRIC_NAME_LABEL else label) limit st.
Proof.
  intros Hfuel. unfold collect_stats. set (focus := if is_empty_string label then METRIC_NAME_LABEL else label). rewrite walk_spec; [|done|unfold STATS_BATCH_SIZE; lia|done].
  rewrite walk_pairs. destruct (gather_pairs focus limit pairs [] (mkGathered ∅ (heap_new limit) (heap_new limit) (heap_new limit) 0)) as (g & -> & [_ _ Hp Hm Hf Ht Hl]).
  { split; cbn; try done; try apply top_nil. }
  { unfold pairs. apply Forall_forall. intros l [_ Hin]%list_elem_of_filter. pose proof pairs_free as Hall. rewrite Forall_forall in Hall. by apply Hall. }
  { apply pairs_nodup. }
  cbn [app] in *. set (ns := map fst (hash_order (map_to_list (per_label_counts g)))).
  assert (Hns : forall n, n ∈ ns <-> bearers n <> ∅).
  { intros n. unfold ns. rewrite list_elem_of_fmap. setoid_rewrite hash_order_perm. rewrite <- bearers_pairs. split.
    - intros ([n' c] & -> & Hin%elem_of_map_to_list). rewrite Hl in Hin. by case_bool_decide.
    - intros Hin. exists (n, cardinality (shared n pairs)). split; [done|]. apply elem_of_map_to_list. by rewrite Hl, bool_decide_eq_true_2. }
  assert (Hstats : map (fun e => mkPostingStat e.1 e.2) (hash_order (map_to_list (per_label_counts g))) = map name_stat ns).
  { unfold ns. rewrite map_map. apply map_ext_in. intros [n c] Hin%list_elem_of_In. rewrite hash_order_perm in Hin. apply elem_of_map_to_list in Hin. rewrite Hl in Hin. case_bool_decide; [|done]. injection Hin as <-. unfold name_stat. cbn. by rewrite shared_pairs. }
  rewrite Hstats. destruct (heap_push_all_spec (map name_stat ns) (heap_new limit) [] (heap_new_ok limit) (top_nil limit)) as (h & -> & _ & _ & Htop).
  { apply Forall_forall. intros x (n & -> & _)%list_elem_of_fmap. unfold name_stat. cbn. rewrite <- shared_pairs. apply shared_small. }
  eexists. split; [done|]. split; cbn.
  - unfold scope. destruct matching; [done|]. unfold postings_count, cardinality. by rewrite (ir_keys _ _ Hrep), map_size_fmap, size_dom.
  - exists pairs. split; [apply pairs_nodup|]. split; [apply pairs_in|]. split; [done|]. split; [done|]. split; [done|]. eauto.
  - exists ns. split; [unfold ns; rewrite hash_order_perm; apply NoDup_fst_map_to_list|]. split; [done|]. split; [|done]. unfold ns. rewrite length_map, hash_order_perm. by rewrite length_map_to_list.
Qed.

End Scope.

(** The statistics of no series. *)
Lemma stats_nothing db focus limit : stats_exact db (Some ∅) focus limit (mkPostingsStats [] [] [] (Some []) 0 0 0).
Proof.
  split; cbn; [done| |].
  - exists []. split; [constructor|]. split; [intros n v; split; [by intros ?%not_elem_of_nil|]|].
    + intros He. exfalso. apply He, set_eq. intros id. unfold carriers. rewrite elem_of_filter. set_solver.
    + split; [done|]. split; [apply top_nil|]. split; [apply top_nil|]. eexists. split; [done|]. apply top_nil.
  - exists []. split; [constructor|]. split; [intros n; split; [by intros ?%not_elem_of_nil|]|split; [done|apply top_nil]].
    intros He. exfalso. apply He, set_eq. intros id. unfold bearers. rewrite elem_of_filter. set_solver.
Qed.
