(* ===== verification/Querier.v ===== *)
(** * Querier: from selectors to series

    Models [src/series/index/querier.rs], the permission checks of
    [src/series/acl.rs], the opening of keys ([src/series/utils.rs],
    [src/series/guard.rs]) and the batches of [src/series/multi_del.rs].  What the
    server holds under a key, and what it permits a user, are arguments.  A parallel
    iterator keeps the order of its source. *)

From stdpp Require Import strings list gmap sorting.
From S2P Require Import Prelude Elf64 Types TimeSeries TimestampRange MRange LabelFilters Postings TimeSeriesIndex.

Local Open Scope string_scope.
Local Open Scope list_scope.
Local Open Scope Z_scope.
Local Open Scope result_scope.

(** ** Permissions *)

Record AclPermissions := mkAclPermissions { pm_access : bool; pm_insert : bool; pm_update : bool; pm_delete : bool }.

Definition acl_empty : AclPermissions := mkAclPermissions false false false false.
Definition ACCESS : AclPermissions := mkAclPermissions true false false false.
Definition DELETE : AclPermissions := mkAclPermissions false false false true.

Definition clone_permissions (permissions : AclPermissions) : AclPermissions :=
  let cloned := acl_empty in
  let cloned := if pm_access permissions then mkAclPermissions true (pm_insert cloned) (pm_update cloned) (pm_delete cloned) else cloned in
  let cloned := if pm_insert permissions then mkAclPermissions (pm_access cloned) true (pm_update cloned) (pm_delete cloned) else cloned in
  let cloned := if pm_update permissions then mkAclPermissions (pm_access cloned) (pm_insert cloned) true (pm_delete cloned) else cloned in
  if pm_delete permissions then mkAclPermissions (pm_access cloned) (pm_insert cloned) (pm_update cloned) true else cloned.

(** The grants on every key, a [u8]: bit [1 << g] for each selector that grants [g]. *)
Definition READ_GRANT : Z := 1.
Definition WRITE_GRANT : Z := 2.

Definition cover (grants : Z) (permissions : AclPermissions) : bool :=
  let need := 0 in
  let need := if pm_access permissions then Z.lor need READ_GRANT else need in
  let need := if pm_insert permissions || pm_update permissions || pm_delete permissions then Z.lor need WRITE_GRANT else need in
  existsb (fun g => negb (Z.land grants (Z.shiftl 1 g) =? 0) && (Z.land g need =? need)) [1; 2; 3].

(** [split(' ')] *)
Fixpoint split_spaces (s : string) : list string :=
  match s with
  | "" => [""]
  | String a s =>
      if bool_decide (a = Ascii.ascii_of_nat 32) then "" :: split_spaces s
      else match split_spaces s with w :: ws => String a w :: ws | [] => [String a ""] end
  end.

Definition to_upper (a : Ascii.ascii) : Ascii.ascii :=
  let n := Ascii.nat_of_ascii a in if (97 <=? n)%nat && (n <=? 122)%nat then Ascii.ascii_of_nat (n - 32) else a.

Definition flag_grant (flag : Ascii.ascii) : Z :=
  if bool_decide (to_upper flag = Ascii.ascii_of_nat 82) then READ_GRANT
  else if bool_decide (to_upper flag = Ascii.ascii_of_nat 87) then WRITE_GRANT
  else 0.

Definition token_grant (token : string) : Z :=
  match String.index 0 "~" token with
  | None => 0
  | Some tilde =>
      let perms := String.substring 0 tilde token in
      let pattern := String.substring tilde (String.length token - tilde) token in
      if negb (bool_decide (pattern = "~*")) then 0
      else
        match perms with
        | "" => Z.lor READ_GRANT WRITE_GRANT
        | String a flags =>
            if bool_decide (a = Ascii.ascii_of_nat 37) then fold_left (fun acc flag => Z.lor acc (flag_grant flag)) (String.list_ascii_of_string flags) 0 else 0
        end
  end.

Definition add_selector (grants : Z) (keys : string) : Z :=
  let grant := fold_left (fun grant token => Z.lor grant (token_grant token)) (split_spaces keys) 0 in
  if negb (grant =? 0) then Z.lor grants (Z.shiftl 1 grant) else grants.

Inductive Identity :=
  | Unrestricted
  | User (user_allows : string -> AclPermissions -> bool)
  | Unknown.

Record KeyAccess := mkKeyAccess { identity : Identity; permissions : AclPermissions }.

(** The caller: whether permissions are enforced, and the user if it is known, with
    the selectors of its rules if the server reports them. *)
Record Caller := mkCaller { acl_enforced : bool; acl_user : option ((string -> AclPermissions -> bool) * option (list string)) }.

Definition allows_all_keys (selectors : option (list string)) (permissions : AclPermissions) : bool :=
  match selectors with Some selectors => cover (fold_left add_selector selectors 0) permissions | None => false end.

Definition key_access (caller : Caller) (permissions : AclPermissions) : KeyAccess :=
  let identity :=
    if negb (acl_enforced caller) then Unrestricted
    else match acl_user caller with
         | Some (user, selectors) => if allows_all_keys selectors permissions then Unrestricted else User user
         | None => Unknown
         end in
  mkKeyAccess identity permissions.

Definition allows (access : KeyAccess) (key : string) : bool :=
  match identity access with Unrestricted => true | User user => user key (permissions access) | Unknown => false end.

Definition is_unrestricted (access : KeyAccess) : bool := match identity access with Unrestricted => true | _ => false end.

Inductive QuerierError :=
  | Failed (e : IndexError)
  | KeyNotFound
  | WrongType
  | KeyDeletePermission
  | KeyWritePermission
  | PermissionDenied
  | AllKeysRead
  | MatcherRequired.

Definition of_index {A} (r : result IndexError A) : result QuerierError A := match r with Ok a => Ok a | Err e => Err (Failed e) end.

Definition access_check (access : KeyAccess) (key : string) : result QuerierError unit :=
  if allows access key then Ok tt
  else if pm_delete (permissions access) then Err KeyDeletePermission
  else if pm_update (permissions access) then Err KeyWritePermission
  else Err PermissionDenied.

Definition check_metadata_permissions (caller : Caller) : result QuerierError unit :=
  if is_unrestricted (key_access caller ACCESS) then Ok tt else Err AllKeysRead.

(** ** Keys *)

Record StoredSeries := mkStoredSeries { sd_id : SeriesRef; sd_labels : list Label; sd_series : TimeSeries }.

(** What [get_value] finds under a key. *)
Inductive KeyValue :=
  | NoValue
  | OtherType
  | SeriesValue (s : StoredSeries).

Inductive MetaDateRangeFilter :=
  | Includes (range : DateRange)
  | Excludes (range : DateRange).

Definition date_range_of (f : MetaDateRangeFilter) : Timestamp * Timestamp :=
  match f with Includes r => (dr_start r, dr_end r) | Excludes r => (dr_start r, dr_end r) end.

Definition is_exclude (f : MetaDateRangeFilter) : bool := match f with Excludes _ => true | _ => false end.

(** The ids with their keys, and the ids without one. *)
Definition resolve_series_keys (p : Postings) (ids : list SeriesRef) : list (SeriesRef * string) * list SeriesRef :=
  (omap (fun id => match get_key_by_id p id with Some key => Some (id, key) | None => None end) ids,
   List.filter (fun id => match get_key_by_id p id with Some _ => false | None => true end) ids).

Abbreviation Guards := (list (StoredSeries * string)) (only parsing).

Section Dates.

Context `{Elf64.Log10}.

Definition matches_date_range (series : TimeSeries) (start e : Timestamp) (exclude : bool) : bool := negb (Bool.eqb (has_samples_in_range series start e) exclude).

Definition filter_series_by_date_range (series : Guards) (date_range : MetaDateRangeFilter) : Guards :=
  let '(start, e) := date_range_of date_range in
  let exclude := is_exclude date_range in
  match series with
  | [s] => if matches_date_range (sd_series s.1) start e exclude then series else []
  | _ =>
      let matching_ids := omap (fun s => if matches_date_range (sd_series s.1) start e exclude then Some (sd_id s.1) else None) series in
      if (length matching_ids =? 0)%nat then []
      else if (length matching_ids =? length series)%nat then series
      else if (length matching_ids <? 32)%nat then List.filter (fun s => bool_decide (sd_id s.1 ∈ matching_ids)) series
      else
        let guard_map := fold_left (fun m s => <[sd_id s.1 := s]> m) series (∅ : gmap Z (StoredSeries * string)) in
        reverse (fold_left (fun acc id => match acc.1 !! id with Some s => (delete id acc.1, s :: acc.2) | None => acc end) matching_ids (guard_map, [])).2
  end.

End Dates.

(** [TimeSeriesIndex::mark_ids_as_stale] *)
Definition index_mark (p : Postings) (ids : list SeriesRef) : Postings := match ids with [] => p | _ => mark_ids_as_stale p ids end.

Section Queries.

Context `{Elf64.Log10} `{RegexEngine} `{SortBy}.
Context (keyspace : string -> KeyValue) (caller : Caller).

(** [SeriesGuard::from_key] *)
Definition from_key (key : string) : result QuerierError StoredSeries :=
  match keyspace key with SeriesValue s => Ok s | NoValue => Err KeyNotFound | OtherType => Err WrongType end.

Definition open_timeseries (key : string) : result QuerierError (option StoredSeries) :=
  match from_key key with Ok guard => Ok (Some guard) | Err KeyNotFound => Ok None | Err e => Err e end.

Definition try_get_timeseries_as (key : string) (access : KeyAccess) : result QuerierError (option StoredSeries) :=
  let? _ := access_check access key in open_timeseries key.

(** The loop of [get_multi_series_by_id], with the ids it finds stale. *)
Fixpoint multi_series_loop (access : KeyAccess) (resolved : list (SeriesRef * string)) : result QuerierError Guards * list SeriesRef :=
  match resolved with
  | [] => (Ok [], [])
  | (id, k) :: resolved =>
      match try_get_timeseries_as k access with
      | Err e => (Err e, [])
      | Ok (Some guard) => let '(r, stale) := multi_series_loop access resolved in ((let? r := r in Ok ((guard, k) :: r)), stale)
      | Ok None => let '(r, stale) := multi_series_loop access resolved in (r, id :: stale)
      end
  end.

Definition get_multi_series_by_id (resolved : list (SeriesRef * string)) : result QuerierError Guards * list SeriesRef :=
  multi_series_loop (key_access caller ACCESS) resolved.

Definition collect_series_from_postings (resolved : list (SeriesRef * string)) (date_range : option MetaDateRangeFilter) : result QuerierError Guards * list SeriesRef :=
  let '(result, stale) := get_multi_series_by_id resolved in
  (match result with
   | Err e => Err e
   | Ok [] => Ok []
   | Ok result => match date_range with None => Ok result | Some date_range => Ok (filter_series_by_date_range result date_range) end
   end, stale).

Definition series_by_selectors (p : Postings) (selectors : list SeriesSelector) (range : option MetaDateRangeFilter) : result QuerierError Guards * Postings :=
  match selectors with
  | [] => (Ok [], p)
  | _ =>
      match postings_for_selectors p selectors with
      | Err e => (Err (Failed (QueryFailed e)), p)
      | Ok series_refs =>
          let '(resolved, stale) := resolve_series_keys p (bitmap_iter series_refs) in
          let '(result, stale') := collect_series_from_postings resolved range in
          (result, index_mark p (stale ++ stale'))
      end
  end.

Definition collect_series_keys (resolved : list (SeriesRef * string)) (date_range : option MetaDateRangeFilter) : result QuerierError (list string) * list SeriesRef :=
  match date_range with
  | Some date_range => let '(series, stale) := collect_series_from_postings resolved (Some date_range) in ((let? series := series in Ok (map snd series)), stale)
  | None => (Ok (map snd resolved), [])
  end.

Definition series_keys_by_selectors (p : Postings) (selectors : list SeriesSelector) (range : option MetaDateRangeFilter) : result QuerierError (list string) * Postings :=
  match selectors with
  | [] => (Ok [], p)
  | _ =>
      match postings_for_selectors p selectors with
      | Err e => (Err (Failed (QueryFailed e)), p)
      | Ok series_refs =>
          let '(resolved, stale) := resolve_series_keys p (bitmap_iter series_refs) in
          let '(result, stale') := collect_series_keys resolved range in
          (result, index_mark p (stale ++ stale'))
      end
  end.

(** Without a range keys are only probed. *)
Fixpoint count_loop (access : KeyAccess) (resolved : list (SeriesRef * string)) (count : Z) : result QuerierError Z * list SeriesRef :=
  match resolved with
  | [] => (Ok count, [])
  | (id, k) :: resolved =>
      match try_get_timeseries_as k access with
      | Err e => (Err e, [])
      | Ok (Some _) => count_loop access resolved (count + 1)
      | Ok None => let '(r, stale) := count_loop access resolved count in (r, id :: stale)
      end
  end.

Definition count_series_from_postings (resolved : list (SeriesRef * string)) (date_range : option MetaDateRangeFilter) : result QuerierError Z * list SeriesRef :=
  let access := key_access caller ACCESS in
  match date_range with
  | None => count_loop access resolved 0
  | Some date_range =>
      let '(guards, stale) := multi_series_loop access resolved in
      let '(start, e) := date_range_of date_range in
      let exclude := is_exclude date_range in
      (match guards with
       | Err e => Err e
       | Ok [] => Ok 0
       | Ok [g] => Ok (if matches_date_range (sd_series g.1) start e exclude then 1 else 0)
       | Ok guards => Ok (Z.of_nat (length (List.filter (fun g => matches_date_range (sd_series g.1) start e exclude) guards)))
       end, stale)
  end.

Definition count_series_by_selectors (p : Postings) (selectors : list SeriesSelector) (range : option MetaDateRangeFilter) : result QuerierError Z * Postings :=
  match selectors with
  | [] => (Ok 0, p)
  | _ =>
      match postings_for_selectors p selectors with
      | Err e => (Err (Failed (QueryFailed e)), p)
      | Ok series_refs =>
          let '(resolved, stale) := resolve_series_keys p (bitmap_iter series_refs) in
          let '(result, stale') := count_series_from_postings resolved range in
          (result, index_mark p (stale ++ stale'))
      end
  end.

Definition count_matched_series (p : Postings) (date_range : option MetaDateRangeFilter) (matchers : list SeriesSelector) : result QuerierError Z * Postings :=
  match date_range, matchers with
  | None, [] => if negb (is_unrestricted (key_access caller ACCESS)) then (Err AllKeysRead, p) else (Ok (Z.of_nat (postings_count p)), p)
  | None, _ :: _ => (of_index (get_cardinality_by_selectors p matchers), p)
  | Some range, _ :: _ => count_series_by_selectors p matchers (Some range)
  | Some _, [] => (Err MatcherRequired, p)
  end.

(** The names (or values of [label]) a series contributes. *)
Definition contributed (label : option string) (s : StoredSeries) : gset string :=
  match label with
  | None => list_to_set (map fst (sd_labels s))
  | Some name => match label_value (sd_labels s) name with Some value => {[value]} | None => ∅ end
  end.

(** A key that cannot be read is skipped; an error leaves the index as it was. *)
Fixpoint distinct_loop (access : KeyAccess) (label : option string) (resolved : list (SeriesRef * string)) (acc : gset string) : result QuerierError (gset string * list SeriesRef) :=
  match resolved with
  | [] => Ok (acc, [])
  | (id, k) :: resolved =>
      if negb (allows access k) then distinct_loop access label resolved acc
      else
        let? opened := open_timeseries k in
        match opened with
        | None => let? r := distinct_loop access label resolved acc in Ok (r.1, id :: r.2)
        | Some s => distinct_loop access label resolved (acc ∪ contributed label s)
        end
  end.

Definition query_labels_distinct (p : Postings) (selectors : list SeriesSelector) (label : option string) : result QuerierError (gset string) * Postings :=
  match (match selectors with [] => Ok (all_postings p) | _ => postings_for_selectors p selectors end) with
  | Err e => (Err (Failed (QueryFailed e)), p)
  | Ok refs =>
      let '(resolved, stale) := resolve_series_keys p (bitmap_iter refs) in
      match distinct_loop (key_access caller ACCESS) label resolved ∅ with
      | Err e => (Err e, p)
      | Ok (names, stale') => (Ok names, index_mark p (stale ++ stale'))
      end
  end.

(** ** Batches of a deletion *)

(** The next ids of the cursor up to [wanted] keys, the ids without one and the rest. *)
Fixpoint take_resolved (p : Postings) (wanted : nat) (cursor : list SeriesRef) : list (SeriesRef * string) * list SeriesRef * list SeriesRef :=
  match cursor with
  | [] => ([], [], [])
  | id :: cursor =>
      match get_key_by_id p id with
      | None => let '(resolved, stale, rest) := take_resolved p wanted cursor in (resolved, id :: stale, rest)
      | Some k =>
          match wanted with
          | 1%nat => ([(id, k)], [], cursor)
          | _ => let '(resolved, stale, rest) := take_resolved p (Nat.pred wanted) cursor in ((id, k) :: resolved, stale, rest)
          end
      end
  end.

(** The series of a round, and the ids whose key does not open. *)
Fixpoint open_resolved (access : KeyAccess) (resolved : list (SeriesRef * string)) : Guards * list SeriesRef :=
  match resolved with
  | [] => ([], [])
  | (id, key) :: resolved =>
      let '(result, stale) := open_resolved access resolved in
      if negb (allows access key) then (result, stale)
      else match from_key key with Ok series => ((series, key) :: result, stale) | Err _ => (result, id :: stale) end
  end.

(** [None] where the fuel ends. *)
Fixpoint fetch_loop (fuel : nat) (access : KeyAccess) (p : Postings) (batch_size : nat) (result : Guards) (stale : list SeriesRef) (cursor : list SeriesRef)
    : option (Guards * list SeriesRef * list SeriesRef) :=
  match fuel with
  | O => None
  | S fuel =>
      if (length result <? batch_size)%nat then
        let wanted := (batch_size - length result)%nat in
        let '(resolved, missing, cursor) := take_resolved p wanted cursor in
        let exhausted := (length resolved <? wanted)%nat in
        let '(opened, unopened) := open_resolved access resolved in
        let result := result ++ opened in
        let stale := stale ++ missing ++ unopened in
        if exhausted then Some (result, stale, cursor) else fetch_loop fuel access p batch_size result stale cursor
      else Some (result, stale, cursor)
  end.

Definition fetch_series_batch (fuel : nat) (p : Postings) (cursor : list SeriesRef) (batch_size : nat) : option (Guards * list SeriesRef * Postings) :=
  match fetch_loop fuel (key_access caller DELETE) p batch_size [] [] cursor with
  | Some (result, stale_ids, cursor) => Some (result, cursor, fold_left (fun p id => mark_ids_as_stale p [id]) stale_ids p)
  | None => None
  end.

(** The batches [handle_delete_range] deletes from, in order. *)
Fixpoint delete_batches (fuel : nat) (p : Postings) (batch_size : nat) (cursor : list SeriesRef) : option (list Guards * Postings) :=
  match fuel with
  | O => None
  | S fuel' =>
      match fetch_series_batch fuel p cursor batch_size with
      | None => None
      | Some ([], _, p) => Some ([], p)
      | Some (batch, cursor, p) =>
          match delete_batches fuel' p batch_size cursor with Some (batches, p) => Some (batch :: batches, p) | None => None end
      end
  end.

Definition delete_batch_size (num_threads ids : nat) : nat := Nat.max (ids / Nat.max num_threads 2) 32.

End Queries.
