(* ===== verification/QuerierLaws.v ===== *)
(** * QuerierLaws: what the query functions return

    Resolving, opening and filtering the series the index selects; the batches of a
    deletion partition them. *)

From stdpp Require Import strings list gmap sets sorting.
From S2P Require Import Prelude Elf64 Types TimeSeries TimestampRange MRange MRangeLaws LabelFilters Postings PostingsLaws PostingsRun TimeSeriesIndex Querier.

Local Open Scope string_scope.
Local Open Scope list_scope.
Local Open Scope Z_scope.

(** ** Bitmaps in order *)

Lemma zleb_total x y : (x <=? y) = false -> (y <=? x) = true.
Proof. rewrite Z.leb_gt, Z.leb_le. lia. Qed.

Lemma zleb_trans x y z : (x <=? y) = true -> (y <=? z) = true -> (x <=? z) = true.
Proof. rewrite !Z.leb_le. lia. Qed.

Lemma bitmap_iter_in s id : id ∈ bitmap_iter s <-> id ∈ s.
Proof. unfold bitmap_iter. rewrite sort_with_perm. apply elem_of_elements. Qed.

Lemma bitmap_iter_sorted s : StronglySorted Z.lt (bitmap_iter s).
Proof.
  assert (Hnd : NoDup (bitmap_iter s)) by (unfold bitmap_iter; rewrite sort_with_perm; apply NoDup_elements).
  pose proof (sort_with_sorted Z.leb zleb_total zleb_trans (elements s)) as Hs. unfold bitmap_iter in *.
  induction Hs as [|x l Hs IH Hx]; [constructor|]. apply NoDup_cons in Hnd as [Hn Hnd]. constructor; [by apply IH|]. rewrite Forall_forall in Hx |- *. intros y Hy. specialize (Hx y Hy). apply Z.leb_le in Hx.
  assert (x <> y) by (intros ->; done). lia.
Qed.

Lemma bitmap_iter_length s : length (bitmap_iter s) = size s.
Proof. unfold bitmap_iter. rewrite sort_with_perm. done. Qed.

Lemma bitmap_iter_nodup s : NoDup (bitmap_iter s).
Proof. unfold bitmap_iter. rewrite sort_with_perm. apply NoDup_elements. Qed.

(** ** Filtering by date *)

Section Filtering.

Context `{Log10}.

Lemma omap_if {A B} (f : A -> bool) (g : A -> B) l : omap (fun x => if f x then Some (g x) else None) l = map g (List.filter f l).
Proof. induction l as [|x l IH]; [done|]. cbn. destruct (f x); cbn; by rewrite IH. Qed.

Lemma filter_length_all {A} (f : A -> bool) l : length (List.filter f l) = length l -> List.filter f l = l.
Proof.
  induction l as [|x l IH]; [done|]. cbn. destruct (f x); cbn; intros E; [f_equal; apply IH; lia|]. pose proof (List.filter_length_le f l). lia.
Qed.

Lemma filter_map_nodup {A B} (f : A -> bool) (g : A -> B) l : NoDup (map g l) -> NoDup (map g (List.filter f l)).
Proof.
  induction l as [|x l IH]; [done|]. cbn. intros [Hx Hnd]%NoDup_cons. destruct (f x); [|by apply IH]. cbn. constructor; [|by apply IH].
  intros (y & E & [Hy _]%list_elem_of_In%filter_In)%list_elem_of_fmap. apply Hx, list_elem_of_fmap. exists y. split; [done|by apply list_elem_of_In].
Qed.

Definition sid (s : StoredSeries * string) : Z := sd_id s.1.

Lemma retain_spec (f : StoredSeries * string -> bool) l : NoDup (map sid l) -> List.filter (fun s => bool_decide (sd_id s.1 ∈ map sid (List.filter f l))) l = List.filter f l.
Proof.
  intros Hnd. apply filter_ext_in. intros s Hs%list_elem_of_In. destruct (f s) eqn:E.
  - apply bool_decide_eq_true_2, list_elem_of_fmap. exists s. split; [done|]. apply list_elem_of_In, filter_In. split; [by apply list_elem_of_In|done].
  - apply bool_decide_eq_false_2. intros (s' & Ei & [Hs' Hf]%list_elem_of_In%filter_In)%list_elem_of_fmap. apply list_elem_of_In in Hs'.
    assert (s = s'); [|congruence]. clear E Hf. induction l as [|x l IH]; [by apply not_elem_of_nil in Hs|]. cbn in Hnd. apply NoDup_cons in Hnd as [Hx Hnd].
    apply elem_of_cons in Hs as [->|Hs], Hs' as [->|Hs']; [done| | |by apply IH].
    + exfalso. apply Hx, list_elem_of_fmap. by exists s'.
    + exfalso. apply Hx, list_elem_of_fmap. exists s. split; [|done]. unfold sid. by rewrite Ei.
Qed.

Definition guard_map_of (l : list (StoredSeries * string)) (m : gmap Z (StoredSeries * string)) : gmap Z (StoredSeries * string) := fold_left (fun m s => <[sd_id s.1 := s]> m) l m.

Lemma guard_map_lookup l : forall m, NoDup (map sid l) -> (forall s, s ∈ l -> guard_map_of l m !! sid s = Some s) /\ (forall i, i ∉ map sid l -> guard_map_of l m !! i = m !! i).
Proof.
  induction l as [|x l IH]; intros m Hnd; cbn in *; [set_solver|]. apply NoDup_cons in Hnd as [Hx Hnd]. destruct (IH (<[sd_id x.1 := x]> m) Hnd) as [H1 H2]. unfold guard_map_of in *. split.
  - intros s [->|Hs]%elem_of_cons; [|by apply H1]. rewrite H2 by done. apply lookup_insert_eq.
  - intros i Hi. rewrite not_elem_of_cons in Hi. rewrite H2 by tauto. rewrite lookup_insert_ne; [done|]. intros E. apply (proj1 Hi). by rewrite <- E.
Qed.

Lemma remove_all_spec l : forall (m : gmap Z (StoredSeries * string)) acc, NoDup (map sid l) -> (forall s, s ∈ l -> m !! sid s = Some s) ->
  (fold_left (fun acc id => match acc.1 !! id with Some s => (delete id acc.1, s :: acc.2) | None => acc end) (map sid l) (m, acc)).2 = reverse l ++ acc.
Proof.
  induction l as [|x l IH]; intros m acc Hnd Hm; [done|]. cbn [map fold_left fst snd]. cbn in Hnd. apply NoDup_cons in Hnd as [Hx Hnd]. rewrite (Hm x) by set_solver. rewrite IH; [|done|].
  - by rewrite reverse_cons, <- app_assoc.
  - intros s Hs. rewrite lookup_delete_ne; [apply Hm; set_solver|]. intros E. apply Hx, list_elem_of_fmap. by exists s.
Qed.

Lemma date_filter_spec series range : NoDup (map sid series) ->
  filter_series_by_date_range series range = List.filter (fun s => matches_date_range (sd_series s.1) (date_range_of range).1 (date_range_of range).2 (is_exclude range)) series.
Proof.
  intros Hnd. unfold filter_series_by_date_range. destruct (date_range_of range) as [start e]. cbn [fst snd]. set (f := fun s : StoredSeries * string => matches_date_range (sd_series s.1) start e (is_exclude range)).
  assert (Hgen : (let matching_ids := omap (fun s => if f s then Some (sd_id s.1) else None) series in
    if (length matching_ids =? 0)%nat then []
    else if (length matching_ids =? length series)%nat then series
    else if (length matching_ids <? 32)%nat then List.filter (fun s => bool_decide (sd_id s.1 ∈ matching_ids)) series
    else reverse (fold_left (fun acc id => match acc.1 !! id with Some s => (delete id acc.1, s :: acc.2) | None => acc end) matching_ids (guard_map_of series ∅, [])).2) = List.filter f series).
  { cbn zeta. rewrite (omap_if f (fun s => sd_id s.1)). fold sid. rewrite length_map. destruct (Nat.eqb_spec (length (List.filter f series)) 0) as [E|_]; [by apply length_zero_iff_nil in E|].
    destruct (Nat.eqb_spec (length (List.filter f series)) (length series)) as [E|_]; [by apply filter_length_all in E|]. destruct (_ <? 32)%nat; [by apply retain_spec|].
    rewrite remove_all_spec; [by rewrite app_nil_r, reverse_involutive|by apply filter_map_nodup|].
    intros s [Hs _]%list_elem_of_In%filter_In. apply (guard_map_lookup series ∅ Hnd). by apply list_elem_of_In. }
  destruct series as [|s [|s' series]]; [done| |exact Hgen]. cbn. fold (f s). by destruct (f s).
Qed.

End Filtering.

(** ** Opening keys *)

Section Opening.

Context `{Log10} `{RegexEngine} `{SortBy} (keyspace : string -> KeyValue).

Definition opened (key : string) : option StoredSeries := match keyspace key with SeriesValue s => Some s | _ => None end.

(** A key that may be read and does not hold something else. *)
Definition readable (access : KeyAccess) (key : string) : Prop := allows access key = true /\ keyspace key <> OtherType.

Lemma open_readable access key : readable access key -> try_get_timeseries_as keyspace key access = Ok (opened key).
Proof. intros [Ha Ht]. unfold try_get_timeseries_as, access_check, open_timeseries, from_key, opened. rewrite Ha. cbn. by destruct (keyspace key). Qed.

Definition open_pair (x : SeriesRef * string) : option (StoredSeries * string) := (fun s => (s, x.2)) <$> opened x.2.
Definition unopened (resolved : list (SeriesRef * string)) : list SeriesRef := map fst (List.filter (fun x => match opened x.2 with Some _ => false | None => true end) resolved).

Lemma multi_series_spec access resolved : Forall (fun x => readable access x.2) resolved ->
  multi_series_loop keyspace access resolved = (Ok (omap open_pair resolved), unopened resolved).
Proof.
  induction 1 as [|[id k] resolved Hr _ IH]; [done|]. cbn [multi_series_loop]. cbn in Hr. rewrite (open_readable _ _ Hr), IH. unfold unopened, open_pair. cbn. by destruct (opened k).
Qed.

Lemma count_loop_spec access resolved : Forall (fun x => readable access x.2) resolved -> forall n,
  count_loop keyspace access resolved n = (Ok (n + Z.of_nat (length (omap open_pair resolved))), unopened resolved).
Proof.
  induction 1 as [|[id k] resolved Hr _ IH]; intros n; [cbn; by rewrite Z.add_0_r|]. cbn [count_loop]. cbn in Hr. rewrite (open_readable _ _ Hr). unfold unopened, open_pair in *. cbn. destruct (opened k); cbn.
  - rewrite IH. do 2 f_equal. lia.
  - by rewrite IH.
Qed.

(** One key that may not be read refuses the whole query. *)
Lemma multi_series_refused access pre id k post : Forall (fun x => readable access x.2) pre -> allows access k = false -> pm_delete (permissions access) = false -> pm_update (permissions access) = false ->
  (multi_series_loop keyspace access (pre ++ (id, k) :: post)).1 = Err PermissionDenied.
Proof.
  intros Hpre Ha Hd Hu. induction Hpre as [|[id' k'] pre Hr _ IH]; cbn [app multi_series_loop].
  - unfold try_get_timeseries_as, access_check. by rewrite Ha, Hd, Hu.
  - cbn in Hr. rewrite (open_readable _ _ Hr). destruct (multi_series_loop keyspace access (pre ++ (id, k) :: post)) as [r stale]. cbn in IH. subst r. by destruct (opened k').
Qed.

Lemma distinct_loop_spec access label resolved : Forall (fun x => allows access x.2 = true -> keyspace x.2 <> OtherType) resolved -> forall acc, exists stale,
  distinct_loop keyspace access label resolved acc =
    Ok (fold_left (fun acc x => acc ∪ contributed label x.1) (omap open_pair (List.filter (fun x => allows access x.2) resolved)) acc, stale).
Proof.
  induction 1 as [|[id k] resolved Hr _ IH]; intros acc; [by exists []|]. cbn [distinct_loop List.filter snd] in *. destruct (allows access k); cbn [negb]; [|apply IH].
  cbn [omap list_omap]. assert (Ho : open_timeseries keyspace k = Ok (opened k)) by (unfold open_timeseries, from_key, opened; specialize (Hr eq_refl); by destruct (keyspace k)). rewrite Ho.
  assert (Hp : open_pair (id, k) = (fun s => (s, k)) <$> opened k) by done. rewrite Hp. destruct (opened k) as [s|]; cbn; [apply IH|]. destruct (IH acc) as [stale ->]. cbn. by eexists.
Qed.

(** ** The series an index selects *)

Context (p : Postings) (db : Database) (Hrep : index_rep p db).

(** What the database says is stored under the keys of the index is there. *)
Definition consistent : Prop := forall id k ls, db !! id = Some (k, ls) -> exists s, keyspace k = SeriesValue s /\ sd_id s = id /\ sd_labels s = ls.

(** The key of each live series of [ids]. *)
Definition resolved_of (ids : list SeriesRef) : list (SeriesRef * string) := omap (fun id => (fun x => (id, x.1)) <$> db !! id) ids.

Lemma resolve_spec r : r ⊆ dom db -> resolve_series_keys p (bitmap_iter r) = (resolved_of (bitmap_iter r), []).
Proof.
  intros Hr. unfold resolve_series_keys, resolved_of, get_key_by_id. rewrite (ir_keys _ _ Hrep). f_equal.
  - induction (bitmap_iter r) as [|id ids IH]; [done|]. cbn. rewrite IH, lookup_fmap. by destruct (db !! id).
  - assert (Hin : Forall (fun id => id ∈ dom db) (bitmap_iter r)) by (apply Forall_forall; intros id Hid%bitmap_iter_in; by apply Hr).
    induction Hin as [|id ids [x Hx]%elem_of_dom _ IH]; [done|]. cbn. rewrite lookup_fmap, Hx. done.
Qed.

Lemma resolved_in ids id k : (id, k) ∈ resolved_of ids <-> id ∈ ids /\ exists ls, db !! id = Some (k, ls).
Proof.
  unfold resolved_of. rewrite list_elem_of_omap. split.
  - intros (id' & Hid & Hx). destruct (db !! id') as [[k' ls]|] eqn:E; [|done]. injection Hx as <- <-. eauto.
  - intros [Hid [ls Hd]]. exists id. rewrite Hd. done.
Qed.

Lemma resolved_readable access ids : (forall id k ls, id ∈ ids -> db !! id = Some (k, ls) -> readable access k) -> Forall (fun x => readable access x.2) (resolved_of ids).
Proof. intros Hr. apply Forall_forall. intros [id k] (Hid & ls & Hd)%resolved_in. by eapply Hr. Qed.

Lemma resolved_opened ids : consistent -> (forall id, id ∈ ids -> id ∈ dom db) ->
  map sid (omap open_pair (resolved_of ids)) = ids /\ unopened (resolved_of ids) = [] /\
  (forall s k, (s, k) ∈ omap open_pair (resolved_of ids) <-> sd_id s ∈ ids /\ keyspace k = SeriesValue s /\ db !! sd_id s = Some (k, sd_labels s)).
Proof.
  intros Hc. induction ids as [|id ids IH]; intros Hin; [split; [done|split; [done|cbn; set_solver]]|].
  destruct IH as (F1 & F2 & F3); [intros; apply Hin; set_solver|]. assert (Hd : id ∈ dom db) by (apply Hin; set_solver). apply elem_of_dom in Hd as [[k ls] Hd].
  destruct (Hc id k ls Hd) as (s & Hs & Hid & Hl). unfold resolved_of in *. cbn [omap list_omap]. rewrite Hd. cbn [fmap option_fmap option_map omap list_omap fst].
  assert (Ho : open_pair (id, k) = Some (s, k)) by (unfold open_pair, opened; cbn; by rewrite Hs). rewrite Ho. split; [cbn; f_equal; done|]. split.
  - unfold unopened in *. cbn. unfold opened at 1. by rewrite Hs.
  - intros s' k'. rewrite !elem_of_cons, F3. split.
    + intros [[= -> ->]|(Hin' & Hk & Hd')]; [|tauto]. rewrite Hid. subst ls. tauto.
    + intros ([E|Hin'] & Hk & Hd'); [|tauto]. left. rewrite E, Hd in Hd'. injection Hd' as <- _. rewrite Hs in Hk. by injection Hk as <-.
Qed.

(** ** The queries *)

Context (Hsort : SortByLaws) (Hcons : consistent) (caller : Caller).

Definition live_series (s : StoredSeries) (k : string) : Prop := keyspace k = SeriesValue s /\ db !! sd_id s = Some (k, sd_labels s).

Definition date_in_range (range : option MetaDateRangeFilter) (s : StoredSeries) : bool :=
  match range with Some d => matches_date_range (sd_series s) (date_range_of d).1 (date_range_of d).2 (is_exclude d) | None => true end.

Definition may_read (ss : list SeriesSelector) : Prop :=
  forall id k ls, db !! id = Some (k, ls) -> Forall (fun s => selector_selects s ls) ss -> allows (key_access caller ACCESS) k = true.

(** The series of the set [r], and those of them in the range. *)
Definition found_series (r : PostingsBitmap) : list (StoredSeries * string) := omap open_pair (resolved_of (bitmap_iter r)).
Definition found_in (r : PostingsBitmap) (range : option MetaDateRangeFilter) : list (StoredSeries * string) := List.filter (fun s => date_in_range range s.1) (found_series r).

Lemma found_spec r : r ⊆ dom db -> map sid (found_series r) = bitmap_iter r /\ unopened (resolved_of (bitmap_iter r)) = [] /\ forall s k, (s, k) ∈ found_series r <-> sd_id s ∈ r /\ live_series s k.
Proof.
  intros Hr. destruct (resolved_opened (bitmap_iter r) Hcons) as (F1 & F2 & F3); [intros id Hid%bitmap_iter_in; by apply Hr|]. split; [done|]. split; [done|].
  intros s k. unfold found_series, live_series. rewrite F3, bitmap_iter_in. done.
Qed.

Lemma found_readable ss r : answers db (fun ls => Forall (fun s => selector_selects s ls) ss) r -> may_read ss ->
  Forall (fun x => readable (key_access caller ACCESS) x.2) (resolved_of (bitmap_iter r)).
Proof.
  intros Ha Hm. apply resolved_readable. intros id k ls Hid%bitmap_iter_in Hd. split; [|by destruct (Hcons id k ls Hd) as (s & -> & _)].
  apply Ha in Hid as (k' & ls' & Hd' & Hs). rewrite Hd in Hd'. injection Hd' as <- <-. by eapply Hm.
Qed.

Lemma found_nodup r : r ⊆ dom db -> NoDup (map sid (found_series r)).
Proof. intros Hr. destruct (found_spec r Hr) as (-> & _). apply bitmap_iter_nodup. Qed.

Lemma filter_true {A} (l : list A) : List.filter (fun _ => true) l = l.
Proof. induction l as [|x l IH]; [done|]. cbn. by rewrite IH. Qed.

Lemma collect_series_spec ss r range : answers db (fun ls => Forall (fun s => selector_selects s ls) ss) r -> may_read ss ->
  collect_series_from_postings keyspace caller (resolved_of (bitmap_iter r)) range = (Ok (found_in r range), []).
Proof.
  intros Ha Hm. pose proof (answers_dom db _ _ Ha) as Hr. unfold collect_series_from_postings, get_multi_series_by_id. rewrite (multi_series_spec _ _ (found_readable _ _ Ha Hm)).
  destruct (found_spec r Hr) as (_ & -> & _). fold (found_series r). unfold found_in. pose proof (found_nodup r Hr) as Hnd. destruct range as [d|]; cbn [date_in_range].
  - rewrite <- date_filter_spec by done. destruct (found_series r); [by destruct d|done].
  - rewrite filter_true. by destruct (found_series r).
Qed.

(** Every form of the query works on the same list. *)
Lemma query_forms ss range : ss <> [] -> Forall selector_ok ss -> may_read ss -> exists r, answers db (fun ls => Forall (fun s => selector_selects s ls) ss) r /\
  series_by_selectors keyspace caller p ss range = (Ok (found_in r range), p) /\
  series_keys_by_selectors keyspace caller p ss range = (Ok (map snd (found_in r range)), p) /\
  count_series_by_selectors keyspace caller p ss range = (Ok (Z.of_nat (length (found_in r range))), p).
Proof.
  intros Hne Hok Hm. destruct (selectors_spec p db Hrep ss Hne Hok) as (r & Hq & Ha). exists r. split; [done|]. pose proof (answers_dom db _ _ Ha) as Hr.
  unfold series_by_selectors, series_keys_by_selectors, count_series_by_selectors. destruct ss as [|s0 ss]; [done|]. rewrite Hq, (resolve_spec r Hr).
  pose proof (collect_series_spec _ _ range Ha Hm) as Hc. rewrite Hc. split; [done|]. destruct (found_spec r Hr) as (Hids & Hun & Hin). split.
  - unfold collect_series_keys. destruct range as [d|]; [by rewrite Hc|]. unfold found_in. cbn [date_in_range]. rewrite filter_true. cbn. do 2 f_equal. unfold found_series.
    assert (Hall : forall x, x ∈ resolved_of (bitmap_iter r) -> is_Some (open_pair x)).
    { intros [id k] (Hid & ls & Hd)%resolved_in. destruct (Hcons id k ls Hd) as (s & Hs & _). unfold open_pair, opened. cbn. rewrite Hs. by eexists. }
    clear - Hall. induction (resolved_of (bitmap_iter r)) as [|x l IH]; [done|]. cbn. destruct (Hall x) as [y Hy]; [set_solver|]. rewrite Hy. cbn. rewrite <- IH by set_solver. f_equal.
    unfold open_pair in Hy. destruct (opened x.2); [|done]. by injection Hy as <-.
  - unfold count_series_from_postings. destruct range as [d|].
    + rewrite (multi_series_spec _ _ (found_readable _ _ Ha Hm)), Hun. fold (found_series r). unfold found_in. cbn [date_in_range]. destruct (date_range_of d) as [start e]. cbn [fst snd].
      destruct (found_series r) as [|g [|g' l]]; [done| |done]. cbn. by destruct (matches_date_range _ _ _ _).
    + rewrite (count_loop_spec _ _ (found_readable _ _ Ha Hm)), Hun. fold (found_series r). unfold found_in. cbn [date_in_range]. rewrite filter_true. by rewrite Z.add_0_l.
Qed.

Lemma found_in_spec ss r range : answers db (fun ls => Forall (fun s => selector_selects s ls) ss) r ->
  StronglySorted Z.lt (map sid (found_in r range)) /\
  forall s k, (s, k) ∈ found_in r range <-> live_series s k /\ Forall (fun x => selector_selects x (sd_labels s)) ss /\ date_in_range range s = true.
Proof.
  intros Ha. pose proof (answers_dom db _ _ Ha) as Hr. destruct (found_spec r Hr) as (Hids & _ & Hin). split.
  - unfold found_in. pose proof (bitmap_iter_sorted r) as Hs. rewrite <- Hids in Hs. clear Hids Hin. induction (found_series r) as [|x l IH]; [constructor|]. cbn in *. apply StronglySorted_inv in Hs as [Hs Hx].
    destruct (date_in_range range x.1); [|by apply IH]. cbn. constructor; [by apply IH|]. apply Forall_forall. intros i (y & -> & [Hy _]%list_elem_of_In%filter_In)%list_elem_of_fmap.
    rewrite Forall_forall in Hx. apply Hx, list_elem_of_fmap. exists y. split; [done|by apply list_elem_of_In].
  - intros s k. unfold found_in. rewrite list_elem_of_In, filter_In, <- list_elem_of_In, Hin. cbn. unfold live_series at 1. split.
    + intros [(Hid & Hk & Hd) Hran]. apply Ha in Hid as (k' & ls & Hd' & Hs). rewrite Hd in Hd'. injection Hd' as <- <-. done.
    + intros ([Hk Hd] & Hs & Hran). split; [|done]. split; [|done]. apply Ha. eauto.
Qed.

(** Counting by the index alone. *)
Lemma and_cardinality_spec ss : Forall selector_ok ss -> forall P acc, answers db P acc ->
  exists r, answers db (fun ls => P ls /\ Forall (fun s => selector_selects s ls) ss) r /\ and_cardinality_loop (terms p) acc ss = Ok (cardinality r).
Proof.
  induction 1 as [|s ss Hs _ IH]; intros P acc Ha; cbn [and_cardinality_loop].
  - exists acc. split; [|done]. eapply answers_ext; [exact Hrep|exact Ha|]. intros ls _. cbn. naive_solver.
  - destruct (selector_spec p db Hrep s Hs) as (r & -> & Hr). cbn. destruct (IH _ _ (answers_inter db _ _ _ _ Ha Hr)) as (r' & Hr' & ->). exists r'. split; [|done].
    eapply answers_ext; [exact Hrep|exact Hr'|]. intros ls _. cbn. rewrite Forall_cons. tauto.
Qed.

Lemma answers_unique P r r' : answers db P r -> answers db P r' -> r = r'.
Proof. intros H1' H2'. apply set_eq. intros id. rewrite (H1' id), (H2' id). done. Qed.

Lemma cardinality_spec ss r : ss <> [] -> Forall selector_ok ss -> answers db (fun ls => Forall (fun s => selector_selects s ls) ss) r -> get_cardinality_by_selectors p ss = Ok (cardinality r).
Proof.
  intros Hne Hok Ha. destruct ss as [|s ss]; [done|]. apply Forall_cons in Hok as [Hs Hok]. unfold get_cardinality_by_selectors. destruct (selector_spec p db Hrep s Hs) as (r1 & -> & Hr1). cbn.
  destruct (and_cardinality_spec ss Hok _ _ Hr1) as (r2 & Hr2 & ->). do 2 f_equal. eapply answers_unique; [exact Hr2|]. eapply answers_ext; [exact Hrep|exact Ha|]. intros ls _. cbn. by rewrite Forall_cons.
Qed.

End Opening.

(** ** Batches of a deletion *)

Section Deleting.

Context `{RegexEngine} `{SortBy} (keyspace : string -> KeyValue) (caller : Caller).

Abbreviation access := (key_access caller DELETE).

(** The series of an id, if it has a key the caller may delete from and that holds one. *)
Definition deliver (p : Postings) (id : SeriesRef) : option (StoredSeries * string) :=
  match get_key_by_id p id with
  | Some k => if allows access k then (fun s => (s, k)) <$> opened keyspace k else None
  | None => None
  end.

Definition keyed (p : Postings) (id : SeriesRef) : option (SeriesRef * string) := (fun k => (id, k)) <$> get_key_by_id p id.

Lemma take_resolved_spec p cursor : forall wanted, (0 < wanted)%nat -> exists used, let '(resolved, stale, rest) := take_resolved p wanted cursor in
  cursor = used ++ rest /\ resolved = omap (keyed p) used /\ stale ⊆ used /\ (length resolved <= wanted)%nat /\ (rest <> [] -> length resolved = wanted).
Proof.
  induction cursor as [|id cursor IH]; intros wanted Hw; cbn [take_resolved]; [exists []; cbn; split; [done|]; split; [done|]; split; [set_solver|]; split; [lia|done]|].
  destruct (get_key_by_id p id) as [k|] eqn:E.
  - assert (Ek : keyed p id = Some (id, k)) by (unfold keyed; by rewrite E). destruct wanted as [|[|wanted]]; [lia| |].
    + exists [id]. cbn. rewrite Ek. split; [done|]. split; [done|]. split; [set_solver|]. split; [lia|done].
    + destruct (IH (S wanted)) as [used Hu]; [lia|]. cbn [Nat.pred]. destruct (take_resolved p (S wanted) cursor) as [[resolved stale] rest]. destruct Hu as (-> & -> & Hs & Hl & Hr).
      exists (id :: used). cbn. rewrite Ek. split; [done|]. split; [done|]. split; [set_solver|]. split; [cbn in *; lia|]. intros Hne. cbn. by rewrite (Hr Hne).
  - destruct (IH wanted Hw) as [used Hu]. destruct (take_resolved p wanted cursor) as [[resolved stale] rest]. destruct Hu as (-> & -> & Hs & Hl & Hr). exists (id :: used). cbn.
    assert (Ek : keyed p id = None) by (unfold keyed; by rewrite E). rewrite Ek. split; [done|]. split; [done|]. split; [set_solver|]. done.
Qed.

Lemma open_resolved_spec p used : exists stale, open_resolved keyspace access (omap (keyed p) used) = (omap (deliver p) used, stale) /\ stale ⊆ used.
Proof.
  induction used as [|id used [stale [IH Hs]]]; [by exists []|]. cbn [omap list_omap]. unfold keyed at 1, deliver at 1. destruct (get_key_by_id p id) as [k|]; cbn [fmap option_fmap option_map]; [|exists stale; split; [exact IH|set_solver]].
  cbn [open_resolved]. rewrite IH. unfold from_key, opened. destruct (allows access k); cbn [negb]; [|exists stale; split; [done|set_solver]]. destruct (keyspace k); cbn; [exists (id :: stale)|exists (id :: stale)|exists stale]; (split; [done|set_solver]).
Qed.

Lemma deliver_length p used : (length (omap (deliver p) used) <= length (omap (keyed p) used))%nat.
Proof.
  induction used as [|id used IH]; [done|]. cbn. unfold keyed at 1, deliver at 1. destruct (get_key_by_id p id) as [k|]; cbn; [|done]. destruct (allows access k); cbn; [|lia]. destruct (opened keyspace k); cbn; lia.
Qed.

Lemma fetch_loop_spec p size fuel : forall cursor result stale, (length cursor < fuel)%nat -> (length result <= size)%nat -> exists used rest stale',
  fetch_loop keyspace fuel access p size result stale cursor = Some (result ++ omap (deliver p) used, stale ++ stale', rest) /\
  cursor = used ++ rest /\ stale' ⊆ used /\ (length (result ++ omap (deliver p) used) <= size)%nat /\ (rest <> [] -> length (result ++ omap (deliver p) used) = size).
Proof.
  induction fuel as [|fuel IH]; intros cursor result stale Hf Hs; [lia|]. cbn [fetch_loop]. destruct (Nat.ltb_spec (length result) size) as [Hlt|Hge].
  - destruct (take_resolved_spec p cursor (size - length result)) as [used Hu]; [lia|]. destruct (take_resolved p (size - length result) cursor) as [[resolved missing] rest] eqn:Et.
    destruct Hu as (-> & -> & Hm & Hl & Hr). destruct (open_resolved_spec p used) as (un & -> & Hun). pose proof (deliver_length p used) as Hd.
    destruct (Nat.ltb_spec (length (omap (keyed p) used)) (size - length result)) as [He|He].
    + assert (rest = []) as -> by (destruct rest; [done|specialize (Hr ltac:(done)); lia]). exists used, [], (missing ++ un). split; [done|]. split; [done|]. split; [set_solver|]. rewrite length_app. split; [lia|done].
    + assert (Hne : used <> []) by (intros ->; cbn in He; lia). destruct (IH rest (result ++ omap (deliver p) used) (stale ++ missing ++ un)) as (used' & rest' & stale' & -> & -> & Hs' & Hl' & Hr').
      { rewrite length_app in Hf. destruct used; [done|]. cbn in Hf. lia. } { rewrite length_app. lia. }
      exists (used ++ used'), rest', ((missing ++ un) ++ stale'). rewrite omap_app, <- !app_assoc in *. split; [done|]. split; [done|]. split; [set_solver|]. done.
  - exists [], cursor, []. cbn. rewrite !app_nil_r. split; [done|]. split; [done|]. split; [done|]. split; [lia|]. lia.
Qed.

Lemma marks_key p ids id : id ∉ ids -> get_key_by_id (fold_left (fun p id => mark_ids_as_stale p [id]) ids p) id = get_key_by_id p id.
Proof.
  revert p. induction ids as [|i ids IH]; intros p Hid; [done|]. cbn. rewrite IH by set_solver. unfold get_key_by_id. cbn. apply lookup_delete_ne. set_solver.
Qed.

Lemma delete_batches_spec size fuel : (0 < size)%nat -> forall p cursor, NoDup cursor -> (length cursor + 1 < fuel)%nat -> exists batches p',
  delete_batches keyspace caller fuel p size cursor = Some (batches, p') /\ concat batches = omap (deliver p) cursor /\ Forall (fun b => b <> [] /\ (length b <= size)%nat) batches.
Proof.
  intros Hsz. induction fuel as [|fuel IH]; intros p cursor Hnd Hf; [lia|]. cbn [delete_batches]. unfold fetch_series_batch.
  destruct (fetch_loop_spec p size (S fuel) cursor [] []) as (used & rest & stale & -> & -> & Hst & Hl & Hr); [lia|cbn; lia|]. cbn [app] in *.
  apply NoDup_app in Hnd as (_ & Hdis & Hnd). rewrite omap_app. destruct (omap (deliver p) used) as [|s l] eqn:Eb.
  - exists []. eexists. split; [done|]. split; [|constructor]. destruct rest; [done|]. specialize (Hr ltac:(done)). cbn in Hr. lia.
  - set (p1 := fold_left (fun p id => mark_ids_as_stale p [id]) stale p). destruct (IH p1 rest Hnd) as (batches & p2 & -> & Hc & Hb).
    { rewrite length_app in Hf. destruct used; [done|]. cbn in Hf. lia. }
    exists ((s :: l) :: batches), p2. split; [done|]. split; [|by constructor]. cbn [concat]. f_equal. rewrite Hc. apply list_omap_ext. apply Forall_Forall2_diag, Forall_forall. intros id Hid.
    unfold deliver, p1. rewrite marks_key; [done|]. intros Hin. apply (Hdis id); [by apply Hst|done].
Qed.

End Deleting.

(** ** Grants on every key *)

(** A selector that grants reads, or writes, on every key. *)
Definition reads_all (keys : string) : bool := existsb (fun token => Z.testbit (token_grant token) 0) (split_spaces keys).
Definition writes_all (keys : string) : bool := existsb (fun token => Z.testbit (token_grant token) 1) (split_spaces keys).

Definition grant_code (r w : bool) : Z := Z.lor (if r then READ_GRANT else 0) (if w then WRITE_GRANT else 0).

Lemma lor_codes r w r' w' : Z.lor (grant_code r w) (grant_code r' w') = grant_code (r || r') (w || w').
Proof. by destruct r, w, r', w'. Qed.

Lemma flag_code flag : exists r w, flag_grant flag = grant_code r w.
Proof. unfold flag_grant. repeat case_bool_decide; [exists true, false|exists false, true|exists false, false]; done. Qed.

Lemma token_code token : token_grant token = grant_code (Z.testbit (token_grant token) 0) (Z.testbit (token_grant token) 1).
Proof.
  assert (H : exists r w, token_grant token = grant_code r w); [|by destruct H as ([] & [] & ->)]. unfold token_grant.
  destruct (String.index 0 "~" token) as [i|]; [|by exists false, false]. case_match; [by exists false, false|]. case_match; [by exists true, true|]. case_match; [|by exists false, false].
  match goal with |- context [fold_left _ ?l 0] => generalize l end. intros l. assert (Hf : forall acc, (exists r w, acc = grant_code r w) -> exists r w, fold_left (fun acc flag => Z.lor acc (flag_grant flag)) l acc = grant_code r w); [|apply Hf; by exists false, false].
  induction l as [|flag l IH]; intros acc Ha; [done|]. cbn. apply IH. destruct Ha as (r & w & ->), (flag_code flag) as (r' & w' & ->). rewrite lor_codes. eauto.
Qed.

Lemma selector_code keys : fold_left (fun grant token => Z.lor grant (token_grant token)) (split_spaces keys) 0 = grant_code (reads_all keys) (writes_all keys).
Proof.
  assert (Hf : forall l r w, fold_left (fun grant token => Z.lor grant (token_grant token)) l (grant_code r w) =
    grant_code (r || existsb (fun token => Z.testbit (token_grant token) 0) l) (w || existsb (fun token => Z.testbit (token_grant token) 1) l)).
  { induction l as [|t l IH]; intros r w; cbn [fold_left existsb]; [by rewrite !orb_false_r|]. rewrite (token_code t) at 1. by rewrite lor_codes, IH, !orb_assoc. }
  exact (Hf (split_spaces keys) false false).
Qed.

(** Which grants are held by some selector, as the bits of a byte. *)
Definition grant_bits (r w rw : bool) : Z := (if r then 2 else 0) + (if w then 4 else 0) + (if rw then 8 else 0).

Lemma add_selector_bits r w rw keys : add_selector (grant_bits r w rw) keys =
  grant_bits (r || (reads_all keys && negb (writes_all keys))) (w || (negb (reads_all keys) && writes_all keys)) (rw || (reads_all keys && writes_all keys)).
Proof. unfold add_selector. rewrite selector_code. by destruct r, w, rw, (reads_all keys), (writes_all keys). Qed.

Lemma selectors_bits selectors : forall r w rw, fold_left add_selector selectors (grant_bits r w rw) =
  grant_bits (r || existsb (fun s => reads_all s && negb (writes_all s)) selectors) (w || existsb (fun s => negb (reads_all s) && writes_all s) selectors) (rw || existsb (fun s => reads_all s && writes_all s) selectors).
Proof.
  induction selectors as [|s l IH]; intros r w rw; cbn [fold_left existsb]; [by rewrite !orb_false_r|]. by rewrite add_selector_bits, IH, !orb_assoc.
Qed.

(** A selector suffices for [permissions]. *)
Definition suffices (permissions : AclPermissions) (keys : string) : bool :=
  implb (pm_access permissions) (reads_all keys) && implb (pm_insert permissions || pm_update permissions || pm_delete permissions) (writes_all keys) && (reads_all keys || writes_all keys).

Lemma existsb_three {A} (f g : A -> bool) l (h : bool -> bool -> bool) : h false false = false ->
  existsb (fun x => h (f x) (g x)) l =
    (h true false && existsb (fun x => f x && negb (g x)) l) || (h false true && existsb (fun x => negb (f x) && g x) l) || (h true true && existsb (fun x => f x && g x) l).
Proof.
  intros Hh. induction l as [|x l IH]; cbn [existsb]; [by rewrite !andb_false_r|]. rewrite IH. destruct (f x), (g x); cbn [negb andb]; rewrite ?Hh; cbn [orb];
    destruct (h true false), (h false true), (h true true); cbn; rewrite ?orb_true_r, ?orb_false_r; try done; by destruct (existsb _ l), (existsb _ l), (existsb _ l).
Qed.

Lemma cover_spec selectors permissions : cover (fold_left add_selector selectors 0) permissions = existsb (suffices permissions) selectors.
Proof.
  change (fold_left add_selector selectors 0) with (fold_left add_selector selectors (grant_bits false false false)). rewrite selectors_bits. cbn [orb]. unfold suffices.
  set (a := pm_access permissions). set (b := pm_insert permissions || pm_update permissions || pm_delete permissions).
  rewrite (existsb_three reads_all writes_all selectors (fun x y => implb a x && implb b y && (x || y))) by (by rewrite andb_false_r).
  unfold cover. fold a b. generalize (existsb (fun x => reads_all x && negb (writes_all x)) selectors) (existsb (fun x => negb (reads_all x) && writes_all x) selectors) (existsb (fun x => reads_all x && writes_all x) selectors).
  intros r w rw. by destruct a, b, r, w, rw.
Qed.

Lemma grants_byte selectors : 0 <= fold_left add_selector selectors 0 < 2 ^ 8.
Proof.
  change (fold_left add_selector selectors 0) with (fold_left add_selector selectors (grant_bits false false false)). rewrite selectors_bits. unfold grant_bits. repeat case_match; lia.
Qed.
