(* ===== verification/IndexProps.v ===== *)
(** * IndexProps: the index answers for the series it holds

    The properties of the label index and of the queries over it, whatever operations
    made it, and their instances at small databases. *)

From stdpp Require Import strings list gmap sets sorting.
From S2P Require Import Prelude Float64 Elf64 Log10Ref Types TimeSeries SeriesProps TimestampRange MRange MRangeLaws LabelFilters Postings PostingsLaws PostingsRun TimeSeriesIndex IndexLaws Querier QuerierLaws.

Local Open Scope string_scope.
Local Open Scope list_scope.
Local Open Scope Z_scope.

(** ** The index *)

(** C20. Whatever series are indexed, removed and marked stale and whatever batches of
    the drain and of the optimisation run in between, the index represents the live
    series: the set of all ids is theirs and has no stale id, the directory has their
    keys, every posting of an id that is not stale is a label of a live series and
    conversely; a stale id is only posted under labels it had, and a drain that has
    reached a key has left no posting of the ids it will retire before that key. *)
Theorem index_invariant (s : IndexState) : index_run fresh_index s -> index_inv s.
Proof. apply index_run_inv, fresh_inv. Qed.

(** C21. A query by selectors on an index made by any such sequence returns exactly the
    ids of the live series whose labels every selector selects, a series without a
    label counting as having the empty value; it never fails, and the order in which
    the planner evaluates the filters does not matter. *)
Theorem index_query_exact `{RegexEngine} `{SortBy} `{!SortByLaws} (s : IndexState) (ss : list SeriesSelector) :
  index_run fresh_index s -> ss <> [] -> Forall selector_ok ss ->
  exists r, postings_for_selectors (xs_postings s) ss = Ok r /\
    forall id, id ∈ r <-> exists k ls, xs_db s !! id = Some (k, ls) /\ Forall (fun x => selector_selects x ls) ss.
Proof. intros Hrun. exact (selectors_spec _ _ (ii_rep _ (index_run_inv _ _ fresh_inv Hrun)) ss). Qed.

(** C25. Loading series in bulk, by sorting their keys and adding runs of ids, leaves
    exactly the state that indexing them one after the other leaves. *)
Theorem bulk_index_equals_indexing (p : Postings) (l : list (IndexedSeries * string)) :
  bulk_index p (map entry_of l) = fold_left (fun p x => index_timeseries p x.1 x.2) l p.
Proof. apply bulk_is_fold. Qed.

(** C24. A sweep ends, after at most one batch per key; the index then represents
    the same series, without a posting of any other id.  If the label index has a
    key, no stale id is left and the number reported is how many there were.  If it
    has none, no pass is finished: the stale ids stay and the number is 0. *)
Theorem stale_sweep_completes (s : IndexState) (fuel : nat) :
  index_run fresh_index s -> (size (dom (label_index (xs_postings s))) < fuel)%nat ->
  exists n p, sweep_stale_ids fuel (xs_postings s) = Some (n, p) /\
    index_rep p (xs_db s) /\ (forall key id, in_index (label_index p) key id -> is_Some (xs_db s !! id)) /\
    if bool_decide (label_index (xs_postings s) = ∅) then n = 0 /\ st_ids (stale_ids p) = st_ids (stale_ids (xs_postings s))
    else n = cardinality (st_ids (stale_ids (xs_postings s))) /\ st_ids (stale_ids p) = ∅.
Proof.
  intros Hrun Hf. pose proof (index_run_inv _ _ fresh_inv Hrun) as [Hr Hform _]. case_bool_decide as Hne.
  - destruct (sweep_empty fuel (xs_postings s) (xs_db s) (xs_former s)) as (p & E & Hl & Hst & [Hp _ _]); [by split|done|lia|].
    exists 0, p. split_and!; try done. intros key id (b & Hb & _). by rewrite Hl, lookup_empty in Hb.
  - destruct (sweep_spec fuel (xs_postings s) (xs_db s) (xs_former s)) as (p & E & Hst & [Hp _ _]); [by split|done|done|].
    eexists _, p. split_and!; try done. intros key id Hin. pose proof Hin as (b & Hb & _).
    destruct (ir_shape _ _ Hp _ _ Hb) as (n & v & -> & Hn & _). cbn in Hp.
    apply (ir_posted _ _ Hp) in Hin as (k & ls & Hd & _); [by eexists|done|]. rewrite Hst. apply not_elem_of_empty.
Qed.

(** C23. The statistics of the series that selectors select (all of them without one)
    are exact: the number of series, of distinct labels and of distinct pairs, and in
    each list the largest counts of series per pair, label, metric name and value of
    the label asked for, for every limit; the walk in batches of 512 keys visits each
    key once. *)
Theorem statistics_exact `{RegexEngine} `{SortBy} `{!SortByLaws} `{HashOrder} `{!HashOrderLaws} (s : IndexState) (ss : list SeriesSelector) (label : string) (limit fuel : nat) :
  index_run fresh_index s -> Forall selector_ok ss -> Z.of_nat (size (dom (xs_db s))) < U64_MAX -> (length (keys_from None (label_index (xs_postings s))) + 1 < fuel)%nat ->
  exists m st, stats_by_selectors fuel (xs_postings s) ss label limit = Ok (Some st) /\
    (forall id, id ∈ scope (xs_db s) m <-> exists k ls, xs_db s !! id = Some (k, ls) /\ Forall (fun x => selector_selects x ls) ss) /\
    stats_exact (xs_db s) m (if is_empty_string label then METRIC_NAME_LABEL else label) limit st.
Proof.
  intros Hrun Hok Hsmall Hf. pose proof (ii_rep _ (index_run_inv _ _ fresh_inv Hrun)) as Hrep. unfold stats_by_selectors, matching_postings, stats_restricted. destruct ss as [|x ss].
  - destruct (collect_stats_spec _ _ Hrep None ltac:(done) Hsmall _ fuel label limit Hf) as (st & E & Hx). exists None, st. cbn. rewrite E. split; [done|]. split; [|done].
    intros id. rewrite elem_of_dom. split; [intros [[k ls] Hd]; by eauto|]. intros (k & ls & Hd & _). by eexists.
  - destruct (selectors_spec _ _ Hrep (x :: ss) ltac:(done) Hok) as (r & Eq & Ha). exists (Some r). rewrite Eq. cbn.
    destruct (collect_stats_spec _ _ Hrep (Some r) ltac:(intros m [= <-]; exact (answers_dom _ _ _ Ha)) Hsmall _ fuel label limit Hf) as (st & E & Hx). case_bool_decide as Ee.
    + eexists. split; [done|]. split; [exact Ha|]. subst r. by apply stats_nothing.
    + exists st. rewrite E. done.
Qed.

(** ** Queries over the index *)

(** C22. Over an index made by any sequence of operations, with the series it names
    under their keys and the selected ones readable, the forms of a query agree: the
    series are exactly the live ones the selectors select and the date range keeps,
    each once and by increasing id; the keys are theirs, the count is their number,
    and without a range the count taken from the index alone is the same.  No id is
    marked stale. *)
Theorem query_forms_exact `{Log10} `{RegexEngine} `{SortBy} `{!SortByLaws} (s : IndexState) (keyspace : string -> KeyValue) (caller : Caller) (ss : list SeriesSelector) (range : option MetaDateRangeFilter) :
  index_run fresh_index s -> consistent keyspace (xs_db s) -> ss <> [] -> Forall selector_ok ss -> may_read (xs_db s) caller ss ->
  exists l, series_by_selectors keyspace caller (xs_postings s) ss range = (Ok l, xs_postings s) /\
    series_keys_by_selectors keyspace caller (xs_postings s) ss range = (Ok (map snd l), xs_postings s) /\
    count_series_by_selectors keyspace caller (xs_postings s) ss range = (Ok (Z.of_nat (length l)), xs_postings s) /\
    (range = None -> count_matched_series keyspace caller (xs_postings s) None ss = (Ok (Z.of_nat (length l)), xs_postings s)) /\
    StronglySorted Z.lt (map (fun g => sd_id g.1) l) /\
    forall g k, (g, k) ∈ l <->
      (keyspace k = SeriesValue g /\ xs_db s !! sd_id g = Some (k, sd_labels g)) /\ Forall (fun x => selector_selects x (sd_labels g)) ss /\ date_in_range range g = true.
Proof.
  intros Hrun Hc Hne Hok Hm. pose proof (ii_rep _ (index_run_inv _ _ fresh_inv Hrun)) as Hrep.
  destruct (query_forms keyspace _ _ Hrep _ Hc caller ss range Hne Hok Hm) as (r & Ha & E1 & E2 & E3). exists (found_in keyspace (xs_db s) r range). split; [done|]. split; [done|]. split; [done|]. split.
  - intros ->. destruct ss as [|x ss]; [done|]. cbn [count_matched_series]. rewrite (cardinality_spec _ _ Hrep _ _ r Hne Hok Ha). cbn. unfold found_in. cbn [date_in_range]. rewrite filter_true. do 2 f_equal.
    unfold cardinality. f_equal. destruct (found_spec keyspace _ (xs_db s) Hrep Hc r (answers_dom _ _ _ Ha)) as (Hids & _). rewrite <- bitmap_iter_length, <- Hids. apply length_map.
  - exact (found_in_spec keyspace _ _ Hrep Hc ss r range Ha).
Qed.

(** C27. A deletion of a range over the ids a query selects ends, and its batches have
    between one series and the batch size; together they are, in the order of the ids,
    the series of the ids that have a key which the caller may delete from and which
    holds a series: none is skipped or taken twice, although the index is changed
    between the batches. *)
Theorem delete_batches_partition (keyspace : string -> KeyValue) (caller : Caller) (p : Postings) (ids : PostingsBitmap) (num_threads fuel : nat) :
  (size ids + 1 < fuel)%nat ->
  exists batches p', delete_batches keyspace caller fuel p (delete_batch_size num_threads (size ids)) (bitmap_iter ids) = Some (batches, p') /\
    concat batches = omap (deliver keyspace caller p) (bitmap_iter ids) /\
    Forall (fun b => b <> [] /\ (length b <= delete_batch_size num_threads (size ids))%nat) batches.
Proof.
  intros Hf. apply delete_batches_spec; [unfold delete_batch_size; lia|apply bitmap_iter_nodup|by rewrite bitmap_iter_length].
Qed.

(** C26. A series with well-formed labels is refused when it is created exactly if it
    has a metric name and exactly one live series has all of its labels, among others
    perhaps; so a series with the labels of an existing one is accepted as soon as a
    further series has them, and one whose labels no series has is refused if one has
    them and more.  An accepted series is indexed. *)
Theorem create_series_outcome (s : IndexState) (ts : IndexedSeries) (key : string) :
  index_run fresh_index s -> labels_wf (ix_labels ts) ->
  (create_series (xs_postings s) ts key = Err DuplicateSeries /\ is_Some (label_value (ix_labels ts) METRIC_NAME_LABEL) /\
     exists id, forall x, (exists k ls, xs_db s !! x = Some (k, ls) /\ ix_labels ts ⊆ ls) <-> x = id) \/
  (create_series (xs_postings s) ts key = Ok (index_timeseries (xs_postings s) ts key) /\
     (is_Some (label_value (ix_labels ts) METRIC_NAME_LABEL) -> forall id, ~ forall x, (exists k ls, xs_db s !! x = Some (k, ls) /\ ix_labels ts ⊆ ls) <-> x = id)).
Proof.
  intros Hrun Hw. pose proof (ii_rep _ (index_run_inv _ _ fresh_inv Hrun)) as Hrep. unfold create_series. destruct (label_value (ix_labels ts) METRIC_NAME_LABEL) as [v|] eqn:E.
  - assert (Hne : ix_labels ts <> []) by (intros En; by rewrite En in E). pose proof (id_by_labels_spec _ _ Hrep (ix_labels ts)) as Hid.
    destruct (posting_id_by_labels (terms (xs_postings s)) (ix_labels ts)) as [id|] eqn:Ep.
    + left. split; [done|]. split; [by eexists|]. exists id. exact (proj1 (Hid id Hne (lw_names _ Hw)) eq_refl).
    + right. split; [done|]. intros _ id Hall. by apply (Hid id Hne (lw_names _ Hw)) in Hall.
  - right. split; [done|]. intros []. done.
Qed.

(** C28. The grants of the selectors of a user are kept in a byte whatever the
    selectors are, and the byte is enough: it covers a set of permissions exactly when
    a single selector grants all of them on every key. *)
Theorem grants_fit_a_byte (selectors : list string) (permissions : AclPermissions) :
  0 <= fold_left add_selector selectors 0 < 2 ^ 8 /\
  cover (fold_left add_selector selectors 0) permissions =
    existsb (fun keys => implb (pm_access permissions) (reads_all keys) &&
      implb (pm_insert permissions || pm_update permissions || pm_delete permissions) (writes_all keys) && (reads_all keys || writes_all keys)) selectors.
Proof. split; [apply grants_byte|exact (cover_spec selectors permissions)]. Qed.

(** ** Instances *)

(** Patterns that stand for themselves, and sorting by insertion. *)
#[local] Instance literal_regex : RegexEngine := { Regex := string; regex_as_str := fun r => r; regex_is_match := fun r s => bool_decide (r = s) }.
#[local] Instance insertion_sort : SortBy := fun A cmp => sort_with (fun a b => match cmp a b with Gt => false | _ => true end).
#[local] Instance insertion_sort_laws : SortByLaws.
Proof. intros A cmp l. apply sort_with_perm. Qed.
#[local] Instance tree_order : HashOrder := fun l => l.
#[local] Instance tree_order_laws : HashOrderLaws.
Proof. intros l. apply Permutation_refl. Qed.

Definition cpu_a : IndexedSeries := mkIndexedSeries 1 [("__name__", "cpu"); ("host", "a")].
Definition cpu_b : IndexedSeries := mkIndexedSeries 2 [("__name__", "cpu"); ("host", "b")].
Definition two_series : IndexState := index_one (index_one fresh_index cpu_a "ka") cpu_b "kb".

(** [cpu_b] has been marked stale and one key drained. *)
Definition one_stale : IndexState := mkIndexState (mark_ids_as_stale (xs_postings two_series) [2]) (filter (fun x => x.1 ∉ [2]) (xs_db two_series)) (remember two_series [2]) (xs_cursor two_series).
Definition half_drained : IndexState := let r := remove_stale_ids (xs_postings one_stale) (xs_cursor one_stale) 1 in mkIndexState r.2 (xs_db one_stale) (xs_former one_stale) r.1.

Lemma demo_labels_wf n v w : free_of equals_sign n -> n <> "__name__" -> v <> "" -> w <> "" -> labels_wf [("__name__", v); (n, w)].
Proof.
  intros Hn Hne Hv Hw. split; [|apply Forall_cons; split; [cbn; repeat split; discriminate|by apply Forall_singleton]|by repeat constructor].
  cbn. apply NoDup_cons. split; [|apply NoDup_singleton]. intros E%list_elem_of_singleton. by apply Hne.
Qed.

Lemma two_series_run : index_run fresh_index two_series.
Proof.
  assert (Hw : forall v, v <> "" -> labels_wf [("__name__", "cpu"); ("host", v)]) by (intros v Hv; apply demo_labels_wf; [cbn; repeat split; discriminate|discriminate|discriminate|done]).
  eapply run_more; [eapply run_more; [apply run_here|]|]; apply step_index; (split; [by apply Hw| |]); cbn.
  - intros k ls H. vm_compute in H. discriminate.
  - intros ls H. set_solver.
  - intros k ls H. vm_compute in H. discriminate.
  - intros ls H. exfalso. set_solver.
Qed.

Lemma half_drained_run : index_run fresh_index half_drained.
Proof. apply (run_more _ one_stale); [apply (run_more _ two_series); [exact two_series_run|exact (step_mark two_series [2])]|exact (step_drain one_stale 1)]. Qed.

Lemma index_invariant_witness : xs_cursor half_drained <> None /\ index_inv half_drained.
Proof. split; [vm_compute; discriminate|]. exact (index_invariant half_drained half_drained_run). Defined.

Definition host_is (op : PredicateValue -> PredicateMatch) (v : string) : SeriesSelector := SelAnd [mkLabelFilter "host" (op (PvString v))].

Lemma host_ok op v : matcher_ok (op (PvString v)) -> Forall selector_ok [host_is op v].
Proof. intros Hm. repeat constructor; cbn; try discriminate. exact Hm. Qed.

Lemma index_query_exact_witness : postings_for_selectors (xs_postings half_drained) [host_is PmNotEqual "c"] = Ok {[1]} /\
  exists r, postings_for_selectors (xs_postings half_drained) [host_is PmNotEqual "c"] = Ok r /\
    forall id, id ∈ r <-> exists k ls, xs_db half_drained !! id = Some (k, ls) /\ Forall (fun x => selector_selects x ls) [host_is PmNotEqual "c"].
Proof.
  split; [vm_compute; reflexivity|]. apply (index_query_exact half_drained [host_is PmNotEqual "c"] half_drained_run); [discriminate|]. apply host_ok. done.
Defined.

Lemma stale_sweep_completes_witness : exists p, sweep_stale_ids 10 (xs_postings half_drained) = Some (1, p) /\ st_ids (stale_ids p) = ∅ /\ index_rep p (xs_db half_drained) /\
  forall key id, in_index (label_index p) key id -> is_Some (xs_db half_drained !! id).
Proof.
  destruct (stale_sweep_completes half_drained 10 half_drained_run) as (n & p & E & Hr & Hin & Hn); [apply Nat.ltb_lt; vm_compute; reflexivity|].
  rewrite bool_decide_eq_false_2 in Hn by (vm_compute; discriminate). destruct Hn as [Hn Hst]. exists p. rewrite E, Hn. split_and!; [vm_compute; reflexivity|done..].
Defined.

Lemma statistics_exact_witness : exists m st, stats_by_selectors 10 (xs_postings two_series) [] "host" 5 = Ok (Some st) /\ total_label_value_pairs st = 3 /\
    stats_exact (xs_db two_series) m "host" 5 st.
Proof.
  destruct (statistics_exact two_series [] "host" 5 10 two_series_run) as (m & st & E & _ & Hx); [constructor|vm_compute; reflexivity|apply Nat.ltb_lt; vm_compute; reflexivity|].
  exists m, st. split; [exact E|]. split; [|exact Hx]. vm_compute in E. injection E as <-. reflexivity.
Defined.

(** Both keys hold their series: one with samples and one without. *)
Definition two_keys (key : string) : KeyValue :=
  if bool_decide (key = "ka") then SeriesValue (mkStoredSeries 1 [("__name__", "cpu"); ("host", "a")] demo_series)
  else if bool_decide (key = "kb") then SeriesValue (mkStoredSeries 2 [("__name__", "cpu"); ("host", "b")] demo_new)
  else NoValue.

Definition open_caller : Caller := mkCaller false None.
Definition recent : option MetaDateRangeFilter := Some (Includes (mkDateRange 30 130)).

Lemma two_keys_consistent : consistent two_keys (xs_db two_series).
Proof.
  intros id k ls Hd. cbn in Hd. apply lookup_insert_Some in Hd as [[<- [= <- <-]]|[_ [[<- [= <- <-]]|[_ Hd]]%lookup_insert_Some]].
  - by eexists.
  - by eexists.
  - by rewrite lookup_empty in Hd.
Qed.

Lemma query_forms_exact_witness : exists l,
    series_by_selectors two_keys open_caller (xs_postings two_series) [host_is PmNotEqual "c"] recent = (Ok l, xs_postings two_series) /\ map snd l = ["ka"] /\
    count_series_by_selectors two_keys open_caller (xs_postings two_series) [host_is PmNotEqual "c"] recent = (Ok (Z.of_nat (length l)), xs_postings two_series).
Proof.
  destruct (query_forms_exact two_series two_keys open_caller [host_is PmNotEqual "c"] recent two_series_run two_keys_consistent) as (l & E1 & E2 & E3 & _ & _);
    [discriminate|by apply host_ok|by intros ? ? ? ? ?|]. exists l. split; [exact E1|]. split; [|exact E3].
  assert (Ek : (series_keys_by_selectors two_keys open_caller (xs_postings two_series) [host_is PmNotEqual "c"] recent).1 = Ok ["ka"]) by (vm_compute; reflexivity).
  rewrite E2 in Ek. cbn in Ek. congruence.
Defined.

Lemma delete_batches_partition_witness : exists batches p', delete_batches two_keys open_caller 10 (xs_postings two_series) 32 (bitmap_iter {[1; 2; 3]}) = Some (batches, p') /\
    map (fun b => map snd b) batches = [["ka"; "kb"]] /\ concat batches = omap (deliver two_keys open_caller (xs_postings two_series)) (bitmap_iter {[1; 2; 3]}).
Proof.
  destruct (delete_batches_partition two_keys open_caller (xs_postings two_series) {[1; 2; 3]} 4 10) as (batches & p' & E & Hc & _); [apply Nat.ltb_lt; vm_compute; reflexivity|].
  exists batches, p'. split; [exact E|]. split; [|exact Hc]. assert (Eb : (map (fun b => map snd b) ∘ fst) <$> delete_batches two_keys open_caller 10 (xs_postings two_series) 32 (bitmap_iter {[1; 2; 3]}) = Some [["ka"; "kb"]]) by (vm_compute; reflexivity).
  change (delete_batch_size 4 (size {[1; 2; 3]})) with 32%nat in E. rewrite E in Eb. cbn in Eb. congruence.
Defined.

(** The name alone is on both series: a third is accepted, and a fourth with its labels. *)
Definition cpu_bare : IndexedSeries := mkIndexedSeries 3 [("__name__", "cpu")].

Lemma create_series_outcome_witness : create_series (xs_postings two_series) cpu_bare "kc" = Ok (index_timeseries (xs_postings two_series) cpu_bare "kc") /\
  forall id, ~ forall x, (exists k ls, xs_db two_series !! x = Some (k, ls) /\ ix_labels cpu_bare ⊆ ls) <-> x = id.
Proof.
  assert (Hw : labels_wf (ix_labels cpu_bare)) by (split; [apply NoDup_singleton|apply Forall_singleton; cbn; repeat split; discriminate|by apply Forall_singleton]).
  destruct (create_series_outcome two_series cpu_bare "kc" two_series_run Hw) as [[E _]|[E Hn]]; [vm_compute in E; discriminate|]. split; [exact E|]. apply Hn. by eexists.
Defined.

(** A series that is not there is refused, and one that is there accepted. *)
Lemma create_series_misjudges :
  create_series (index_timeseries postings_default cpu_a "ka") cpu_bare "kc" = Err DuplicateSeries /\
  let p := index_timeseries (index_timeseries postings_default cpu_bare "kc") cpu_a "ka" in
  create_series p (mkIndexedSeries 4 [("__name__", "cpu")]) "kd" = Ok (index_timeseries p (mkIndexedSeries 4 [("__name__", "cpu")]) "kd").
Proof. split; vm_compute; reflexivity. Qed.
