(* ===== verification/Join.v ===== *)
(** * Join: two series joined by timestamp

    Models [src/join]: the positional joins over one sorted merge, the semi join, the
    as-of joins with their three scans, the reducers and what a join does with them,
    aggregation and COUNT; the binary operations of [common/binop.rs]; and TS.JOIN,
    [commands/ts_join.rs], once its arguments are parsed one by one.  The merge of two
    sorted iterators is that of the itertools crate, a parameter.  So are the power
    function, whose last bit depends on the platform, and what a read without a bounds
    check finds outside the slice. *)

From stdpp Require Import list strings.
From Stdlib Require Import SpecFloat.
From S2P Require Import Prelude Float64 Types Elf64 TimeSeries Aggregators AggregateIterator TimestampRange MRange Querier.

Local Open Scope Z_scope.
Local Open Scope result_scope.

(** ** Binary operations *)

Definition f64_one : f64 := 1023 * 2 ^ 52.
Definition f64_two : f64 := 1024 * 2 ^ 52.

Class Powf := f64_powf : f64 -> f64 -> f64.

(** [%]: the remainder of the magnitudes with the sign of the dividend, exact. *)
Definition f64_rem (a b : f64) : f64 :=
  match f64_spec a, f64_spec b with
  | S754_nan, _ | _, S754_nan | S754_infinity _, _ | _, S754_zero _ => f64_NAN
  | S754_zero _, _ | _, S754_infinity _ => a
  | S754_finite s m e, S754_finite _ m' e' =>
      let k := Z.min e e' in
      let r := (Zpos m * 2 ^ (e - k)) mod (Zpos m' * 2 ^ (e' - k)) in
      f64_of_spec (binary_normalize 53 1024 (if s then - r else r) k s)
  end.

(** [f64::total_cmp]: the order of the patterns as signed magnitudes. *)
Definition total_key (v : f64) : Z := if 2 ^ 63 <=? v then 2 ^ 63 - 1 - v else v.
Definition f64_total_cmp (a b : f64) : comparison := total_key a ?= total_key b.

(** [f64::signum]: one with the sign of the number, and NaN for NaN. *)
Definition f64_signum (v : f64) : f64 := if f64_is_nan v then f64_NAN else if 2 ^ 63 <=? v then f64_neg f64_one else f64_one.

Definition op_coalesce (left right : f64) : f64 := if negb (f64_is_nan left) then left else right.
Definition op_gt (left right : f64) : bool := f64_lt right left.
Definition op_lt (left right : f64) : bool := f64_lt left right.
Definition op_gte (left right : f64) : bool := f64_le right left.
Definition op_lte (left right : f64) : bool := f64_le left right.
Definition op_div (left right : f64) : f64 := if f64_eq right f64_zero then f64_NAN else f64_div left right.
Definition to_comparison_value (b : bool) (x : f64) : f64 := if b then x else f64_NAN.

Definition compare_eq (left right : f64) : f64 := to_comparison_value (op_eq left right) left.
Definition compare_neq (left right : f64) : f64 := to_comparison_value (op_neq left right) left.
Definition compare_gt (left right : f64) : f64 := to_comparison_value (op_gt left right) left.
Definition compare_lt (left right : f64) : f64 := to_comparison_value (op_lt left right) left.
Definition compare_gte (left right : f64) : f64 := to_comparison_value (op_gte left right) left.
Definition compare_lte (left right : f64) : f64 := to_comparison_value (op_lte left right) left.

Definition binop_cmp (x y : f64) : f64 :=
  if f64_is_nan x && f64_is_nan y then f64_one
  else if f64_is_nan x then f64_neg f64_one
  else if f64_is_nan y then f64_one
  else match f64_total_cmp x y with Lt => f64_neg f64_one | Eq => f64_zero | Gt => f64_one end.

Definition binop_avg (x y : f64) : f64 := f64_div (f64_add x y) f64_two.
Definition f64_abs_diff (x y : f64) : f64 := f64_abs (f64_sub x y).
Definition sgn_diff (x y : f64) : f64 := f64_signum (f64_sub x y).
Definition percent_change (x y : f64) : f64 := if f64_eq x f64_zero then f64_zero else f64_div (f64_sub y x) x.

Inductive JoinReducer :=
  | JrAbsDiff | JrAvg | JrCmp | JrCoalesce | JrDiv | JrEql | JrMod | JrMul | JrPow | JrSub
  | JrGt | JrGte | JrLt | JrLte | JrMax | JrMin | JrNotEq | JrPctChange | JrSgnDiff | JrSum.

(** The table of [hashify::map_ignore_case!], whose lookup is an argument. *)
Definition join_reducer_get (map_ignore_case : list (string * JoinReducer) -> string -> option JoinReducer) (key : string) : option JoinReducer :=
  map_ignore_case
    [("abs_diff", JrAbsDiff); ("cmp", JrCmp); ("coalesce", JrCoalesce); ("eq", JrEql); ("gt", JrGt); ("gte", JrGte); ("sub", JrSub); ("mod", JrMod);
     ("mul", JrMul); ("ne", JrNotEq); ("lt", JrLt); ("lte", JrLte); ("div", JrDiv); ("pow", JrPow); ("sgn_diff", JrSgnDiff); ("pct_change", JrPctChange);
     ("sum", JrSum); ("avg", JrAvg); ("max", JrMax); ("min", JrMin)]%string key.

Definition get_handler `{Powf} (r : JoinReducer) : f64 -> f64 -> f64 :=
  match r with
  | JrMax => f64_max_num
  | JrMin => f64_min_num
  | JrAvg => binop_avg
  | JrAbsDiff => f64_abs_diff
  | JrSum => f64_add
  | JrCmp => binop_cmp
  | JrCoalesce => op_coalesce
  | JrDiv => op_div
  | JrEql => compare_eq
  | JrMod => f64_rem
  | JrMul => f64_mul
  | JrPow => f64_powf
  | JrSub => f64_sub
  | JrGt => compare_gt
  | JrGte => compare_gte
  | JrLt => compare_lt
  | JrLte => compare_lte
  | JrNotEq => compare_neq
  | JrSgnDiff => sgn_diff
  | JrPctChange => percent_change
  end.

(** ** Positional joins *)

(** [itertools::EitherOrBoth] *)
Inductive EitherOrBoth :=
  | Both (l r : Sample)
  | LeftOnly (l : Sample)
  | RightOnly (r : Sample).

Abbreviation JoinValue := EitherOrBoth (only parsing).

Definition sortable_timestamp (v : JoinValue) : Timestamp :=
  match v with Both l r => Z.min (timestamp l) (timestamp r) | LeftOnly l => timestamp l | RightOnly r => timestamp r end.

(** [Itertools::merge_join_by]: it looks at the heads of both sides, emits the lesser
    one or both if they are equal, and what is left of one side when the other ends. *)
Class MergeJoin := merge_join_by : (Sample -> Sample -> comparison) -> list Sample -> list Sample -> list EitherOrBoth.
Class MergeJoinLaws `{MergeJoin} := {
  merge_left_ends : forall cmp r, merge_join_by cmp [] r = map RightOnly r;
  merge_right_ends : forall cmp l, merge_join_by cmp l [] = map LeftOnly l;
  merge_heads : forall cmp a l b r, merge_join_by cmp (a :: l) (b :: r) =
    match cmp a b with
    | Lt => LeftOnly a :: merge_join_by cmp l (b :: r)
    | Eq => Both a b :: merge_join_by cmp l r
    | Gt => RightOnly b :: merge_join_by cmp (a :: l) r
    end;
}.

Definition compare_by_timestamp (l r : Sample) : comparison := timestamp l ?= timestamp r.

Definition join_merge `{MergeJoin} (l r : list Sample) : list EitherOrBoth := merge_join_by compare_by_timestamp l r.

(** *** Semi join *)

Record SortedJoinSemiBy := mkSortedJoinSemiBy { sj_left : list Sample; sj_right : list Sample; current_right_key : option Timestamp }.

Definition semi_new (l r : list Sample) : SortedJoinSemiBy :=
  match r with
  | right_item :: r => mkSortedJoinSemiBy l r (Some (timestamp right_item))
  | [] => mkSortedJoinSemiBy l [] None
  end.

Inductive Advanced :=
  | AdvMatch (key : Timestamp) (r : list Sample)
  | AdvBreak (key : Timestamp) (r : list Sample)
  | AdvEnd.

(** The inner loop: the right side moves up to [left_key]. *)
Fixpoint semi_advance (left_key right_key : Timestamp) (r : list Sample) : Advanced :=
  match right_key ?= left_key with
  | Eq => AdvMatch right_key r
  | Gt => AdvBreak right_key r
  | Lt => match r with right_item :: r => semi_advance left_key (timestamp right_item) r | [] => AdvEnd end
  end.

(** The outer loop, with the current key of the right side. *)
Fixpoint semi_scan (l : list Sample) (right_key : Timestamp) (r : list Sample) : option Sample * SortedJoinSemiBy :=
  match l with
  | [] => (None, mkSortedJoinSemiBy [] r (Some right_key))
  | left_item :: l =>
      match semi_advance (timestamp left_item) right_key r with
      | AdvMatch key r => (Some left_item, mkSortedJoinSemiBy l r (Some key))
      | AdvBreak key r => semi_scan l key r
      | AdvEnd => (None, mkSortedJoinSemiBy l [] None)
      end
  end.

Definition semi_next (j : SortedJoinSemiBy) : option Sample * SortedJoinSemiBy :=
  match current_right_key j with None => (None, j) | Some key => semi_scan (sj_left j) key (sj_right j) end.

(** The items up to the first [None]; each turn takes one from the left. *)
Fixpoint semi_collect (fuel : nat) (j : SortedJoinSemiBy) : list Sample :=
  match fuel with
  | O => []
  | S fuel => match semi_next j with (Some x, j) => x :: semi_collect fuel j | (None, _) => [] end
  end.

Definition join_semi (l r : list Sample) : list Sample := semi_collect (S (length l)) (semi_new l r).

(** ** As-of joins *)

Inductive AsOfJoinStrategy := Backward | Forward | Nearest.

Definition ge_allow_eq (l r : Z) (allow_eq : bool) : bool := match l ?= r with Eq => allow_eq | Gt => true | Lt => false end.
Definition lt_allow_eq (l r : Z) (allow_eq : bool) : bool := match l ?= r with Eq => allow_eq | Lt => true | Gt => false end.

(** [i64::abs_diff] *)
Definition ts_abs_diff (a b : Timestamp) : Z := Z.abs (a - b).

(** The state of a scan; the forward one has no best bound. *)
Record AsOfState := mkAsOfState { best_bound : option nat; scan_offset : nat }.

Definition asof_new : AsOfState := mkAsOfState None 0.

Section Scans.

(** The right side is a callback on indices below [n_right].  A loop [while
    scan_offset < n_right] has [n_right - scan_offset] turns left. *)
Context (right_at : nat -> option Sample) (n_right : nat) (allow_eq : bool).

Fixpoint forward_loop (turns : nat) (left_val : Sample) (scan : nat) : option nat * nat :=
  match turns with
  | O => (None, scan)
  | S turns =>
      if match right_at scan with Some right_val => ge_allow_eq (timestamp right_val) (timestamp left_val) allow_eq | None => false end
      then (Some scan, scan)
      else forward_loop turns left_val (S scan)
  end.

Definition forward_next (st : AsOfState) (left_val : Sample) : option nat * AsOfState :=
  let '(found, scan) := forward_loop (n_right - scan_offset st) left_val (scan_offset st) in
  (found, mkAsOfState (best_bound st) scan).

Fixpoint backward_loop (turns : nat) (left_val : Sample) (st : AsOfState) : AsOfState :=
  match turns with
  | O => st
  | S turns =>
      match right_at (scan_offset st) with
      | Some right_val =>
          if lt_allow_eq (timestamp right_val) (timestamp left_val) allow_eq
          then backward_loop turns left_val (mkAsOfState (Some (scan_offset st)) (S (scan_offset st)))
          else st
      | None => backward_loop turns left_val (mkAsOfState (best_bound st) (S (scan_offset st)))
      end
  end.

Definition backward_next (st : AsOfState) (left_val : Sample) : option nat * AsOfState :=
  let st := backward_loop (n_right - scan_offset st) left_val st in
  (best_bound st, st).

(** The first index after the run of samples at [left_ts]. *)
Fixpoint skip_equal (turns : nat) (left_ts : Timestamp) (ahead : nat) : nat :=
  match turns with
  | O => ahead
  | S turns => if match right_at ahead with Some r => timestamp r =? left_ts | None => false end then skip_equal turns left_ts (S ahead) else ahead
  end.

Definition nearest_past_exact (st : AsOfState) (left_val : Sample) : option nat :=
  let left_ts := timestamp left_val in
  let ahead := skip_equal (n_right - S (scan_offset st)) left_ts (S (scan_offset st)) in
  let later := if (ahead <? n_right)%nat then match right_at ahead with Some r => Some (ahead, timestamp r) | None => None end else None in
  let earlier := match best_bound st with Some idx => match right_at idx with Some r => Some (idx, timestamp r) | None => None end | None => None end in
  match earlier, later with
  | Some (e_idx, e_ts), Some (l_idx, l_ts) => if ts_abs_diff left_ts l_ts <=? ts_abs_diff left_ts e_ts then Some l_idx else Some e_idx
  | Some (idx, _), None | None, Some (idx, _) => Some idx
  | None, None => None
  end.

(** Samples equal to the one just taken. *)
Fixpoint take_equal (turns : nat) (scan_right_val : Sample) (st : AsOfState) : AsOfState :=
  match turns with
  | O => st
  | S turns =>
      match right_at (scan_offset st) with
      | Some next_right_val =>
          if sample_eq next_right_val scan_right_val && allow_eq
          then take_equal turns scan_right_val (mkAsOfState (Some (scan_offset st)) (S (scan_offset st)))
          else st
      | None => take_equal turns scan_right_val (mkAsOfState (best_bound st) (S (scan_offset st)))
      end
  end.

(** [expect] on the best sample: its index was answered before, so it is there. *)
Definition scan_is_better (st : AsOfState) (left_val scan_right_val : Sample) : bool :=
  match best_bound st with
  | Some best_idx =>
      match right_at best_idx with
      | Some best_right_val =>
          let left_ts := timestamp left_val in
          ts_abs_diff left_ts (timestamp scan_right_val) <=? ts_abs_diff left_ts (timestamp best_right_val)
      | None => false
      end
  | None => true
  end.

Fixpoint nearest_loop (turns : nat) (left_val : Sample) (st : AsOfState) : option nat * AsOfState :=
  match turns with
  | O => (best_bound st, st)
  | S turns =>
      match right_at (scan_offset st) with
      | None => nearest_loop turns left_val (mkAsOfState (best_bound st) (S (scan_offset st)))
      | Some scan_right_val =>
          if lt_allow_eq (timestamp scan_right_val) (timestamp left_val) allow_eq
          then nearest_loop turns left_val (mkAsOfState (Some (scan_offset st)) (S (scan_offset st)))
          else if negb allow_eq && (timestamp scan_right_val =? timestamp left_val) then (nearest_past_exact st left_val, st)
          else
            let st :=
              if scan_is_better st left_val scan_right_val then
                let st := mkAsOfState (Some (scan_offset st)) (S (scan_offset st)) in
                take_equal (n_right - scan_offset st) scan_right_val st
              else st in
            (best_bound st, st)
      end
  end.

Definition nearest_next (st : AsOfState) (left_val : Sample) : option nat * AsOfState :=
  nearest_loop (n_right - scan_offset st) left_val st.

Definition asof_next (strategy : AsOfJoinStrategy) : AsOfState -> Sample -> option nat * AsOfState :=
  match strategy with Forward => forward_next | Backward => backward_next | Nearest => nearest_next end.

End Scans.

(** [slice::get_unchecked]: the item at an index of the slice, anything elsewhere. *)
Class Unchecked := get_unchecked : list Sample -> nat -> Sample.
Class UncheckedLaws `{Unchecked} := unchecked_inside : forall l i x, l !! i = Some x -> get_unchecked l i = x.

Section Joins.

Context `{Unchecked} `{MergeJoin} `{Powf}.

Definition join_asof_impl (strategy : AsOfJoinStrategy) (filter : Sample -> Sample -> bool) (allow_eq : bool) (l r : list Sample) : list (Sample * Sample) :=
  (fold_left (fun '(out, state) left_val =>
     let '(found, state) := asof_next (fun j => Some (get_unchecked r j)) (length r) allow_eq strategy state left_val in
     match found with
     | Some r_idx => let right_val := get_unchecked r r_idx in (if filter left_val right_val then out ++ [(left_val, right_val)] else out, state)
     | None => (out, state)
     end) l ([], asof_new)).1.

Definition join_asof_samples (l r : list Sample) (strategy : AsOfJoinStrategy) (tolerance : option Z) (allow_eq : bool) : list (Sample * Sample) :=
  match tolerance with
  | Some t => join_asof_impl strategy (fun l r => ts_abs_diff (timestamp l) (timestamp r) <=? Z.abs t) allow_eq l r
  | None => join_asof_impl strategy (fun _ _ => true) allow_eq l r
  end.

End Joins.

(** A tolerance is a [Duration], in nanoseconds. *)
Record AsOfJoinOptions := mkAsOfJoinOptions { ao_strategy : AsOfJoinStrategy; ao_tolerance : option Z; allow_exact_match : bool }.

(** ** A join *)

Inductive JoinType := JtLeft | JtRight | JtInner | JtFull | JtSemi | JtAnti | JtAsOf (o : AsOfJoinOptions).

Record JoinOptions := mkJoinOptions {
  join_type : JoinType;
  jo_date_range : TimestampRange;
  jo_count : option nat;
  jo_timestamp_filter : option (list Timestamp);
  jo_value_filter : option ValueFilter;
  jo_reducer : option JoinReducer;
  jo_aggregation : option AggregationOptions;
}.

Inductive JoinResultType :=
  | JoinSamples (l : list Sample)
  | JoinValues (l : list JoinValue).

Inductive JoinError :=
  | DuplicateJoinKeys
  | ReducerNotAllowed
  | ReduceWithSemiOrAnti
  | NotOpened (e : QuerierError)
  | JoinTypeAlreadySet
  | MultiAggregationUnsupported
  | InvalidJoinArgument
  | MissingJoinReducer.

Section Handler.

Context `{Unchecked} `{MergeJoin} `{Powf}.

(** [JoinAsOfIter]: everything is joined at the first call of [next]. *)
Definition join_asof_iter (l r : list Sample) (o : AsOfJoinOptions) : list JoinValue :=
  let tolerance := match ao_tolerance o with Some t => Some (wrap_i64 (t / 1000000)) | None => None end in
  map (fun p => Both p.1 p.2) (join_asof_samples l r (ao_strategy o) tolerance (allow_exact_match o)).

Definition create_join_iter (l r : list Sample) (t : JoinType) : list JoinValue :=
  match t with
  | JtAsOf o => join_asof_iter l r o
  | JtSemi => map LeftOnly (join_semi l r)
  | JtLeft => omap (fun row => match row with RightOnly _ => None | row => Some row end) (join_merge l r)
  | JtRight => omap (fun row => match row with LeftOnly _ => None | row => Some row end) (join_merge l r)
  | JtAnti => omap (fun row => match row with LeftOnly l => Some (LeftOnly l) | _ => None end) (join_merge l r)
  | JtInner => omap (fun row => match row with Both l r => Some (Both l r) | _ => None end) (join_merge l r)
  | JtFull => join_merge l r
  end.

Definition transform_join_value_to_sample (item : JoinValue) (f : f64 -> f64 -> f64) : Sample :=
  match item with
  | Both l r => mkSample (timestamp l) (f (value l) (value r))
  | LeftOnly l => mkSample (timestamp l) (f (value l) f64_NAN)
  | RightOnly r => mkSample (timestamp r) (f f64_NAN (value r))
  end.

Definition is_semi_or_anti (t : JoinType) : bool := match t with JtSemi | JtAnti => true | _ => false end.

(** [aggregate] of [aggregators/aggregate_iterator.rs]; [fuel] is more than its rows. *)
Definition aggregate (fuel : nat) (o : AggregationOptions) (aligned_timestamp : Timestamp) (iter : list Sample) : list Sample :=
  map single_value (agg_collect fuel (multi_aggregate_new iter o aligned_timestamp)).

(** [take(count.unwrap_or(usize::MAX))] *)
Definition take_count {A} (count : option nat) (l : list A) : list A := match count with Some n => take n l | None => l end.

(** [clock] has the readings of the clock the alignment may take. *)
Definition join_internal (fuel : nat) (l r : list Sample) (o : JoinOptions) (clock : Timestamp * Timestamp) : result JoinError JoinResultType :=
  if (match jo_reducer o with Some _ => true | None => false end) && is_semi_or_anti (join_type o) then Err ReducerNotAllowed
  else
    let join_iter := create_join_iter l r (join_type o) in
    let aggregated aggr_options iter :=
      let '(start, end_) := get_timestamps (jo_date_range o) None clock in
      let aligned_timestamp := get_aligned_timestamp (alignment aggr_options) start end_ in
      Ok (JoinSamples (take_count (jo_count o) (aggregate fuel aggr_options aligned_timestamp iter))) in
    match jo_reducer o with
    | Some op =>
        let iter := map (fun x => transform_join_value_to_sample x (get_handler op)) join_iter in
        match jo_aggregation o with
        | Some aggr_options => aggregated aggr_options iter
        | None => Ok (JoinSamples (take_count (jo_count o) iter))
        end
    | None =>
        match is_semi_or_anti (join_type o), jo_aggregation o with
        | true, Some aggr_options => aggregated aggr_options (map (fun x => transform_join_value_to_sample x (fun l _ => l)) join_iter)
        | _, _ => Ok (JoinValues (take_count (jo_count o) join_iter))
        end
    end.

Context `{Elf64.Log10}.

Definition fetch_samples (into_values : list ChunkMeta -> list ChunkMeta) (ts : TimeSeries) (o : JoinOptions) (clock : Timestamp * Timestamp) : list Sample :=
  let '(start, end_) := get_series_range (jo_date_range o) ts None true clock in
  get_range_filtered into_values ts start end_ (jo_timestamp_filter o) (jo_value_filter o).

(** Each side reads the clock for its window, and the alignment reads it again. *)
Record JoinClocks := mkJoinClocks { left_clock : Timestamp * Timestamp; right_clock : Timestamp * Timestamp; align_clock : Timestamp * Timestamp }.

Definition process_join (fuel : nat) (into_values : list ChunkMeta -> list ChunkMeta) (left_series right_series : TimeSeries) (o : JoinOptions) (clocks : JoinClocks) : result JoinError JoinResultType :=
  join_internal fuel (fetch_samples into_values left_series o (left_clock clocks)) (fetch_samples into_values right_series o (right_clock clocks)) o (align_clock clocks).

(** ** TS.JOIN *)

(** An argument, with what its own parser made of it. *)
Inductive JoinArg :=
  | ArgAggregation (aggregation : AggregationOptions)
  | ArgType (t : JoinType)
  | ArgCount (count : nat)
  | ArgFilterByValue (f : ValueFilter)
  | ArgFilterByTs (f : list Timestamp)
  | ArgReduce (r : JoinReducer)
  | ArgOther.

Fixpoint parse_join_loop (args : list JoinArg) (o : JoinOptions) (join_type_set : bool) : result JoinError JoinOptions :=
  match args with
  | [] => Ok o
  | arg :: args =>
      let '(mkJoinOptions ty range count ts_filter value_filter reducer aggregation) := o in
      match arg with
      | ArgAggregation a =>
          if is_multi a then Err MultiAggregationUnsupported
          else parse_join_loop args (mkJoinOptions ty range count ts_filter value_filter reducer (Some a)) join_type_set
      | ArgType t =>
          if join_type_set then Err JoinTypeAlreadySet
          else parse_join_loop args (mkJoinOptions t range count ts_filter value_filter reducer aggregation) true
      | ArgCount c => parse_join_loop args (mkJoinOptions ty range (Some c) ts_filter value_filter reducer aggregation) join_type_set
      | ArgFilterByValue f => parse_join_loop args (mkJoinOptions ty range count ts_filter (Some f) reducer aggregation) join_type_set
      | ArgFilterByTs f => parse_join_loop args (mkJoinOptions ty range count (Some f) value_filter reducer aggregation) join_type_set
      | ArgReduce r => parse_join_loop args (mkJoinOptions ty range count ts_filter value_filter (Some r) aggregation) join_type_set
      | ArgOther => Err InvalidJoinArgument
      end
  end.

Definition parse_join_args (args : list JoinArg) (o : JoinOptions) : result JoinError JoinOptions :=
  let? o := parse_join_loop args o false in
  let reduced := match jo_reducer o with Some _ => true | None => false end in
  let aggregated := match jo_aggregation o with Some _ => true | None => false end in
  if aggregated && negb reduced && negb (is_semi_or_anti (join_type o)) then Err MissingJoinReducer
  else if reduced && is_semi_or_anti (join_type o) then Err ReduceWithSemiOrAnti
  else Ok o.

Definition check_key_permissions (caller : Caller) (key : string) (permissions : AclPermissions) : result QuerierError unit :=
  access_check (key_access caller (clone_permissions permissions)) key.

Definition try_get_timeseries (keyspace : string -> KeyValue) (caller : Caller) (key : string) (permissions : option AclPermissions) : result QuerierError (option StoredSeries) :=
  let? _ := match permissions with Some permissions => check_key_permissions caller key permissions | None => Ok tt end in
  open_timeseries keyspace key.

Definition get_timeseries (keyspace : string -> KeyValue) (caller : Caller) (key : string) (permissions : option AclPermissions) : result QuerierError StoredSeries :=
  let? series := try_get_timeseries keyspace caller key permissions in
  match series with Some series => Ok series | None => Err KeyNotFound end.

(** The reply: samples, or pairs with a null for a missing side. *)
Inductive JoinReply :=
  | ReplySamples (l : list Sample)
  | ReplyPairs (l : list (option Sample * option Sample)).

Definition join_reply (r : JoinResultType) : JoinReply :=
  match r with
  | JoinSamples l => ReplySamples l
  | JoinValues l => ReplyPairs (map (fun v => match v with Both l r => (Some l, Some r) | LeftOnly l => (Some l, None) | RightOnly r => (None, Some r) end) l)
  end.

Definition ts_join_cmd (fuel : nat) (into_values : list ChunkMeta -> list ChunkMeta) (keyspace : string -> KeyValue) (caller : Caller) (left_key right_key : string)
    (date_range : TimestampRange) (args : list JoinArg) (clocks : JoinClocks) : result JoinError JoinReply :=
  let opened r := match r with Ok a => Ok a | Err e => Err (NotOpened e) end in
  let? o := parse_join_args args (mkJoinOptions JtInner date_range None None None None None) in
  if bool_decide (left_key = right_key) then Err DuplicateJoinKeys
  else
    let? left_series := opened (get_timeseries keyspace caller left_key (Some ACCESS)) in
    let? right_series := opened (get_timeseries keyspace caller right_key (Some ACCESS)) in
    let? r := process_join fuel into_values (sd_series left_series) (sd_series right_series) o clocks in
    Ok (join_reply r).

End Handler.
