(* ===== verification/JoinLaws.v ===== *)
(** * JoinLaws: joins are relations between sorted lists

    A positional join pairs the samples that share a timestamp; an as-of join pairs
    each sample of the left side with the last before it, the first after it or the
    nearest one; the scans read the right side only inside its bounds. *)

From stdpp Require Import list sorting.
From S2P Require Import Prelude Float64 Types Content TimeSeries SeriesLaws SeriesReads SeriesWrites Join.

Local Open Scope Z_scope.

(** ** What a join means *)

Definition left_row (r : list Sample) (x : Sample) : JoinValue := match lookup_ts (timestamp x) r with Some y => Both x y | None => LeftOnly x end.
Definition right_row (l : list Sample) (y : Sample) : JoinValue := match lookup_ts (timestamp y) l with Some x => Both x y | None => RightOnly y end.
Definition unmatched (r : list Sample) (x : Sample) : bool := match lookup_ts (timestamp x) r with Some _ => false | None => true end.

(** Which sample of [r] an as-of join pairs with [x]. *)
Definition is_before (allow_eq : bool) (x y : Sample) : bool := if allow_eq then timestamp y <=? timestamp x else timestamp y <? timestamp x.
Definition is_after (allow_eq : bool) (x y : Sample) : bool := if allow_eq then timestamp x <=? timestamp y else timestamp x <? timestamp y.

Definition nearer (allow_eq : bool) (x : Sample) (best : option Sample) (y : Sample) : option Sample :=
  if negb allow_eq && (timestamp y =? timestamp x) then best
  else match best with
       | Some b => if Z.abs (timestamp x - timestamp y) <=? Z.abs (timestamp x - timestamp b) then Some y else Some b
       | None => Some y
       end.

Definition asof_match (strategy : AsOfJoinStrategy) (allow_eq : bool) (r : list Sample) (x : Sample) : option Sample :=
  match strategy with
  | Backward => list.last (List.filter (is_before allow_eq x) r)
  | Forward => head (List.filter (is_after allow_eq x) r)
  | Nearest => fold_left (nearer allow_eq x) r None
  end.

Definition asof_row (o : AsOfJoinOptions) (r : list Sample) (x : Sample) : option JoinValue :=
  match asof_match (ao_strategy o) (allow_exact_match o) r x with
  | Some y =>
      if match ao_tolerance o with Some t => Z.abs (timestamp x - timestamp y) <=? Z.abs (wrap_i64 (t / 1000000)) | None => true end
      then Some (Both x y) else None
  | None => None
  end.

Definition join_rows (l r : list Sample) (t : JoinType) : list JoinValue :=
  match t with
  | JtLeft => map (left_row r) l
  | JtRight => map (right_row l) r
  | JtInner => omap (fun x => Both x <$> lookup_ts (timestamp x) r) l
  | JtFull => sort_by_key sortable_timestamp (map (left_row r) l ++ map RightOnly (List.filter (unmatched l) r))
  | JtSemi => map LeftOnly (List.filter (fun x => negb (unmatched r x)) l)
  | JtAnti => map LeftOnly (List.filter (unmatched r) l)
  | JtAsOf o => omap (asof_row o r) l
  end.

(** The nearest sample is only exact if an excluded exact match cannot be met. *)
Definition join_exact (l r : list Sample) (t : JoinType) : Prop :=
  match t with
  | JtAsOf o => ao_strategy o = Nearest -> allow_exact_match o = true \/ forall x y, x ∈ l -> y ∈ r -> timestamp x <> timestamp y
  | _ => True
  end.

(** ** Positional joins *)

Section Merge.

Context `{HU : Unchecked} `{HM : MergeJoinLaws}.

Lemma lookup_below u y r : Forall (ts_lt y) r -> u <= timestamp y -> lookup_ts u r = None.
Proof.
  intros Hy Hu. induction Hy as [|z r Hz Hy IH]; [done|]. cbn [lookup_ts]. unfold ts_lt in Hz. destruct (Z.eqb_spec (timestamp z) u); [lia|done].
Qed.

(** Two sorted lists are merged by cases on their heads. *)
Lemma join_merge_ind (Q : list Sample -> list Sample -> list JoinValue -> Prop) :
  (forall r, ts_sorted r -> Q [] r (map RightOnly r)) -> (forall l, ts_sorted l -> Q l [] (map LeftOnly l)) ->
  (forall a l b r m, timestamp a < timestamp b -> Forall (ts_lt a) l -> Forall (ts_lt a) (b :: r) -> Q l (b :: r) m -> Q (a :: l) (b :: r) (LeftOnly a :: m)) ->
  (forall a l b r m, timestamp a = timestamp b -> Forall (ts_lt a) l -> Forall (ts_lt b) r -> Q l r m -> Q (a :: l) (b :: r) (Both a b :: m)) ->
  (forall a l b r m, timestamp b < timestamp a -> Forall (ts_lt b) (a :: l) -> Forall (ts_lt b) r -> Q (a :: l) r m -> Q (a :: l) (b :: r) (RightOnly b :: m)) ->
  forall l r, ts_sorted l -> ts_sorted r -> Q l r (join_merge l r).
Proof.
  intros Hl Hr Hlt Heq Hgt l r Hsl. revert r. induction Hsl as [|a l Hsl IHl Ha]; intros r Hsr.
  { unfold join_merge. rewrite merge_left_ends. by apply Hl. }
  induction Hsr as [|b r Hsr IHr Hb]; [unfold join_merge; rewrite merge_right_ends; apply Hr; by constructor|].
  unfold join_merge, compare_by_timestamp in *. rewrite merge_heads.
  assert (forall z k, timestamp z < timestamp k -> forall ks, Forall (ts_lt k) ks -> Forall (ts_lt z) (k :: ks)) as Hall.
  { intros z k Hz ks Hks. constructor; [done|]. eapply Forall_impl; [exact Hks|]. unfold ts_lt. lia. }
  destruct (Z.compare_spec (timestamp a) (timestamp b)).
  - apply Heq; [done..|]. by apply IHl.
  - apply Hlt; [done|done|by apply Hall|]. apply IHl. by constructor.
  - apply Hgt; [done|by apply Hall|done|apply IHr].
Qed.

Lemma left_rows_skip b r l : Forall (ts_lt b) l -> map (left_row (b :: r)) l = map (left_row r) l.
Proof.
  intros Hb. apply map_ext_Forall. eapply Forall_impl; [exact Hb|]. intros x Hx. unfold left_row. cbn [lookup_ts]. unfold ts_lt in Hx.
  by destruct (Z.eqb_spec (timestamp b) (timestamp x)); [lia|].
Qed.

Lemma right_rows_skip a l r : Forall (ts_lt a) r -> map (right_row (a :: l)) r = map (right_row l) r.
Proof.
  intros Ha. apply map_ext_Forall. eapply Forall_impl; [exact Ha|]. intros x Hx. unfold right_row. cbn [lookup_ts]. unfold ts_lt in Hx.
  by destruct (Z.eqb_spec (timestamp a) (timestamp x)); [lia|].
Qed.

Lemma join_left_spec l r : ts_sorted l -> ts_sorted r -> create_join_iter l r JtLeft = map (left_row r) l.
Proof.
  apply (join_merge_ind (fun l r m => omap (fun row => match row with RightOnly _ => None | row => Some row end) m = map (left_row r) l)); clear.
  - intros r _. by induction r.
  - intros l _. induction l as [|x l IH]; [done|]. cbn. by rewrite IH.
  - intros a l b r m Hlt Ha Hb IH. cbn [omap list_omap map]. rewrite IH. f_equal. unfold left_row. by rewrite (lookup_below _ a).
  - intros a l b r m Heq Ha Hb IH. cbn [omap list_omap map]. rewrite IH. f_equal.
    + unfold left_row. cbn [lookup_ts]. by rewrite Heq, Z.eqb_refl.
    + symmetry. apply left_rows_skip. eapply Forall_impl; [exact Ha|]. unfold ts_lt. lia.
  - intros a l b r m Hgt Ha Hb IH. cbn [omap list_omap]. rewrite IH. symmetry. by apply left_rows_skip.
Qed.

Lemma join_right_spec l r : ts_sorted l -> ts_sorted r -> create_join_iter l r JtRight = map (right_row l) r.
Proof.
  apply (join_merge_ind (fun l r m => omap (fun row => match row with LeftOnly _ => None | row => Some row end) m = map (right_row l) r)); clear.
  - intros r _. induction r as [|x r IH]; [done|]. cbn. by rewrite IH.
  - intros l _. by induction l.
  - intros a l b r m Hlt Ha Hb IH. cbn [omap list_omap]. rewrite IH. symmetry. by apply right_rows_skip.
  - intros a l b r m Heq Ha Hb IH. cbn [omap list_omap map]. rewrite IH. f_equal.
    + unfold right_row. cbn [lookup_ts]. by rewrite Heq, Z.eqb_refl.
    + symmetry. apply right_rows_skip. eapply Forall_impl; [exact Hb|]. unfold ts_lt. lia.
  - intros a l b r m Hgt Ha Hb IH. cbn [omap list_omap map]. rewrite IH. f_equal. unfold right_row. by rewrite (lookup_below _ b).
Qed.

(** What a filter of the left rows is. *)
Lemma omap_left_rows (f : JoinValue -> option JoinValue) l r : ts_sorted l -> ts_sorted r -> (forall y, f (RightOnly y) = None) ->
  omap f (join_merge l r) = omap (fun x => f (left_row r x)) l.
Proof.
  intros Hl Hr Hf. pose proof (join_left_spec l r Hl Hr) as E. cbn [create_join_iter] in E.
  transitivity (omap f (map (left_row r) l)); [|clear; induction l as [|x l IH]; cbn; [done|by rewrite IH]].
  rewrite <- E. clear E. induction (join_merge l r) as [|[x y|x|y] m IH]; [done|..]; cbn; try rewrite IH; [done|done|by rewrite Hf].
Qed.

Lemma join_inner_spec l r : ts_sorted l -> ts_sorted r -> create_join_iter l r JtInner = omap (fun x => Both x <$> lookup_ts (timestamp x) r) l.
Proof.
  intros Hl Hr. cbn [create_join_iter]. rewrite omap_left_rows by done. apply list_omap_ext, Forall2_same_length_lookup. split; [done|].
  intros i x y Hx Hy. assert (x = y) as -> by congruence. unfold left_row. by destruct (lookup_ts _ r).
Qed.

Lemma join_anti_spec l r : ts_sorted l -> ts_sorted r -> create_join_iter l r JtAnti = map LeftOnly (List.filter (unmatched r) l).
Proof.
  intros Hl Hr. cbn [create_join_iter]. rewrite omap_left_rows by done. clear Hl. induction l as [|x l IH]; [done|].
  cbn [omap list_omap List.filter]. unfold left_row, unmatched in *. destruct (lookup_ts _ r); cbn [map]; by rewrite IH.
Qed.

(** *** The full join *)

Lemma right_only_spec l r : ts_sorted l -> ts_sorted r ->
  omap (fun row => match row with RightOnly y => Some (RightOnly y) | _ => None end) (join_merge l r) = map RightOnly (List.filter (unmatched l) r).
Proof.
  intros Hl Hr. pose proof (join_right_spec l r Hl Hr) as E. cbn [create_join_iter] in E.
  transitivity (omap (fun row => match row with RightOnly y => Some (RightOnly y) | _ => None end) (map (right_row l) r)).
  - rewrite <- E. clear E. induction (join_merge l r) as [|[x y|x|y] m IH]; [done|..]; cbn; by rewrite ?IH.
  - clear. induction r as [|y r IH]; [done|]. cbn [map omap list_omap List.filter]. unfold right_row, unmatched in *. destruct (lookup_ts _ l); cbn [map]; by rewrite IH.
Qed.

Lemma merge_split (m : list JoinValue) :
  m ≡ₚ omap (fun row => match row with RightOnly _ => None | row => Some row end) m ++ omap (fun row => match row with RightOnly y => Some (RightOnly y) | _ => None end) m.
Proof.
  induction m as [|[x y|x|y] m IH]; cbn [omap list_omap]; [done|by rewrite IH at 1..|]. rewrite <- Permutation_middle. by constructor.
Qed.

Lemma rows_map_increasing (f : Sample -> JoinValue) l : (forall x, sortable_timestamp (f x) = timestamp x) -> ts_sorted l -> key_increasing sortable_timestamp (map f l).
Proof.
  intros Hf. induction 1 as [|x l Hs IH Hx]; cbn [map]; constructor; [done|]. apply Forall_map. eapply Forall_impl; [exact Hx|]. intros y Hy. by rewrite !Hf.
Qed.

(** The rows of a merge are in time order, each at a time of one of its sides. *)
Lemma merge_increasing l r : ts_sorted l -> ts_sorted r ->
  key_increasing sortable_timestamp (join_merge l r) /\
  forall u, Forall (fun x => u < timestamp x) l -> Forall (fun x => u < timestamp x) r -> Forall (fun v => u < sortable_timestamp v) (join_merge l r).
Proof.
  apply (join_merge_ind (fun l r m => key_increasing sortable_timestamp m /\
    forall u, Forall (fun x => u < timestamp x) l -> Forall (fun x => u < timestamp x) r -> Forall (fun v => u < sortable_timestamp v) m)); clear l r.
  - intros r Hs. split; [by apply rows_map_increasing|]. intros u _ Hr. by apply Forall_map.
  - intros l Hs. split; [by apply rows_map_increasing|]. intros u Hl _. by apply Forall_map.
  - intros a l b r m Hlt Ha Hb [IH1 IH2]. split; [constructor; [done|by apply IH2]|]. intros u [Hua Hl]%Forall_cons Hr. constructor; [done|by apply IH2].
  - intros a l b r m Heq Ha Hb [IH1 IH2]. split.
    + constructor; [done|]. cbn [sortable_timestamp]. rewrite Heq, Z.min_id. apply IH2; [|done]. eapply Forall_impl; [exact Ha|]. unfold ts_lt. lia.
    + intros u [Hua Hl]%Forall_cons [Hub Hr]%Forall_cons. constructor; [cbn; lia|by apply IH2].
  - intros a l b r m Hgt Ha Hb [IH1 IH2]. split; [constructor; [done|by apply IH2]|]. intros u Hl [Hub Hr]%Forall_cons. constructor; [done|by apply IH2].
Qed.

Lemma join_full_spec l r : ts_sorted l -> ts_sorted r ->
  create_join_iter l r JtFull = sort_by_key sortable_timestamp (map (left_row r) l ++ map RightOnly (List.filter (unmatched l) r)).
Proof.
  intros Hl Hr. cbn [create_join_iter]. symmetry. apply sort_by_key_unique; [by apply merge_increasing|].
  rewrite (merge_split (join_merge l r)), right_only_spec by done. by rewrite <- join_left_spec.
Qed.

End Merge.

(** *** The semi join *)

(** A timestamp is one of [key] and those of [r]. *)
Definition present (key : Timestamp) (r : list Sample) (x : Sample) : bool := (key =? timestamp x) || negb (unmatched r x).

Lemma present_elem key r x : present key r x = true <-> timestamp x ∈ key :: map timestamp r.
Proof.
  unfold present, unmatched. rewrite orb_true_iff, Z.eqb_eq, elem_of_cons. destruct (lookup_ts (timestamp x) r) as [y|] eqn:E; cbn.
  - apply lookup_ts_Some in E as [Hy Et]. split; [intros _|naive_solver]. right. apply list_elem_of_In, in_map_iff. exists y. by rewrite <- list_elem_of_In.
  - split; [intuition congruence|]. intros [->|Hin]; [by left|]. exfalso. apply list_elem_of_In, in_map_iff in Hin as (y & Et & Hy%list_elem_of_In).
    assert (is_Some (lookup_ts (timestamp x) r)) as [? ?] by (apply lookup_is_Some; eauto). congruence.
Qed.

(** The right side after the advance still has every key not below [lk]. *)
Lemma semi_advance_spec lk r key : StronglySorted Z.lt (key :: map timestamp r) ->
  match semi_advance lk key r with
  | AdvMatch k r' => k = lk /\ exists pre, key :: map timestamp r = pre ++ k :: map timestamp r' /\ Forall (fun u => u < lk) pre
  | AdvBreak k r' => lk < k /\ exists pre, key :: map timestamp r = pre ++ k :: map timestamp r' /\ Forall (fun u => u < lk) pre
  | AdvEnd => Forall (fun u => u < lk) (key :: map timestamp r)
  end.
Proof.
  revert key. induction r as [|y r IH]; intros key Hs; cbn [semi_advance]; destruct (Z.compare_spec key lk) as [->|Hlt|Hgt].
  - split; [done|]. by exists [].
  - by repeat constructor.
  - split; [done|]. by exists [].
  - split; [done|]. by exists [].
  - inversion Hs; subst. specialize (IH (timestamp y) ltac:(done)).
    destruct (semi_advance lk (timestamp y) r) as [k r'|k r'|]; [..|by constructor]; destruct IH as [Hk (pre & E & Hp)]; (split; [done|]);
      exists (key :: pre); (split; [cbn [map app]; by rewrite E|by constructor]).
  - split; [done|]. by exists [].
Qed.

(** Keys below the left side do not matter to it. *)
Lemma present_advanced key r k r' pre u l : key :: map timestamp r = pre ++ k :: map timestamp r' -> Forall (fun v => v < u) pre ->
  Forall (fun y => u <= timestamp y) l -> List.filter (present key r) l = List.filter (present k r') l.
Proof.
  intros E Hp Hl. apply filter_ext_in. intros y Hy%list_elem_of_In. rewrite Forall_forall in Hl. rewrite Forall_forall in Hp. specialize (Hl y Hy). cbn beta in Hl.
  apply eq_true_iff_eq. rewrite !present_elem, E, elem_of_app. split; [|by right]. intros [Hin|]; [|done]. specialize (Hp _ Hin). cbn beta in Hp. lia.
Qed.

Lemma semi_collect_spec l : ts_sorted l -> forall fuel key r, StronglySorted Z.lt (key :: map timestamp r) -> (length l < fuel)%nat ->
  semi_collect fuel (mkSortedJoinSemiBy l r (Some key)) = List.filter (present key r) l.
Proof.
  induction 1 as [|x l Hs IH Hx]; intros [|fuel] key r Hr Hf; cbn [length] in Hf; try lia; [done|].
  assert (semi_collect (S fuel) (mkSortedJoinSemiBy (x :: l) r (Some key)) =
    match semi_advance (timestamp x) key r with
    | AdvMatch k r' => x :: semi_collect fuel (mkSortedJoinSemiBy l r' (Some k))
    | AdvBreak k r' => semi_collect (S fuel) (mkSortedJoinSemiBy l r' (Some k))
    | AdvEnd => []
    end) as -> by (cbn; by destruct (semi_advance _ _ _)).
  assert (Forall (fun y => timestamp x <= timestamp y) (x :: l)) as Hge by (constructor; [done|]; eapply Forall_impl; [exact Hx|unfold ts_lt; lia]).
  pose proof (semi_advance_spec (timestamp x) r key Hr) as Hadv. destruct (semi_advance _ _ _) as [k r'|k r'|].
  - destruct Hadv as (-> & pre & E & Hp). rewrite (present_advanced _ _ _ _ _ _ _ E Hp Hge). cbn [List.filter]. unfold present at 1. rewrite Z.eqb_refl. cbn [orb].
    f_equal. rewrite E in Hr. apply StronglySorted_app in Hr as (_ & _ & Hr). apply IH; [done|lia].
  - destruct Hadv as (Hk & pre & E & Hp). rewrite (present_advanced _ _ _ _ _ _ _ E Hp Hge). rewrite E in Hr. apply StronglySorted_app in Hr as (_ & _ & Hr).
    rewrite (IH (S fuel)) by (done || lia). cbn [List.filter]. destruct (present k r' x) eqn:Ex; [exfalso|done].
    apply present_elem in Ex. inversion Hr as [|? ? _ Hk']; subst. apply elem_of_cons in Ex as [Ex|Hin]; [lia|]. rewrite Forall_forall in Hk'. specialize (Hk' _ Hin). lia.
  - symmetry. apply filter_none. rewrite Forall_forall in Hadv. rewrite Forall_forall in Hge. apply Forall_forall. intros y Hy. apply not_true_is_false. intros Hin%present_elem. specialize (Hadv _ Hin). specialize (Hge _ Hy). cbn beta in *. lia.
Qed.

Lemma timestamps_increasing r : ts_sorted r -> StronglySorted Z.lt (map timestamp r).
Proof. induction 1 as [|y r Hs IH Hy]; cbn; constructor; [done|]. by apply Forall_map. Qed.

Lemma join_semi_spec l r : ts_sorted l -> ts_sorted r -> join_semi l r = List.filter (fun x => negb (unmatched r x)) l.
Proof.
  intros Hl Hr. unfold join_semi, semi_new. destruct r as [|y r].
  - cbn. symmetry. apply filter_none, Forall_true. done.
  - rewrite semi_collect_spec; [|done|by apply (timestamps_increasing (y :: r))|lia]. apply filter_ext_in. intros x _. unfold present, unmatched. cbn [lookup_ts].
    by destruct (timestamp y =? timestamp x).
Qed.

(** ** As-of joins read inside their bounds *)

Definition bound_ok (n : nat) (st : AsOfState) : Prop := match best_bound st with Some b => (b < n)%nat | None => True end.

Section Bounds.

Context (f g : nat -> option Sample) (n : nat) (allow_eq : bool).
Hypothesis Hfg : forall j, (j < n)%nat -> f j = g j.

Lemma forward_bounds turns x : forall scan, (turns <= n - scan)%nat ->
  forward_loop f allow_eq turns x scan = forward_loop g allow_eq turns x scan /\ match (forward_loop g allow_eq turns x scan).1 with Some b => (b < n)%nat | None => True end.
Proof.
  induction turns as [|turns IH]; intros scan Ht; [done|]. cbn [forward_loop]. rewrite Hfg by lia. destruct (g scan) as [y|]; [|apply IH; lia].
  destruct (ge_allow_eq _ _ _); [split; [done|cbn; lia]|apply IH; lia].
Qed.

Lemma backward_bounds turns x : forall st, bound_ok n st -> (turns <= n - scan_offset st)%nat ->
  backward_loop f allow_eq turns x st = backward_loop g allow_eq turns x st /\ bound_ok n (backward_loop g allow_eq turns x st).
Proof.
  induction turns as [|turns IH]; intros st Hst Ht; [done|]. cbn [backward_loop]. rewrite Hfg by lia. destruct (g (scan_offset st)) as [y|]; [|apply IH; [done|cbn; lia]].
  destruct (lt_allow_eq _ _ _); [|done]. apply IH; cbn; lia.
Qed.

Lemma skip_bounds turns u : forall ahead, (turns <= n - ahead)%nat -> skip_equal f turns u ahead = skip_equal g turns u ahead.
Proof.
  induction turns as [|turns IH]; intros ahead Ht; [done|]. cbn [skip_equal]. rewrite Hfg by lia. destruct (g ahead) as [y|]; [|done]. destruct (_ =? _); [apply IH; lia|done].
Qed.

Lemma past_exact_bounds st x : bound_ok n st ->
  nearest_past_exact f n st x = nearest_past_exact g n st x /\ match nearest_past_exact g n st x with Some b => (b < n)%nat | None => True end.
Proof.
  intros Hst. unfold nearest_past_exact. rewrite skip_bounds by lia. set (ahead := skip_equal g _ _ _). unfold bound_ok in Hst.
  destruct (Nat.ltb_spec ahead n) as [Ha|Ha]; [rewrite Hfg by done|]; (destruct (best_bound st) as [b|]; [rewrite Hfg by done|]); (split; [done|]);
    repeat case_match; simplify_eq; cbn; done || lia.
Qed.

Lemma take_equal_bounds turns y : forall st, bound_ok n st -> (turns <= n - scan_offset st)%nat ->
  take_equal f allow_eq turns y st = take_equal g allow_eq turns y st /\ bound_ok n (take_equal g allow_eq turns y st).
Proof.
  induction turns as [|turns IH]; intros st Hst Ht; [done|]. cbn [take_equal]. rewrite Hfg by lia. destruct (g (scan_offset st)) as [z|]; [|apply IH; [done|cbn; lia]].
  destruct (_ && _); [|done]. apply IH; cbn; lia.
Qed.

Lemma nearest_bounds turns x : forall st, bound_ok n st -> (turns <= n - scan_offset st)%nat ->
  nearest_loop f n allow_eq turns x st = nearest_loop g n allow_eq turns x st /\
  bound_ok n (nearest_loop g n allow_eq turns x st).2 /\ match (nearest_loop g n allow_eq turns x st).1 with Some b => (b < n)%nat | None => True end.
Proof.
  induction turns as [|turns IH]; intros st Hst Ht; [done|]. cbn [nearest_loop]. rewrite Hfg by lia. destruct (g (scan_offset st)) as [y|]; [|apply IH; [done|cbn; lia]].
  destruct (lt_allow_eq _ _ _); [apply IH; cbn; lia|]. destruct (_ && _).
  { destruct (past_exact_bounds st x Hst) as [-> Hp]. done. }
  assert (scan_is_better f st x y = scan_is_better g st x y) as ->.
  { unfold scan_is_better. unfold bound_ok in Hst. destruct (best_bound st) as [b|]; [by rewrite Hfg|done]. }
  destruct (scan_is_better g st x y); [|done].
  destruct (take_equal_bounds (n - S (scan_offset st)) y (mkAsOfState (Some (scan_offset st)) (S (scan_offset st)))) as [E Hok]; [cbn; lia..|].
  cbn [scan_offset]. by rewrite E.
Qed.

(** Two callbacks that agree on the indices of the right side give the same scan, and
    the index found is one of them. *)
Lemma asof_bounds strategy st x : bound_ok n st ->
  asof_next f n allow_eq strategy st x = asof_next g n allow_eq strategy st x /\
  bound_ok n (asof_next g n allow_eq strategy st x).2 /\ match (asof_next g n allow_eq strategy st x).1 with Some b => (b < n)%nat | None => True end.
Proof.
  intros Hst. destruct strategy; cbn [asof_next].
  - unfold backward_next. destruct (backward_bounds (n - scan_offset st) x st Hst) as [-> Hok]; [lia|]. done.
  - unfold forward_next. destruct (forward_bounds (n - scan_offset st) x (scan_offset st)) as [-> Hok]; [lia|]. by destruct (forward_loop g _ _ _ _).
  - unfold nearest_next. by apply nearest_bounds.
Qed.

End Bounds.

(** ** What the scans find *)

Section Scan.

Context (r : list Sample) (allow_eq : bool).
Hypothesis Hr : ts_sorted r.

Lemma sorted_lt i j y z : r !! i = Some y -> r !! j = Some z -> (i < j)%nat -> timestamp y < timestamp z.
Proof. intros Hi Hj Hij. exact (StronglySorted_lookup ts_lt r i j y z Hr Hij Hi Hj). Qed.

Lemma ge_after x y : ge_allow_eq (timestamp y) (timestamp x) allow_eq = is_after allow_eq x y.
Proof. unfold ge_allow_eq, is_after. destruct (Z.compare_spec (timestamp y) (timestamp x)), allow_eq; symmetry; lia. Qed.

Lemma lt_before x y : lt_allow_eq (timestamp y) (timestamp x) allow_eq = is_before allow_eq x y.
Proof. unfold lt_allow_eq, is_before. destruct (Z.compare_spec (timestamp y) (timestamp x)), allow_eq; symmetry; lia. Qed.

(** *** Forward *)

Definition forward_inv (st : AsOfState) (x : Sample) : Prop :=
  (scan_offset st <= length r)%nat /\ forall i y, (i < scan_offset st)%nat -> r !! i = Some y -> is_after allow_eq x y = false.

Lemma head_filter {A} (P : A -> bool) (l : list A) k : (forall i y, (i < k)%nat -> l !! i = Some y -> P y = false) ->
  head (List.filter P l) = head (List.filter P (drop k l)).
Proof.
  revert k. induction l as [|y l IH]; intros [|k] Hk; [done..|]. cbn [drop List.filter]. rewrite (Hk 0%nat y) by (lia || done). apply IH. intros i z Hi. apply (Hk (S i)). lia.
Qed.

Lemma forward_loop_spec x turns scan : turns = (length r - scan)%nat -> (scan <= length r)%nat ->
  (forall i y, (i < scan)%nat -> r !! i = Some y -> is_after allow_eq x y = false) ->
  let '(found, scan') := forward_loop (fun j => r !! j) allow_eq turns x scan in
  found ≫= (r !!.) = head (List.filter (is_after allow_eq x) r) /\ forward_inv (mkAsOfState None scan') x.
Proof.
  revert scan. induction turns as [|turns IH]; intros scan Ht Hle Hs; cbn [forward_loop].
  - split; [|done]. rewrite (head_filter _ _ scan Hs). rewrite drop_ge by lia. done.
  - destruct (lookup_lt_is_Some_2 r scan) as [y Hy]; [lia|]. rewrite Hy, ge_after. destruct (is_after allow_eq x y) eqn:E.
    + split; [|by split]. cbn. rewrite Hy, (head_filter _ _ scan Hs), (drop_S _ _ _ Hy). cbn. by rewrite E.
    + apply IH; [lia|lia|]. intros i z Hi Hz. destruct (decide (i = scan)) as [->|]; [congruence|]. apply (Hs i z); [lia|done].
Qed.

(** *** Backward *)

Definition previous (k : nat) : option nat := match k with O => None | S k => Some k end.

Definition backward_inv (st : AsOfState) (x : Sample) : Prop :=
  (scan_offset st <= length r)%nat /\ best_bound st = previous (scan_offset st) /\ forall i y, (i < scan_offset st)%nat -> r !! i = Some y -> is_before allow_eq x y = true.

Lemma last_filter_prefix {A} (P : A -> bool) (l : list A) k : (k <= length l)%nat ->
  (forall i y, (i < k)%nat -> l !! i = Some y -> P y = true) -> (forall i y, (k <= i)%nat -> l !! i = Some y -> P y = false) ->
  list.last (List.filter P l) = previous k ≫= (l !!.).
Proof.
  intros Hk Ht Hf. rewrite <- (take_drop k l) at 1. rewrite List.filter_app, (filter_all P (take k l)), (filter_none P (drop k l)), app_nil_r.
  - destruct k as [|k]; [done|]. cbn [previous mbind option_bind]. rewrite last_lookup, length_take, Nat.min_l by lia. cbn [pred]. rewrite lookup_take. by destruct (decide _); [|lia].
  - apply Forall_lookup. intros i y Hy. rewrite lookup_drop in Hy. apply (Hf (k + i)%nat); [lia|done].
  - apply Forall_lookup. intros i y Hy. apply lookup_take_Some in Hy as [Hy Hi]. by apply (Ht i).
Qed.

Lemma backward_loop_spec x turns st : turns = (length r - scan_offset st)%nat -> backward_inv st x ->
  let st' := backward_loop (fun j => r !! j) allow_eq turns x st in
  best_bound st' ≫= (r !!.) = list.last (List.filter (is_before allow_eq x) r) /\ backward_inv st' x.
Proof.
  revert st. induction turns as [|turns IH]; intros st Ht Hi; cbn [backward_loop]; cbn zeta.
  - split; [|done]. destruct Hi as (Hle & Hb & Hi). rewrite Hb. symmetry. apply last_filter_prefix; [done|done|]. intros i y Hge Hy. apply lookup_lt_Some in Hy. lia.
  - destruct Hi as (Hle & Hb & Hi). destruct (lookup_lt_is_Some_2 r (scan_offset st)) as [y Hy]; [lia|]. rewrite Hy, lt_before. destruct (is_before allow_eq x y) eqn:E.
    + apply IH; cbn [scan_offset best_bound]; [lia|]. split_and!; [cbn; lia|done|]. cbn [scan_offset]. intros i z Hlt Hz. destruct (decide (i = scan_offset st)) as [->|]; [congruence|]. apply (Hi i z); [lia|done].
    + split; [|done]. rewrite Hb. symmetry. apply last_filter_prefix; [done|done|]. intros i z Hge Hz. destruct (decide (i = scan_offset st)) as [->|]; [congruence|].
      assert (timestamp y < timestamp z) by (eapply sorted_lt; [exact Hy|exact Hz|lia]). unfold is_before in *. destruct allow_eq; lia.
Qed.

(** *** Nearest *)

(** The best sample is the last one scanned, and no earlier one is nearer to [x], nor
    to anything later than [x]. *)
Definition nearest_inv (st : AsOfState) (x : Sample) : Prop :=
  (scan_offset st <= length r)%nat /\ best_bound st = previous (scan_offset st) /\
  forall i b y z, best_bound st = Some b -> (i < b)%nat -> r !! i = Some y -> r !! b = Some z -> timestamp y + timestamp z <= 2 * timestamp x.

(** Every sample from [k] on is farther from [x] than the best one. *)
Definition rest_farther (st : AsOfState) (x : Sample) : Prop :=
  forall i y, (scan_offset st <= i)%nat -> r !! i = Some y -> exists b z, best_bound st = Some b /\ r !! b = Some z /\ 2 * timestamp x < timestamp y + timestamp z.

Context (x : Sample).
Hypothesis Hx : allow_eq = true \/ forall y, y ∈ r -> timestamp x <> timestamp y.

Lemma nearer_admits y best : y ∈ r -> nearer allow_eq x best y =
  match best with Some b => if Z.abs (timestamp x - timestamp y) <=? Z.abs (timestamp x - timestamp b) then Some y else Some b | None => Some y end.
Proof.
  intros Hy. unfold nearer. destruct Hx as [->|Hne]; [done|]. specialize (Hne y Hy). destruct (Z.eqb_spec (timestamp y) (timestamp x)); [lia|]. by rewrite andb_false_r.
Qed.

Lemma nearest_fold_in l best : (forall y, y ∈ l -> y ∈ r) -> match fold_left (nearer allow_eq x) l best with Some b => b ∈ l \/ best = Some b | None => l = [] /\ best = None end.
Proof.
  revert best. induction l as [|y l IH]; intros best Hl; cbn [fold_left]; [destruct best; auto|].
  assert (exists b, nearer allow_eq x best y = Some b /\ (b = y \/ best = Some b)) as (b & Eb & Hb).
  { rewrite nearer_admits by (apply Hl; by left). destruct best as [b|]; [destruct (_ <=? _)|]; eauto. }
  rewrite Eb. specialize (IH (Some b) ltac:(intros; apply Hl; by right)). destruct (fold_left _ l _) as [c|]; [|naive_solver].
  destruct IH as [Hc|Hc]; [left; by right|]. injection Hc as <-. destruct Hb as [->|]; [left; by left|by right].
Qed.

Lemma nearest_fold_keep l z : (forall y, y ∈ l -> y ∈ r) -> Forall (fun y => Z.abs (timestamp x - timestamp z) < Z.abs (timestamp x - timestamp y)) l ->
  fold_left (nearer allow_eq x) l (Some z) = Some z.
Proof.
  induction l as [|y l IH]; intros Hl Hf; [done|]. apply Forall_cons in Hf as [Hy Hf]. cbn [fold_left]. rewrite nearer_admits by (apply Hl; by left).
  destruct (Z.leb_spec (Z.abs (timestamp x - timestamp y)) (Z.abs (timestamp x - timestamp z))); [lia|]. apply IH; [|done]. intros; apply Hl; by right.
Qed.

Lemma nearest_found st : nearest_inv st x -> rest_farther st x -> best_bound st ≫= (r !!.) = fold_left (nearer allow_eq x) r None.
Proof.
  intros (Hle & Hb & Hi) Hf. destruct (scan_offset st) as [|k] eqn:Ek; cbn [previous] in Hb; rewrite Hb.
  - destruct (r !! 0%nat) as [y|] eqn:E0; [destruct (Hf 0%nat y) as (b & z & Hb' & _); [lia|done|congruence]|].
    apply lookup_ge_None in E0. by rewrite (nil_length_inv r) by lia.
  - destruct (lookup_lt_is_Some_2 r k) as [z Hz]; [lia|]. cbn. rewrite Hz. symmetry.
    assert (forall y, y ∈ take k r -> y ∈ r) as Hpre by (intros y Hy; rewrite <- (take_drop k r); apply elem_of_app; by left).
    assert (forall y, y ∈ drop (S k) r -> y ∈ r) as Hpost by (intros y Hy; rewrite <- (take_drop (S k) r); apply elem_of_app; by right).
    rewrite <- (take_drop_middle r k z Hz) at 1. rewrite fold_left_app. cbn [fold_left]. pose proof (nearest_fold_in (take k r) None Hpre) as Hin.
    assert (nearer allow_eq x (fold_left (nearer allow_eq x) (take k r) None) z = Some z) as ->.
    { rewrite nearer_admits by (by eapply list_elem_of_lookup_2). destruct (fold_left _ _ _) as [b|]; [|done]. destruct Hin as [Hin|]; [|done].
      apply list_elem_of_lookup in Hin as [i Hi']. apply lookup_take_Some in Hi' as [Hi' Hik]. specialize (Hi i k b z Hb Hik Hi' Hz). pose proof (sorted_lt _ _ _ _ Hi' Hz Hik).
      destruct (Z.leb_spec (Z.abs (timestamp x - timestamp z)) (Z.abs (timestamp x - timestamp b))); [done|lia]. }
    apply nearest_fold_keep; [done|]. apply Forall_lookup. intros i y Hy. rewrite lookup_drop in Hy.
    destruct (Hf (S k + i)%nat y) as (b & z' & Hb' & Hz' & Hlt); [lia|done|]. assert (b = k) as -> by congruence. assert (z' = z) as -> by congruence.
    pose proof (sorted_lt _ _ _ _ Hz Hy ltac:(lia)). lia.
Qed.

(** The sample at the scan is past [x]. *)
Lemma nearest_stop st y : nearest_inv st x -> r !! scan_offset st = Some y -> timestamp x < timestamp y ->
  let st' := if scan_is_better (fun j => r !! j) st x y then mkAsOfState (Some (scan_offset st)) (S (scan_offset st)) else st in
  nearest_inv st' x /\ rest_farther st' x.
Proof.
  intros (Hle & Hb & Hi) Hy Hlt. unfold scan_is_better. pose proof (lookup_lt_Some _ _ _ Hy) as Hn.
  destruct (scan_offset st) as [|k] eqn:Ek; cbn [previous] in Hb; rewrite Hb.
  - cbn zeta. split; [split_and!; [cbn; lia|done|]|]; cbn; [intros i b ? ? [= <-] Hib; lia|].
    intros i z Hiz Hz. exists 0%nat, y. split_and!; [done..|]. pose proof (sorted_lt _ _ _ _ Hy Hz Hiz). lia.
  - destruct (lookup_lt_is_Some_2 r k) as [z Hz]; [lia|]. rewrite Hz. unfold ts_abs_diff. pose proof (sorted_lt _ _ _ _ Hz Hy ltac:(lia)).
    destruct (Z.leb_spec (Z.abs (timestamp x - timestamp y)) (Z.abs (timestamp x - timestamp z))) as [Hbet|Hbet]; cbn zeta.
    + split; [split_and!; [cbn; lia|done|]|]; cbn.
      * intros i b u v [= <-] Hib Hu Hv. assert (v = y) as -> by congruence. assert (timestamp u <= timestamp z); [|lia].
        destruct (decide (i = k)) as [->|]; [assert (u = z) as -> by congruence; lia|]. pose proof (sorted_lt _ _ _ _ Hu Hz ltac:(lia)). lia.
      * intros i u Hiu Hu. exists (S k), y. split_and!; [done..|]. pose proof (sorted_lt _ _ _ _ Hy Hu Hiu). lia.
    + split; [by split_and!; [lia|rewrite Ek|]|]. intros i u Hiu Hu. rewrite Ek in Hiu. exists k, z. split_and!; [done..|].
      destruct (decide (i = S k)) as [->|]; [assert (u = y) as -> by congruence; lia|]. pose proof (sorted_lt _ _ _ _ Hy Hu ltac:(lia)). lia.
Qed.

Lemma take_equal_none turns st y i : r !! i = Some y -> (i < scan_offset st)%nat -> (turns <= length r - scan_offset st)%nat -> take_equal (fun j => r !! j) allow_eq turns y st = st.
Proof.
  intros Hy Hi Ht. destruct turns as [|turns]; [done|]. cbn [take_equal]. destruct (lookup_lt_is_Some_2 r (scan_offset st)) as [z Hz]; [lia|]. rewrite Hz.
  pose proof (sorted_lt _ _ _ _ Hy Hz Hi). unfold sample_eq. destruct (Z.eqb_spec (timestamp z) (timestamp y)); [lia|done].
Qed.

Lemma nearest_loop_spec turns st : turns = (length r - scan_offset st)%nat -> nearest_inv st x ->
  let '(found, st') := nearest_loop (fun j => r !! j) (length r) allow_eq turns x st in
  found ≫= (r !!.) = fold_left (nearer allow_eq x) r None /\ nearest_inv st' x.
Proof.
  revert st. induction turns as [|turns IH]; intros st Ht Hi; cbn [nearest_loop].
  - split; [|done]. apply nearest_found; [done|]. intros i y Hge Hy. apply lookup_lt_Some in Hy. lia.
  - destruct (lookup_lt_is_Some_2 r (scan_offset st)) as [y Hy]; [lia|]. rewrite Hy, lt_before. destruct (is_before allow_eq x y) eqn:E.
    + apply IH; [cbn; lia|]. destruct Hi as (Hle & Hb & Hi). split_and!; [cbn; lia|done|]. cbn. intros i b u v [= <-] Hib Hu Hv. assert (v = y) as -> by congruence.
      pose proof (sorted_lt _ _ _ _ Hu Hy Hib). unfold is_before in E. destruct allow_eq; lia.
    + assert (timestamp x < timestamp y) as Hlt.
      { unfold is_before in E. destruct Hx as [Ea|Hne]; [rewrite Ea in E; lia|]. specialize (Hne y ltac:(by eapply list_elem_of_lookup_2)). destruct allow_eq; lia. }
      destruct (Z.eqb_spec (timestamp y) (timestamp x)); [lia|]. rewrite andb_false_r. pose proof (nearest_stop st y Hi Hy Hlt) as Hs. cbn zeta in Hs.
      cbn [scan_offset]. rewrite (take_equal_none _ _ y (scan_offset st)) by (done || cbn; lia). split; [apply nearest_found; apply Hs|apply Hs].
Qed.

End Scan.

(** ** As-of joins *)

Section AsOf.

Context `{HUL : UncheckedLaws} (r : list Sample) (allow_eq : bool).
Hypothesis Hr : ts_sorted r.

Definition asof_inv (strategy : AsOfJoinStrategy) (st : AsOfState) (x : Sample) : Prop :=
  match strategy with
  | Backward => backward_inv r allow_eq st x
  | Forward => forward_inv r allow_eq st x
  | Nearest => nearest_inv r st x
  end.

(** The states of a scan over the left side in time order. *)
Lemma asof_inv_later strategy st x x' : timestamp x <= timestamp x' -> asof_inv strategy st x -> asof_inv strategy st x'.
Proof.
  intros Hle. destruct strategy; cbn [asof_inv].
  - intros (H1 & H2 & H3). split_and!; [done|done|]. intros i y Hi Hy. specialize (H3 i y Hi Hy). unfold is_before in *. destruct allow_eq; lia.
  - intros (H1 & H2). split; [done|]. intros i y Hi Hy. specialize (H2 i y Hi Hy). unfold is_after in *. destruct allow_eq; lia.
  - intros (H1 & H2 & H3). split_and!; [done|done|]. intros i b y z Hb Hi Hy Hz. specialize (H3 i b y z Hb Hi Hy Hz). lia.
Qed.

Lemma asof_inv_new strategy x : asof_inv strategy asof_new x.
Proof. destruct strategy; cbn; repeat split; cbn; try lia; done. Qed.

Lemma asof_step strategy st x : asof_inv strategy st x -> (strategy = Nearest -> allow_eq = true \/ forall y, y ∈ r -> timestamp x <> timestamp y) ->
  let '(found, st') := asof_next (fun j => r !! j) (length r) allow_eq strategy st x in
  found ≫= (r !!.) = asof_match strategy allow_eq r x /\ asof_inv strategy st' x.
Proof.
  intros Hi Hx. destruct strategy; cbn [asof_next asof_match asof_inv] in *.
  - unfold backward_next. by apply backward_loop_spec.
  - unfold forward_next. destruct Hi as [Hle Hi]. pose proof (forward_loop_spec r allow_eq x _ (scan_offset st) eq_refl Hle Hi) as Hs. by destruct (forward_loop _ _ _ _ _).
  - unfold nearest_next. apply nearest_loop_spec; [done|by apply Hx|done|done].
Qed.

Lemma asof_fold strategy (filter : Sample -> Sample -> bool) l : ts_sorted l ->
  (strategy = Nearest -> allow_eq = true \/ forall x y, x ∈ l -> y ∈ r -> timestamp x <> timestamp y) ->
  forall out st, bound_ok (length r) st -> match l with x :: _ => asof_inv strategy st x | [] => True end ->
  (fold_left (fun '(out, state) left_val =>
     let '(found, state) := asof_next (fun j => Some (get_unchecked r j)) (length r) allow_eq strategy state left_val in
     match found with
     | Some r_idx => let right_val := get_unchecked r r_idx in (if filter left_val right_val then out ++ [(left_val, right_val)] else out, state)
     | None => (out, state)
     end) l (out, st)).1 =
  out ++ omap (fun x => match asof_match strategy allow_eq r x with Some y => if filter x y then Some (x, y) else None | None => None end) l.
Proof.
  induction 1 as [|x l Hs IH Hx]; intros Hne out st Hok Hi; [by rewrite app_nil_r|]. cbn [fold_left omap list_omap].
  assert (forall j, (j < length r)%nat -> Some (get_unchecked r j) = r !! j) as Hun.
  { intros j Hj. destruct (lookup_lt_is_Some_2 r j Hj) as [y Hy]. rewrite Hy. f_equal. by apply unchecked_inside. }
  destruct (asof_bounds _ (fun j => r !! j) (length r) allow_eq Hun strategy st x Hok) as (-> & Hok' & Hf).
  pose proof (asof_step strategy st x Hi) as Hstep. destruct (asof_next _ _ _ _ _ _) as [found st']. cbn [fst snd] in Hok', Hf.
  destruct Hstep as [Hm Hi']. { intros E. destruct (Hne E) as [|Hd]; [by left|right]. intros y Hy. apply Hd; [by left|done]. }
  assert (match l with x' :: _ => asof_inv strategy st' x' | [] => True end) as Hi''.
  { destruct l as [|x' l]; [done|]. apply Forall_cons in Hx as [Hlt _]. unfold ts_lt in Hlt. by apply (asof_inv_later _ _ x); [lia|]. }
  assert (strategy = Nearest -> allow_eq = true \/ forall x y, x ∈ l -> y ∈ r -> timestamp x <> timestamp y) as Hne'.
  { intros E. destruct (Hne E) as [|Hd]; [by left|right]. intros ? ? ?. apply Hd. by right. }
  destruct found as [k|]; cbn in Hm; rewrite <- Hm; [|by apply IH]. rewrite <- (Hun k Hf). cbn zeta.
  destruct (filter x (get_unchecked r k)); rewrite (IH Hne' _ st' Hok' Hi''); [by rewrite <- app_assoc|done].
Qed.

Lemma join_asof_impl_spec strategy filter l : ts_sorted l ->
  (strategy = Nearest -> allow_eq = true \/ forall x y, x ∈ l -> y ∈ r -> timestamp x <> timestamp y) ->
  join_asof_impl strategy filter allow_eq l r =
  omap (fun x => match asof_match strategy allow_eq r x with Some y => if filter x y then Some (x, y) else None | None => None end) l.
Proof.
  intros Hl Hne. apply (asof_fold strategy filter l Hl Hne [] asof_new); [done|]. destruct l; [done|apply asof_inv_new].
Qed.

Lemma join_asof_samples_spec l strategy tolerance : ts_sorted l ->
  (strategy = Nearest -> allow_eq = true \/ forall x y, x ∈ l -> y ∈ r -> timestamp x <> timestamp y) ->
  join_asof_samples l r strategy tolerance allow_eq =
  omap (fun x => match asof_match strategy allow_eq r x with
                 | Some y => if match tolerance with Some t => Z.abs (timestamp x - timestamp y) <=? Z.abs t | None => true end then Some (x, y) else None
                 | None => None end) l.
Proof.
  intros Hl Hne. unfold join_asof_samples. destruct tolerance; by rewrite join_asof_impl_spec.
Qed.

End AsOf.

(** ** All joins *)

Section Rows.

Context `{HUL : UncheckedLaws} `{HML : MergeJoinLaws}.

Lemma join_rows_spec l r t : ts_sorted l -> ts_sorted r -> join_exact l r t -> create_join_iter l r t = join_rows l r t.
Proof.
  intros Hl Hr He. destruct t as [| | | | | |o]; cbn [join_rows].
  - by apply join_left_spec.
  - by apply join_right_spec.
  - by apply join_inner_spec.
  - by apply join_full_spec.
  - cbn [create_join_iter]. by rewrite join_semi_spec.
  - by apply join_anti_spec.
  - cbn [create_join_iter join_exact] in *. unfold join_asof_iter. rewrite join_asof_samples_spec by done. clear. induction l as [|x l IH]; [done|].
    cbn [omap list_omap]. unfold asof_row in *. destruct (asof_match _ _ _ _) as [y|]; [|done]. destruct (ao_tolerance o); [destruct (_ <=? _)|]; cbn [map]; by rewrite ?IH.
Qed.

End Rows.
