(* ===== verification/JoinProps.v ===== *)
(** * JoinProps: the properties of joins

    A join of two series is the relation its type names, between the samples of the two
    sides that the window, the retention and the filters leave; the command fails only
    as its checks say; an as-of join does not depend on what lies outside its slices.
    Two witnesses record where the code departs from its documentation. *)

From stdpp Require Import list sorting strings.
From S2P Require Import Prelude Float64 Types Content ChunkOps Elf64 Log10Ref TimeSeriesChunk TimeSeries SeriesLaws SeriesReads SeriesWrites.
From S2P Require Import SeriesProps Aggregators AggregateIterator AggregateLaws AggregateProps TimestampRange RangeLaws FilteredReads MRange Querier Join JoinLaws.

Local Open Scope Z_scope.

(** ** Instances *)

(** A merge of two lists by their heads. *)
Definition list_merge_join : MergeJoin := fun cmp =>
  fix go (l : list Sample) : list Sample -> list EitherOrBoth :=
    fix go_right (r : list Sample) : list EitherOrBoth :=
      match l, r with
      | [], _ => map RightOnly r
      | _, [] => map LeftOnly l
      | a :: l', b :: r' =>
          match cmp a b with
          | Lt => LeftOnly a :: go l' r
          | Eq => Both a b :: go l' r'
          | Gt => RightOnly b :: go_right r'
          end
      end.

Lemma list_merge_join_laws : @MergeJoinLaws list_merge_join.
Proof. split; [intros cmp r; by destruct r|intros cmp l; by destruct l|done]. Qed.

(** A read outside the slice finds [other]. *)
Definition list_unchecked (other : Sample) : Unchecked := fun l i => default other (l !! i).

Lemma list_unchecked_laws other : @UncheckedLaws (list_unchecked other).
Proof. intros l i x Hx. unfold get_unchecked, list_unchecked. by rewrite Hx. Qed.

(** ** The relation of a join *)

(** The time of a row: that of its left side, or of the right one alone. *)
Definition row_time (v : JoinValue) : Timestamp := match v with Both l _ => timestamp l | LeftOnly l => timestamp l | RightOnly r => timestamp r end.

(** [y] is the sample an as-of join pairs with [x]: it is on the side asked for, and
    every other such sample is farther; of two at the same distance, the later. *)
Definition allowed (strategy : AsOfJoinStrategy) (allow_eq : bool) (x y : Sample) : Prop :=
  (allow_eq = false -> timestamp y <> timestamp x) /\
  match strategy with Backward => timestamp y <= timestamp x | Forward => timestamp x <= timestamp y | Nearest => True end.

Definition asof_best (strategy : AsOfJoinStrategy) (allow_eq : bool) (r : list Sample) (x y : Sample) : Prop :=
  y ∈ r /\ allowed strategy allow_eq x y /\ forall z, z ∈ r -> allowed strategy allow_eq x z -> z <> y ->
    Z.abs (timestamp x - timestamp y) < Z.abs (timestamp x - timestamp z) \/ Z.abs (timestamp x - timestamp y) = Z.abs (timestamp x - timestamp z) /\ timestamp z < timestamp y.

Definition within (tolerance : option Z) (x y : Sample) : Prop := match tolerance with Some t => Z.abs (timestamp x - timestamp y) <= Z.abs (wrap_i64 (t / 1000000)) | None => True end.

(** The rows of a join, as a relation. *)
Definition joined (l r : list Sample) (t : JoinType) (v : JoinValue) : Prop :=
  match t, v with
  | JtAsOf o, Both x y => x ∈ l /\ asof_best (ao_strategy o) (allow_exact_match o) r x y /\ within (ao_tolerance o) x y
  | JtSemi, LeftOnly x => x ∈ l /\ exists y, y ∈ r /\ timestamp y = timestamp x
  | (JtInner | JtLeft | JtRight | JtFull), Both x y => x ∈ l /\ y ∈ r /\ timestamp x = timestamp y
  | (JtLeft | JtFull | JtAnti), LeftOnly x => x ∈ l /\ forall y, y ∈ r -> timestamp y <> timestamp x
  | (JtRight | JtFull), RightOnly y => y ∈ r /\ forall x, x ∈ l -> timestamp x <> timestamp y
  | _, _ => False
  end.

Lemma lookup_elem u r y : ts_sorted r -> lookup_ts u r = Some y <-> y ∈ r /\ timestamp y = u.
Proof. intros Hr. split; [apply lookup_ts_Some|]. intros [Hy <-]. by apply lookup_ts_elem. Qed.

Lemma lookup_none u r : lookup_ts u r = None <-> forall y, y ∈ r -> timestamp y <> u.
Proof.
  split.
  - intros E y Hy Et. assert (is_Some (lookup_ts u r)) as [? ?] by (apply lookup_is_Some; eauto). congruence.
  - intros Hn. destruct (lookup_ts u r) as [y|] eqn:E; [|done]. apply lookup_ts_Some in E as [Hy Et]. by destruct (Hn y Hy).
Qed.

Lemma left_row_elem l r v : ts_sorted r -> v ∈ map (left_row r) l <->
  match v with Both x y => x ∈ l /\ y ∈ r /\ timestamp x = timestamp y | LeftOnly x => x ∈ l /\ forall y, y ∈ r -> timestamp y <> timestamp x | RightOnly _ => False end.
Proof.
  intros Hr. rewrite list_elem_of_In, in_map_iff. unfold left_row. split.
  - intros (x & <- & Hin%list_elem_of_In). destruct (lookup_ts (timestamp x) r) as [y|] eqn:E; [by apply lookup_elem in E as [? ?]|exact (conj Hin (proj1 (lookup_none _ _) E))].
  - destruct v as [x y|x|y]; [intros (Hx & Hy & E)|intros (Hx & Hn)|done]; exists x; (split; [|by apply list_elem_of_In]).
    + by rewrite (proj2 (lookup_elem (timestamp x) r y Hr)).
    + by rewrite (proj2 (lookup_none (timestamp x) r)).
Qed.

Lemma right_row_elem l r v : ts_sorted l -> v ∈ map (right_row l) r <->
  match v with Both x y => x ∈ l /\ y ∈ r /\ timestamp x = timestamp y | RightOnly y => y ∈ r /\ forall x, x ∈ l -> timestamp x <> timestamp y | LeftOnly _ => False end.
Proof.
  intros Hl. rewrite list_elem_of_In, in_map_iff. unfold right_row. split.
  - intros (y & <- & Hin%list_elem_of_In). destruct (lookup_ts (timestamp y) l) as [x|] eqn:E; [by apply lookup_elem in E as [? ?]|exact (conj Hin (proj1 (lookup_none _ _) E))].
  - destruct v as [x y|x|y]; [intros (Hx & Hy & E)|done|intros (Hy & Hn)]; exists y; (split; [|by apply list_elem_of_In]).
    + by rewrite (proj2 (lookup_elem (timestamp y) l x Hl)).
    + by rewrite (proj2 (lookup_none (timestamp y) l)).
Qed.

Lemma unmatched_true r x : unmatched r x = true <-> forall y, y ∈ r -> timestamp y <> timestamp x.
Proof. rewrite <- lookup_none. unfold unmatched. by destruct (lookup_ts _ r). Qed.

Lemma unmatched_false r x : negb (unmatched r x) = true <-> exists y, y ∈ r /\ timestamp y = timestamp x.
Proof.
  rewrite <- lookup_is_Some. unfold unmatched. destruct (lookup_ts (timestamp x) r) as [y|]; [split; eauto|]. split; [done|]. by intros [? ?].
Qed.

Lemma left_only_elem (P : Sample -> bool) l v : v ∈ map LeftOnly (List.filter P l) <-> match v with LeftOnly x => x ∈ l /\ P x = true | _ => False end.
Proof.
  rewrite list_elem_of_In, in_map_iff. split.
  - intros (x & <- & [Hx Hp]%filter_In). split; [by apply list_elem_of_In|done].
  - destruct v as [|x|]; [done| |done]. intros [Hx Hp]. exists x. split; [done|]. apply filter_In. split; [by apply list_elem_of_In|done].
Qed.

(** *** The best sample *)

Lemma filter_elem {A} (P : A -> bool) (l : list A) x : x ∈ List.filter P l <-> x ∈ l /\ P x = true.
Proof. by rewrite !list_elem_of_In, filter_In. Qed.

Lemma last_latest r y : ts_sorted r -> list.last r = Some y -> y ∈ r /\ forall z, z ∈ r -> z <> y -> timestamp z < timestamp y.
Proof.
  intros Hr E. apply last_Some in E as [r' ->]. split; [apply elem_of_app; right; by left|]. intros z [Hz| ->%list_elem_of_singleton]%elem_of_app Hne; [|done].
  apply ts_sorted_app in Hr as (_ & _ & Hb). rewrite Forall_forall in Hb. specialize (Hb z Hz). by apply Forall_cons in Hb as [? _].
Qed.

Lemma head_least r y : ts_sorted r -> head r = Some y -> y ∈ r /\ forall z, z ∈ r -> z <> y -> timestamp y < timestamp z.
Proof.
  intros Hr. destruct Hr as [|x r Hs Hx]; [done|]. intros [= ->]. split; [by left|]. intros z [->|Hz]%elem_of_cons Hne; [done|]. rewrite Forall_forall in Hx. by apply Hx.
Qed.

Lemma last_None_all {A} (P : A -> bool) (l : list A) : list.last (List.filter P l) = None -> forall z, z ∈ l -> P z = false.
Proof. intros E%last_None z Hz. destruct (P z) eqn:Ez; [|done]. assert (z ∈ List.filter P l) as Hin by (by apply filter_elem). rewrite E in Hin. by apply elem_of_nil in Hin. Qed.

Lemma head_None_all {A} (P : A -> bool) (l : list A) : head (List.filter P l) = None -> forall z, z ∈ l -> P z = false.
Proof. intros E%head_None z Hz. destruct (P z) eqn:Ez; [|done]. assert (z ∈ List.filter P l) as Hin by (by apply filter_elem). rewrite E in Hin. by apply elem_of_nil in Hin. Qed.

Lemma before_allowed allow_eq x y : is_before allow_eq x y = true <-> allowed Backward allow_eq x y.
Proof. unfold is_before, allowed. destruct allow_eq; split; intros; try split; intros; lia. Qed.

Lemma after_allowed allow_eq x y : is_after allow_eq x y = true <-> allowed Forward allow_eq x y.
Proof. unfold is_after, allowed. destruct allow_eq; split; intros; try split; intros; lia. Qed.

Lemma nearest_best allow_eq x r : ts_sorted r ->
  match fold_left (nearer allow_eq x) r None with Some y => asof_best Nearest allow_eq r x y | None => forall z, z ∈ r -> ~ allowed Nearest allow_eq x z end.
Proof.
  induction r as [|z r IH] using rev_ind; intros Hr; [intros z Hz; by apply elem_of_nil in Hz|]. apply ts_sorted_app in Hr as (Hr & _ & Hlt). specialize (IH Hr).
  assert (forall y, y ∈ r -> timestamp y < timestamp z) as Hz by (intros y Hy; rewrite Forall_forall in Hlt; specialize (Hlt y Hy); by apply Forall_cons in Hlt as [? _]).
  rewrite fold_left_app. cbn [fold_left]. unfold nearer at 1. destruct (negb allow_eq && (timestamp z =? timestamp x)) eqn:Ex.
  - assert (~ allowed Nearest allow_eq x z) as Hno by (unfold allowed; intros [Hne _]; destruct allow_eq; [done|cbn in Ex; specialize (Hne eq_refl); lia]).
    destruct (fold_left _ r _) as [b|].
    + destruct IH as (Hb & Ha & Hm). split; [apply elem_of_app; by left|]. split; [done|]. intros w [Hw| ->%list_elem_of_singleton]%elem_of_app; [by apply Hm|done].
    + intros w [Hw| ->%list_elem_of_singleton]%elem_of_app; [by apply IH|done].
  - assert (allowed Nearest allow_eq x z) as Haz by (unfold allowed; split; [|done]; intros ->; cbn in Ex; lia).
    destruct (fold_left _ r _) as [b|].
    + destruct IH as (Hb & Ha & Hm). specialize (Hz b Hb) as Hbz.
      destruct (Z.leb_spec (Z.abs (timestamp x - timestamp z)) (Z.abs (timestamp x - timestamp b))) as [Hle|Hgt].
      * split; [apply elem_of_app; right; by left|]. split; [done|]. intros w [Hw| ->%list_elem_of_singleton]%elem_of_app Haw Hne; [|done].
        destruct (decide (w = b)) as [->|Hwb]; [lia|]. specialize (Hm w Hw Haw Hwb). lia.
      * split; [apply elem_of_app; by left|]. split; [done|]. intros w [Hw| ->%list_elem_of_singleton]%elem_of_app Haw Hne; [by apply Hm|]. lia.
    + split; [apply elem_of_app; right; by left|]. split; [done|]. intros w [Hw| ->%list_elem_of_singleton]%elem_of_app Haw Hne; [by destruct (IH w Hw)|done].
Qed.

(** The match of a sample is the best one, if one is allowed. *)
Lemma asof_match_best strategy allow_eq r x : ts_sorted r ->
  match asof_match strategy allow_eq r x with Some y => asof_best strategy allow_eq r x y | None => forall z, z ∈ r -> ~ allowed strategy allow_eq x z end.
Proof.
  intros Hr. destruct strategy; cbn [asof_match]; [..|by apply nearest_best].
  - destruct (list.last _) as [y|] eqn:E.
    + apply last_latest in E as [[Hy Hb]%filter_elem Hm]; [|by apply ts_sorted_filter]. apply before_allowed in Hb. split; [done|]. split; [done|]. intros z Hz Ha Hne.
      assert (timestamp z < timestamp y) by (apply Hm; [apply filter_elem; split; [done|by apply before_allowed]|done]). destruct Ha as [_ Ha], Hb as [_ Hb]. lia.
    + intros z Hz Ha%before_allowed. by rewrite (last_None_all _ _ E z Hz) in Ha.
  - destruct (head _) as [y|] eqn:E.
    + apply head_least in E as [[Hy Hb]%filter_elem Hm]; [|by apply ts_sorted_filter]. apply after_allowed in Hb. split; [done|]. split; [done|]. intros z Hz Ha Hne.
      assert (timestamp y < timestamp z) by (apply Hm; [apply filter_elem; split; [done|by apply after_allowed]|done]). destruct Ha as [_ Ha], Hb as [_ Hb]. lia.
    + intros z Hz Ha%after_allowed. by rewrite (head_None_all _ _ E z Hz) in Ha.
Qed.

Lemma asof_best_unique strategy allow_eq r x y z : asof_best strategy allow_eq r x y -> asof_best strategy allow_eq r x z -> y = z.
Proof.
  intros (Hy & Ay & My) (Hz & Az & Mz). destruct (decide (y = z)) as [|Hne]; [done|]. specialize (My z Hz Az ltac:(congruence)). specialize (Mz y Hy Ay Hne). lia.
Qed.

Lemma asof_row_elem o l r v : ts_sorted r -> v ∈ omap (asof_row o r) l <-> joined l r (JtAsOf o) v.
Proof.
  intros Hr. rewrite list_elem_of_omap. unfold asof_row. split.
  - intros (x & Hx & E). pose proof (asof_match_best (ao_strategy o) (allow_exact_match o) r x Hr) as Hb. destruct (asof_match _ _ _ _) as [y|]; [|done].
    cbn. destruct (match ao_tolerance o with Some _ => _ | None => _ end) eqn:Et; [|done]. injection E as <-. split; [done|]. split; [done|]. unfold within. destruct (ao_tolerance o); [lia|done].
  - destruct v as [x y| |]; cbn [joined]; [|done|done]. intros (Hx & Hb & Hw). exists x. split; [done|]. pose proof (asof_match_best (ao_strategy o) (allow_exact_match o) r x Hr) as Hm.
    destruct (asof_match _ _ _ _) as [z|]; [|by destruct Hb as (Hy & Ha & _); destruct (Hm y Hy)]. rewrite (asof_best_unique _ _ _ _ _ _ Hm Hb).
    unfold within in Hw. destruct (ao_tolerance o); [|done]. by rewrite (proj2 (Z.leb_le _ _) Hw).
Qed.

(** *** The order of the rows *)

Lemma omap_times (g : Sample -> option JoinValue) l : ts_sorted l -> (forall x v, g x = Some v -> row_time v = timestamp x) -> key_increasing row_time (omap g l).
Proof.
  intros Hs Hg. induction Hs as [|x l Hs IH Hx]; [constructor|]. cbn [omap list_omap]. destruct (g x) as [v|] eqn:E; [|done]. constructor; [done|].
  apply Forall_forall. intros w (y & Hy & Ew)%list_elem_of_omap. rewrite (Hg _ _ E), (Hg _ _ Ew). rewrite Forall_forall in Hx. by apply Hx.
Qed.

Lemma map_times (g : Sample -> JoinValue) l : ts_sorted l -> (forall x, row_time (g x) = timestamp x) -> key_increasing row_time (map g l).
Proof.
  intros Hs Hg. induction Hs as [|x l Hs IH Hx]; [constructor|]. cbn [map]. constructor; [done|]. apply Forall_map. eapply Forall_impl; [exact Hx|]. intros y Hy. by rewrite !Hg.
Qed.

Lemma increasing_key {A} (f g : A -> Z) l : Forall (fun v => f v = g v) l -> key_increasing f l -> key_increasing g l.
Proof.
  intros He Hs. induction Hs as [|v l Hs IH Hv]; [constructor|]. apply Forall_cons in He as [Ev He]. constructor; [by apply IH|]. rewrite Forall_forall in Hv, He |- *.
  intros w Hw. rewrite <- Ev, <- (He w Hw). by apply Hv.
Qed.

Lemma asof_row_time o r x v : asof_row o r x = Some v -> row_time v = timestamp x.
Proof. unfold asof_row. destruct (asof_match _ _ _ _) as [y|]; [|done]. destruct (_ : bool); [|done]. by intros [= <-]. Qed.

Lemma left_row_time r x : row_time (left_row r x) = timestamp x.
Proof. unfold left_row. by destruct (lookup_ts _ r). Qed.

Lemma right_row_time l y : row_time (right_row l y) = timestamp y.
Proof. unfold right_row. destruct (lookup_ts _ l) as [x|] eqn:E; [|done]. by apply lookup_ts_Some in E as [_ E]. Qed.

Lemma full_rows_elem l r v : ts_sorted r -> v ∈ join_rows l r JtFull <-> joined l r JtFull v.
Proof.
  intros Hr. cbn [join_rows]. rewrite (sort_by_key_perm sortable_timestamp), elem_of_app, left_row_elem by done.
  assert (v ∈ map RightOnly (List.filter (unmatched l) r) <-> match v with RightOnly y => y ∈ r /\ unmatched l y = true | _ => False end) as ->.
  { rewrite list_elem_of_In, in_map_iff. split; [intros (y & <- & [Hy Hu]%list_elem_of_In%filter_elem); done|]. destruct v as [| |y]; [done|done|]. intros Hy. exists y. split; [done|]. by apply list_elem_of_In, filter_elem. }
  destruct v as [x y|x|y]; cbn [joined]; [tauto|tauto|]. rewrite unmatched_true. tauto.
Qed.

(** Every join gives its rows in increasing order of time. *)
Lemma rows_increasing l r t : ts_sorted l -> ts_sorted r -> key_increasing row_time (join_rows l r t).
Proof.
  intros Hl Hr. destruct t as [| | | | | |o]; cbn [join_rows].
  - apply map_times; [done|]. apply left_row_time.
  - apply map_times; [done|]. apply right_row_time.
  - apply omap_times; [done|]. intros x v. destruct (lookup_ts _ r); [|done]. by intros [= <-].
  - fold (join_rows l r JtFull). apply (increasing_key sortable_timestamp).
    + apply Forall_forall. intros [x y|x|y]; rewrite full_rows_elem by done; [|done|done]. cbn. intros (_ & _ & ->). lia.
    + cbn [join_rows]. rewrite <- (@join_full_spec (list_unchecked (mkSample 0 0)) list_merge_join list_merge_join_laws l r Hl Hr). by apply (@merge_increasing list_merge_join list_merge_join_laws).
  - apply map_times; [by apply ts_sorted_filter|done].
  - apply map_times; [by apply ts_sorted_filter|done].
  - apply omap_times; [done|]. intros x v. apply asof_row_time.
Qed.

(** C30. A join of two lists in time order has exactly the rows of its relation, in
    increasing order of time.  A positional join pairs the samples that share a
    timestamp and keeps the unpaired ones its type keeps; a semi join keeps the left
    samples that have a partner (the documentation of TS.JOIN says those that have
    none) and an anti join those that have none; an as-of join pairs a left sample
    with the nearest right sample on the side asked for, the later one of two at the
    same distance, if it is within the tolerance.  For the nearest sample on either
    side with exact matches excluded, the lists share no timestamp; otherwise an
    excluded match can be returned ([nearest_returns_excluded]). *)
Theorem join_relation_exact `{Unchecked} `{!UncheckedLaws} `{MergeJoin} `{!MergeJoinLaws} (l r : list Sample) (t : JoinType) :
  ts_sorted l -> ts_sorted r -> join_exact l r t ->
  (forall v, v ∈ create_join_iter l r t <-> joined l r t v) /\ StronglySorted (fun v w => row_time v < row_time w) (create_join_iter l r t).
Proof.
  intros Hl Hr He. rewrite (join_rows_spec l r t Hl Hr He). split; [|by apply rows_increasing]. intros v.
  destruct t as [| | | | | |o]; [..|by apply asof_row_elem].
  - cbn [join_rows]. rewrite left_row_elem by done. by destruct v.
  - cbn [join_rows]. rewrite right_row_elem by done. by destruct v.
  - cbn [join_rows]. rewrite list_elem_of_omap. split.
    + intros (x & Hx & E). destruct (lookup_ts (timestamp x) r) as [y|] eqn:El; [|done]. injection E as <-. by apply lookup_elem in El as [? ?].
    + destruct v as [x y| |]; [|done|done]. intros (Hx & Hy & E). exists x. split; [done|]. by rewrite (proj2 (lookup_elem (timestamp x) r y Hr)).
  - by apply full_rows_elem.
  - cbn [join_rows]. rewrite left_only_elem. destruct v as [|x|]; [done| |done]. cbn [joined]. by rewrite unmatched_false.
  - cbn [join_rows]. rewrite left_only_elem. destruct v as [|x|]; [done| |done]. cbn [joined]. by rewrite unmatched_true.
Qed.

(** ** The values of the rows *)

Definition reduced (f : f64 -> f64 -> f64) (v : JoinValue) : Sample := transform_join_value_to_sample v f.

Lemma reduced_time f v : timestamp (reduced f v) = row_time v.
Proof. by destruct v. Qed.

Lemma rows_ordered l r t f : ts_sorted l -> ts_sorted r -> time_ordered (map (reduced f) (join_rows l r t)).
Proof.
  intros Hl Hr. pose proof (rows_increasing l r t Hl Hr) as Hs. induction Hs as [|v vs Hs IH Hv]; cbn [map]; constructor; [done|].
  apply Forall_map. eapply Forall_impl; [exact Hv|]. intros w Hw. cbn beta in Hw |- *. rewrite !reduced_time. lia.
Qed.

Lemma rows_near l r t f (Q : Z -> Prop) : Forall (fun x => Q (timestamp x)) l -> Forall (fun x => Q (timestamp x)) r -> Forall (fun s => Q (timestamp s)) (map (reduced f) (join_rows l r t)).
Proof.
  intros Hl Hr. apply Forall_map, (Forall_impl (fun v => Q (row_time v))); [|intros v; by rewrite reduced_time].
  assert (forall g, (forall x v, g x = Some v -> row_time v = timestamp x) -> Forall (fun v => Q (row_time v)) (omap g l)) as Ho.
  { intros g Hg. apply Forall_forall. intros v (x & Hx & Ev)%list_elem_of_omap. rewrite (Hg _ _ Ev). rewrite Forall_forall in Hl. by apply Hl. }
  assert (Forall (fun v => Q (row_time v)) (map (left_row r) l)) as Hleft by (apply Forall_map; eapply Forall_impl; [exact Hl|]; intros x Hx; cbn beta; by rewrite left_row_time).
  destruct t as [| | | | | |o]; cbn [join_rows]; [done|..].
  - apply Forall_map. eapply Forall_impl; [exact Hr|]. intros y Hy. by rewrite right_row_time.
  - apply Ho. intros x v. destruct (lookup_ts _ r); [|done]. by intros [= <-].
  - rewrite (sort_by_key_perm sortable_timestamp). apply Forall_app. split; [done|]. by apply Forall_map, Forall_list_filter.
  - by apply Forall_map, Forall_list_filter.
  - by apply Forall_map, Forall_list_filter.
  - apply Ho. intros x v. apply asof_row_time.
Qed.

(** ** Joins of two series *)

Section Series.

Context `{HU : UncheckedLaws} `{HM : MergeJoinLaws} `{HP : Powf} `{HL : Elf64.Log10} `{HC : ServerConfig}.

(** What a join reads of a series that holds [l]. *)
Definition join_side (t : TimeSeries) (o : JoinOptions) (clock : Timestamp * Timestamp) (l : list Sample) : list Sample :=
  let w := get_series_range (jo_date_range o) t None true clock in
  filtered (jo_timestamp_filter o) (jo_value_filter o) (select w.1 w.2 (visible t l)).

Definition join_align (o : JoinOptions) (agg : AggregationOptions) (clock : Timestamp * Timestamp) : Timestamp :=
  let w := get_timestamps (jo_date_range o) None clock in get_aligned_timestamp (alignment agg) w.1 w.2.

(** The values of the rows: those of the reducer, or of the left side. *)
Definition joined_values (o : JoinOptions) (rows : list JoinValue) : list Sample :=
  map (reduced (match jo_reducer o with Some op => get_handler op | None => fun l _ => l end)) rows.

(** Aggregated rows have one value: a reducer made it, or there is one side only. *)
Definition single_valued (o : JoinOptions) : bool := match jo_reducer o with Some _ => true | None => is_semi_or_anti (join_type o) && match jo_aggregation o with Some _ => true | None => false end end.

Definition join_answer (o : JoinOptions) (clock : Timestamp * Timestamp) (l r : list Sample) : JoinResultType :=
  let rows := join_rows l r (join_type o) in
  if single_valued o then
    JoinSamples (take_count (jo_count o)
      (match jo_aggregation o with
       | Some agg => map single_value (query_rows agg (join_align o agg clock) no_fill (joined_values o rows))
       | None => joined_values o rows
       end))
  else JoinValues (take_count (jo_count o) rows).

(** Two series a join reads: each represents a list, and an aggregation has a grid for
    their timestamps and fuel for its rows. *)
Record joinable (fuel : nat) (t1 t2 : TimeSeries) (o : JoinOptions) (clocks : JoinClocks) (P : TimeSeriesChunk -> Prop) (l1 l2 : list Sample) : Prop := {
  jn_left : stores P t1 l1;
  jn_right : stores P t2 l2;
  jn_memory : fits_memory l1 /\ fits_memory l2;
  jn_rows : forall agg, jo_aggregation o = Some agg ->
    grid_ok (bucket_duration agg) (join_align o agg (align_clock clocks)) /\ (report_empty agg = true -> 2 <= bucket_duration agg) /\
    Forall (fun x => near (timestamp x)) l1 /\ Forall (fun x => near (timestamp x)) l2 /\
    (length (query_rows agg (join_align o agg (align_clock clocks)) no_fill
      (joined_values o (join_rows (join_side t1 o (left_clock clocks) l1) (join_side t2 o (right_clock clocks) l2) (join_type o)))) < fuel)%nat;
}.

Lemma filtered_sorted tf vf l : ts_sorted l -> ts_sorted (filtered tf vf l).
Proof. intros Hl. unfold filtered. destruct tf, vf; by repeat apply ts_sorted_filter. Qed.

Lemma filtered_forall Q tf vf l : Forall Q l -> Forall Q (filtered tf vf l).
Proof. intros Hl. unfold filtered. destruct tf, vf; by repeat apply Forall_list_filter. Qed.

Lemma join_side_sorted {P} t o clock l : stores P t l -> ts_sorted (join_side t o clock l).
Proof. intros (ls & Hr & <-). destruct (visible_sorted t ls Hr) as [Hs _]. by apply filtered_sorted, ts_sorted_filter. Qed.

Lemma join_side_forall Q t o clock l : Forall Q l -> Forall Q (join_side t o clock l).
Proof. intros Hq. by apply filtered_forall, Forall_list_filter, Forall_list_filter. Qed.

Lemma fetch_samples_spec {P} into_values t o clock l : stores P t l -> fits_memory l -> (forall m, into_values m ≡ₚ m) -> fetch_samples into_values t o clock = join_side t o clock l.
Proof.
  intros (ls & Hr & <-) Hm Hv. unfold fetch_samples, join_side. destruct (get_series_range _ _ _ _ _) as [s e]. by apply (get_range_filtered_spec into_values t ls s e _ _ Hr Hm Hv).
Qed.

Lemma aggregate_spec fuel agg align ss : query_ok agg align no_fill ss -> (length (query_rows agg align no_fill ss) < fuel)%nat ->
  aggregate fuel agg align ss = map single_value (query_rows agg align no_fill ss).
Proof. intros Hq Hf. unfold aggregate, multi_aggregate_new. by rewrite collect_query. Qed.

(** C29. A join of two series returns the relation of its type between what the
    window, the retention and the filters leave of the two: rows in time order,
    reduced by the operator and aggregated on the grid where that is asked for, and
    the first COUNT of them.  A reducer over a semi or an anti join is refused.  For
    the nearest sample with exact matches excluded, the sides may share no timestamp
    ([nearest_returns_excluded]), and empty buckets are only reported for buckets of
    at least 2 ms.  The relation and the operators are those of the code where the
    documentation of TS.JOIN differs: a semi join keeps the left samples that have a
    partner, and a comparison gives the left value or NaN
    ([reducers_differ_from_table]). *)
Theorem join_series_exact (fuel : nat) (into_values : list ChunkMeta -> list ChunkMeta) (t1 t2 : TimeSeries) (o : JoinOptions) (clocks : JoinClocks)
    (P : TimeSeriesChunk -> Prop) (l1 l2 : list Sample) :
  joinable fuel t1 t2 o clocks P l1 l2 -> (forall m, into_values m ≡ₚ m) ->
  join_exact (join_side t1 o (left_clock clocks) l1) (join_side t2 o (right_clock clocks) l2) (join_type o) ->
  process_join fuel into_values t1 t2 o clocks =
  if bool_decide (is_Some (jo_reducer o)) && is_semi_or_anti (join_type o) then Err ReducerNotAllowed
  else Ok (join_answer o (align_clock clocks) (join_side t1 o (left_clock clocks) l1) (join_side t2 o (right_clock clocks) l2)).
Proof.
  intros [H1 H2 [Hm1 Hm2] Hagg] Hv He. unfold process_join. rewrite (fetch_samples_spec into_values t1 o _ l1 H1 Hm1 Hv), (fetch_samples_spec into_values t2 o _ l2 H2 Hm2 Hv).
  pose proof (join_side_sorted t1 o (left_clock clocks) l1 H1) as Hs1. pose proof (join_side_sorted t2 o (right_clock clocks) l2 H2) as Hs2.
  set (L := join_side t1 _ _ _) in *. set (R := join_side t2 _ _ _) in *. unfold join_internal, join_answer, single_valued. rewrite (join_rows_spec L R _ Hs1 Hs2 He).
  assert (forall agg, jo_aggregation o = Some agg -> aggregate fuel agg (join_align o agg (align_clock clocks)) (joined_values o (join_rows L R (join_type o))) =
    map single_value (query_rows agg (join_align o agg (align_clock clocks)) no_fill (joined_values o (join_rows L R (join_type o))))) as Hag.
  { intros agg Ea. destruct (Hagg agg Ea) as (Hg & Hw & Hn1 & Hn2 & Hf). apply aggregate_spec; [|done]. split; [done|done|done|by apply rows_ordered|].
    by apply rows_near; apply join_side_forall. }
  unfold join_align, joined_values in *. destruct (jo_reducer o) as [op|]; cbn [bool_decide].
  - destruct (is_semi_or_anti (join_type o)); cbn [andb]; [done|]. destruct (jo_aggregation o) as [agg|]; [|done]. specialize (Hag agg eq_refl).
    destruct (get_timestamps _ _ _) as [s e]. cbn [fst snd] in Hag |- *. unfold reduced in Hag |- *. by rewrite <- Hag.
  - cbn [andb]. destruct (is_semi_or_anti (join_type o)); cbn [andb]; [|done]. destruct (jo_aggregation o) as [agg|]; [|done]. specialize (Hag agg eq_refl).
    destruct (get_timestamps _ _ _) as [s e]. cbn [fst snd] in Hag |- *. unfold reduced in Hag |- *. by rewrite <- Hag.
Qed.

End Series.

(** ** TS.JOIN *)

Section Command.

Context `{Unchecked} `{MergeJoin} `{Powf} `{Elf64.Log10}.

(** What the parser accepts the join accepts. *)
Lemma parsed_accepted args o0 o : parse_join_args args o0 = Ok o -> bool_decide (is_Some (jo_reducer o)) && is_semi_or_anti (join_type o) = false.
Proof.
  unfold parse_join_args. destruct (parse_join_loop args o0 false) as [o'|e]; cbn; [|done]. destruct (jo_reducer o') as [op|] eqn:Er; cbn.
  - destruct (match jo_aggregation o' with Some _ => true | None => false end); cbn; destruct (is_semi_or_anti (join_type o')) eqn:Es; try done; intros [= <-]; by rewrite Es, andb_false_r.
  - destruct (match jo_aggregation o' with Some _ => true | None => false end); cbn; [destruct (is_semi_or_anti (join_type o')); [|done]|]; intros [= <-]; by rewrite Er.
Qed.

Lemma join_internal_ok fuel l r o clock : bool_decide (is_Some (jo_reducer o)) && is_semi_or_anti (join_type o) = false -> exists a, join_internal fuel l r o clock = Ok a.
Proof.
  unfold join_internal. intros E. assert ((match jo_reducer o with Some _ => true | None => false end) && is_semi_or_anti (join_type o) = false) as -> by (by destruct (jo_reducer o)).
  destruct (get_timestamps _ _ _) as [s e]. destruct (jo_reducer o), (jo_aggregation o), (is_semi_or_anti (join_type o)); eauto.
Qed.

(** The errors of the parser are its own. *)
Lemma parse_errors args o0 e : parse_join_args args o0 = Err e -> match e with DuplicateJoinKeys | ReducerNotAllowed | NotOpened _ => False | _ => True end.
Proof.
  assert (forall o set e, parse_join_loop args o set = Err e -> match e with DuplicateJoinKeys | ReducerNotAllowed | NotOpened _ => False | _ => True end) as Hl.
  { clear. induction args as [|a args IH]; intros [] set e; [done|]. cbn [parse_join_loop]. destruct a; try apply IH; [destruct (is_multi _)|destruct set|]; try apply IH; by intros [= <-]. }
  unfold parse_join_args. destruct (parse_join_loop args o0 false) as [o|e'] eqn:E; cbn; [|intros [= <-]; by apply (Hl _ _ _ E)].
  repeat (destruct (_ && _)); by intros [= <-].
Qed.

(** C31. TS.JOIN fails for the reasons its checks name and no other, in their order: the
    arguments are refused first, then one key given twice, then the left and the right
    key if it may not be read, does not exist or does not hold a series.  The check
    that a join makes of its reducer never fails once the arguments are accepted. *)
Theorem ts_join_outcome (fuel : nat) (into_values : list ChunkMeta -> list ChunkMeta) (keyspace : string -> KeyValue) (caller : Caller) (left_key right_key : string)
    (range : TimestampRange) (args : list JoinArg) (clocks : JoinClocks) :
  let parsed := parse_join_args args (mkJoinOptions JtInner range None None None None None) in
  let series key := get_timeseries keyspace caller key (Some ACCESS) in
  match ts_join_cmd fuel into_values keyspace caller left_key right_key range args clocks with
  | Ok reply => exists o s1 s2 a, parsed = Ok o /\ left_key <> right_key /\ series left_key = Ok s1 /\ series right_key = Ok s2 /\
      process_join fuel into_values (sd_series s1) (sd_series s2) o clocks = Ok a /\ reply = join_reply a
  | Err (NotOpened e) => (exists o, parsed = Ok o) /\ left_key <> right_key /\ (series left_key = Err e \/ exists s1, series left_key = Ok s1 /\ series right_key = Err e)
  | Err DuplicateJoinKeys => (exists o, parsed = Ok o) /\ left_key = right_key
  | Err ReducerNotAllowed => False
  | Err e => parsed = Err e
  end.
Proof.
  cbn zeta. unfold ts_join_cmd. destruct (parse_join_args args _) as [o|e] eqn:Ep; cbn.
  2: { pose proof (parse_errors _ _ _ Ep) as He. by destruct e. }
  case_bool_decide as Ek; [by eauto|]. destruct (get_timeseries keyspace caller left_key _) as [s1|e] eqn:E1; cbn; [|by split_and!; [eauto|done|left]].
  destruct (get_timeseries keyspace caller right_key _) as [s2|e] eqn:E2; cbn; [|by split_and!; [eauto|done|right; eauto]].
  unfold process_join. destruct (join_internal_ok fuel (fetch_samples into_values (sd_series s1) o (left_clock clocks)) (fetch_samples into_values (sd_series s2) o (right_clock clocks)) o (align_clock clocks) (parsed_accepted _ _ _ Ep)) as [a Ea].
  rewrite Ea. cbn. by exists o, s1, s2, a.
Qed.

End Command.

(** ** Reads without a bounds check *)

Lemma asof_impl_bounds (U V : Unchecked) strategy filter allow_eq l r : @UncheckedLaws U -> @UncheckedLaws V ->
  @join_asof_impl U strategy filter allow_eq l r = @join_asof_impl V strategy filter allow_eq l r.
Proof.
  intros HU HV. assert (forall j, (j < length r)%nat -> @get_unchecked U r j = @get_unchecked V r j) as Hin.
  { intros j Hj. destruct (lookup_lt_is_Some_2 r j Hj) as [y Hy]. by rewrite (HU _ _ _ Hy), (HV _ _ _ Hy). }
  assert (forall j, (j < length r)%nat -> Some (@get_unchecked U r j) = Some (@get_unchecked V r j)) as Hsome by (intros j Hj; f_equal; by apply Hin).
  unfold join_asof_impl. f_equal.
  match goal with |- fold_left ?f _ _ = fold_left ?g _ _ => cut (forall out st, bound_ok (length r) st -> fold_left f l (out, st) = fold_left g l (out, st)); [intros Hc; by apply Hc|] end.
  induction l as [|x l IH]; intros out st Hok; [done|]. cbn [fold_left].
  destruct (asof_bounds _ _ (length r) allow_eq Hsome strategy st x Hok) as (-> & Hok' & Hf).
  destruct (asof_next _ _ _ _ _ _) as [[k|] st']; cbn [fst snd] in *; [rewrite (Hin k Hf); cbn zeta; destruct (filter _ _)|]; by apply IH.
Qed.

(** C32. An as-of join reads the right side through accesses without a bounds check, and
    its result does not depend on what such a read finds outside the slice: any two
    ways to read that agree inside give the same pairs, whatever the samples, sorted or
    not, the strategy and the tolerance. *)
Theorem asof_reads_in_bounds (U V : Unchecked) (l r : list Sample) (strategy : AsOfJoinStrategy) (tolerance : option Z) (allow_eq : bool) :
  @UncheckedLaws U -> @UncheckedLaws V -> @join_asof_samples U l r strategy tolerance allow_eq = @join_asof_samples V l r strategy tolerance allow_eq.
Proof. intros HU HV. unfold join_asof_samples. destruct tolerance; by apply asof_impl_bounds. Qed.

(** ** Departures from the documentation *)

Definition at_times (us : list Timestamp) : list Sample := map (fun u => mkSample u f64_one) us.

(** With exact matches excluded, a right sample at the time of the left one is never to
    be selected.  The nearest sample of 9 is 10; the scan has then passed it, and keeps
    it as the best one for 10. *)
Theorem nearest_returns_excluded :
  map (fun p => (timestamp p.1, timestamp p.2)) (@join_asof_samples (list_unchecked (mkSample 0 0)) (at_times [9; 10]) (at_times [5; 10; 20]) Nearest None false) = [(9, 10); (10, 10)].
Proof. vm_compute. reflexivity. Qed.

(** The table of operators documents 1 and 0 for a comparison and 0 for values that
    [cmp] finds equal or cannot order: a comparison returns its left value or NaN,
    [cmp] answers 1 for two NaN and -1 for the two zeros. *)
Theorem reducers_differ_from_table `{Powf} :
  get_handler JrEql f64_two f64_two = f64_two /\ f64_is_nan (get_handler JrEql f64_two f64_one) = true /\
  f64_is_nan (get_handler JrLt f64_two f64_one) = true /\ get_handler JrCmp f64_NAN f64_NAN = f64_one /\ get_handler JrCmp (f64_neg f64_zero) f64_zero = f64_neg f64_one.
Proof. by vm_compute. Qed.

(** ** Witnesses *)

#[local] Instance example_powf : Powf := fun a _ => a.
#[local] Instance example_merge : MergeJoin := list_merge_join.
#[local] Instance example_merge_laws : MergeJoinLaws := list_merge_join_laws.
#[local] Instance example_unchecked : Unchecked := list_unchecked (mkSample 0 0).
#[local] Instance example_unchecked_laws : UncheckedLaws := list_unchecked_laws (mkSample 0 0).

(** The last sample before each left one, at most 15 ms away. *)
Definition example_asof : AsOfJoinOptions := mkAsOfJoinOptions Backward (Some 15000000) true.

Lemma join_relation_exact_witness :
  Both (mkSample 27 f64_one) (mkSample 20 f64_one) ∈ create_join_iter (at_times [10; 27; 60]) (at_times [5; 20; 30]) (JtAsOf example_asof) /\
  length (create_join_iter (at_times [10; 27; 60]) (at_times [5; 20; 30]) (JtAsOf example_asof)) = 2%nat /\
  (LeftOnly (mkSample 60 f64_one) ∈ create_join_iter (at_times [10; 27; 60]) (at_times [10; 27]) JtAnti).
Proof.
  assert (ts_sorted (at_times [10; 27; 60])) as H1 by (repeat constructor). assert (ts_sorted (at_times [5; 20; 30])) as H2 by (repeat constructor).
  assert (ts_sorted (at_times [10; 27])) as H3 by (repeat constructor). split_and!; [|reflexivity|].
  - apply (proj1 (join_relation_exact _ _ (JtAsOf example_asof) H1 H2 ltac:(discriminate))). cbn [joined]. split; [right; left|]. split; [|by vm_compute].
    split; [right; left|]. split; [split; cbn; [discriminate|lia]|]. intros z Hz [_ Ha] Hne. cbn in Ha. repeat (apply elem_of_cons in Hz as [->|Hz]; [cbn in *; first [lia|congruence]|]). by apply elem_of_nil in Hz.
  - apply (proj1 (join_relation_exact _ _ JtAnti H1 H3 I)). cbn [joined]. split; [right; right; left|]. intros y Hy. repeat (apply elem_of_cons in Hy as [->|Hy]; [cbn; lia|]). by apply elem_of_nil in Hy.
Defined.

Definition example_join : JoinOptions :=
  mkJoinOptions JtInner (mkTimestampRange Earliest Latest) (Some 1%nat) (Some [20; 40; 50; 130]) None (Some JrSum)
    (Some (mkAggregationOptions [config TySum] 50 BucketStart AlignDefault false)).
Definition example_clocks : JoinClocks := mkJoinClocks (0, 0) (0, 0) (0, 0).
Definition demo_samples : list Sample := demo_head ++ demo_tail.

Lemma demo_near : Forall (fun x => near (timestamp x)) demo_samples.
Proof. repeat constructor; unfold near, TIME_BOUND; cbn; lia. Qed.

Lemma example_joinable : joinable 10 demo_series demo_series example_join example_clocks chunk_fit demo_samples demo_samples.
Proof.
  split; [exact demo_stores|exact demo_stores|split; exact demo_memory'|]. intros agg [= <-]. split; [unfold grid_ok, near, TIME_BOUND; cbn; lia|]. split; [discriminate|].
  split; [exact demo_near|]. split; [exact demo_near|]. vm_compute. lia.
Qed.

Lemma join_series_exact_witness : process_join 10 (fun m => m) demo_series demo_series example_join example_clocks = Ok (JoinSamples [mkSample 0 (f64_add two two)]).
Proof. rewrite (join_series_exact 10 (fun m => m) demo_series demo_series example_join example_clocks chunk_fit demo_samples demo_samples example_joinable ltac:(done) I). vm_compute. reflexivity. Defined.

Lemma asof_reads_in_bounds_witness :
  @join_asof_samples (list_unchecked (mkSample 0 0)) (at_times [9; 10]) (at_times [5; 10; 20]) Forward None true =
  @join_asof_samples (list_unchecked (mkSample 7 f64_NAN)) (at_times [9; 10]) (at_times [5; 10; 20]) Forward None true.
Proof. apply (asof_reads_in_bounds (list_unchecked (mkSample 0 0)) (list_unchecked (mkSample 7 f64_NAN))); apply list_unchecked_laws. Defined.
