(* ===== verification/Compaction.v ===== *)
(** * Compaction: rules that keep a downsampled copy of a series

    Models [src/series/compaction.rs] for one rule: how a sample that was added,
    updated, removed or merged into the source of the rule reaches the open
    bucket of the rule and the destination series.  [CompactionGraph] has the
    rules of several series. *)

From stdpp Require Import strings pretty.
From S2P Require Import Prelude Float64 Types Slice Content Elf64 Log10Ref TimeSeriesChunk SeriesIterator Rounding TimeSeries.
From S2P Require Import Aggregators AggregateIterator.

(** ** Rules *)

(** A [SeriesLink] is the key of the series at the other end. *)
Notation SeriesLink := string (only parsing).

Definition points_to (link : SeriesLink) (key : string) : bool := bool_decide (link = key).

Record CompactionRule := mkCompactionRule {
  dest : SeriesLink;
  aggregator : Aggregator;
  cr_bucket_duration : Z;
  align_timestamp : Timestamp;
  bucket_start : option Timestamp;
  has_samples : bool;
}.

Definition rule_with (r : CompactionRule) (a : Aggregator) (start : option Timestamp) (has : bool) : CompactionRule :=
  mkCompactionRule (dest r) a (cr_bucket_duration r) (align_timestamp r) start has.

Definition rule_bucket_start (r : CompactionRule) (ts : Timestamp) : Timestamp :=
  calc_bucket_start ts (align_timestamp r) (cr_bucket_duration r).

Definition bucket_end (r : CompactionRule) (start : Timestamp) : Timestamp :=
  rule_bucket_start r (sat_add_unsigned start (cr_bucket_duration r)).

Definition get_bucket_range (r : CompactionRule) (ts : Timestamp) : Timestamp * Timestamp :=
  let start := rule_bucket_start r ts in (start, bucket_end r start).

Definition rule_reset (r : CompactionRule) : CompactionRule := rule_with r (agg_reset (aggregator r)) None false.

Definition rule_update (r : CompactionRule) (ts : Timestamp) (v : f64) : CompactionRule :=
  let '(ok, a) := agg_update (aggregator r) ts v in
  rule_with r a (bucket_start r) (if ok then true else has_samples r).

Definition BUCKET_DURATION_TOO_SMALL : string := "TSDB: bucketDuration must be greater than zero".
Definition BUCKET_DURATION_TOO_LARGE : string := "TSDB: compaction rule bucket duration is too large: ".
Definition INVALID_ALIGNMENT_TIMESTAMP : string := "TSDB: Couldn't parse alignTimestamp".

Definition validate_restored_rule_parameters (bucket_duration : Z) (align : Timestamp) : result string unit :=
  if bucket_duration =? 0 then Err BUCKET_DURATION_TOO_SMALL
  else if i64_MAX <? bucket_duration then Err (BUCKET_DURATION_TOO_LARGE +:+ pretty bucket_duration)
  else if align <? 0 then Err INVALID_ALIGNMENT_TIMESTAMP
  else Ok tt.

(** ** The context of one rule *)

(** A series under its key, with the fields that compaction uses. *)
Record KeyedSeries := mkKeyedSeries {
  ks_key : string;
  series : TimeSeries;
  rules : list CompactionRule;
  src_series : option SeriesLink;
  last_forward_close : option Sample;
}.

Definition ks_with_series (k : KeyedSeries) (t : TimeSeries) : KeyedSeries :=
  mkKeyedSeries (ks_key k) t (rules k) (src_series k) (last_forward_close k).
Definition ks_with_close (k : KeyedSeries) (m : option Sample) : KeyedSeries :=
  mkKeyedSeries (ks_key k) (series k) (rules k) (src_series k) m.
Definition ks_with_rules (k : KeyedSeries) (rs : list CompactionRule) : KeyedSeries :=
  mkKeyedSeries (ks_key k) (series k) rs (src_series k) (last_forward_close k).

Record CompactionContext := mkContext {
  parent : TimeSeries;
  cx_dest : KeyedSeries;
  cx_rule : CompactionRule;
  written : list Sample;
}.

Definition cx_with_dest (c : CompactionContext) (k : KeyedSeries) : CompactionContext := mkContext (parent c) k (cx_rule c) (written c).
Definition cx_with_rule (c : CompactionContext) (r : CompactionRule) : CompactionContext := mkContext (parent c) (cx_dest c) r (written c).

(** Effects: a step may fail, and keeps what it has done. *)
Definition compaction (A : Type) : Type := CompactionContext -> TsdbResult A * CompactionContext.

Definition cret {A} (x : A) : compaction A := fun c => (Ok x, c).
Definition cbind {A B} (m : compaction A) (k : A -> compaction B) : compaction B :=
  fun c => let '(r, c) := m c in match r with Ok x => k x c | Err e => (Err e, c) end.
Definition cget : compaction CompactionContext := fun c => (Ok c, c).
Definition cmodify (f : CompactionContext -> CompactionContext) : compaction unit := fun c => (Ok tt, f c).

Declare Scope compaction_scope.
Delimit Scope compaction_scope with compaction.
Notation "x <- m ;; k" := (cbind m (fun x => k)) (at level 100, m at next level, right associativity) : compaction_scope.
Notation "m ;;; k" := (cbind m (fun _ => k)) (at level 100, right associativity) : compaction_scope.

Lemma cbind_ok {A B} (m : compaction A) (k : A -> compaction B) c c' x : m c = (Ok x, c') -> cbind m k c = k x c'.
Proof. unfold cbind. by intros ->. Qed.

Lemma cbind_assoc {A B C} (m : compaction A) (k : A -> compaction B) (h : B -> compaction C) c :
  cbind (cbind m k) h c = cbind m (fun x => cbind (k x) h) c.
Proof. unfold cbind. destruct (m c) as [[x|e] c']; done. Qed.

Lemma cbind_get {B} (k : CompactionContext -> compaction B) c : cbind cget k c = k c c.
Proof. done. Qed.

Lemma cbind_modify {B} f (k : unit -> compaction B) c : cbind (cmodify f) k c = k tt (f c).
Proof. done. Qed.

Lemma cbind_ret {A B} (x : A) (k : A -> compaction B) c : cbind (cret x) k c = k x c.
Proof. done. Qed.

Create Rewrite HintDb compaction.
#[export] Hint Rewrite @cbind_assoc @cbind_get @cbind_modify @cbind_ret : compaction.

(** Runs the pure steps at the head of an operation. *)
Ltac csteps := repeat (autorewrite with compaction; cbn beta iota).

(** Runs the step at the head with its equation. *)
Ltac cstep E := csteps; rewrite (cbind_ok _ _ _ _ _ E); csteps.

Section Rule.

Context `{Log10} `{ServerConfig}.

#[local] Open Scope compaction_scope.

Definition cx_update (ts : Timestamp) (v : f64) : compaction unit :=
  cmodify (fun c => cx_with_rule c (rule_update (cx_rule c) ts v)).

Definition start_bucket (start : Timestamp) (s : Sample) : compaction unit :=
  cmodify (fun c => cx_with_rule c (rule_with (cx_rule c) (aggregator (cx_rule c)) (Some start) (has_samples (cx_rule c)))) ;;;
  cx_update (timestamp s) (value s).

Definition remove_dest_range (s e : Timestamp) : compaction Z := fun c =>
  let '(removed, t) := remove_range (series (cx_dest c)) s e in
  let k := ks_with_series (cx_dest c) t in
  match removed with
  | Ok n =>
      let k := match last_forward_close k with
               | Some marker =>
                   match get_sample t (timestamp marker) with
                   | Ok None => ks_with_close k (last_sample t)
                   | _ => k
                   end
               | None => k
               end in
      (Ok n, cx_with_dest c k)
  | Err e => (Err e, cx_with_dest c k)
  end.

Definition DUPLICATE_SAMPLE : string := "TSDB: Error at upsert, update is not supported when DUPLICATE_POLICY is set to BLOCK mode, or either current or new value is NaN and DUPLICATE_POLICY is MAX/MIN/SUM".
Definition SAMPLE_TOO_OLD : string := "TSDB: Timestamp is older than retention".

(** [Display] of the results that reach the message below. *)
Definition add_result_message (r : SampleAddResult) : string :=
  match r with
  | AddError e => e
  | Duplicate => DUPLICATE_SAMPLE
  | TooOld => SAMPLE_TOO_OLD
  | _ => ""
  end.

Definition add_dest_bucket (ts : Timestamp) (v : f64) : compaction (option Sample) := fun c =>
  let start := rule_bucket_start (cx_rule c) ts in
  let '(r, t) := add (series (cx_dest c)) start v (Some KeepLast) in
  let k := ks_with_series (cx_dest c) t in
  match r with
  | AddOk s =>
      let k := match last_forward_close k with None => ks_with_close k (Some s) | Some _ => k end in
      (Ok (Some s), mkContext (parent c) k (cx_rule c) (written c ++ [s]))
  | Ignored _ | TooOld => (Ok None, cx_with_dest c k)
  | x =>
      (Err (General ("TSDB: failed to add sample @" +:+ pretty ts +:+ " to destination bucket: " +:+ add_result_message x)),
       cx_with_dest c k)
  end.

(** The samples an iterator over a part of the source gives. *)
Definition stored_samples (t : TimeSeries) (s e : Timestamp) : list Sample :=
  si_collect (Z.to_nat (series_len t)) (stored_range_iter t s e).
Definition ranged_samples (t : TimeSeries) (s e : Timestamp) : list Sample :=
  si_collect (Z.to_nat (series_len t)) (range_iter t s e).

(** The loop that feeds samples to an aggregator. *)
Definition aggregate_samples (a : Aggregator) (ss : list Sample) : bool * Aggregator :=
  fold_left (fun st s => let '(has, a) := st in
                         let '(ok, a) := agg_update a (timestamp s) (value s) in (has || ok, a)) ss (false, a).

Definition calculate_range (t : TimeSeries) (a : Aggregator) (s e min_ts : Timestamp) (filter : Timestamp -> bool) : bool * Aggregator :=
  aggregate_samples (agg_reset a) (List.filter (fun x => filter (timestamp x)) (stored_samples t (Z.max s min_ts) e)).

Definition null_ts_filter (ts : Timestamp) : bool := true.

Definition recalculate_current_bucket (start end_ min_ts : Timestamp) : compaction unit :=
  cmodify (fun c =>
    let '(has, a) := calculate_range (parent c) (aggregator (cx_rule c)) start (wrap_i64 (end_ - 1)) min_ts null_ts_filter in
    cx_with_rule c (rule_with (cx_rule c) a (Some start) has)).

Definition recalculate_bucket (start end_ min_ts : Timestamp) (filter : Timestamp -> bool) : compaction unit :=
  c <- cget ;;
  let '(has, a) := calculate_range (parent c) (agg_reset (aggregator (cx_rule c))) start (wrap_i64 (end_ - 1)) min_ts filter in
  if has then add_dest_bucket start (agg_finalize a).1 ;;; cret tt
  else remove_dest_range start (wrap_i64 (end_ - 1)) ;;; cret tt.

(** [expect] on the start of the bucket: the callers have set it. *)
Definition finalize_current_bucket (new_sample : Sample) (new_bucket_start : Timestamp) : compaction unit :=
  c <- cget ;;
  (if has_samples (cx_rule c) then
     let '(aggregated_value, a) := agg_finalize (aggregator (cx_rule c)) in
     let current := default 0 (bucket_start (cx_rule c)) in
     cmodify (fun c => cx_with_rule c (rule_with (cx_rule c) a (bucket_start (cx_rule c)) (has_samples (cx_rule c)))) ;;;
     published <- add_dest_bucket current aggregated_value ;;
     match published with
     | Some s => cmodify (fun c => cx_with_dest c (ks_with_close (cx_dest c) (Some s)))
     | None => cret tt
     end
   else cret tt) ;;;
  cmodify (fun c => cx_with_rule c (rule_reset (cx_rule c))) ;;;
  start_bucket new_bucket_start new_sample.

Definition handle_sample_compaction (s : Sample) : compaction unit :=
  c <- cget ;;
  let sample_bucket_start := rule_bucket_start (cx_rule c) (timestamp s) in
  match bucket_start (cx_rule c) with
  | None => start_bucket sample_bucket_start s
  | Some current_bucket_start =>
      match sample_bucket_start ?= current_bucket_start with
      | Eq => cx_update (timestamp s) (value s)
      | Gt => finalize_current_bucket s sample_bucket_start
      | Lt => recalculate_bucket sample_bucket_start (bucket_end (cx_rule c) sample_bucket_start) (get_min_timestamp (parent c)) null_ts_filter
      end
  end.

Definition handle_compaction_upsert (s : Sample) : compaction unit :=
  c <- cget ;;
  let start := rule_bucket_start (cx_rule c) (timestamp s) in
  match bucket_start (cx_rule c) with
  | None => start_bucket start s
  | Some current_bucket_start =>
      let end_ := bucket_end (cx_rule c) current_bucket_start in
      if start =? current_bucket_start then recalculate_current_bucket current_bucket_start end_ (get_min_timestamp (parent c))
      else
        let historical_bucket_end := bucket_end (cx_rule c) start in
        recalculate_bucket start historical_bucket_end (get_min_timestamp (parent c)) null_ts_filter
  end.

(** ** Removing a range *)

Definition remove_or_recalculate_bucket (start st en : Timestamp) : compaction unit :=
  c <- cget ;;
  if bool_decide (bucket_start (cx_rule c) = Some start) then cret tt
  else
    let end_ := bucket_end (cx_rule c) start in
    if (st <=? start) && (end_ <=? en) then
      if negb (series_is_empty (series (cx_dest c))) then remove_dest_range start (wrap_i64 (end_ - 1)) ;;; cret tt else cret tt
    else recalculate_bucket start end_ (get_min_timestamp (parent c)) (fun ts => (ts <? st) || (en <? ts)).

Definition resync_open_bucket_after_removal : compaction unit :=
  c <- cget ;;
  match last_sample (parent c) with
  | None =>
      cmodify (fun c => cx_with_rule c (rule_reset (cx_rule c))) ;;;
      if negb (series_is_empty (series (cx_dest c))) then remove_dest_range i64_MIN i64_MAX ;;; cret tt else cret tt
  | Some last =>
      let '(open_start, open_end) := get_bucket_range (cx_rule c) (timestamp last) in
      (if negb (series_is_empty (series (cx_dest c))) then remove_dest_range open_start i64_MAX ;;; cret tt else cret tt) ;;;
      cmodify (fun c =>
        let '(has, a) := aggregate_samples (agg_reset (aggregator (cx_rule c)))
                           (ranged_samples (parent c) open_start (wrap_i64 (open_end - 1))) in
        cx_with_rule c (rule_with (cx_rule c) a (Some open_start) has))
  end.

Definition handle_compaction_range_removal (st en : Timestamp) : compaction unit :=
  c <- cget ;;
  let first_bucket_start := rule_bucket_start (cx_rule c) st in
  let last_bucket_start := rule_bucket_start (cx_rule c) en in
  remove_or_recalculate_bucket first_bucket_start st en ;;;
  (if negb (last_bucket_start =? first_bucket_start) then
     c <- cget ;;
     let middle_start := bucket_end (cx_rule c) first_bucket_start in
     (if (middle_start <? last_bucket_start) && negb (series_is_empty (series (cx_dest c)))
      then remove_dest_range middle_start (wrap_i64 (last_bucket_start - 1)) ;;; cret tt else cret tt) ;;;
     remove_or_recalculate_bucket last_bucket_start st en
   else cret tt) ;;;
  resync_open_bucket_after_removal.

(** ** Batches *)

Record DestCacheTrace := mkDestCacheTrace { dc_last_forward_close : option Timestamp; first_write : option Timestamp }.

(** [Option::get_or_insert], for its effect. *)
Definition get_or_insert {A} (o : option A) (x : A) : option A := match o with Some y => Some y | None => Some x end.

(** One turn of the loop: the open bucket, the high-water mark and the trace. *)
Definition trace_step (r : CompactionRule) (st : option Timestamp * option Timestamp * DestCacheTrace) (ts : Timestamp)
    : option Timestamp * option Timestamp * DestCacheTrace :=
  let '(current, high_water, trace) := st in
  let bucket := rule_bucket_start r ts in
  if match high_water with Some hw => ts <=? hw | None => false end then
    (current, high_water,
     if match current with Some open => bucket <? open | None => false end
     then mkDestCacheTrace (dc_last_forward_close trace) (get_or_insert (first_write trace) bucket) else trace)
  else
    match current with
    | Some open =>
        if open <? bucket then (Some bucket, Some ts, mkDestCacheTrace (Some open) (get_or_insert (first_write trace) open))
        else (current, Some ts, trace)
    | None => (Some bucket, Some ts, trace)
    end.

Definition trace_dest_cache_in_input_order (r : CompactionRule) (pre_batch_bucket_start prev_last : option Timestamp)
    (input_order : list Timestamp) : DestCacheTrace :=
  (fold_left (trace_step r) input_order (pre_batch_bucket_start, prev_last, mkDestCacheTrace None None)).2.

(** One turn of the replay: the timestamps that advanced, the back-fills with
    the last timestamp at their time, the high-water mark and the open bucket. *)
Record Replay := mkReplay {
  advanced : list Timestamp;
  backfilled : list (Timestamp * Timestamp);
  high_water : option Timestamp;
  open_bucket : option Timestamp;
}.

Definition replay_step (r : CompactionRule) (p : Replay) (ts : Timestamp) : Replay :=
  let advance := mkReplay (advanced p ++ [ts]) (backfilled p) (Some ts) (Some (rule_bucket_start r ts)) in
  match high_water p with
  | Some max =>
      if ts <=? max then
        if negb (bool_decide (ts ∈ advanced p)) || negb (bool_decide (Some (rule_bucket_start r ts) = open_bucket p))
        then mkReplay (advanced p) (backfilled p ++ [(ts, max)]) (high_water p) (open_bucket p)
        else p
      else advance
  | None => advance
  end.

Definition replay (r : CompactionRule) (prev_last : option Timestamp) (input_order : list Timestamp) : Replay :=
  fold_left (replay_step r) input_order (mkReplay [] [] prev_last (bucket_start r)).

(** [dedup_by] that keeps the larger mark of entries with the same timestamp. *)
Fixpoint dedup_backfilled (kept : Timestamp * Timestamp) (l : list (Timestamp * Timestamp)) : list (Timestamp * Timestamp) :=
  match l with
  | [] => [kept]
  | dup :: l => if dup.1 =? kept.1 then dedup_backfilled (kept.1, Z.max kept.2 dup.2) l else kept :: dedup_backfilled dup l
  end.

Definition settle_backfilled (l : list (Timestamp * Timestamp)) : list (Timestamp * Timestamp) :=
  match sort_by_key fst l with [] => [] | kept :: l => dedup_backfilled kept l end.

Definition floor_at (t : TimeSeries) (last_ts : Timestamp) : Timestamp :=
  if retention_is_zero t then 0 else Z.max (sat_i64 (last_ts - retention_millis t)) 0.

Definition backfill_floor (t : TimeSeries) (backfilled : list (Timestamp * Timestamp)) (ts : Timestamp) : option Timestamp :=
  match binary_search_by (fun e => e.1 ?= ts) backfilled with
  | Ok idx => match backfilled !! idx with Some e => Some (floor_at t e.2) | None => None end
  | Err _ => None
  end.

(** The samples that stream and those whose bucket is recalculated. *)
Definition split_batch (t : TimeSeries) (backfilled : list (Timestamp * Timestamp)) (samples : list Sample)
    : list Sample * list (Sample * Timestamp) :=
  fold_left (fun st s =>
    match backfill_floor t backfilled (timestamp s) with
    | Some min_ts => (st.1, st.2 ++ [(s, min_ts)])
    | None => (st.1 ++ [s], st.2)
    end) samples ([], []).

(** The buckets to recalculate, each once. *)
Definition upsert_buckets (r : CompactionRule) (upserts : list (Sample * Timestamp)) : list (Timestamp * Timestamp) :=
  fold_left (fun buckets u =>
    let start := rule_bucket_start r (timestamp u.1) in
    match list.last buckets with
    | Some (s, floor) => if s =? start then take (length buckets - 1) buckets ++ [(s, Z.max floor u.2)] else buckets ++ [(start, u.2)]
    | None => buckets ++ [(start, u.2)]
    end) upserts [].

Definition recalculate_one (b : Timestamp * Timestamp) : compaction unit :=
  c <- cget ;;
  let end_ := bucket_end (cx_rule c) b.1 in
  if bool_decide (bucket_start (cx_rule c) = None) || bool_decide (bucket_start (cx_rule c) = Some b.1)
  then recalculate_current_bucket b.1 end_ b.2
  else recalculate_bucket b.1 end_ b.2 null_ts_filter.

Fixpoint for_each {A} (f : A -> compaction unit) (l : list A) : compaction unit :=
  match l with
  | [] => cret tt
  | x :: l => f x ;;; for_each f l
  end.

Definition handle_batch_compaction (samples : list Sample) (prev_last : option Timestamp) (input_order : list Timestamp) : compaction unit :=
  c <- cget ;;
  let marker_before := last_forward_close (cx_dest c) in
  let cache_trace := trace_dest_cache_in_input_order (cx_rule c) (bucket_start (cx_rule c)) prev_last input_order in
  let p := replay (cx_rule c) prev_last input_order in
  let '(appends, upserts) := split_batch (parent c) (settle_backfilled (backfilled p)) samples in
  let buckets := upsert_buckets (cx_rule c) upserts in
  for_each handle_sample_compaction appends ;;;
  for_each recalculate_one (reverse buckets) ;;;
  let marker_bucket := match dc_last_forward_close cache_trace, marker_before with
                       | Some ts, _ => Some ts
                       | None, Some prev => Some (timestamp prev)
                       | None, None => first_write cache_trace
                       end in
  cmodify (fun c =>
    cx_with_dest c (ks_with_close (cx_dest c)
      (match marker_bucket with
       | Some ts => match get_sample (series (cx_dest c)) ts with Ok s => s | Err _ => None end
       | None => None
       end))).

(** ** Operations *)

Inductive CompactionOp :=
| AddNew (s : Sample)
| Upsert (s : Sample)
| AddBatch (samples : list Sample) (prev_last : option Timestamp) (input_order : list Timestamp)
| RemoveRange (start end_ : Timestamp).

Definition apply_op (op : CompactionOp) : compaction unit :=
  match op with
  | AddNew s => handle_sample_compaction s
  | Upsert s => handle_compaction_upsert s
  | AddBatch samples prev_last input_order => handle_batch_compaction samples prev_last input_order
  | RemoveRange st en => handle_compaction_range_removal st en
  end.

End Rule.
