(* ===== verification/CompactionLaws.v ===== *)
(** * CompactionLaws: what a compaction rule keeps true

    The destination of a rule holds the aggregate of every closed bucket of its
    source, and the rule the aggregate of the open one: every operation on the
    source that is passed on keeps this true. *)

From stdpp Require Import strings pretty sorting functions.
From S2P Require Import Prelude Float64 Types Slice Content ChunkOps Elf64 Log10Ref TimeSeriesChunk ChunkSearch SeriesIterator Rounding.
From S2P Require Import TimeSeries SeriesLaws SeriesReads SeriesWrites Aggregators AggregateIterator AggregateLaws AggregateColumns.
From S2P Require Import Compaction.

(** ** The buckets of a rule *)

(** Timestamps far from the end of the 64-bit range. *)
Definition early (ts : Timestamp) : Prop := 0 <= ts <= TIME_BOUND.

Definition rule_grid (r : CompactionRule) : Prop := grid_ok (cr_bucket_duration r) (align_timestamp r).

Section Grid.

Context (r : CompactionRule).
Hypothesis Hgrid : rule_grid r.

#[local] Abbreviation d := (cr_bucket_duration r).
#[local] Abbreviation align := (align_timestamp r).
#[local] Abbreviation start := (rule_bucket_start r).
#[local] Abbreviation index := (bucket_of d align).

Lemma start_spec ts : 0 <= ts <= 2 ^ 62 -> start ts = Z.max 0 (start_of d align (index ts)).
Proof. intros Hts. unfold rule_bucket_start, calc_bucket_start. rewrite bucket_start_spec by (done || lia). done. Qed.

Lemma start_le ts : early ts -> 0 <= start ts <= ts.
Proof.
  intros Hts. rewrite start_spec by (unfold early, TIME_BOUND in *; lia). pose proof (start_of_bucket d align Hgrid ts). unfold early in *. lia.
Qed.

(** The first bucket may start before the epoch: it is then shorter. *)
Lemma end_spec ts : early ts -> bucket_end r (start ts) = start_of d align (index ts + 1).
Proof.
  intros Hts. pose proof (start_le ts Hts) as Hs. destruct Hgrid as [Hd Ha]. unfold early, TIME_BOUND in *.
  pose proof (start_of_bucket d align Hgrid ts) as Hb. unfold bucket_end, sat_add_unsigned.
  assert (sat_i64 (start ts + d) = start ts + d) as -> by (unfold sat_i64, i64_MIN, i64_MAX; lia).
  rewrite (start_spec (start ts + d)) by lia.
  assert (index (start ts + d) = index ts + 1) as ->.
  { apply (bucket_of_unique d align Hgrid). rewrite start_spec by lia. unfold start_of in *. lia. }
  unfold start_of in *. lia.
Qed.

Lemma end_gt ts : early ts -> ts < bucket_end r (start ts) <= 2 ^ 62.
Proof.
  intros Hts. rewrite end_spec by done. pose proof (start_of_bucket d align Hgrid ts) as Hb.
  destruct Hgrid as [Hd Ha]. unfold early, TIME_BOUND in *. unfold start_of in *. lia.
Qed.

Lemma start_eq ts u : early ts -> early u -> start u = start ts <-> start ts <= u < bucket_end r (start ts).
Proof.
  intros Hts Hu. pose proof (start_le u Hu). pose proof (end_gt u Hu). split.
  - intros <-. lia.
  - intros [H1 H2]. rewrite end_spec in H2 by done. pose proof (start_of_bucket d align Hgrid u) as Hbu.
    pose proof (start_of_bucket d align Hgrid ts) as Hb. destruct Hgrid as [Hd Ha]. unfold early, TIME_BOUND in *.
    rewrite !start_spec in * by lia. pose proof (bucket_of_unique d align Hgrid u (index ts)) as Hq.
    unfold start_of in *. destruct (Z.lt_ge_cases u (align + d * index ts)) as [Hlt|Hge]; [lia|].
    rewrite Hq by lia. done.
Qed.

Lemma start_mono ts u : early ts -> early u -> ts <= u -> start ts <= start u.
Proof.
  intros Hts Hu Hle. rewrite !start_spec by (unfold early, TIME_BOUND in *; lia).
  pose proof (bucket_of_mono d align Hgrid ts u Hle). destruct Hgrid as [Hd _]. unfold start_of. nia.
Qed.

Lemma start_idem ts : early ts -> start (start ts) = start ts.
Proof.
  intros Hts. pose proof (start_le ts Hts). pose proof (end_gt ts Hts). apply start_eq; [done|unfold early in *; lia|lia].
Qed.

(** The next bucket starts where one ends. *)
Lemma start_next ts u : early ts -> early u -> start ts < start u -> bucket_end r (start ts) <= start u.
Proof.
  intros Hts Hu Hlt. destruct (Z.le_gt_cases (bucket_end r (start ts)) (start u)) as [|Hgt]; [done|]. exfalso.
  pose proof (start_le u Hu). assert (start (start u) = start ts) as He by (apply start_eq; [done|unfold early in *; lia|lia]).
  rewrite start_idem in He by done. lia.
Qed.

Definition bucket (s : Timestamp) (l : list Sample) : list Sample := List.filter (fun x => start (timestamp x) =? s) l.

Definition all_early (l : list Sample) : Prop := Forall (fun x => early (timestamp x)) l.

(** Reading the span of a bucket gives its samples. *)
Lemma select_bucket ts l : early ts -> all_early l ->
  select (start ts) (wrap_i64 (bucket_end r (start ts) - 1)) l = bucket (start ts) l.
Proof.
  intros Hts Hl. pose proof (end_gt ts Hts). pose proof (start_le ts Hts). rewrite wrap_i64_id by (unfold early, TIME_BOUND in *; ilia).
  unfold select, bucket. apply filter_ext_in. intros x Hx%list_elem_of_In. unfold all_early in Hl. rewrite Forall_forall in Hl.
  specialize (Hl x Hx). pose proof (start_eq ts (timestamp x) Hts Hl). unfold in_range.
  destruct (Z.eqb_spec (start (timestamp x)) (start ts)); lia.
Qed.

Lemma bucket_app s a b : bucket s (a ++ b) = bucket s a ++ bucket s b.
Proof. unfold bucket. apply List.filter_app. Qed.

End Grid.

#[global] Arguments bucket : simpl never.

(** ** The aggregate of a bucket *)

Lemma aggregate_samples_spec a ss : aggregate_samples a ss = (took a ss, feed_all a ss).
Proof.
  unfold aggregate_samples. enough (forall has, fold_left (fun st s => let '(has, a) := st in
    let '(ok, a) := agg_update a (timestamp s) (value s) in (has || ok, a)) ss (has, a) = (has || took a ss, feed_all a ss)) as E by apply E.
  revert a. induction ss as [|s ss IH]; intros a has; cbn [fold_left took]; [by rewrite orb_false_r|].
  destruct (agg_update a (timestamp s) (value s)) as [ok a'] eqn:E. rewrite feed_all_cons.
  assert (feed_one a s = a') as -> by (unfold feed_one; by rewrite E). rewrite IH. cbn [fst]. by rewrite orb_assoc.
Qed.

(** What a bucket with the samples [ss] publishes, if anything. *)
Definition bucket_value (fresh : Aggregator) (ss : list Sample) : option f64 :=
  if took fresh ss then Some (agg_finalize (feed_all fresh ss)).1 else None.

Section Laws.

Context `{Log10} `{ServerConfig}.

(** Without retention nothing is below the first timestamp. *)
Lemma min_timestamp_zero {P} t ls : series_rep P t ls -> retention t = 0 -> Forall (fun x => get_min_timestamp t <= timestamp x) (concat ls).
Proof.
  intros Hr Hz. unfold get_min_timestamp, retention_is_zero. rewrite Hz, (sr_first _ _ Hr). destruct (sr_layout _ _ Hr) as (_ & _ & Hs & _).
  destruct Hs as [|x l Hs Hx]; [constructor|]. constructor; [cbn; lia|]. eapply Forall_impl; [exact Hx|]. unfold ts_lt. cbn. lia.
Qed.

Lemma visible_zero {P} t ls : series_rep P t ls -> retention t = 0 -> visible t (concat ls) = concat ls.
Proof. intros Hr Hz. by apply visible_all, (min_timestamp_zero t ls Hr). Qed.

Lemma select_raised m s e l : Forall (fun x => m <= timestamp x) l -> select (Z.max s m) e l = select s e l.
Proof.
  intros Hm. apply filter_ext_in. intros x Hx%list_elem_of_In. rewrite Forall_forall in Hm. specialize (Hm x Hx). unfold in_range. cbn beta in Hm. lia.
Qed.

Lemma stored_samples_spec {P} t l s e : stores P t l -> stored_samples t s e = select s e l.
Proof.
  intros (ls & Hr & <-). unfold stored_samples, stored_range_iter.
  destruct (si_new_spec (chunks t) ls (series_is_empty t) s e false (sr_layout _ _ Hr) (rep_empty _ _ Hr)) as [Hok El].
  rewrite (si_collect_spec _ _ ls Hok); [exact El|]. rewrite El. unfold series_len. rewrite (sr_total _ _ Hr), Nat2Z.id. apply filter_length_le.
Qed.

Lemma ranged_samples_spec {P} t l s e : stores P t l -> retention t = 0 -> ranged_samples t s e = select s e l.
Proof.
  intros (ls & Hr & <-) Hz. unfold ranged_samples. rewrite (range_iter_spec t ls _ _ _ Hr), (visible_zero t ls Hr Hz); [done|].
  unfold series_len. by rewrite (sr_total _ _ Hr), Nat2Z.id.
Qed.

(** ** The destination as a map *)

(** A stored value that an equal one did not replace: the IGNORE filter of the
    destination leaves a zero alone when the other zero is written. *)
Definition close (v w : f64) : Prop := v = w \/ f64_le (f64_abs (f64_sub v w)) f64_zero = true.

Definition agrees (x : option Sample) (v : option f64) : Prop := option_Forall2 (fun x v => close (value x) v) x v.

(** A destination with the default settings: no retention, no IGNORE. *)
Definition plain (t : TimeSeries) : Prop :=
  retention t = 0 /\ max_time_delta (sample_duplicates t) = 0 /\ max_value_delta (sample_duplicates t) = f64_zero.

Definition marker_live (k : KeyedSeries) (dl : list Sample) : Prop :=
  forall x, last_forward_close k = Some x -> is_Some (lookup_ts (timestamp x) dl).

(** The destination holds the values [f], rounded with [adj]. *)
Record dest_holds (adj : f64 -> f64) (k : KeyedSeries) (f : Timestamp -> option f64) : Prop := {
  dh_list : exists dl, stores chunk_fit (series k) dl /\ (forall s, agrees (lookup_ts s dl) (f s)) /\ marker_live k dl;
  dh_plain : plain (series k);
  dh_round : forall v, adjust_value (series k) v = adj v;
}.

Lemma plain_settings t t' : settings t' = settings t -> plain t -> plain t'.
Proof. unfold settings, plain. intros [= -> -> _ _ _]. done. Qed.

Lemma adjust_settings t t' v : settings t' = settings t -> adjust_value t' v = adjust_value t v.
Proof. unfold settings, adjust_value. by intros [= _ _ _ -> _]. Qed.

Lemma keep_last ts old new : f64_is_nan new = false -> duplicate_value KeepLast ts old new = Ok new.
Proof. unfold duplicate_value. intros ->. destruct (f64_is_nan old); [|done]. cbn [orb]. by rewrite bool_decide_false. Qed.

(** What writing one bucket does to the list of the destination. *)
Lemma add_dest_list t dl s v : stores chunk_fit t dl -> plain t -> 0 <= s < 2 ^ 63 -> is_f64 v -> f64_is_nan (adjust_value t v) = false ->
  exists r t' dl', add t s v (Some KeepLast) = (r, t') /\ stores chunk_fit t' dl' /\ settings t' = settings t /\
    ((r = AddOk (mkSample s (adjust_value t v)) /\ lookup_ts s dl' = Some (mkSample s (adjust_value t v))) \/
     (exists u x, r = Ignored u /\ dl' = dl /\ lookup_ts s dl = Some x /\ close (value x) (adjust_value t v))) /\
    (forall u, u <> s -> lookup_ts u dl' = lookup_ts u dl).
Proof.
  intros (ls & Hr & <-) (Hz & Ht & Hd) Hs Hv Hn.
  destruct (add_spec t ls s v (Some KeepLast) Hr Hs Hv) as (t' & ls' & dead & E & Hr' & Hset & Ecat & _ & _ & Hdead).
  assert (dead = []) as -> by (apply Hdead; unfold retention_is_zero; by rewrite Hz). cbn [app] in Ecat.
  destruct (sr_layout _ _ Hr) as (_ & _ & Hso & _).
  eexists _, t', (concat ls'). split; [exact E|]. split; [by exists ls'|]. split; [done|]. rewrite <- Ecat. clear E Ecat Hr'.
  unfold add_result, is_older_than_retention, retention_is_zero. rewrite Hz. cbn [Z.eqb].
  assert (forall l', list_upsert KeepLast (make_sample t s v) (concat ls) = Ok l' ->
    lookup_ts s l' = Some (make_sample t s v) /\ forall u, u <> s -> lookup_ts u l' = lookup_ts u (concat ls)) as Hup.
  { intros l' El. split; [|intros u Hu]; rewrite (list_upsert_lookup _ _ _ _ _ Hso El); cbn [timestamp make_sample value].
    - rewrite Z.eqb_refl. destruct (lookup_ts s (concat ls)); [|done]. by rewrite keep_last.
    - by destruct (Z.eqb_spec u s). }
  destruct (list.last (concat ls)) as [x|] eqn:El.
  - destruct ((timestamp x <=? s) && _) eqn:Ed.
    + apply andb_true_iff in Ed as [Hle Hdup]. split; [|done]. right. exists (timestamp x), x. unfold is_duplicate in Hdup.
      rewrite Ht, Hd in Hdup. cbn [timestamp make_sample value] in Hdup. destruct (_ && _) eqn:Ew in Hdup; [|done].
      destruct (negb _) eqn:En in Hdup; [done|]. destruct (_ || _) in Hdup; [done|].
      assert (s = timestamp x) as Hsx.
      { apply andb_true_iff in Ew as [E1 E2]. revert E1 E2. apply last_Some_elem_of in El.
        destruct (sr_layout _ _ Hr) as (_ & _ & _ & Hva). rewrite Forall_forall in Hva. destruct (Hva x El) as [[Hx _] Hx0].
        unfold is_i64 in Hx. assert (timestamp x <= s) by lia. rewrite wrap_i64_id by ilia. change (wrap_i64 0) with 0. lia. }
      split_and!; [done|done| |by right]. subst s. apply last_Some in El as [l0 El]. rewrite El in Hso |- *.
      rewrite lookup_ts_app, lookup_ts_below; [cbn; by rewrite Z.eqb_refl|]. by apply ts_sorted_snoc in Hso as [_ Hso].
    + destruct (list_upsert _ _ (concat ls)) as [l'|e] eqn:Eu; cbn [fst snd].
      * destruct (Hup l' eq_refl) as [H1 H2]. split; [by left|done].
      * exfalso. apply list_upsert_err in Eu as (y & _ & Ey); [|done]. unfold series_policy, resolve_policy in Ey. cbn in Ey. by rewrite keep_last in Ey.
  - apply last_None in El. rewrite El in *. cbn [fst snd] in *. split; [left|]; [split; [done|cbn; by rewrite Z.eqb_refl]|].
    intros u Hu. cbn. by destruct (Z.eqb_spec s u).
Qed.

(** A destination is no longer than the source whose buckets it holds. *)
Definition supported (r : CompactionRule) (f : Timestamp -> option f64) (l : list Sample) : Prop :=
  forall s, f s <> None -> bucket r s l <> [].

Lemma supported_fits adj k f r l dl : dest_holds adj k f -> stores chunk_fit (series k) dl -> (forall s, agrees (lookup_ts s dl) (f s)) ->
  supported r f l -> fits_memory l -> fits_memory dl.
Proof.
  intros _ Hst Hag Hsup Hm. pose proof (stores_content _ _ Hst) as [Hs _].
  enough (length dl <= length l)%nat by (unfold fits_memory, SAMPLE_SIZE in *; lia).
  rewrite <- (length_map timestamp dl), <- (length_map (fun x => rule_bucket_start r (timestamp x)) l).
  apply submseteq_length, NoDup_submseteq; [by apply ts_sorted_NoDup|].
  intros u (x & Hu & Hx)%list_elem_of_In%in_map_iff. apply list_elem_of_In in Hx.
  assert (is_Some (lookup_ts u dl)) as [y Hy] by (apply lookup_is_Some; eauto).
  specialize (Hag u). rewrite Hy in Hag. inversion Hag as [? v _ Hv|]; subst.
  assert (bucket r (timestamp x) l <> []) as Hb by (apply Hsup; congruence).
  destruct (bucket r (timestamp x) l) as [|z b] eqn:Eb; [done|]. assert (z ∈ bucket r (timestamp x) l) as Hz by (rewrite Eb; by left).
  apply list_elem_of_In, filter_In in Hz as [Hz Hzu]. apply list_elem_of_In, in_map_iff. exists z. split; [|done]. by apply Z.eqb_eq.
Qed.

(** The parts of a context a write to the destination leaves alone. *)
Definition same_rule (c c' : CompactionContext) : Prop :=
  parent c' = parent c /\ cx_rule c' = cx_rule c /\ ks_key (cx_dest c') = ks_key (cx_dest c) /\
  rules (cx_dest c') = rules (cx_dest c) /\ src_series (cx_dest c') = src_series (cx_dest c).

Lemma same_rule_trans c1 c2 c3 : same_rule c1 c2 -> same_rule c2 c3 -> same_rule c1 c3.
Proof. intros (? & ? & ? & ? & ?) (? & ? & ? & ? & ?). split_and!; congruence. Qed.

Lemma add_dest_spec adj c f s v : dest_holds adj (cx_dest c) f -> rule_bucket_start (cx_rule c) s = s -> 0 <= s < 2 ^ 63 ->
  is_f64 v -> f64_is_nan (adj v) = false ->
  exists o c', add_dest_bucket s v c = (Ok o, c') /\ same_rule c c' /\ dest_holds adj (cx_dest c') (<[s := Some (adj v)]> f) /\
    (forall x, o = Some x -> timestamp x = s).
Proof.
  intros [(dl & Hst & Hag & Hm) Hp Hr] Hs Hb Hv Hn. unfold add_dest_bucket. rewrite Hs.
  destruct (add_dest_list (series (cx_dest c)) dl s v Hst Hp Hb Hv) as (r & t' & dl' & E & Hst' & Hset & Hat & Hother); [by rewrite Hr|].
  rewrite E. rewrite Hr in Hat.
  assert (forall k', last_forward_close k' = last_forward_close (cx_dest c) \/
      (last_forward_close (cx_dest c) = None /\ exists x, last_forward_close k' = Some x /\ timestamp x = s) ->
    series k' = t' -> (exists x, lookup_ts s dl' = Some x /\ close (value x) (adj v)) -> dest_holds adj k' (<[s:=Some (adj v)]> f)) as Hgen.
  { intros k' Hmk Hk' (x & Hx & Hcl). split.
    - exists dl'. rewrite Hk'. split_and!; [done| |].
      + intros u. destruct (decide (u = s)) as [->|Hne]; [rewrite fn_lookup_insert, Hx; by constructor|].
        rewrite fn_lookup_insert_ne by done. by rewrite Hother.
      + intros y Hy. destruct (decide (timestamp y = s)) as [->|Hne]; [eauto|]. rewrite Hother by done.
        destruct Hmk as [Hmk|(_ & z & Hz & Hzs)]; [apply Hm; congruence|congruence].
    - rewrite Hk'. by apply (plain_settings _ _ Hset).
    - intros w. rewrite Hk', (adjust_settings _ _ _ Hset). apply Hr. }
  destruct Hat as [[-> Hl]|(u & x & -> & -> & Hl & Hc)].
  - eexists _, _. split; [done|]. split; [unfold same_rule; cbn; by destruct (last_forward_close (cx_dest c))|]. split.
    + apply Hgen; [|by destruct (last_forward_close _)|exists (mkSample s (adj v)); by split; [|left]].
      cbn. destruct (last_forward_close (cx_dest c)) eqn:Em; [by left|]. right. split; [done|]. by exists (mkSample s (adj v)).
    + by intros x [= <-].
  - eexists None, _. split; [done|]. split; [done|]. split; [|done]. apply Hgen; [by left|done|]. by exists x.
Qed.

Definition cut (s e : Timestamp) (f : Timestamp -> option f64) : Timestamp -> option f64 :=
  fun u => if (s <=? u) && (u <=? e) then None else f u.

Lemma remove_dest_spec adj c f s e l : dest_holds adj (cx_dest c) f -> supported (cx_rule c) f l -> fits_memory l -> s <= e ->
  exists n c', remove_dest_range s e c = (Ok n, c') /\ same_rule c c' /\ dest_holds adj (cx_dest c') (cut s e f).
Proof.
  intros Hd Hsup Hf Hse. pose proof Hd as [(dl & Hst & Hag & Hm) Hp Hr]. pose proof (supported_fits _ _ _ _ _ _ Hd Hst Hag Hsup Hf) as Hfd.
  destruct Hst as (ls & Hrep & Hcat). unfold remove_dest_range.
  destruct (remove_range_spec (series (cx_dest c)) ls s e Hrep) as (t' & ls' & E & Hrep' & Hset & Ecat & _).
  rewrite E. specialize (Ecat Hse). rewrite (visible_zero _ _ Hrep) in Ecat by apply Hp. rewrite Hcat in Ecat.
  assert (fits_memory (concat ls')) as Hf'.
  { rewrite Ecat. unfold fits_memory, remove in *. pose proof (filter_length_le (fun x => negb (in_range s e x)) dl). unfold SAMPLE_SIZE in *. lia. }
  assert (forall k', series k' = t' -> marker_live k' (concat ls') -> dest_holds adj k' (cut s e f)) as Hgen.
  { intros k' Hk' Hm'. split; rewrite ?Hk'.
    - exists (concat ls'). split_and!; [by exists ls'| |done]. intros u. rewrite Ecat, lookup_remove. unfold cut.
      destruct (_ && _); [constructor|apply Hag].
    - by apply (plain_settings _ _ Hset).
    - intros w. rewrite (adjust_settings _ _ _ Hset). apply Hr. }
  eexists _, _. split; [done|]. cbn [last_forward_close ks_with_series].
  destruct (last_forward_close (cx_dest c)) as [mk|] eqn:Em.
  - rewrite (get_sample_spec _ _ _ Hrep' Hf'). destruct (lookup_ts (timestamp mk) (concat ls')) as [x|] eqn:Ex.
    + split; [done|]. apply Hgen; [done|]. intros y Hy. cbn in Hy. rewrite Em in Hy. injection Hy as <-. by rewrite Ex.
    + split; [done|]. apply Hgen; [done|]. intros y Hy. cbn in Hy. rewrite (sr_last _ _ Hrep') in Hy. apply lookup_is_Some.
      exists y. split; [by apply last_Some_elem_of|done].
  - split; [done|]. apply Hgen; [done|]. intros y Hy. cbn in Hy. congruence.
Qed.

Lemma dest_holds_ext adj k f g : (forall s, f s = g s) -> dest_holds adj k f -> dest_holds adj k g.
Proof. intros He [(dl & Hst & Hag & Hm) Hp Hr]. split; [|done|done]. exists dl. split_and!; [done| |done]. intros s. rewrite <- He. apply Hag. Qed.

(** ** The invariant of a rule *)

(** The rule [r0] as it was made, with its aggregator [fresh], and the rounding
    of its destination. *)
Context (r0 : CompactionRule) (fresh : Aggregator) (adj : f64 -> f64).
Hypothesis Hgrid : rule_grid r0.
Hypothesis Hfresh : agg_reset fresh = fresh.

#[local] Abbreviation start := (rule_bucket_start r0).

(** What a bucket publishes is a number. *)
Definition numeric : Prop := forall ss v, Forall sample_valid ss -> bucket_value fresh ss = Some v -> is_f64 v /\ f64_is_nan (adj v) = false.
Hypothesis Hnum : numeric.

Definition source_open (l : list Sample) : option Timestamp := (fun x => start (timestamp x)) <$> list.last l.

Definition open_part (l : list Sample) : list Sample :=
  match source_open l with Some o => bucket r0 o l | None => [] end.

(** The state of the rule when the source holds [l]. *)
Definition open_rule (l : list Sample) : CompactionRule :=
  rule_with r0 (feed_all fresh (open_part l)) (source_open l) (took fresh (open_part l)).

(** The value of the bucket at [s] in the destination when the source holds [l]:
    there is one for each closed bucket that took a sample. *)
Definition closed (l : list Sample) (s : Timestamp) : option f64 :=
  match source_open l with
  | Some o => if s <? o then adj <$> bucket_value fresh (bucket r0 s l) else None
  | None => None
  end.

Record compacted (l : list Sample) (c : CompactionContext) : Prop := {
  ci_rule : cx_rule c = open_rule l;
  ci_dest : dest_holds adj (cx_dest c) (closed l);
}.

(** *** Buckets of a list *)

Lemma bucket_snoc s l x : bucket r0 s (l ++ [x]) = if start (timestamp x) =? s then bucket r0 s l ++ [x] else bucket r0 s l.
Proof. rewrite bucket_app. unfold bucket at 2. cbn [List.filter]. destruct (_ =? s); [done|by rewrite app_nil_r]. Qed.

Lemma bucket_none s l : Forall (fun x => start (timestamp x) <> s) l -> bucket r0 s l = [].
Proof. intros Hl. apply filter_none. eapply Forall_impl; [exact Hl|]. cbn. intros x Hx. by apply Z.eqb_neq. Qed.

Lemma bucket_elem s l x : x ∈ bucket r0 s l <-> x ∈ l /\ start (timestamp x) = s.
Proof. rewrite list_elem_of_In. unfold bucket. rewrite filter_In, <- list_elem_of_In, Z.eqb_eq. done. Qed.

Lemma bucket_valid s l : Forall sample_valid l -> Forall sample_valid (bucket r0 s l).
Proof. apply Forall_list_filter. Qed.

Lemma source_open_snoc l x : source_open (l ++ [x]) = Some (start (timestamp x)).
Proof. unfold source_open. by rewrite last_snoc. Qed.

(** No sample is in a bucket after the open one. *)
Lemma open_greatest l o x : content_ok l -> all_early l -> source_open l = Some o -> x ∈ l -> start (timestamp x) <= o.
Proof.
  intros [Hs _] He Ho Hx. unfold source_open in Ho. destruct (list.last l) as [z|] eqn:Ez; [|done]. injection Ho as <-.
  assert (z ∈ l) as Hz by (by apply last_Some_elem_of). unfold all_early in He. rewrite Forall_forall in He.
  apply (start_mono r0 Hgrid); [by apply He|by apply He|]. apply last_Some in Ez as [l' ->]. apply ts_sorted_snoc in Hs as [_ Hs].
  apply elem_of_app in Hx as [Hx|Hx%list_elem_of_singleton]; [|by subst]. rewrite Forall_forall in Hs. specialize (Hs x Hx). unfold ts_lt in Hs. lia.
Qed.

Lemma after_open l o s : content_ok l -> all_early l -> source_open l = Some o -> o < s -> bucket r0 s l = [].
Proof. intros Hl He Ho Hs. apply bucket_none, Forall_forall. intros x Hx. pose proof (open_greatest l o x Hl He Ho Hx). lia. Qed.

Lemma bucket_value_nil : bucket_value fresh [] = None.
Proof. done. Qed.

Lemma closed_supported l : supported r0 (closed l) l.
Proof.
  intros s Hs. unfold closed in Hs. destruct (source_open l) as [o|]; [|done]. destruct (s <? o); [|done]. intros E. by rewrite E in Hs.
Qed.

(** *** Streaming *)

Lemma feed_update r ss st x :
  rule_update (rule_with r (feed_all fresh ss) st (took fresh ss)) (timestamp x) (value x) =
  rule_with r (feed_all fresh (ss ++ [x])) st (took fresh (ss ++ [x])).
Proof.
  unfold rule_update. cbn [aggregator rule_with bucket_start has_samples]. rewrite feed_all_snoc, took_snoc. unfold feed_one.
  destruct (agg_update (feed_all fresh ss) (timestamp x) (value x)) as [ok a]. cbn [fst snd]. unfold rule_with. cbn. f_equal.
  destruct ok, (took fresh ss); done.
Qed.

(** The parts of a context no operation changes. *)
Definition same_place (c c' : CompactionContext) : Prop :=
  parent c' = parent c /\ ks_key (cx_dest c') = ks_key (cx_dest c) /\
  rules (cx_dest c') = rules (cx_dest c) /\ src_series (cx_dest c') = src_series (cx_dest c).

Lemma same_rule_place c c' : same_rule c c' -> same_place c c'.
Proof. by intros (? & _ & ? & ? & ?). Qed.

(** A sample of the open bucket, or of the first one. *)
Lemma stream_same l x c : content_ok l -> all_early l ->
  match source_open l with Some o => start (timestamp x) = o | None => True end ->
  compacted l c -> compacted (l ++ [x]) (cx_with_rule c (rule_update (rule_with (cx_rule c) (aggregator (cx_rule c)) (Some (start (timestamp x)))
    (has_samples (cx_rule c))) (timestamp x) (value x))).
Proof.
  intros Hl He Ho [Hr Hd]. split.
  - cbn [cx_rule cx_with_rule]. rewrite Hr. unfold open_rule. cbn [aggregator has_samples rule_with].
    rewrite (feed_update (rule_with r0 _ _ _)). unfold open_part, rule_with. rewrite source_open_snoc, bucket_snoc, Z.eqb_refl. cbn.
    unfold source_open in *. destruct (list.last l) as [z|] eqn:Ez; cbn [fmap option_fmap option_map] in *; [by rewrite Ho|].
    apply last_None in Ez as ->. done.
  - cbn [cx_dest cx_with_rule]. eapply dest_holds_ext; [|exact Hd]. intros s. unfold closed. rewrite source_open_snoc, bucket_snoc.
    destruct (source_open l) as [o|] eqn:Eo.
    + rewrite Ho. destruct (Z.ltb_spec s o); [|done]. by destruct (Z.eqb_spec o s); [lia|].
    + destruct (Z.ltb_spec s (start (timestamp x))); [|done]. destruct (Z.eqb_spec (start (timestamp x)) s); [lia|].
      unfold source_open in Eo. destruct (list.last l) eqn:El; [done|]. by apply last_None in El as ->.
Qed.

Lemma dest_holds_mark k f x : f (timestamp x) <> None -> dest_holds adj k f -> dest_holds adj (ks_with_close k (Some x)) f.
Proof.
  intros Hx [(dl & Hst & Hag & Hm) Hp Hr]. split; [|done|done]. exists dl. split_and!; [done|done|]. intros y [= <-].
  specialize (Hag (timestamp x)). destruct (lookup_ts (timestamp x) dl); [done|]. inversion Hag as [|Hn]. congruence.
Qed.

Lemma closed_open l o : source_open l = Some o -> closed l o = None.
Proof. intros Eo. unfold closed. rewrite Eo. by destruct (Z.ltb_spec o o); [lia|]. Qed.

(** A sample of a later bucket closes the open one. *)
Lemma closed_advance l x o s : content_ok l -> all_early l -> source_open l = Some o -> o < start (timestamp x) ->
  closed (l ++ [x]) s = (<[o := adj <$> bucket_value fresh (open_part l)]> (closed l)) s.
Proof.
  intros Hl He Eo Ho. unfold closed at 1. rewrite source_open_snoc, bucket_snoc. destruct (decide (s = o)) as [->|Hne].
  - rewrite fn_lookup_insert. unfold open_part. rewrite Eo. destruct (Z.ltb_spec o (start (timestamp x))); [|lia].
    by destruct (Z.eqb_spec (start (timestamp x)) o); [lia|].
  - rewrite fn_lookup_insert_ne by done. unfold closed. rewrite Eo. destruct (Z.ltb_spec s o).
    + destruct (Z.ltb_spec s (start (timestamp x))); [|lia]. by destruct (Z.eqb_spec (start (timestamp x)) s); [lia|].
    + destruct (Z.ltb_spec s (start (timestamp x))); [|done]. destruct (Z.eqb_spec (start (timestamp x)) s); [lia|].
      by rewrite (after_open l o s) by (done || lia).
Qed.

Lemma open_start l o : all_early l -> source_open l = Some o -> early o /\ start o = o.
Proof.
  intros He Eo. unfold source_open in Eo. destruct (list.last l) as [z|] eqn:Ez; [|done]. injection Eo as <-. apply last_Some_elem_of in Ez.
  unfold all_early in He. rewrite Forall_forall in He. specialize (He z Ez). split; [|by apply start_idem].
  pose proof (start_le r0 Hgrid _ He). unfold early in *. lia.
Qed.

Lemma restart_rule l x o r : content_ok l -> all_early l -> source_open l = Some o -> o < start (timestamp x) ->
  rule_reset r = rule_with r0 fresh None false ->
  rule_update (rule_with (rule_reset r) (aggregator (rule_reset r)) (Some (start (timestamp x))) (has_samples (rule_reset r))) (timestamp x) (value x) =
  open_rule (l ++ [x]).
Proof.
  intros Hl He Eo Ho ->. cbn [aggregator has_samples rule_with]. rewrite (feed_update (rule_with r0 _ _ _) []). unfold open_rule, open_part.
  by rewrite source_open_snoc, bucket_snoc, Z.eqb_refl, (after_open l o _ Hl He Eo Ho).
Qed.

Lemma reset_open l c : cx_rule c = open_rule l -> agg_reset (aggregator (cx_rule c)) = fresh.
Proof. intros ->. cbn [aggregator open_rule rule_with]. by rewrite reset_feed. Qed.

Lemma finalize_bucket_spec l x c o : compacted l c -> content_ok l -> all_early l -> source_open l = Some o -> o < start (timestamp x) ->
  exists c', finalize_current_bucket x (start (timestamp x)) c = (Ok tt, c') /\ compacted (l ++ [x]) c' /\ same_place c c'.
Proof.
  intros [Hr Hd] Hl He Eo Ho. destruct (open_start l o He Eo) as [Hoe Hoo]. pose proof (reset_open l c Hr) as Hreset.
  assert (has_samples (cx_rule c) = took fresh (open_part l)) as Hhas by (by rewrite Hr).
  assert (bucket_start (cx_rule c) = Some o) as Hbs by (rewrite Hr; exact Eo).
  unfold finalize_current_bucket, start_bucket, cx_update. csteps. rewrite Hhas.
  pose proof (closed_advance l x o) as Hadv. unfold bucket_value in Hadv. destruct (took fresh (open_part l)) eqn:Et.
  - destruct (agg_finalize (aggregator (cx_rule c))) as [v a] eqn:Ef.
    assert (a = fresh) as -> by (unfold agg_finalize in Ef; rewrite Hreset in Ef; by injection Ef).
    assert (bucket_value fresh (open_part l) = Some v) as Ev.
    { unfold bucket_value. rewrite Et. f_equal. rewrite Hr in Ef. cbn [aggregator open_rule rule_with] in Ef. unfold agg_finalize in *. by injection Ef. }
    destruct (Hnum (open_part l) v) as [Hv Hn]; [unfold open_part; rewrite Eo; apply bucket_valid, Hl|done|].
    rewrite Hbs. cbn [default]. csteps. set (c1 := cx_with_rule c _).
    destruct (add_dest_spec adj c1 (closed l) o v) as (pub & c2 & E2 & (Hp2 & Hr2 & Hk2) & Hd2 & Hpub); try done.
    { unfold c1. cbn. by rewrite Hr. } { unfold early, TIME_BOUND in Hoe. lia. }
    cstep E2. assert (exists c3, (match pub with Some s => cmodify (fun c => cx_with_dest c (ks_with_close (cx_dest c) (Some s))) | None => cret tt end) c2
      = (Ok tt, c3) /\ parent c3 = parent c /\ cx_rule c3 = cx_rule c1 /\ same_place c1 c3 /\ dest_holds adj (cx_dest c3) (<[o:=Some (adj v)]> (closed l)))
      as (c3 & E3 & Hp3 & Hr3 & Hs3 & Hd3).
    { destruct pub as [s|]; eexists; (split; [done|]); (split_and!; [done|done|done|]); [|exact Hd2]. apply dest_holds_mark; [|exact Hd2].
      by rewrite (Hpub s eq_refl), fn_lookup_insert. }
    cstep E3. eexists. split; [done|]. split; [split|by destruct Hs3].
    + cbn [cx_rule cx_with_rule]. apply (restart_rule l x o _ Hl He Eo Ho). rewrite Hr3. unfold c1, rule_reset, rule_with.
      cbn [aggregator cx_rule cx_with_rule dest cr_bucket_duration align_timestamp]. by rewrite Hr, Hfresh.
    + cbn [cx_dest cx_with_rule]. eapply dest_holds_ext; [|exact Hd3]. intros s. rewrite (Hadv s Hl He Eo Ho). f_equal. f_equal.
      cbn. unfold bucket_value in Ev. rewrite Et in Ev. by injection Ev as ->.
  - csteps. eexists. split; [done|]. split; [split|done].
    + cbn [cx_rule cx_with_rule]. apply (restart_rule l x o _ Hl He Eo Ho). unfold rule_reset. rewrite Hreset, Hr. done.
    + cbn [cx_dest cx_with_rule]. eapply dest_holds_ext; [|exact Hd]. intros s. rewrite (Hadv s Hl He Eo Ho). cbn.
      destruct (decide (s = o)) as [->|Hne]; [by rewrite fn_lookup_insert, closed_open|by rewrite fn_lookup_insert_ne].
Qed.

Lemma handle_sample_spec l x c : compacted l c -> content_ok (l ++ [x]) -> all_early (l ++ [x]) ->
  exists c', handle_sample_compaction x c = (Ok tt, c') /\ compacted (l ++ [x]) c' /\ same_place c c'.
Proof.
  intros Hc Hl He. pose proof Hc as [Hr Hd]. apply Forall_app in He as [He [Hx _]%Forall_cons].
  assert (content_ok l) as Hl'. { destruct Hl as [Hs Hv]. apply ts_sorted_snoc in Hs as [Hs _]. apply Forall_app in Hv as [Hv _]. done. }
  unfold handle_sample_compaction. unfold cbind at 1. cbn [cget]. rewrite Hr. cbn [bucket_start open_rule rule_with].
  change (rule_bucket_start (open_rule l)) with start.
  pose proof (stream_same l x c Hl' He) as Hsame. destruct (source_open l) as [o|] eqn:Eo.
  - destruct (Z.compare_spec (start (timestamp x)) o) as [Heq|Hlt|Hgt].
    + eexists. split; [done|]. split; [|done]. specialize (Hsame Heq Hc). rewrite Heq in Hsame. cbn [cx_with_rule].
      assert (rule_with (cx_rule c) (aggregator (cx_rule c)) (Some o) (has_samples (cx_rule c)) = cx_rule c) as E.
      { rewrite Hr. unfold open_rule. by rewrite Eo. }
      rewrite E in Hsame. exact Hsame.
    + exfalso. unfold source_open in Eo. destruct (list.last l) as [z|] eqn:Ez; [|done]. injection Eo as <-.
      apply last_Some in Ez as [l' ->]. destruct Hl as [Hs _]. rewrite <- app_assoc in Hs. apply ts_sorted_app in Hs as (_ & [_ Hs]%ts_sorted_cons & _).
      apply Forall_cons in Hs as [Hs _]. apply Forall_app in He as [_ [Hz _]%Forall_cons].
      pose proof (start_mono r0 Hgrid (timestamp z) (timestamp x) Hz Hx ltac:(unfold ts_lt in Hs; lia)). lia.
    + by apply (finalize_bucket_spec l x c o).
  - eexists. split; [done|]. split; [by apply Hsame|done].
Qed.

(** *** Recalculation *)

(** The rule [r0] in some state. *)
Definition rule_of (r : CompactionRule) : Prop := exists a st has, r = rule_with r0 a st has /\ agg_reset a = fresh.

Lemma rule_of_open l : rule_of (open_rule l).
Proof. eexists _, _, _. split; [done|]. by rewrite reset_feed. Qed.

(** A source that keeps everything. *)
Record source_ok (t : TimeSeries) (l : list Sample) : Prop := {
  so_stores : exists P, stores P t l;
  so_keeps : retention t = 0;
  so_early : all_early l;
  so_memory : fits_memory l;
}.

Lemma source_content t l : source_ok t l -> content_ok l.
Proof. intros [[P Hst] _ _ _]. by eapply stores_content. Qed.

Lemma source_min t l : source_ok t l -> Forall (fun x => get_min_timestamp t <= timestamp x) l.
Proof. intros [(P & ls & Hr & <-) Hz _ _]. by apply (min_timestamp_zero t ls Hr). Qed.

Lemma source_last t l : source_ok t l -> last_sample t = list.last l.
Proof. intros [(P & ls & Hr & <-) Hz _ _]. apply (sr_last _ _ Hr). Qed.

Lemma calculate_spec t l a ts min_ts (f : Timestamp -> bool) : source_ok t l -> early ts -> Forall (fun x => min_ts <= timestamp x) l -> agg_reset a = fresh ->
  let ss := List.filter (fun x => f (timestamp x)) (bucket r0 (start ts) l) in
  calculate_range t a (start ts) (wrap_i64 (bucket_end r0 (start ts) - 1)) min_ts f = (took fresh ss, feed_all fresh ss).
Proof.
  intros [[P Hst] Hz He _] Hts Hmin Ha ss. unfold calculate_range. rewrite (stored_samples_spec _ _ _ _ Hst), select_raised, select_bucket by done.
  by rewrite Ha, aggregate_samples_spec.
Qed.

Lemma recalculate_current_spec c l ts min_ts : source_ok (parent c) l -> rule_of (cx_rule c) -> early ts -> Forall (fun x => min_ts <= timestamp x) l ->
  recalculate_current_bucket (start ts) (bucket_end r0 (start ts)) min_ts c =
  (Ok tt, cx_with_rule c (rule_with r0 (feed_all fresh (bucket r0 (start ts) l)) (Some (start ts)) (took fresh (bucket r0 (start ts) l)))).
Proof.
  intros Hs (a & st & has & Hr & Ha) Hts Hmin. unfold recalculate_current_bucket, cmodify. rewrite Hr. cbn [aggregator rule_with].
  rewrite (calculate_spec _ _ _ _ _ _ Hs Hts Hmin Ha). cbn zeta. by rewrite filter_all by (by apply Forall_true).
Qed.

(** Only starts of buckets have a value. *)
Lemma supported_start f l u : all_early l -> supported r0 f l -> f u <> None -> early u /\ start u = u.
Proof.
  intros He Hsup Hu. apply Hsup in Hu. destruct (bucket r0 u l) as [|x b] eqn:Eb; [done|].
  assert (x ∈ bucket r0 u l) as [Hx <-]%bucket_elem by (rewrite Eb; by left). unfold all_early in He. rewrite Forall_forall in He. specialize (He x Hx).
  split; [|by apply start_idem]. pose proof (start_le r0 Hgrid _ He). unfold early in *. lia.
Qed.

Lemma cut_bucket f l ts u : all_early l -> supported r0 f l -> early ts ->
  cut (start ts) (wrap_i64 (bucket_end r0 (start ts) - 1)) f u = (<[start ts := None]> f) u.
Proof.
  intros He Hsup Hts. pose proof (end_gt r0 Hgrid ts Hts) as Hend. pose proof (start_le r0 Hgrid ts Hts) as Hst.
  rewrite wrap_i64_id by (unfold early, TIME_BOUND in *; ilia). unfold cut. destruct (decide (u = start ts)) as [->|Hne].
  - rewrite fn_lookup_insert. destruct ((_ <=? _) && _) eqn:E; [done|]. lia.
  - rewrite fn_lookup_insert_ne by done. destruct ((_ <=? _) && _) eqn:E; [|done]. destruct (f u) eqn:Ef; [|done]. exfalso.
    destruct (supported_start f l u He Hsup) as [Hu Hus]; [congruence|]. apply Hne. rewrite <- Hus at 1. apply start_eq; try done. lia.
Qed.

Lemma recalculate_spec c f l0 l ts min_ts (p : Timestamp -> bool) : dest_holds adj (cx_dest c) f -> supported r0 f l0 -> all_early l0 -> fits_memory l0 ->
  source_ok (parent c) l -> rule_of (cx_rule c) -> early ts -> Forall (fun x => min_ts <= timestamp x) l ->
  exists c', recalculate_bucket (start ts) (bucket_end r0 (start ts)) min_ts p c = (Ok tt, c') /\ same_rule c c' /\
    dest_holds adj (cx_dest c') (<[start ts := adj <$> bucket_value fresh (List.filter (fun x => p (timestamp x)) (bucket r0 (start ts) l))]> f).
Proof.
  intros Hd Hsup He0 Hf Hs Hro Hts Hmin. pose proof Hro as (a & st & has & Hr & Ha). unfold recalculate_bucket. csteps.
  assert (agg_reset (aggregator (cx_rule c)) = fresh) as Hra by (by rewrite Hr).
  rewrite Hra, (calculate_spec _ _ _ _ _ _ Hs Hts Hmin Hfresh). cbn zeta.
  set (ss := List.filter _ _). pose proof (start_le r0 Hgrid ts Hts) as Hst. pose proof (end_gt r0 Hgrid ts Hts) as Hend.
  assert (rule_bucket_start (cx_rule c) (start ts) = start ts) as Hidem by (rewrite Hr; exact (start_idem r0 Hgrid ts Hts)).
  destruct (took fresh ss) eqn:Et.
  - assert (bucket_value fresh ss = Some (agg_finalize (feed_all fresh ss)).1) as Ev by (unfold bucket_value; by rewrite Et).
    destruct (Hnum ss (agg_finalize (feed_all fresh ss)).1) as [Hv Hn]; [|exact Ev|]. { apply Forall_list_filter, bucket_valid. by apply (source_content _ _ Hs). }
    destruct (add_dest_spec adj c f (start ts) (agg_finalize (feed_all fresh ss)).1) as (pub & c2 & E2 & Hsame & Hd2 & _); try done.
    { unfold early, TIME_BOUND in Hts. lia. }
    cstep E2. exists c2. split; [done|]. split; [done|]. by rewrite Ev.
  - assert (bucket_value fresh ss = None) as Ev by (unfold bucket_value; by rewrite Et).
    destruct (remove_dest_spec adj c f (start ts) (wrap_i64 (bucket_end r0 (start ts) - 1)) l0) as (n & c2 & E2 & Hsame & Hd2); try done.
    { rewrite Hr. exact Hsup. } { rewrite wrap_i64_id by (unfold early, TIME_BOUND in *; ilia). lia. }
    cstep E2. exists c2. split; [done|]. split; [done|]. rewrite Ev. cbn [fmap option_fmap option_map].
    eapply dest_holds_ext; [|exact Hd2]. intros u. by apply (cut_bucket f l0).
Qed.

(** A bucket is determined by what its timestamps hold. *)
Lemma bucket_ext s l l' : ts_sorted l -> ts_sorted l' -> (forall u, start u = s -> lookup_ts u l' = lookup_ts u l) -> bucket r0 s l' = bucket r0 s l.
Proof.
  intros Hl Hl' He. apply ts_sorted_ext; [by apply ts_sorted_filter|by apply ts_sorted_filter|]. intros x. rewrite !bucket_elem. split; intros [Hx Hs]; (split; [|done]);
    specialize (He _ Hs).
  - rewrite (lookup_ts_elem _ _ Hl' Hx) in He. symmetry in He. by apply lookup_ts_Some in He as [He _].
  - rewrite (lookup_ts_elem _ _ Hl Hx) in He. by apply lookup_ts_Some in He as [He _].
Qed.

(** Changes to one closed bucket. *)
Lemma closed_replace l l' o s u : source_open l = Some o -> source_open l' = Some o -> s < o -> (forall s', s' <> s -> bucket r0 s' l' = bucket r0 s' l) ->
  closed l' u = (<[s := adj <$> bucket_value fresh (bucket r0 s l')]> (closed l)) u.
Proof.
  intros Eo Eo' Hs Hb. unfold closed at 1. rewrite Eo'. destruct (decide (u = s)) as [->|Hne].
  - rewrite fn_lookup_insert. by destruct (Z.ltb_spec s o); [|lia].
  - rewrite fn_lookup_insert_ne by done. unfold closed. by rewrite Eo, Hb.
Qed.

Lemma open_rule_eq l l' : source_open l' = source_open l -> open_part l' = open_part l -> open_rule l' = open_rule l.
Proof. intros E1 E2. unfold open_rule. by rewrite E1, E2. Qed.

Lemma handle_upsert_spec l l' x o c : compacted l c -> content_ok l -> all_early l -> fits_memory l -> source_ok (parent c) l' ->
  source_open l = Some o -> source_open l' = Some o -> early (timestamp x) -> start (timestamp x) <= o ->
  (forall u, u <> timestamp x -> lookup_ts u l' = lookup_ts u l) ->
  exists c', handle_compaction_upsert x c = (Ok tt, c') /\ compacted l' c' /\ same_place c c'.
Proof.
  intros [Hr Hd] Hl He Hf Hs Eo Eo' Hx Hle Hlk. pose proof (source_content _ _ Hs) as Hl'. pose proof (source_min _ _ Hs) as Hmin.
  assert (rule_of (cx_rule c)) as Hro by (rewrite Hr; apply rule_of_open).
  assert (forall s', s' <> start (timestamp x) -> bucket r0 s' l' = bucket r0 s' l) as Hb.
  { intros s' Hs'. apply bucket_ext; [apply Hl|apply Hl'|]. intros u <-. apply Hlk. congruence. }
  assert (bucket_start (cx_rule c) = Some o) as Hbs by (rewrite Hr; exact Eo).
  unfold handle_compaction_upsert. csteps. rewrite Hbs, Hr. change (rule_bucket_start (open_rule l)) with start.
  change (bucket_end (open_rule l)) with (bucket_end r0). destruct (Z.eqb_spec (start (timestamp x)) o) as [Heq|Hne].
  - rewrite <- Heq, (recalculate_current_spec c l' (timestamp x) _ Hs Hro Hx Hmin). eexists. split; [done|]. split; [split|done].
    + cbn [cx_rule cx_with_rule]. unfold open_rule, open_part. rewrite Eo', <- Heq. done.
    + cbn [cx_dest cx_with_rule]. eapply dest_holds_ext; [|exact Hd]. intros s. unfold closed. rewrite Eo, Eo'. destruct (Z.ltb_spec s o); [|done].
      rewrite Hb by lia. done.
  - destruct (recalculate_spec c (closed l) l l' (timestamp x) (get_min_timestamp (parent c)) null_ts_filter Hd (closed_supported l) He Hf Hs Hro Hx Hmin)
      as (c' & E & Hsame & Hd'). exists c'. split; [exact E|]. split; [split|by apply same_rule_place].
    + destruct Hsame as (_ & -> & _). rewrite Hr. symmetry. apply open_rule_eq; [by rewrite Eo, Eo'|]. unfold open_part. rewrite Eo, Eo'. by apply Hb.
    + rewrite filter_all in Hd' by (by apply Forall_true). eapply dest_holds_ext; [|exact Hd']. intros u. symmetry. apply (closed_replace l l' o); try done. lia.
Qed.

(** *** Removal *)

Lemma dest_empty k f u : dest_holds adj k f -> series_is_empty (series k) = true -> f u = None.
Proof.
  intros [(dl & (ls & Hrep & <-) & Hag & _) _ _] He. unfold series_is_empty, series_len in He. rewrite (sr_total _ _ Hrep) in He.
  specialize (Hag u). apply Z.eqb_eq in He. assert (concat ls = []) as E by (apply length_zero_iff_nil; lia). rewrite E in Hag. by inversion Hag.
Qed.

(** The removal every caller guards with a test for an empty destination. *)
Lemma guarded_remove_spec c f s e l : dest_holds adj (cx_dest c) f -> rule_of (cx_rule c) -> supported r0 f l -> fits_memory l -> s <= e ->
  exists c', (if negb (series_is_empty (series (cx_dest c))) then cbind (remove_dest_range s e) (fun _ => cret tt) else cret tt) c = (Ok tt, c') /\
    same_rule c c' /\ dest_holds adj (cx_dest c') (cut s e f).
Proof.
  intros Hd (a & st & has & Hr & _) Hsup Hf Hse. destruct (series_is_empty (series (cx_dest c))) eqn:Ee; cbn [negb].
  - exists c. split; [done|]. split; [done|]. eapply dest_holds_ext; [|exact Hd]. intros u. unfold cut. rewrite (dest_empty _ _ _ Hd Ee). by destruct (_ && _).
  - destruct (remove_dest_spec adj c f s e l) as (n & c' & E & Hsame & Hd'); try done. { rewrite Hr. exact Hsup. }
    exists c'. cstep E. done.
Qed.

Definition value_at (l : list Sample) (s : Timestamp) : option f64 := adj <$> bucket_value fresh (bucket r0 s l).

Lemma value_at_none l s : bucket r0 s l = [] -> value_at l s = None.
Proof. unfold value_at. by intros ->. Qed.

Lemma supported_insert f l l' s : supported r0 f l -> (forall x, x ∈ l' -> x ∈ l) -> supported r0 (<[s := value_at l' s]> f) l.
Proof.
  intros Hsup Hsub u Hu. destruct (decide (u = s)) as [->|Hne]; [|rewrite fn_lookup_insert_ne in Hu by done; by apply Hsup].
  rewrite fn_lookup_insert in Hu. destruct (bucket r0 s l') as [|x b] eqn:Eb; [by rewrite value_at_none in Hu|].
  assert (x ∈ bucket r0 s l') as [Hx Hxs]%bucket_elem by (rewrite Eb; by left). intros En.
  assert (x ∈ bucket r0 s l) as Hin by (apply bucket_elem; auto). rewrite En in Hin. by apply elem_of_nil in Hin.
Qed.

Lemma supported_cut f l s e : supported r0 f l -> supported r0 (cut s e f) l.
Proof. intros Hsup u Hu. apply Hsup. intros Hn. apply Hu. unfold cut. rewrite Hn. by destruct (_ && _). Qed.

Lemma remove_elem st en l x : x ∈ remove st en l <-> x ∈ l /\ ~ (st <= timestamp x <= en).
Proof. rewrite !list_elem_of_In. unfold remove. rewrite filter_In. unfold in_range. split; intros [? Hx]; (split; [done|]); lia. Qed.

Lemma remove_bucket_spec c f l st en ts : let l' := remove st en l in
  dest_holds adj (cx_dest c) f -> supported r0 f l -> all_early l -> fits_memory l -> source_ok (parent c) l' -> rule_of (cx_rule c) -> early ts ->
  exists c', remove_or_recalculate_bucket (start ts) st en c = (Ok tt, c') /\ same_rule c c' /\
    dest_holds adj (cx_dest c') (if bool_decide (bucket_start (cx_rule c) = Some (start ts)) then f else <[start ts := value_at l' (start ts)]> f).
Proof.
  intros l' Hd Hsup He Hf Hs Hro Hts. unfold remove_or_recalculate_bucket. csteps. destruct (bool_decide _) eqn:Eo; [by exists c|].
  pose proof Hro as (a & bs & has & Hr & _). assert (bucket_end (cx_rule c) (start ts) = bucket_end r0 (start ts)) as Hend by (by rewrite Hr).
  rewrite Hend. pose proof (end_gt r0 Hgrid ts Hts) as Hgt. pose proof (start_le r0 Hgrid ts Hts) as Hst.
  destruct (Z.leb_spec st (start ts)) as [H1|H1]; [destruct (Z.leb_spec (bucket_end r0 (start ts)) en) as [H2|H2]|]; cbn [andb].
  - destruct (guarded_remove_spec c f (start ts) (wrap_i64 (bucket_end r0 (start ts) - 1)) l Hd Hro Hsup Hf) as (c' & E & Hsame & Hd').
    { rewrite wrap_i64_id by (unfold early, TIME_BOUND in *; ilia). lia. }
    exists c'. split; [exact E|]. split; [done|]. eapply dest_holds_ext; [|exact Hd']. intros u. rewrite (cut_bucket f l ts u He Hsup Hts).
    rewrite value_at_none; [done|]. apply bucket_none, Forall_forall. intros x [Hx Hout]%remove_elem Hxs.
    unfold all_early in He. rewrite Forall_forall in He. pose proof (He x Hx). apply (start_eq r0 Hgrid) in Hxs; try done. lia.
  - destruct (recalculate_spec c f l l' ts (get_min_timestamp (parent c)) (fun u => (u <? st) || (en <? u)) Hd Hsup He Hf Hs Hro Hts (source_min _ _ Hs))
      as (c' & E & Hsame & Hd'). exists c'. split; [exact E|]. split; [done|]. rewrite filter_all in Hd'; [exact Hd'|].
    apply Forall_forall. intros x [[_ Hx]%remove_elem _]%bucket_elem. lia.
  - destruct (recalculate_spec c f l l' ts (get_min_timestamp (parent c)) (fun u => (u <? st) || (en <? u)) Hd Hsup He Hf Hs Hro Hts (source_min _ _ Hs))
      as (c' & E & Hsame & Hd'). exists c'. split; [exact E|]. split; [done|]. rewrite filter_all in Hd'; [exact Hd'|].
    apply Forall_forall. intros x [[_ Hx]%remove_elem _]%bucket_elem. lia.
Qed.

Lemma resync_spec c f l l' : dest_holds adj (cx_dest c) f -> supported r0 f l -> all_early l -> fits_memory l -> source_ok (parent c) l' -> rule_of (cx_rule c) ->
  exists c', resync_open_bucket_after_removal c = (Ok tt, c') /\ same_place c c' /\ cx_rule c' = open_rule l' /\
    dest_holds adj (cx_dest c') (fun u => match source_open l' with Some o => if u <? o then f u else None | None => None end).
Proof.
  intros Hd Hsup He Hf Hs Hro. pose proof Hro as (a & bs & has & Hr & Ha). pose proof (source_content _ _ Hs) as Hl'.
  unfold resync_open_bucket_after_removal. csteps. rewrite (source_last _ _ Hs). unfold source_open at 1.
  assert (forall o u, o <= i64_MAX -> supported r0 f l -> cut o i64_MAX f u = if u <? o then f u else None) as Hcut.
  { intros o u Ho _. unfold cut. destruct (Z.leb_spec o u), (Z.ltb_spec u o); try lia; cbn [andb]; [|done].
    destruct (Z.leb_spec u i64_MAX) as [|Hu]; [done|]. destruct (f u) eqn:Efu; [|done]. exfalso.
    destruct (supported_start f l u He Hsup) as [Hue _]; [congruence|]. unfold early, TIME_BOUND, i64_MAX in *. lia. }
  destruct (list.last l') as [z|] eqn:Ez; cbn [fmap option_fmap option_map].
  - assert (early (timestamp z)) as Hz.
    { pose proof (so_early _ _ Hs) as Hel. unfold all_early in Hel. rewrite Forall_forall in Hel. by apply Hel, last_Some_elem_of. }
    pose proof (start_le r0 Hgrid _ Hz) as Hst. assert (get_bucket_range (cx_rule c) (timestamp z) = (start (timestamp z), bucket_end r0 (start (timestamp z)))) as Hg by (by rewrite Hr).
    rewrite Hg. destruct (guarded_remove_spec c f (start (timestamp z)) i64_MAX l Hd Hro Hsup Hf) as (c1 & E1 & Hsame & Hd1); [unfold early, TIME_BOUND, i64_MAX in *; lia|].
    cstep E1. unfold cmodify. destruct Hsame as (Hp1 & Hr1 & Hk1). rewrite Hp1, Hr1.
    destruct Hs as [[P Hst'] Hz' He' _]. rewrite (ranged_samples_spec _ _ _ _ Hst' Hz'), select_bucket by done.
    assert (agg_reset (aggregator (cx_rule c)) = fresh) as Hra by (by rewrite Hr). rewrite Hra, aggregate_samples_spec.
    eexists. split; [done|]. split; [by destruct Hk1 as (? & ? & ?)|]. split.
    + cbn [cx_rule cx_with_rule]. unfold open_rule, open_part, source_open. rewrite Ez, Hr. done.
    + cbn [cx_dest cx_with_rule]. eapply dest_holds_ext; [|exact Hd1]. intros u. apply Hcut; [|done]. unfold early, TIME_BOUND, i64_MAX in *. lia.
  - csteps. set (c1 := cx_with_rule c _). assert (rule_of (cx_rule c1)) as Hro1.
    { unfold c1. cbn [cx_rule cx_with_rule]. rewrite Hr. eexists _, _, _. split; [unfold rule_reset; cbn [aggregator rule_with]; rewrite Ha; done|done]. }
    destruct (guarded_remove_spec c1 f i64_MIN i64_MAX l Hd Hro1 Hsup Hf) as (c2 & E2 & Hsame & Hd2); [unfold i64_MIN, i64_MAX; lia|].
    exists c2. split; [exact E2|]. split; [by apply same_rule_place in Hsame|]. split.
    + destruct Hsame as (_ & -> & _). unfold c1. cbn [cx_rule cx_with_rule]. unfold open_rule, open_part, source_open. rewrite Ez, Hr.
      unfold rule_reset. cbn [aggregator rule_with]. by rewrite Ha.
    + eapply dest_holds_ext; [|exact Hd2]. intros u. unfold cut. destruct (f u) eqn:Efu; [|by destruct (_ && _)].
      destruct (supported_start f l u He Hsup) as [Hue _]; [congruence|]. destruct (_ && _) eqn:E; [done|]. unfold early, TIME_BOUND, i64_MIN, i64_MAX in *. lia.
Qed.

(** Buckets the removal does not touch. *)
Lemma untouched l st en u : content_ok l -> all_early l -> early st -> early en -> u <> start st -> u <> start en ->
  ~ (bucket_end r0 (start st) <= u < start en) -> value_at (remove st en l) u = value_at l u.
Proof.
  intros [Hl _] He Hst Hen H1 H2 H3. unfold value_at. f_equal. f_equal. apply ts_sorted_ext; [by apply ts_sorted_filter, ts_sorted_filter|by apply ts_sorted_filter|].
  intros x. rewrite !bucket_elem, remove_elem. split; [by intros [[? _] ?]|]. intros [Hx Hxu]. split; [split; [done|]|done]. intros [Ha Hb].
  unfold all_early in He. rewrite Forall_forall in He. pose proof (He x Hx) as Hxe.
  pose proof (start_mono r0 Hgrid _ _ Hst Hxe Ha). pose proof (start_mono r0 Hgrid _ _ Hxe Hen Hb).
  pose proof (start_next r0 Hgrid _ _ Hst Hxe). lia.
Qed.

(** Buckets strictly between the ends are emptied. *)
Lemma emptied l st en u : all_early l -> early st -> early en -> bucket_end r0 (start st) <= u < start en -> value_at (remove st en l) u = None.
Proof.
  intros He Hst Hen Hu. apply value_at_none, bucket_none, Forall_forall. intros x [Hx Hout]%remove_elem Hxu.
  unfold all_early in He. rewrite Forall_forall in He. pose proof (He x Hx) as Hxe. pose proof (start_le r0 Hgrid _ Hxe).
  pose proof (end_gt r0 Hgrid _ Hst). apply Hout. split; [lia|]. destruct (Z.le_gt_cases (timestamp x) en); [done|].
  pose proof (start_mono r0 Hgrid en (timestamp x) Hen Hxe ltac:(lia)). lia.
Qed.

Lemma remove_open l st en o o' : content_ok l -> all_early l -> source_open l = Some o -> source_open (remove st en l) = Some o' -> o' <= o.
Proof.
  intros Hl He Eo Eo'. unfold source_open in Eo'. destruct (list.last (remove st en l)) as [z|] eqn:Ez; [|done]. injection Eo' as <-.
  apply last_Some_elem_of, remove_elem in Ez as [Hz _]. by apply (open_greatest l).
Qed.

(** What the steps before the resynchronization leave below the open bucket. *)
Lemma removal_settles l st en c : let l' := remove st en l in
  compacted l c -> content_ok l -> all_early l -> fits_memory l -> source_ok (parent c) l' -> early st -> early en ->
  exists c' f, cbind (remove_or_recalculate_bucket (start st) st en) (fun _ =>
      if negb (start en =? start st) then
        cbind cget (fun c =>
          cbind (if (bucket_end (cx_rule c) (start st) <? start en) && negb (series_is_empty (series (cx_dest c)))
                 then cbind (remove_dest_range (bucket_end (cx_rule c) (start st)) (wrap_i64 (start en - 1))) (fun _ => cret tt) else cret tt)
            (fun _ => remove_or_recalculate_bucket (start en) st en))
      else cret tt) c = (Ok tt, c') /\
    same_rule c c' /\ dest_holds adj (cx_dest c') f /\ supported r0 f l /\ (forall o u, source_open l = Some o -> u < o -> f u = value_at l' u).
Proof.
  intros l' [Hr Hd] Hl He Hf Hs Hst Hen. assert (rule_of (cx_rule c)) as Hro by (rewrite Hr; apply rule_of_open).
  assert (forall x, x ∈ l' -> x ∈ l) as Hsub by (by intros x [? _]%remove_elem).
  assert (bucket_start (cx_rule c) = source_open l) as Hbs by (by rewrite Hr).
  assert (forall o u, source_open l = Some o -> u < o -> closed l u = value_at l u) as Hcl.
  { intros o u Eo Hu. unfold closed. rewrite Eo. by destruct (Z.ltb_spec u o); [|lia]. }
  destruct (remove_bucket_spec c (closed l) l st en st Hd (closed_supported l) He Hf Hs Hro Hst) as (c1 & E1 & Hs1 & Hd1). fold l' in Hd1. rewrite Hbs in Hd1.
  set (f1 := if bool_decide (source_open l = Some (start st)) then closed l else <[start st:=value_at l' (start st)]> (closed l)) in *.
  assert (supported r0 f1 l) as Hsup1 by (unfold f1; destruct (bool_decide _); [apply closed_supported|by apply supported_insert, Hsub; apply closed_supported]).
  assert (forall o u, source_open l = Some o -> u < o -> f1 u = if u =? start st then value_at l' u else value_at l u) as Hf1.
  { intros o u Eo Hu. unfold f1. rewrite Eo. destruct (bool_decide_reflect (Some o = Some (start st))) as [Heq|Hne].
    - injection Heq as ->. destruct (Z.eqb_spec u (start st)); [lia|]. by apply (Hcl (start st)).
    - destruct (Z.eqb_spec u (start st)) as [->|Hn]; [by rewrite fn_lookup_insert|]. rewrite fn_lookup_insert_ne by done. by apply (Hcl o). }
  cstep E1. pose proof Hs1 as (Hp1 & Hr1 & _). destruct (Z.eqb_spec (start en) (start st)) as [Heq|Hne]; cbn [negb].
  - exists c1, f1. split; [done|]. split; [done|]. split; [done|]. split; [done|]. intros o u Eo Hu. rewrite (Hf1 o u Eo Hu).
    destruct (Z.eqb_spec u (start st)); [done|]. symmetry. pose proof (end_gt r0 Hgrid _ Hst). pose proof (start_le r0 Hgrid _ Hst).
    apply untouched; try done; [congruence|]. lia.
  - csteps. assert (bucket_end (cx_rule c1) (start st) = bucket_end r0 (start st)) as Hme by (by rewrite Hr1, Hr). rewrite Hme.
    assert (rule_of (cx_rule c1)) as Hro1 by (by rewrite Hr1).
    assert (exists c2 f2, (if (bucket_end r0 (start st) <? start en) && negb (series_is_empty (series (cx_dest c1)))
      then cbind (remove_dest_range (bucket_end r0 (start st)) (wrap_i64 (start en - 1))) (fun _ => cret tt) else cret tt) c1 = (Ok tt, c2) /\
      same_rule c1 c2 /\ dest_holds adj (cx_dest c2) f2 /\ supported r0 f2 l /\
      (forall u, f2 u = if (bucket_end r0 (start st) <=? u) && (u <? start en) then None else f1 u)) as (c2 & f2 & E2 & Hs2 & Hd2 & Hsup2 & Hf2).
    { pose proof (start_le r0 Hgrid _ Hen) as Hle. destruct (Z.ltb_spec (bucket_end r0 (start st)) (start en)) as [Hlt|Hge]; cbn [andb].
      - destruct (guarded_remove_spec c1 f1 (bucket_end r0 (start st)) (wrap_i64 (start en - 1)) l Hd1 Hro1 Hsup1 Hf) as (c2 & E2 & Hs2 & Hd2).
        { rewrite wrap_i64_id by (unfold early, TIME_BOUND in *; ilia). lia. }
        exists c2, (cut (bucket_end r0 (start st)) (wrap_i64 (start en - 1)) f1). split; [done|]. split; [done|]. split; [done|].
        split; [by apply supported_cut|].
        intros u. unfold cut. rewrite wrap_i64_id by (unfold early, TIME_BOUND in *; ilia).
        replace (u <=? start en - 1) with (u <? start en) by lia. done.
      - exists c1, f1. split; [done|]. split; [done|]. split; [done|]. split; [done|]. intros u. destruct ((_ <=? u) && _) eqn:E; [lia|done]. }
    cstep E2. pose proof Hs2 as (Hp2 & Hr2 & _).
    destruct (remove_bucket_spec c2 f2 l st en en Hd2 Hsup2 He Hf) as (c3 & E3 & Hs3 & Hd3); [by rewrite Hp2, Hp1|by rewrite Hr2|done|].
    fold l' in Hd3. rewrite Hr2, Hr1, Hbs in Hd3. eexists c3, _. split; [exact E3|]. split; [exact (same_rule_trans _ _ _ Hs1 (same_rule_trans _ _ _ Hs2 Hs3))|]. split; [exact Hd3|]. split.
    + destruct (bool_decide (source_open l = Some (start en))); [exact Hsup2|by apply supported_insert].
    + intros o u Eo Hu. assert (u <> start en -> f2 u = value_at l' u) as Hu2.
      { intros Hun. rewrite Hf2. destruct ((_ <=? u) && _) eqn:E; [symmetry; apply emptied; try done; lia|]. rewrite (Hf1 o u Eo Hu).
        destruct (Z.eqb_spec u (start st)); [done|]. symmetry. apply untouched; try done. lia. }
      rewrite Eo. destruct (bool_decide_reflect (Some o = Some (start en))) as [Heq|Hn]; [injection Heq as ->; apply Hu2; lia|].
      destruct (decide (u = start en)) as [->|Hun]; [by rewrite fn_lookup_insert|]. rewrite fn_lookup_insert_ne by done. by apply Hu2.
Qed.

Lemma handle_removal_spec l st en c : let l' := remove st en l in
  compacted l c -> content_ok l -> all_early l -> fits_memory l -> source_ok (parent c) l' -> early st -> early en ->
  exists c', handle_compaction_range_removal st en c = (Ok tt, c') /\ compacted l' c' /\ same_place c c'.
Proof.
  intros l' Hc Hl He Hf Hs Hst Hen. destruct (removal_settles l st en c Hc Hl He Hf Hs Hst Hen) as (c1 & f & E1 & Hs1 & Hd1 & Hsup & Hval).
  pose proof Hc as [Hr Hd]. pose proof Hs1 as (Hp1 & Hr1 & _).
  destruct (resync_spec c1 f l l' Hd1 Hsup He Hf) as (c2 & E2 & Hs2 & Hr2 & Hd2); [by rewrite Hp1|rewrite Hr1, Hr; apply rule_of_open|].
  assert (forall ts, rule_bucket_start (cx_rule c) ts = start ts) as Hstart by (intros; by rewrite Hr).
  exists c2. split; [|split; [split|]].
  - unfold handle_compaction_range_removal. rewrite cbind_get, !Hstart. etrans; [symmetry; apply cbind_assoc|].
    rewrite (cbind_ok _ _ _ _ _ E1). exact E2.
  - exact Hr2.
  - eapply dest_holds_ext; [|exact Hd2]. intros u. unfold closed. destruct (source_open l') as [o'|] eqn:Eo'; [|done].
    destruct (Z.ltb_spec u o') as [Hu|]; [|done]. destruct (source_open l) as [o|] eqn:Eo.
    + pose proof (remove_open l st en o o' Hl He Eo Eo'). apply (Hval o); [done|lia].
    + exfalso. unfold source_open in Eo, Eo'. destruct (list.last l) eqn:El; [done|]. apply last_None in El. unfold l' in Eo'. by rewrite El in Eo'.
  - destruct Hs1 as (? & _ & ? & ? & ?), Hs2 as (? & ? & ? & ?). unfold same_place. split_and!; congruence.
Qed.

End Laws.
