(* ===== verification/CompactionBatch.v ===== *)
(** * CompactionBatch: a batch that was merged into the source of a rule

    The batch is replayed in the caller's order to tell appends from back-fills,
    then streamed and recalculated in time order: the rule and its destination
    end up as if the source had always held the merged samples. *)

From stdpp Require Import sets strings pretty sorting functions.
From S2P Require Import Prelude Float64 Types Slice Content ChunkOps Elf64 Log10Ref TimeSeriesChunk ChunkSearch SeriesIterator Rounding.
From S2P Require Import TimeSeries SeriesLaws SeriesReads SeriesWrites Aggregators AggregateIterator AggregateLaws AggregateColumns.
From S2P Require Import Compaction CompactionLaws.

(** ** The replay *)

Section Replay.

Context (r : CompactionRule) (prev : option Timestamp).

(** What holds of the replay after the timestamps [pre]. *)
Record replay_ok (pre : list Timestamp) (p : Replay) : Prop := {
  ro_high : forall u, u ∈ pre \/ prev = Some u -> exists h, high_water p = Some h /\ u <= h;
  ro_from : high_water p = prev \/ exists h, high_water p = Some h /\ h ∈ advanced p;
  ro_advanced : forall u, u ∈ advanced p -> u ∈ pre /\ forall q, prev = Some q -> q < u;
  ro_open : forall h, high_water p = Some h -> h ∈ advanced p -> open_bucket p = Some (rule_bucket_start r h);
  ro_back : forall e, e ∈ backfilled p -> e.1 ∈ pre;
  ro_old : forall u q, u ∈ pre -> prev = Some q -> u <= q -> u ∈ (backfilled p).*1;
  ro_top : forall h, high_water p = Some h -> h ∈ advanced p -> h ∉ (backfilled p).*1;
}.

Lemma replay_start st : replay_ok [] (mkReplay [] [] prev st).
Proof. split; cbn; intros; set_solver. Qed.

Lemma replay_advance pre p ts : replay_ok pre p -> (forall h, high_water p = Some h -> h < ts) ->
  replay_ok (pre ++ [ts]) (mkReplay (advanced p ++ [ts]) (backfilled p) (Some ts) (Some (rule_bucket_start r ts))).
Proof.
  intros [H1 H2 H3 H4 H5 H6 H7] Hts. assert (forall u, u ∈ pre \/ prev = Some u -> u < ts) as Hlt.
  { intros u Hu. destruct (H1 u Hu) as (h & Hh & Hle). specialize (Hts h Hh). lia. }
  split; cbn.
  - intros u Hu. exists ts. split; [done|]. destruct Hu as [[Hu|Hu%list_elem_of_singleton]%elem_of_app|Hu]; [|by subst|].
    + specialize (Hlt u (or_introl Hu)). lia.
    + specialize (Hlt u (or_intror Hu)). lia.
  - right. exists ts. split; [done|]. apply elem_of_app. right. by apply list_elem_of_singleton.
  - intros u [Hu|Hu%list_elem_of_singleton]%elem_of_app; rewrite elem_of_app.
    + destruct (H3 u Hu) as [Hp Hq]. auto.
    + subst u. split; [right; by apply list_elem_of_singleton|]. intros q Hq. by apply Hlt; right.
  - intros h [= <-] _. done.
  - intros e He. apply elem_of_app. left. by apply H5.
  - intros u q [Hu|Hu%list_elem_of_singleton]%elem_of_app Hq Hle; [by apply (H6 u q)|]. subst u. specialize (Hlt q (or_intror Hq)). lia.
  - intros h [= <-] _ Hb. apply list_elem_of_fmap in Hb as (e & -> & He). specialize (Hlt e.1 (or_introl (H5 e He))). lia.
Qed.

Lemma replay_back pre p ts h : replay_ok pre p -> high_water p = Some h -> ts <= h ->
  (ts ∉ advanced p \/ Some (rule_bucket_start r ts) <> open_bucket p) ->
  replay_ok (pre ++ [ts]) (mkReplay (advanced p) (backfilled p ++ [(ts, h)]) (high_water p) (open_bucket p)).
Proof.
  intros [H1 H2 H3 H4 H5 H6 H7] Hh Hle Hcond. split; cbn.
  - intros u [[Hu|Hu%list_elem_of_singleton]%elem_of_app|Hu]; [auto|subst; eauto|auto].
  - done.
  - intros u Hu. destruct (H3 u Hu). rewrite elem_of_app. auto.
  - done.
  - intros e [He|He%list_elem_of_singleton]%elem_of_app; rewrite elem_of_app; [left; by apply H5|right; subst; by apply list_elem_of_singleton].
  - intros u q Hu Hq Hq'. rewrite fmap_app. apply elem_of_app. apply elem_of_app in Hu as [Hu|Hu%list_elem_of_singleton]; [left; by apply (H6 u q)|].
    right. subst. by apply list_elem_of_singleton.
  - intros g Hg Ha. rewrite fmap_app. intros [Hb|Hb%list_elem_of_singleton]%elem_of_app; [by apply (H7 g)|]. cbn in Hb. subst ts.
    destruct Hcond as [Hn|Hn]; [done|]. apply Hn. symmetry. by apply H4.
Qed.

Lemma replay_fold pre p ts : replay_ok pre p -> high_water p = Some ts \/ (exists h, high_water p = Some h /\ ts <= h) -> ts ∈ advanced p ->
  replay_ok (pre ++ [ts]) p.
Proof.
  intros [H1 H2 H3 H4 H5 H6 H7] Hh Ha. destruct (H3 ts Ha) as [Hin Hgt]. split.
  - intros u [[Hu|Hu%list_elem_of_singleton]%elem_of_app|Hu]; [auto|subst; by apply H1; left|auto].
  - done.
  - intros u Hu. destruct (H3 u Hu). rewrite elem_of_app. auto.
  - done.
  - intros e He. apply elem_of_app. auto.
  - intros u q Hu Hq Hle. apply elem_of_app in Hu as [Hu|Hu%list_elem_of_singleton]; [by apply (H6 u q)|]. subst u. specialize (Hgt q Hq). lia.
  - done.
Qed.

Lemma replay_spec st order : replay_ok order (fold_left (replay_step r) order (mkReplay [] [] prev st)).
Proof.
  induction order as [|ts order IH] using rev_ind; [apply replay_start|]. rewrite fold_left_app. cbn [fold_left].
  set (p := fold_left _ _ _) in *. unfold replay_step. destruct (high_water p) as [h|] eqn:Eh.
  - destruct (Z.leb_spec ts h) as [Hle|Hgt].
    + destruct (bool_decide_reflect (ts ∈ advanced p)) as [Ha|Ha], (bool_decide_reflect (Some (rule_bucket_start r ts) = open_bucket p)) as [Hb|Hb]; cbn [negb orb].
      * apply replay_fold; [done|right; eauto|done].
      * rewrite <- Eh. apply replay_back; auto.
      * rewrite <- Eh. apply replay_back; auto.
      * rewrite <- Eh. apply replay_back; auto.
    + apply replay_advance; [done|]. intros h'. rewrite Eh. by intros [= <-].
  - apply replay_advance; [done|]. intros h'. by rewrite Eh.
Qed.

End Replay.

(** ** Appends and back-fills *)

#[local] Abbreviation sorted_marks := (key_sorted (A := Timestamp * Timestamp) fst).

Lemma dedup_backfilled_spec l : forall kept, sorted_marks (kept :: l) ->
  sorted_marks (dedup_backfilled kept l) /\ (forall u, u ∈ (dedup_backfilled kept l).*1 <-> u ∈ (kept :: l).*1).
Proof.
  induction l as [|dup l IH]; intros kept Hs; [done|]. cbn [dedup_backfilled]. inversion Hs as [|? ? Hs' Hk]; subst.
  apply Forall_cons in Hk as [Hkd Hkl]. destruct (Z.eqb_spec dup.1 kept.1) as [He|Hne].
  - destruct (IH (kept.1, Z.max kept.2 dup.2)) as [Hs2 Hel]; [constructor; [by inversion Hs'|done]|]. split; [done|]. intros u. rewrite Hel.
    rewrite !fmap_cons, !elem_of_cons. cbn [fst]. rewrite He. tauto.
  - destruct (IH dup Hs') as [Hs2 Hel]. split.
    + constructor; [done|]. apply Forall_forall. intros e He. assert (e.1 ∈ (dedup_backfilled dup l).*1) as Hin by (by apply list_elem_of_fmap_2).
      apply Hel, list_elem_of_fmap in Hin as (e' & -> & Hin). apply elem_of_cons in Hin as [->|Hin]; [done|]. rewrite Forall_forall in Hkl. by apply Hkl.
    + intros u. rewrite !fmap_cons, !elem_of_cons, Hel. by rewrite fmap_cons, elem_of_cons.
Qed.

Lemma settle_backfilled_spec bf : sorted_marks (settle_backfilled bf) /\ (forall u, u ∈ (settle_backfilled bf).*1 <-> u ∈ bf.*1).
Proof.
  unfold settle_backfilled. pose proof (sort_by_key_sorted (A := Timestamp * Timestamp) fst bf) as Hs. pose proof (sort_by_key_perm (A := Timestamp * Timestamp) fst bf) as Hp.
  destruct (sort_by_key fst bf) as [|kept l]; [split; [constructor|]; intros u; by rewrite <- Hp|].
  destruct (dedup_backfilled_spec l kept Hs) as [Hs' Hel]. split; [done|]. intros u. by rewrite Hel, <- Hp.
Qed.

Lemma marks_ordered b ts : sorted_marks b -> ordered_by (fun e => e.1 ?= ts) b.
Proof.
  intros Hs i j x y Hij Hi Hj. assert (x.1 <= y.1) as Hle.
  { destruct (decide (i = j)) as [->|]; [rewrite Hi in Hj; by injection Hj as ->|]. exact (StronglySorted_lookup _ b i j x y Hs ltac:(lia) Hi Hj). }
  unfold cmp_le. destruct (Z.compare_spec x.1 ts), (Z.compare_spec y.1 ts); try done; lia.
Qed.

(** Without retention the floor of every back-fill is zero. *)
Lemma backfill_floor_spec t bf ts : retention t = 0 -> backfill_floor t (settle_backfilled bf) ts = if decide (ts ∈ bf.*1) then Some 0 else None.
Proof.
  intros Hz. destruct (settle_backfilled_spec bf) as [Hs Hel]. pose proof (marks_ordered _ ts Hs) as Ho. unfold backfill_floor, floor_at, retention_is_zero.
  rewrite Hz. cbn [Z.eqb]. destruct (binary_search_by _ _) as [i|i] eqn:E.
  - destruct (binary_search_by_hit _ _ _ Ho E) as (e & Hi & Heq). rewrite Hi. apply Z.compare_eq in Heq. rewrite decide_True; [done|].
    apply Hel. rewrite <- Heq. apply list_elem_of_fmap_2. by apply list_elem_of_lookup_2 in Hi.
  - destruct (binary_search_by_miss _ _ _ Ho E) as (_ & Hlt & Hgt). rewrite decide_False; [done|]. intros Hin%Hel.
    apply list_elem_of_fmap in Hin as (e & -> & [j Hj]%list_elem_of_lookup). destruct (Nat.lt_ge_cases j i) as [Hji|Hji].
    + specialize (Hlt j e Hji Hj). by rewrite Z.compare_refl in Hlt.
    + specialize (Hgt j e Hji Hj). by rewrite Z.compare_refl in Hgt.
Qed.

Lemma split_batch_spec t bf samples : retention t = 0 ->
  split_batch t (settle_backfilled bf) samples =
  (List.filter (fun s => negb (bool_decide (timestamp s ∈ bf.*1))) samples,
   map (fun s => (s, 0)) (List.filter (fun s => bool_decide (timestamp s ∈ bf.*1)) samples)).
Proof.
  intros Hz. unfold split_batch. induction samples as [|s samples IH] using rev_ind; [done|]. rewrite fold_left_app, IH. cbn [fold_left].
  rewrite backfill_floor_spec by done. rewrite !List.filter_app, map_app. cbn [List.filter]. destruct (decide (timestamp s ∈ bf.*1)) as [Hin|Hin].
  - rewrite bool_decide_true by done. cbn [negb fst snd map]. by rewrite app_nil_r.
  - rewrite bool_decide_false by done. cbn [negb fst snd map]. by rewrite app_nil_r.
Qed.

(** The buckets of the back-fills. *)
Lemma upsert_buckets_spec r us : Forall (fun u => u.2 = 0) us ->
  Forall (fun b => b.2 = 0 /\ exists u, u ∈ us /\ b.1 = rule_bucket_start r (timestamp u.1)) (upsert_buckets r us) /\
  (forall u, u ∈ us -> rule_bucket_start r (timestamp u.1) ∈ (upsert_buckets r us).*1).
Proof.
  unfold upsert_buckets. induction us as [|u us IH] using rev_ind; [split; [constructor|by intros u Hu%elem_of_nil]|].
  intros [Hus [Hu _]%Forall_cons]%Forall_app. destruct (IH Hus) as [H1 H2]. rewrite fold_left_app. cbn [fold_left]. set (bs := fold_left _ us []) in *.
  assert (forall us', Forall (fun b : Timestamp * Timestamp => b.2 = 0 /\ exists u, u ∈ us /\ b.1 = rule_bucket_start r (timestamp u.1)) us' ->
    Forall (fun b => b.2 = 0 /\ exists v, v ∈ us ++ [u] /\ b.1 = rule_bucket_start r (timestamp v.1)) us') as Hw.
  { intros us' Hf. eapply Forall_impl; [exact Hf|]. intros b (Hb & v & Hv & Ev). split; [done|]. exists v. rewrite elem_of_app. auto. }
  assert (Forall (fun b => b.2 = 0 /\ exists v, v ∈ us ++ [u] /\ b.1 = rule_bucket_start r (timestamp v.1)) (bs ++ [(rule_bucket_start r (timestamp u.1), u.2)]) /\
    (forall v, v ∈ us ++ [u] -> rule_bucket_start r (timestamp v.1) ∈ (bs ++ [(rule_bucket_start r (timestamp u.1), u.2)]).*1)) as Hpush.
  { split.
    - apply Forall_app. split; [by apply Hw|]. constructor; [|constructor]. split; [done|]. exists u. split; [|done]. apply elem_of_app. right. by apply list_elem_of_singleton.
    - intros v [Hv|Hv%list_elem_of_singleton]%elem_of_app; rewrite fmap_app, elem_of_app; [left; by apply H2|right; subst; by apply list_elem_of_singleton]. }
  destruct (list.last bs) as [[s floor]|] eqn:El; [|exact Hpush]. destruct (Z.eqb_spec s (rule_bucket_start r (timestamp u.1))) as [->|]; [|exact Hpush].
  apply last_Some in El as [bs' El]. rewrite El in *. rewrite length_app. cbn [length]. rewrite Nat.add_sub, take_app_length.
  apply Forall_app in H1 as [H1 [[Hfl _] _]%Forall_cons]. cbn [snd] in Hfl. split.
  - apply Forall_app. split; [by apply Hw|]. constructor; [|constructor]. cbn [fst snd]. split; [lia|]. exists u. split; [|done].
    apply elem_of_app. right. by apply list_elem_of_singleton.
  - intros v Hv. rewrite fmap_app, elem_of_app. cbn. apply elem_of_app in Hv as [Hv|Hv%list_elem_of_singleton].
    + specialize (H2 v Hv). by rewrite fmap_app, elem_of_app in H2.
    + subst. right. by apply list_elem_of_singleton.
Qed.

(** ** The batch *)

(** [l'] is [l] after [samples] were stored; [order] lists the timestamps the
    caller gave, in their order. *)
Record merged (l l' samples : list Sample) (order : list Timestamp) : Prop := {
  mg_sorted : ts_sorted samples;
  mg_stored : forall x, x ∈ samples -> x ∈ l';
  mg_order : forall x, x ∈ samples -> timestamp x ∈ order;
  mg_known : forall u, u ∈ order -> is_Some (lookup_ts u l');
  mg_rest : forall u, u ∉ map timestamp samples -> lookup_ts u l' = lookup_ts u l;
}.

Lemma in_timestamps x (l : list Sample) : x ∈ l -> timestamp x ∈ map timestamp l.
Proof. intros Hx. apply list_elem_of_In, in_map. by apply list_elem_of_In. Qed.

Lemma last_max (l : list Sample) x z : ts_sorted l -> list.last l = Some z -> x ∈ l -> timestamp x <= timestamp z.
Proof.
  intros Hs Hz Hx. apply last_Some in Hz as [l0 ->]. apply ts_sorted_snoc in Hs as [_ Hs].
  apply elem_of_app in Hx as [Hx|Hx%list_elem_of_singleton]; [|by subst]. rewrite Forall_forall in Hs. specialize (Hs x Hx). unfold ts_lt in Hs. lia.
Qed.

Section Batch.

Context `{Log10} `{ServerConfig}.
Context (r0 : CompactionRule) (fresh : Aggregator) (adj : f64 -> f64).
Hypothesis Hgrid : rule_grid r0.
Hypothesis Hfresh : agg_reset fresh = fresh.
Hypothesis Hnum : numeric fresh adj.

#[local] Abbreviation start := (rule_bucket_start r0).

Context (l l' samples : list Sample) (order : list Timestamp).
Hypothesis Hl : content_ok l.
Hypothesis Hl' : content_ok l'.
Hypothesis He' : all_early l'.
Hypothesis Hm : merged l l' samples order.

Definition prev_last : option Timestamp := timestamp <$> list.last l.

Context (p : Replay).
Hypothesis Hp : replay_ok r0 prev_last order p.

Definition is_back (s : Sample) : bool := bool_decide (timestamp s ∈ (backfilled p).*1).
Definition appends_of : list Sample := List.filter (fun s => negb (is_back s)) samples.
Definition upserts_of : list Sample := List.filter is_back samples.

(** The source as the streamed samples show it. *)
Definition streamed : list Sample := l ++ appends_of.

Lemma appends_elem x : x ∈ appends_of <-> x ∈ samples /\ timestamp x ∉ (backfilled p).*1.
Proof. rewrite list_elem_of_In. unfold appends_of, is_back. rewrite filter_In, <- list_elem_of_In, negb_true_iff, bool_decide_eq_false. done. Qed.

Lemma upserts_elem x : x ∈ upserts_of <-> x ∈ samples /\ timestamp x ∈ (backfilled p).*1.
Proof. rewrite list_elem_of_In. unfold upserts_of, is_back. rewrite filter_In, <- list_elem_of_In, bool_decide_eq_true. done. Qed.

(** What streams is newer than the source was. *)
Lemma appends_newer x z : x ∈ appends_of -> list.last l = Some z -> timestamp z < timestamp x.
Proof.
  intros [Hx Hb]%appends_elem Hz. destruct (Z.lt_ge_cases (timestamp z) (timestamp x)); [done|]. exfalso. apply Hb.
  apply (ro_old _ _ _ _ Hp _ (timestamp z)); [by apply (mg_order _ _ _ _ Hm)|unfold prev_last; by rewrite Hz|lia].
Qed.

Lemma streamed_sorted : ts_sorted streamed.
Proof.
  apply ts_sorted_app. split_and!; [apply Hl|apply ts_sorted_filter, (mg_sorted _ _ _ _ Hm)|]. apply Forall_forall. intros y Hy. apply Forall_forall. intros x Hx.
  destruct (list.last l) as [z|] eqn:Ez; [|apply last_None in Ez; rewrite Ez in Hy; by apply elem_of_nil in Hy].
  pose proof (appends_newer x z Hx Ez). pose proof (last_max l y z (proj1 Hl) Ez Hy). unfold ts_lt. lia.
Qed.

(** Every timestamp of the streamed source is one of the merged source. *)
Lemma streamed_known x : x ∈ streamed -> exists y, y ∈ l' /\ timestamp y = timestamp x.
Proof.
  intros [Hx|[Hx _]%appends_elem]%elem_of_app; [|exists x; split; [by apply (mg_stored _ _ _ _ Hm)|done]].
  destruct (decide (timestamp x ∈ map timestamp samples)) as [Hin|Hin].
  - apply list_elem_of_In, in_map_iff in Hin as (y & Hy & Hin). exists y. split; [|done]. apply (mg_stored _ _ _ _ Hm). by apply list_elem_of_In.
  - exists x. split; [|done]. pose proof (mg_rest _ _ _ _ Hm _ Hin) as Hr. rewrite (lookup_ts_elem l x (proj1 Hl) Hx) in Hr. by apply lookup_ts_Some in Hr as [Hr _].
Qed.

Lemma streamed_early : all_early streamed.
Proof.
  apply Forall_forall. intros x (y & Hy & <-)%streamed_known. unfold all_early in He'. rewrite Forall_forall in He'. by apply He'.
Qed.

Lemma streamed_content : Forall sample_valid l -> content_ok streamed.
Proof.
  intros Hv. split; [apply streamed_sorted|]. apply Forall_app. split; [done|]. apply Forall_forall. intros x [Hx _]%appends_elem.
  destruct Hl' as [_ Hv']. rewrite Forall_forall in Hv'. by apply Hv', (mg_stored _ _ _ _ Hm).
Qed.

(** The newest sample of the batch streams. *)
Lemma newest_streams x : x ∈ samples -> (forall y, y ∈ l' -> timestamp y <= timestamp x) -> (forall z, list.last l = Some z -> timestamp z < timestamp x) ->
  x ∈ appends_of.
Proof.
  intros Hx Hmax Hnew. apply appends_elem. split; [done|].
  destruct (ro_high _ _ _ _ Hp (timestamp x)) as (h & Hh & Hle); [left; by apply (mg_order _ _ _ _ Hm)|].
  destruct (ro_from _ _ _ _ Hp) as [Hf|(h' & Hh' & Ha)].
  - exfalso. rewrite Hh in Hf. unfold prev_last in Hf. destruct (list.last l) as [z|] eqn:Ez; [|done]. injection Hf as ->. specialize (Hnew z eq_refl). lia.
  - rewrite Hh in Hh'. injection Hh' as <-. destruct (ro_advanced _ _ _ _ Hp h Ha) as [Hho _]. destruct (mg_known _ _ _ _ Hm h Hho) as [y [Hy Hyh]%lookup_ts_Some].
    specialize (Hmax y Hy). assert (h = timestamp x) as <- by lia. by apply (ro_top _ _ _ _ Hp).
Qed.

Lemma newest_known z' : list.last l' = Some z' -> exists x, x ∈ streamed /\ timestamp x = timestamp z'.
Proof.
  intros Ez'. assert (z' ∈ l') as Hz' by (by apply last_Some_elem_of).
  assert ((forall z, list.last l = Some z -> timestamp z < timestamp z') -> exists x, x ∈ streamed /\ timestamp x = timestamp z') as Hnew.
  { intros Hnew. destruct (decide (timestamp z' ∈ map timestamp samples)) as [Hin|Hin].
    - apply list_elem_of_In, in_map_iff in Hin as (y & Hy & Hin%list_elem_of_In). exists y. split; [|done]. apply elem_of_app. right.
      apply newest_streams; [done| |by rewrite Hy]. intros u Hu. rewrite Hy. exact (last_max l' u z' (proj1 Hl') Ez' Hu).
    - exfalso. pose proof (mg_rest _ _ _ _ Hm _ Hin) as Hr. rewrite (lookup_ts_elem l' z' (proj1 Hl') Hz') in Hr. symmetry in Hr.
      apply lookup_ts_Some in Hr as [Hr _]. destruct (list.last l) as [z|] eqn:Ez; [|apply last_None in Ez; rewrite Ez in Hr; by apply elem_of_nil in Hr].
      specialize (Hnew z eq_refl). pose proof (last_max l z' z (proj1 Hl) Ez Hr). lia. }
  destruct (list.last l) as [z|] eqn:Ez; [|by apply Hnew]. destruct (Z.lt_ge_cases (timestamp z) (timestamp z')) as [Hlt|Hge].
  { apply Hnew. by intros w [= <-]. }
  assert (z ∈ streamed) as Hz by (apply elem_of_app; left; by apply last_Some_elem_of). exists z. split; [done|].
  destruct (streamed_known z Hz) as (y & Hy & Hyz). pose proof (last_max l' y z' (proj1 Hl') Ez' Hy). lia.
Qed.

(** The open bucket is the same. *)
Lemma streamed_open : source_open r0 streamed = source_open r0 l'.
Proof.
  unfold source_open. destruct (list.last l') as [z'|] eqn:Ez'.
  - destruct (newest_known z' Ez') as (x & Hx & Hxz).
    destruct (list.last streamed) as [w|] eqn:Ew; [|apply last_None in Ew; rewrite Ew in Hx; by apply elem_of_nil in Hx].
    pose proof (last_max _ x w streamed_sorted Ew Hx). apply last_Some_elem_of in Ew.
    destruct (streamed_known w Ew) as (y & Hy & Hyw). pose proof (last_max l' y z' (proj1 Hl') Ez' Hy).
    cbn. do 2 f_equal. lia.
  - destruct (list.last streamed) as [w|] eqn:Ew; [|done]. apply last_Some_elem_of in Ew. destruct (streamed_known w Ew) as (y & Hy & _).
    apply last_None in Ez'. rewrite Ez' in Hy. by apply elem_of_nil in Hy.
Qed.

(** A bucket no back-fill touches is already right. *)
Lemma streamed_bucket s : (forall x, x ∈ upserts_of -> start (timestamp x) <> s) -> bucket r0 s streamed = bucket r0 s l'.
Proof.
  intros Hu. apply bucket_ext; [apply Hl'|apply streamed_sorted|]. intros u Hus.
  destruct (decide (u ∈ map timestamp samples)) as [Hin|Hin].
  - apply list_elem_of_In, in_map_iff in Hin as (y & Hy & Hin%list_elem_of_In).
    assert (y ∈ appends_of) as Hya.
    { apply appends_elem. split; [done|]. intros Hb. apply (Hu y); [by apply upserts_elem|]. by rewrite Hy. }
    subst u. rewrite (lookup_ts_elem l' y (proj1 Hl')) by (by apply (mg_stored _ _ _ _ Hm)). apply lookup_ts_elem; [apply streamed_sorted|]. apply elem_of_app. by right.
  - rewrite (mg_rest _ _ _ _ Hm u Hin). unfold streamed. rewrite lookup_ts_app. destruct (lookup_ts u l); [done|].
    destruct (lookup_ts u appends_of) as [y|] eqn:Ey; [|done]. exfalso. apply Hin. apply lookup_ts_Some in Ey as [[Hy _]%appends_elem <-]. by apply in_timestamps.
Qed.

(** Streaming the appends. *)
Lemma stream_spec c ys : forall k, compacted r0 fresh adj k c -> content_ok (k ++ ys) -> all_early (k ++ ys) ->
  exists c', for_each handle_sample_compaction ys c = (Ok tt, c') /\ compacted r0 fresh adj (k ++ ys) c' /\ same_place c c'.
Proof.
  revert c. induction ys as [|y ys IH]; intros c k Hc Hk He; [exists c; rewrite app_nil_r; done|]. cbn [for_each].
  replace (k ++ y :: ys) with ((k ++ [y]) ++ ys) in * by (by rewrite <- app_assoc).
  destruct (handle_sample_spec r0 fresh adj Hgrid Hfresh Hnum k y c Hc) as (c1 & E1 & Hc1 & Hs1).
  { destruct Hk as [Hs Hv]. apply ts_sorted_app in Hs as (Hs & _). by apply Forall_app in Hv as [Hv _]. } { by apply Forall_app in He as [He _]. }
  destruct (IH c1 (k ++ [y]) Hc1 Hk He) as (c2 & E2 & Hc2 & Hs2). exists c2. cstep E1. split; [done|]. split; [done|].
  destruct Hs1 as (? & ? & ? & ?), Hs2 as (? & ? & ? & ?). unfold same_place. split_and!; congruence.
Qed.

(** The values when the buckets [done_] have been recalculated. *)
Definition partly (o : Timestamp) (done_ : list Timestamp) (u : Timestamp) : option f64 :=
  if u <? o then value_at r0 fresh adj (if decide (u ∈ done_) then l' else streamed) u else None.

Record recalculated (o : Timestamp) (done_ : list Timestamp) (c : CompactionContext) : Prop := {
  rc_rule : cx_rule c = rule_with r0 (feed_all fresh (bucket r0 o (if decide (o ∈ done_) then l' else streamed))) (Some o)
                          (took fresh (bucket r0 o (if decide (o ∈ done_) then l' else streamed)));
  rc_dest : dest_holds adj (cx_dest c) (partly o done_);
}.

Lemma partly_supported o done_ : supported r0 (partly o done_) l'.
Proof.
  intros u Hu. unfold partly in Hu. destruct (u <? o); [|done]. destruct (decide (u ∈ done_)); intros En.
  - by rewrite value_at_none in Hu.
  - apply Hu, value_at_none. apply bucket_none, Forall_forall. intros x (y & Hy & Hyx)%streamed_known Hxu.
    assert (y ∈ bucket r0 u l') as Hin by (apply bucket_elem; split; [done|by rewrite Hyx]). rewrite En in Hin. by apply elem_of_nil in Hin.
Qed.

Lemma recalculate_one_spec o done_ x c : recalculated o done_ c -> source_ok (parent c) l' -> source_open r0 l' = Some o -> x ∈ l' ->
  exists c', recalculate_one (start (timestamp x), 0) c = (Ok tt, c') /\ recalculated o (start (timestamp x) :: done_) c' /\ same_place c c'.
Proof.
  intros [Hr Hd] Hs Eo Hx. assert (early (timestamp x)) as Hxe by (unfold all_early in He'; rewrite Forall_forall in He'; by apply He').
  pose proof (open_greatest r0 Hgrid l' o x Hl' He' Eo Hx) as Hle.
  assert (rule_of r0 fresh (cx_rule c)) as Hro by (rewrite Hr; eexists _, _, _; split; [done|by rewrite reset_feed]).
  assert (bucket_start (cx_rule c) = Some o) as Hbs by (by rewrite Hr).
  assert (bucket_end (cx_rule c) (start (timestamp x)) = bucket_end r0 (start (timestamp x))) as Hend by (by rewrite Hr).
  assert (Forall (fun y => 0 <= timestamp y) l') as Hmin by (eapply Forall_impl; [exact He'|]; by intros y [? _]).
  unfold recalculate_one. csteps. cbn [fst snd]. rewrite Hbs, Hend, (bool_decide_false (Some o = None)) by done. cbn [orb].
  destruct (bool_decide_reflect (Some o = Some (start (timestamp x)))) as [Heq|Hne].
  - injection Heq as Heq. rewrite (recalculate_current_spec r0 fresh Hgrid c l' (timestamp x) 0 Hs Hro Hxe Hmin). eexists. split; [done|]. split; [split|done].
    + cbn [cx_rule cx_with_rule]. rewrite decide_True by (rewrite Heq; by left). by rewrite Heq.
    + cbn [cx_dest cx_with_rule]. eapply dest_holds_ext; [|exact Hd]. intros u. unfold partly. destruct (Z.ltb_spec u o); [|done].
      destruct (decide (u ∈ done_)) as [Hin|Hin]; [by rewrite decide_True by (by right)|]. rewrite decide_False; [done|].
      rewrite elem_of_cons. intros [->|?]; [lia|done].
  - assert (start (timestamp x) <> o) as Hne' by congruence.
    destruct (recalculate_spec r0 fresh adj Hgrid Hfresh Hnum c (partly o done_) l' l' (timestamp x) 0 null_ts_filter Hd (partly_supported o done_) He'
      (so_memory _ _ Hs) Hs Hro Hxe Hmin) as (c1 & E1 & Hsame & Hd1). exists c1. split; [exact E1|]. split; [split|by apply same_rule_place].
    + destruct Hsame as (_ & -> & _). rewrite Hr. assert (o ∈ start (timestamp x) :: done_ <-> o ∈ done_) as Hiff by (rewrite elem_of_cons; naive_solver).
      by rewrite (decide_ext _ _ _ _ Hiff).
    + rewrite filter_all in Hd1 by (by apply Forall_true). eapply dest_holds_ext; [|exact Hd1]. intros u. unfold partly.
      destruct (decide (u = start (timestamp x))) as [->|Hu].
      * rewrite fn_lookup_insert, decide_True by (by left). destruct (Z.ltb_spec (start (timestamp x)) o); [done|lia].
      * rewrite fn_lookup_insert_ne by done. assert (u ∈ start (timestamp x) :: done_ <-> u ∈ done_) as Hiff by (rewrite elem_of_cons; naive_solver).
        by rewrite (decide_ext _ _ _ _ Hiff).
Qed.

Lemma recalculate_all o bs : source_open r0 l' = Some o -> Forall (fun b => b.2 = 0 /\ exists x, x ∈ l' /\ b.1 = start (timestamp x)) bs ->
  forall done_ c, recalculated o done_ c -> source_ok (parent c) l' ->
  exists c', for_each recalculate_one bs c = (Ok tt, c') /\ recalculated o (reverse bs.*1 ++ done_) c' /\ same_place c c'.
Proof.
  intros Eo. induction 1 as [|[s fl] bs (Hfl & x & Hx & Hs) _ IH]; intros done_ c Hc Hsrc; [by exists c|]. cbn [fst snd] in *. subst s fl. cbn [for_each].
  destruct (recalculate_one_spec o done_ x c Hc Hsrc Eo Hx) as (c1 & E1 & Hc1 & Hs1). pose proof Hs1 as (Hp1 & _).
  destruct (IH _ c1 Hc1) as (c2 & E2 & Hc2 & Hs2); [by rewrite Hp1|]. exists c2. cstep E1. split; [done|]. split.
  - rewrite fmap_cons, reverse_cons. by rewrite <- app_assoc.
  - destruct Hs1 as (? & ? & ? & ?), Hs2 as (? & ? & ? & ?). unfold same_place. split_and!; congruence.
Qed.

(** When every touched bucket is done, the rule is right for the merged source. *)
Lemma recalculated_done o done_ c : source_open r0 l' = Some o -> (forall x, x ∈ upserts_of -> start (timestamp x) ∈ done_) ->
  recalculated o done_ c -> compacted r0 fresh adj l' c.
Proof.
  intros Eo Hall [Hr Hd]. assert (forall s, bucket r0 s (if decide (s ∈ done_) then l' else streamed) = bucket r0 s l') as Hb.
  { intros s. destruct (decide (s ∈ done_)) as [|Hn]; [done|]. apply streamed_bucket. intros x Hx <-. by apply Hn, Hall. }
  split.
  - rewrite Hr. unfold open_rule, open_part. by rewrite Eo, Hb.
  - eapply dest_holds_ext; [|exact Hd]. intros u. unfold partly, closed, value_at. by rewrite Eo, Hb.
Qed.

Lemma streamed_recalculated o c : source_open r0 l' = Some o -> compacted r0 fresh adj streamed c -> recalculated o [] c.
Proof.
  intros Eo [Hr Hd]. rewrite <- streamed_open in Eo. split.
  - rewrite Hr. unfold open_rule, open_part. by rewrite Eo, decide_False by (by intros Hn%elem_of_nil).
  - eapply dest_holds_ext; [|exact Hd]. intros u. unfold partly, closed. by rewrite Eo, decide_False by (by intros Hn%elem_of_nil).
Qed.

End Batch.

Section Whole.

Context `{Log10} `{ServerConfig}.
Context (r0 : CompactionRule) (fresh : Aggregator) (adj : f64 -> f64).
Hypothesis Hgrid : rule_grid r0.
Hypothesis Hfresh : agg_reset fresh = fresh.
Hypothesis Hnum : numeric fresh adj.

(** A marker read back from the destination is live. *)
Lemma dest_holds_reread k f l o : dest_holds adj k f -> supported r0 f l -> fits_memory l ->
  dest_holds adj (ks_with_close k (match o with Some ts => match get_sample (series k) ts with Ok s => s | Err _ => None end | None => None end)) f.
Proof.
  intros Hd Hsup Hf. pose proof Hd as [(dl & Hst & Hag & Hm) Hp Hr]. split; [|done|done]. exists dl. split; [done|]. split; [done|]. intros x Hx. cbn in Hx.
  destruct o as [ts|]; [|done]. pose proof (supported_fits _ _ _ _ _ _ Hd Hst Hag Hsup Hf) as Hfd. destruct Hst as (ls & Hrep & <-).
  rewrite (get_sample_spec _ _ _ Hrep Hfd) in Hx. pose proof (lookup_ts_Some _ _ _ Hx) as [_ ->]. eauto.
Qed.

Lemma replay_ok_grid r prev pre p : (forall ts, rule_bucket_start r ts = rule_bucket_start r0 ts) -> replay_ok r prev pre p -> replay_ok r0 prev pre p.
Proof. intros He [H1 H2 H3 H4 H5 H6 H7]. split; try done. intros h Hh Ha. rewrite <- He. by apply H4. Qed.

Lemma handle_batch_spec l l' samples order c : compacted r0 fresh adj l c -> content_ok l -> source_ok (parent c) l' -> merged l l' samples order ->
  exists c', handle_batch_compaction samples (timestamp <$> list.last l) order c = (Ok tt, c') /\ compacted r0 fresh adj l' c' /\ same_place c c'.
Proof.
  intros Hc Hl Hs Hm. pose proof Hc as [Hr Hd]. pose proof (source_content _ _ Hs) as Hl'. pose proof (so_early _ _ Hs) as He'.
  unfold handle_batch_compaction. csteps. rewrite split_batch_spec by apply Hs.
  pose proof (replay_spec (cx_rule c) (timestamp <$> list.last l) (bucket_start (cx_rule c)) order) as Hp. fold (replay (cx_rule c) (timestamp <$> list.last l) order) in Hp.
  set (p := replay (cx_rule c) _ order) in *. apply replay_ok_grid in Hp; [|intros ts; by rewrite Hr]. fold (prev_last l) in Hp.
  fold (is_back p) (appends_of samples p) (upserts_of samples p).
  destruct (stream_spec r0 fresh adj Hgrid Hfresh Hnum c (appends_of samples p) l Hc) as (c1 & E1 & Hc1 & Hs1).
  { apply (streamed_content r0 l l' samples order Hl Hl' Hm p Hp), Hl. } { exact (streamed_early l l' samples order Hl He' Hm p). }
  cstep E1. set (bs := upsert_buckets _ _). pose proof Hs1 as (Hp1 & _).
  assert (Forall (fun u : Sample * Timestamp => u.2 = 0) (map (fun s => (s, 0)) (upserts_of samples p))) as Hz by (apply Forall_map, Forall_true; done).
  destruct (upsert_buckets_spec (cx_rule c) _ Hz) as [Hb1 Hb2]. fold bs in Hb1, Hb2.
  assert (forall ts, rule_bucket_start (cx_rule c) ts = rule_bucket_start r0 ts) as Hst by (intros ts; by rewrite Hr).
  assert (exists c2, for_each recalculate_one (reverse bs) c1 = (Ok tt, c2) /\ compacted r0 fresh adj l' c2 /\ same_place c1 c2) as (c2 & E2 & Hc2 & Hs2).
  { destruct (source_open r0 l') as [o|] eqn:Eo.
    - destruct (recalculate_all r0 fresh adj Hgrid Hfresh Hnum l l' samples order Hl Hl' He' Hm p o (reverse bs) Eo) with (done_ := @nil Timestamp) (c := c1)
        as (c2 & E2 & Hc2 & Hs2).
      + apply Forall_forall. intros b Hb. rewrite elem_of_reverse in Hb. rewrite Forall_forall in Hb1. destruct (Hb1 b Hb) as (Hb0 & u & Hu & Hbs). split; [done|].
        apply list_elem_of_In, in_map_iff in Hu as (x & <- & [Hx _]%list_elem_of_In%upserts_elem). exists x. split; [by apply (mg_stored _ _ _ _ Hm)|]. by rewrite Hbs, Hst.
      + by apply (streamed_recalculated r0 fresh adj l l' samples order Hl Hl' Hm p Hp).
      + by rewrite Hp1.
      + exists c2. split; [done|]. split; [|done]. eapply (recalculated_done r0 fresh adj l l' samples order Hl Hl' Hm p Hp o); [done| |exact Hc2].
        intros x Hx. rewrite app_nil_r, elem_of_reverse, fmap_reverse, elem_of_reverse. rewrite <- Hst.
        apply (Hb2 (x, 0)). apply list_elem_of_In, in_map_iff. exists x. split; [done|by apply list_elem_of_In].
    - assert (l' = []) as El' by (unfold source_open in Eo; destruct (list.last l') eqn:E; [done|by apply last_None in E]).
      assert (upserts_of samples p = []) as Eu.
      { destruct (upserts_of samples p) as [|x us] eqn:Eu; [done|]. assert (x ∈ upserts_of samples p) as [Hx _]%upserts_elem by (rewrite Eu; by left).
        apply (mg_stored _ _ _ _ Hm) in Hx. rewrite El' in Hx. by apply elem_of_nil in Hx. }
      unfold bs. rewrite Eu. exists c1. split; [done|]. split; [|done].
      assert (streamed l samples p = l') as <-; [|done]. apply ts_sorted_ext; [by apply (streamed_sorted r0 l l' samples order Hl Hm p Hp)|apply Hl'|].
      intros x. split; intros Hx; [|rewrite El' in Hx; by apply elem_of_nil in Hx].
      destruct (streamed_known l l' samples order Hl Hm p x Hx) as (y & Hy & _). rewrite El' in Hy. by apply elem_of_nil in Hy. }
  cstep E2. unfold cmodify. eexists. split; [done|]. destruct Hc2 as [Hr2 Hd2]. split; [split|].
  - exact Hr2.
  - cbn [cx_dest cx_with_dest]. exact (dest_holds_reread _ _ l' _ Hd2 (closed_supported r0 fresh adj l') (so_memory _ _ Hs)).
  - destruct Hs1 as (? & ? & ? & ?), Hs2 as (? & ? & ? & ?). unfold same_place. split_and!; cbn; congruence.
Qed.

End Whole.
