(* ===== verification/CompactionGraph.v ===== *)
(** * CompactionGraph: the rules of several series

    Models the rest of [src/series/compaction.rs]: opening the destinations of
    the rules of a series, applying an operation to each, and cascading into the
    rules of the destinations; the latest sample of an open bucket, renames, the
    check for circular rules, and the parts of [TS.ADD], [TS.INCRBY], [TS.DEL],
    [TS.CREATERULE] that write a series and run its rules.  The keyspace is a
    map from keys to series, with the set of the keys that hold another type where
    the code tells those from missing ones; rules that run in parallel run in
    order, which is the same since their destinations differ. *)

From stdpp Require Import gmap strings pretty.
From S2P Require Import Prelude Float64 Types Slice Content Elf64 Log10Ref TimeSeriesChunk SeriesIterator Rounding TimeSeries.
From S2P Require Import Aggregators AggregateIterator Querier Join Compaction.

Local Open Scope result_scope.

Notation Keyspace := (gmap string KeyedSeries).

(** ** Destinations *)

Inductive Resolved :=
| ROpen (key : string)
| RSkip
| RStale.

Definition resolve_destination (db : Keyspace) (source_key : string) (rule : CompactionRule) (visited : list string)
    (opened : list (option string)) : Resolved :=
  let dest_bytes := dest rule in
  if bool_decide (dest_bytes = source_key) || bool_decide (dest_bytes ∈ visited) then RSkip
  else if bool_decide (Some dest_bytes ∈ opened) then RStale
  else
    match db !! dest_bytes with
    | None => RStale
    | Some d =>
        if match src_series d with Some src => points_to src source_key | None => false end
        then ROpen dest_bytes else RStale
    end.

(** The loop over the rules: the rules that are kept with their destinations, a
    [None] for one that is kept but not applied.  The source collects the
    indices of stale rules and removes them afterwards; a stale rule opens
    nothing, so the result is the same. *)
Fixpoint open_destinations (db : Keyspace) (source_key : string) (visited : list string) (opened : list (option string))
    (rs : list CompactionRule) : list CompactionRule * list (option string) :=
  match rs with
  | [] => ([], opened)
  | rule :: rs =>
      match resolve_destination db source_key rule visited opened with
      | ROpen key => let '(kept, opened) := open_destinations db source_key visited (opened ++ [Some key]) rs in (rule :: kept, opened)
      | RSkip => let '(kept, opened) := open_destinations db source_key visited (opened ++ [None]) rs in (rule :: kept, opened)
      | RStale => open_destinations db source_key visited opened rs
      end
  end.

(** [get_compaction_series]: the source with its stale rules removed, and the
    keys of the destinations. *)
Definition get_compaction_series (db : Keyspace) (k : KeyedSeries) (visited : list string) : KeyedSeries * list (option string) :=
  let '(kept, keys) := open_destinations db (ks_key k) visited [] (rules k) in (ks_with_rules k kept, keys).

Definition destinations_is_empty (keys : list (option string)) : bool := forallb (fun k => negb (bool_decide (is_Some k))) keys.

(** ** Applying an operation *)

Record RuleOutcome := mkRuleOutcome {
  rule_index : nat;
  dest_prev_last : option Timestamp;
  oc_written : list Sample;
}.

Section Graph.

Context `{Log10} `{ServerConfig}.

(** The rules in order: the rules and the keyspace afterwards, the outcomes and
    the first error. *)
Fixpoint apply_rules_internal (parent : TimeSeries) (index : nat) (rs : list CompactionRule) (keys : list (option string)) (db : Keyspace)
    (op : CompactionOp) : list CompactionRule * Keyspace * list RuleOutcome * option TsdbError :=
  match rs, keys with
  | rule :: rs, Some key :: keys =>
      match db !! key with
      | Some d =>
          let '(res, c) := apply_op op (mkContext parent d rule []) in
          let db := <[key := cx_dest c]> db in
          let '(rs, db, outcomes, error) := apply_rules_internal parent (S index) rs keys db op in
          match res with
          | Ok _ => (cx_rule c :: rs, db, mkRuleOutcome index (timestamp <$> last_sample (series d)) (written c) :: outcomes, error)
          | Err e => (cx_rule c :: rs, db, outcomes, Some e)
          end
      | None => let '(rs, db, outcomes, error) := apply_rules_internal parent (S index) rs keys db op in (rule :: rs, db, outcomes, error)
      end
  | rule :: rs, None :: keys =>
      let '(rs, db, outcomes, error) := apply_rules_internal parent (S index) rs keys db op in (rule :: rs, db, outcomes, error)
  | rs, _ => (rs, db, [], None)
  end.

(** [apply_rules_on_destinations], for the series [k] of the keyspace. *)
Definition apply_rules_on_destinations (db : Keyspace) (k : KeyedSeries) (keys : list (option string)) (op : CompactionOp)
    : TsdbResult (list RuleOutcome) * Keyspace :=
  let '(rs, db, outcomes, error) := apply_rules_internal (series k) 0 (rules k) keys db op in
  let db := <[ks_key k := ks_with_rules k rs]> db in
  match error with
  | Some e => (Err e, db)
  | None => (Ok outcomes, db)
  end.

(** [dedupe_written_samples]: the last of equal timestamps. *)
Fixpoint dedupe_sorted (l : list Sample) : list Sample :=
  match l with
  | x :: (y :: _) as rest => if timestamp x =? timestamp y then dedupe_sorted rest else x :: dedupe_sorted rest
  | l => l
  end.

Definition dedupe_written_samples (samples : list Sample) : list Sample :=
  if (length samples <? 2)%nat then samples else dedupe_sorted (sort_by_key timestamp samples).

Definition PendingWrite : Type := string * list Sample * option Timestamp.

(** The destinations that were written, for the cascade and the notifications.
    [take] leaves [None]: a key is queued once. *)
Fixpoint queue_written_outcomes (keys : list (option string)) (outcomes : list RuleOutcome) (pending : list PendingWrite)
    : list PendingWrite :=
  match outcomes with
  | [] => pending
  | o :: outcomes =>
      match oc_written o with
      | [] => queue_written_outcomes keys outcomes pending
      | _ =>
          match keys !! rule_index o with
          | Some (Some dest_key) =>
              queue_written_outcomes (<[rule_index o := None]> keys) outcomes
                (pending ++ [(dest_key, dedupe_written_samples (oc_written o), dest_prev_last o)])
          | _ => queue_written_outcomes keys outcomes pending
          end
      end
  end.

Fixpoint queue_outcomes (keys : list (option string)) (outcomes : list RuleOutcome) : list string :=
  match outcomes with
  | [] => []
  | o :: outcomes =>
      match keys !! rule_index o with
      | Some (Some key) => key :: queue_outcomes (<[rule_index o := None]> keys) outcomes
      | _ => queue_outcomes keys outcomes
      end
  end.

(** ** The cascade *)

(** [pending.pop()] *)
Definition pop_last {A} (l : list A) : option (A * list A) :=
  match list.last l with Some x => Some (x, take (length l - 1) l) | None => None end.

(** The loop of a removal.  [None] is fuel that was not enough. *)
Fixpoint cascade_removal (fuel : nat) (db : Keyspace) (visited pending : list string) (op : CompactionOp) : option (TsdbResult unit * Keyspace) :=
  match fuel with
  | O => None
  | S fuel =>
      match pop_last pending with
      | None => Some (Ok tt, db)
      | Some (child_key, pending) =>
          if bool_decide (child_key ∈ visited) then cascade_removal fuel db visited pending op
          else
            match db !! child_key with
            | None => cascade_removal fuel db visited pending op
            | Some child =>
                match rules child with
                | [] => cascade_removal fuel db visited pending op
                | _ =>
                    let visited := visited ++ [child_key] in
                    let '(child, keys) := get_compaction_series db child visited in
                    let db := <[child_key := child]> db in
                    if destinations_is_empty keys then cascade_removal fuel db visited pending op
                    else
                      let '(outcomes, db) := apply_rules_on_destinations db child keys op in
                      match outcomes with
                      | Err e => Some (Err e, db)
                      | Ok outcomes => cascade_removal fuel db visited (pending ++ queue_outcomes keys outcomes) op
                      end
                end
            end
      end
  end.

(** The loop of an add: each level is a batch of what the level above wrote. *)
Fixpoint cascade_writes (fuel : nat) (db : Keyspace) (visited : list string) (pending : list PendingWrite) : option (TsdbResult unit * Keyspace) :=
  match fuel with
  | O => None
  | S fuel =>
      match pop_last pending with
      | None => Some (Ok tt, db)
      | Some (child_key, samples, prev_last, pending) =>
          if bool_decide (child_key ∈ visited) then cascade_writes fuel db visited pending
          else
            match db !! child_key with
            | None => cascade_writes fuel db visited pending
            | Some child =>
                match rules child with
                | [] => cascade_writes fuel db visited pending
                | _ =>
                    let visited := visited ++ [child_key] in
                    let '(child, keys) := get_compaction_series db child visited in
                    let db := <[child_key := child]> db in
                    if destinations_is_empty keys then cascade_writes fuel db visited pending
                    else
                      let '(outcomes, db) := apply_rules_on_destinations db child keys (AddBatch samples prev_last (map timestamp samples)) in
                      match outcomes with
                      | Err e => Some (Err e, db)
                      | Ok outcomes => cascade_writes fuel db visited (queue_written_outcomes keys outcomes pending)
                      end
                end
            end
      end
  end.

(** [process_series_with_compaction] for the series [k] under its key. *)
Definition process_series_with_compaction (fuel : nat) (db : Keyspace) (k : KeyedSeries) (op : CompactionOp) : option (TsdbResult unit * Keyspace) :=
  let '(k, keys) := get_compaction_series db k [] in
  let db := <[ks_key k := k]> db in
  if destinations_is_empty keys then Some (Ok tt, db)
  else
    let '(outcomes, db) := apply_rules_on_destinations db k keys op in
    match outcomes with
    | Err e => Some (Err e, db)
    | Ok outcomes =>
        match op with
        | RemoveRange _ _ =>
            let pending := queue_outcomes keys outcomes in
            cascade_removal fuel db (match pending with [] => [] | _ => [ks_key k] end) pending op
        | _ =>
            let pending := queue_written_outcomes keys outcomes [] in
            cascade_writes fuel db (match pending with [] => [] | _ => [ks_key k] end) pending
        end
    end.

Definition apply_compaction (fuel : nat) (db : Keyspace) (k : KeyedSeries) (op : CompactionOp) : option (TsdbResult unit * Keyspace) :=
  match rules k with
  | [] => Some (Ok tt, <[ks_key k := k]> db)
  | _ => process_series_with_compaction fuel db k op
  end.

Definition run_compaction (fuel : nat) (db : Keyspace) (k : KeyedSeries) (s : Sample) : option (TsdbResult unit * Keyspace) :=
  apply_compaction fuel db k (AddNew s).

Definition upsert_compaction (fuel : nat) (db : Keyspace) (k : KeyedSeries) (s : Sample) : option (TsdbResult unit * Keyspace) :=
  apply_compaction fuel db k (Upsert s).

Definition batch_compaction (fuel : nat) (db : Keyspace) (k : KeyedSeries) (samples : list Sample) (prev_last : option Timestamp)
    (input_order : list Timestamp) : option (TsdbResult unit * Keyspace) :=
  match samples with
  | [] => Some (Ok tt, <[ks_key k := k]> db)
  | _ => apply_compaction fuel db k (AddBatch samples prev_last input_order)
  end.

Definition remove_range_with_compaction (fuel : nat) (db : Keyspace) (k : KeyedSeries) (start_ts end_ts : Timestamp)
    : option (TsdbResult Z * Keyspace) :=
  let '(removed, t) := remove_range (series k) start_ts end_ts in
  let k := ks_with_series k t in
  match removed with
  | Err e => Some (Err e, <[ks_key k := k]> db)
  | Ok deleted_count =>
      if 0 <? deleted_count then
        match apply_compaction fuel db k (RemoveRange start_ts end_ts) with
        | Some (Ok _, db) => Some (Ok deleted_count, db)
        | Some (Err e, db) => Some (Err e, db)
        | None => None
        end
      else Some (Ok deleted_count, <[ks_key k := k]> db)
  end.

(** ** Commands *)

(** Why a write command fails: the series refused the sample, or a rule failed. *)
Inductive WriteError :=
| Refused (r : SampleAddResult)
| CompactionFailed (e : TsdbError).

(** [handle_add] of [TS.ADD] without replication and notifications. *)
Definition handle_add (fuel : nat) (db : Keyspace) (k : KeyedSeries) (ts : Timestamp) (v : f64) (on_duplicate : option DuplicatePolicy)
    : option (result WriteError Timestamp * Keyspace) :=
  let last_ts := timestamp <$> last_sample (series k) in
  let '(res, inserted, t) := add_reporting_insert (series k) ts v on_duplicate in
  let k := ks_with_series k t in
  let finish ignored ts v :=
    let is_upsert := match last_ts with Some last_ts => ts <=? last_ts | None => false end in
    if negb ignored && match rules k with [] => false | _ => true end then
      let s := mkSample ts v in
      let outcome := if is_upsert then upsert_compaction fuel db k s
                     else run_compaction fuel db k (default s (last_sample (series k))) in
      match outcome with
      | Some (Ok _, db) => Some (Ok ts, db)
      | Some (Err e, db) => Some (Err (CompactionFailed e), db)
      | None => None
      end
    else Some (Ok ts, <[ks_key k := k]> db) in
  match res with
  | Ignored res_ts => finish true res_ts v
  | AddOk added => finish false (timestamp added) (value added)
  | r => Some (Err (Refused r), <[ks_key k := k]> db)
  end.

(** [run_compaction_for_increment] of [TS.INCRBY] and [TS.DECRBY]. *)
Definition run_compaction_for_increment (fuel : nat) (db : Keyspace) (k : KeyedSeries) (added : Sample) (prev_last_ts : option Timestamp)
    : option (TsdbResult unit * Keyspace) :=
  match rules k with
  | [] => Some (Ok tt, <[ks_key k := k]> db)
  | _ =>
      let is_upsert := match prev_last_ts with Some last_ts => timestamp added <=? last_ts | None => false end in
      if is_upsert then upsert_compaction fuel db k added
      else run_compaction fuel db k (default added (last_sample (series k)))
  end.

(** ** Links between series *)

Definition add_compaction_rule (k : KeyedSeries) (rule : CompactionRule) : KeyedSeries :=
  ks_with_rules k (rules k ++ [rule_with rule (with_window (cr_bucket_duration rule) (aggregator rule)) (bucket_start rule) (has_samples rule)]).

(** The rule whose destination is the series under [dest_key], and the rest. *)
Fixpoint take_rule (dest_key : string) (rs : list CompactionRule) : option (CompactionRule * list CompactionRule) :=
  match rs with
  | [] => None
  | rule :: rs =>
      if points_to (dest rule) dest_key then Some (rule, rs)
      else match take_rule dest_key rs with Some (found, rest) => Some (found, rule :: rest) | None => None end
  end.

Definition remove_compaction_rule (k : KeyedSeries) (dest_key : string) : option CompactionRule * KeyedSeries :=
  match take_rule dest_key (rules k) with
  | Some (found, rest) => (Some found, ks_with_rules k rest)
  | None => (None, k)
  end.

Definition live_source_key (db : Keyspace) (k : KeyedSeries) : option string :=
  match src_series k with
  | None => None
  | Some source_key =>
      match db !! source_key with
      | Some source => if existsb (fun rule => points_to (dest rule) (ks_key k)) (rules source) then Some source_key else None
      | None => None
      end
  end.

(** The sample of the open bucket that feeds a destination (LATEST). *)
Definition get_latest_compaction_sample (db : Keyspace) (k : KeyedSeries) : option Sample :=
  match src_series k with
  | None => None
  | Some parent_key =>
      match db !! parent_key with
      | None => None
      | Some parent =>
          match List.find (fun rule => points_to (dest rule) (ks_key k)) (rules parent) with
          | None => None
          | Some rule =>
              match bucket_start rule with
              | None => None
              | Some start => Some (mkSample start (agg_finalize (aggregator rule)).1)
              end
          end
      end
  end.

(** [relink_renamed_series], for the series [k] under its new key. *)
Definition relink_source (db : Keyspace) (k : KeyedSeries) (old_key : string) : Keyspace :=
  match src_series k with
  | Some source_link =>
      if points_to source_link (ks_key k) then db
      else match db !! source_link with
           | Some source =>
               <[source_link := ks_with_rules source
                   (map (fun rule => if points_to (dest rule) old_key
                                     then mkCompactionRule (ks_key k) (aggregator rule) (cr_bucket_duration rule) (align_timestamp rule) (bucket_start rule) (has_samples rule)
                                     else rule) (rules source))]> db
           | None => db
           end
  | None => db
  end.

Definition relink_dest (k : KeyedSeries) (old_key : string) (db : Keyspace) (rule : CompactionRule) : Keyspace :=
  if points_to (dest rule) (ks_key k) then db
  else match db !! dest rule with
       | Some d =>
           if match src_series d with Some src => points_to src old_key | None => false end
           then <[dest rule := mkKeyedSeries (ks_key d) (series d) (rules d) (Some (ks_key k)) (last_forward_close d)]> db else db
       | None => db
       end.

Definition relink_renamed_series (db : Keyspace) (k : KeyedSeries) (old_key : string) : Keyspace :=
  fold_left (relink_dest k old_key) (rules k) (relink_source db k old_key).

(** ** Circular rules *)

Definition COMPACTION_CIRCULAR_DEPENDENCY : string := "TSDB: circular dependency in compaction rules".

(** [try_get_timeseries] where the keys of [others] hold values of another type. *)
Definition try_get_linked (caller : Caller) (others : gset string) (db : Keyspace) (key : string) (permissions : option AclPermissions)
    : result QuerierError (option KeyedSeries) :=
  let? _ := match permissions with Some permissions => check_key_permissions caller key permissions | None => Ok tt end in
  match db !! key with
  | Some s => Ok (Some s)
  | None => if bool_decide (key ∈ others) then Err WrongType else Ok None
  end.

Definition get_linked (caller : Caller) (others : gset string) (db : Keyspace) (key : string) (permissions : option AclPermissions)
    : result QuerierError KeyedSeries :=
  let? s := try_get_linked caller others db key permissions in
  match s with Some s => Ok s | None => Err KeyNotFound end.

(** The loop over the rules of a series: stops at the first that reaches or
    fails. *)
Fixpoint any_rule (reaches : CompactionRule -> list string -> option (result QuerierError (bool * list string))) (rs : list CompactionRule)
    (visited : list string) : option (result QuerierError (bool * list string)) :=
  match rs with
  | [] => Some (Ok (false, visited))
  | rule :: rs =>
      match reaches rule visited with
      | Some (Ok (false, visited)) => any_rule reaches rs visited
      | other => other
      end
  end.

(** The set of visited keys is shared by the calls, so it is a result.  [None] is
    fuel that was not enough. *)
Fixpoint dependency_reaches (fuel : nat) (caller : Caller) (others : gset string) (db : Keyspace) (current : string) (from : option string)
    (target : string) (visited : list string) : option (result QuerierError (bool * list string)) :=
  match fuel with
  | O => None
  | S fuel =>
      match try_get_linked caller others db current None with
      | Err e => Some (Err e)
      | Ok None => Some (Ok (false, visited))
      | Ok (Some s) =>
          if match from with
             | Some from => negb (match src_series s with Some src => points_to src from | None => false end)
             | None => false
             end then Some (Ok (false, visited))
          else if bool_decide (current = target) then Some (Ok (true, visited))
          else if bool_decide (current ∈ visited) then Some (Ok (false, visited))
          else
            any_rule (fun rule => dependency_reaches fuel caller others db (dest rule) (Some (ks_key s)) target) (rules s) (current :: visited)
      end
  end.

(** Why [TS.CREATERULE] fails: a key could not be opened, the arguments could not
    be parsed, or a message of its own. *)
Inductive RuleError :=
| RuleOpen (e : QuerierError)
| RuleArguments (e : string)
| RuleMessage (e : string).

Definition check_new_rule_circular_dependency (fuel : nat) (caller : Caller) (others : gset string) (db : Keyspace) (source_key dest_key : string)
    : option (result RuleError unit) :=
  match dependency_reaches fuel caller others db dest_key None source_key [] with
  | Some (Err e) => Some (Err (RuleOpen e))
  | Some (Ok (true, _)) => Some (Err (RuleMessage COMPACTION_CIRCULAR_DEPENDENCY))
  | Some (Ok (false, _)) => Some (Ok tt)
  | None => None
  end.

Definition SAME_KEYS : string := "TSDB: the source key and destination key should be different".
Definition HAS_SRC_RULE : string := "TSDB: the destination key already has a src rule".

Definition UPDATE : AclPermissions := mkAclPermissions false false true false.

(** [TS.CREATERULE] with what its parser makes of the arguments.  The keys are
    opened again, for writing, after the checks; nothing has changed by then. *)
Definition create_rule (fuel : nat) (caller : Caller) (others : gset string) (db : Keyspace) (source_key dest_key : string)
    (parsed : result string CompactionRule) : option (result RuleError unit * Keyspace) :=
  if bool_decide (source_key = dest_key) then Some (Err (RuleMessage SAME_KEYS), db)
  else
    match get_linked caller others db source_key (Some UPDATE) with
    | Err e => Some (Err (RuleOpen e), db)
    | Ok source =>
        match get_linked caller others db dest_key (Some UPDATE) with
        | Err e => Some (Err (RuleOpen e), db)
        | Ok d =>
            if bool_decide (is_Some (live_source_key db d)) then Some (Err (RuleMessage HAS_SRC_RULE), db)
            else
              match parsed with
              | Err e => Some (Err (RuleArguments e), db)
              | Ok rule =>
                  match check_new_rule_circular_dependency fuel caller others db source_key dest_key with
                  | None => None
                  | Some (Err e) => Some (Err e, db)
                  | Some (Ok _) =>
                      let source := add_compaction_rule (remove_compaction_rule source dest_key).2 rule in
                      let d := mkKeyedSeries (ks_key d) (series d) (rules d) (Some source_key) (last_forward_close d) in
                      Some (Ok tt, <[dest_key := d]> (<[source_key := source]> db))
                  end
              end
        end
    end.

End Graph.
