(* ===== verification/CascadeLaws.v ===== *)
(** * CascadeLaws: termination of the cascade and circular rules

    The cascade visits every series at most once, and the check for circular
    rules decides reachability along live rules. *)

From stdpp Require Import gmap sets strings pretty.
From S2P Require Import Prelude Float64 Types Slice Content Elf64 Log10Ref TimeSeriesChunk SeriesIterator Rounding TimeSeries.
From S2P Require Import Aggregators AggregateIterator Querier Join Compaction CompactionGraph.

(** ** Operations leave the rules of a destination alone *)

Section Keeps.

Context `{Log10} `{ServerConfig}.

Definition place (c : CompactionContext) : TimeSeries * string * list CompactionRule * option SeriesLink :=
  (parent c, ks_key (cx_dest c), rules (cx_dest c), src_series (cx_dest c)).

Definition keeps {A} (m : compaction A) : Prop := forall c, place (m c).2 = place c.

Lemma keeps_ret {A} (x : A) : keeps (cret x).
Proof. done. Qed.

Lemma keeps_get : keeps cget.
Proof. done. Qed.

Lemma keeps_bind {A B} (m : compaction A) (k : A -> compaction B) : keeps m -> (forall x, keeps (k x)) -> keeps (cbind m k).
Proof.
  intros Hm Hk c. specialize (Hm c). unfold cbind. destruct (m c) as [[x|e] c']; [|done]. cbn [snd] in Hm. rewrite <- Hm. apply Hk.
Qed.

Lemma keeps_modify f : (forall c, place (f c) = place c) -> keeps (cmodify f).
Proof. intros Hf c. apply Hf. Qed.

Lemma keeps_remove s e : keeps (remove_dest_range s e).
Proof.
  intros c. unfold remove_dest_range. destruct (remove_range _ s e) as [[n|err] t]; [|done]. cbn [snd]. unfold place. cbn.
  destruct (last_forward_close (cx_dest c)); [|done]. by destruct (get_sample t _) as [[]|].
Qed.

Lemma keeps_add s v : keeps (add_dest_bucket s v).
Proof.
  intros c. unfold add_dest_bucket. destruct (add _ _ v _) as [[] t]; cbn [snd]; try done. unfold place. cbn. by destruct (last_forward_close (cx_dest c)).
Qed.

Create HintDb keeps.
Hint Resolve keeps_ret keeps_get keeps_remove keeps_add : keeps.

Ltac keeps_tac :=
  repeat first [ apply keeps_bind; [|intros ?] | apply keeps_modify; intros ?; repeat case_match; done
               | solve [auto with keeps] | progress case_match ].

Lemma keeps_recalculate s e m f : keeps (recalculate_bucket s e m f).
Proof. unfold recalculate_bucket. keeps_tac. Qed.

Lemma keeps_sample s : keeps (handle_sample_compaction s).
Proof. unfold handle_sample_compaction, finalize_current_bucket, start_bucket, cx_update. pose proof keeps_recalculate. keeps_tac. Qed.

Lemma keeps_upsert s : keeps (handle_compaction_upsert s).
Proof. unfold handle_compaction_upsert, recalculate_current_bucket, start_bucket, cx_update. pose proof keeps_recalculate. keeps_tac. Qed.

Lemma keeps_removal s e : keeps (handle_compaction_range_removal s e).
Proof.
  unfold handle_compaction_range_removal, remove_or_recalculate_bucket, resync_open_bucket_after_removal. pose proof keeps_recalculate. keeps_tac.
Qed.

Lemma keeps_for_each {A} (f : A -> compaction unit) l : (forall x, keeps (f x)) -> keeps (for_each f l).
Proof. intros Hf. induction l; cbn [for_each]; keeps_tac. Qed.

Lemma keeps_batch samples prev order : keeps (handle_batch_compaction samples prev order).
Proof.
  unfold handle_batch_compaction. apply keeps_bind; [apply keeps_get|]. intros c. destruct (split_batch _ _ _) as [a u].
  apply keeps_bind; [apply keeps_for_each, keeps_sample|]. intros _. apply keeps_bind; [|intros _; by apply keeps_modify].
  apply keeps_for_each. intros b. unfold recalculate_one, recalculate_current_bucket. pose proof keeps_recalculate. keeps_tac.
Qed.

Lemma apply_op_place op c : place (apply_op op c).2 = place c.
Proof. destruct op; cbn [apply_op]; [apply keeps_sample|apply keeps_upsert|apply keeps_batch|apply keeps_removal]. Qed.

End Keeps.

(** ** Termination of the cascade *)

(** The rules of the series that are not yet visited. *)
Definition unvisited (visited : list string) (m : gmap string nat) : nat :=
  map_fold (fun k n acc => ((if decide (k ∈ visited) then 0 else n) + acc)%nat) 0%nat m.

Definition rule_counts (db : Keyspace) : gmap string nat := (fun s => length (rules s)) <$> db.

Lemma unvisited_insert visited m k n : m !! k = None ->
  unvisited visited (<[k := n]> m) = ((if decide (k ∈ visited) then 0 else n) + unvisited visited m)%nat.
Proof. intros Hk. unfold unvisited. rewrite map_fold_insert_L; [done|intros; lia|done]. Qed.

Lemma unvisited_ext v v' m : (forall k n, m !! k = Some n -> k ∈ v <-> k ∈ v') -> unvisited v m = unvisited v' m.
Proof.
  induction m as [|k n m Hk IH] using map_ind; intros Hv; [done|]. rewrite !unvisited_insert by done. f_equal.
  - destruct (Hv k n); [by rewrite lookup_insert_eq|]. by do 2 case_decide; auto; tauto.
  - apply IH. intros j i Hj. apply (Hv j i). rewrite lookup_insert_ne; [done|congruence].
Qed.

Lemma unvisited_lookup visited m k n : m !! k = Some n ->
  unvisited visited m = ((if decide (k ∈ visited) then 0 else n) + unvisited visited (delete k m))%nat.
Proof. intros Hk. rewrite <- (insert_delete_id m k n Hk) at 1. by rewrite unvisited_insert by apply lookup_delete_eq. Qed.

(** Visiting a series takes its rules off the count, whatever becomes of them. *)
Lemma unvisited_visit visited m k n n' : m !! k = Some n -> k ∉ visited ->
  (unvisited (visited ++ [k]) (<[k := n']> m) + n = unvisited visited m)%nat.
Proof.
  intros Hk Hv. rewrite (unvisited_lookup visited m k n Hk), decide_False by done.
  rewrite <- insert_delete_eq, unvisited_insert by apply lookup_delete_eq. rewrite decide_True by set_solver.
  rewrite (unvisited_ext (visited ++ [k]) visited); [lia|].
  intros j i [Hj _]%lookup_delete_Some. rewrite elem_of_app, list_elem_of_singleton; naive_solver.
Qed.

Section Cascade.

Context `{Log10} `{ServerConfig}.

Definition well_keyed (db : Keyspace) : Prop := forall k s, db !! k = Some s -> ks_key s = k.

Lemma well_keyed_insert db k s : well_keyed db -> ks_key s = k -> well_keyed (<[k := s]> db).
Proof. intros Hdb Hk j s'. rewrite lookup_insert_Some. intros [[<- <-]|[_ Hj]]; [done|by apply Hdb]. Qed.

Lemma rule_counts_insert db k s : rule_counts (<[k := s]> db) = <[k := length (rules s)]> (rule_counts db).
Proof. unfold rule_counts. by rewrite fmap_insert. Qed.

Lemma apply_op_dest op t d r d' : cx_dest (apply_op op (mkContext t d r [])).2 = d' -> ks_key d' = ks_key d /\ rules d' = rules d /\ src_series d' = src_series d.
Proof. intros <-. pose proof (apply_op_place op (mkContext t d r [])) as Hp. by injection Hp. Qed.

Lemma apply_rules_shape t op rs : forall i keys db rs' db' outs e,
  apply_rules_internal t i rs keys db op = (rs', db', outs, e) -> well_keyed db ->
  well_keyed db' /\ rule_counts db' = rule_counts db /\ length rs' = length rs /\ (length outs <= length rs)%nat.
Proof.
  induction rs as [|r rs IH]; intros i keys db rs' db' outs e E Hw; cbn [apply_rules_internal] in E; [by simplify_eq|].
  destruct keys as [|[key|] keys]; [by simplify_eq/=; eauto with lia| |].
  - destruct (db !! key) as [d|] eqn:Ed.
    + destruct (apply_op op _) as [res c] eqn:Ec.
      destruct (apply_rules_internal t (S i) rs keys _ op) as [[[rs1 db1] outs1] e1] eqn:E1.
      destruct (apply_op_dest op t d r (cx_dest c)) as (Hk & Hr & _); [by rewrite Ec|].
      destruct (IH _ _ _ _ _ _ _ E1) as (Hw1 & Hc1 & Hl1 & Ho1); [apply well_keyed_insert; [done|by rewrite Hk; apply Hw]|].
      rewrite rule_counts_insert, Hr, insert_id in Hc1 by (unfold rule_counts; by rewrite lookup_fmap, Ed).
      destruct res; simplify_eq; cbn [length]; repeat split; auto; lia.
    + destruct (apply_rules_internal t (S i) rs keys _ op) as [[[rs1 db1] outs1] e1] eqn:E1. simplify_eq.
      destruct (IH _ _ _ _ _ _ _ E1 Hw) as (Hw1 & Hc1 & Hl1 & Ho1). cbn [length]. repeat split; auto; lia.
  - destruct (apply_rules_internal t (S i) rs keys _ op) as [[[rs1 db1] outs1] e1] eqn:E1. simplify_eq.
    destruct (IH _ _ _ _ _ _ _ E1 Hw) as (Hw1 & Hc1 & Hl1 & Ho1). cbn [length]. repeat split; auto; lia.
Qed.

Lemma apply_rules_on_shape db k keys op res db' : apply_rules_on_destinations db k keys op = (res, db') ->
  well_keyed db ->
  well_keyed db' /\ rule_counts db' = <[ks_key k := length (rules k)]> (rule_counts db) /\
  (forall outs, res = Ok outs -> (length outs <= length (rules k))%nat).
Proof.
  unfold apply_rules_on_destinations. intros E Hw.
  destruct (apply_rules_internal _ 0 _ _ _ _) as [[[rs db1] outs] e] eqn:E1.
  destruct (apply_rules_shape _ _ _ _ _ _ _ _ _ _ E1 Hw) as (Hw1 & Hc & Hl & Ho).
  assert (db' = <[ks_key k := ks_with_rules k rs]> db1) as -> by (by destruct e; simplify_eq).
  split; [by apply well_keyed_insert|]. split; [by rewrite rule_counts_insert, Hc; cbn; rewrite Hl|].
  intros outs' ->. destruct e; simplify_eq. done.
Qed.

Lemma open_destinations_length db key visited rs : forall opened kept keys,
  open_destinations db key visited opened rs = (kept, keys) ->
  (length kept <= length rs)%nat /\ (length keys = length opened + length kept)%nat.
Proof.
  induction rs as [|r rs IH]; intros opened kept keys E; cbn [open_destinations] in E; [simplify_eq/=; lia|].
  destruct (resolve_destination _ _ _ _ _); [| |by destruct (IH _ _ _ E); cbn; lia].
  all: destruct (open_destinations _ _ _ (_ ++ _) rs) as [kept' keys'] eqn:E'; simplify_eq;
       destruct (IH _ _ _ E') as [? Hk]; rewrite length_app in Hk; cbn in *; lia.
Qed.

Lemma queue_outcomes_length outs : forall keys, (length (queue_outcomes keys outs) <= length outs)%nat.
Proof.
  induction outs as [|o outs IH]; intros keys; cbn [queue_outcomes length]; [lia|].
  destruct (keys !! rule_index o) as [[k|]|]; cbn [length]; [specialize (IH (<[rule_index o := None]> keys))|specialize (IH keys)..]; lia.
Qed.

Lemma queue_written_length outs : forall keys pending, (length (queue_written_outcomes keys outs pending) <= length pending + length outs)%nat.
Proof.
  induction outs as [|o outs IH]; intros keys pending; cbn [queue_written_outcomes length]; [lia|].
  destruct (oc_written o) as [|x w]; [specialize (IH keys pending); lia|].
  destruct (keys !! rule_index o) as [[k|]|]; [|specialize (IH keys pending); lia..].
  etransitivity; [apply IH|]. rewrite length_app. cbn. lia.
Qed.

Lemma pop_last_length {A} (l : list A) x rest : pop_last l = Some (x, rest) -> length l = S (length rest).
Proof.
  unfold pop_last. destruct (list.last l) eqn:E; [|done]. intros [= -> <-]. rewrite length_take.
  destruct l; [done|]. cbn. lia.
Qed.

(** The state of the loop after a series that is not yet visited was opened. *)
Lemma visit_step db visited child_key child child' keys :
  well_keyed db -> db !! child_key = Some child -> child_key ∉ visited ->
  get_compaction_series db child (visited ++ [child_key]) = (child', keys) ->
  well_keyed (<[child_key := child']> db) /\ ks_key child' = child_key /\ (length (rules child') <= length (rules child))%nat /\
  forall n, (unvisited (visited ++ [child_key]) (<[child_key := n]> (rule_counts db)) + length (rules child) = unvisited visited (rule_counts db))%nat.
Proof.
  unfold get_compaction_series. intros Hw Hc Hv E. destruct (open_destinations _ _ _ _ _) as [kept keys'] eqn:Eo. simplify_eq.
  destruct (open_destinations_length _ _ _ _ _ _ _ Eo) as [Hl _]. pose proof (Hw _ _ Hc) as Hk.
  split; [by apply well_keyed_insert|]. split; [done|]. split; [done|]. intros n. apply unvisited_visit; [|done]. unfold rule_counts. by rewrite lookup_fmap, Hc.
Qed.

Lemma cascade_removal_total fuel op : forall db visited pending, well_keyed db ->
  (length pending + unvisited visited (rule_counts db) < fuel)%nat -> is_Some (cascade_removal fuel db visited pending op).
Proof.
  induction fuel as [|fuel IH]; intros db visited pending Hw Hf; [lia|]. cbn [cascade_removal].
  destruct (pop_last pending) as [[key rest]|] eqn:Ep; [|by eexists]. apply pop_last_length in Ep.
  case_bool_decide as Hv; [apply IH; [done|lia]|]. destruct (db !! key) as [child|] eqn:Ec; [|apply IH; [done|lia]].
  destruct (rules child) eqn:Er; [apply IH; [done|lia]|]. clear Er.
  destruct (get_compaction_series db child _) as [child' keys] eqn:Eg.
  destruct (visit_step _ _ _ _ _ _ Hw Ec Hv Eg) as (Hw' & Hk & Hl & Hu).
  destruct (destinations_is_empty keys); [apply IH; [done|rewrite rule_counts_insert; specialize (Hu (length (rules child'))); lia]|].
  destruct (apply_rules_on_destinations _ child' keys op) as [res db'] eqn:Ea.
  destruct (apply_rules_on_shape _ _ _ _ _ _ Ea Hw') as (Hwd & Hcd & Ho).
  destruct res as [outs|e]; [|by eexists]. apply IH; [done|]. rewrite Hcd, Hk, rule_counts_insert, insert_insert_eq.
  specialize (Hu (length (rules child'))). rewrite length_app. pose proof (queue_outcomes_length outs keys). specialize (Ho _ eq_refl). lia.
Qed.

Lemma cascade_writes_total fuel : forall db visited pending, well_keyed db ->
  (length pending + unvisited visited (rule_counts db) < fuel)%nat -> is_Some (cascade_writes fuel db visited pending).
Proof.
  induction fuel as [|fuel IH]; intros db visited pending Hw Hf; [lia|]. cbn [cascade_writes].
  destruct (pop_last pending) as [[[[key samples] prev] rest]|] eqn:Ep; [|by eexists]. apply pop_last_length in Ep.
  case_bool_decide as Hv; [apply IH; [done|lia]|]. destruct (db !! key) as [child|] eqn:Ec; [|apply IH; [done|lia]].
  destruct (rules child) eqn:Er; [apply IH; [done|lia]|]. clear Er.
  destruct (get_compaction_series db child _) as [child' keys] eqn:Eg.
  destruct (visit_step _ _ _ _ _ _ Hw Ec Hv Eg) as (Hw' & Hk & Hl & Hu).
  destruct (destinations_is_empty keys); [apply IH; [done|rewrite rule_counts_insert; specialize (Hu (length (rules child'))); lia]|].
  destruct (apply_rules_on_destinations _ child' keys _) as [res db'] eqn:Ea.
  destruct (apply_rules_on_shape _ _ _ _ _ _ Ea Hw') as (Hwd & Hcd & Ho).
  destruct res as [outs|e]; [|by eexists]. apply IH; [done|]. rewrite Hcd, Hk, rule_counts_insert, insert_insert_eq.
  specialize (Hu (length (rules child'))). pose proof (queue_written_length outs keys rest). specialize (Ho _ eq_refl). lia.
Qed.

(** The rules of the keyspace with the series [k] in it. *)
Definition total_rules (db : Keyspace) (k : KeyedSeries) : nat := unvisited [] (rule_counts (<[ks_key k := k]> db)).

Lemma process_total fuel db k op : well_keyed db -> (total_rules db k < fuel)%nat ->
  is_Some (process_series_with_compaction fuel db k op).
Proof.
  unfold process_series_with_compaction, total_rules. intros Hw Hf.
  destruct (get_compaction_series db k []) as [k' keys] eqn:Eg. unfold get_compaction_series in Eg.
  destruct (open_destinations _ _ _ _ _) as [kept keys'] eqn:Eo. simplify_eq.
  destruct (open_destinations_length _ _ _ _ _ _ _ Eo) as [Hl _]. cbn [ks_key ks_with_rules].
  destruct (destinations_is_empty keys); [by eexists|].
  destruct (apply_rules_on_destinations _ _ keys op) as [res db'] eqn:Ea.
  destruct (apply_rules_on_shape _ _ _ _ _ _ Ea) as (Hw' & Hc' & Ho); [by apply well_keyed_insert|].
  destruct res as [outs|e]; [|by eexists]. cbn [ks_key ks_with_rules rules] in Hc', Ho.
  rewrite rule_counts_insert, insert_insert_eq in Hc'. specialize (Ho _ eq_refl).
  assert (Hd : (length outs + unvisited [ks_key k] (rule_counts db') < fuel)%nat).
  { rewrite Hc'. rewrite rule_counts_insert in Hf.
    pose proof (unvisited_visit [] (<[ks_key k := length (rules k)]> (rule_counts db)) (ks_key k) (length (rules k)) (length kept)) as Hv.
    rewrite insert_insert_eq in Hv. cbn [app] in Hv. rewrite lookup_insert_eq in Hv. specialize (Hv eq_refl ltac:(set_solver)). lia. }
  destruct op; [| | |pose proof (queue_outcomes_length outs keys)].
  1-3: pose proof (queue_written_length outs keys []) as Hq; cbn [length] in Hq;
       destruct (queue_written_outcomes keys outs []) eqn:Eq; [destruct fuel; [lia|]; by eexists|apply cascade_writes_total; [done|cbn [length] in *; lia]].
  destruct (queue_outcomes keys outs) eqn:Eq; [destruct fuel; [lia|]; by eexists|]. apply cascade_removal_total; [done|cbn [length] in *; lia].
Qed.

End Cascade.

(** ** Circular rules *)

(** The rule from [a] to [b] is live when [b] names [a] as its source. *)
Definition live (db : Keyspace) (a b : string) : Prop :=
  exists s d rule, db !! a = Some s /\ rule ∈ rules s /\ dest rule = b /\ db !! b = Some d /\ src_series d = Some a.

Definition acyclic (db : Keyspace) : Prop := forall k, ~ tc (live db) k k.

Section Circular.

Variable caller : Caller.
Variable others : gset string.
Variable db : Keyspace.
Hypothesis Hkeys : well_keyed db.
Variable target : string.

Definition remaining (visited : list string) : nat := size ((dom db : gset string) ∖ list_to_set visited).

Lemma remaining_visit visited k : k ∈ (dom db : gset string) -> k ∉ visited -> (remaining (k :: visited) < remaining visited)%nat.
Proof. unfold remaining. intros Hk Hv. apply subset_size. split; [set_solver|]. intros Hs. specialize (Hs k). set_solver. Qed.

Lemma remaining_mono visited visited' : visited ⊆ visited' -> (remaining visited' <= remaining visited)%nat.
Proof. unfold remaining. intros Hv. apply subseteq_size. set_solver. Qed.

(** The key holds a value of another type. *)
Definition foreign (k : string) : Prop := db !! k = None /\ k ∈ others.

(** A rule of the series points at such a key. *)
Definition misdirected (k : string) : Prop := exists s r, db !! k = Some s /\ r ∈ rules s /\ foreign (dest r).

(** The search enters a series that exists and names the series it comes from. *)
Definition enters (from : option string) (k : string) : Prop :=
  exists d, db !! k = Some d /\ forall f, from = Some f -> src_series d = Some f.

Definition settled (visited : list string) (k : string) : Prop :=
  ~ misdirected k /\ forall j, live db k j -> j <> target /\ j ∈ visited.

(** The search fails at a key of another type, or below a series it enters. *)
Definition stumbles (from : option string) (k : string) : Prop :=
  foreign k \/ (enters from k /\ exists j, rtc (live db) k j /\ misdirected j).

Definition search_ok (current : string) (from : option string) (visited : list string) (r : result QuerierError (bool * list string)) : Prop :=
  match r with
  | Err e => e = WrongType /\ stumbles from current
  | Ok (true, _) => enters from current /\ rtc (live db) current target
  | Ok (false, visited') =>
      visited ⊆ visited' /\ ~ foreign current /\ (enters from current -> current <> target /\ current ∈ visited') /\
      forall k, k ∈ visited' -> k ∉ visited -> settled visited' k
  end.

(** The same for the loop over some rules of [k]. *)
Definition loop_ok (k : string) (rs : list CompactionRule) (visited : list string) (r : result QuerierError (bool * list string)) : Prop :=
  match r with
  | Err e => e = WrongType /\ exists r, r ∈ rs /\ stumbles (Some k) (dest r)
  | Ok (true, _) => exists r, r ∈ rs /\ enters (Some k) (dest r) /\ rtc (live db) (dest r) target
  | Ok (false, visited') =>
      visited ⊆ visited' /\
      (forall r, r ∈ rs -> ~ foreign (dest r) /\ (enters (Some k) (dest r) -> dest r <> target /\ dest r ∈ visited')) /\
      forall j, j ∈ visited' -> j ∉ visited -> settled visited' j
  end.

Lemma settled_mono visited visited' k : visited ⊆ visited' -> settled visited k -> settled visited' k.
Proof. intros Hv [Hm Hs]. split; [done|]. intros j Hj. destruct (Hs j Hj). auto. Qed.

(** The loop over the rules of [k], when the search from each is right. *)
Lemma any_rule_spec fuel k rs :
  (forall current from visited, (remaining visited < fuel)%nat -> exists r,
     dependency_reaches fuel caller others db current from target visited = Some r /\ search_ok current from visited r) ->
  forall visited, (remaining visited < fuel)%nat -> exists r,
  any_rule (fun rule => dependency_reaches fuel caller others db (dest rule) (Some k) target) rs visited = Some r /\ loop_ok k rs visited r.
Proof.
  intros IH. induction rs as [|r rs IHrs]; intros visited Hf; cbn [any_rule].
  { eexists. split; [done|]. cbn. split; [done|]. split; [|done]. by intros ? ?%elem_of_nil. }
  destruct (IH (dest r) (Some k) visited Hf) as ([[[] v1]|e] & -> & H1); cbn [search_ok] in H1;
    [eexists; split; [done|]; exists r; set_solver| |eexists; split; [done|]; destruct H1; split; [done|]; exists r; set_solver].
  destruct H1 as (Hsub & Hnf & Hent & Hset). pose proof (remaining_mono _ _ Hsub).
  destruct (IHrs v1 ltac:(lia)) as (r2 & -> & H2). eexists. split; [done|].
  destruct r2 as [[[] v2]|e]; cbn [loop_ok] in *; [destruct H2 as (r' & ? & ?); exists r'; set_solver| |].
  2:{ destruct H2 as (? & r' & ? & ?). split; [done|]. exists r'. set_solver. }
  destruct H2 as (Hsub2 & Hent2 & Hset2). split; [set_solver|]. split.
  - intros r' [->|Hr']%elem_of_cons; [|by apply Hent2]. split; [done|]. intros He. destruct (Hent He); auto.
  - intros j Hj Hnj. destruct (decide (j ∈ v1)); [by eapply settled_mono; [|apply Hset]|by apply Hset2].
Qed.

Lemma live_rule k s r : db !! k = Some s -> r ∈ rules s -> enters (Some k) (dest r) -> live db k (dest r).
Proof. intros Hs Hr (d & Hd & Hsrc). exists s, d, r. naive_solver. Qed.

(** What the loop over all the rules of a series says of the series. *)
Lemma loop_search k s from visited r : db !! k = Some s -> enters from k -> k <> target -> k ∉ visited ->
  loop_ok k (rules s) (k :: visited) r -> search_ok k from visited r.
Proof.
  intros Hs He Ht Hv. destruct r as [[[] v]|e]; cbn [loop_ok search_ok].
  - intros (r & Hin & Hent & Hrtc). split; [done|]. eapply rtc_l; [by eapply live_rule|done].
  - intros (Hsub & Hrules & Hset). split; [set_solver|]. split; [intros [Hn _]; congruence|]. split; [set_solver|].
    intros j Hjv Hjn. destruct (decide (j = k)) as [->|]; [|apply Hset; set_solver]. split.
    + intros (s' & r & Hs' & Hin & Hfor). simplify_eq. by destruct (Hrules r Hin) as [[] _].
    + intros j (s' & d & r & Hs' & Hin & <- & Hd & Hsrc). simplify_eq. destruct (Hrules r Hin) as [_ Hent]. apply Hent. exists d. split; [done|]. by intros ? [= <-].
  - intros (-> & r & Hin & [Hfor|[Hent (j & Hj & Hm)]]); (split; [done|]; right; split; [done|]).
    + exists k. split; [done|]. by exists s, r.
    + exists j. split; [|done]. eapply rtc_l; [by eapply live_rule|done].
Qed.

Lemma dependency_reaches_spec fuel : forall current from visited, (remaining visited < fuel)%nat -> exists r,
  dependency_reaches fuel caller others db current from target visited = Some r /\ search_ok current from visited r.
Proof.
  induction fuel as [|fuel IH]; intros current from visited Hf; [lia|]. cbn [dependency_reaches]. unfold try_get_linked.
  destruct (db !! current) as [s|] eqn:Es.
  2:{ case_bool_decide as Ho; (eexists; split; [done|]); cbn [search_ok]; [by split; [|left]|].
      split; [done|]. split; [by intros []|]. split; [intros (d & Hd & _); congruence|done]. }
  assert (Hstop : ~ enters from current -> search_ok current from visited (Ok (false, visited))).
  { intros Hn. split; [done|]. split; [intros []; congruence|]. split; [tauto|done]. }
  assert (He : enters from current \/ exists f, from = Some f /\ src_series s <> Some f).
  { destruct from as [f|]; [|by left; exists s]. destruct (decide (src_series s = Some f)); [left; exists s; by split; [|intros ? [= <-]]|eauto]. }
  destruct He as [He|(f & -> & Hn)].
  2:{ replace (negb _) with true by (destruct (src_series s); [|done]; unfold points_to; rewrite bool_decide_false by (intros ->; by apply Hn); done).
      eexists. split; [done|]. apply Hstop. intros (d & Hd & Hf'). specialize (Hf' f eq_refl). congruence. }
  assert (match from with Some f => negb (match src_series s with Some src => points_to src f | None => false end) | None => false end = false) as ->.
  { destruct He as (d & Hd & Hf'). destruct from as [f|]; [|done]. rewrite Es in Hd. injection Hd as <-. rewrite (Hf' f eq_refl). by unfold points_to; rewrite bool_decide_true. }
  case_bool_decide as Ht; [subst; by eexists|].
  case_bool_decide as Hv; [eexists; split; [done|]; split; [done|]; split; [intros []; congruence|done]|].
  rewrite (Hkeys _ _ Es). pose proof (remaining_visit visited current ltac:(by apply elem_of_dom_2 in Es) Hv) as Hr.
  destruct (any_rule_spec fuel current (rules s) IH (current :: visited) ltac:(lia)) as (r & -> & Hb).
  eexists. split; [done|]. by eapply loop_search.
Qed.

(** The search from a series decides whether the target can be reached, unless a
    rule on the way points at a key of another type. *)
Lemma dependency_reaches_exact fuel start : (size db < fuel)%nat -> is_Some (db !! start) -> exists r,
  dependency_reaches fuel caller others db start None target [] = Some r /\
  match r with
  | Ok (true, _) => rtc (live db) start target
  | Ok (false, _) => ~ rtc (live db) start target /\ ~ exists j, rtc (live db) start j /\ misdirected j
  | Err e => e = WrongType /\ exists j, rtc (live db) start j /\ misdirected j
  end.
Proof.
  intros Hf [s Hs]. destruct (dependency_reaches_spec fuel start None []) as (r & E & Hb).
  { unfold remaining. rewrite <- size_dom in Hf. eapply Nat.le_lt_trans; [|exact Hf]. apply subseteq_size. set_solver. }
  exists r. split; [done|]. destruct r as [[[] v]|e]; [by destruct Hb| |].
  2:{ destruct Hb as [-> [[? _]|[_ ?]]]; [congruence|done]. }
  destruct Hb as (_ & _ & Hent & Hset). destruct Hent as [Hne Hin]; [by exists s|].
  assert (forall x y, rtc (live db) x y -> x ∈ v -> x <> target -> y <> target /\ y ∈ v) as Hrun.
  { intros x y Hxy. induction Hxy as [|x z y Hxz _ IH]; [done|]. intros Hxv _. destruct (Hset x Hxv ltac:(set_solver)) as [_ Hl]. destruct (Hl z Hxz). auto. }
  split.
  - intros Hr. by destruct (Hrun _ _ Hr Hin Hne).
  - intros (j & Hj & Hm). destruct (Hrun _ _ Hj Hin Hne) as [_ Hjv]. by destruct (Hset j Hjv ltac:(set_solver)).
Qed.

End Circular.

(** One more edge closes a cycle only if its ends were connected before. *)
Lemma tc_extra_edge (R R' : string -> string -> Prop) a b : (forall x y, R' x y -> R x y \/ (x = a /\ y = b)) ->
  forall x y, tc R' x y -> tc R x y \/ (rtc R x a /\ rtc R b y).
Proof.
  intros HR x y Hxy. induction Hxy as [x y Hxy|x z y Hxz _ IH].
  - destruct (HR _ _ Hxy) as [?|[-> ->]]; [by left; apply tc_once|by right].
  - destruct (HR _ _ Hxz) as [Hr|[-> ->]].
    + destruct IH as [?|[? ?]]; [left; by eapply tc_l|right; split; [by eapply rtc_l|done]].
    + right. split; [done|]. destruct IH as [?|[? ?]]; [by apply tc_rtc|done].
Qed.

Lemma take_rule_elem key rs : forall found rest r, take_rule key rs = Some (found, rest) -> r ∈ rest -> r ∈ rs.
Proof.
  induction rs as [|x rs IH]; intros found rest r E Hr; cbn [take_rule] in E; [done|].
  destruct (points_to _ _); [simplify_eq; by right|]. destruct (take_rule key rs) as [[f0 rest0]|] eqn:Et; simplify_eq.
  apply elem_of_cons in Hr as [->|Hr]; [by left|right; by eapply IH].
Qed.

(** What a new rule adds to the live ones. *)
Lemma live_create (db : Keyspace) a b rule source d :
  db !! a = Some source -> db !! b = Some d -> a <> b -> dest rule = b ->
  let source' := add_compaction_rule (remove_compaction_rule source b).2 rule in
  let d' := mkKeyedSeries (ks_key d) (series d) (rules d) (Some a) (last_forward_close d) in
  let db' := <[b := d']> (<[a := source']> db) in
  (well_keyed db -> well_keyed db') /\ forall x y, live db' x y -> live db x y \/ (x = a /\ y = b).
Proof.
  intros Ha Hb Hne Hrule source' d' db'.
  assert (Hsrc : ks_key source' = ks_key source /\ src_series source' = src_series source /\
    forall r, r ∈ rules source' -> r ∈ rules source \/ dest r = b).
  { unfold source', add_compaction_rule, remove_compaction_rule. destruct (take_rule b (rules source)) as [[f rest]|] eqn:Et; cbn;
      (split; [done|]; split; [done|]); intros r [Hr|Hr%list_elem_of_singleton]%elem_of_app; [left; by eapply take_rule_elem|by subst r; right|by left|by subst r; right]. }
  destruct Hsrc as (Hk & Hs & Hr). split.
  - intros Hw. apply well_keyed_insert; [apply well_keyed_insert; [done|by rewrite Hk; apply Hw]|exact (Hw _ _ Hb)].
  - intros x y (s & e & r & Hx & Hin & Hd & Hy & Hsy). destruct (decide (y = b)) as [->|Hyb].
    { unfold db' in Hy. rewrite lookup_insert_eq in Hy. injection Hy as <-. cbn in Hsy. injection Hsy as ->. by right. }
    left. assert (exists e0, db !! y = Some e0 /\ src_series e0 = Some x) as (e0 & He0 & Hse0).
    { unfold db' in Hy. rewrite lookup_insert_ne in Hy by done. destruct (decide (y = a)) as [->|]; [|rewrite lookup_insert_ne in Hy by done; eauto].
      rewrite lookup_insert_eq in Hy. injection Hy as <-. exists source. split; [done|congruence]. }
    assert (exists s0, db !! x = Some s0 /\ r ∈ rules s0) as (s0 & Hs0 & Hr0); [|by exists s0, e0, r].
    unfold db' in Hx. destruct (decide (x = b)) as [->|]; [rewrite lookup_insert_eq in Hx; injection Hx as <-; by exists d|].
    rewrite lookup_insert_ne in Hx by done. destruct (decide (x = a)) as [->|]; [|rewrite lookup_insert_ne in Hx by done; by exists s].
    rewrite lookup_insert_eq in Hx. injection Hx as <-. exists source. split; [done|]. destruct (Hr r Hin); [done|congruence].
Qed.
