(* ===== verification/CompactionFeeds.v ===== *)
(** * CompactionFeeds: a series that feeds several destinations

    Composes the laws of one rule over all the rules of a series, and the writes
    of the series with its rules: after [TS.ADD], [TS.INCRBY], [TS.DEL] or a
    batch every destination holds the closed buckets of the source. *)

From stdpp Require Import gmap sets strings pretty.
From S2P Require Import Prelude Float64 Types Slice Content ChunkOps Elf64 Log10Ref TimeSeriesChunk ChunkSearch SeriesIterator Rounding.
From S2P Require Import TimeSeries SeriesLaws SeriesReads SeriesWrites Aggregators AggregateIterator AggregateLaws AggregateColumns.
From S2P Require Import Compaction CompactionLaws CompactionBatch CompactionGraph CascadeLaws.

Section Feeds.

Context `{Log10} `{ServerConfig}.

(** ** One rule *)

(** The operation a change of the source from [l] to [l'] is reported by. *)
Definition op_fits (op : CompactionOp) (l l' : list Sample) : Prop :=
  match op with
  | AddNew x => l' = l ++ [x]
  | Upsert x => (exists z, list.last l = Some z /\ timestamp x <= timestamp z /\ timestamp <$> list.last l' = Some (timestamp z)) /\
                0 <= timestamp x /\ forall u, u <> timestamp x -> lookup_ts u l' = lookup_ts u l
  | AddBatch samples prev_last order => prev_last = timestamp <$> list.last l /\ merged l l' samples order
  | RemoveRange st en => l' = remove st en l /\ early st /\ early en
  end.

Lemma apply_op_spec r0 fresh adj op l l' c : rule_grid r0 -> agg_reset fresh = fresh -> numeric fresh adj ->
  compacted r0 fresh adj l c -> content_ok l -> all_early l -> fits_memory l -> source_ok (parent c) l' -> op_fits op l l' ->
  exists c', apply_op op c = (Ok tt, c') /\ compacted r0 fresh adj l' c' /\ same_place c c'.
Proof.
  intros Hg Hf Hn Hc Hl He Hm Hs Hop. destruct op as [x|x|samples prev order|st en]; cbn [op_fits apply_op] in *.
  - subst l'. apply handle_sample_spec; try done; [by apply source_content in Hs|apply Hs].
  - destruct Hop as ((z & Hz & Hle & Hz') & Hx0 & Hlk).
    assert (early (timestamp z)) as Hez. { unfold all_early in He. rewrite Forall_forall in He. by apply He, last_Some_elem_of. }
    assert (early (timestamp x)) as Hex by (unfold early in *; lia).
    apply (handle_upsert_spec r0 fresh adj Hg Hf Hn l l' x (rule_bucket_start r0 (timestamp z))); try done.
    + unfold source_open. by rewrite Hz.
    + unfold source_open. destruct (list.last l') as [z'|]; [|done]. cbn in Hz' |- *. by injection Hz' as ->.
    + by apply start_mono.
  - destruct Hop as [-> Hmg]. by apply handle_batch_spec.
  - destruct Hop as (-> & Hst & Hen). by apply handle_removal_spec.
Qed.

(** ** The rules of a series *)

(** The rule [r] of the series [src], which holds [l], and its destination. *)
Definition feeds_rule (db : Keyspace) (src : string) (l : list Sample) (r : CompactionRule) : Prop :=
  rule_grid r /\ dest r <> src /\
  exists d adj, db !! dest r = Some d /\ ks_key d = dest r /\ src_series d = Some src /\ rules d = [] /\
    numeric (agg_reset (aggregator r)) adj /\
    r = open_rule r (agg_reset (aggregator r)) l /\ dest_holds adj d (closed r (agg_reset (aggregator r)) adj l).

(** A series under its key that holds [l], each of its rules up to date. *)
Record feeds (db : Keyspace) (k : KeyedSeries) (l : list Sample) : Prop := {
  fd_here : db !! ks_key k = Some k;
  fd_stores : stores chunk_fit (series k) l;
  fd_source : source_ok (series k) l;
  fd_dests : NoDup (dest <$> rules k);
  fd_rules : forall r, r ∈ rules k -> feeds_rule db (ks_key k) l r;
}.

(** The step of one rule, with its destination put back. *)
Lemma feeds_rule_step db src l l' t op r d : feeds_rule db src l r -> db !! dest r = Some d ->
  content_ok l -> all_early l -> fits_memory l -> source_ok t l' -> op_fits op l l' ->
  exists c', apply_op op (mkContext t d r []) = (Ok tt, c') /\ dest (cx_rule c') = dest r /\ ks_key (cx_dest c') = dest r /\
    rules (cx_dest c') = [] /\ feeds_rule (<[dest r := cx_dest c']> db) src l' (cx_rule c').
Proof.
  intros (Hg & Hne & d' & adj & Hd & Hk & Hsrc & Hru & Hn & Hr & Hh) Ed Hl He Hm Hs Hop. rewrite Hd in Ed. injection Ed as ->.
  set (fresh := agg_reset (aggregator r)) in *.
  destruct (apply_op_spec r fresh adj op l l' (mkContext t d r []) Hg (reset_reset _) Hn) as (c' & E & [Hr' Hd'] & _); try done.
  destruct (apply_op_dest op t d r (cx_dest c')) as (Hk' & Hru' & Hsrc'); [by rewrite E|].
  assert (agg_reset (aggregator (cx_rule c')) = fresh) as Hf by (rewrite Hr'; cbn [aggregator open_rule rule_with]; rewrite reset_feed; apply reset_reset).
  exists c'. split; [done|]. split; [by rewrite Hr'|]. split; [congruence|]. split; [congruence|].
  unfold feeds_rule. rewrite Hf. replace (dest (cx_rule c')) with (dest r) by (by rewrite Hr'). split; [by rewrite Hr'|]. split; [done|].
  exists (cx_dest c'), adj. rewrite lookup_insert_eq. split_and!; [done|congruence..|done| |].
  - rewrite Hr' at 1. rewrite Hr'. done.
  - rewrite Hr'. exact Hd'.
Qed.

Lemma feeds_rule_frame db src l r key k : dest r <> key -> feeds_rule db src l r -> feeds_rule (<[key := k]> db) src l r.
Proof.
  intros Hne (Hg & Hns & d & adj & Hd & Hrest). split; [done|]. split; [done|]. exists d, adj. by rewrite lookup_insert_ne.
Qed.

(** ** Opening the destinations *)

Definition dest_keys (rs : list CompactionRule) : list (option string) := map (fun r => Some (dest r)) rs.

Lemma open_all db src l rs : forall opened, (forall r, r ∈ rs -> feeds_rule db src l r) -> NoDup (dest <$> rs) ->
  (forall r, r ∈ rs -> Some (dest r) ∉ opened) ->
  open_destinations db src [] opened rs = (rs, opened ++ (dest_keys rs)).
Proof.
  induction rs as [|r rs IH]; intros opened Hrs Hnd Ho; cbn [open_destinations]; [by rewrite app_nil_r|].
  apply NoDup_cons in Hnd as [Hr Hnd]. destruct (Hrs r) as (_ & Hne & d & adj & Hd & _ & Hsrc & _); [set_solver|].
  unfold resolve_destination. rewrite !bool_decide_false by set_solver. cbn [orb].
  rewrite Hd, Hsrc. unfold points_to. rewrite bool_decide_true by done. rewrite IH; [|set_solver|done|].
  - f_equal. by rewrite <- app_assoc.
  - intros r' Hr' [?|Heq%list_elem_of_singleton]%elem_of_app; [by apply (Ho r'); [set_solver|]|]. apply Hr. injection Heq as <-. by apply list_elem_of_fmap_2.
Qed.

(** ** Applying the rules *)

Lemma apply_all t op src l l' rs : content_ok l -> all_early l -> fits_memory l -> source_ok t l' -> op_fits op l l' ->
  forall i db, (forall r, r ∈ rs -> feeds_rule db src l r) -> NoDup (dest <$> rs) ->
  exists rs' db' outs, apply_rules_internal t i rs (dest_keys rs) db op = (rs', db', outs, None) /\
    dest <$> rs' = dest <$> rs /\ (forall key, key ∉ dest <$> rs -> db' !! key = db !! key) /\
    (forall r, r ∈ rs' -> feeds_rule db' src l' r) /\ length outs = length rs.
Proof.
  intros Hl He Hm Hs Hop. induction rs as [|r rs IH]; intros i db Hrs Hnd.
  { eexists _, _, _. split; [done|]. split; [done|]. split; [done|]. split; [|done]. by intros ? ?%elem_of_nil. }
  rewrite fmap_cons in Hnd. apply NoDup_cons in Hnd as [Hr Hnd]. pose proof (Hrs r ltac:(set_solver)) as Hfr.
  destruct Hfr as (_ & _ & d & _ & Hd & _). change (dest_keys (r :: rs)) with (Some (dest r) :: dest_keys rs). cbn [apply_rules_internal].
  rewrite Hd.
  destruct (feeds_rule_step db src l l' t op r d) as (c' & -> & Hdest & _ & _ & Hstep); try done; [apply Hrs; set_solver|].
  destruct (IH (S i) (<[dest r := cx_dest c']> db)) as (rs' & db' & outs & -> & Hds & Hfr & Hall & Hlen); [|done|].
  { intros r' Hr'. apply feeds_rule_frame; [|apply Hrs; set_solver]. intros E. apply Hr. rewrite <- E. by apply list_elem_of_fmap_2. }
  eexists _, _, _. split; [done|]. split; [cbn; by rewrite Hdest, Hds|]. split; [|split; [|cbn; by rewrite Hlen]].
  - intros key Hkey. rewrite fmap_cons, elem_of_cons in Hkey. rewrite Hfr by tauto. apply lookup_insert_ne. set_solver.
  - intros r' [->|Hr']%elem_of_cons; [|by apply Hall]. destruct Hstep as (Hg & Hne & d' & adj & Hd' & Hrest). split; [done|]. split; [done|].
    exists d', adj. rewrite Hdest in *. split; [|done]. by rewrite Hfr.
Qed.

(** ** Destinations without rules of their own end the cascade *)

Definition leaf (db : Keyspace) (key : string) : Prop := forall k, db !! key = Some k -> rules k = [].

Lemma pop_last_elem {A} (l rest : list A) x y : pop_last l = Some (x, rest) -> y ∈ x :: rest -> y ∈ l.
Proof.
  unfold pop_last. destruct (list.last l) eqn:E; [|done]. intros [= -> <-] [->|Hy]%elem_of_cons; [by apply last_Some_elem_of|].
  apply list_elem_of_lookup in Hy as [i Hi]. apply lookup_take_Some in Hi as [Hi _]. by eapply list_elem_of_lookup_2.
Qed.

Lemma cascade_removal_leaves fuel db visited op : forall pending, (length pending < fuel)%nat -> (forall key, key ∈ pending -> leaf db key) ->
  cascade_removal fuel db visited pending op = Some (Ok tt, db).
Proof.
  induction fuel as [|fuel IH]; intros pending Hf Hp; [lia|]. cbn [cascade_removal].
  destruct (pop_last pending) as [[key rest]|] eqn:Ep; [|done]. pose proof (pop_last_length _ _ _ Ep).
  assert (cascade_removal fuel db visited rest op = Some (Ok tt, db)) as ->.
  { apply IH; [lia|]. intros k Hk. apply Hp, (pop_last_elem _ _ _ _ Ep). set_solver. }
  case_bool_decide; [done|]. destruct (db !! key) as [k|] eqn:Ek; [|done].
  by rewrite (Hp key (pop_last_elem _ _ _ key Ep ltac:(set_solver)) k Ek).
Qed.

Lemma cascade_writes_leaves fuel db visited : forall pending, (length pending < fuel)%nat -> (forall w, w ∈ pending -> leaf db w.1.1) ->
  cascade_writes fuel db visited pending = Some (Ok tt, db).
Proof.
  induction fuel as [|fuel IH]; intros pending Hf Hp; [lia|]. cbn [cascade_writes].
  destruct (pop_last pending) as [[[[key ss] prev] rest]|] eqn:Ep; [|done]. pose proof (pop_last_length _ _ _ Ep).
  assert (cascade_writes fuel db visited rest = Some (Ok tt, db)) as ->.
  { apply IH; [lia|]. intros k Hk. apply Hp, (pop_last_elem _ _ _ _ Ep). set_solver. }
  case_bool_decide; [done|]. destruct (db !! key) as [k|] eqn:Ek; [|done].
  by rewrite (Hp (key, ss, prev) (pop_last_elem _ _ _ (key, ss, prev) Ep ltac:(set_solver)) k Ek).
Qed.

Lemma queue_outcomes_elem outs : forall keys key, key ∈ queue_outcomes keys outs -> Some key ∈ keys.
Proof.
  induction outs as [|o outs IH]; intros keys key; cbn [queue_outcomes]; [by intros ?%elem_of_nil|].
  destruct (keys !! rule_index o) as [[k|]|] eqn:E; [|apply IH..].
  intros [->|Hin]%elem_of_cons; [by eapply list_elem_of_lookup_2|]. apply IH in Hin.
  apply list_elem_of_lookup in Hin as [i Hi]. apply list_lookup_insert_Some in Hi as [(_ & ? & _)|[_ Hi]]; [done|by eapply list_elem_of_lookup_2].
Qed.

Lemma queue_written_elem outs : forall keys pending w, w ∈ queue_written_outcomes keys outs pending -> w ∈ pending \/ Some w.1.1 ∈ keys.
Proof.
  induction outs as [|o outs IH]; intros keys pending w; cbn [queue_written_outcomes]; [auto|].
  destruct (oc_written o); [apply IH|]. destruct (keys !! rule_index o) as [[k|]|] eqn:E; [|apply IH..].
  intros [[?|Hw%list_elem_of_singleton]%elem_of_app|Hin]%IH; [auto|subst w; right; by eapply list_elem_of_lookup_2|right].
  apply list_elem_of_lookup in Hin as [i Hi]. apply list_lookup_insert_Some in Hi as [(_ & ? & _)|[_ Hi]]; [done|by eapply list_elem_of_lookup_2].
Qed.

Lemma dest_keys_elem key rs : Some key ∈ dest_keys rs <-> key ∈ dest <$> rs.
Proof.
  unfold dest_keys. rewrite list_elem_of_In, in_map_iff, list_elem_of_fmap.
  setoid_rewrite list_elem_of_In. naive_solver.
Qed.

Lemma dest_keys_empty r rs : destinations_is_empty (dest_keys (r :: rs)) = false.
Proof. unfold destinations_is_empty, dest_keys. cbn [map forallb]. by rewrite bool_decide_true by eauto. Qed.

(** ** A change of the source and its rules *)

(** The keyspace [db'] has the series [k'] with [t] in place of [k], and differs
    from [db] in nothing else than the destinations. *)
Definition updated (db db' : Keyspace) (k k' : KeyedSeries) (t : TimeSeries) : Prop :=
  ks_key k' = ks_key k /\ series k' = t /\ dest <$> rules k' = dest <$> rules k /\ forall key, key ∉ ks_key k :: (dest <$> rules k) -> db' !! key = db !! key.

Lemma apply_compaction_feeds fuel db k l l' t op : feeds db k l -> stores chunk_fit t l' -> source_ok t l' -> op_fits op l l' -> (length (rules k) < fuel)%nat ->
  exists db' k', apply_compaction fuel db (ks_with_series k t) op = Some (Ok tt, db') /\ feeds db' k' l' /\ updated db db' k k' t.
Proof.
  intros [Hh _ Hs Hnd Hru] Hst Ht Hop Hf. unfold apply_compaction. cbn [rules ks_with_series].
  destruct (rules k) as [|r rs] eqn:Er.
  { exists (<[ks_key k := ks_with_series k t]> db), (ks_with_series k t). split; [done|]. split.
    - split; cbn; [by rewrite lookup_insert_eq|done|done|by rewrite Er|]. rewrite Er. by intros ? ?%elem_of_nil.
    - split; [done|]. split; [done|]. split; [done|]. intros key Hk. apply lookup_insert_ne. set_solver. }
  rewrite <- Er in *. unfold process_series_with_compaction, get_compaction_series. cbn [ks_key rules ks_with_series].
  rewrite (open_all db (ks_key k) l (rules k) [] Hru Hnd) by (intros; apply not_elem_of_nil). cbn [app ks_key ks_with_rules].
  assert (destinations_is_empty (dest_keys (rules k)) = false) as -> by (rewrite Er; apply dest_keys_empty).
  unfold apply_rules_on_destinations. cbn [series rules ks_with_rules ks_with_series ks_key].
  set (db1 := <[ks_key k := _]> db).
  assert (ks_key k ∉ dest <$> rules k) as Hself. { intros (r' & E & Hr')%list_elem_of_fmap. destruct (Hru r' Hr') as (_ & Hne & _). by apply Hne. }
  destruct (apply_all t op (ks_key k) l l' (rules k)) with (i := 0%nat) (db := db1) as (rs' & db2 & outs & Ea & Hds & Hfr & Hall & Hlen);
    [by apply source_content in Hs|apply Hs..|done|done| |done|].
  { intros r' Hr'. apply feeds_rule_frame; [|by apply Hru]. intros E. apply Hself. rewrite <- E. by apply list_elem_of_fmap_2. }
  rewrite Ea. set (k' := ks_with_rules _ rs'). set (db3 := <[ks_key k := k']> db2).
  assert (Hall' : forall r', r' ∈ rs' -> feeds_rule db3 (ks_key k) l' r').
  { intros r' Hr'. apply feeds_rule_frame; [|by apply Hall]. intros E. apply Hself. rewrite <- E, <- Hds. by apply list_elem_of_fmap_2. }
  assert (Hleaf : forall key, Some key ∈ dest_keys (rules k) -> leaf db3 key).
  { intros key Hkey%dest_keys_elem k0 Ek. rewrite <- Hds in Hkey. apply list_elem_of_fmap in Hkey as (r' & -> & Hr').
    destruct (Hall' r' Hr') as (_ & _ & d & adj & Hd & _ & _ & Hrd & _). congruence. }
  exists db3, k'. split; [|split].
  - assert (Hq := queue_outcomes_length outs (dest_keys (rules k))). assert (Hw := queue_written_length outs (dest_keys (rules k)) []). cbn [length] in Hw.
    destruct op; [apply cascade_writes_leaves..|apply cascade_removal_leaves]; [lia| |lia| |lia| |lia|].
    1-3: intros w [?%elem_of_nil|Hk]%queue_written_elem; [done|by apply Hleaf].
    intros key Hk%queue_outcomes_elem. by apply Hleaf.
  - split; cbn; [apply lookup_insert_eq|done|done|by rewrite Hds|done].
  - split; [done|]. split; [done|]. split; [done|]. intros key Hkey. unfold db3, db1 in *. rewrite lookup_insert_ne by set_solver. rewrite Hfr by set_solver.
    apply lookup_insert_ne. set_solver.
Qed.

(** ** Writes of the source *)

Definition not_newer (l : list Sample) (ts : Timestamp) : bool :=
  match timestamp <$> list.last l with Some last_ts => ts <=? last_ts | None => false end.

(** An upsert into the list is a change its rules are told about. *)
Lemma upsert_change p s l l' : ts_sorted l -> 0 <= timestamp s -> list_upsert p s l = Ok l' ->
  (if not_newer l (timestamp s) then op_fits (Upsert s) l l' else l' = l ++ [s]) /\
  (length l' <= S (length l))%nat /\ (forall x, x ∈ l' -> x ∈ l \/ timestamp x = timestamp s).
Proof.
  intros Hs Hts Hu. assert (Hlk := list_upsert_lookup p s l l'). pose proof (list_upsert_length p s l l' Hs Hu) as Hlen.
  pose proof (list_upsert_sorted p s l l' Hs Hu) as Hs'.
  split; [|split; [rewrite Hlen; destruct (lookup_ts _ l); lia|]].
  - unfold not_newer. destruct (list.last l) as [z|] eqn:Ez; cbn [fmap option_fmap option_map].
    + pose proof Ez as [l0 ->]%last_Some. apply ts_sorted_snoc in Hs as Hz. destruct Hz as [_ Hz]. destruct (Z.leb_spec (timestamp s) (timestamp z)) as [Hle|Hlt].
      * split; [|split; [done|intros u Hne; rewrite (Hlk u Hs Hu); by destruct (Z.eqb_spec u (timestamp s))]].
        exists z. split; [done|]. split; [done|]. pose proof (list_upsert_cases p s (l0 ++ [z]) Hs) as Hc.
        destruct (lookup_ts (timestamp s) (l0 ++ [z])) as [x|] eqn:Ex; destruct Hc as (a & b & Hab & E & Ha & Hb); rewrite E in Hu.
        -- destruct (duplicate_value _ _ _ _); simplify_eq. destruct b as [|y b _] using rev_ind.
           ++ apply app_inj_tail in Hab as [-> ->]. rewrite last_snoc. apply lookup_ts_Some in Ex as [_ <-]. done.
           ++ rewrite app_comm_cons, app_assoc in Hab |- *. apply app_inj_tail in Hab as [_ ->]. by rewrite last_snoc.
        -- simplify_eq. destruct b as [|y b _] using rev_ind.
           ++ exfalso. rewrite app_nil_r in Hab. subst a. apply Forall_app in Ha as [_ [Ha _]%Forall_cons]. lia.
           ++ rewrite app_assoc in Hab. apply app_inj_tail in Hab as [_ ->]. rewrite app_comm_cons, app_assoc. by rewrite last_snoc.
      * rewrite list_upsert_after in Hu; [by injection Hu|]. apply Forall_app. split; [|by constructor].
        eapply Forall_impl; [exact Hz|]. unfold ts_lt. cbn. lia.
    + apply last_None in Ez. subst l. by injection Hu.
  - intros x Hx. destruct (Z.eqb_spec (timestamp x) (timestamp s)) as [|Hne]; [by right|left].
    pose proof (lookup_ts_elem l' x Hs' Hx) as Hl. rewrite (Hlk _ Hs Hu) in Hl. destruct (Z.eqb_spec (timestamp x) (timestamp s)); [done|].
    by apply lookup_ts_Some in Hl as [Hl _].
Qed.

Lemma add_change t l ts v ov : stores chunk_fit t l -> retention t = 0 -> 0 <= ts < 2 ^ 63 -> is_f64 v ->
  exists res ins t' l', add_reporting_insert t ts v ov = (res, ins, t') /\ stores chunk_fit t' l' /\ settings t' = settings t /\
    (length l' <= S (length l))%nat /\ (forall x, x ∈ l' -> x ∈ l \/ timestamp x = ts) /\
    match res with
    | AddOk s => s = make_sample t ts v /\ if not_newer l ts then op_fits (Upsert s) l l' else l' = l ++ [s]
    | _ => l' = l
    end.
Proof.
  intros Hst Hz Hts Hv. pose proof (stores_content _ _ Hst) as [Hs _]. destruct Hst as (ls & Hr & <-).
  destruct (add_spec t ls ts v ov Hr Hts Hv) as (t' & ls' & dead & E & Hr' & Hset & Ecat & _ & _ & Hdead).
  assert (dead = []) as -> by (apply Hdead; unfold retention_is_zero; by rewrite Hz). cbn [app] in Ecat.
  unfold add in E. destruct (add_reporting_insert t ts v ov) as [[res ins] t1] eqn:Ei. injection E as Eres ->.
  exists res, ins, t', (concat ls'). split; [done|]. split; [by exists ls'|]. split; [done|]. rewrite <- Ecat. subst res.
  unfold add_result. destruct (is_older_than_retention t ts); cbn [fst snd]; [by eauto with lia|].
  destruct (list.last (concat ls)) as [x|] eqn:El.
  - destruct (_ && _); cbn [fst snd]; [by eauto with lia|].
    destruct (list_upsert _ _ _) as [l'|e] eqn:Eu; cbn [fst snd]; [|by eauto with lia].
    destruct (upsert_change _ _ _ _ Hs (proj1 Hts : 0 <= timestamp (make_sample t ts v)) Eu) as (Hop & Hlen & Hel). auto.
  - cbn [fst snd]. apply last_None in El. rewrite El. cbn. split; [lia|]. split; [|done]. intros x Hx%list_elem_of_singleton. subst x. by right.
Qed.

(** A source keeps its promises under a write near the present. *)
Lemma change_source t t' l l' ts : source_ok t l -> stores chunk_fit t' l' -> settings t' = settings t -> early ts ->
  (length l' <= S (length l))%nat -> (forall x, x ∈ l' -> x ∈ l \/ timestamp x = ts) ->
  (Z.of_nat (length l) + 1) * SAMPLE_SIZE <= i64_MAX -> source_ok t' l'.
Proof.
  intros [_ Hz He _] Hst Hset Hts Hlen Hel Hroom. split; [by exists chunk_fit| | |].
  - revert Hset. unfold settings. congruence.
  - apply Forall_forall. intros x Hx. destruct (Hel x Hx) as [Hl| ->]; [|done]. unfold all_early in He. rewrite Forall_forall in He. by apply He.
  - unfold fits_memory. unfold SAMPLE_SIZE in *. lia.
Qed.

(** A write that leaves the list alone needs no rule. *)
Lemma same_feeds db k l t : feeds db k l -> stores chunk_fit t l -> source_ok t l ->
  let k' := ks_with_series k t in feeds (<[ks_key k' := k']> db) k' l /\ updated db (<[ks_key k' := k']> db) k k' t.
Proof.
  intros [Hh _ Hs Hnd Hru] Hst Ht k'. split.
  - split; try done; [apply lookup_insert_eq|]. intros r Hr. apply feeds_rule_frame; [|by apply Hru]. by destruct (Hru r Hr) as (_ & Hne & _).
  - split; [done|]. split; [done|]. split; [done|]. intros key Hkey. apply lookup_insert_ne. set_solver.
Qed.

Definition room (l : list Sample) : Prop := (Z.of_nat (length l) + 1) * SAMPLE_SIZE <= i64_MAX.

Lemma handle_add_feeds fuel db k l ts v ov : feeds db k l -> early ts -> is_f64 v -> room l -> (length (rules k) < fuel)%nat ->
  let '(res, t') := add (series k) ts v ov in
  exists db' k' l',
    handle_add fuel db k ts v ov =
      Some (match res with AddOk s => Ok (timestamp s) | Ignored u => Ok u | r => Err (Refused r) end, db') /\
    feeds db' k' l' /\ updated db db' k k' t' /\ (length l' <= S (length l))%nat.
Proof.
  intros Hfd Hts Hv Hroom Hf. pose proof Hfd as [_ Hst Hs _ _].
  destruct (add_change (series k) l ts v ov Hst (so_keeps _ _ Hs) ltac:(unfold early, TIME_BOUND in Hts; lia) Hv)
    as (res & ins & t' & l' & E & Hst' & Hset & Hlen & Hel & Hres).
  pose proof (change_source _ _ _ _ _ Hs Hst' Hset Hts Hlen Hel Hroom) as Hs'.
  unfold handle_add, add. rewrite E. cbn [rules ks_with_series ks_key].
  assert (Hsame : l' = l -> forall r : result WriteError Timestamp, exists db' k' l', Some (r, <[ks_key k := ks_with_series k t']> db) = Some (r, db') /\
    feeds db' k' l' /\ updated db db' k k' t' /\ (length l' <= S (length l))%nat).
  { intros -> r. destruct (same_feeds db k l t' Hfd Hst' Hs'). eauto 8. }
  destruct res; try by apply Hsame. destruct Hres as [-> Hop]. cbn [negb andb].
  destruct (rules k) as [|r rs] eqn:Er.
  - destruct (apply_compaction_feeds fuel db k l l' t' (if not_newer l ts then Upsert (make_sample (series k) ts v) else AddNew (make_sample (series k) ts v)) Hfd Hst' Hs')
      as (db' & k' & E' & Hfd' & Hup); [by destruct (not_newer l ts)|by rewrite Er|].
    unfold apply_compaction in E'. cbn [rules ks_with_series] in E'. rewrite Er in E'. injection E' as <-. eauto 8.
  - rewrite <- Er in *. rewrite (source_last _ _ Hs). cbn [timestamp value make_sample]. fold (not_newer l ts).
    destruct (not_newer l ts).
    + destruct (apply_compaction_feeds fuel db k l l' t' (Upsert (make_sample (series k) ts v)) Hfd Hst' Hs' Hop Hf) as (db' & k' & E' & Hfd' & Hup).
      unfold upsert_compaction. unfold make_sample in E'. rewrite E'. eauto 8.
    + cbn [series ks_with_series]. rewrite (source_last _ _ Hs'), Hop, last_snoc. cbn [from_option id].
      destruct (apply_compaction_feeds fuel db k l l' t' (AddNew (make_sample (series k) ts v)) Hfd Hst' Hs' Hop Hf) as (db' & k' & E' & Hfd' & Hup).
      unfold run_compaction. rewrite E'. eauto 8.
Qed.

Lemma remove_range_feeds fuel db k l st en : feeds db k l -> early st -> early en -> (length (rules k) < fuel)%nat ->
  exists db' k', remove_range_with_compaction fuel db k st en = Some (Ok (Z.of_nat (length (select st en l))), db') /\
    feeds db' k' (remove st en l) /\ updated db db' k k' (remove_range (series k) st en).2.
Proof.
  intros Hfd Hst Hen Hf. pose proof Hfd as [_ (ls & Hr & Hls) Hs _ _]. unfold remove_range_with_compaction.
  destruct (remove_range_spec (series k) ls st en Hr) as (t' & ls' & E & Hr' & Hset & Hrem & Hinv). rewrite E.
  rewrite (visible_zero _ _ Hr (so_keeps _ _ Hs)), Hls in *. cbn [snd].
  assert (stores chunk_fit t' (remove st en l)) as Hst'.
  { destruct (Z.le_gt_cases st en) as [Hle|Hgt]; [exists ls'; by rewrite Hrem|]. rewrite (Hinv Hgt), remove_unselected; [by exists ls|].
    apply select_none, Forall_true. intros. lia. }
  assert (source_ok t' (remove st en l)) as Hs'.
  { destruct Hs as [_ Hz He Hm]. split; [by exists chunk_fit|revert Hset; unfold settings; congruence| |].
    - unfold all_early in *. rewrite Forall_forall in He |- *. intros x [Hx _]%remove_elem. by apply He.
    - revert Hm. unfold fits_memory. pose proof (length_select_remove st en l). unfold SAMPLE_SIZE. lia. }
  destruct (Z.ltb_spec 0 (Z.of_nat (length (select st en l)))) as [Hpos|Hnone].
  - destruct (apply_compaction_feeds fuel db k l (remove st en l) t' (RemoveRange st en) Hfd Hst' Hs' ltac:(done) Hf) as (db' & k' & -> & Hfd' & Hup). eauto.
  - assert (select st en l = []) as Hsel by (destruct (select st en l); [done|cbn in Hnone; lia]).
    rewrite (remove_unselected _ _ _ Hsel) in *. destruct (same_feeds db k l t' Hfd Hst' Hs'). eauto.
Qed.

End Feeds.
