(* ===== verification/CompactionProps.v ===== *)
(** * CompactionProps: what compaction rules guarantee

    Results over [Compaction] and [CompactionGraph]: a rule keeps its destination
    equal to the closed buckets of its source under every operation, commands keep
    all the destinations of a series, the cascade ends, and rules stay without
    cycles.  The last section shows where the code falls short of that. *)

From stdpp Require Import gmap sets strings pretty.
From S2P Require Import Prelude Float64 Types Slice Content ChunkOps Elf64 Log10Ref TimeSeriesChunk ChunkSearch SeriesIterator Rounding.
From S2P Require Import TimeSeries SeriesLaws SeriesReads SeriesWrites SeriesProps Aggregators AggregateIterator AggregateLaws AggregateColumns AggregateProps.
From S2P Require Import Querier Join Compaction CompactionLaws CompactionBatch CompactionGraph CascadeLaws CompactionFeeds.

(** ** Aggregators that publish numbers *)

(** The variants whose value is one of the samples or a truth value. *)
Definition plain_valued (t : AggregationType) : bool :=
  match t with TyFirst | TyLast | TyMin | TyMax | TyAll | TyAny | TyNone => true | _ => false end.

Lemma took_no_numbers (a : Aggregator) ss : (forall ts v, f64_is_nan v = true -> agg_update a ts v = (false, a)) -> numbers ss = [] -> took a ss = false.
Proof.
  intros Ha. induction ss as [|s ss IH]; [done|]. rewrite numbers_cons. destruct (f64_is_nan (value s)) eqn:E; [|done].
  intros Hn. cbn [took]. unfold feed_one. rewrite (Ha _ _ E). by apply IH.
Qed.

Lemma plain_valued_numeric c d adj : plain_valued (aggregation c) = true -> (forall v, adj v = v) ->
  numeric (with_window d (create_aggregator c)) adj.
Proof.
  intros Hp Hadj ss v Hss. unfold bucket_value. destruct (took _ ss) eqn:Et; [|done]. intros [= <-]. rewrite Hadj.
  pose proof (numbers_ok ss Hss) as Hn. set (a := with_window d (create_aggregator c)) in *.
  pose proof (create_reports c d ss ltac:(by destruct c as [[]]) Hss ltac:(intros E; by rewrite E in Hp)) as Hr. fold a in Hr.
  assert (Hne : ss <> []) by (by intros ->).
  assert (Hpick : forall m, m ∈ numbers ss -> number m) by (by apply Forall_forall).
  assert (Htruth : forall b, number (truth b)) by (intros []; split; done).
  change (number (agg_finalize (feed_all a ss)).1). unfold agg_finalize. cbn [fst].
  assert (Hnum : match aggregation c with TyFirst | TyLast | TyMin | TyMax => numbers ss <> [] | _ => True end).
  { destruct (aggregation c) eqn:Ec; try done; intros E; rewrite took_no_numbers in Et; try done; intros ts w Ew;
      destruct c as [t [[]|]]; cbn in Ec; subst t; cbn; by rewrite Ew. }
  destruct c as [t f]; cbn [aggregation] in *. unfold reports in Hr. cbn [aggregation value_filter] in Hr.
  destruct t; try done; destruct (agg_current _) as [m|] eqn:Em; try done.
  all: first [ by destruct ss; [done|]; cbn [when_some] in Hr; injection Hr as ->
             | by destruct ss; [done|]; cbn [when_some] in Hr
             | by apply Hpick; destruct Hr
             | by apply Hpick, head_Some_elem_of
             | by apply Hpick, last_Some_elem_of
             | by destruct (numbers ss)
             | by symmetry in Hr; apply last_None in Hr ].
Qed.

Section Results.

Context `{Log10} `{ServerConfig}.

(** C34. Refinement of one rule, whose aggregator never gives NaN, between a source
    without retention and a destination without retention and IGNORE.  Suppose the
    destination holds the aggregated value of every closed bucket of the source,
    rounded as the destination rounds and up to the sign of a zero, and the rule the
    state of the open one.  Then this is so again after the rule was told of any
    change of the source: a new sample, an update or back-fill, a batch in the
    caller's order, a deleted range.  The operation succeeds.  Timestamps are at
    most 2^60. *)
Theorem compaction_refines (r0 : CompactionRule) (fresh : Aggregator) (adj : f64 -> f64) (op : CompactionOp) (l l' : list Sample)
    (c : CompactionContext) :
  rule_grid r0 -> agg_reset fresh = fresh -> numeric fresh adj ->
  compacted r0 fresh adj l c -> content_ok l -> all_early l -> fits_memory l -> source_ok (parent c) l' -> op_fits op l l' ->
  exists c', apply_op op c = (Ok tt, c') /\ compacted r0 fresh adj l' c' /\ parent c' = parent c.
Proof.
  intros Hg Hf Hn Hc Hl He Hm Hs Hop. destruct (apply_op_spec r0 fresh adj op l l' c) as (c' & E & Hc' & (Hp & _)); try done. eauto.
Qed.

(** ** Commands *)

Inductive Command :=
| CmdAdd (ts : Timestamp) (v : f64) (on_duplicate : option DuplicatePolicy)
| CmdDel (start_ts end_ts : Timestamp).

Definition run_command (fuel : nat) (key : string) (db : Keyspace) (cmd : Command) : option Keyspace :=
  match db !! key with
  | None => None
  | Some k =>
      match cmd with
      | CmdAdd ts v ov => snd <$> handle_add fuel db k ts v ov
      | CmdDel st en => snd <$> remove_range_with_compaction fuel db k st en
      end
  end.

Fixpoint run_commands (fuel : nat) (key : string) (db : Keyspace) (cmds : list Command) : option Keyspace :=
  match cmds with
  | [] => Some db
  | cmd :: cmds => match run_command fuel key db cmd with Some db => run_commands fuel key db cmds | None => None end
  end.

Definition command_ok (cmd : Command) : Prop :=
  match cmd with
  | CmdAdd ts v _ => early ts /\ is_f64 v
  | CmdDel st en => early st /\ early en
  end.

(** A series as creation makes it. *)
Definition new_series (t : TimeSeries) : Prop := exists o, with_options o = Ok t /\ retention t = 0.

(** A new series whose rules lead to new series without rules of their own. *)
Record linked (db : Keyspace) (k : KeyedSeries) : Prop := {
  lk_here : db !! ks_key k = Some k;
  lk_new : new_series (series k);
  lk_dests : NoDup (dest <$> rules k);
  lk_rules : forall r, r ∈ rules k -> rule_grid r /\ r = rule_reset r /\ dest r <> ks_key k /\
    exists d, db !! dest r = Some d /\ ks_key d = dest r /\ src_series d = Some (ks_key k) /\ rules d = [] /\ last_forward_close d = None /\
      new_series (series d) /\ plain (series d) /\ numeric (agg_reset (aggregator r)) (adjust_value (series d));
}.

Lemma new_stores t : new_series t -> stores chunk_fit t [] /\ retention t = 0.
Proof. intros (o & Ho & Hz). split; [|done]. exists []. split; [|done]. apply (fresh_stores o t Ho). lia. Qed.

Lemma linked_feeds db k : linked db k -> feeds db k [].
Proof.
  intros [Hh [Hst Hz]%new_stores Hnd Hru]. split; try done.
  - split; [by exists chunk_fit|done|constructor|done].
  - intros r Hr. destruct (Hru r Hr) as (Hg & Hreset & Hne & d & Hd & Hk & Hsrc & Hrd & Hlast & [Hdst _]%new_stores & Hpl & Hn).
    split; [done|]. split; [done|]. exists d, (adjust_value (series d)). split_and!; try done.
    split; [|done|done]. exists []. split_and!; [done|constructor|]. intros x. by rewrite Hlast.
Qed.

Lemma run_command_feeds fuel db k l cmd : feeds db k l -> command_ok cmd -> room l -> (length (rules k) < fuel)%nat ->
  exists db' k' l', run_command fuel (ks_key k) db cmd = Some db' /\ feeds db' k' l' /\ (length l' <= S (length l))%nat /\
    ks_key k' = ks_key k /\ dest <$> rules k' = dest <$> rules k /\
    forall key, key ∉ ks_key k :: (dest <$> rules k) -> db' !! key = db !! key.
Proof.
  intros Hfd Hc Hroom Hf. unfold run_command. rewrite (fd_here _ _ _ Hfd). destruct cmd as [ts v ov|st en]; destruct Hc as [Hc1 Hc2].
  - pose proof (handle_add_feeds fuel db k l ts v ov Hfd Hc1 Hc2 Hroom Hf) as Hadd. destruct (add _ _ _ _) as [res t'].
    destruct Hadd as (db' & k' & l' & -> & Hfd' & (Hk & _ & Hd & Hfr) & Hlen). by exists db', k', l'.
  - destruct (remove_range_feeds fuel db k l st en Hfd Hc1 Hc2 Hf) as (db' & k' & -> & Hfd' & Hk & _ & Hd & Hfr).
    exists db', k', (remove st en l). split_and!; try done. pose proof (length_select_remove st en l). lia.
Qed.

(** C33. End to end.  Start from a new series without retention, with rules to
    distinct new destinations that have no rules of their own, no retention and no
    IGNORE, and with aggregators that never give NaN ([plain_valued_numeric] shows
    it of first, last, min, max, all, any and none; [recalculated_nan_lost] shows
    why irate is not one).  Run any commands that add or delete samples at
    timestamps up to 2^60, in any order.  Every command concludes; afterwards each
    destination holds, for each closed bucket of what the source then stores, the
    value of its aggregator over the samples of that bucket, rounded as the
    destination rounds and up to the sign of a zero, and nothing else; and no other
    series has changed. *)
Theorem commands_keep_destinations (fuel : nat) (db : Keyspace) (k : KeyedSeries) (cmds : list Command) :
  linked db k -> Forall command_ok cmds -> Z.of_nat (S (length cmds)) * SAMPLE_SIZE <= i64_MAX -> (length (rules k) < fuel)%nat ->
  exists db' k' l, run_commands fuel (ks_key k) db cmds = Some db' /\ feeds db' k' l /\
    ks_key k' = ks_key k /\ dest <$> rules k' = dest <$> rules k /\
    forall key, key ∉ ks_key k :: (dest <$> rules k) -> db' !! key = db !! key.
Proof.
  intros Hlk Hcs Hsize Hf. apply linked_feeds in Hlk.
  assert (Hroom : Z.of_nat (length (@nil Sample) + S (length cmds)) * SAMPLE_SIZE <= i64_MAX) by done.
  revert Hlk Hroom Hf. clear Hsize. generalize (@nil Sample) as l. revert db k.
  induction Hcs as [|cmd cmds Hc _ IH]; intros db k l Hfd Hroom Hf; cbn [run_commands]; [by exists db, k, l|].
  cbn [length] in Hroom. unfold SAMPLE_SIZE in *.
  destruct (run_command_feeds fuel db k l cmd Hfd Hc) as (db1 & k1 & l1 & -> & Hfd1 & Hlen & Hk & Hd & Hfr);
    [unfold room, SAMPLE_SIZE; lia|done|].
  destruct (IH db1 k1 l1 Hfd1) as (db' & k' & l' & E & Hfd' & Hk' & Hd' & Hfr'); [lia|by rewrite <- (length_fmap dest), Hd, length_fmap|].
  exists db', k', l'. rewrite <- Hk. split_and!; [done|done|done|congruence|]. intros key Hkey. rewrite Hfr' by (by rewrite Hd).
  apply Hfr. by rewrite <- Hk.
Qed.

(** ** Several levels *)

(** C35. The cascade ends.  Whatever the rules between the series of a keyspace,
    cyclic or stale ones included, an operation on a series with its rules comes
    to an end: one turn of the loop per rule is enough. *)
Theorem cascade_terminates (fuel : nat) (db : Keyspace) (k : KeyedSeries) (op : CompactionOp) :
  well_keyed db -> (total_rules db k < fuel)%nat -> is_Some (apply_compaction fuel db k op).
Proof.
  intros Hw Hf. unfold apply_compaction. destruct (rules k); [by eexists|]. by apply process_total.
Qed.

Definition may_update (caller : Caller) (k : string) : Prop := check_key_permissions caller k UPDATE = Ok tt.

(** Along live rules the series [b] comes to a rule for a key of another type. *)
Definition leads_astray (others : gset string) (db : Keyspace) (b : string) : Prop := exists j, rtc (live db) b j /\ misdirected others db j.

(** The caller may make [a] feed [b]. *)
Definition can_link (caller : Caller) (others : gset string) (db : Keyspace) (a b : string) : Prop :=
  a <> b /\ (may_update caller a /\ is_Some (db !! a)) /\
  (may_update caller b /\ exists d, db !! b = Some d /\ live_source_key db d = None) /\
  ~ rtc (live db) b a /\ ~ leads_astray others db b.

(** Opening a series to change it. *)
Lemma get_linked_cases caller others db k :
  (exists s, get_linked caller others db k (Some UPDATE) = Ok s /\ may_update caller k /\ db !! k = Some s) \/
  (exists e, get_linked caller others db k (Some UPDATE) = Err e /\ ~ (may_update caller k /\ is_Some (db !! k)) /\ (e = WrongType -> foreign others db k)).
Proof.
  unfold get_linked, try_get_linked, may_update. destruct (check_key_permissions caller k UPDATE) as [[]|e] eqn:Ec.
  - destruct (db !! k) as [s|] eqn:Es; [left; by exists s|]. right. case_bool_decide as Ho; (eexists; split; [done|]); split; try done; by intros [_ []].
  - right. exists e. split; [done|]. split; [by intros []|]. intros ->. unfold check_key_permissions, access_check in Ec. by repeat case_match.
Qed.

(** C36. Rules without cycles.  [TS.CREATERULE] with arguments that parse decides
    exactly.  It links two different series that the caller may update when the
    destination has no live source, cannot reach the source along live rules and
    comes to no rule for a key of another type on these; it refuses with the
    keyspace unchanged otherwise.  So the live rules never form a cycle.  The
    message for circular rules is only given for a cycle, and the wrong-type error
    only for a key that holds another type.  A destination with rules of its own
    is linked like any other, although the documentation of the command excludes
    it. *)
Theorem create_rule_acyclic (fuel : nat) (caller : Caller) (others : gset string) (db : Keyspace) (a b : string) (parsed : result string CompactionRule) :
  well_keyed db -> acyclic db -> (size db < fuel)%nat -> (forall rule, parsed = Ok rule -> dest rule = b) ->
  exists res db', create_rule fuel caller others db a b parsed = Some (res, db') /\ well_keyed db' /\ acyclic db' /\
    (res = Ok tt <-> can_link caller others db a b /\ exists rule, parsed = Ok rule) /\
    (res = Ok tt -> live db' a b) /\ (res <> Ok tt -> db' = db) /\
    (res = Err (RuleMessage COMPACTION_CIRCULAR_DEPENDENCY) -> rtc (live db) b a) /\
    (res = Err (RuleOpen WrongType) -> foreign others db a \/ foreign others db b \/ leads_astray others db b).
Proof.
  intros Hw Hac Hf Hrule. unfold create_rule.
  assert (Hstop : forall e : RuleError, ~ (can_link caller others db a b /\ exists rule, parsed = Ok rule) ->
    (e = RuleMessage COMPACTION_CIRCULAR_DEPENDENCY -> rtc (live db) b a) ->
    (e = RuleOpen WrongType -> foreign others db a \/ foreign others db b \/ leads_astray others db b) ->
    exists res db', Some (@Err RuleError unit e, db) = Some (res, db') /\ well_keyed db' /\ acyclic db' /\
    (res = Ok tt <-> can_link caller others db a b /\ exists rule, parsed = Ok rule) /\
    (res = Ok tt -> live db' a b) /\ (res <> Ok tt -> db' = db) /\
    (res = Err (RuleMessage COMPACTION_CIRCULAR_DEPENDENCY) -> rtc (live db) b a) /\
    (res = Err (RuleOpen WrongType) -> foreign others db a \/ foreign others db b \/ leads_astray others db b)).
  { intros e Hn Hc Ho. exists (Err e), db. split_and!; try done; [by intros [= ?]; apply Hc|by intros [= ?]; apply Ho]. }
  unfold can_link in *. case_bool_decide as Hab; [apply Hstop; [tauto|done..]|].
  destruct (get_linked_cases caller others db a) as [(source & -> & Ha & Ea)|(e & -> & Hn & He)]; [|apply Hstop; [tauto|done|intros [= ->]; auto]].
  destruct (get_linked_cases caller others db b) as [(d & -> & Hb & Eb)|(e & -> & Hn & He)].
  2:{ apply Hstop; [|done|intros [= ->]; auto]. intros [(_ & _ & (? & d & ? & _) & _) _]. apply Hn. split; [done|by exists d]. }
  case_bool_decide as Hls; [apply Hstop; [|done..]; intros [(_ & _ & (_ & d' & Hd' & Hn) & _) _]; simplify_eq; rewrite Hn in Hls; by destruct Hls|].
  apply eq_None_not_Some in Hls. destruct parsed as [rule|e]; [|apply Hstop; [by intros [_ []]|done..]]. specialize (Hrule _ eq_refl).
  unfold check_new_rule_circular_dependency.
  destruct (dependency_reaches_exact caller others db Hw a fuel b Hf) as ([[[] v]|e] & -> & Hr); [by eexists|apply Hstop; [tauto|done..]| |].
  2:{ destruct Hr as [-> Hr]. apply Hstop; [by intros [(_ & _ & _ & _ & []) _]|done|by right; right]. }
  destruct Hr as [Hnr Hna]. destruct (live_create db a b rule source d Ea Eb Hab Hrule) as [Hw' Hlive].
  eexists _, _. split; [done|]. split; [by apply Hw'|]. split_and!; try done.
  - intros x Hx. apply (tc_extra_edge _ _ a b Hlive) in Hx as [Hx|[H1 H2]]; [by apply (Hac x)|]. apply Hnr. by etrans.
  - split; [|done]. intros _. split; [|by exists rule]. split_and!; eauto.
  - intros _. eexists _, _, (rule_with rule _ _ _). rewrite lookup_insert_ne, lookup_insert_eq by done. split; [done|].
    split; [apply elem_of_app; right; by left|]. rewrite lookup_insert_eq. done.
Qed.

End Results.

(** ** Instances *)

#[local] Instance compaction_config : ServerConfig := {| config_duplicate_policy := KeepLast; config_retention_period := 0 |}.

Definition compaction_options : TimeSeriesOptions := mkTimeSeriesOptions EncUncompressed (Some 4096) (Some 0) None None None.
Definition new_stored : TimeSeries :=
  match with_options compaction_options with Ok t => t | Err _ => demo_new end.

Lemma new_stored_options : with_options compaction_options = Ok new_stored.
Proof. vm_compute. reflexivity. Qed.

Lemma new_stored_plain : plain new_stored /\ forall v, adjust_value new_stored v = v.
Proof. repeat split; vm_compute; reflexivity. Qed.

Lemma new_stored_new : new_series new_stored.
Proof. exists compaction_options. split; [apply new_stored_options|apply new_stored_plain]. Qed.

Definition new_rule (key : string) (t : AggregationType) (d : Z) : CompactionRule :=
  mkCompactionRule key (create_aggregator (config t)) d 0 None false.

Definition new_keyed (key : string) (rs : list CompactionRule) (src : option string) : KeyedSeries := mkKeyedSeries key new_stored rs src None.

(** Three new series without rules. *)
Definition three_series : Keyspace :=
  <["a" := new_keyed "a" [] None]> (<["b" := new_keyed "b" [] None]> (<["c" := new_keyed "c" [] None]> ∅)).

Definition with_rule (db : Keyspace) (a b : string) (t : AggregationType) (d : Z) : Keyspace :=
  match create_rule 10 (mkCaller false None) ∅ db a b (Ok (new_rule b t d)) with Some (_, db) => db | None => ∅ end.

Definition run_on (key : string) (cmds : list Command) (db : Keyspace) : Keyspace := default ∅ (run_commands 10 key db cmds).

Definition contents (key : string) (db : Keyspace) : list Sample :=
  match db !! key with Some k => get_range (series k) 0 i64_MAX | None => [] end.

Definition adds (tss : list Timestamp) (v : f64) : list Command := map (fun ts => CmdAdd ts v None) tss.

(** ** Where destinations and sources part *)

(** A recalculated value that is not a number is lost.  The destination of
    an [irate] rule holds 1000 for the bucket at 0.  After one of its two samples
    is deleted the value of the bucket is NaN, as the recalculation finds, but
    the write under [KeepLast] keeps the old value: the destination still holds
    1000. *)
Theorem recalculated_nan_lost :
  let db := run_on "a" [CmdAdd 0 f64_one_value None; CmdAdd 5 (f64_of_usize 6) None; CmdAdd 12 f64_one_value None; CmdDel 5 5]
              (with_rule three_series "a" "b" TyIRate 10) in
  contents "a" db = [mkSample 0 f64_one_value; mkSample 12 f64_one_value] /\
  bucket_value (with_window 10 (create_aggregator (config TyIRate))) [mkSample 0 f64_one_value] = Some f64_NAN /\
  contents "b" db = [mkSample 0 (f64_of_usize 1000)].
Proof. vm_compute. repeat split; reflexivity. Qed.

(** The cascade is not exact.  A deletion is passed down with the range it
    had at the top, so a bucket two levels down is removed although the series
    between still has a sample in it; and a bucket that an update empties in the
    series between is not passed down at all. *)
Theorem cascade_inexact :
  (let db := run_on "a" (adds [1; 11; 19; 35; 41] f64_one_value ++ [CmdDel 5 17])
               (with_rule (with_rule three_series "a" "b" TySum 10) "b" "c" TySum 4) in
   lookup_ts 10 (contents "b" db) = Some (mkSample 10 f64_one_value) /\ lookup_ts 8 (contents "c" db) = None /\
   lookup_ts 8 (contents "c" (run_on "a" (adds [1; 19; 35; 41] f64_one_value)
               (with_rule (with_rule three_series "a" "b" TySum 10) "b" "c" TySum 4))) = Some (mkSample 8 f64_one_value)) /\
  (let db := run_on "a" (adds [1; 11; 25; 31; 45; 51; 65] f64_NAN ++ [CmdAdd 1 f64_one_value None])
               (with_rule (with_rule three_series "a" "b" TyCountNan 10) "b" "c" TySum 20) in
   select 0 19 (contents "b" db) = [mkSample 10 f64_one_value] /\
   lookup_ts 0 (contents "c" db) = Some (mkSample 0 (f64_of_usize 2))).
Proof. vm_compute. repeat split; reflexivity. Qed.

(** ** Witnesses *)

Lemma max_numeric (d : Z) : numeric (with_window d (create_aggregator (config TyMax))) (adjust_value new_stored).
Proof. by apply plain_valued_numeric; [|apply new_stored_plain]. Qed.

Lemma new_rule_grid key : rule_grid (new_rule key TyMax 10).
Proof. split; vm_compute; repeat split; discriminate. Qed.

Definition linked_source : KeyedSeries := new_keyed "a" [new_rule "b" TyMax 10] None.
Definition linked_db : Keyspace := <["a" := linked_source]> (<["b" := new_keyed "b" [] (Some "a"%string)]> ∅).

Lemma linked_db_linked : linked linked_db linked_source.
Proof.
  split; [done|apply new_stored_new|cbn; apply NoDup_singleton|]. intros r Hr%list_elem_of_singleton. subst r.
  split; [apply new_rule_grid|]. split; [done|]. split; [done|]. exists (new_keyed "b" [] (Some "a"%string)).
  split_and!; try done; [apply new_stored_new|apply (max_numeric 10)].
Qed.

Lemma linked_db_live x y : live linked_db x y -> x = "a"%string /\ y = "b"%string.
Proof.
  intros (s & d & r & Hx & Hr & Hd & _). unfold linked_db in Hx. apply lookup_insert_Some in Hx as [[<- <-]|[_ Hx]].
  - apply list_elem_of_singleton in Hr. by subst r.
  - apply lookup_insert_Some in Hx as [[<- <-]|[_ Hx]]; [by apply elem_of_nil in Hr|]. by rewrite lookup_empty in Hx.
Qed.

Lemma linked_db_keyed : well_keyed linked_db.
Proof.
  intros k s Hk. unfold linked_db in Hk. apply lookup_insert_Some in Hk as [[<- <-]|[_ Hk]]; [done|].
  apply lookup_insert_Some in Hk as [[<- <-]|[_ Hk]]; [done|]. by rewrite lookup_empty in Hk.
Qed.

Lemma linked_db_acyclic : acyclic linked_db.
Proof.
  intros k Hk. assert (forall x y, tc (live linked_db) x y -> x = "a"%string /\ y = "b"%string) as Htc.
  { intros x y Hxy. induction Hxy as [x y Hxy|x y z Hxy _ IH]; [by apply linked_db_live|]. apply linked_db_live in Hxy as [-> ->]. by destruct IH. }
  apply Htc in Hk as [-> Hk]. done.
Qed.

Lemma commands_keep_destinations_witness : exists db' k' l,
  run_commands 2 "a" linked_db (adds [12; 3; 27] f64_one_value ++ [CmdDel 0 5]) = Some db' /\ feeds db' k' l.
Proof.
  destruct (commands_keep_destinations 2 linked_db linked_source (adds [12; 3; 27] f64_one_value ++ [CmdDel 0 5])) as (db' & k' & l & E & Hf & _).
  - apply linked_db_linked.
  - repeat constructor; vm_compute; discriminate.
  - vm_compute. discriminate.
  - cbn. lia.
  - exists db', k', l. exact (conj E Hf).
Defined.

Lemma cascade_terminates_witness :
  is_Some (apply_compaction 3 linked_db linked_source (AddNew (mkSample 5 f64_one_value))).
Proof.
  apply (cascade_terminates 3 linked_db linked_source).
  - apply linked_db_keyed.
  - vm_compute. lia.
Defined.

Lemma create_rule_acyclic_witness : exists res db',
  create_rule 3 (mkCaller false None) {["c"%string]} linked_db "b" "a" (Ok (new_rule "a" TyMax 20)) = Some (res, db') /\ acyclic db' /\ res <> Ok tt.
Proof.
  destruct (create_rule_acyclic 3 (mkCaller false None) {["c"%string]} linked_db "b" "a" (Ok (new_rule "a" TyMax 20))) as (res & db' & E & _ & Hac & Hok & _).
  - apply linked_db_keyed.
  - apply linked_db_acyclic.
  - vm_compute. lia.
  - by intros rule [= <-].
  - exists res, db'. split; [exact E|]. split; [exact Hac|]. intros [(_ & _ & _ & Hn & _) _]%Hok. apply Hn, rtc_once.
    exists linked_source, (new_keyed "b" [] (Some "a"%string)), (new_rule "b" TyMax 10). split_and!; try done. by left.
Defined.

Lemma compaction_refines_witness : exists c',
  apply_op (AddNew (mkSample 5 f64_one_value))
    (mkContext (add new_stored 5 f64_one_value None).2 (new_keyed "b" [] (Some "a"%string)) (new_rule "b" TyMax 10) []) = (Ok tt, c').
Proof.
  assert (Hsrc : source_ok (add new_stored 5 f64_one_value None).2 [mkSample 5 f64_one_value]).
  { destruct new_stored_new as (o & Ho & Hz).
    destruct (add_spec new_stored [] 5 f64_one_value None (fresh_stores o new_stored Ho ltac:(rewrite Hz; lia)) ltac:(lia) ltac:(vm_compute; split; [discriminate|reflexivity]))
      as (t' & ls' & dead & E & Hr & Hset & Hcat & _ & _ & Hdead).
    assert (dead = []) as Hdead' by (by apply Hdead). rewrite Hdead' in Hcat. rewrite E. cbn [snd]. split.
    - exists chunk_fit, ls'. split; [done|]. cbn [app] in Hcat. by rewrite <- Hcat.
    - revert Hset. unfold settings. by intros [= ->].
    - repeat constructor; vm_compute; discriminate.
    - vm_compute. discriminate. }
  destruct (compaction_refines (new_rule "b" TyMax 10) (with_window 10 (create_aggregator (config TyMax))) (adjust_value new_stored)
    (AddNew (mkSample 5 f64_one_value)) [] [mkSample 5 f64_one_value]
    (mkContext (add new_stored 5 f64_one_value None).2 (new_keyed "b" [] (Some "a"%string)) (new_rule "b" TyMax 10) [])) as (c' & E & _).
  - apply new_rule_grid.
  - done.
  - apply max_numeric.
  - split; [done|]. split; [|done|done]. exists []. split_and!; [by apply new_stores, new_stored_new|constructor|done].
  - split; constructor.
  - constructor.
  - done.
  - exact Hsrc.
  - done.
  - exists c'. exact E.
Defined.
